(* ===== verification/_CoqProject ===== *)
-Q . S2P
Prelude.v
Sha256.v
PyJson.v
PyLoads.v
Refs.v
Canonical.v
Config.v
ConfigFacts.v
Templating.v
Channels.v
Routing.v
Admission.v
AdmissionInv.v
AdmissionKeys.v
AdmissionSteps.v
AdmissionSem.v
AdmissionProps.v
AdmissionDedup.v
AdmissionRates.v
AdmissionLive.v
StateRefs.v
Effects.v
Storage.v
StorageDocs.v
StorageLogic.v
StorageSpecs.v
StoragePersist.v
StorageProps.v
Tokens.v
Artifacts.v
ArtifactsProps.v
Cache.v
Archive.v
Public.v
Wire.v
Sessions.v
Execution.v
ExecutionInv.v
ExecutionSteps.v
ExecutionQuiet.v
ExecutionProps.v
Opencode.v
OpencodeEngine.v
OpencodeFacts.v
OpencodeRace.v
OpencodeProps.v
Traces.v
Delivery.v
DeliveryProps.v
Lifecycle.v
LifecycleProps.v
Manager.v
ManagerInv.v
ManagerSteps.v
ManagerProps.v
ManagerLive.v
Hosted.v
HostedProps.v
Facade.v
FacadeProps.v
Catalog.v
CatalogProps.v
Control.v
ControlProps.v
ControlCalls.v
Keys.v
KeysProps.v
Histories.v
Queue.v
QueueProps.v
Cron.v
CronProps.v
Snapshots.v
SnapshotsProps.v
Api.v
ApiProps.v
Hooks.v
HooksProps.v
