(* ===== verification/Prelude.v ===== *)
(** * A verification of the ach-agent runtime

    The Python package [ach_runtime] (src/runtime/src/ach_runtime) runs agents: channels turn
    outside events into invocations, the Harness admits them and serializes the turns of a
    session, an execution pod (the mini-harness) hands each turn to a native engine, and
    fenced storage keeps what a Workspace produced.  This library models the decisions of that
    program and proves what they promise.  Paths below are relative to the package.

    ** How the parts interact

    A webhook is authenticated and normalized (channels/auth, webhook, gitlab), routed to a
    Workspace key and a session key by the channel's templates (channels/routing,
    templating/render) under a checked configuration (config/schema, config/canonical), and
    admitted (harness/admission): deduplicated, bounded, queued per session.  The Harness
    names its identities by digests (harness/refs), sends the run to the execution pod over
    the documents of execution/wire with the projection of config/public and the tokens of
    harness/tokens.  There execution/service keeps one record per invocation and drives the
    engine (engine/opencode behind engine/base).  Before and after a turn the state of the
    Workspace and of its sessions moves through storage (storage/refs, api, fencing, s3,
    cache) as checked archives (storage/archive, execution/snapshots), and its artifacts are
    published beside them (storage/artifacts).

    Queues and schedules feed the same admission (channels/queue, cron).  harness/control
    follows every admitted run to its end: it has the Workspace placed (harness/workspaces,
    over the host of harness/hosted), sends the Start (harness/delivery) to the pod's private
    API (execution/app, auth), watches it and releases its lane.  The engine reaches models
    and tools only through the Harness's facades (facades/model, mcp), under the catalog
    that harness/hydrate composes and the credential harness/keys exchanges.

    ** The files

    Foundations.
    - Prelude: results, exceptions by class, association lists, string lemmas.
    - Sha256: SHA-256 and HMAC, executable, so digests and signatures evaluate.
    - PyJson, PyLoads: JSON values as Python holds them, [json.dumps] with compact and default
      separators, [json.loads], and their round trip.
    - Effects: coroutines as trees of calls to an environment, with a rely-guarantee logic.

    Identities and configuration.
    - Refs (harness/refs.py), StateRefs (storage/refs.py): refs, names, object keys; distinct
      identities give distinct refs or exhibit a SHA-256 collision; keys of distinct domains
      are disjoint.
    - Canonical (config/canonical.py), Config and ConfigFacts (config/schema.py): every block
      of the schema with its constraints and validators, the version handshake, and what an
      accepted configuration guarantees.
    - Public (config/public.py): the projection the execution pod receives.

    Channels.
    - Templating (templating/render.py), Channels (channels/event.py, auth.py, webhook.py,
      gitlab.py), Routing (channels/routing.py).

    Admission: harness/admission.py.
    - Admission: the state and one definition per segment of the asyncio program;
      AdmissionInv, AdmissionKeys, AdmissionSteps: the ledger and lane invariant of every
      reachable state; AdmissionSem: the permit pools; AdmissionProps, AdmissionDedup,
      AdmissionRates, AdmissionLive: single delivery, FIFO, bounds, deduplication, retention,
      rolling rate windows, and progress of an idle lane.

    Storage: storage/s3.py, api.py, fencing.py, cache.py, archive.py.
    - Storage: documents with their strict validation, and the operations as programs;
      StorageDocs: their round trips; StorageLogic: the laws relied on of the bucket and the
      invariants of its histories; StorageSpecs, StoragePersist: one
      specification per operation under interference; StorageProps: refinement of a fenced
      register, receipts that agree and last, fencing, restores that serve committed bytes,
      bounded retries; and a bucket in memory with a run on it.
    - Cache: the bounded read cache.  Archive: the member check against a reference walk.

    Execution pod.
    - Tokens (harness/tokens.py), Wire (execution/wire.py), Sessions (execution/sessions.py).
    - Execution: execution/service.py as a step relation over the segments of its tasks;
      ExecutionInv, ExecutionSteps, ExecutionQuiet: the invariants of every reachable state;
      ExecutionProps: exclusive engine turns, a single native send, final records, idempotent
      retries, the retention bound, cleanups that end by the clock, what a close leaves, and a
      run that satisfies their hypotheses.
    - Opencode: the correlation of native events with invocations in engine/opencode.py;
      OpencodeEngine: the engine's answers, settlement and cancellation verdict;
      OpencodeFacts, OpencodeRace, OpencodeProps: busy intervals are bracketed, one native
      execution settles at most one invocation, and a receipt that arrives after the events of
      its own input gives the answer it would have given before them.

    Harness: what connects admission to the execution pod.
    - Traces: the run of a program as the list of its calls with their answers, and monitors
      that judge it; the theorems of the files below quantify over every run.
    - Delivery, DeliveryProps (harness/delivery.py): a Start is never sent
      twice on a guess, and its send loop ends by the deadline.
    - Lifecycle, LifecycleProps (harness/lifecycle.py): session saves,
      Workspace closes and the tick; a tick takes no work away and retires only what it saved.
    - Manager (harness/workspaces.py): every coroutine cut at its awaits, the tasks of a
      Workspace in the order of its lock; ManagerInv: the invariant of one Workspace;
      ManagerSteps: what the source, the probe and the callbacks may answer ([lawful]) and
      the reachable states; ManagerProps: at most one unit of a Workspace; ManagerLive: every
      waiter is woken, with runs that satisfy their hypotheses, and the two that
      show where the guarantee ends (two closers, and a close that is refused).
    - Hosted, HostedProps (harness/hosted.py, launch.py): the inventory the host
      reports and the routes it calls; the source keeps the contract of
      [WorkspaceSource] (a refinement), what it reports as placed is current, and a cursor
      tells every change.
    - Control, ControlProps, ControlCalls (harness/control.py): what becomes of
      an admitted run (a run is watched until its pod says it ended or is known to be lost,
      and a run the Harness cannot record never ends), what a reconnect accepts of a pod's
      inventory, and which facade calls are answered for which run.
    - Keys, KeysProps (harness/keys.py): the exchange of the service-account token
      for a credential, its rotation, and re-exchanges after a rejection, as steps around one
      lock; where the rotation misses the expiry or never pauses.

    Facades and catalog.
    - Facade, FacadeProps (facades/_proxy.py, model.py, mcp.py): what a request
      of the engine becomes upstream, and the answer it gets back.
    - Catalog, CatalogProps (harness/hydrate.py): the public catalog names only this
      Harness's facades; the templates of prompts.

    Around the edges.
    - StorageSpecs also holds the rules of the storage calls, for any interference; Artifacts
      uses them.  Artifacts, ArtifactsProps (storage/artifacts.py):
      an artifact is published once, whatever interleaves and fails.
    - Histories: programs whose every call is judged by all that happened before.  Queue,
      QueueProps (channels/queue.py): a message is acknowledged exactly when its delivery
      started; and a pending entry is swept once only.  Cron, CronProps (channels/cron.py):
      every tick is fired once, in order, not early, with runs of both.
    - Histories also has programs alone in their world ([does]).  Snapshots, SnapshotsProps
      (execution/snapshots.py): archives replace directories wholly or not at all, with a
      fault at any file operation; only a session's own snapshot is restored, under its lock;
      and how a failed import freezes the Workspace.
    - Api, ApiProps (execution/app.py, auth.py): the private API of the pod; the
      composition with the client of Delivery, through Tokens and Wire: the two agree on who
      is asked, with what, and on the receipt.
    - Hooks, HooksProps (harness/handoff.py, scripts.py): both runners of hooks; what gets into
      the environment of a hook, that no process and no directory is left however a script
      ends, what is kept of its output, and the secrets that escape the redaction of it.

    ** Conventions

    A call that may raise is a [result exn A]; exceptions are kept by class (and the flag
    [ambiguous] of [NativeLaunchFailed]), messages only where the program stores or compares
    them.  Python strings are their UTF-8 bytes; case mapping, character classes and
    [isascii] tests are those of ASCII.  Integers are unbounded [Z] as in Python; floats are
    opaque values with the comparisons the program makes on them.  Dicts whose order or
    mutation matters are association lists in insertion order, other maps are [gmap]s.
    Coroutines are cut at their awaits: a definition is what runs between two of them, and
    the theorems quantify over every interleaving.  Clocks are arguments, in microseconds.

    ** Bounds and fuel

    The CAS loop of storage retries 20 times, so an acquisition makes at most 40 calls; the
    template scanner and the redaction of tokens run on the length of their text, and no
    result of theirs is cut by it; a cleanup escalates at its force deadline of 10 seconds
    and gives up 5 seconds later; the registry retains 1024 runs; the admission's bounds are
    those of its configuration; a delivery sends at most once per half second until its
    deadline, and that is the fuel of its loop; the retry loops of a close run on fuel.  The
    loops of the queue consumer and of the cron scheduler run for ever: their fuel is a number
    of rounds, and the theorems hold for every number.  The chunks an artifact is read in are bounded by its
    length.  The swaps of archives are proved for one fault, which is what their rollback is
    written for.  JSON reading takes the length of the text as fuel.

    ** What is assumed

    Code outside the repository is a parameter with named laws: Pydantic's decoding of a
    field, [rfc8785], the bucket behind boto3 (class [S3Backend], with an instance in memory),
    Ed25519, datetime parsing, float arithmetic, [repr], hooks, the engine's processes and
    HTTP answers.  SHA-256 is computed, never assumed injective.

    ** Not modelled

    Processes, pipes, sockets, the file system beyond what a check or a swap observes of it,
    HTTP framing, logging, and the assembly code that only connects objects: the adapters of
    the A2A and MCP SDKs (channels/a2a, the tool facades; of those only the
    outcome of a memory call, in Catalog), the processes of scripts and handoffs,
    the second engine (engine/pi), command lines and start-up; see the components of the
    manifest for each file.  asyncio cancellation is a step of the execution service and of
    admission, and an answer of the calls of the queue, cron and snapshot programs; storage
    operations, artifacts and the routes of the private API are not cancelled. *)

(** * Prelude: what the files share *)

From stdpp Require Export base option list gmap strings pretty.
From Stdlib Require Export ZArith Lia.
From Stdlib Require Import Ascii.

(** ** Python exceptions and fallible code

    A Python call that may raise is a value of [result exn A].  Only the class of the
    exception is kept; its message is not part of the model. *)
Inductive exn :=
  | ValueError | TypeError | KeyError | AttributeError | OverflowError
  | TimeoutError | RuntimeError | AssertionError
  | RoutingError | UnresolvedTemplateError
  | MalformedGitlabEventError | MissingWebhookDeliveryId
  | CanonicalizationError
  | AdmissionQueueFullError | AdmissionRateLimitedError | AdmissionClosedError
  | WorkspaceOwnerLost | CancelledError
  | WriterFenced | StorageUnavailable | RestoreFailed | SnapshotExpired
  | SnapshotTransientFailure | SnapshotConflict | ConcurrentModification
  | PreconditionFailed | ArchiveTooLarge | OSError | ConnectionError
  | ArtifactDisabled | ArtifactTooLarge | ArtifactConflict | ArtifactNotFound | ArtifactExpired
  | PermissionError | LookupError | HandoffFailed | HookFailed | WorkspaceUnavailable
  | FacadeAuthFailed | KeyExchangeFailed | ExecutionUnavailable | ProtocolError
  | TarError | FileExistsError | FileNotFoundError | InvalidSignature
  | WorkspaceAuthenticationFailed
  | DeliveryError | GatewayUnavailable | StartOutcomeUnknown | StartRejected
  | ConnectError | ConnectTimeout | TransportError | WorkspaceAssemblyUnavailable
  | ConflictingStart | WorkspaceMismatch | CapacityExceeded | SessionHookFailed
  | NativeLaunchFailed (ambiguous : bool) | RestoreMismatch
  | OutOfFuel.

#[export] Instance exn_eq_dec : EqDecision exn.
Proof. solve_decision. Defined.

Inductive result (E A : Type) : Type :=
  | Ok (a : A)
  | Err (e : E).
Arguments Ok {E A} a.
Arguments Err {E A} e.

Definition is_ok {E A} (r : result E A) : bool :=
  match r with Ok _ => true | Err _ => false end.

#[export] Instance result_eq_dec {E A} `{EqDecision E} `{EqDecision A} :
  EqDecision (result E A).
Proof. solve_decision. Defined.

#[export] Instance result_ret {E} : MRet (result E) := fun A a => Ok a.
#[export] Instance result_bind {E} : MBind (result E) :=
  fun A B f r => match r with Ok a => f a | Err e => Err e end.
#[export] Instance result_fmap {E} : FMap (result E) :=
  fun A B f r => match r with Ok a => Ok (f a) | Err e => Err e end.

(** [raise e] and [guard_ok b e]: [raise], and [if not b: raise e]. *)
Definition raise {E A} (e : E) : result E A := Err e.
Definition require {E} (b : bool) (e : E) : result E unit :=
  if b then Ok tt else Err e.

(** [opt_or o e]: the value of [o], or the exception. *)
Definition opt_or {E A} (e : E) (o : option A) : result E A :=
  match o with Some a => Ok a | None => Err e end.

Lemma bind_ok {E A B} (m : result E A) (f : A -> result E B) (b : B) :
  mbind f m = Ok b <-> exists a, m = Ok a /\ f a = Ok b.
Proof. destruct m; simpl; naive_solver. Qed.

Lemma bind_err {E A B} (m : result E A) (f : A -> result E B) (e : E) :
  mbind f m = Err e <-> m = Err e \/ exists a, m = Ok a /\ f a = Err e.
Proof. destruct m; simpl; naive_solver. Qed.

Lemma fmap_ok {E A B} (m : result E A) (f : A -> B) (b : B) :
  fmap f m = Ok b <-> exists a, m = Ok a /\ b = f a.
Proof. destruct m; simpl; naive_solver. Qed.

Lemma require_ok {E} (b : bool) (e : E) u : require b e = Ok u <-> b = true.
Proof. destruct b, u; simpl; naive_solver. Qed.

Lemma opt_or_ok {E A} (e : E) (o : option A) a : opt_or e o = Ok a <-> o = Some a.
Proof. destruct o; simpl; naive_solver. Qed.

Create HintDb py discriminated.
Create Rewrite HintDb py.
#[export] Hint Rewrite @bind_ok @bind_err @fmap_ok @require_ok @opt_or_ok : py.

(** Map a fallible function over a list, left to right (a generator consumed in order). *)
Fixpoint mapM_res {E A B} (f : A -> result E B) (l : list A) : result E (list B) :=
  match l with
  | [] => Ok []
  | x :: l => y ← f x; ys ← mapM_res f l; Ok (y :: ys)
  end.

Lemma mapM_res_length {E A B} (f : A -> result E B) l ys :
  mapM_res f l = Ok ys -> length ys = length l.
Proof.
  revert ys; induction l as [|x l IH]; intros ys H; simpl in *; [naive_solver|].
  apply bind_ok in H as (y & _ & H). apply bind_ok in H as (zs & Hz & H).
  injection H as <-. simpl. by rewrite (IH _ Hz).
Qed.

(** ** Tactics *)

(** [inv_ok]: invert every successful monadic hypothesis. *)
Ltac inv_ok :=
  repeat match goal with
  | H : mbind _ _ = Ok _ |- _ => apply bind_ok in H as (? & ? & H)
  | H : fmap _ _ = Ok _ |- _ => apply fmap_ok in H as (? & ? & H)
  | H : require _ _ = Ok _ |- _ => apply require_ok in H
  | H : opt_or _ _ = Ok _ |- _ => apply opt_or_ok in H
  | H : Ok _ = Ok _ |- _ => injection H as H; subst
  | H : Ok _ = Err _ |- _ => discriminate H
  | H : Err _ = Ok _ |- _ => discriminate H
  | H : raise _ = Ok _ |- _ => discriminate H
  | H : Err _ = Err _ |- _ => injection H as H; subst
  end.

(** [peel H]: split a successful chain [m ≫= fun _ => ...] into its steps, the last one in [H]. *)
Ltac peel H :=
  repeat match type of H with
  | mbind _ _ = Ok _ => apply bind_ok in H as (? & ? & H)
  end;
  repeat match goal with u : unit |- _ => destruct u end.

(** [split_if]: case analysis on the innermost match of a hypothesis, with clean-up. *)
Ltac split_match H :=
  match type of H with
  | context [match ?x with _ => _ end] =>
      lazymatch x with
      | context [match _ with _ => _ end] => fail
      | _ => let E := fresh "E" in destruct x eqn:E
      end
  end; simplify_eq/=; try done.

(** ** Strings

    A Python [str] is modelled by the bytes of its UTF-8 encoding (lone surrogates, which
    UTF-8 cannot carry, as their [surrogateescape] byte). *)

Open Scope string_scope.
Open Scope list_scope.

Definition str_eqb : string -> string -> bool := String.eqb.

Lemma str_eqb_true s t : String.eqb s t = true <-> s = t.
Proof. apply String.eqb_eq. Qed.

Lemma str_eqb_false s t : String.eqb s t = false <-> s <> t.
Proof. apply String.eqb_neq. Qed.

(** Truthiness of a [str]. *)
Definition truthy (s : string) : bool := negb (String.eqb s "").

(** [a or b] on strings. *)
Definition str_or (a b : string) : string := if truthy a then a else b.

Lemma truthy_false s : truthy s = false <-> s = "".
Proof. unfold truthy. rewrite negb_false_iff. apply String.eqb_eq. Qed.

Lemma truthy_true s : truthy s = true <-> s <> "".
Proof. unfold truthy. rewrite negb_true_iff. apply String.eqb_neq. Qed.

(** [sep.join(l)] *)
Fixpoint join (sep : string) (l : list string) : string :=
  match l with
  | [] => ""
  | [s] => s
  | s :: l => s +:+ sep +:+ join sep l
  end.

(** Concatenation of a list of strings: [''.join(l)]. *)
Definition concat_str (l : list string) : string := foldr String.append "" l.

(** [s.split(c)] for a one-character separator. *)
Fixpoint split_on_aux (c : ascii) (acc s : string) : list string :=
  match s with
  | EmptyString => [acc]
  | String a s =>
      if Ascii.eqb a c then acc :: split_on_aux c "" s
      else split_on_aux c (acc +:+ String a "") s
  end.
Definition split_on (c : ascii) (s : string) : list string := split_on_aux c "" s.

(** [prefix? p s] with the rest of [s]: [s[len(p):] if s.startswith(p)]. *)
Fixpoint strip_prefix (p s : string) : option string :=
  match p, s with
  | EmptyString, _ => Some s
  | String a p, String b s => if Ascii.eqb a b then strip_prefix p s else None
  | _, _ => None
  end.

(** The first occurrence of [p] in [s]: the text before it and the text after it. *)
Fixpoint find_sub (p s : string) : option (string * string) :=
  match strip_prefix p s with
  | Some rest => Some ("", rest)
  | None =>
      match s with
      | EmptyString => None
      | String a s =>
          match find_sub p s with
          | Some (pre, rest) => Some (String a pre, rest)
          | None => None
          end
      end
  end.

(** [p in s] *)
Definition contains (p s : string) : bool :=
  match find_sub p s with Some _ => true | None => false end.

Lemma str_app_nil_l s : "" +:+ s = s.
Proof. reflexivity. Qed.

Lemma str_app_cons a s t : String a s +:+ t = String a (s +:+ t).
Proof. reflexivity. Qed.

#[export] Hint Rewrite str_app_nil_l str_app_cons : py.

Lemma strip_prefix_eq p s rest : strip_prefix p s = Some rest <-> s = p +:+ rest.
Proof.
  revert s; induction p as [|a p IH]; intros s; simpl; rewrite ?str_app_cons.
  - split; [by intros [=]|by intros ->].
  - destruct s as [|b s]; [done|].
    destruct (Ascii.eqb_spec a b) as [->|Hne].
    + rewrite IH. split; [by intros ->|by intros [=]].
    + split; [done|]. intros [=]. congruence.
Qed.

Lemma find_sub_eq p s pre rest : find_sub p s = Some (pre, rest) -> s = pre +:+ p +:+ rest.
Proof.
  revert pre; induction s as [|a s IH]; intros pre H; cbn [find_sub] in H.
  - destruct (strip_prefix p "") eqn:E; simplify_eq.
    by apply strip_prefix_eq in E.
  - destruct (strip_prefix p (String a s)) eqn:E; simplify_eq.
    + by apply strip_prefix_eq in E.
    + destruct (find_sub p s) as [[pre' rest']|] eqn:E2; simplify_eq.
      rewrite str_app_cons. f_equal. by apply IH.
Qed.

Lemma str_app_length s t : String.length (s +:+ t) = String.length s + String.length t.
Proof. induction s; [done|]. rewrite str_app_cons. simpl. congruence. Qed.

Lemma str_app_assoc s t u : (s +:+ t) +:+ u = s +:+ (t +:+ u).
Proof. induction s; [done|]. rewrite ?str_app_cons. congruence. Qed.

Lemma str_app_nil_r s : s +:+ "" = s.
Proof. induction s; [done|]. rewrite ?str_app_cons. congruence. Qed.

Lemma str_app_inj_l s t u : s +:+ t = s +:+ u -> t = u.
Proof. induction s; [done|]. rewrite ?str_app_cons. intros H. injection H; auto. Qed.

#[export] Hint Rewrite str_app_assoc str_app_nil_r str_app_length : py.

(** ASCII classes and case mapping.  Header names, hook keys and refs are ASCII; the bytes of
    non-ASCII characters are left unchanged. *)
Definition ascii_code (a : ascii) : N := N_of_ascii a.
Definition is_upper (a : ascii) : bool := (65 <=? ascii_code a)%N && (ascii_code a <=? 90)%N.
Definition is_lower (a : ascii) : bool := (97 <=? ascii_code a)%N && (ascii_code a <=? 122)%N.
Definition is_digit (a : ascii) : bool := (48 <=? ascii_code a)%N && (ascii_code a <=? 57)%N.
Definition is_alnum (a : ascii) : bool := is_upper a || is_lower a || is_digit a.
Definition to_lower (a : ascii) : ascii :=
  if is_upper a then ascii_of_N (ascii_code a + 32) else a.

Fixpoint str_map (f : ascii -> ascii) (s : string) : string :=
  match s with EmptyString => "" | String a s => String (f a) (str_map f s) end.
Definition lower (s : string) : string := str_map to_lower s.

Fixpoint str_forallb (f : ascii -> bool) (s : string) : bool :=
  match s with EmptyString => true | String a s => f a && str_forallb f s end.

(** [str.strip()]: ASCII white space (tab, LF, VT, FF, CR, FS..US, space). *)
Definition is_space (a : ascii) : bool :=
  let n := ascii_code a in
  ((9 <=? n)%N && (n <=? 13)%N) || ((28 <=? n)%N && (n <=? 32)%N).

Fixpoint lstrip (s : string) : string :=
  match s with
  | String a s' => if is_space a then lstrip s' else s
  | EmptyString => ""
  end.

Fixpoint rstrip (s : string) : string :=
  match s with
  | EmptyString => ""
  | String a s =>
      let r := rstrip s in
      if is_space a && String.eqb r "" then "" else String a r
  end.

Definition strip (s : string) : string := rstrip (lstrip s).

(** ** Association lists: a Python [dict], in insertion order. *)
Fixpoint assoc {A} (k : string) (d : list (string * A)) : option A :=
  match d with
  | [] => None
  | (k', v) :: d => if String.eqb k k' then Some v else assoc k d
  end.

Lemma assoc_in {A} k (d : list (string * A)) v : assoc k d = Some v -> In (k, v) d.
Proof.
  induction d as [|[k' v'] d IH]; simpl; [done|].
  destruct (String.eqb_spec k k') as [->|]; intros; simplify_eq; auto.
Qed.
