(* ===== verification/Sha256.v ===== *)
(** * hashlib.sha256 and hmac (Python standard library)

    FIPS 180-4 SHA-256 over a list of bytes and RFC 2104 HMAC, executable, so that the refs,
    digests and signatures of the runtime evaluate to the strings the program computes.
    Nothing is assumed of the function; a theorem that needs two digests to differ says
    "equal inputs, or a SHA-256 collision between these two inputs". *)

From S2P Require Import Prelude.
From Stdlib Require Import Ascii.
Local Open Scope N_scope.

Definition w32 (n : N) : N := N.land n 0xffffffff.
Definition add32 (a b : N) : N := w32 (a + b).
Definition not32 (a : N) : N := N.lxor a 0xffffffff.
Definition rotr (k n : N) : N := N.lor (N.shiftr n k) (w32 (N.shiftl n (32 - k))).

Definition sha_ch (x y z : N) := N.lxor (N.land x y) (N.land (not32 x) z).
Definition sha_maj (x y z : N) := N.lxor (N.land x y) (N.lxor (N.land x z) (N.land y z)).
Definition big_s0 (x : N) := N.lxor (rotr 2 x) (N.lxor (rotr 13 x) (rotr 22 x)).
Definition big_s1 (x : N) := N.lxor (rotr 6 x) (N.lxor (rotr 11 x) (rotr 25 x)).
Definition small_s0 (x : N) := N.lxor (rotr 7 x) (N.lxor (rotr 18 x) (N.shiftr x 3)).
Definition small_s1 (x : N) := N.lxor (rotr 17 x) (N.lxor (rotr 19 x) (N.shiftr x 10)).

(** The constants: the first 32 bits of the fractional parts of the cube roots (the round
    constants) and square roots (the initial state) of the first primes. *)
Definition is_prime (n : nat) : bool :=
  (2 <=? n)%nat && forallb (fun d => negb (Nat.modulo n d =? 0)%nat) (List.seq 2 (n - 2)).
Definition primes64 : list N := Eval vm_compute in
  map N.of_nat (List.filter is_prime (List.seq 2 310)).

(** The integer cube root, bit by bit from [2 ^ (k - 1)]. *)
Fixpoint cbrt_bits (k : nat) (n acc : N) : N :=
  match k with
  | O => acc
  | S k =>
      let t := acc + N.shiftl 1 (N.of_nat k) in
      cbrt_bits k n (if t * t * t <=? n then t else acc)
  end.

Definition sha_k : list N := Eval vm_compute in
  map (fun p => w32 (cbrt_bits 36 (N.shiftl p 96) 0)) primes64.
Definition sha_h0 : list N := Eval vm_compute in
  map (fun p => w32 (N.sqrt (N.shiftl p 64))) (take 8 primes64).

(** Big-endian words and bytes. *)
Definition word_of (a b c d : N) : N :=
  N.lor (N.shiftl a 24) (N.lor (N.shiftl b 16) (N.lor (N.shiftl c 8) d)).
Fixpoint words_of (l : list N) : list N :=
  match l with
  | a :: b :: c :: d :: l => word_of a b c d :: words_of l
  | _ => []
  end.
Fixpoint be_bytes (k : nat) (n : N) : list N :=
  match k with
  | O => []
  | S k => N.land (N.shiftr n (8 * N.of_nat k)) 255 :: be_bytes k n
  end.

(** Padding: 0x80, zeros up to 56 mod 64, the bit length on 8 bytes. *)
Definition sha_pad (l : list N) : list N :=
  let len := N.of_nat (length l) in
  let zeros := (119 - len mod 64) mod 64 in
  l ++ [128] ++ replicate (N.to_nat zeros) 0 ++ be_bytes 8 (8 * len).

(** The message schedule, kept as the last sixteen words, newest last. *)
Definition next_w (w : list N) : N :=
  match w with
  | [w0; w1; _; _; _; _; _; _; _; w9; _; _; _; _; w14; _] =>
      add32 (add32 (small_s1 w14) w9) (add32 (small_s0 w1) w0)
  | _ => 0
  end.

Definition sha_round (h : list N) (k w : N) : list N :=
  match h with
  | [a; b; c; d; e; f; g; hh] =>
      let t1 := add32 (add32 (add32 hh (big_s1 e)) (add32 (sha_ch e f g) k)) w in
      let t2 := add32 (big_s0 a) (sha_maj a b c) in
      [add32 t1 t2; a; b; c; add32 d t1; e; f; g]
  | _ => h
  end.

Fixpoint sha_rounds (ks : list N) (w h : list N) : list N :=
  match ks with
  | [] => h
  | k :: ks => sha_rounds ks (tl w ++ [next_w w]) (sha_round h k (hd 0 w))
  end.

Definition sha_block (h block : list N) : list N :=
  zip_with add32 h (sha_rounds sha_k (words_of block) h).

Fixpoint sha_blocks (fuel : nat) (l h : list N) : list N :=
  match fuel with
  | O => h
  | S fuel => sha_blocks fuel (drop 64 l) (sha_block h (take 64 l))
  end.

Definition sha256_digest (l : list N) : list N :=
  let p := sha_pad l in
  flat_map (be_bytes 4) (sha_blocks (Nat.div (length p) 64) p sha_h0).

(** Hexadecimal. *)
Definition hex_digit (n : N) : ascii :=
  ascii_of_N (if n <? 10 then 48 + n else 87 + n).
Fixpoint hex (l : list N) : string :=
  match l with
  | [] => ""
  | b :: l => String (hex_digit (N.shiftr b 4)) (String (hex_digit (N.land b 15)) (hex l))
  end.

(** [s.encode("utf-8")]: a [str] is modelled by these bytes. *)
Fixpoint encode (s : string) : list N :=
  match s with EmptyString => [] | String a s => N_of_ascii a :: encode s end.

(** [hashlib.sha256(s).hexdigest()] *)
Definition sha256_hex (s : string) : string := hex (sha256_digest (encode s)).

(** [hmac.new(key, msg, hashlib.sha256).hexdigest()] *)
Definition hmac_key (key : list N) : list N :=
  let key := if (64 <? N.of_nat (length key)) then sha256_digest key else key in
  key ++ replicate (64 - length key)%nat 0.
Definition hmac_digest (key msg : list N) : list N :=
  let k := hmac_key key in
  sha256_digest (map (N.lxor 0x5c) k ++ sha256_digest (map (N.lxor 0x36) k ++ msg)).
Definition hmac_hex (key msg : string) : string := hex (hmac_digest (encode key) (encode msg)).

(** Test vectors (FIPS 180-4, RFC 4231 case 2). *)
Example sha256_abc :
  sha256_hex "abc" = "ba7816bf8f01cfea414140de5dae2223b00361a396177a9cb410ff61f20015ad".
Proof. vm_compute. reflexivity. Qed.

Example sha256_two_blocks :
  sha256_hex "abcdbcdecdefdefgefghfghighijhijkijkljklmklmnlmnomnopnopq"
  = "248d6a61d20638b8e5c026930c3e6039a33ce45964ff2167f6ecedd419db06c1".
Proof. vm_compute. reflexivity. Qed.

Example hmac_jefe :
  hmac_hex "Jefe" "what do ya want for nothing?"
  = "5bdcc146bf60754e6a042426089575c75a003f089d2739839dec58b964ec3843".
Proof. vm_compute. reflexivity. Qed.

(** ** Shape of a digest: 32 bytes, 64 lowercase hexadecimal characters *)

Lemma be_bytes_length k n : length (be_bytes k n) = k.
Proof. induction k; simpl; congruence. Qed.

Lemma hex_length l : String.length (hex l) = (2 * length l)%nat.
Proof. induction l; simpl; lia. Qed.

Lemma sha_round_length h k w : length (sha_round h k w) = length h.
Proof. unfold sha_round. by repeat case_match. Qed.

Lemma sha_rounds_length ks w h : length (sha_rounds ks w h) = length h.
Proof.
  revert w h; induction ks as [|k ks IH]; intros w h; simpl; [done|].
  by rewrite IH, sha_round_length.
Qed.

Lemma sha_blocks_length n l h : length h = 8%nat -> length (sha_blocks n l h) = 8%nat.
Proof.
  revert l h; induction n as [|n IH]; intros l h Hh; simpl; [done|].
  apply IH. unfold sha_block. by rewrite length_zip_with, sha_rounds_length, Hh.
Qed.

Lemma sha256_digest_length l : length (sha256_digest l) = 32%nat.
Proof.
  unfold sha256_digest.
  assert (H := sha_blocks_length (Nat.div (length (sha_pad l)) 64) (sha_pad l) sha_h0 eq_refl).
  revert H. generalize (sha_blocks (Nat.div (length (sha_pad l)) 64) (sha_pad l) sha_h0).
  intros h Hh. do 8 (destruct h as [|? h]; [discriminate|]). by destruct h.
Qed.

Lemma sha256_hex_length s : String.length (sha256_hex s) = 64%nat.
Proof. unfold sha256_hex. by rewrite hex_length, sha256_digest_length. Qed.

Definition is_hex (a : ascii) : bool :=
  is_digit a || ((97 <=? ascii_code a) && (ascii_code a <=? 102)).

Lemma be_bytes_byte k n : Forall (fun b => b < 256) (be_bytes k n).
Proof.
  induction k as [|k IH]; simpl; constructor; [|done].
  change 255 with (N.ones 8). rewrite N.land_ones. by apply N.mod_upper_bound.
Qed.

(** A property of the sixteen digits is checked by evaluation. *)
Lemma forall_lt16 (f : N -> bool) :
  forallb f (map N.of_nat (List.seq 0 16)) = true -> forall n, n < 16 -> f n = true.
Proof.
  intros Hf n Hn. rewrite forallb_forall in Hf. apply Hf, in_map_iff.
  exists (N.to_nat n). split; [lia|]. apply in_seq. lia.
Qed.

Lemma hex_digit_is_hex n : n < 16 -> is_hex (hex_digit n) = true.
Proof. apply (forall_lt16 (fun n => is_hex (hex_digit n))). reflexivity. Qed.

Lemma hex_is_hex l : Forall (fun b => b < 256) l -> str_forallb is_hex (hex l) = true.
Proof.
  induction 1 as [|b l Hb _ IH]; simpl; [done|].
  rewrite IH, !hex_digit_is_hex; [done| |].
  - change 15 with (N.ones 4). rewrite N.land_ones. by apply N.mod_upper_bound.
  - rewrite N.shiftr_div_pow2. apply N.Div0.div_lt_upper_bound. simpl. lia.
Qed.

Lemma flat_map_be_bytes l : Forall (fun b => b < 256) (flat_map (be_bytes 4) l).
Proof.
  induction l as [|w l IH]; [constructor|].
  change (flat_map (be_bytes 4) (w :: l)) with (be_bytes 4 w ++ flat_map (be_bytes 4) l).
  apply Forall_app. split; [apply be_bytes_byte|done].
Qed.

Lemma sha256_hex_is_hex s : str_forallb is_hex (sha256_hex s) = true.
Proof. apply hex_is_hex, flat_map_be_bytes. Qed.
