(* ===== verification/PyJson.v ===== *)
(** * JSON values and json.dumps (Python standard library)

    The values [json.loads] produces, the operations the program performs on them, and
    [json.dumps] with the compact separators the program uses.  The encodings of lists of
    strings, which every ref and digest of the program hashes, are proved injective. *)

From S2P Require Import Prelude Sha256.
From Stdlib Require Import Ascii.

(** A [float] is observed through [repr] and through [int()] ([None]: not finite). *)
Record pyfloat := PyFloat { f_repr : string; f_int : option Z }.

#[warnings="-register-all"]
Inductive json :=
  | JNull
  | JBool (b : bool)
  | JInt (z : Z)
  | JFloat (f : pyfloat)
  | JStr (s : string)
  | JList (l : list json)
  | JObj (d : list (string * json)).

Section json_ind.
Variable P : json -> Prop.
Hypothesis Hnull : P JNull.
Hypothesis Hbool : forall b, P (JBool b).
Hypothesis Hint : forall z, P (JInt z).
Hypothesis Hfloat : forall f, P (JFloat f).
Hypothesis Hstr : forall s, P (JStr s).
Hypothesis Hlist : forall l, Forall P l -> P (JList l).
Hypothesis Hobj : forall d, Forall (fun kv => P (snd kv)) d -> P (JObj d).

Fixpoint json_rect_all (j : json) : P j :=
  match j with
  | JNull => Hnull
  | JBool b => Hbool b
  | JInt z => Hint z
  | JFloat f => Hfloat f
  | JStr s => Hstr s
  | JList l =>
      Hlist l ((fix go l : Forall P l :=
        match l with
        | [] => List.Forall_nil _
        | x :: l => List.Forall_cons _ x l (json_rect_all x) (go l)
        end) l)
  | JObj d =>
      Hobj d ((fix go d : Forall (fun kv => P (snd kv)) d :=
        match d with
        | [] => List.Forall_nil _
        | kv :: d => List.Forall_cons _ kv d (json_rect_all (snd kv)) (go d)
        end) d)
  end.
End json_ind.

(** ** Equality *)

#[export] Instance pyfloat_eq_dec : EqDecision pyfloat.
Proof. solve_decision. Defined.
Fixpoint json_eqb (a b : json) : bool :=
  match a, b with
  | JNull, JNull => true
  | JBool x, JBool y => Bool.eqb x y
  | JInt x, JInt y => (x =? y)%Z
  | JFloat x, JFloat y => bool_decide (x = y)
  | JStr x, JStr y => String.eqb x y
  | JList l, JList m =>
      (fix go l m := match l, m with
       | [], [] => true
       | x :: l, y :: m => json_eqb x y && go l m
       | _, _ => false
       end) l m
  | JObj d, JObj e =>
      (fix go d e := match d, e with
       | [], [] => true
       | (k, x) :: d, (k', y) :: e => String.eqb k k' && json_eqb x y && go d e
       | _, _ => false
       end) d e
  | _, _ => false
  end.
Lemma json_eqb_eq a b : json_eqb a b = true <-> a = b.
Proof.
  revert b. induction a as [| | | | |l IH|d IH] using json_rect_all; intros b0; destruct b0 as [| | | | |m|e]; cbn;
    try (split; done).
  - rewrite Bool.eqb_true_iff. naive_solver.
  - rewrite Z.eqb_eq. naive_solver.
  - rewrite bool_decide_eq_true. naive_solver.
  - rewrite String.eqb_eq. naive_solver.
  - revert m. induction IH as [|x l Hx _ IH]; intros [|y m]; try (split; done).
    rewrite andb_true_iff, Hx, IH. naive_solver.
  - revert e. induction IH as [|[k x] d Hx _ IH]; intros [|[k' y] e]; try (split; done).
    cbn in Hx. rewrite !andb_true_iff, String.eqb_eq, Hx, IH. naive_solver.
Qed.
#[export] Instance json_eq_dec : EqDecision json.
Proof.
  intros a b. destruct (json_eqb a b) eqn:E; [left; by apply json_eqb_eq|].
  right. intros H. apply json_eqb_eq in H. congruence.
Defined.

(** ** Operations *)

(** Truthiness, [bool(value)]. *)
Definition json_truthy (j : json) : bool :=
  match j with
  | JNull => false
  | JBool b => b
  | JInt z => negb (Z.eqb z 0)
  | JFloat f => negb (String.eqb (f_repr f) "0.0" || String.eqb (f_repr f) "-0.0")
  | JStr s => truthy s
  | JList l => match l with [] => false | _ => true end
  | JObj d => match d with [] => false | _ => true end
  end.

(** [a or b], [b] evaluated only when needed. *)
Definition json_or (a b : json) : json := if json_truthy a then a else b.

(** [value.get(key)], with default [JNull]: an [AttributeError] on anything but a dict. *)
Definition py_get (j : json) (k : string) : result exn json :=
  match j with
  | JObj d => Ok (from_option id JNull (assoc k d))
  | _ => Err AttributeError
  end.

(** [value.get(key, "")]. *)
Definition py_get_str (j : json) (k : string) : result exn json :=
  match j with
  | JObj d => Ok (from_option id (JStr "") (assoc k d))
  | _ => Err AttributeError
  end.

(** [value[key]] for a string key: [KeyError] on a dict without it, [TypeError] elsewhere. *)
Definition py_item (j : json) (k : string) : result exn json :=
  match j with
  | JObj d => opt_or KeyError (assoc k d)
  | _ => Err TypeError
  end.

Definition is_dict (j : json) : bool := match j with JObj _ => true | _ => false end.

(** [str(z)] *)
Definition str_of_int (z : Z) : string := pretty z.

(** [int(s)] for a [str]: optional white space, sign, digits with single underscores.
    (Digits are ASCII digits; the other decimal digits of Unicode are not modelled.) *)
Definition digit_val (a : ascii) : Z := Z.of_N (ascii_code a) - 48.
Fixpoint int_digits (acc : Z) (after_digit : bool) (s : string) : option Z :=
  match s with
  | EmptyString => if after_digit then Some acc else None
  | String a s =>
      if is_digit a then int_digits (10 * acc + digit_val a) true s
      else if Ascii.eqb a "_"%char && after_digit then
        match s with String b _ => if is_digit b then int_digits acc false s else None
                   | EmptyString => None end
      else None
  end.
Definition int_of_str (s : string) : result exn Z :=
  match strip s with
  | String "-"%char s => opt_or ValueError (Z.opp <$> int_digits 0 false s)
  | String "+"%char s => opt_or ValueError (int_digits 0 false s)
  | s => opt_or ValueError (int_digits 0 false s)
  end.

Example int_of_str_1 : int_of_str " -1_000 " = Ok (-1000)%Z.
Proof. reflexivity. Qed.
Example int_of_str_2 : int_of_str "12a" = Err ValueError.
Proof. reflexivity. Qed.
Example int_of_str_3 : int_of_str "1__0" = Err ValueError.
Proof. reflexivity. Qed.

(** ** Code points of a string: UTF-8 decoding, with [surrogateescape] *)

Local Open Scope N_scope.

Definition cont_byte (b : N) : bool := (128 <=? b) && (b <=? 191).

(** One decoding step on a non-empty byte list: the code point and the number of bytes used. *)
Definition utf8_step (b0 : N) (l : list N) : N * nat :=
  let bad := (56320 + b0, 1%nat) in
  if b0 <? 128 then (b0, 1%nat)
  else match l with
  | b1 :: l =>
      if (194 <=? b0) && (b0 <=? 223) && cont_byte b1 then
        ((b0 - 192) * 64 + (b1 - 128), 2%nat)
      else match l with
      | b2 :: l =>
          if (224 <=? b0) && (b0 <=? 239) && cont_byte b1 && cont_byte b2
             && negb ((b0 =? 224) && (b1 <? 160)) && negb ((b0 =? 237) && (159 <? b1)) then
            ((b0 - 224) * 4096 + (b1 - 128) * 64 + (b2 - 128), 3%nat)
          else match l with
          | b3 :: _ =>
              if (240 <=? b0) && (b0 <=? 244) && cont_byte b1 && cont_byte b2 && cont_byte b3
                 && negb ((b0 =? 240) && (b1 <? 144)) && negb ((b0 =? 244) && (143 <? b1)) then
                ((b0 - 240) * 262144 + (b1 - 128) * 4096 + (b2 - 128) * 64 + (b3 - 128), 4%nat)
              else bad
          | [] => bad
          end
      | [] => bad
      end
  | [] => bad
  end.

Fixpoint utf8_decode (skip : nat) (l : list N) : list N :=
  match l with
  | [] => []
  | b :: l =>
      match skip with
      | S k => utf8_decode k l
      | O => let '(cp, n) := utf8_step b l in cp :: utf8_decode (pred n) l
      end
  end.

(** The code points of a [str]. *)
Definition code_points (s : string) : list N := utf8_decode 0 (encode s).
(** [len(s)], and the last [n] characters: [s[-n:]]. *)
Definition str_len (s : string) : nat := length (code_points s).
Fixpoint str_tail (n : nat) (s : string) : string :=
  if (str_len s <=? n)%nat then s
  else match s with String _ s => str_tail n s | EmptyString => "" end.

(** UTF-8 encoding of one code point ([surrogateescape] for the lone low surrogates). *)
Definition utf8_enc (cp : N) : list N :=
  if cp <? 128 then [cp]
  else if cp <? 2048 then [192 + cp / 64; 128 + cp mod 64]
  else if (56320 <=? cp) && (cp <? 57344) then [cp - 56320]
  else if cp <? 65536 then [224 + cp / 4096; 128 + (cp / 64) mod 64; 128 + cp mod 64]
  else [240 + cp / 262144; 128 + (cp / 4096) mod 64; 128 + (cp / 64) mod 64; 128 + cp mod 64].

(** ** json.dumps *)

Definition chr (n : N) : string := String (ascii_of_N n) "".
Definition hex4 (n : N) : string :=
  String (hex_digit (n / 4096 mod 16)) (String (hex_digit (n / 256 mod 16))
    (String (hex_digit (n / 16 mod 16)) (String (hex_digit (n mod 16)) ""))).

(** The escapes of [py_encode_basestring] (a byte of the UTF-8 text, [ensure_ascii=False]) and
    of [py_encode_basestring_ascii] (a code point, [ensure_ascii=True]). *)
Definition short_escape (n : N) : option string :=
  if n =? 34 then Some (String "\" (chr 34)) else if n =? 92 then Some "\\"
  else if n =? 10 then Some "\n" else if n =? 13 then Some "\r"
  else if n =? 9 then Some "\t" else if n =? 12 then Some "\f"
  else if n =? 8 then Some "\b" else None.
Definition escape_byte (n : N) : string :=
  match short_escape n with
  | Some e => e
  | None => if n <? 32 then "\u" +:+ hex4 n else chr n
  end.
Definition escape_ascii (n : N) : string :=
  match short_escape n with
  | Some e => e
  | None =>
      if (32 <=? n) && (n <=? 126) then chr n
      else if n <? 65536 then "\u" +:+ hex4 n
      else "\u" +:+ hex4 (55296 + (n - 65536) / 1024) +:+ "\u" +:+ hex4 (56320 + (n - 65536) mod 1024)
  end.

Definition quote : string := chr 34.
Definition dumps_str (ensure_ascii : bool) (s : string) : string :=
  quote +:+ (if ensure_ascii then concat_str (map escape_ascii (code_points s))
             else concat_str (map escape_byte (encode s))) +:+ quote.

(** [json.dumps(l, separators=(",", ":"))] for a list of strings. *)
Definition dumps_strs (ensure_ascii : bool) (l : list string) : string :=
  "[" +:+ join "," (map (dumps_str ensure_ascii) l) +:+ "]".

#[global] Arguments dumps_str : simpl never.
#[global] Arguments dumps_strs : simpl never.

(** [json.dumps(value, separators=(",", ":"))]. *)
Fixpoint dumps (ensure_ascii : bool) (j : json) : string :=
  match j with
  | JNull => "null"
  | JBool b => if b then "true" else "false"
  | JInt z => str_of_int z
  | JFloat f =>
      if String.eqb (f_repr f) "nan" then "NaN"
      else if String.eqb (f_repr f) "inf" then "Infinity"
      else if String.eqb (f_repr f) "-inf" then "-Infinity" else f_repr f
  | JStr s => dumps_str ensure_ascii s
  | JList l => "[" +:+ join "," (map (dumps ensure_ascii) l) +:+ "]"
  | JObj d =>
      "{" +:+ join "," (map (fun kv => dumps_str ensure_ascii (fst kv) +:+ ":"
                                       +:+ dumps ensure_ascii (snd kv)) d) +:+ "}"
  end.

Lemma dumps_strs_json ea l : dumps_strs ea l = dumps ea (JList (map JStr l)).
Proof. unfold dumps_strs. simpl. by rewrite map_map. Qed.

Example dumps_ex :
  dumps true (JList [JStr "gitlab:ch:7"; JStr (String (ascii_of_N 195) (String (ascii_of_N 169) "")); JInt (-3); JNull])
  = "[" +:+ quote +:+ "gitlab:ch:7" +:+ quote +:+ "," +:+ quote +:+ "\u00e9" +:+ quote +:+ ",-3,null]".
Proof. reflexivity. Qed.

(** ** Decoding is injective *)

Lemma encode_byte s : Forall (fun b => b < 256) (encode s).
Proof. induction s; simpl; constructor; auto using N_ascii_bounded. Qed.

Lemma encode_inj s t : encode s = encode t -> s = t.
Proof.
  revert t; induction s as [|a s IH]; intros [|b t]; simpl; try done.
  intros [= Ha Hs]. f_equal; [|auto].
  by rewrite <- (ascii_N_embedding a), <- (ascii_N_embedding b), Ha.
Qed.

Lemma utf8_decode_drop k l : utf8_decode k l = utf8_decode 0 (drop k l).
Proof. revert k; induction l as [|b l IH]; intros [|k]; simpl; auto. Qed.

Ltac bool_split :=
  repeat match goal with
  | H : _ && _ = true |- _ => apply andb_prop in H as [? ?]
  | H : negb _ = true |- _ => apply negb_true_iff in H
  | H : _ && _ = false |- _ => apply andb_false_iff in H
  end; unfold cont_byte in *;
  repeat match goal with
  | H : _ && _ = true |- _ => apply andb_prop in H as [? ?]
  end;
  rewrite ?N.leb_le, ?N.ltb_lt, ?N.leb_gt, ?N.ltb_ge, ?N.eqb_eq, ?N.eqb_neq in *.

(** What one step of the decoder consumes is what its code point encodes to. *)
Lemma utf8_enc_small cp : cp < 128 -> utf8_enc cp = [cp].
Proof. intros H. unfold utf8_enc. by rewrite (proj2 (N.ltb_lt _ _) H). Qed.

Lemma utf8_enc_escaped b : 128 <= b -> b < 256 -> utf8_enc (56320 + b) = [b].
Proof.
  intros H1 H2. unfold utf8_enc.
  rewrite (proj2 (N.ltb_ge _ _)), (proj2 (N.ltb_ge _ _)) by lia.
  rewrite (proj2 (N.leb_le _ _)), (proj2 (N.ltb_lt _ _)) by lia. simpl. f_equal. lia.
Qed.

Lemma div_mul_add a b c : 0 < b -> c < b -> (a * b + c) / b = a.
Proof. intros. rewrite N.div_add_l by lia. rewrite (N.div_small c b) by lia. lia. Qed.
Lemma mod_mul_add a b c : c < b -> (a * b + c) mod b = c.
Proof. intros. rewrite N.add_comm, N.Div0.mod_add. by apply N.mod_small. Qed.

Lemma utf8_enc_2 b0 b1 :
  194 <= b0 <= 223 -> 128 <= b1 <= 191 ->
  utf8_enc ((b0 - 192) * 64 + (b1 - 128)) = [b0; b1].
Proof.
  intros H0 H1. unfold utf8_enc.
  rewrite (proj2 (N.ltb_ge _ _)), (proj2 (N.ltb_lt _ _)) by lia.
  rewrite div_mul_add, mod_mul_add by lia. f_equal; [lia|]. f_equal. lia.
Qed.

Lemma utf8_enc_3 b0 b1 b2 :
  224 <= b0 <= 239 -> 128 <= b1 <= 191 -> 128 <= b2 <= 191 ->
  (b0 = 224 -> 160 <= b1) -> (b0 = 237 -> b1 <= 159) ->
  utf8_enc ((b0 - 224) * 4096 + (b1 - 128) * 64 + (b2 - 128)) = [b0; b1; b2].
Proof.
  intros H0 H1 H2 Ho Hs. unfold utf8_enc.
  set (cp := (b0 - 224) * 4096 + (b1 - 128) * 64 + (b2 - 128)).
  assert (E64 : cp / 64 = (b0 - 224) * 64 + (b1 - 128)).
  { unfold cp. replace (_ + _ + _) with (((b0 - 224) * 64 + (b1 - 128)) * 64 + (b2 - 128)) by lia.
    apply div_mul_add; lia. }
  assert (E4096 : cp / 4096 = b0 - 224).
  { unfold cp. rewrite <- N.add_assoc. apply div_mul_add; lia. }
  assert (Em : cp mod 64 = b2 - 128).
  { unfold cp. replace (_ + _ + _) with (((b0 - 224) * 64 + (b1 - 128)) * 64 + (b2 - 128)) by lia.
    apply mod_mul_add; lia. }
  rewrite E64, E4096, Em, mod_mul_add by lia.
  rewrite (proj2 (N.ltb_ge cp 128)), (proj2 (N.ltb_ge cp 2048)) by lia.
  assert (Hr : (56320 <=? cp) && (cp <? 57344) = false).
  { apply andb_false_iff. rewrite N.leb_gt, N.ltb_ge. lia. }
  rewrite Hr, (proj2 (N.ltb_lt cp 65536)) by lia.
  f_equal; [lia|]. f_equal; [lia|]. f_equal. lia.
Qed.

Lemma utf8_enc_4 b0 b1 b2 b3 :
  240 <= b0 <= 244 -> 128 <= b1 <= 191 -> 128 <= b2 <= 191 -> 128 <= b3 <= 191 ->
  (b0 = 240 -> 144 <= b1) ->
  utf8_enc ((b0 - 240) * 262144 + (b1 - 128) * 4096 + (b2 - 128) * 64 + (b3 - 128)) = [b0; b1; b2; b3].
Proof.
  intros H0 H1 H2 H3 Ho. unfold utf8_enc.
  set (cp := (b0 - 240) * 262144 + (b1 - 128) * 4096 + (b2 - 128) * 64 + (b3 - 128)).
  assert (E64 : cp / 64 = ((b0 - 240) * 64 + (b1 - 128)) * 64 + (b2 - 128)).
  { unfold cp. replace (_ + _ + _ + _)
      with ((((b0 - 240) * 64 + (b1 - 128)) * 64 + (b2 - 128)) * 64 + (b3 - 128)) by lia.
    apply div_mul_add; lia. }
  assert (E4096 : cp / 4096 = (b0 - 240) * 64 + (b1 - 128)).
  { unfold cp. replace (_ + _ + _ + _)
      with (((b0 - 240) * 64 + (b1 - 128)) * 4096 + ((b2 - 128) * 64 + (b3 - 128))) by lia.
    apply div_mul_add; lia. }
  assert (E262144 : cp / 262144 = b0 - 240).
  { unfold cp. rewrite <- !N.add_assoc. apply div_mul_add; lia. }
  assert (Em : cp mod 64 = b3 - 128).
  { unfold cp. replace (_ + _ + _ + _)
      with ((((b0 - 240) * 64 + (b1 - 128)) * 64 + (b2 - 128)) * 64 + (b3 - 128)) by lia.
    apply mod_mul_add; lia. }
  rewrite E64, E4096, E262144, Em, !mod_mul_add by lia.
  rewrite (proj2 (N.ltb_ge cp 128)), (proj2 (N.ltb_ge cp 2048)) by lia.
  assert (Hr : (56320 <=? cp) && (cp <? 57344) = false).
  { apply andb_false_iff. rewrite N.leb_gt, N.ltb_ge. lia. }
  rewrite Hr, (proj2 (N.ltb_ge cp 65536)) by lia.
  f_equal; [lia|]. f_equal; [lia|]. f_equal; [lia|]. f_equal. lia.
Qed.

(** The code points a [str] can hold here: no lone high surrogate. *)
Definition valid_cp (cp : N) : Prop := cp < 1114112 /\ ~ (55296 <= cp < 56320).

Lemma utf8_step_spec b0 l :
  Forall (fun b => b < 256) (b0 :: l) ->
  let '(cp, n) := utf8_step b0 l in
  valid_cp cp /\ (1 <= n)%nat /\ utf8_enc cp = take n (b0 :: l).
Proof.
  intros Hb. assert (H0 : b0 < 256) by (by inversion Hb).
  assert (Hbad : 128 <= b0 -> valid_cp (56320 + b0) /\ (1 <= 1)%nat
                 /\ utf8_enc (56320 + b0) = take 1 (b0 :: l)).
  { intros. split; [split; lia|]. split; [done|]. by rewrite utf8_enc_escaped. }
  unfold utf8_step. repeat case_match; bool_split; simplify_eq; try (apply Hbad; lia); cbn [take].
  - split; [split; lia|]. split; [lia|]. by apply utf8_enc_small.
  - split; [split; lia|]. split; [lia|]. by apply utf8_enc_2.
  - repeat match goal with H : _ \/ _ |- _ => destruct H end; bool_split;
      (split; [split; lia|]; split; [lia|]; apply utf8_enc_3; lia).
  - repeat match goal with H : _ \/ _ |- _ => destruct H end; bool_split;
      (split; [split; lia|]; split; [lia|]; apply utf8_enc_4; lia).
Qed.

Lemma utf8_decode_spec l :
  Forall (fun b => b < 256) l ->
  Forall valid_cp (utf8_decode 0 l) /\ flat_map utf8_enc (utf8_decode 0 l) = l.
Proof.
  remember (length l) as n eqn:Hn. revert l Hn.
  induction n as [n IH] using lt_wf_ind. intros [|b0 l] Hn Hb; [done|].
  pose proof (utf8_step_spec b0 l Hb) as Hs. cbn [utf8_decode].
  destruct (utf8_step b0 l) as [cp k]. destruct Hs as (Hv & Hk & He).
  rewrite utf8_decode_drop. destruct k as [|k]; [lia|]. cbn [Nat.pred].
  destruct (IH (length (drop k l))) with (l := drop k l) as [IH1 IH2]; auto.
  - subst n. rewrite length_drop. simpl. lia.
  - inversion Hb; subst. by apply Forall_drop.
  - split; [by constructor|]. cbn [flat_map]. rewrite IH2, He. simpl.
    by rewrite take_drop.
Qed.

Lemma code_points_inj s t : code_points s = code_points t -> s = t.
Proof.
  intros H. apply encode_inj.
  destruct (utf8_decode_spec (encode s) (encode_byte s)) as [_ <-].
  destruct (utf8_decode_spec (encode t) (encode_byte t)) as [_ <-].
  by unfold code_points in H; rewrite H.
Qed.

Lemma code_points_valid s : Forall valid_cp (code_points s).
Proof. apply utf8_decode_spec, encode_byte. Qed.

(** ** Escaping is injective: a reader of one escaped character *)

Definition hex_val (a : ascii) : N :=
  let n := ascii_code a in if n <? 58 then n - 48 else n - 87.
Definition read_hex4 (s : string) : option (N * string) :=
  match s with
  | String a (String b (String c (String d s))) =>
      Some (hex_val a * 4096 + hex_val b * 256 + hex_val c * 16 + hex_val d, s)
  | _ => None
  end.

(** The character a JSON string text starts with; [None] at the closing quote. *)
Definition read_char (s : string) : option (N * string) :=
  match s with
  | EmptyString => None
  | String a s =>
      if ascii_code a =? 34 then None
      else if negb (ascii_code a =? 92) then Some (ascii_code a, s)
      else match s with
      | EmptyString => None
      | String e s =>
          let n := ascii_code e in
          if n =? 110 then Some (10, s) else if n =? 114 then Some (13, s)
          else if n =? 116 then Some (9, s) else if n =? 102 then Some (12, s)
          else if n =? 98 then Some (8, s) else if negb (n =? 117) then Some (n, s)
          else match read_hex4 s with
          | None => None
          | Some (v, s) =>
              if (55296 <=? v) && (v <? 56320) then
                match strip_prefix "\u" s with
                | None => Some (v, s)
                | Some s => match read_hex4 s with
                            | None => None
                            | Some (w, s) => Some (65536 + (v - 55296) * 1024 + (w - 56320), s)
                            end
                end
              else Some (v, s)
          end
      end
  end.

Lemma hex_val_digit n : n < 16 -> hex_val (hex_digit n) = n.
Proof.
  intros Hn. apply N.eqb_eq. revert n Hn.
  by apply (forall_lt16 (fun n => hex_val (hex_digit n) =? n)).
Qed.

Lemma read_hex4_hex4 n r : n < 65536 -> read_hex4 (hex4 n +:+ r) = Some (n, r).
Proof.
  intros Hn. unfold hex4. rewrite !str_app_cons, str_app_nil_l. unfold read_hex4.
  rewrite !hex_val_digit by (apply N.mod_upper_bound; lia). do 2 f_equal.
  assert (n / 4096 < 16) by (apply N.Div0.div_lt_upper_bound; lia).
  rewrite (N.mod_small (n / 4096)) by done.
  assert (E1 := N.Div0.div_mod n 16). assert (E2 := N.Div0.div_mod (n / 16) 16).
  assert (E3 := N.Div0.div_mod (n / 256) 16).
  replace (n / 16 / 16) with (n / 256) in E2 by (by rewrite N.Div0.div_div).
  replace (n / 256 / 16) with (n / 4096) in E3 by (by rewrite N.Div0.div_div).
  lia.
Qed.

Lemma read_char_plain n r :
  n < 256 -> n <> 34 -> n <> 92 -> read_char (chr n +:+ r) = Some (n, r).
Proof.
  intros Hn H1 H2. unfold chr. rewrite str_app_cons, str_app_nil_l. cbn [read_char].
  unfold ascii_code. rewrite N_ascii_embedding by done.
  by rewrite (proj2 (N.eqb_neq _ _) H1), (proj2 (N.eqb_neq _ _) H2).
Qed.

Lemma read_char_u n r :
  n < 65536 -> ~ (55296 <= n < 56320) -> read_char ("\u" +:+ hex4 n +:+ r) = Some (n, r).
Proof.
  intros Hn Hs. rewrite !str_app_cons, str_app_nil_l.
  change (read_char _) with
    (match read_hex4 (hex4 n +:+ r) with
     | None => None
     | Some (v, s) =>
         if (55296 <=? v) && (v <? 56320) then
           match strip_prefix "\u" s with
           | None => Some (v, s)
           | Some s => match read_hex4 s with
                       | None => None
                       | Some (w, s) => Some (65536 + (v - 55296) * 1024 + (w - 56320), s)
                       end
           end
         else Some (v, s)
     end).
  rewrite read_hex4_hex4 by done.
  replace ((55296 <=? n) && (n <? 56320)) with false; [done|].
  symmetry. apply andb_false_iff. rewrite N.leb_gt, N.ltb_ge. lia.
Qed.

Lemma read_char_pair n r :
  65536 <= n < 1114112 ->
  read_char ("\u" +:+ hex4 (55296 + (n - 65536) / 1024)
             +:+ "\u" +:+ hex4 (56320 + (n - 65536) mod 1024) +:+ r) = Some (n, r).
Proof.
  intros Hn. set (hi := 55296 + (n - 65536) / 1024). set (lo := 56320 + (n - 65536) mod 1024).
  assert (Hd := N.Div0.div_mod (n - 65536) 1024).
  assert (Hm : (n - 65536) mod 1024 < 1024) by (apply N.mod_upper_bound; lia).
  assert (Hq : (n - 65536) / 1024 < 1024) by (apply N.Div0.div_lt_upper_bound; lia).
  rewrite (str_app_cons "\"), (str_app_cons "u"), str_app_nil_l.
  change (read_char _) with
    (match read_hex4 (hex4 hi +:+ ("\u" +:+ hex4 lo +:+ r)) with
     | None => None
     | Some (v, s) =>
         if (55296 <=? v) && (v <? 56320) then
           match strip_prefix "\u" s with
           | None => Some (v, s)
           | Some s => match read_hex4 s with
                       | None => None
                       | Some (w, s) => Some (65536 + (v - 55296) * 1024 + (w - 56320), s)
                       end
           end
         else Some (v, s)
     end).
  rewrite read_hex4_hex4 by (unfold hi; lia).
  replace ((55296 <=? hi) && (hi <? 56320)) with true
    by (symmetry; apply andb_true_iff; rewrite N.leb_le, N.ltb_lt; unfold hi; lia).
  assert (Hp : strip_prefix "\u" ("\u" +:+ hex4 lo +:+ r) = Some (hex4 lo +:+ r))
    by (by apply strip_prefix_eq).
  rewrite Hp, read_hex4_hex4 by (unfold lo; lia). do 2 f_equal.
  unfold hi, lo. clear Hp. revert Hd Hm. clear hi lo.
  generalize ((n - 65536) mod 1024) ((n - 65536) / 1024). lia.
Qed.

Lemma read_char_quote r : read_char (quote +:+ r) = None.
Proof. reflexivity. Qed.

Lemma short_escape_spec n :
  match short_escape n with
  | Some e => forall r, read_char (e +:+ r) = Some (n, r)
  | None => n <> 34 /\ n <> 92
  end.
Proof.
  unfold short_escape.
  repeat match goal with
  | |- context [?a =? ?b] => destruct (N.eqb_spec a b) as [->|]; [intros r; reflexivity|]
  end. done.
Qed.

Lemma read_escape_byte n r : n < 256 -> read_char (escape_byte n +:+ r) = Some (n, r).
Proof.
  intros Hn. unfold escape_byte. pose proof (short_escape_spec n) as Hs.
  destruct (short_escape n); [done|]. destruct Hs as [H1 H2].
  destruct (N.ltb_spec n 32); [|by apply read_char_plain].
  rewrite str_app_assoc. apply read_char_u; lia.
Qed.

Lemma read_escape_ascii n r : valid_cp n -> read_char (escape_ascii n +:+ r) = Some (n, r).
Proof.
  intros [Hn Hs']. unfold escape_ascii. pose proof (short_escape_spec n) as Hs.
  destruct (short_escape n); [done|]. destruct Hs as [H1 H2].
  destruct ((32 <=? n) && (n <=? 126)) eqn:E; bool_split.
  - apply read_char_plain; lia.
  - destruct (N.ltb_spec n 65536); rewrite !str_app_assoc.
    + by apply read_char_u.
    + apply read_char_pair. lia.
Qed.

(** Any escape that [read_char] undoes gives an injective, self-delimiting string text. *)
Section self_delimiting.
Context (esc : N -> string) (valid : N -> Prop).
Hypothesis read_esc : forall n r, valid n -> read_char (esc n +:+ r) = Some (n, r).

Lemma escaped_inj l1 l2 r1 r2 :
  Forall valid l1 -> Forall valid l2 ->
  concat_str (map esc l1) +:+ quote +:+ r1 = concat_str (map esc l2) +:+ quote +:+ r2 ->
  l1 = l2 /\ r1 = r2.
Proof.
  intros H1; revert l2; induction H1 as [|n l1 Hn _ IH]; intros [|m l2] H2 H;
    unfold concat_str in *; cbn [map foldr] in H.
  - split; [done|]. by injection H.
  - inversion H2; subst. apply (f_equal read_char) in H.
    rewrite str_app_nil_l, read_char_quote, str_app_assoc, read_esc in H by done. done.
  - apply (f_equal read_char) in H.
    rewrite str_app_nil_l, read_char_quote, str_app_assoc, read_esc in H by done. done.
  - inversion H2; subst. rewrite !str_app_assoc in H.
    assert (Hr := f_equal read_char H). rewrite !read_esc in Hr by done. simplify_eq.
    edestruct IH as [-> ->]; eauto.
Qed.
End self_delimiting.

Lemma dumps_str_inj ea s1 s2 r1 r2 :
  dumps_str ea s1 +:+ r1 = dumps_str ea s2 +:+ r2 -> s1 = s2 /\ r1 = r2.
Proof.
  unfold dumps_str. rewrite !str_app_assoc. intros H. apply str_app_inj_l in H.
  destruct ea.
  - apply (escaped_inj escape_ascii valid_cp) in H as [H ->];
      auto using read_escape_ascii, code_points_valid, code_points_inj.
  - apply (escaped_inj escape_byte (fun b => b < 256)) in H as [H ->];
      auto using read_escape_byte, encode_byte, encode_inj.
Qed.

Lemma join_dumps_inj ea l1 l2 r1 r2 :
  join "," (map (dumps_str ea) l1) +:+ "]" +:+ r1
    = join "," (map (dumps_str ea) l2) +:+ "]" +:+ r2 -> l1 = l2.
Proof.
  assert (Hhead : forall s r r', dumps_str ea s +:+ r <> "]" +:+ r') by (intros s r r'; done).
  revert l2; induction l1 as [|s1 l1 IH]; intros [|s2 l2] H; [done|..].
  - destruct l2; cbn [map join] in H; rewrite ?str_app_assoc, str_app_nil_l in H;
      symmetry in H; by apply Hhead in H.
  - destruct l1; cbn [map join] in H; rewrite ?str_app_assoc, str_app_nil_l in H;
      by apply Hhead in H.
  - destruct l1 as [|t1 l1], l2 as [|t2 l2]; cbn [map join] in H;
      rewrite ?str_app_assoc in H; apply dumps_str_inj in H as [-> H]; try done.
    apply str_app_inj_l in H. f_equal. apply IH. exact H.
Qed.

(** The JSON text of a list of strings determines the list. *)
Lemma dumps_strs_inj ea l1 l2 : dumps_strs ea l1 = dumps_strs ea l2 -> l1 = l2.
Proof.
  unfold dumps_strs. intros H. apply str_app_inj_l in H.
  by apply (join_dumps_inj ea l1 l2 "" "").
Qed.
