(* ===== verification/PyLoads.v ===== *)
(** * json.loads, and json.dumps with its default separators (Python standard library)

    A reader of JSON text, and the round trip: reading what [json.dumps] writes gives the value
    back, for every value without floating-point numbers and without duplicate keys.  Text is
    UTF-8; [json.loads] also detects UTF-16 and UTF-32 bytes, which the program never writes,
    and CPython limits integers to 4300 digits, which is not modelled. *)

From S2P Require Import Prelude Sha256 PyJson.
From Stdlib Require Import Ascii.

(** ** json.dumps(value), separators [", "] and [": "], [ensure_ascii=True] *)
Fixpoint json_dumps (j : json) : string :=
  match j with
  | JNull => "null"
  | JBool b => if b then "true" else "false"
  | JInt z => str_of_int z
  | JFloat f =>
      if String.eqb (f_repr f) "nan" then "NaN"
      else if String.eqb (f_repr f) "inf" then "Infinity"
      else if String.eqb (f_repr f) "-inf" then "-Infinity" else f_repr f
  | JStr s => dumps_str true s
  | JList l => "[" +:+ join ", " (map json_dumps l) +:+ "]"
  | JObj d =>
      "{" +:+ join ", " (map (fun kv => dumps_str true (fst kv) +:+ ": "
                                        +:+ json_dumps (snd kv)) d) +:+ "}"
  end.

(** ** The scanner *)

(** JSON white space: space, tab, line feed, carriage return. *)
Definition json_space (a : ascii) : bool :=
  let n := ascii_code a in ((n =? 32) || (n =? 9) || (n =? 10) || (n =? 13))%N.
Fixpoint skip_ws (s : string) : string :=
  match s with
  | String a s' => if json_space a then skip_ws s' else s
  | EmptyString => ""
  end.

Definition hex_value (a : ascii) : option N :=
  let n := ascii_code a in
  (if (48 <=? n) && (n <=? 57) then Some (n - 48)
   else if (97 <=? n) && (n <=? 102) then Some (n - 87)
   else if (65 <=? n) && (n <=? 70) then Some (n - 55) else None)%N.

(** Four hexadecimal digits. *)
Definition scan_hex4 (s : string) : option (N * string) :=
  match s with
  | String a (String b (String c (String d s))) =>
      va ← hex_value a; vb ← hex_value b; vc ← hex_value c; vd ← hex_value d;
      Some ((va * 4096 + vb * 256 + vc * 16 + vd)%N, s)
  | _ => None
  end.

(** [\uXXXX], with the second half of a surrogate pair when there is one. *)
Definition scan_u (s : string) : option (N * string) :=
  '(v, s) ← scan_hex4 s;
  let lone := Some (v, s) in
  if ((55296 <=? v) && (v <? 56320))%N then
    match strip_prefix "\u" s with
    | None => lone
    | Some s2 =>
        match scan_hex4 s2 with
        | Some (w, s2) =>
            if ((56320 <=? w) && (w <? 57344))%N
            then Some ((65536 + (v - 55296) * 1024 + (w - 56320))%N, s2) else lone
        | None => lone
        end
    end
  else lone.

(** The bytes of the next character of a string literal. *)
Definition scan_char (s : string) : option (list N * string) :=
  match s with
  | EmptyString => None
  | String a s =>
      let n := ascii_code a in
      if (n <? 32)%N || (n =? 34)%N then None
      else if negb (n =? 92)%N then Some ([n], s)
      else match s with
      | EmptyString => None
      | String e s =>
          let n := ascii_code e in
          (if n =? 110 then Some ([10], s) else if n =? 114 then Some ([13], s)
          else if n =? 116 then Some ([9], s) else if n =? 102 then Some ([12], s)
          else if n =? 98 then Some ([8], s)
          else if (n =? 34) || (n =? 92) || (n =? 47) then Some ([n], s)
          else if n =? 117 then '(v, s) ← scan_u s; Some (utf8_enc v, s)
          else None)%N
      end
  end.

(** The characters up to the closing quote. *)
Fixpoint scan_string (fuel : nat) (s : string) : option (list N * string) :=
  match fuel with
  | O => None
  | S fuel =>
      match strip_prefix quote s with
      | Some rest => Some ([], rest)
      | None =>
          '(c, s) ← scan_char s; '(cs, rest) ← scan_string fuel s; Some (c ++ cs, rest)
      end
  end.

Fixpoint str_of_bytes (l : list N) : string :=
  match l with [] => "" | b :: l => String (ascii_of_N b) (str_of_bytes l) end.

(** A run of digits. *)
Fixpoint span_digits (s : string) : string * string :=
  match s with
  | String a s' =>
      if is_digit a then let '(d, r) := span_digits s' in (String a d, r) else ("", s)
  | EmptyString => ("", "")
  end.

Definition digits_value (s : string) : N :=
  (fix go acc s := match s with
   | String a s => go (10 * acc + (ascii_code a - 48))%N s
   | EmptyString => acc
   end) 0%N s.

(** The integer part: [0] or a digit string without leading zero. *)
Definition scan_int_part (s : string) : option (string * string) :=
  match s with
  | String "0"%char s => Some ("0", s)
  | _ => let '(d, r) := span_digits s in if truthy d then Some (d, r) else None
  end.

(** [(\.\d+)?] and [([eE][-+]?\d+)?]: the text matched and the rest. *)
Definition scan_frac (s : string) : string * string :=
  match s with
  | String "."%char s' =>
      let '(d, r) := span_digits s' in if truthy d then ("." +:+ d, r) else ("", s)
  | _ => ("", s)
  end.
Definition scan_exp (s : string) : string * string :=
  match s with
  | String e s' =>
      if Ascii.eqb e "e" || Ascii.eqb e "E" then
        let '(sign, s2) := match s' with
                           | String c s2 => if Ascii.eqb c "-" || Ascii.eqb c "+"
                                            then (String c "", s2) else ("", s')
                           | EmptyString => ("", s')
                           end in
        let '(d, r) := span_digits s2 in
        if truthy d then (String e (sign +:+ d), r) else ("", s)
      else ("", s)
  | EmptyString => ("", "")
  end.

(** [dict(pairs)]: a repeated key keeps its first position and its last value. *)
Fixpoint dict_set {A} (k : string) (v : A) (d : list (string * A)) : list (string * A) :=
  match d with
  | [] => [(k, v)]
  | (k', v') :: d => if String.eqb k k' then (k', v) :: d else (k', v') :: dict_set k v d
  end.
Definition dict_of_pairs {A} (l : list (string * A)) : list (string * A) :=
  foldl (fun d kv => dict_set (fst kv) (snd kv) d) [] l.

Section loads.
(** [float(text)], the [parse_float] of [json.loads]. *)
Context (parse_float : string -> pyfloat).

Definition scan_number (s : string) : option (json * string) :=
  let '(neg, s0) := match s with String "-"%char s' => (true, s') | _ => (false, s) end in
  '(ip, s1) ← scan_int_part s0;
  let '(fr, s2) := scan_frac s1 in
  let '(ex, s3) := scan_exp s2 in
  if truthy fr || truthy ex
  then Some (JFloat (parse_float ((if neg then "-" else "") +:+ ip +:+ fr +:+ ex)), s3)
  else Some (JInt (if neg then - Z.of_N (digits_value ip) else Z.of_N (digits_value ip))%Z, s3).

(** One value, the members of an object after [{] or [,], the elements of an array. *)
Fixpoint scan_value (fuel : nat) (s : string) {struct fuel} : option (json * string) :=
  match fuel with
  | O => None
  | S fuel =>
      match s with
      | EmptyString => None
      | String a s' =>
          if Ascii.eqb a "{" then
            match strip_prefix "}" (skip_ws s') with
            | Some r => Some (JObj [], r)
            | None => '(d, r) ← scan_members fuel (skip_ws s'); Some (JObj (dict_of_pairs d), r)
            end
          else if Ascii.eqb a "[" then
            match strip_prefix "]" (skip_ws s') with
            | Some r => Some (JList [], r)
            | None => '(l, r) ← scan_elements fuel (skip_ws s'); Some (JList l, r)
            end
          else match strip_prefix quote s with
          | Some s' => '(cs, r) ← scan_string (S (String.length s')) s';
                       Some (JStr (str_of_bytes cs), r)
          | None =>
          match strip_prefix "null" s with Some r => Some (JNull, r) | None =>
          match strip_prefix "true" s with Some r => Some (JBool true, r) | None =>
          match strip_prefix "false" s with Some r => Some (JBool false, r) | None =>
          match strip_prefix "NaN" s with
          | Some r => Some (JFloat (PyFloat "nan" None), r) | None =>
          match strip_prefix "Infinity" s with
          | Some r => Some (JFloat (PyFloat "inf" None), r) | None =>
          match strip_prefix "-Infinity" s with
          | Some r => Some (JFloat (PyFloat "-inf" None), r) | None =>
          scan_number s
          end end end end end end end
      end
  end
with scan_members (fuel : nat) (s : string) {struct fuel} : option (list (string * json) * string) :=
  match fuel with
  | O => None
  | S fuel =>
      s ← strip_prefix quote s;
      '(cs, s) ← scan_string (S (String.length s)) s;
      s ← strip_prefix ":" (skip_ws s);
      '(v, s) ← scan_value fuel (skip_ws s);
      let s := skip_ws s in
      match strip_prefix "}" s with
      | Some r => Some ([(str_of_bytes cs, v)], r)
      | None =>
          s ← strip_prefix "," s;
          '(d, r) ← scan_members fuel (skip_ws s);
          Some ((str_of_bytes cs, v) :: d, r)
      end
  end
with scan_elements (fuel : nat) (s : string) {struct fuel} : option (list json * string) :=
  match fuel with
  | O => None
  | S fuel =>
      '(v, s) ← scan_value fuel s;
      let s := skip_ws s in
      match strip_prefix "]" s with
      | Some r => Some ([v], r)
      | None =>
          s ← strip_prefix "," s;
          '(l, r) ← scan_elements fuel (skip_ws s);
          Some (v :: l, r)
      end
  end.

(** [json.loads(text)]: [None] is a [JSONDecodeError].  Every recursive call consumes a
    character, so the length of the text is enough fuel. *)
Definition json_loads (s : string) : option json :=
  let s := skip_ws s in
  '(v, r) ← scan_value (S (String.length s)) s;
  if String.eqb (skip_ws r) "" then Some v else None.
End loads.

Example json_loads_ex pf :
  json_loads pf (" {" +:+ quote +:+ "a" +:+ quote +:+ ": [1, -20,null], "
                 +:+ quote +:+ "b\u00e9" +:+ quote +:+ " :{} , " +:+ quote +:+ "a" +:+ quote +:+ ":true}")
  = Some (JObj [("a", JBool true);
                ("b" +:+ str_of_bytes [195%N; 169%N], JObj [])]).
Proof. reflexivity. Qed.
Example json_loads_ex2 pf : json_loads pf "01" = None /\ json_loads pf "[1,]" = None.
Proof. split; reflexivity. Qed.

(** ** Strings round trip *)

Lemma str_of_bytes_encode s : str_of_bytes (encode s) = s.
Proof. induction s as [|a s IH]; simpl; [done|]. by rewrite ascii_N_embedding, IH. Qed.

Lemma hex_value_digit n : (n < 16)%N -> hex_value (hex_digit n) = Some n.
Proof.
  intros Hn. cut (match hex_value (hex_digit n) with Some m => (m =? n)%N | None => false end = true).
  { destruct (hex_value _); [|done]. by intros ->%N.eqb_eq. }
  revert n Hn. by apply (forall_lt16
    (fun n => match hex_value (hex_digit n) with Some m => (m =? n)%N | None => false end)).
Qed.

Lemma scan_hex4_hex4 n r : (n < 65536)%N -> scan_hex4 (hex4 n +:+ r) = Some (n, r).
Proof.
  intros Hn. pose proof (read_hex4_hex4 n r Hn) as Hr. unfold hex4 in *.
  rewrite !str_app_cons, str_app_nil_l in *. unfold read_hex4 in Hr. unfold scan_hex4.
  rewrite !hex_val_digit in Hr by (apply N.mod_upper_bound; lia).
  rewrite !hex_value_digit by (apply N.mod_upper_bound; lia). simpl. by injection Hr as ->.
Qed.

Lemma scan_u_bmp n r :
  (n < 65536)%N -> ~ (55296 <= n < 56320)%N -> scan_u (hex4 n +:+ r) = Some (n, r).
Proof.
  intros Hn Hs. unfold scan_u. rewrite scan_hex4_hex4 by done. simpl.
  replace ((55296 <=? n) && (n <? 56320))%N with false; [done|].
  symmetry. apply andb_false_iff. rewrite N.leb_gt, N.ltb_ge. lia.
Qed.

Lemma scan_u_pair n r :
  (65536 <= n < 1114112)%N ->
  scan_u (hex4 (55296 + (n - 65536) / 1024)
          +:+ "\u" +:+ hex4 (56320 + (n - 65536) mod 1024) +:+ r) = Some (n, r).
Proof.
  intros Hn.
  assert (Hd := N.Div0.div_mod (n - 65536) 1024).
  assert (Hm : ((n - 65536) mod 1024 < 1024)%N) by (apply N.mod_upper_bound; lia).
  assert (Hq : ((n - 65536) / 1024 < 1024)%N) by (apply N.Div0.div_lt_upper_bound; lia).
  revert Hd Hm Hq. generalize ((n - 65536) mod 1024)%N ((n - 65536) / 1024)%N.
  intros m q Hd Hm Hq. unfold scan_u. rewrite scan_hex4_hex4 by lia. cbn [mbind option_bind].
  replace ((55296 <=? 55296 + q) && (55296 + q <? 56320))%N with true
    by (symmetry; apply andb_true_iff; rewrite N.leb_le, N.ltb_lt; lia).
  assert (Hp : strip_prefix "\u" ("\u" +:+ hex4 (56320 + m) +:+ r) = Some (hex4 (56320 + m) +:+ r))
    by (by apply strip_prefix_eq).
  rewrite Hp, scan_hex4_hex4 by lia.
  replace ((56320 <=? 56320 + m) && (56320 + m <? 57344))%N with true
    by (symmetry; apply andb_true_iff; rewrite N.leb_le, N.ltb_lt; lia).
  do 2 f_equal. lia.
Qed.

Lemma scan_char_plain n r :
  (32 <= n)%N -> (n < 128)%N -> n <> 34%N -> n <> 92%N ->
  scan_char (chr n +:+ r) = Some (utf8_enc n, r).
Proof.
  intros H0 Hn H1 H2. unfold chr. rewrite str_app_cons, str_app_nil_l. cbn [scan_char].
  unfold ascii_code. rewrite N_ascii_embedding by lia.
  rewrite (proj2 (N.ltb_ge _ _) H0), (proj2 (N.eqb_neq _ _) H1), (proj2 (N.eqb_neq _ _) H2).
  by rewrite utf8_enc_small.
Qed.

Lemma scan_char_u s : scan_char ("\u" +:+ s) = ('(v, s) ← scan_u s; Some (utf8_enc v, s)).
Proof. reflexivity. Qed.

Lemma scan_short_escape n :
  match short_escape n with
  | Some e => forall r, scan_char (e +:+ r) = Some (utf8_enc n, r)
  | None => n <> 34%N /\ n <> 92%N
  end.
Proof.
  unfold short_escape.
  repeat match goal with
  | |- context [(?a =? ?b)%N] => destruct (N.eqb_spec a b) as [->|]; [intros r; reflexivity|]
  end. done.
Qed.

Lemma scan_escape_ascii n r :
  valid_cp n -> scan_char (escape_ascii n +:+ r) = Some (utf8_enc n, r).
Proof.
  intros [Hn Hs']. unfold escape_ascii. pose proof (scan_short_escape n) as Hs.
  destruct (short_escape n); [done|]. destruct Hs as [H1 H2].
  destruct ((32 <=? n) && (n <=? 126))%N eqn:E.
  - apply andb_prop in E as [E1 E2]. rewrite N.leb_le in E1, E2. apply scan_char_plain; lia.
  - destruct (N.ltb_spec n 65536); rewrite !str_app_assoc, scan_char_u.
    + by rewrite scan_u_bmp.
    + rewrite scan_u_pair by lia. done.
Qed.

(** No escape starts with the closing quote. *)
Lemma escape_ascii_not_quote n r : strip_prefix quote (escape_ascii n +:+ r) = None.
Proof.
  destruct (strip_prefix quote (escape_ascii n +:+ r)) as [t|] eqn:E; [|done].
  exfalso. apply strip_prefix_eq in E. unfold escape_ascii, short_escape in E.
  repeat match type of E with
  | context [if ?b then _ else _] =>
      lazymatch b with context [if _ then _ else _] => fail | _ => destruct b eqn:? end
  end; unfold chr, quote in E; rewrite ?str_app_cons, ?str_app_nil_l in E; try (by injection E).
  injection E as E _. apply (f_equal N_of_ascii) in E.
  match goal with H : (_ && _)%N = true |- _ =>
    apply andb_prop in H as [_ H]; apply N.leb_le in H end.
  rewrite (N_ascii_embedding n) in E by lia. subst. done.
Qed.

Lemma scan_string_spec l r fuel :
  Forall valid_cp l -> length l < fuel ->
  scan_string fuel (concat_str (map escape_ascii l) +:+ quote +:+ r)
  = Some (flat_map utf8_enc l, r).
Proof.
  intros Hl. revert fuel; induction Hl as [|n l Hn _ IH]; intros [|fuel] Hf;
    simpl in Hf; try lia; unfold concat_str in *; cbn [map foldr flat_map scan_string].
  - rewrite str_app_nil_l. assert (H : strip_prefix quote (quote +:+ r) = Some r)
      by (by apply strip_prefix_eq). by rewrite H.
  - rewrite !str_app_assoc, escape_ascii_not_quote, scan_escape_ascii by done.
    cbn [mbind option_bind]. rewrite IH by lia. done.
Qed.

Lemma escape_ascii_nonempty n : 1 <= String.length (escape_ascii n).
Proof.
  unfold escape_ascii, short_escape, chr.
  repeat match goal with |- context [if ?b then _ else _] => destruct b end; simpl; try lia;
  rewrite ?str_app_length; simpl; lia.
Qed.

Lemma concat_escape_length l : length l <= String.length (concat_str (map escape_ascii l)).
Proof.
  induction l as [|n l IH]; [done|]. unfold concat_str in *. cbn [map foldr length].
  rewrite str_app_length. pose proof (escape_ascii_nonempty n). lia.
Qed.

Lemma scan_string_dumps s r :
  let text := concat_str (map escape_ascii (code_points s)) +:+ quote +:+ r in
  scan_string (S (String.length text)) text = Some (encode s, r).
Proof.
  intros text. unfold text. rewrite scan_string_spec.
  - unfold code_points. by rewrite (proj2 (utf8_decode_spec _ (encode_byte s))).
  - apply code_points_valid.
  - rewrite str_app_length. pose proof (concat_escape_length (code_points s)). lia.
Qed.

Lemma strip_quote_dumps s r :
  strip_prefix quote (dumps_str true s +:+ r)
  = Some (concat_str (map escape_ascii (code_points s)) +:+ quote +:+ r).
Proof. unfold dumps_str. apply strip_prefix_eq. by rewrite !str_app_assoc. Qed.

(** ** Integers round trip *)

(** Text that no number continues into. *)
Definition num_end (r : string) : bool :=
  match r with
  | EmptyString => true
  | String a _ => negb (is_digit a || Ascii.eqb a "." || Ascii.eqb a "e" || Ascii.eqb a "E")
  end.

Lemma pretty_char_digit n :
  (n < 10)%N -> is_digit (pretty_N_char n) = true /\ ascii_code (pretty_N_char n) = (48 + n)%N.
Proof.
  intros Hn.
  assert (In n (map N.of_nat (seq 0 10))) as H
    by (apply in_map_iff; exists (N.to_nat n); rewrite N2Nat.id; split; [done|]; apply in_seq; lia).
  simpl in H. repeat destruct H as [<-|H]; done.
Qed.

Definition value_from (acc : N) (s : string) : N :=
  (fix go acc s := match s with
   | String a s => go (10 * acc + (ascii_code a - 48))%N s
   | EmptyString => acc
   end) acc s.

Lemma value_from_cons acc a s :
  value_from acc (String a s) = value_from (10 * acc + (ascii_code a - 48)) s.
Proof. reflexivity. Qed.

(** The digits of [x], then [s]: all digits, the first one not [0], of value [x] continued by [s]. *)
Lemma pretty_go_spec x s :
  (0 < x)%N ->
  exists a t, pretty_N_go x s = String a (t +:+ s) /\ str_forallb is_digit (String a t) = true
    /\ a <> "0"%char
    /\ (forall u, value_from 0 (String a t +:+ u) = value_from x u).
Proof.
  revert s. induction (N.lt_wf_0 x) as [x _ IH]. intros s Hx.
  rewrite pretty_N_go_step by done.
  assert (Hm : (x mod 10 < 10)%N) by (apply N.mod_upper_bound; lia).
  destruct (pretty_char_digit _ Hm) as [Hd Hc].
  pose proof (N.Div0.div_mod x 10) as Hdm.
  destruct (decide (x / 10 = 0)%N) as [E|E].
  - rewrite E, pretty_N_go_0. exists (pretty_N_char (x mod 10)), "". repeat split.
    + simpl. by rewrite Hd.
    + intros Ha. rewrite Ha in Hc. change (ascii_code "0") with 48%N in Hc. lia.
    + intros u. rewrite str_app_cons, str_app_nil_l, value_from_cons, Hc. f_equal. lia.
  - assert (Hlt : (x / 10 < x)%N) by (apply N.div_lt; lia).
    destruct (IH _ Hlt (String (pretty_N_char (x mod 10)) s)) as (a & t & Heq & Hds & Hne & Hv);
      [lia|].
    exists a, (t +:+ String (pretty_N_char (x mod 10)) ""). rewrite Heq. repeat split.
    + by rewrite str_app_assoc.
    + clear -Hds Hd. cbn [str_forallb] in *. apply andb_prop in Hds as [Ha Ht].
      rewrite Ha. simpl. induction t as [|b t IHt]; [by rewrite str_app_nil_l; simpl; rewrite Hd|].
      rewrite str_app_cons. cbn [str_forallb] in *. apply andb_prop in Ht as [-> Ht]. simpl. auto.
    + done.
    + intros u. rewrite <- str_app_cons, str_app_assoc, Hv, str_app_cons, str_app_nil_l.
      rewrite value_from_cons, Hc. f_equal. rewrite (N.add_comm 48), N.add_sub. by symmetry.
Qed.

Lemma span_digits_spec d r :
  str_forallb is_digit d = true -> num_end r = true -> span_digits (d +:+ r) = (d, r).
Proof.
  intros Hd Hr. induction d as [|a d IH]; cbn [str_forallb] in Hd.
  - rewrite str_app_nil_l. destruct r as [|b r]; [done|]. simpl in *.
    destruct (is_digit b); done.
  - apply andb_prop in Hd as [Ha Hd]. rewrite str_app_cons. cbn [span_digits].
    by rewrite Ha, IH.
Qed.

Lemma scan_frac_end r : num_end r = true -> scan_frac r = ("", r).
Proof.
  destruct r as [|a r]; [done|]. simpl. intros H. apply negb_true_iff in H.
  destruct (Ascii.eqb_spec a ".") as [->|Hne]; [done|].
  destruct a as [[] [] [] [] [] [] [] []]; done.
Qed.

Lemma scan_exp_end r : num_end r = true -> scan_exp r = ("", r).
Proof.
  destruct r as [|a r]; [done|]. simpl. intros H. apply negb_true_iff in H.
  apply orb_false_iff in H as [H ->]. apply orb_false_iff in H as [_ ->]. done.
Qed.

Lemma scan_int_part_pretty n r :
  num_end r = true ->
  exists d, pretty n = d /\ scan_int_part (d +:+ r) = Some (d, r) /\ digits_value d = n.
Proof.
  intros Hr. unfold pretty, pretty_N. destruct (decide (n = 0)%N) as [->|Hn].
  - exists "0". done.
  - destruct (pretty_go_spec n "") as (a & t & Heq & Hd & Hne & Hv); [lia|].
    rewrite str_app_nil_r in Heq. exists (String a t). split; [done|]. split.
    + assert (Hi : scan_int_part (String a t +:+ r)
                   = let '(d, r) := span_digits (String a t +:+ r) in
                     if truthy d then Some (d, r) else None).
      { rewrite str_app_cons. destruct a as [[] [] [] [] [] [] [] []]; done. }
      by rewrite Hi, span_digits_spec.
    + specialize (Hv ""). by rewrite str_app_nil_r in Hv.
Qed.

Lemma digit_not_minus (n : N) : exists a s, pretty n = String a s /\ is_digit a = true.
Proof.
  unfold pretty, pretty_N. destruct (decide (n = 0)%N) as [->|Hn]; [by exists "0"%char, ""|].
  destruct (pretty_go_spec n "") as (a & t & Heq & Hd & _); [lia|].
  exists a, (t +:+ ""). split; [done|]. simpl in Hd. by apply andb_prop in Hd as [? _].
Qed.

Lemma scan_number_int pf z r :
  num_end r = true -> scan_number pf (str_of_int z +:+ r) = Some (JInt z, r).
Proof.
  intros Hr. unfold scan_number, str_of_int.
  assert (Hpos : forall n, scan_int_part (pretty n +:+ r) = Some (pretty n, r)
                           /\ digits_value (pretty n) = n).
  { intros n. by destruct (scan_int_part_pretty n r Hr) as (d & -> & ? & ?). }
  assert (Hz : pretty z = (if (z <? 0)%Z then "-" else "") +:+ pretty (Z.abs_N z)).
  { by destruct z. }
  rewrite Hz. destruct (Z.ltb_spec z 0).
  - rewrite !str_app_cons, str_app_nil_l. destruct (Hpos (Z.abs_N z)) as [-> Hd].
    cbn [mbind option_bind]. rewrite scan_frac_end, scan_exp_end by done. simpl.
    do 3 f_equal. rewrite Hd. lia.
  - rewrite str_app_nil_l. destruct (Hpos (Z.abs_N z)) as [Hs Hd].
    destruct (digit_not_minus (Z.abs_N z)) as (a & t & Ha & Hda).
    rewrite Ha in *.
    replace (match String a t +:+ r with
             | String "-"%char s' => (true, s') | _ => (false, String a t +:+ r) end)
      with (false, String a t +:+ r).
    2:{ rewrite str_app_cons. destruct a as [[] [] [] [] [] [] [] []]; done. }
    rewrite Hs. cbn [mbind option_bind]. rewrite scan_frac_end, scan_exp_end by done. simpl.
    do 3 f_equal. change (digits_value (String a t) = Z.abs_N z) in Hd.
    unfold digits_value in *. simpl in Hd. rewrite Hd. lia.
Qed.

(** ** Values round trip *)

Fixpoint keys_distinct {A} (d : list (string * A)) : bool :=
  match d with
  | [] => true
  | (k, _) :: d => negb (existsb (String.eqb k) (map fst d)) && keys_distinct d
  end.

(** A value with no floating-point number and no repeated key. *)
Fixpoint plain_json (j : json) : bool :=
  match j with
  | JFloat _ => false
  | JList l => forallb plain_json l
  | JObj d => keys_distinct d && forallb (fun kv => plain_json (snd kv)) d
  | _ => true
  end.

Lemma dict_set_fresh {A} k (v : A) d :
  existsb (String.eqb k) (map fst d) = false -> dict_set k v d = d ++ [(k, v)].
Proof.
  induction d as [|[k' v'] d IH]; [done|]. simpl. intros H.
  apply orb_false_iff in H as [-> H]. by rewrite IH.
Qed.

Lemma dict_of_pairs_distinct_aux {A} (acc d : list (string * A)) :
  keys_distinct (acc ++ d) = true ->
  foldl (fun d kv => dict_set (fst kv) (snd kv) d) acc d = acc ++ d.
Proof.
  revert acc; induction d as [|[k v] d IH]; intros acc H; simpl; [by rewrite app_nil_r|].
  assert (Hk : existsb (String.eqb k) (map fst acc) = false).
  { clear IH. induction acc as [|[k' v'] acc IHa]; [done|]. simpl in *.
    apply andb_prop in H as [H1 H2]. rewrite (IHa H2), orb_false_r.
    apply negb_true_iff in H1. rewrite String.eqb_sym.
    rewrite map_app, existsb_app in H1. simpl in H1.
    apply orb_false_iff in H1 as [_ H1]. by apply orb_false_iff in H1 as [? _]. }
  rewrite dict_set_fresh by done. rewrite IH; rewrite <- app_assoc; done.
Qed.

Lemma dict_of_pairs_distinct {A} (d : list (string * A)) :
  keys_distinct d = true -> dict_of_pairs d = d.
Proof. apply (dict_of_pairs_distinct_aux []). Qed.

(** The first character of a JSON text: no space, no closing bracket. *)
Definition text_head (s : string) : bool :=
  match s with
  | EmptyString => false
  | String a _ => negb (json_space a || Ascii.eqb a "]" || Ascii.eqb a "}")
  end.

Lemma digit_head a : is_digit a = true -> text_head (String a "") = true.
Proof. destruct a as [[] [] [] [] [] [] [] []]; done. Qed.

Lemma json_dumps_head j r : plain_json j = true -> text_head (json_dumps j +:+ r) = true.
Proof.
  destruct j; try done; intros _; simpl; rewrite ?str_app_cons; try done.
  - by destruct b.
  - unfold str_of_int.
    assert (H : forall n : N, text_head (pretty n +:+ r) = true).
    { intros n. destruct (digit_not_minus n) as (a & s & -> & Ha). apply (digit_head a Ha). }
    destruct z; [done|apply (H (N.pos p))|done].
Qed.

Lemma skip_ws_head s : text_head s = true -> skip_ws s = s.
Proof.
  destruct s as [|a s]; [done|]. simpl. intros H. apply negb_true_iff in H.
  apply orb_false_iff in H as [H _]. by apply orb_false_iff in H as [-> _].
Qed.

Lemma strip_close_head c s :
  text_head s = true -> (c = "]" \/ c = "}") -> strip_prefix c s = None.
Proof.
  destruct s as [|a s]; [done|]. cbn [text_head]. intros H. apply negb_true_iff in H.
  apply orb_false_iff in H as [H H2]. apply orb_false_iff in H as [_ H1].
  intros [-> | ->]; cbn [strip_prefix]; rewrite Ascii.eqb_sym, ?H1, ?H2; done.
Qed.

Lemma dumps_str_head s r : text_head (dumps_str true s +:+ r) = true.
Proof. unfold dumps_str, quote, chr. rewrite !str_app_assoc. done. Qed.

Definition member_text (kv : string * json) : string :=
  dumps_str true (fst kv) +:+ ": " +:+ json_dumps (snd kv).

(** [scan_value] reads back the text of [j], whatever follows it. *)
Definition reads pf (j : json) : Prop :=
  forall fuel r, String.length (json_dumps j) < fuel -> num_end r = true ->
    scan_value pf fuel (json_dumps j +:+ r) = Some (j, r).

Lemma strip_prefix_app p r : strip_prefix p (p +:+ r) = Some r.
Proof. by apply strip_prefix_eq. Qed.

(** The text after an element: the closing bracket, or a comma and the next one. *)
Definition more (close : string) (texts : list string) (r : string) : string :=
  match texts with
  | [] => close +:+ r
  | _ => ", " +:+ join ", " texts +:+ close +:+ r
  end.

Lemma join_more close t texts r :
  join ", " (t :: texts) +:+ close +:+ r = t +:+ more close texts r.
Proof. destruct texts; [done|]. cbn [join more]. by rewrite !str_app_assoc. Qed.

Lemma more_end close texts r : (close = "]" \/ close = "}") -> num_end (more close texts r) = true.
Proof. intros [-> | ->]; destruct texts; done. Qed.

Lemma scan_elements_spec pf l r fuel :
  Forall (reads pf) l -> forallb plain_json l = true -> l <> [] ->
  S (String.length (join ", " (map json_dumps l))) < fuel ->
  scan_elements pf fuel (join ", " (map json_dumps l) +:+ "]" +:+ r) = Some (l, r).
Proof.
  intros Hl. revert fuel; induction Hl as [|x l Hx _ IH]; intros [|fuel] Hp Hne Hf;
    try done; [lia|].
  cbn [forallb] in Hp. apply andb_prop in Hp as [Hpx Hpl].
  cbn [map]. rewrite join_more. cbn [scan_elements].
  assert (Hlen : String.length (json_dumps x) <= String.length (join ", " (map json_dumps (x :: l))))
    by (destruct l; cbn [map join]; rewrite ?str_app_length; lia).
  cbn [map] in Hlen, Hf. rewrite Hx by (try apply more_end; auto; lia).
  cbn [mbind option_bind]. destruct l as [|y l].
  - unfold more. cbn [map]. rewrite str_app_cons, str_app_nil_l. reflexivity.
  - set (tail := json_dumps y :: map json_dumps l) in *.
    unfold more. cbn [map]. fold tail. change (tail) with (map json_dumps (y :: l)).
    cbn [forallb] in Hpl. assert (Hpy := Hpl). apply andb_prop in Hpy as [Hpy _].
    rewrite (str_app_cons ","), (str_app_cons " "), str_app_nil_l. cbn [skip_ws].
    change (json_space ",") with false. cbn [strip_prefix]. simpl (Ascii.eqb _ _).
    cbn [mbind option_bind skip_ws]. change (json_space " ") with true. cbn iota.
    rewrite skip_ws_head.
    + rewrite IH; [done|done|done|]. unfold tail in *.
      cbn [map join] in Hf |- *. rewrite !str_app_length in Hf. simpl in Hf. lia.
    + cbn [map]. rewrite join_more. by apply json_dumps_head.
Qed.

Lemma scan_members_spec pf d r fuel :
  Forall (fun kv => reads pf (snd kv)) d ->
  forallb (fun kv => plain_json (snd kv)) d = true -> d <> [] ->
  S (String.length (join ", " (map member_text d))) < fuel ->
  scan_members pf fuel (join ", " (map member_text d) +:+ "}" +:+ r) = Some (d, r).
Proof.
  intros Hd. revert fuel; induction Hd as [|[k x] d Hx _ IH]; intros [|fuel] Hp Hne Hf;
    try done; [lia|].
  cbn [forallb snd] in *. apply andb_prop in Hp as [Hpx Hpd].
  cbn [map]. rewrite join_more. cbn [scan_members]. unfold member_text at 1. cbn [fst snd].
  rewrite !str_app_assoc, strip_quote_dumps. cbn [mbind option_bind].
  rewrite scan_string_dumps. cbn [mbind option_bind]. rewrite str_of_bytes_encode.
  rewrite !str_app_cons, !str_app_nil_l.
  cbn [skip_ws]. change (json_space ":") with false. cbn [strip_prefix].
  simpl (Ascii.eqb _ _). cbn [mbind option_bind skip_ws].
  change (json_space " ") with true. cbn iota.
  rewrite (skip_ws_head (json_dumps x +:+ _)) by (by apply json_dumps_head).
  assert (Hlen : String.length (json_dumps x)
                 <= String.length (join ", " (map member_text ((k, x) :: d)))).
  { destruct d; cbn [map join member_text fst snd]; unfold member_text; cbn [fst snd];
      rewrite ?str_app_length; lia. }
  cbn [map] in Hlen, Hf. rewrite Hx by (try apply more_end; auto; lia).
  cbn [mbind option_bind]. destruct d as [|[k' y] d].
  - unfold more. cbn [map]. rewrite str_app_cons, str_app_nil_l. reflexivity.
  - unfold more. cbn [map].
    change (member_text (k', y) :: map member_text d) with (map member_text ((k', y) :: d)).
    rewrite (str_app_cons ","), (str_app_cons " "), str_app_nil_l. cbn [skip_ws].
    change (json_space ",") with false. cbn [strip_prefix]. simpl (Ascii.eqb _ _).
    cbn [mbind option_bind skip_ws]. change (json_space " ") with true. cbn iota.
    rewrite skip_ws_head.
    + rewrite IH; [done|done|done|].
      cbn [map join] in Hf |- *. rewrite !str_app_length in Hf. simpl in Hf. lia.
    + cbn [map]. rewrite join_more. unfold member_text. rewrite !str_app_assoc.
      apply dumps_str_head.
Qed.

Lemma scan_scalar_reads pf j :
  plain_json j = true -> (forall l, j <> JList l) -> (forall d, j <> JObj d) -> reads pf j.
Proof.
  intros Hp Hl Hd [|fuel] r Hf Hr; [lia|].
  destruct j as [|b|z|f|s|l|d]; try done.
  - destruct b; done.
  - cbn [json_dumps]. rewrite <- (scan_number_int pf z r Hr).
    unfold str_of_int. destruct (digit_not_minus (Z.abs_N z)) as (a & t & Ha & Hda).
    assert (Hz : pretty z = (if (z <? 0)%Z then "-" else "") +:+ String a t)
      by (rewrite <- Ha; by destruct z).
    rewrite Hz.
    destruct (z <? 0)%Z; rewrite ?str_app_nil_l, ?str_app_cons, ?str_app_nil_l; cbn [scan_value];
      destruct a as [[] [] [] [] [] [] [] []]; done.
  - cbn [json_dumps]. pose proof (strip_quote_dumps s r) as Hs.
    assert (Hq : exists t, dumps_str true s +:+ r = String (ascii_of_N 34) t).
    { unfold dumps_str, quote, chr. rewrite !str_app_assoc. by eexists. }
    destruct Hq as [t Ht]. rewrite Ht in *. cbn [scan_value]. rewrite Hs.
    change (Ascii.eqb (ascii_of_N 34) "{") with false.
    change (Ascii.eqb (ascii_of_N 34) "[") with false. cbn iota.
    cbn [mbind option_bind]. rewrite scan_string_dumps. cbn [mbind option_bind].
    by rewrite str_of_bytes_encode.
  - by destruct (Hl l).
  - by destruct (Hd d).
Qed.

Lemma json_reads pf j : plain_json j = true -> reads pf j.
Proof.
  induction j as [| | | | |l IH|d IH] using json_rect_all; intros Hp;
    try (by apply scan_scalar_reads).
  - cbn [plain_json] in Hp. intros [|fuel] r Hf Hr; [lia|].
    cbn [json_dumps] in *. rewrite !str_app_assoc, str_app_cons, str_app_nil_l.
    rewrite !str_app_length in Hf. simpl in Hf. cbn [scan_value].
    change (Ascii.eqb "[" "{") with false. change (Ascii.eqb "[" "[") with true. cbn iota.
    destruct l as [|x l]; [reflexivity|].
    assert (Hh : text_head (join ", " (map json_dumps (x :: l)) +:+ "]" +:+ r) = true).
    { cbn [map forallb] in *. rewrite join_more. apply json_dumps_head.
      by apply andb_prop in Hp as [? _]. }
    rewrite skip_ws_head, strip_close_head by auto.
    rewrite scan_elements_spec; [done| |done|done|lia].
    rewrite forallb_forall in Hp. rewrite Forall_forall in IH |- *.
    intros y Hy. apply IH; [done|]. apply Hp. by apply list_elem_of_In.
  - cbn [plain_json] in Hp. apply andb_prop in Hp as [Hk Hp].
    intros [|fuel] r Hf Hr; [lia|].
    change (json_dumps (JObj d)) with ("{" +:+ join ", " (map member_text d) +:+ "}") in *.
    rewrite !str_app_assoc, str_app_cons, str_app_nil_l.
    rewrite !str_app_length in Hf. simpl in Hf. cbn [scan_value].
    change (Ascii.eqb "{" "{") with true. cbn iota.
    destruct d as [|[k x] d]; [reflexivity|].
    assert (Hh : text_head (join ", " (map member_text ((k, x) :: d)) +:+ "}" +:+ r) = true).
    { cbn [map]. rewrite join_more. unfold member_text. rewrite !str_app_assoc.
      apply dumps_str_head. }
    rewrite skip_ws_head, strip_close_head by auto.
    rewrite scan_members_spec; [cbn [mbind option_bind]| |done|done|lia].
    + by rewrite dict_of_pairs_distinct.
    + rewrite forallb_forall in Hp. rewrite Forall_forall in IH |- *.
      intros y Hy. apply IH; [done|]. apply Hp. by apply list_elem_of_In.
Qed.

(** [json.loads(json.dumps(value)) == value]. *)
Lemma json_loads_dumps pf j : plain_json j = true -> json_loads pf (json_dumps j) = Some j.
Proof.
  intros Hp. unfold json_loads.
  pose proof (json_dumps_head j "" Hp) as Hh. rewrite str_app_nil_r in Hh.
  rewrite skip_ws_head by done.
  pose proof (json_reads pf j Hp (S (String.length (json_dumps j))) "") as H.
  rewrite str_app_nil_r in H. rewrite H by (done || lia). done.
Qed.
