(* ===== verification/Refs.v ===== *)
(** * harness/refs.py: opaque refs over workspace and session identity

    The digests are SHA-256 over a JSON array of strings.  "Distinct identities give distinct
    refs" is stated with no assumption on the hash: equal refs come from equal identities, or
    the two JSON texts are themselves a SHA-256 collision. *)

From S2P Require Import Prelude Sha256 PyJson.
From Stdlib Require Import Ascii.

Definition _WORKSPACE_NAME_PREFIX : string := "agent-".
Definition _WORKSPACE_REF_HEX_LEN : nat := 20.
Definition _AGENT_NAME_MAX_LEN : nat := 25.
Definition _AGENT_NAME_HASH_LEN : nat := 8.

(** [_digest(parts)] *)
Definition _digest (parts : list string) : string := sha256_hex (dumps_strs false parts).

Definition workspace_ref (namespace agent_uid workspace_key : string) : string :=
  _digest [namespace; agent_uid; workspace_key].

(** Session digest scoped by the Workspace ref. *)
Definition session_ref (workspace_ref_hex session_key : string) : string :=
  _digest [workspace_ref_hex; session_key].

Definition invocation_digest (agent_uid channel event_id : string) : string :=
  _digest [agent_uid; channel; event_id].

(** [_AGENT_NAME_RE.fullmatch]: dot-separated labels of [[-a-z0-9]] that neither start nor
    end with a dash. *)
Definition label_char (a : ascii) : bool := is_lower a || is_digit a || Ascii.eqb a "-".
Fixpoint last_char (d : ascii) (s : string) : ascii :=
  match s with EmptyString => d | String a s => last_char a s end.
Definition label_ok (s : string) : bool :=
  match s with
  | EmptyString => false
  | String a _ => str_forallb label_char s && negb (Ascii.eqb a "-")
                  && negb (Ascii.eqb (last_char a s) "-")
  end.
Definition _AGENT_NAME_RE (s : string) : bool := forallb label_ok (split_on "." s).

(** [s.replace(".", "-")] and [s.rstrip("-")]. *)
Definition dots_to_dashes (s : string) : string :=
  str_map (fun a => if Ascii.eqb a "." then "-"%char else a) s.
Fixpoint rstrip_dashes (s : string) : string :=
  match s with
  | EmptyString => ""
  | String a s =>
      let r := rstrip_dashes s in
      if Ascii.eqb a "-" && String.eqb r "" then "" else String a r
  end.

(** [s[:n]] (ASCII strings: one byte per character). *)
Fixpoint str_take (n : nat) (s : string) : string :=
  match n, s with
  | S n, String a s => String a (str_take n s)
  | _, _ => ""
  end.

Arguments str_take !n !s / : simpl nomatch.

Definition _dns_name (prefix : string) (max_part : nat) (agent_name workspace_ref_hex : string)
    : result exn string :=
  if (253 <? String.length agent_name)%nat || negb (_AGENT_NAME_RE agent_name) then Err ValueError
  else
    let part := dots_to_dashes agent_name in
    let part :=
      if (max_part <? String.length part)%nat then
        let digest := str_take _AGENT_NAME_HASH_LEN (sha256_hex agent_name) in
        rstrip_dashes (str_take (max_part - _AGENT_NAME_HASH_LEN - 1) part) +:+ "-" +:+ digest
      else part in
    Ok (prefix +:+ part +:+ "-" +:+ str_take _WORKSPACE_REF_HEX_LEN workspace_ref_hex).

Definition workspace_name (agent_name workspace_ref_hex : string) : result exn string :=
  _dns_name _WORKSPACE_NAME_PREFIX _AGENT_NAME_MAX_LEN agent_name workspace_ref_hex.

(** ** Injectivity *)

(** Two different texts with the same digest. *)
Definition sha256_collision (s t : string) : Prop := s <> t /\ sha256_hex s = sha256_hex t.

Lemma _digest_inj l1 l2 :
  _digest l1 = _digest l2 ->
  l1 = l2 \/ sha256_collision (dumps_strs false l1) (dumps_strs false l2).
Proof.
  intros H. destruct (decide (dumps_strs false l1 = dumps_strs false l2)) as [E|E].
  - left. by apply dumps_strs_inj in E.
  - by right.
Qed.

Lemma _digest_length l : String.length (_digest l) = 64.
Proof. apply sha256_hex_length. Qed.

Lemma _digest_hex l : str_forallb is_hex (_digest l) = true.
Proof. apply sha256_hex_is_hex. Qed.

(** ** Characters of a string *)

Lemma str_forallb_app f s t : str_forallb f (s +:+ t) = str_forallb f s && str_forallb f t.
Proof.
  induction s as [|a s IH]; [done|]. rewrite str_app_cons. simpl. by rewrite IH, andb_assoc.
Qed.

Lemma str_forallb_impl (f g : ascii -> bool) s :
  (forall a, f a = true -> g a = true) -> str_forallb f s = true -> str_forallb g s = true.
Proof.
  intros Hfg. induction s as [|a s IH]; simpl; [done|].
  rewrite !andb_true_iff. intros [? ?]; auto.
Qed.

Lemma str_forallb_take f n s : str_forallb f s = true -> str_forallb f (str_take n s) = true.
Proof.
  revert n; induction s as [|a s IH]; intros [|n]; simpl; try done.
  rewrite !andb_true_iff. intros [? ?]; auto.
Qed.

Lemma str_forallb_rstrip f s : str_forallb f s = true -> str_forallb f (rstrip_dashes s) = true.
Proof.
  induction s as [|a s IH]; simpl; [done|]. rewrite andb_true_iff. intros [Ha Hs].
  destruct (Ascii.eqb a "-" && String.eqb (rstrip_dashes s) ""); [done|]. simpl.
  by rewrite Ha, IH.
Qed.

Lemma str_forallb_map f g s :
  str_forallb f (str_map g s) = str_forallb (fun a => f (g a)) s.
Proof. induction s as [|a s IH]; simpl; congruence. Qed.

Lemma str_map_length f s : String.length (str_map f s) = String.length s.
Proof. induction s; simpl; congruence. Qed.

Lemma str_take_length n s : String.length (str_take n s) = Nat.min n (String.length s).
Proof. revert n; induction s as [|a s IH]; intros [|n]; simpl; auto. Qed.

Lemma rstrip_dashes_length s : String.length (rstrip_dashes s) <= String.length s.
Proof. induction s as [|a s IH]; simpl; [done|]. case_match; simpl; lia. Qed.

Lemma last_char_app d s t : last_char d (s +:+ t) = last_char (last_char d s) t.
Proof. revert d; induction s as [|a s IH]; intros d; [done|]. rewrite str_app_cons. apply IH. Qed.

Lemma last_char_forallb f d s : f d = true -> str_forallb f s = true -> f (last_char d s) = true.
Proof.
  revert d; induction s as [|a s IH]; intros d Hd; simpl; [done|].
  rewrite andb_true_iff. intros [? ?]; auto.
Qed.

Lemma split_on_forallb f c acc s :
  forallb (str_forallb f) (split_on_aux c acc s) = true ->
  str_forallb (fun a => f a || Ascii.eqb a c) (acc +:+ s) = true.
Proof.
  revert acc; induction s as [|a s IH]; intros acc; simpl.
  - rewrite andb_true_r, str_app_nil_r. apply str_forallb_impl. intros a ->. done.
  - destruct (Ascii.eqb_spec a c) as [->|Hne]; simpl.
    + rewrite andb_true_iff. intros [Ha Hs]. rewrite str_forallb_app. apply andb_true_iff. split.
      * revert Ha. apply str_forallb_impl. intros b ->. done.
      * simpl. rewrite Ascii.eqb_refl, orb_true_r. by apply IH in Hs.
    + intros Hs. apply IH in Hs. by rewrite str_app_assoc in Hs.
Qed.

Lemma agent_name_chars s :
  _AGENT_NAME_RE s = true -> str_forallb label_char (dots_to_dashes s) = true.
Proof.
  intros H. unfold dots_to_dashes. rewrite str_forallb_map.
  apply (str_forallb_impl (fun a => label_char a || Ascii.eqb a ".")).
  - intros a. destruct (Ascii.eqb_spec a "."); [done|]. by rewrite orb_false_r.
  - apply (split_on_forallb label_char "." ""). revert H.
    unfold _AGENT_NAME_RE, split_on. rewrite !forallb_forall. intros H x Hx. apply H in Hx.
    unfold label_ok in Hx. destruct x; [done|]. rewrite !andb_true_iff in Hx. by destruct Hx as [[? _] _].
Qed.

Lemma is_hex_label a : is_hex a = true -> label_char a = true /\ a <> "-"%char.
Proof. destruct a as [[] [] [] [] [] [] [] []]; vm_compute; intros; split; congruence. Qed.

(** The name part between prefix and ref: at most 25 characters, all of them label characters. *)
Lemma dns_name_part prefix name ref s :
  _dns_name prefix _AGENT_NAME_MAX_LEN name ref = Ok s ->
  exists part, s = prefix +:+ part +:+ "-" +:+ str_take _WORKSPACE_REF_HEX_LEN ref
    /\ String.length part <= 25 /\ str_forallb label_char part = true.
Proof.
  unfold _dns_name. cbv zeta. destruct (_ || _) eqn:E; [done|]. intros [= <-].
  apply orb_false_iff in E as [_ Hre]. apply negb_false_iff in Hre.
  apply agent_name_chars in Hre. eexists; split; [reflexivity|].
  assert (Hd : String.length (dots_to_dashes name) = String.length name) by apply str_map_length.
  destruct (_AGENT_NAME_MAX_LEN <? _)%nat eqn:El.
  - match goal with |- context [rstrip_dashes ?c] => set (cut := rstrip_dashes c) end.
    assert (Hcut : String.length cut <= 16).
    { unfold cut. rewrite rstrip_dashes_length, str_take_length.
      unfold _AGENT_NAME_MAX_LEN, _AGENT_NAME_HASH_LEN. lia. }
    split.
    + rewrite !str_app_length, str_take_length, sha256_hex_length. unfold _AGENT_NAME_HASH_LEN.
      change (String.length "-") with 1. lia.
    + rewrite !str_forallb_app. unfold cut.
      rewrite str_forallb_rstrip by (by apply str_forallb_take). simpl. apply str_forallb_take.
      eapply str_forallb_impl; [|apply sha256_hex_is_hex]. intros a Ha. by apply is_hex_label.
  - split; [|done]. apply Nat.ltb_ge in El. unfold _AGENT_NAME_MAX_LEN in El. lia.
Qed.

(** ** Properties *)

(** Workspace and session refs separate every identity: two (namespace, agent UID,
    Workspace key, session key) tuples with the same session ref are equal, unless the JSON
    texts hashed for them are a SHA-256 collision. *)
Theorem session_identity_separated ns u wk sk ns' u' wk' sk' :
  let w := workspace_ref ns u wk in
  let w' := workspace_ref ns' u' wk' in
  session_ref w sk = session_ref w' sk' ->
  (ns, u, wk, sk) = (ns', u', wk', sk')
  \/ sha256_collision (dumps_strs false [w; sk]) (dumps_strs false [w'; sk'])
  \/ sha256_collision (dumps_strs false [ns; u; wk]) (dumps_strs false [ns'; u'; wk']).
Proof.
  intros w w' H. apply _digest_inj in H as [H|H]; [|by right; left].
  injection H as Hw Hs. apply _digest_inj in Hw as [Hw|Hw]; [|by right; right].
  left. congruence.
Qed.

Lemma session_identity_separated_witness :
  session_ref (workspace_ref "ach" "u" "gitlab:x") "mr:1"
    = session_ref (workspace_ref "ach" "u" "gitlab:x") "mr:1" /\
  ("ach", "u", "gitlab:x", "mr:1") = ("ach", "u", "gitlab:x", "mr:1").
Proof.
  split; [reflexivity|].
  destruct (session_identity_separated "ach" "u" "gitlab:x" "mr:1" "ach" "u" "gitlab:x" "mr:1" eq_refl)
    as [H|[[H _]|[H _]]]; [exact H|destruct (H eq_refl)..].
Defined.

(** The Workspace name of any accepted agent name is a DNS-1035 label of at most 52
    characters, starts with [agent-] and ends in a dash and the first 20 hexadecimal digits of
    the Workspace ref.  Every other agent name is rejected with [ValueError]. *)
Theorem workspace_name_dns name ns u k :
  let ref := workspace_ref ns u k in
  match workspace_name name ref with
  | Ok s =>
      String.length s <= 52 /\ label_ok s = true /\ strip_prefix "agent-" s <> None
      /\ (253 <? String.length name)%nat = false /\ _AGENT_NAME_RE name = true
      /\ (exists pre, s = pre +:+ "-" +:+ str_take 20 ref)
  | Err e => e = ValueError /\ ((253 <? String.length name)%nat = true \/ _AGENT_NAME_RE name = false)
  end.
Proof.
  intros ref. unfold workspace_name. destruct (_dns_name _ _ name ref) as [s|e] eqn:E.
  - assert (Hacc : (253 <? String.length name)%nat = false /\ _AGENT_NAME_RE name = true).
    { unfold _dns_name in E. destruct (_ || _) eqn:Eo; [done|].
      apply orb_false_iff in Eo as [? Hre]. by apply negb_false_iff in Hre. }
    apply dns_name_part in E as (part & -> & Hlen & Hch).
    set (r := str_take _WORKSPACE_REF_HEX_LEN ref).
    assert (Hrl : String.length r = 20).
    { unfold r, ref, workspace_ref. by rewrite str_take_length, _digest_length. }
    assert (Hrh : str_forallb is_hex r = true) by (apply str_forallb_take, _digest_hex).
    split_and!; try apply Hacc.
    + rewrite !str_app_length, Hrl. simpl. lia.
    + change (label_ok (_WORKSPACE_NAME_PREFIX +:+ part +:+ "-" +:+ r))
        with (str_forallb label_char ("agent-" +:+ part +:+ "-" +:+ r) && true
              && negb (Ascii.eqb (last_char "a" ("agent-" +:+ part +:+ "-" +:+ r)) "-")).
      rewrite !andb_true_iff. split_and!; [|done|].
      * rewrite !str_forallb_app, Hch. simpl. eapply str_forallb_impl; [|exact Hrh].
        intros a Ha. by apply is_hex_label.
      * rewrite !last_char_app. destruct r as [|c r]; [done|].
        simpl in Hrh |- *. apply andb_true_iff in Hrh as [Hc Hr].
        apply negb_true_iff, Ascii.eqb_neq, is_hex_label. by apply last_char_forallb.
    + unfold _WORKSPACE_NAME_PREFIX.
      rewrite (proj2 (strip_prefix_eq "agent-" _ (part +:+ "-" +:+ r)) eq_refl). done.
    + exists ("agent-" +:+ part). by rewrite str_app_assoc.
  - unfold _dns_name in E. destruct (_ || _) eqn:Eo; [|done]. simplify_eq. split; [done|].
    apply orb_true_iff in Eo as [->|Hre]; [by left|right]. by apply negb_true_iff in Hre.
Qed.
