(* ===== verification/Canonical.v ===== *)
(** * config/canonical.py: the configVersion of a wire document

    [rfc8785.dumps] is a third-party package: the section variable [jcs], from a wire object to
    its canonical bytes or an exception. *)

From S2P Require Import Prelude Sha256 PyJson.
Local Open Scope Z_scope.

Definition NUMERIC_BOUND : Z := 9007199254740991.

(** [_check_number(value, path)]; a float is not finite when [int()] is undefined on it, and
    beyond the bound every binary64 value is an integer. *)
Definition _check_number (j : json) : result exn unit :=
  match j with
  | JBool _ => Ok tt
  | JInt z => if NUMERIC_BOUND <? Z.abs z then Err CanonicalizationError else Ok tt
  | JFloat f =>
      match f_int f with
      | None => Err CanonicalizationError
      | Some z => if NUMERIC_BOUND <? Z.abs z then Err CanonicalizationError else Ok tt
      end
  | _ => Ok tt
  end.

(** [validate_json_value(value, path)]; keys of a decoded object are always strings. *)
Fixpoint validate_json_value (j : json) : result exn unit :=
  match j with
  | JObj d =>
      (fix go (d : list (string * json)) : result exn unit :=
         match d with
         | [] => Ok tt
         | (_, sub) :: d => validate_json_value sub ≫= fun _ => go d
         end) d
  | JList l =>
      (fix go (l : list json) : result exn unit :=
         match l with
         | [] => Ok tt
         | item :: l => validate_json_value item ≫= fun _ => go l
         end) l
  | JNull | JBool _ | JStr _ => Ok tt
  | JInt _ | JFloat _ => _check_number j
  end.

(** [{k: v for k, v in wire.items() if k != "configVersion"}] *)
Definition strip_version (d : list (string * json)) : list (string * json) :=
  filter (fun kv => String.eqb (fst kv) "configVersion" = false) d.

Section config_version.
Context (jcs : json -> result exn string).

Definition canonical_config_bytes (wire : json) : result exn string :=
  match wire with
  | JObj d =>
      validate_json_value wire ≫= fun _ =>
      match jcs (JObj (strip_version d)) with
      | Ok b => Ok b
      | Err _ => Err CanonicalizationError
      end
  | _ => Err CanonicalizationError
  end.

Definition compute_config_version (wire : json) : result exn string :=
  b ← canonical_config_bytes wire; Ok (sha256_hex b).
End config_version.

(** [load_config_json(raw)], from the value [json.loads] returned or its decoding error. *)
Definition load_config_json (loads : string -> result exn json) (raw : string) : result exn json :=
  match loads raw with
  | Err _ => Err CanonicalizationError
  | Ok value =>
      if is_dict value then validate_json_value value ≫= fun _ => Ok value
      else Err CanonicalizationError
  end.

(** ** What the numeric profile accepts *)

(** Every number anywhere in the value is a finite safe integer or a finite float in range. *)
#[warnings="-register-all"]
Inductive in_profile : json -> Prop :=
  | prof_null : in_profile JNull
  | prof_bool b : in_profile (JBool b)
  | prof_str s : in_profile (JStr s)
  | prof_int z : - NUMERIC_BOUND <= z <= NUMERIC_BOUND -> in_profile (JInt z)
  | prof_float f z :
      f_int f = Some z -> - NUMERIC_BOUND <= z <= NUMERIC_BOUND -> in_profile (JFloat f)
  | prof_list l : Forall in_profile l -> in_profile (JList l)
  | prof_obj d : Forall (fun kv => in_profile (snd kv)) d -> in_profile (JObj d).

Lemma bound_check z :
  (if NUMERIC_BOUND <? Z.abs z then Err CanonicalizationError else Ok tt) = Ok (E:=exn) tt
  <-> - NUMERIC_BOUND <= z <= NUMERIC_BOUND.
Proof. destruct (Z.ltb_spec NUMERIC_BOUND (Z.abs z)); split; intros; try done; lia. Qed.

(** The numeric/Unicode profile check accepts exactly the JSON values whose every number,
    at any depth, is a safe integer or a finite float within the safe-integer bound. *)
Theorem validate_json_value_spec j : validate_json_value j = Ok tt <-> in_profile j.
Proof.
  induction j as [|b|z|f|s|l IH|d IH] using json_rect_all; simpl.
  - split; [constructor|done].
  - split; [constructor|done].
  - rewrite bound_check. split; [by constructor|by inversion 1].
  - destruct (f_int f) as [z|] eqn:E.
    + rewrite bound_check. split; [by econstructor|inversion 1; by simplify_eq].
    + split; [done|inversion 1; by simplify_eq].
  - split; [constructor|done].
  - transitivity (Forall in_profile l); [|by split; [constructor|inversion 1]].
    induction IH as [|x l Hx _ IHl]; [by split|].
    rewrite Forall_cons, <- Hx, <- IHl.
    destruct (validate_json_value x) as [[]|]; naive_solver.
  - transitivity (Forall (fun kv => in_profile (snd kv)) d); [|by split; [constructor|inversion 1]].
    induction IH as [|[k x] d Hx _ IHd]; [by split|].
    rewrite Forall_cons, <- IHd. simpl in *. rewrite <- Hx.
    destruct (validate_json_value x) as [[]|]; naive_solver.
Qed.

Lemma validate_json_value_err j e : validate_json_value j = Err e -> e = CanonicalizationError.
Proof.
  revert e. induction j as [|b|z|f|s|l IH|d IH] using json_rect_all; intros e; simpl; try done.
  - case_match; congruence.
  - repeat case_match; congruence.
  - induction IH as [|x l Hx _ IHl]; [done|].
    destruct (validate_json_value x); naive_solver.
  - induction IH as [|[k x] d Hx _ IHd]; [done|].
    simpl in Hx. destruct (validate_json_value x); naive_solver.
Qed.

Lemma strip_version_insert d1 d2 v :
  strip_version (d1 ++ ("configVersion", v) :: d2) = strip_version (d1 ++ d2).
Proof. unfold strip_version. rewrite !filter_app, filter_cons_False; [done|]. by simpl. Qed.

Lemma profile_insert d1 d2 v :
  in_profile v -> in_profile (JObj (d1 ++ d2)) ->
  in_profile (JObj (d1 ++ ("configVersion", v) :: d2)).
Proof.
  intros Hv H. inversion H as [| | | | | |d Hd]; subst. constructor.
  apply Forall_app in Hd as [? ?]. apply Forall_app. split; [done|]. by constructor.
Qed.

(** configVersion is a fixed point of the wire document: inserting any in-profile
    [configVersion] member anywhere at the top level of a document that has none leaves the
    computed version unchanged, so a document stamped with its own version verifies. *)
Theorem config_version_stable jcs d1 d2 v ver :
  in_profile v ->
  compute_config_version jcs (JObj (d1 ++ d2)) = Ok ver ->
  compute_config_version jcs (JObj (d1 ++ ("configVersion", v) :: d2)) = Ok ver.
Proof.
  intros Hv H. unfold compute_config_version, canonical_config_bytes in *.
  apply bind_ok in H as (b & H & Hb). apply bind_ok in H as ([] & Hval & H).
  apply validate_json_value_spec in Hval. apply (profile_insert _ _ v) in Hval; [|done].
  apply validate_json_value_spec in Hval. rewrite Hval, strip_version_insert.
  cbn [mbind result_bind]. by rewrite H.
Qed.

Lemma config_version_stable_witness :
  let d := [("a", JInt 1)] in
  compute_config_version (fun j => Ok (dumps false j)) (JObj (d ++ [("configVersion", JStr "x")]))
  = Ok (sha256_hex ("{" +:+ quote +:+ "a" +:+ quote +:+ ":1}")).
Proof.
  simpl. refine (config_version_stable _ [("a", JInt 1)] [] (JStr "x") _ (prof_str "x") _).
  reflexivity.
Defined.
