(* ===== verification/Config.v ===== *)
(** * config/schema.py: the workspace-v3 RuntimeConfig

    The wire document after Pydantic has parsed each field: a record per model class, an
    inductive type per [Literal] or union, and per class the constraints its fields declare
    ([gt], [ge], [le], [pattern]) and its validators, in the order they run.  Every rejection
    is a [ValueError].  Pydantic's own field parsing is not under the repository: [parse_config]
    takes it as the parameter [decode]. *)

From S2P Require Import Prelude Sha256 PyJson Canonical.
From Stdlib Require Import Ascii.
Local Open Scope Z_scope.

(** ** Regular expressions and paths *)

Definition env_head (a : ascii) : bool := is_upper a || is_lower a || Ascii.eqb a "_".
Definition env_tail (a : ascii) : bool := env_head a || is_digit a.
Definition env_name (s : string) : bool :=
  match s with EmptyString => false | String a s => env_head a && str_forallb env_tail s end.
Definition newline : string := chr 10.

(** [s[:-1]] when [s] ends in a newline. *)
Fixpoint chop_newline (s : string) : string :=
  match s with
  | EmptyString => ""
  | String a EmptyString => if (ascii_code a =? 10)%N then "" else String a ""
  | String a s => String a (chop_newline s)
  end.

(** [_ENV_NAME_RE.match(v)] for [^[A-Za-z_][A-Za-z0-9_]*$]: Python's [$] also matches just
    before a final newline. *)
Definition _ENV_NAME_RE (v : string) : bool := env_name (chop_newline v).

Definition header_char (a : ascii) : bool :=
  is_alnum a || existsb (Ascii.eqb a) (String.list_ascii_of_string "!#$%&'*+.^_`|~-").
(** [_HEADER_NAME_RE.fullmatch] *)
Definition _HEADER_NAME_RE (v : string) : bool := truthy v && str_forallb header_char v.

Definition in_strs (s : string) (l : list string) : bool := existsb (String.eqb s) l.
Definition starts_with (p s : string) : bool :=
  match strip_prefix p s with Some _ => true | None => false end.

(** [^https?://[^/\s]+] (ASCII white space). *)
Definition _ENDPOINT_PATTERN (v : string) : bool :=
  match strip_prefix "http" v with
  | None => false
  | Some r =>
      let r := from_option id r (strip_prefix "s" r) in
      match strip_prefix "://" r with
      | Some (String a _) => negb (Ascii.eqb a "/" || is_space a)
      | _ => false
      end
  end.

(** [PurePosixPath(v)]: absolute, or its parts. *)
Definition path_is_absolute (v : string) : bool := starts_with "/" v.
Definition path_parts (v : string) : list string :=
  filter (fun p => (String.eqb p "" || String.eqb p ".") = false) (split_on "/" v).

Fixpoint has_dup (l : list string) : bool :=
  match l with [] => false | s :: l => in_strs s l || has_dup l end.

(** ** Leaf blocks *)

Record SecretAlias := { secret_env_name : string }.
Definition SecretAlias_check (b : SecretAlias) : result exn unit :=
  require (_ENV_NAME_RE (secret_env_name b)) ValueError.

Record ExchangeKeyParams := { ek_identity : string; ek_environment : string; token_path : string }.
Definition ExchangeKeyParams_check (b : ExchangeKeyParams) : result exn unit :=
  require (truthy (ek_identity b) && truthy (ek_environment b) && starts_with "/" (token_path b))
    ValueError.

Inductive ach_key := KeyAlias (a : SecretAlias) | ExchangeKey (exchange : ExchangeKeyParams).
Definition ach_key_check (k : ach_key) : result exn unit :=
  match k with KeyAlias a => SecretAlias_check a | ExchangeKey p => ExchangeKeyParams_check p end.

Record AgentIdentity := { agent_name : string; agent_namespace : string; agent_uid : string }.

Definition is_lower_hex (a : ascii) : bool := is_hex a.
Definition uuid_pattern (v : string) : bool :=
  match split_on "-" v with
  | [a; b; c; d; e] =>
      (String.length a =? 8)%nat && (String.length b =? 4)%nat && (String.length c =? 4)%nat
      && (String.length d =? 4)%nat && (String.length e =? 12)%nat
      && forallb (str_forallb is_lower_hex) [a; b; c; d; e]
  | _ => false
  end.

(** [str(uuid.UUID(v))] on a string of hexadecimal digits and dashes: [ValueError] unless 32
    digits remain, printed in lower case as 8-4-4-4-12. *)
Fixpoint remove_char (c : ascii) (s : string) : string :=
  match s with
  | EmptyString => ""
  | String a s => if Ascii.eqb a c then remove_char c s else String a (remove_char c s)
  end.
Fixpoint str_split_at (n : nat) (s : string) : string * string :=
  match n, s with
  | S n, String a s => let '(p, r) := str_split_at n s in (String a p, r)
  | _, _ => ("", s)
  end.
Definition uuid_str (v : string) : result exn string :=
  let h := lower (remove_char "-" v) in
  if (String.length h =? 32)%nat && str_forallb is_hex h then
    let '(a, h) := str_split_at 8 h in let '(b, h) := str_split_at 4 h in
    let '(c, h) := str_split_at 4 h in let '(d, e) := str_split_at 4 h in
    Ok (join "-" [a; b; c; d; e])
  else Err ValueError.
Definition _canonical_uuid (v : string) : result exn unit :=
  match uuid_str v with
  | Ok parsed => require (String.eqb parsed v) ValueError
  | Err _ => Err ValueError
  end.
Definition AgentIdentity_check (b : AgentIdentity) : result exn unit :=
  require (uuid_pattern (agent_uid b)) ValueError ≫= fun _ => _canonical_uuid (agent_uid b).

(** ** Capability *)

Record AchCapabilityFilterExclude :=
  { ex_tools : list string; ex_mcp_servers : list string; ex_skills : list string }.

Inductive effort := E_minimal | E_low | E_medium | E_high | E_xhigh.
Record ThinkingBlock := { th_enabled : bool; th_effort : option effort }.
Definition ThinkingBlock_check (b : ThinkingBlock) : result exn unit :=
  match th_effort b with
  | Some _ => require (th_enabled b) ValueError
  | None => Ok tt
  end.

Inductive model_type := M_openai | M_gemini | M_anthropic.
#[export] Instance model_type_eq_dec : EqDecision model_type.
Proof. solve_decision. Defined.

Record ModelBlock :=
  { m_name : string; m_type : model_type; m_params : list (string * json); m_thinking : ThinkingBlock }.

Definition _RESERVED_HEADER_NAMES : list string :=
  ["host"; "content-length"; "transfer-encoding"; "connection";
   "traceparent"; "tracestate"; "x-litellm-session-id"; "x-litellm-trace-id"].
Definition _RESERVED_HEADER_PREFIXES : list string := ["x-ach-"; "langfuse_"].

Inductive HeaderValue := HeaderAlias (a : SecretAlias) | HeaderLiteral (value : string).
Definition HeaderValue_check (h : HeaderValue) : result exn unit :=
  match h with HeaderAlias a => SecretAlias_check a | HeaderLiteral _ => Ok tt end.

(** [_check_headers(headers, where)]: the loop over the names with its [seen] set. *)
Fixpoint _check_headers (seen : list string) (names : list string) : result exn unit :=
  match names with
  | [] => Ok tt
  | name :: names =>
      let lowered := lower name in
      if negb (_HEADER_NAME_RE name) then Err ValueError
      else if in_strs lowered _RESERVED_HEADER_NAMES
              || existsb (fun p => starts_with p lowered) _RESERVED_HEADER_PREFIXES then Err ValueError
      else if in_strs lowered seen then Err ValueError
      else _check_headers (lowered :: seen) names
  end.

Definition headers_check (h : list (string * HeaderValue)) : result exn unit :=
  mapM_res (fun kv => HeaderValue_check (snd kv)) h ≫= fun _ => _check_headers [] (map fst h).

Record ModelLimits := { ml_context : Z; ml_output : Z }.
Definition ModelLimits_check (b : ModelLimits) : result exn unit :=
  require ((0 <? ml_context b) && (0 <? ml_output b)) ValueError.
Definition opt_check {A} (f : A -> result exn unit) (o : option A) : result exn unit :=
  match o with Some a => f a | None => Ok tt end.

Record AchModel := { am_block : ModelBlock; am_limits : option ModelLimits }.
Record StandaloneModel :=
  { sm_block : ModelBlock; sm_base_url : string; sm_headers : list (string * HeaderValue);
    sm_limits : option ModelLimits }.
Definition StandaloneModel_check (b : StandaloneModel) : result exn unit :=
  require (_ENDPOINT_PATTERN (sm_base_url b)) ValueError ≫= fun _ =>
  ThinkingBlock_check (m_thinking (sm_block b)) ≫= fun _ =>
  opt_check ModelLimits_check (sm_limits b) ≫= fun _ =>
  headers_check (sm_headers b).

(** [^[a-z0-9][a-z0-9_-]{0,62}$] *)
Definition mcp_name_ok (s : string) : bool :=
  match s with
  | EmptyString => false
  | String a r => (is_lower a || is_digit a)
                  && str_forallb (fun c => is_lower c || is_digit c || Ascii.eqb c "_" || Ascii.eqb c "-") r
                  && (String.length r <=? 62)%nat
  end.
Record StandaloneMcpServer :=
  { mcp_name : string; mcp_url : string; mcp_headers : list (string * HeaderValue) }.
Definition StandaloneMcpServer_check (b : StandaloneMcpServer) : result exn unit :=
  require (mcp_name_ok (mcp_name b) && _ENDPOINT_PATTERN (mcp_url b)) ValueError ≫= fun _ =>
  headers_check (mcp_headers b).

Record StandaloneServer := { ss_model : StandaloneModel; ss_mcp_servers : list StandaloneMcpServer }.
Definition StandaloneServer_check (b : StandaloneServer) : result exn unit :=
  StandaloneModel_check (ss_model b) ≫= fun _ =>
  mapM_res StandaloneMcpServer_check (ss_mcp_servers b) ≫= fun _ =>
  require (negb (has_dup (map mcp_name (ss_mcp_servers b)))) ValueError.

Record AchServer :=
  { as_base_url : string; as_environment : string; as_key : ach_key; as_model : AchModel;
    as_mcp_servers : list StandaloneMcpServer }.
Definition AchServer_check (b : AchServer) : result exn unit :=
  ach_key_check (as_key b) ≫= fun _ =>
  ThinkingBlock_check (m_thinking (am_block (as_model b))) ≫= fun _ =>
  opt_check ModelLimits_check (am_limits (as_model b)) ≫= fun _ =>
  mapM_res StandaloneMcpServer_check (as_mcp_servers b) ≫= fun _ =>
  require (negb (has_dup (map mcp_name (as_mcp_servers b)))) ValueError ≫= fun _ =>
  match as_key b with
  | KeyAlias _ => Ok tt
  | ExchangeKey p =>
      require (starts_with "https://" (as_base_url b)) ValueError ≫= fun _ =>
      require (String.eqb (ek_environment p) (as_environment b)) ValueError
  end.

Inductive server_kind := Srv_standalone | Srv_ach.
Record CapabilityBlock :=
  { cap_server : server_kind; cap_standalone : option StandaloneServer; cap_ach : option AchServer;
    cap_exclude : AchCapabilityFilterExclude }.
Definition _server_selects_its_block (b : CapabilityBlock) : result exn unit :=
  let '(chosen, other) :=
    match cap_server b with
    | Srv_standalone => (bool_decide (is_Some (cap_standalone b)), bool_decide (is_Some (cap_ach b)))
    | Srv_ach => (bool_decide (is_Some (cap_ach b)), bool_decide (is_Some (cap_standalone b)))
    end in
  if negb chosen || other then Err ValueError
  else match cap_server b, ex_skills (cap_exclude b) with
       | Srv_standalone, _ :: _ => Err ValueError
       | _, _ => Ok tt
       end.
Definition CapabilityBlock_check (b : CapabilityBlock) : result exn unit :=
  opt_check StandaloneServer_check (cap_standalone b) ≫= fun _ =>
  opt_check AchServer_check (cap_ach b) ≫= fun _ =>
  _server_selects_its_block b.

(** ** Engine and limits *)

Definition _RESERVED_ENGINE_ENV_EXACT : list string :=
  ["HOME"; "OPENCODE_SERVER_PASSWORD"; "OPENCODE_DISABLE_PROJECT_CONFIG";
   "OPENCODE_DISABLE_MODELS_FETCH"; "OPENCODE_MODELS_URL"; "OPENCODE_BIN"].
Definition _RESERVED_ENGINE_ENV_PREFIXES : list string :=
  ["ACH_"; "XDG_"; "OPENCODE_CONFIG"; "PI_"; "PIG_"].
Definition PI_NATIVE_TOOLS : list string :=
  ["read"; "bash"; "edit"; "write"; "grep"; "find"; "ls"; "codemode"; "tool_search"].

Definition _check_engine_env_name (name : string) : result exn unit :=
  if in_strs name _RESERVED_ENGINE_ENV_EXACT
     || existsb (fun p => starts_with p name) _RESERVED_ENGINE_ENV_PREFIXES then Err ValueError
  else require (_ENV_NAME_RE name) ValueError.

Record CompactionBlock := { cmp_auto : bool; cmp_keep_tokens : Z; cmp_buffer : Z }.
Definition CompactionBlock_check (b : CompactionBlock) : result exn unit :=
  require ((0 <? cmp_keep_tokens b) && (0 <=? cmp_buffer b)) ValueError.

Inductive engine_type := Eng_opencode | Eng_pi.
Record EngineBlock :=
  { eng_type : engine_type; eng_env : list (string * string); eng_startup_timeout_seconds : Z;
    eng_compaction : CompactionBlock; eng_deny_tools : list string }.

Definition _check_deny_tools (v : list string) : result exn unit :=
  if existsb (fun name => negb (truthy name) || contains "." name) v then Err ValueError
  else require (negb (has_dup v)) ValueError.
Definition _deny_tools_match_the_engine (b : EngineBlock) : result exn unit :=
  match eng_type b with
  | Eng_pi => require (forallb (fun t => in_strs t PI_NATIVE_TOOLS) (eng_deny_tools b)) ValueError
  | Eng_opencode => Ok tt
  end.
Definition EngineBlock_check (b : EngineBlock) : result exn unit :=
  mapM_res _check_engine_env_name (map fst (eng_env b)) ≫= fun _ =>
  require (0 <? eng_startup_timeout_seconds b) ValueError ≫= fun _ =>
  CompactionBlock_check (eng_compaction b) ≫= fun _ =>
  _check_deny_tools (eng_deny_tools b) ≫= fun _ =>
  _deny_tools_match_the_engine b.

Record LimitsBlock :=
  { max_active_workspaces : Z; max_concurrent_invocations : Z; max_concurrent_scripts : option Z;
    max_invocation_seconds : Z; max_queued_total : Z; idempotency_window_seconds : Z;
    max_steps : Z; max_stall_seconds : Z }.
Definition LimitsBlock_check (b : LimitsBlock) : result exn unit :=
  require ((0 <? max_active_workspaces b) && (0 <? max_concurrent_invocations b)
           && from_option (Z.ltb 0) true (max_concurrent_scripts b)
           && (0 <? max_invocation_seconds b) && (0 <? max_queued_total b)
           && (0 <=? idempotency_window_seconds b) && (0 <? max_steps b)
           && (0 <? max_stall_seconds b)) ValueError.

(** ** Workspace, artifacts, prompt, hooks, memory *)

Inductive persistence_type := P_none | P_s3 | P_volume.
#[export] Instance persistence_type_eq_dec : EqDecision persistence_type.
Proof. solve_decision. Defined.
Record PersistenceBlock := { per_type : persistence_type; per_retention_days : option Z }.
Definition pos_opt (o : option Z) : bool := from_option (Z.ltb 0) true o.
Definition PersistenceBlock_check (b : PersistenceBlock) : result exn unit :=
  require (pos_opt (per_retention_days b)) ValueError ≫= fun _ =>
  if negb (Bool.eqb (bool_decide (per_type b = P_none)) (bool_decide (per_retention_days b = None)))
  then Err ValueError else Ok tt.

Record SessionPolicyBlock := { ses_idle_timeout_seconds : Z; ses_retention_days : option Z }.
Record WorkspaceBlock :=
  { ws_idle_timeout_seconds : Z; ws_shutdown_timeout_seconds : Z; ws_ready_timeout_seconds : Z;
    ws_max_concurrent_sessions : Z; ws_persistence : PersistenceBlock; ws_session : SessionPolicyBlock }.
Definition _session_retention_bound (b : WorkspaceBlock) : result exn unit :=
  match ses_retention_days (ws_session b), per_retention_days (ws_persistence b) with
  | Some session, Some workspace => if workspace <? session then Err ValueError else Ok tt
  | _, _ => Ok tt
  end.
Definition session_retention_days (b : WorkspaceBlock) : option Z :=
  match ses_retention_days (ws_session b) with
  | Some d => Some d
  | None => per_retention_days (ws_persistence b)
  end.
Definition WorkspaceBlock_check (b : WorkspaceBlock) : result exn unit :=
  require ((0 <? ws_idle_timeout_seconds b) && (0 <? ws_shutdown_timeout_seconds b)
           && (0 <? ws_ready_timeout_seconds b) && (0 <? ws_max_concurrent_sessions b)) ValueError ≫= fun _ =>
  PersistenceBlock_check (ws_persistence b) ≫= fun _ =>
  require ((0 <? ses_idle_timeout_seconds (ws_session b)) && pos_opt (ses_retention_days (ws_session b)))
    ValueError ≫= fun _ =>
  _session_retention_bound b.

Record ArtifactsBlock := { art_enabled : bool; max_artifact_bytes : Z; art_retention_days : Z }.
Definition ArtifactsBlock_check (b : ArtifactsBlock) : result exn unit :=
  require ((0 <? max_artifact_bytes b) && (0 <=? art_retention_days b)) ValueError.

Inductive SystemPrompt :=
  | SystemText (text : string)
  | SystemFile (file : string)
  | SystemAch (ach file : string).
Definition path_escapes (v : string) : bool := path_is_absolute v || in_strs ".." (path_parts v).
Definition SystemPrompt_check (p : SystemPrompt) : result exn unit :=
  match p with
  | SystemText _ => Ok tt
  | SystemFile v => if path_escapes v then Err ValueError else Ok tt
  | SystemAch ach file =>
      if truthy ach && path_escapes ach then Err ValueError
      else if negb (truthy (strip ach)) then Err ValueError
      else if truthy file && path_escapes file then Err ValueError
      else Ok tt
  end.

Record HookBlock := { hook_script : string; hook_timeout_seconds : Z }.
Definition HookBlock_check (b : HookBlock) : result exn unit :=
  require ((0 <? hook_timeout_seconds b) && (hook_timeout_seconds b <=? 3600)) ValueError ≫= fun _ =>
  require (truthy (strip (hook_script b))) ValueError.
Record HooksBlock :=
  { workspace_start : option HookBlock; session_start : option HookBlock;
    session_restore : option HookBlock; session_suspend : option HookBlock;
    workspace_stop : option HookBlock }.
Definition HooksBlock_check (b : HooksBlock) : result exn unit :=
  opt_check HookBlock_check (workspace_start b) ≫= fun _ =>
  opt_check HookBlock_check (session_start b) ≫= fun _ =>
  opt_check HookBlock_check (session_restore b) ≫= fun _ =>
  opt_check HookBlock_check (session_suspend b) ≫= fun _ =>
  opt_check HookBlock_check (workspace_stop b).

Inductive AchMemoryAuth := AuthAch | AuthBearer (env header : string).
Definition AchMemoryAuth_check (a : AchMemoryAuth) : result exn unit :=
  match a with AuthAch => Ok tt | AuthBearer _ header => require (_HEADER_NAME_RE header) ValueError end.
Record AchMemoryParams :=
  { mem_endpoint : string; mem_mcp_server_id : string; mem_auth : option AchMemoryAuth;
    mem_project : string }.
Definition AchMemoryParams_check (b : AchMemoryParams) : result exn unit :=
  opt_check AchMemoryAuth_check (mem_auth b) ≫= fun _ =>
  if Bool.eqb (truthy (mem_endpoint b)) (truthy (mem_mcp_server_id b)) then Err ValueError else Ok tt.

(** ** Channels *)

Definition CONVERSATIONAL_GITLAB_EVENTS : list string := ["merge_request"; "issue"; "note"].
Inductive channel_type := CT_webhook | CT_webhook_script | CT_cron | CT_queue | CT_a2a.
#[export] Instance channel_type_eq_dec : EqDecision channel_type.
Proof. solve_decision. Defined.
Inductive webhook_source := WS_gitlab | WS_github | WS_generic.
#[export] Instance webhook_source_eq_dec : EqDecision webhook_source.
Proof. solve_decision. Defined.

Definition _RESERVED_HANDOFF_ENV : list string :=
  ["ACH_WORKSPACE_KEY"; "ACH_SESSION_KEY"; "ACH_EVENT_ID"; "ACH_CHANNEL"; "ACH_HANDOFF_DIR"; "HOME"].
Definition _RESERVED_HANDOFF_ENV_PREFIX : string := "ACH_EVENT_".

Record RoutingBlock := { rt_workspace_key : option string; rt_session_key : option string }.

(** The [before] validator: a key present with a null value is rejected. *)
Definition _reject_explicit_null (data : json) : result exn unit :=
  match data with
  | JObj d =>
      match assoc "workspaceKey" d, assoc "sessionKey" d with
      | Some JNull, _ | _, Some JNull => Err ValueError
      | _, _ => Ok tt
      end
  | _ => Ok tt
  end.
Definition _nonempty_if_present (v : option string) : result exn unit :=
  match v with Some s => require (truthy (strip s)) ValueError | None => Ok tt end.

Record RateLimitKeyBlock := { rlk_key : string; rlk_max_per_hour : Z }.
Definition RateLimitKeyBlock_check (b : RateLimitKeyBlock) : result exn unit :=
  require (truthy (strip (rlk_key b))) ValueError ≫= fun _ =>
  require (0 <? rlk_max_per_hour b) ValueError.
Record RateLimitBlock := { rl_max_per_hour : option Z; rl_per_key : list RateLimitKeyBlock }.
Definition RateLimitBlock_check (b : RateLimitBlock) : result exn unit :=
  require (pos_opt (rl_max_per_hour b)) ValueError ≫= fun _ =>
  mapM_res RateLimitKeyBlock_check (rl_per_key b) ≫= fun _ => Ok tt.

Inductive auth_type := Auth_gitlab_token | Auth_hmac | Auth_header_token | Auth_none.
#[export] Instance auth_type_eq_dec : EqDecision auth_type.
Proof. solve_decision. Defined.
Record WebhookAuthBlock := { wa_type : auth_type; wa_env : option string; wa_header : string }.
Definition WebhookAuthBlock_check (b : WebhookAuthBlock) : result exn unit :=
  match wa_type b, wa_env b with
  | Auth_none, Some _ => Err ValueError
  | Auth_none, None => Ok tt
  | _, None => Err ValueError
  | _, Some env => if truthy env then require (_ENV_NAME_RE env) ValueError else Err ValueError
  end.

Record WebhookBlock :=
  { wh_auth : WebhookAuthBlock; wh_gitlab_events : option (list string);
    wh_bot_username : option string; wh_trigger_users : option (list string);
    wh_merge_requests_only : bool }.
(** The [Literal] of [gitlabEvents]. *)
Definition GITLAB_EVENT_LITERALS : list string :=
  ["merge_request"; "issue"; "note"; "push"; "project_create"; "project_rename";
   "project_transfer"; "project_update"; "repository_update"].
Definition WebhookBlock_check (b : WebhookBlock) : result exn unit :=
  WebhookAuthBlock_check (wh_auth b) ≫= fun _ =>
  require (forallb (fun e => in_strs e GITLAB_EVENT_LITERALS) (from_option id [] (wh_gitlab_events b)))
    ValueError.
Record A2ABlock := { a2a_header : string; a2a_env : string }.
Record CronBlock := { cron_schedule : string; cron_timezone : string }.
Record QueueBlock := { queue_key : string }.

Record ScriptBlock :=
  { sc_script : string; sc_env : list (string * string); sc_secret_env : list (string * SecretAlias);
    sc_timeout_seconds : Z }.
Definition script_env_name_check (name : string) : result exn unit :=
  if negb (_ENV_NAME_RE name) then Err ValueError
  else if in_strs name _RESERVED_HANDOFF_ENV || starts_with _RESERVED_HANDOFF_ENV_PREFIX name
       then Err ValueError
  else Ok tt.
Definition ScriptBlock_check (b : ScriptBlock) : result exn unit :=
  mapM_res (fun kv => SecretAlias_check (snd kv)) (sc_secret_env b) ≫= fun _ =>
  require ((0 <? sc_timeout_seconds b) && (sc_timeout_seconds b <=? 3600)) ValueError ≫= fun _ =>
  require (truthy (strip (sc_script b))) ValueError ≫= fun _ =>
  mapM_res script_env_name_check (map fst (sc_env b) ++ map fst (sc_secret_env b)) ≫= fun _ =>
  if existsb (fun n => in_strs n (map fst (sc_secret_env b))) (map fst (sc_env b)) then Err ValueError
  else Ok tt.

Definition _valid_relative_destination (v : string) : result exn unit :=
  if negb (truthy v) || negb (truthy (strip v)) then Err ValueError
  else if contains (chr 0) v then Err ValueError
  else if path_is_absolute v then Err ValueError
  else match path_parts v with
       | [] => Err ValueError
       | parts => if in_strs ".." parts then Err ValueError else Ok tt
       end.
Record HandoffBlock := { ho_script : ScriptBlock; ho_destination : string }.
Definition HandoffBlock_check (b : HandoffBlock) : result exn unit :=
  _valid_relative_destination (ho_destination b) ≫= fun _ => ScriptBlock_check (ho_script b).

Record ChannelConfig :=
  { ch_name : string; ch_type : channel_type; ch_concurrency : Z; ch_source : option webhook_source;
    ch_routing : option RoutingBlock; ch_rate_limit : option RateLimitBlock; ch_prompt : option string;
    ch_webhook : option WebhookBlock; ch_handoff : option HandoffBlock; ch_script : option ScriptBlock;
    ch_cron : option CronBlock; ch_queue : option QueueBlock; ch_a2a : option A2ABlock }.

Definition present {A} (o : option A) : bool := match o with Some _ => true | None => false end.

(** [getattr(self, t)]: the block named like the type is present. *)
Definition own_block (c : ChannelConfig) (t : channel_type) : bool :=
  match t with
  | CT_webhook | CT_webhook_script => present (ch_webhook c)
  | CT_cron => present (ch_cron c)
  | CT_queue => present (ch_queue c)
  | CT_a2a => present (ch_a2a c)
  end.
Definition is_webhook (t : channel_type) : bool :=
  match t with CT_webhook | CT_webhook_script => true | _ => false end.
Definition source_is (c : ChannelConfig) (s : webhook_source) : bool := bool_decide (ch_source c = Some s).
Definition needs_session (c : ChannelConfig) : bool :=
  bool_decide (ch_type c = CT_queue) || (bool_decide (ch_type c = CT_webhook) && source_is c WS_generic).
Definition routing_session (c : ChannelConfig) : option string :=
  r ← ch_routing c; rt_session_key r.
Definition routing_workspace (c : ChannelConfig) : option string :=
  r ← ch_routing c; rt_workspace_key r.
Definition gitlab_events (c : ChannelConfig) : option (list string) :=
  w ← ch_webhook c; wh_gitlab_events w.

(** [ChannelConfig._check_type_block_coherence] *)
Definition _check_type_block_coherence (c : ChannelConfig) : result exn unit :=
  let t := ch_type c in
  (if bool_decide (t = CT_webhook_script) then
     if negb (present (ch_webhook c)) || negb (present (ch_script c)) then Err ValueError
     else if present (ch_prompt c) || present (ch_handoff c) || present (ch_rate_limit c) then Err ValueError
     else if negb (source_is c WS_gitlab) then Err ValueError
     else require (present (gitlab_events c)) ValueError
   else require (own_block c t) ValueError) ≫= fun _ =>
  (if is_webhook t && negb (present (ch_source c)) then Err ValueError else Ok tt) ≫= fun _ =>
  (if bool_decide (t = CT_webhook)
      && existsb (fun e => negb (in_strs e CONVERSATIONAL_GITLAB_EVENTS)) (from_option id [] (gitlab_events c))
   then Err ValueError else Ok tt) ≫= fun _ =>
  (if needs_session c && negb (present (routing_session c)) then Err ValueError else Ok tt) ≫= fun _ =>
  (if (negb (is_webhook t) && present (ch_webhook c))
      || (negb (bool_decide (t = CT_cron)) && present (ch_cron c))
      || (negb (bool_decide (t = CT_queue)) && present (ch_queue c))
      || (negb (bool_decide (t = CT_a2a)) && present (ch_a2a c))
   then Err ValueError else Ok tt) ≫= fun _ =>
  if negb (bool_decide (t = CT_webhook_script)) && present (ch_script c) then Err ValueError else Ok tt.

Section channel_check.
(** The IANA zones of the time-zone database installed with Python. *)
Context (zone_known : string -> bool).

Definition CronBlock_check (b : CronBlock) : result exn unit :=
  require (zone_known (cron_timezone b)) ValueError.

(** Every block of the channel, then the coherence of the channel. *)
Definition ChannelConfig_check (c : ChannelConfig) : result exn unit :=
  require (0 <? ch_concurrency c) ValueError ≫= fun _ =>
  _nonempty_if_present (routing_workspace c) ≫= fun _ =>
  _nonempty_if_present (routing_session c) ≫= fun _ =>
  opt_check RateLimitBlock_check (ch_rate_limit c) ≫= fun _ =>
  opt_check WebhookBlock_check (ch_webhook c) ≫= fun _ =>
  opt_check HandoffBlock_check (ch_handoff c) ≫= fun _ =>
  opt_check ScriptBlock_check (ch_script c) ≫= fun _ =>
  opt_check CronBlock_check (ch_cron c) ≫= fun _ =>
  opt_check (fun a => require (_ENV_NAME_RE (a2a_env a)) ValueError) (ch_a2a c) ≫= fun _ =>
  _check_type_block_coherence c.
End channel_check.

(** ** The root document *)

Definition _require_endpoint (v : string) : result exn unit := require (_ENDPOINT_PATTERN v) ValueError.

Record RuntimeConfig :=
  { rc_agent : AgentIdentity; rc_config_version : string; rc_capability : CapabilityBlock;
    rc_engine : EngineBlock; rc_limits : LimitsBlock; rc_workspace : WorkspaceBlock;
    rc_artifacts : ArtifactsBlock; rc_channels : list ChannelConfig; rc_prompt : option SystemPrompt;
    rc_hooks : HooksBlock; rc_memory : option AchMemoryParams;
    rc_facade_endpoint : option string }.

(** [RuntimeConfig.model]: [None] where the code would dereference an absent server block. *)
Definition rc_model (c : RuntimeConfig) : option ModelBlock :=
  match cap_ach (rc_capability c) with
  | Some a => Some (am_block (as_model a))
  | None => sm_block ∘ ss_model <$> cap_standalone (rc_capability c)
  end.

Definition identity_environment (c : RuntimeConfig) : string :=
  match cap_ach (rc_capability c) with
  | Some a => as_environment a
  | None => agent_namespace (rc_agent c)
  end.

Definition _pi_takes_openai_models_only (c : RuntimeConfig) : result exn unit :=
  match eng_type (rc_engine c) with
  | Eng_opencode => Ok tt
  | Eng_pi =>
      m ← opt_or AttributeError (rc_model c);
      require (bool_decide (m_type m = M_openai)) ValueError
  end.

Definition auth_is_ach (p : AchMemoryParams) : bool :=
  match mem_auth p with Some AuthAch => true | _ => false end.

Definition _memory_fits_the_capability_server (c : RuntimeConfig) : result exn unit :=
  match rc_memory c with
  | None => Ok tt
  | Some params =>
      match cap_ach (rc_capability c) with
      | Some a =>
          if in_strs (mem_mcp_server_id params) (map mcp_name (as_mcp_servers a)) && auth_is_ach params
          then Err ValueError else Ok tt
      | None =>
          if auth_is_ach params then Err ValueError
          else
            s ← opt_or AttributeError (cap_standalone (rc_capability c));
            if truthy (mem_mcp_server_id params)
               && negb (in_strs (mem_mcp_server_id params) (map mcp_name (ss_mcp_servers s)))
            then Err ValueError else Ok tt
      end
  end.

Definition _shared_handoff_requires_single_session (c : RuntimeConfig) : result exn unit :=
  if existsb (fun ch => present (ch_handoff ch)) (rc_channels c)
     && negb (ws_max_concurrent_sessions (rc_workspace c) =? 1)
  then Err ValueError else Ok tt.

Definition script_fits (limit : Z) (b : option ScriptBlock) : bool :=
  match b with Some b => sc_timeout_seconds b <=? limit | None => true end.
Definition hook_fits (limit : Z) (b : option HookBlock) : bool :=
  match b with Some b => hook_timeout_seconds b <=? limit | None => true end.
Definition _hook_and_handoff_timeouts_fit_the_lane (c : RuntimeConfig) : result exn unit :=
  let limit := max_invocation_seconds (rc_limits c) in
  require (forallb (fun ch => script_fits limit (ho_script <$> ch_handoff ch)
                              && script_fits limit (ch_script ch)) (rc_channels c)) ValueError ≫= fun _ =>
  require (hook_fits limit (session_start (rc_hooks c)) && hook_fits limit (session_restore (rc_hooks c)))
    ValueError.

Section runtime_config.
Context (zone_known : string -> bool).

(** Field blocks first, in declaration order, then the model validators of the root. *)
Definition RuntimeConfig_check (c : RuntimeConfig) : result exn unit :=
  AgentIdentity_check (rc_agent c) ≫= fun _ =>
  CapabilityBlock_check (rc_capability c) ≫= fun _ =>
  EngineBlock_check (rc_engine c) ≫= fun _ =>
  LimitsBlock_check (rc_limits c) ≫= fun _ =>
  WorkspaceBlock_check (rc_workspace c) ≫= fun _ =>
  ArtifactsBlock_check (rc_artifacts c) ≫= fun _ =>
  mapM_res (ChannelConfig_check zone_known) (rc_channels c) ≫= fun _ =>
  opt_check SystemPrompt_check (rc_prompt c) ≫= fun _ =>
  HooksBlock_check (rc_hooks c) ≫= fun _ =>
  opt_check AchMemoryParams_check (rc_memory c) ≫= fun _ =>
  opt_check _require_endpoint (rc_facade_endpoint c) ≫= fun _ =>
  _pi_takes_openai_models_only c ≫= fun _ =>
  _memory_fits_the_capability_server c ≫= fun _ =>
  _shared_handoff_requires_single_session c ≫= fun _ =>
  _hook_and_handoff_timeouts_fit_the_lane c.

(** [decode]: Pydantic's strict parsing of a wire object into the record. *)
Context (jcs : json -> result exn string) (decode : json -> result exn RuntimeConfig).

Definition hex64 (s : string) : bool := (String.length s =? 64)%nat && str_forallb is_hex s.

(** [parse_config(raw)]; every rejection is a [ConfigError], a subclass of [ValueError]. *)
Definition parse_config (raw : json) : result exn RuntimeConfig :=
  match raw with
  | JObj d =>
      if match assoc "schemaVersion" d with
         | Some (JStr v) => String.eqb v "workspace-v1" || String.eqb v "workspace-v2"
         | _ => false
         end then Err ValueError
      else match validate_json_value raw with
      | Err _ => Err ValueError
      | Ok _ =>
          match assoc "configVersion" d with
          | Some (JStr supplied) =>
              if negb (hex64 supplied) then Err ValueError
              else match compute_config_version jcs raw with
              | Err _ => Err ValueError
              | Ok expected =>
                  if negb (String.eqb supplied expected) then Err ValueError
                  else match decode raw with
                  | Err _ => Err ValueError
                  | Ok c => match RuntimeConfig_check c with
                            | Err _ => Err ValueError
                            | Ok _ => Ok c
                            end
                  end
              end
          | _ => Err ValueError
          end
      end
  | _ => Err ValueError
  end.
End runtime_config.
