(* ===== verification/ConfigFacts.v ===== *)
(** * What an accepted configuration guarantees

    Theorems over the checks of [Config]: the version handshake of [parse_config], where the
    ACH credential can be sent, where a handoff can write, and the two places where the schema
    and its comments disagree. *)

From S2P Require Import Prelude Sha256 PyJson Canonical Config.
From Stdlib Require Import Ascii.
Local Open Scope Z_scope.

Lemma mapM_res_forall {E A B} (f : A -> result E B) l ys :
  mapM_res f l = Ok ys -> Forall (fun x => exists y, f x = Ok y) l.
Proof.
  revert ys; induction l as [|x l IH]; intros ys H; [constructor|].
  simpl in H. apply bind_ok in H as (y & Hy & H). apply bind_ok in H as (zs & Hz & _).
  constructor; eauto.
Qed.

Lemma in_strs_iff s l : in_strs s l = true <-> In s l.
Proof.
  unfold in_strs. rewrite existsb_exists. split.
  - intros (x & Hx & E). apply String.eqb_eq in E. congruence.
  - intros H. exists s. by rewrite String.eqb_refl.
Qed.

Lemma has_dup_false l : has_dup l = false <-> List.NoDup l.
Proof.
  induction l as [|s l IH]; simpl; [by split; [constructor|]|].
  rewrite orb_false_iff, IH, NoDup_cons_iff, <- in_strs_iff.
  destruct (in_strs s l); naive_solver.
Qed.

(** ** The version handshake *)

(** [parse_config] accepts exactly the documents that are objects of a supported schema
    version, within the numeric profile, carrying the 64-hex [configVersion] computed from the
    rest of the document, that decode and pass every check; anything else is rejected with the
    one error class of this boundary. *)
Theorem parse_config_spec zone jcs decode raw :
  match parse_config zone jcs decode raw with
  | Ok c => exists d v,
      raw = JObj d /\ in_profile raw /\ assoc "configVersion" d = Some (JStr v)
      /\ compute_config_version jcs raw = Ok v /\ String.length v = 64%nat
      /\ assoc "schemaVersion" d <> Some (JStr "workspace-v1")
      /\ assoc "schemaVersion" d <> Some (JStr "workspace-v2")
      /\ decode raw = Ok c /\ RuntimeConfig_check zone c = Ok tt
  | Err e => e = ValueError
  end.
Proof.
  unfold parse_config. destruct raw as [| | | | | |d]; try done.
  match goal with |- context [if ?b then Err ValueError else _] => destruct b eqn:Es end; [done|].
  destruct (validate_json_value (JObj d)) as [[]|] eqn:Ev; [|done].
  destruct (assoc "configVersion" d) as [[| | | |v| |]|] eqn:Ec; try done.
  destruct (hex64 v) eqn:Eh; [|done]. cbn [negb].
  destruct (compute_config_version jcs (JObj d)) as [ver|] eqn:Ever; [|done].
  destruct (String.eqb_spec v ver) as [->|]; [|done]. cbn [negb].
  destruct (decode (JObj d)) as [c|] eqn:Ed; [|done].
  destruct (RuntimeConfig_check zone c) as [[]|] eqn:Er; [|done].
  exists d, ver. apply andb_prop in Eh as [Hl _]. apply Nat.eqb_eq in Hl.
  split_and!; try done; [by apply validate_json_value_spec|..];
    intros Ha; rewrite Ha in Es; vm_compute in Es; discriminate.
Qed.

(** ** Where secrets and files can go *)

(** The last [k] checks of [RuntimeConfig_check]. *)
Lemma RuntimeConfig_check_root zone c :
  RuntimeConfig_check zone c = Ok tt ->
  CapabilityBlock_check (rc_capability c) = Ok tt
  /\ EngineBlock_check (rc_engine c) = Ok tt
  /\ Forall (fun ch => exists u, ChannelConfig_check zone ch = Ok u) (rc_channels c)
  /\ _pi_takes_openai_models_only c = Ok tt
  /\ _memory_fits_the_capability_server c = Ok tt
  /\ _shared_handoff_requires_single_session c = Ok tt
  /\ _hook_and_handoff_timeouts_fit_the_lane c = Ok tt.
Proof.
  unfold RuntimeConfig_check. intros H.
  peel H.
  split_and!; try done. by eapply mapM_res_forall.
Qed.

Lemma capability_one_server c :
  CapabilityBlock_check c = Ok tt ->
  match cap_server c with
  | Srv_standalone => present (cap_standalone c) = true /\ cap_ach c = None
                      /\ ex_skills (cap_exclude c) = []
  | Srv_ach => present (cap_ach c) = true /\ cap_standalone c = None
  end.
Proof.
  unfold CapabilityBlock_check. intros H. do 2 apply bind_ok in H as ([] & ? & H).
  unfold _server_selects_its_block in H.
  destruct (cap_server c), (cap_standalone c), (cap_ach c), (ex_skills (cap_exclude c));
    simpl in H; try done.
Qed.

(** In an accepted configuration exactly one capability server is configured, and an
    ach-memory block that authenticates with the ACH credential exists only under the ACH
    server and never names one of the extra MCP servers, which must not receive it. *)
Theorem ach_credential_confined zone c p :
  RuntimeConfig_check zone c = Ok tt ->
  rc_memory c = Some p -> mem_auth p = Some AuthAch ->
  exists a, cap_server (rc_capability c) = Srv_ach /\ cap_ach (rc_capability c) = Some a
    /\ cap_standalone (rc_capability c) = None
    /\ ~ In (mem_mcp_server_id p) (map mcp_name (as_mcp_servers a)).
Proof.
  intros H Hm Ha. apply RuntimeConfig_check_root in H as (Hc & _ & _ & _ & Hmem & _).
  apply capability_one_server in Hc. unfold _memory_fits_the_capability_server in Hmem.
  rewrite Hm in Hmem. unfold auth_is_ach in Hmem. rewrite Ha in Hmem.
  destruct (cap_ach (rc_capability c)) as [a|]; [|done].
  destruct (cap_server (rc_capability c)); [naive_solver|]. exists a. split_and!; try done; [by apply Hc|].
  rewrite andb_true_r in Hmem. rewrite <- in_strs_iff. by destruct (in_strs _ _).
Qed.

(** Walking a path from a directory: empty and [.] components stay, [..] goes up. *)
Fixpoint walk (dir : list string) (parts : list string) : list string :=
  match parts with
  | [] => dir
  | p :: parts =>
      walk (if String.eqb p "" || String.eqb p "." then dir
            else if String.eqb p ".." then removelast dir else dir ++ [p]) parts
  end.

Lemma walk_no_dotdot dir parts :
  in_strs ".." parts = false ->
  walk dir parts = dir ++ filter (fun p => (String.eqb p "" || String.eqb p ".") = false) parts.
Proof.
  revert dir; induction parts as [|p parts IH]; intros dir H; [by rewrite app_nil_r|].
  cbn [walk]. unfold in_strs in H. cbn [existsb] in H. apply orb_false_iff in H as [Hp H].
  rewrite IH by done. rewrite filter_cons.
  destruct (String.eqb p "" || String.eqb p ".") eqn:E.
  - by rewrite decide_False by congruence.
  - rewrite decide_True by done. rewrite String.eqb_sym, Hp. by rewrite <- app_assoc.
Qed.

Lemma in_strs_filter s l (P : string -> bool) :
  P s = false -> in_strs s (filter (fun p => P p = false) l) = in_strs s l.
Proof.
  intros Hs. destruct (in_strs s l) eqn:E.
  - apply in_strs_iff. apply in_strs_iff in E. rewrite <- list_elem_of_In in *.
    by apply list_elem_of_filter.
  - destruct (in_strs s (filter _ l)) eqn:E2; [|done]. apply in_strs_iff in E2.
    rewrite <- list_elem_of_In in E2. apply list_elem_of_filter in E2 as [_ E2].
    rewrite list_elem_of_In in E2. apply in_strs_iff in E2. congruence.
Qed.

(** An accepted handoff destination stays inside the Workspace: walked component by
    component from any directory it never goes up and ends in a proper descendant of it. *)
Theorem destination_inside_workspace v dir :
  _valid_relative_destination v = Ok tt ->
  path_is_absolute v = false
  /\ exists p ps, walk dir (split_on "/" v) = dir ++ p :: ps /\ ~ In ".." (p :: ps).
Proof.
  unfold _valid_relative_destination. intros H.
  destruct (_ || _); [done|]. destruct (contains _ v); [done|].
  destruct (path_is_absolute v); [done|]. split; [done|].
  destruct (path_parts v) as [|p ps] eqn:E; [done|].
  destruct (in_strs ".." (p :: ps)) eqn:E2; [done|]. exists p, ps. split.
  - rewrite walk_no_dotdot; [by rewrite <- E|].
    rewrite <- E in E2. unfold path_parts in E2.
    by rewrite (in_strs_filter ".." _ (fun p => String.eqb p "" || String.eqb p ".")) in E2.
  - rewrite <- in_strs_iff. congruence.
Qed.

Lemma destination_inside_workspace_witness :
  _valid_relative_destination "./repo//src/" = Ok tt
  /\ exists p ps, walk ["ws"] (split_on "/" "./repo//src/") = ["ws"] ++ p :: ps /\ ~ In ".." (p :: ps).
Proof.
  split; [reflexivity|].
  exact (proj2 (destination_inside_workspace "./repo//src/" ["ws"] eq_refl)).
Defined.

(** An accepted configuration with a handoff channel runs one session per Workspace at a
    time, and no handoff or script of it may run longer than the invocation deadline. *)
Theorem handoff_config_safe zone c ch h :
  RuntimeConfig_check zone c = Ok tt -> In ch (rc_channels c) -> ch_handoff ch = Some h ->
  ws_max_concurrent_sessions (rc_workspace c) = 1
  /\ sc_timeout_seconds (ho_script h) <= max_invocation_seconds (rc_limits c)
  /\ ch_type ch <> CT_webhook_script.
Proof.
  intros H Hin Hh. apply RuntimeConfig_check_root in H as (_ & _ & Hall & _ & _ & Hs & Ht).
  split_and!.
  - unfold _shared_handoff_requires_single_session in Hs.
    assert (Hex : existsb (fun ch => present (ch_handoff ch)) (rc_channels c) = true).
    { apply existsb_exists. exists ch. by rewrite Hh. }
    rewrite Hex in Hs. simpl in Hs. destruct (Z.eqb_spec (ws_max_concurrent_sessions (rc_workspace c)) 1); done.
  - unfold _hook_and_handoff_timeouts_fit_the_lane in Ht. apply bind_ok in Ht as ([] & Ht & _).
    apply require_ok in Ht. rewrite forallb_forall in Ht. apply Ht in Hin.
    rewrite Hh in Hin. apply andb_prop in Hin as [Hin _]. by apply Z.leb_le in Hin.
  - rewrite List.Forall_forall in Hall. destruct (Hall _ Hin) as [u Hc]. intros Htype.
    unfold ChannelConfig_check in Hc.
    peel Hc.
    unfold _check_type_block_coherence in Hc. rewrite Htype, Hh in Hc.
    rewrite bool_decide_true in Hc by done. destruct (negb _ || negb _); [done|].
    simpl in Hc. rewrite orb_true_r in Hc. done.
Qed.

(** A complete configuration used by the witnesses: one GitLab webhook channel with a handoff,
    the ACH server with one extra MCP server, ach-memory authenticated with the ACH credential. *)
Definition sample_model : ModelBlock :=
  {| m_name := "gpt"; m_type := M_openai; m_params := [];
     m_thinking := {| th_enabled := false; th_effort := None |} |}.
Definition sample_ach : AchServer :=
  {| as_base_url := "https://hub"; as_environment := "prod";
     as_key := KeyAlias {| secret_env_name := "ACH_KEY" |};
     as_model := {| am_block := sample_model; am_limits := None |};
     as_mcp_servers := [{| mcp_name := "serper"; mcp_url := "https://serper.dev/mcp"; mcp_headers := [] |}] |}.
Definition sample_memory : AchMemoryParams :=
  {| mem_endpoint := ""; mem_mcp_server_id := "memory"; mem_auth := Some AuthAch; mem_project := "p" |}.
Definition sample_script : ScriptBlock :=
  {| sc_script := "git clone $URL"; sc_env := [("URL", "https://git/x")];
     sc_secret_env := [("TOKEN", {| secret_env_name := "ACH_SECRET_GIT" |})]; sc_timeout_seconds := 120 |}.
Definition sample_handoff : HandoffBlock := {| ho_script := sample_script; ho_destination := "repo" |}.
Definition sample_channel : ChannelConfig :=
  {| ch_name := "mr"; ch_type := CT_webhook; ch_concurrency := 1; ch_source := Some WS_gitlab;
     ch_routing := None; ch_rate_limit := None; ch_prompt := None;
     ch_webhook := Some {| wh_auth := {| wa_type := Auth_gitlab_token; wa_env := Some "ACH_SECRET_GL"; wa_header := "" |};
                           wh_gitlab_events := None; wh_bot_username := Some "bot"; wh_trigger_users := None;
                           wh_merge_requests_only := false |};
     ch_handoff := Some sample_handoff; ch_script := None; ch_cron := None; ch_queue := None; ch_a2a := None |}.
Definition sample_config : RuntimeConfig :=
  {| rc_agent := {| agent_name := "reviewer"; agent_namespace := "ach";
                    agent_uid := "0f8fad5b-d9cb-469f-a165-70867728950e" |};
     rc_config_version := ""; 
     rc_capability := {| cap_server := Srv_ach; cap_standalone := None; cap_ach := Some sample_ach;
                         cap_exclude := {| ex_tools := []; ex_mcp_servers := []; ex_skills := [] |} |};
     rc_engine := {| eng_type := Eng_opencode; eng_env := [("LANG", "C")]; eng_startup_timeout_seconds := 30;
                     eng_compaction := {| cmp_auto := true; cmp_keep_tokens := 8000; cmp_buffer := 20000 |};
                     eng_deny_tools := ["bash"] |};
     rc_limits := {| max_active_workspaces := 2; max_concurrent_invocations := 2; max_concurrent_scripts := None;
                     max_invocation_seconds := 600; max_queued_total := 5; idempotency_window_seconds := 3600;
                     max_steps := 50; max_stall_seconds := 300 |};
     rc_workspace := {| ws_idle_timeout_seconds := 300; ws_shutdown_timeout_seconds := 30; ws_ready_timeout_seconds := 30;
                        ws_max_concurrent_sessions := 1;
                        ws_persistence := {| per_type := P_s3; per_retention_days := Some 30 |};
                        ws_session := {| ses_idle_timeout_seconds := 60; ses_retention_days := Some 7 |} |};
     rc_artifacts := {| art_enabled := false; max_artifact_bytes := 1024; art_retention_days := 0 |};
     rc_channels := [sample_channel]; rc_prompt := Some (SystemFile "prompts/a.md");
     rc_hooks := {| workspace_start := None; session_start := None; session_restore := None;
                    session_suspend := None; workspace_stop := None |};
     rc_memory := Some sample_memory; rc_facade_endpoint := Some "http://agent.ach.svc:8081/facades" |}.

Lemma ach_credential_confined_witness :
  RuntimeConfig_check (fun _ => true) sample_config = Ok tt
  /\ exists a, cap_ach (rc_capability sample_config) = Some a
    /\ ~ In (mem_mcp_server_id sample_memory) (map mcp_name (as_mcp_servers a)).
Proof.
  split; [vm_compute; reflexivity|].
  destruct (ach_credential_confined (fun _ => true) sample_config sample_memory) as (a & _ & Ha & _ & Hn);
    [vm_compute; reflexivity|reflexivity|reflexivity|].
  exists a. split; [exact Ha|exact Hn].
Defined.

Lemma handoff_config_safe_witness :
  RuntimeConfig_check (fun _ => true) sample_config = Ok tt
  /\ sc_timeout_seconds (ho_script sample_handoff) <= max_invocation_seconds (rc_limits sample_config).
Proof.
  split; [vm_compute; reflexivity|].
  destruct (handoff_config_safe (fun _ => true) sample_config sample_channel sample_handoff) as (_ & H & _);
    [vm_compute; reflexivity|left; reflexivity|reflexivity|exact H].
Defined.

(** ** Names in the environment *)

(** No accepted [engine.env] name is one the engine reserves: not a reserved name, and none
    of the reserved prefixes. *)
Theorem engine_env_not_reserved b n v :
  EngineBlock_check b = Ok tt -> In (n, v) (eng_env b) ->
  ~ In n _RESERVED_ENGINE_ENV_EXACT
  /\ Forall (fun p => forall r, n <> p +:+ r) _RESERVED_ENGINE_ENV_PREFIXES.
Proof.
  unfold EngineBlock_check. intros H Hin. peel H.
  match goal with H : mapM_res _ _ = Ok _ |- _ => apply mapM_res_forall in H; rename H into Hall end.
  rewrite List.Forall_forall in Hall. destruct (Hall n) as [u Hn]; [by apply in_map_iff; exists (n, v)|].
  unfold _check_engine_env_name in Hn.
  destruct (_ || _) eqn:E; [done|]. apply orb_false_iff in E as [E1 E2]. split.
  - rewrite <- in_strs_iff. congruence.
  - apply List.Forall_forall. intros p Hp r ->.
    assert (Hex : existsb (fun q => starts_with q (p +:+ r)) _RESERVED_ENGINE_ENV_PREFIXES = true).
    { apply existsb_exists. exists p. split; [done|]. unfold starts_with.
      by rewrite (proj2 (strip_prefix_eq p _ r) eq_refl). }
    congruence.
Qed.

Lemma engine_env_not_reserved_witness :
  EngineBlock_check (rc_engine sample_config) = Ok tt /\ ~ In "LANG" _RESERVED_ENGINE_ENV_EXACT.
Proof.
  split; [reflexivity|].
  refine (proj1 (engine_env_not_reserved (rc_engine sample_config) "LANG" "C" _ _));
    [reflexivity|left; reflexivity].
Defined.

Lemma chop_newline_app s : chop_newline (s +:+ newline) = s.
Proof.
  induction s as [|a s IH]; [done|]. rewrite str_app_cons. simpl.
  destruct (s +:+ newline) eqn:E; [|by rewrite IH].
  apply (f_equal String.length) in E. rewrite str_app_length in E. simpl in E. lia.
Qed.

(** The name checks match the alias pattern with [re.match] and a final [$], which also
    matches before a final newline: for every valid name the same name followed by a newline
    is accepted as an alias although it is not a valid environment variable name. *)
Theorem env_alias_accepts_trailing_newline s :
  env_name s = true ->
  SecretAlias_check {| secret_env_name := s +:+ newline |} = Ok tt
  /\ env_name (s +:+ newline) = false.
Proof.
  intros H. split.
  - unfold SecretAlias_check, _ENV_NAME_RE. simpl. by rewrite chop_newline_app, H.
  - unfold env_name. destruct s as [|a s]; [done|]. rewrite str_app_cons.
    apply andb_false_iff. right. clear H. induction s as [|b s IH]; [done|].
    rewrite str_app_cons. simpl. by rewrite IH, andb_false_r.
Qed.

Lemma env_alias_accepts_trailing_newline_witness :
  SecretAlias_check {| secret_env_name := "ACH_KEY" +:+ newline |} = Ok tt.
Proof. exact (proj1 (env_alias_accepts_trailing_newline "ACH_KEY" eq_refl)). Defined.

(** Header names of an accepted server are pairwise different in lower case, and none is
    reserved. *)
Theorem headers_unique_unreserved names seen :
  _check_headers seen names = Ok tt ->
  List.NoDup (map lower names)
  /\ Forall (fun n => _HEADER_NAME_RE n = true /\ ~ In (lower n) seen
                      /\ ~ In (lower n) _RESERVED_HEADER_NAMES
                      /\ forall p r, In p _RESERVED_HEADER_PREFIXES -> lower n <> p +:+ r) names.
Proof.
  revert seen; induction names as [|n names IH]; intros seen H; [split; constructor|].
  cbn [_check_headers] in H. cbv zeta in H.
  destruct (_HEADER_NAME_RE n) eqn:E1; [|done]. cbn [negb] in H.
  destruct (in_strs (lower n) _RESERVED_HEADER_NAMES) eqn:E2; [done|]. cbn [orb] in H.
  destruct (existsb _ _) eqn:E3; [done|]. destruct (in_strs (lower n) seen) eqn:E4; [done|].
  destruct (IH _ H) as [Hnd Hall]. split.
  - cbn [map]. constructor; [|done]. intros Hin. apply in_map_iff in Hin as (m & Hm & Hin).
    rewrite List.Forall_forall in Hall. destruct (Hall _ Hin) as (_ & Hns & _).
    apply Hns. rewrite Hm. by left.
  - constructor.
    + rewrite <- !in_strs_iff. split_and!; try congruence. intros p r Hp Heq.
      assert (Hex : existsb (fun q => starts_with q (lower n)) _RESERVED_HEADER_PREFIXES = true).
      { apply existsb_exists. exists p. split; [done|]. unfold starts_with.
        by rewrite (proj2 (strip_prefix_eq p _ r) Heq). }
      congruence.
    + eapply Forall_impl; [exact Hall|]. intros m (? & Hm & ? & ?). split_and!; try done.
      intros Hin. apply Hm. by right.
Qed.

Lemma headers_unique_unreserved_witness :
  _check_headers [] ["X-Api-Key"; "Accept"] = Ok tt /\ List.NoDup (map lower ["X-Api-Key"; "Accept"]).
Proof.
  split; [reflexivity|]. exact (proj1 (headers_unique_unreserved ["X-Api-Key"; "Accept"] [] eq_refl)).
Defined.
