(* ===== verification/Templating.v ===== *)
(** * templating/render.py: routing templates

    Pure path traversal and the strict [{{ path }}] substitution of routing overrides and
    rate-limit keys. *)

From S2P Require Import Prelude PyJson.
From Stdlib Require Import Ascii.

(** [re.match("^[A-Za-z0-9_.\-]+$")] on a stripped string. *)
Definition path_char (a : ascii) : bool :=
  is_alnum a || Ascii.eqb a "_" || Ascii.eqb a "." || Ascii.eqb a "-".
Definition _VALID_PATH_RE (s : string) : bool := truthy s && str_forallb path_char s.

(** [int(seg)] for a string of digits. *)
Fixpoint nat_of_digits (acc : nat) (s : string) : nat :=
  match s with
  | EmptyString => acc
  | String a s => nat_of_digits (10 * acc + Z.to_nat (digit_val a)) s
  end.
Definition isdigit (s : string) : bool := truthy s && str_forallb is_digit s.

(** One step of [resolve_path]; [None] is [_MISSING]. *)
Definition resolve_seg (cur : json) (seg : string) : option json :=
  match cur with
  | JObj d => assoc seg d
  | JList l => if isdigit seg && (nat_of_digits 0 seg <? length l)%nat then l !! nat_of_digits 0 seg else None
  | _ => None
  end.
Fixpoint resolve_segs (cur : json) (segs : list string) : option json :=
  match segs with
  | [] => Some cur
  | seg :: segs => c ← resolve_seg cur seg; resolve_segs c segs
  end.
Definition resolve_path (context : json) (dotted_path : string) : option json :=
  resolve_segs context (split_on "." dotted_path).

(** [str(value)] on a scalar; [None] on the values the render rejects. *)
Definition scalar_str (j : json) : option string :=
  match j with
  | JBool b => Some (if b then "True" else "False")
  | JInt z => Some (str_of_int z)
  | JFloat f => Some (f_repr f)
  | JStr s => Some s
  | JNull | JList _ | JObj _ => None
  end.

Definition _reject_stray_delimiters (literal : string) : result exn unit :=
  if contains "{{" literal || contains "}}" literal then Err UnresolvedTemplateError else Ok tt.

(** One [{{ ... }}] token. *)
Definition render_token (context : json) (inner : string) : result exn string :=
  let path := strip inner in
  if negb (_VALID_PATH_RE path) then Err UnresolvedTemplateError
  else match resolve_path context path ≫= scalar_str with
       | None => Err UnresolvedTemplateError
       | Some s => Ok s
       end.

(** The loop over [_ANY_BRACE_RE.finditer(template)]: the leftmost opening, the nearest closing
    after it; without one the rest of the template is the trailing literal. *)
Fixpoint render_loop (fuel : nat) (context : json) (rest : string) : result exn string :=
  match fuel with
  | O => Err OutOfFuel
  | S fuel =>
      let trailing := _reject_stray_delimiters rest ≫= fun _ => Ok rest in
      match find_sub "{{" rest with
      | None => trailing
      | Some (literal, after) =>
          match find_sub "}}" after with
          | None => trailing
          | Some (inner, rest) =>
              _reject_stray_delimiters literal ≫= fun _ =>
              value ← render_token context inner;
              out ← render_loop fuel context rest;
              Ok (literal +:+ value +:+ out)
          end
      end
  end.

Definition render_routing_template (template : string) (context : json) : result exn string :=
  render_loop (S (String.length template)) context template.

Definition ctx_ex : json :=
  JObj [("event", JObj [("id", JStr "e1"); ("ok", JBool true)]); ("payload", JObj [("l", JList [JInt 7; JNull])])].
Example render_ex1 :
  render_routing_template "p-{{ payload.l.0 }}/{{event.ok}}" ctx_ex = Ok "p-7/True".
Proof. reflexivity. Qed.
Example render_ex2 : render_routing_template "p-{{ payload.l.1 }}" ctx_ex = Err UnresolvedTemplateError.
Proof. reflexivity. Qed.
Example render_ex3 : render_routing_template "}} a {{" ctx_ex = Err UnresolvedTemplateError.
Proof. reflexivity. Qed.

(** ** Properties *)

Lemma find_sub_shorter p s pre rest :
  find_sub p s = Some (pre, rest) -> String.length s = String.length pre + String.length p + String.length rest.
Proof. intros H. apply find_sub_eq in H as ->. rewrite !str_app_length. lia. Qed.

Lemma contains_split p s : contains p s = false -> forall a b, s <> a +:+ p +:+ b.
Proof.
  unfold contains. intros H a b ->.
  assert (Hex : exists x, find_sub p (a +:+ p +:+ b) = Some x); [|destruct Hex as [x Hx]; by rewrite Hx in H].
  clear H. induction a as [|c a IH].
  - rewrite str_app_nil_l. exists ("", b). destruct (p +:+ b) eqn:E; cbn [find_sub];
      by rewrite (proj2 (strip_prefix_eq p _ b) (eq_sym E)).
  - rewrite str_app_cons. cbn [find_sub]. destruct (strip_prefix p _) as [r|]; [eauto|].
    destruct IH as [[pre r] ->]. eauto.
Qed.

(** Rendering a routing template always terminates with a string or an
    [UnresolvedTemplateError]: the loop consumes at least the four delimiter characters per
    token, so the fuel given by the template's length is never exhausted. *)
Theorem render_total template context :
  match render_routing_template template context with
  | Ok _ => True
  | Err e => e = UnresolvedTemplateError
  end.
Proof.
  unfold render_routing_template.
  assert (H : forall fuel s, String.length s < fuel ->
            match render_loop fuel context s with Ok _ => True | Err e => e = UnresolvedTemplateError end).
  { induction fuel as [|fuel IH]; intros s Hs; [lia|]. cbn [render_loop]. cbv zeta.
    assert (Ht : match (_reject_stray_delimiters s ≫= fun _ => Ok s) with
                 | Ok _ => True | Err e => e = UnresolvedTemplateError end)
      by (unfold _reject_stray_delimiters; by destruct (_ || _)).
    destruct (find_sub "{{" s) as [[literal after]|] eqn:E1; [|done].
    destruct (find_sub "}}" after) as [[inner rest]|] eqn:E2; [|done].
    apply find_sub_shorter in E1, E2. simpl in E1, E2.
    unfold _reject_stray_delimiters at 1. destruct (_ || _); [done|]. cbn [mbind result_bind].
    unfold render_token at 1. cbv zeta. destruct (negb _); [done|].
    destruct (resolve_path _ _ ≫= scalar_str); [|done]. cbn [mbind result_bind].
    assert (Hr := IH rest ltac:(lia)). destruct (render_loop fuel context rest); done. }
  apply H. lia.
Qed.

(** A template as its literals and tokens. *)
Fixpoint template_of (toks : list (string * string)) (trailing : string) : string :=
  match toks with
  | [] => trailing
  | (literal, inner) :: toks => literal +:+ "{{" +:+ inner +:+ "}}" +:+ template_of toks trailing
  end.
Fixpoint rendered_of (vals : list (string * string)) (trailing : string) : string :=
  match vals with
  | [] => trailing
  | (literal, v) :: vals => literal +:+ v +:+ rendered_of vals trailing
  end.
Definition no_delimiter (s : string) : Prop := forall a b, s <> a +:+ "{{" +:+ b /\ s <> a +:+ "}}" +:+ b.

Lemma reject_stray_ok s u : _reject_stray_delimiters s = Ok u -> no_delimiter s.
Proof.
  unfold _reject_stray_delimiters. destruct (_ || _) eqn:E; [done|]. intros _ a b.
  apply orb_false_iff in E as [E1 E2]. split; by apply contains_split.
Qed.

(** A rendered override is the template with every token replaced by the text of the scalar
    its path names in the event context; literals carry no delimiter, and no token falls back
    to a default: a missing, null or structured value, or an expression that is not a bare
    path, would have failed the whole render. *)
Theorem render_substitutes template context s :
  render_routing_template template context = Ok s ->
  exists toks vals trailing,
    template = template_of toks trailing /\ s = rendered_of vals trailing
    /\ no_delimiter trailing
    /\ Forall2 (fun t v => fst v = fst t /\ no_delimiter (fst t)
                  /\ _VALID_PATH_RE (strip (snd t)) = true
                  /\ (resolve_path context (strip (snd t)) ≫= scalar_str) = Some (snd v)) toks vals.
Proof.
  unfold render_routing_template. generalize (S (String.length template)) as fuel.
  intros fuel; revert template s; induction fuel as [|fuel IH]; intros t s H; [done|].
  cbn [render_loop] in H. cbv zeta in H.
  assert (Ht : (_reject_stray_delimiters t ≫= fun _ => Ok t) = Ok s ->
    exists toks vals trailing, t = template_of toks trailing /\ s = rendered_of vals trailing
    /\ no_delimiter trailing
    /\ Forall2 (fun t v => fst v = fst t /\ no_delimiter (fst t)
                  /\ _VALID_PATH_RE (strip (snd t)) = true
                  /\ (resolve_path context (strip (snd t)) ≫= scalar_str) = Some (snd v)) toks vals).
  { intros Ht. apply bind_ok in Ht as (u & Hu & [= <-]). exists [], [], t.
    split_and!; try done. by eapply reject_stray_ok. }
  destruct (find_sub "{{" t) as [[literal after]|] eqn:E1; [|by apply Ht].
  destruct (find_sub "}}" after) as [[inner rest]|] eqn:E2; [|by apply Ht].
  apply find_sub_eq in E1, E2. apply bind_ok in H as (u & Hu & H).
  apply bind_ok in H as (value & Hv & H). apply bind_ok in H as (out & Ho & [= <-]).
  apply IH in Ho as (toks & vals & trailing & -> & -> & Hn & Hall).
  exists ((literal, inner) :: toks), ((literal, value) :: vals), trailing.
  split_and!; try done.
  - by rewrite E1, E2.
  - constructor; [|done]. apply reject_stray_ok in Hu. unfold render_token in Hv. cbv zeta in Hv.
    simpl. destruct (_VALID_PATH_RE (strip inner)); [|done]. cbn [negb] in Hv.
    destruct (resolve_path _ _ ≫= scalar_str); by simplify_eq.
Qed.

Lemma render_substitutes_witness :
  render_routing_template "p-{{ payload.l.0 }}" ctx_ex = Ok "p-7"
  /\ exists toks vals trailing, "p-{{ payload.l.0 }}" = template_of toks trailing
       /\ "p-7" = rendered_of vals trailing.
Proof.
  split; [reflexivity|].
  destruct (render_substitutes "p-{{ payload.l.0 }}" ctx_ex "p-7" eq_refl) as (t & v & r & H1 & H2 & _).
  exists t, v, r. split; [exact H1|exact H2].
Defined.
