(* ===== verification/Channels.v ===== *)
(** * channels/: events, webhook authentication and webhook normalization

    [event.py], [auth.py], [gitlab.py] and [webhook.py].  Payloads and contexts are JSON
    objects; headers are the request's header dict in order.  [repr] of a list or dict, which
    only [str()] of a malformed field can reach, is the section variable [container_repr]. *)

From S2P Require Import Prelude Sha256 PyJson Config.
From Stdlib Require Import Ascii.

(** ** event.py *)

Record Event :=
  { ev_id : string; ev_channel : string; ev_type : string; ev_source : string;
    ev_payload : list (string * json); ev_context : list (string * json); ev_actor : string }.

Record RoutedEvent :=
  { re_event : Event; re_workspace_key : string; re_session_key : string; re_rate_keys : list string }.
Definition re_event_id (r : RoutedEvent) : string := ev_id (re_event r).
Definition re_channel (r : RoutedEvent) : string := ev_channel (re_event r).

(** ** auth.py *)

Section auth.
(** [os.environ.get] *)
Context (environ : string -> option string).

Definition _resolve_env_secret (env_name : option string) : string :=
  match env_name with
  | Some n => if truthy n then from_option id "" (environ n) else ""
  | None => ""
  end.

Definition verify_hmac (signature : string) (env_name : option string) (raw_body : string) : bool :=
  if negb (truthy signature) then false
  else
    let sig := from_option id signature (strip_prefix "sha256=" signature) in
    let secret := _resolve_env_secret env_name in
    if negb (truthy secret) then false
    else String.eqb sig (hmac_hex secret raw_body).

Definition verify_header_token (header_token : string) (env_name : option string) : bool :=
  let secret := _resolve_env_secret env_name in
  if negb (truthy header_token) || negb (truthy secret) then false
  else String.eqb header_token secret.

(** [lower_headers.get(name, "")] *)
Definition header_or_empty (headers : list (string * string)) (name : string) : string :=
  from_option id "" (assoc name headers).

Definition verify_webhook_auth (auth : WebhookAuthBlock) (lower_headers : list (string * string))
    (raw_body : string) : bool :=
  match wa_type auth with
  | Auth_none => true
  | Auth_gitlab_token => verify_header_token (header_or_empty lower_headers "x-gitlab-token") (wa_env auth)
  | Auth_hmac => verify_hmac (header_or_empty lower_headers "x-hub-signature-256") (wa_env auth) raw_body
  | Auth_header_token =>
      verify_header_token (header_or_empty lower_headers (lower (wa_header auth))) (wa_env auth)
  end.
End auth.

(** ** gitlab.py *)

Section normalize.
Context (container_repr : json -> string).

(** [str(value)] *)
Definition py_str (j : json) : string :=
  match j with
  | JNull => "None"
  | JBool b => if b then "True" else "False"
  | JInt z => str_of_int z
  | JFloat f => f_repr f
  | JStr s => s
  | JList _ | JObj _ => container_repr j
  end.

(** [payload.get(k)] on the payload dict, and [payload.get(k) or {}]. *)
Definition pget (payload : list (string * json)) (k : string) : json := from_option id JNull (assoc k payload).
Definition pget_or_dict (payload : list (string * json)) (k : string) : json :=
  json_or (pget payload k) (JObj []).
Definition pget_str (payload : list (string * json)) (k : string) : json :=
  from_option id (JStr "") (assoc k payload).

Definition _gitlab_actor (body : list (string * json)) : result exn string :=
  u ← py_get_str (pget_or_dict body "user") "username";
  Ok (py_str (json_or u (pget_str body "user_username"))).

Definition _project_path_fields (body : list (string * json)) : result exn (list (string * json)) :=
  p ← py_get_str (pget_or_dict body "project") "path_with_namespace";
  let path := py_str (json_or (json_or p (pget_str body "path_with_namespace")) (JStr "")) in
  Ok (if truthy path then [("projectPath", JStr path)] else []).

Definition _mr_head_sha (container : json) : result exn string :=
  last_commit ← py_get container "last_commit";
  match last_commit with
  | JObj _ => i ← py_get_str last_commit "id"; Ok (py_str i)
  | _ => Ok ""
  end.

(** [_get(mapping, key, field)] *)
Definition _get (mapping : json) (key : string) : result exn json :=
  match py_item mapping key with Ok v => Ok v | Err _ => Err MalformedGitlabEventError end.

(** [_require_id(value, field)]: an int or an integer string, never a bool. *)
Definition _require_id (value : json) : result exn string :=
  match value with
  | JInt z => Ok (str_of_int z)
  | JStr s => match int_of_str s with
              | Ok z => Ok (str_of_int z)
              | Err _ => Err MalformedGitlabEventError
              end
  | _ => Err MalformedGitlabEventError
  end.

Definition _event_id (headers : list (string * string)) : result exn string :=
  let event_id := str_or (header_or_empty headers "X-Gitlab-Event-UUID")
                         (header_or_empty headers "x-gitlab-event-uuid") in
  if truthy event_id then Ok event_id else Err MalformedGitlabEventError.

Definition _build (payload : list (string * json)) (headers : list (string * string))
    (channel : ChannelConfig) (wh : WebhookBlock) (type_ : string)
    (gitlab_context : list (string * json)) : result exn (option Event) :=
  actor ← _gitlab_actor payload;
  let bot := from_option id "" (wh_bot_username wh) in
  if truthy bot && String.eqb actor bot then Ok None
  else if match wh_trigger_users wh with Some us => negb (in_strs actor us) | None => false end then Ok None
  else
    event_id ← _event_id headers;
    Ok (Some {| ev_id := event_id; ev_channel := ch_name channel; ev_type := type_; ev_source := "gitlab";
                ev_payload := payload; ev_context := [("gitlab", JObj gitlab_context)]; ev_actor := actor |}).

(** [_require_id(_get(payload.get("project") or {}, "id", ...), ...)] *)
Definition project_id_of (payload : list (string * json)) : result exn string :=
  _get (pget_or_dict payload "project") "id" ≫= _require_id.

(** The merge-request context of an event: [container] carries the iid and the head SHA. *)
Definition mr_context (payload : list (string * json)) (container : json)
    : result exn (list (string * json)) :=
  project_id ← project_id_of payload;
  mr_iid ← _get container "iid" ≫= _require_id;
  path ← _project_path_fields payload;
  head_sha ← _mr_head_sha container;
  Ok ([("projectId", JStr project_id); ("mergeRequestIid", JStr mr_iid)] ++ path
      ++ (if truthy head_sha then [("headSha", JStr head_sha)] else [])).

Definition issue_context (payload : list (string * json)) (container : json)
    : result exn (list (string * json)) :=
  project_id ← project_id_of payload;
  issue_iid ← _get container "iid" ≫= _require_id;
  path ← _project_path_fields payload;
  Ok ([("projectId", JStr project_id); ("issueIid", JStr issue_iid)] ++ path).

(** [kind in allowed]: an unhashable kind raises. *)
Definition kind_in (kind : json) (allowed : list string) : result exn bool :=
  match kind with
  | JStr s => Ok (in_strs s allowed)
  | JList _ | JObj _ => Err TypeError
  | _ => Ok false
  end.
Definition kind_is (kind : json) (s : string) : bool :=
  match kind with JStr k => String.eqb k s | _ => false end.

Definition normalize_note (payload : list (string * json)) (headers : list (string * string))
    (channel : ChannelConfig) (wh : WebhookBlock) (allowed : list string) : result exn (option Event) :=
  let attrs := pget_or_dict payload "object_attributes" in
  system ← py_get attrs "system";
  if json_truthy system then Ok None
  else
    noteable ← py_get_str attrs "noteable_type";
    let noteable := lower (py_str noteable) in
    if String.eqb noteable "mergerequest" && in_strs "merge_request" allowed then
      ctx ← mr_context payload (pget_or_dict payload "merge_request");
      _build payload headers channel wh "note" ctx
    else if String.eqb noteable "issue" && in_strs "issue" allowed then
      if wh_merge_requests_only wh then Ok None
      else
        ctx ← issue_context payload (pget_or_dict payload "issue");
        _build payload headers channel wh "note" ctx
    else Ok None.

Definition normalize_gitlab (payload : list (string * json)) (headers : list (string * string))
    (channel : ChannelConfig) : result exn (option Event) :=
  match ch_webhook channel with
  | None => Err AssertionError
  | Some wh =>
      let allowed := match wh_gitlab_events wh with
                     | Some (e :: es) => e :: es
                     | _ => CONVERSATIONAL_GITLAB_EVENTS
                     end in
      let kind := json_or (json_or (pget payload "object_kind") (pget payload "event_name")) (JStr "") in
      if kind_is kind "merge_request" && in_strs "merge_request" allowed then
        ctx ← mr_context payload (pget_or_dict payload "object_attributes");
        _build payload headers channel wh "merge_request" ctx
      else if kind_is kind "issue" && in_strs "issue" allowed then
        if wh_merge_requests_only wh then Ok None
        else
          ctx ← issue_context payload (pget_or_dict payload "object_attributes");
          _build payload headers channel wh "issue" ctx
      else if kind_is kind "note" && in_strs "note" allowed then
        normalize_note payload headers channel wh allowed
      else if bool_decide (ch_type channel = CT_webhook_script) && present (wh_gitlab_events wh) then
        listed ← kind_in kind allowed;
        if listed : bool then
          let project := pget_or_dict payload "project" in
          id ← py_get project "id";
          project_id ← _require_id (json_or id (pget payload "project_id"));
          path ← _project_path_fields payload;
          _build payload headers channel wh (py_str kind) ([("projectId", JStr project_id)] ++ path)
        else Ok None
      else Ok None
  end.

(** ** webhook.py *)

Definition _GENERIC_ID_HEADERS : list string :=
  ["x-github-delivery"; "x-gitlab-event-uuid"; "svix-id"; "x-request-id"; "idempotency-key"].

(** [int(value)] on a JSON value. *)
Definition int_of_json (j : json) : result exn Z :=
  match j with
  | JInt z => Ok z
  | JBool b => Ok (if b then 1 else 0)%Z
  | JStr s => int_of_str s
  | JFloat f =>
      match f_int f with
      | Some z => Ok z
      | None => Err (if String.eqb (f_repr f) "nan" then ValueError else OverflowError)
      end
  | JNull | JList _ | JObj _ => Err TypeError
  end.

(** The [KeyError]/[TypeError] handler of [_parse_github]. *)
Definition identity_lookup {A} (m : result exn A) : result exn A :=
  match m with
  | Err KeyError | Err TypeError => Err ValueError
  | m => m
  end.

Definition _parse_github (payload : list (string * json)) : result exn (string * Z) :=
  '(repo, raw_number) ← identity_lookup
    (repository ← py_item (JObj payload) "repository";
     repo ← py_item repository "full_name";
     raw ← (let n := pget payload "number" in
            if json_truthy n then Ok n
            else pr ← py_item (JObj payload) "pull_request"; py_item pr "number");
     Ok (repo, raw));
  match repo with
  | JStr repo =>
      if negb (truthy (strip repo)) then Err ValueError
      else match raw_number with
      | JBool _ => Err ValueError
      | _ =>
          pr_number ← int_of_json raw_number;
          if (pr_number <=? 0)%Z then Err ValueError else Ok (repo, pr_number)
      end
  | _ => Err ValueError
  end.

(** [_header(headers, name)]: the first header whose lower-cased key is [name]. *)
Fixpoint _header (headers : list (string * string)) (name : string) : string :=
  match headers with
  | [] => ""
  | (key, value) :: headers => if String.eqb (lower key) name then value else _header headers name
  end.

(** The loop over the ID headers: the first non-empty value. *)
Fixpoint delivery_id (headers : list (string * string)) (names : list string) : string :=
  match names with
  | [] => ""
  | name :: names => let v := _header headers name in if truthy v then v else delivery_id headers names
  end.

Definition normalize_webhook (payload : list (string * json)) (headers : list (string * string))
    (channel : ChannelConfig) : result exn (option Event) :=
  match ch_source channel with
  | Some WS_gitlab => normalize_gitlab payload headers channel
  | None => Err ValueError
  | Some src =>
      let event_id := delivery_id headers _GENERIC_ID_HEADERS in
      if negb (truthy event_id) then Err MissingWebhookDeliveryId
      else match src with
      | WS_github =>
          '(repo, pr_number) ← _parse_github payload;
          Ok (Some {| ev_id := event_id; ev_channel := ch_name channel; ev_type := "pull_request";
                      ev_source := "github"; ev_payload := payload;
                      ev_context := [("github", JObj [("repo", JStr repo); ("prNumber", JInt pr_number)])];
                      ev_actor := "" |})
      | _ =>
          Ok (Some {| ev_id := event_id; ev_channel := ch_name channel; ev_type := "webhook";
                      ev_source := "generic"; ev_payload := payload; ev_context := []; ev_actor := "" |})
      end
  end.
End normalize.

(** Examples. *)
Definition gitlab_mr_payload : list (string * json) :=
  [("object_kind", JStr "merge_request"); ("user", JObj [("username", JStr "ana")]);
   ("project", JObj [("id", JInt 42); ("path_with_namespace", JStr "g/p")]);
   ("object_attributes", JObj [("iid", JStr "7"); ("last_commit", JObj [("id", JStr "abc")])])].
Example normalize_mr :
  match ev ← normalize_webhook (fun _ => "?") gitlab_mr_payload [("X-Gitlab-Event-UUID", "u1")]
               (Build_ChannelConfig "mr" CT_webhook 1 (Some WS_gitlab) None None None
                  (Some (Build_WebhookBlock (Build_WebhookAuthBlock Auth_none None "") None (Some "bot") None false))
                  None None None None None);
        Ok (option_map ev_context ev) with
  | Ok c => c
  | Err _ => None
  end = Some [("gitlab", JObj [("projectId", JStr "42"); ("mergeRequestIid", JStr "7");
                               ("projectPath", JStr "g/p"); ("headSha", JStr "abc")])].
Proof. reflexivity. Qed.

(** ** Authentication fails closed *)

(** A webhook request is authenticated exactly when the channel asks for no authentication,
    or the configured secret resolves to a non-empty value and the request carries it (or the
    HMAC-SHA256 of the raw body under it, bare or after [sha256=]); a missing alias, variable
    or header never authenticates. *)
Theorem verify_webhook_auth_spec environ auth headers body :
  let secret := _resolve_env_secret environ (wa_env auth) in
  verify_webhook_auth environ auth headers body = true <->
  match wa_type auth with
  | Auth_none => True
  | Auth_gitlab_token => secret <> "" /\ header_or_empty headers "x-gitlab-token" = secret
  | Auth_header_token => secret <> "" /\ header_or_empty headers (lower (wa_header auth)) = secret
  | Auth_hmac =>
      let signature := header_or_empty headers "x-hub-signature-256" in
      secret <> ""
      /\ (signature = "sha256=" +:+ hmac_hex secret body
          \/ (signature = hmac_hex secret body /\ strip_prefix "sha256=" signature = None))
  end.
Proof.
  cbv zeta. unfold verify_webhook_auth. set (secret := _resolve_env_secret environ (wa_env auth)).
  assert (Htok : forall h, verify_header_token environ h (wa_env auth) = true <-> secret <> "" /\ h = secret).
  { intros h. unfold verify_header_token. fold secret. cbv zeta.
    destruct (truthy h) eqn:Eh, (truthy secret) eqn:Es; cbn [negb orb];
      rewrite ?truthy_true, ?truthy_false in *; rewrite ?String.eqb_eq; naive_solver. }
  destruct (wa_type auth); try apply Htok; [|done].
  unfold verify_hmac. fold secret. cbv zeta. set (sg := header_or_empty headers "x-hub-signature-256").
  destruct (truthy sg) eqn:Eh, (truthy secret) eqn:Es; cbn [negb];
    rewrite ?truthy_true, ?truthy_false in *.
  - rewrite String.eqb_eq. destruct (strip_prefix "sha256=" sg) as [r|] eqn:Ep; simpl.
    + assert (Hsg : sg = "sha256=" +:+ r) by (by apply strip_prefix_eq). split.
      * intros ->. split; [done|]. by left.
      * intros [_ [H|[_ H]]]; [|done]. rewrite Hsg in H. by apply str_app_inj_l in H.
    + split; [intros ->; split; [done|by right]|].
      intros [_ [H|[H _]]]; [|done]. apply strip_prefix_eq in H. congruence.
  - naive_solver.
  - split; [done|]. intros [_ Hs]. exfalso.
    assert (Hlen : String.length (hmac_hex secret body) = 64)
      by (unfold hmac_hex, hmac_digest; by rewrite hex_length, sha256_digest_length).
    destruct Hs as [H|[H _]]; apply (f_equal String.length) in H;
      rewrite ?str_app_length, Hlen, Eh in H; simpl in H; lia.
  - naive_solver.
Qed.

(** ** What normalization lets through *)

Section normalize_facts.
Context (container_repr : json -> string).

Lemma _build_some payload headers ch wh ty ctx ev :
  _build container_repr payload headers ch wh ty ctx = Ok (Some ev) ->
  ev_context ev = [("gitlab", JObj ctx)] /\ ev_source ev = "gitlab" /\ ev_channel ev = ch_name ch
  /\ ev_type ev = ty /\ ev_id ev <> ""
  /\ _event_id headers = Ok (ev_id ev)
  /\ _gitlab_actor container_repr payload = Ok (ev_actor ev)
  /\ (forall bot, wh_bot_username wh = Some bot -> bot <> "" -> ev_actor ev <> bot)
  /\ (forall us, wh_trigger_users wh = Some us -> In (ev_actor ev) us).
Proof.
  unfold _build. intros H. apply bind_ok in H as (actor & Ha & H). cbv zeta in H.
  match type of H with (if ?b then _ else _) = _ => destruct b eqn:Eb end; [done|].
  match type of H with (if ?b then _ else _) = _ => destruct b eqn:Et end; [done|].
  apply bind_ok in H as (i & Hi & [= <-]). simpl. split_and!; try done.
  - unfold _event_id in Hi. cbv zeta in Hi.
    match type of Hi with (if ?b then _ else _) = _ => destruct b eqn:E end; [|done].
    simplify_eq. by apply truthy_true.
  - intros bot E Hb ->. rewrite E in Eb. simpl in Eb.
    by rewrite (proj2 (truthy_true _) Hb), String.eqb_refl in Eb.
  - intros us E. rewrite E in Et. apply negb_false_iff in Et.
    unfold in_strs in Et. apply existsb_exists in Et as (x & Hx & Eq).
    apply String.eqb_eq in Eq. congruence.
Qed.

(** The GitLab context a routable event carries. *)
Inductive gitlab_target : list (string * json) -> string -> string -> string -> Prop :=
  | target_mr pid iid rest :
      gitlab_target (("projectId", JStr pid) :: ("mergeRequestIid", JStr iid) :: rest) pid "mr:" iid
  | target_issue pid iid rest :
      assoc "mergeRequestIid" rest = None ->
      gitlab_target (("projectId", JStr pid) :: ("issueIid", JStr iid) :: rest) pid "issue:" iid.

Lemma path_fields_shape body l :
  _project_path_fields container_repr body = Ok l -> l = [] \/ exists p, l = [("projectPath", JStr p)].
Proof.
  unfold _project_path_fields. intros H. apply bind_ok in H as (? & _ & H). cbv zeta in H.
  destruct (truthy _); simplify_eq; eauto.
Qed.

Lemma mr_context_target payload c ctx :
  mr_context container_repr payload c = Ok ctx -> exists pid iid, gitlab_target ctx pid "mr:" iid.
Proof.
  unfold mr_context. intros H. apply bind_ok in H as (pid & _ & H).
  apply bind_ok in H as (iid & _ & H). apply bind_ok in H as (l & _ & H).
  apply bind_ok in H as (sha & _ & [= <-]). exists pid, iid. constructor.
Qed.

Lemma issue_context_target payload c ctx :
  issue_context container_repr payload c = Ok ctx -> exists pid iid, gitlab_target ctx pid "issue:" iid.
Proof.
  unfold issue_context. intros H. apply bind_ok in H as (pid & _ & H).
  apply bind_ok in H as (iid & _ & H). apply bind_ok in H as (l & Hl & [= <-]).
  exists pid, iid. constructor. by destruct (path_fields_shape _ _ Hl) as [->|[p ->]].
Qed.

(** Every event of a conversational (non-script) GitLab channel targets one merge request or
    one issue, and an issue only when the channel takes issues. *)
Lemma normalize_gitlab_target payload headers ch wh ev :
  ch_webhook ch = Some wh -> ch_type ch <> CT_webhook_script ->
  normalize_gitlab container_repr payload headers ch = Ok (Some ev) ->
  exists ctx kind pid iid,
    _build container_repr payload headers ch wh (ev_type ev) ctx = Ok (Some ev)
    /\ gitlab_target ctx pid kind iid
    /\ (wh_merge_requests_only wh = true -> kind = "mr:").
Proof.
  unfold normalize_gitlab. intros -> Ht H. cbv zeta in H.
  assert (Hb : forall ty ctx pid kind iid,
    _build container_repr payload headers ch wh ty ctx = Ok (Some ev) -> gitlab_target ctx pid kind iid ->
    (wh_merge_requests_only wh = true -> kind = "mr:") ->
    exists ctx kind pid iid, _build container_repr payload headers ch wh (ev_type ev) ctx = Ok (Some ev)
      /\ gitlab_target ctx pid kind iid /\ (wh_merge_requests_only wh = true -> kind = "mr:")).
  { intros ty ctx pid kind iid Hbuild Htgt Hk. exists ctx, kind, pid, iid.
    assert (E := _build_some _ _ _ _ _ _ _ Hbuild). destruct E as (_ & _ & _ & -> & _). done. }
  destruct (_ && _); [|destruct (_ && _); [|destruct (_ && _)]].
  - apply bind_ok in H as (ctx & Hc & H). apply mr_context_target in Hc as (? & ? & ?). eauto.
  - destruct (wh_merge_requests_only wh) eqn:Em; [done|].
    apply bind_ok in H as (ctx & Hc & H). apply issue_context_target in Hc as (? & ? & ?).
    eapply Hb; eauto. done.
  - unfold normalize_note in H. cbv zeta in H. apply bind_ok in H as (sys & _ & H).
    destruct (json_truthy sys); [done|]. apply bind_ok in H as (nt & _ & H).
    destruct (_ && _); [|destruct (_ && _); [|done]].
    + apply bind_ok in H as (ctx & Hc & H). apply mr_context_target in Hc as (? & ? & ?). eauto.
    + destruct (wh_merge_requests_only wh) eqn:Em; [done|].
      apply bind_ok in H as (ctx & Hc & H). apply issue_context_target in Hc as (? & ? & ?).
      eapply Hb; eauto. done.
  - rewrite bool_decide_false in H by done. done.
Qed.
End normalize_facts.

(** A GitLab event that passes normalization carries a non-empty delivery id taken from the
    request (never generated), was not authored by the configured bot, comes from an allowed
    actor when an allowlist is set, and on a conversational channel targets exactly one merge
    request or, unless the channel is restricted to merge requests, one issue. *)
Theorem normalize_gitlab_guards container_repr payload headers ch wh ev :
  ch_webhook ch = Some wh -> ch_type ch <> CT_webhook_script ->
  normalize_gitlab container_repr payload headers ch = Ok (Some ev) ->
  ev_id ev <> "" /\ _event_id headers = Ok (ev_id ev)
  /\ (forall bot, wh_bot_username wh = Some bot -> bot <> "" -> ev_actor ev <> bot)
  /\ (forall us, wh_trigger_users wh = Some us -> In (ev_actor ev) us)
  /\ exists ctx kind pid iid,
       ev_context ev = [("gitlab", JObj ctx)] /\ gitlab_target ctx pid kind iid
       /\ (wh_merge_requests_only wh = true -> kind = "mr:").
Proof.
  intros Hw Ht H. destruct (normalize_gitlab_target _ _ _ _ _ _ Hw Ht H) as (ctx & kind & pid & iid & Hb & Htg & Hk).
  destruct (_build_some _ _ _ _ _ _ _ _ Hb) as (Hc & _ & _ & _ & Hi & He & _ & Hbot & Hus).
  split_and!; try done. by exists ctx, kind, pid, iid.
Qed.

Definition sample_gitlab_channel : ChannelConfig :=
  Build_ChannelConfig "mr" CT_webhook 1 (Some WS_gitlab) None None None
    (Some (Build_WebhookBlock (Build_WebhookAuthBlock Auth_none None "") None (Some "bot") (Some ["ana"]) true))
    None None None None None.
Definition sample_gitlab_event : Event :=
  {| ev_id := "u1"; ev_channel := "mr"; ev_type := "merge_request"; ev_source := "gitlab";
     ev_payload := gitlab_mr_payload;
     ev_context := [("gitlab", JObj [("projectId", JStr "42"); ("mergeRequestIid", JStr "7");
                                     ("projectPath", JStr "g/p"); ("headSha", JStr "abc")])];
     ev_actor := "ana" |}.

Lemma normalize_gitlab_guards_witness :
  normalize_gitlab (fun _ => "?") gitlab_mr_payload [("x-gitlab-event-uuid", "u1")] sample_gitlab_channel
    = Ok (Some sample_gitlab_event)
  /\ In "ana" ["ana"].
Proof.
  split; [reflexivity|].
  destruct (normalize_gitlab_guards (fun _ => "?") gitlab_mr_payload [("x-gitlab-event-uuid", "u1")]
    sample_gitlab_channel _ sample_gitlab_event eq_refl ltac:(discriminate) eq_refl) as (_ & _ & _ & Hus & _).
  exact (Hus ["ana"] eq_refl).
Defined.
