(* ===== verification/Routing.v ===== *)
(** * channels/routing.py: event -> workspace and session keys

    Adapter defaults, template overrides and the [workspaceKey: session] keyword. *)

From S2P Require Import Prelude Sha256 PyJson Canonical Config ConfigFacts Templating Channels.
From Stdlib Require Import Ascii.

Definition SESSION_WORKSPACE : string := "session".

(** [_DOMAIN[channel.type]] *)
Definition _DOMAIN (t : channel_type) : result exn string :=
  match t with
  | CT_webhook => Ok "webhook"
  | CT_queue => Ok "queue"
  | CT_a2a => Ok "a2a"
  | CT_cron => Ok "cron"
  | CT_webhook_script => Err KeyError
  end.

(** [{**base, **over}]: a key of [over] keeps its place in [base] when it has one. *)
Fixpoint dict_set {A} (k : string) (v : A) (d : list (string * A)) : list (string * A) :=
  match d with
  | [] => [(k, v)]
  | (k', v') :: d => if String.eqb k k' then (k', v) :: d else (k', v') :: dict_set k v d
  end.
Definition dict_update {A} (base over : list (string * A)) : list (string * A) :=
  fold_left (fun d kv => dict_set (fst kv) (snd kv) d) over base.

Definition _routing_context (event : Event) : json :=
  JObj [("event", JObj (dict_update [("id", JStr (ev_id event)); ("channel", JStr (ev_channel event));
                                     ("type", JStr (ev_type event))] (ev_context event)));
        ("payload", JObj (ev_payload event))].

(** [event.context.get(name, {}).get(field)] *)
Definition ctx_get (event : Event) (name field : string) : result exn json :=
  py_get (from_option id (JObj []) (assoc name (ev_context event))) field.

Section routing.
Context (container_repr : json -> string).
Local Abbreviation str_of := (py_str container_repr).

Definition _default_workspace_key (event : Event) (channel : ChannelConfig) : result exn string :=
  if String.eqb (ev_source event) "gitlab" then
    project_id ← ctx_get event "gitlab" "projectId";
    match project_id with
    | JNull => Err RoutingError
    | _ => Ok ("gitlab:" +:+ ch_name channel +:+ ":" +:+ str_of project_id)
    end
  else if String.eqb (ev_source event) "github" then
    repo ← ctx_get event "github" "repo";
    match repo with
    | JStr repo => if truthy (strip repo) then Ok ("github:" +:+ ch_name channel +:+ ":" +:+ repo)
                   else Err RoutingError
    | _ => Err RoutingError
    end
  else
    domain ← _DOMAIN (ch_type channel);
    Ok (domain +:+ ":" +:+ ch_name channel).

(** [key in gitlab_ctx] on the context value. *)
Definition ctx_has (c : json) (k : string) : result exn (option json) :=
  match c with
  | JObj d => Ok (assoc k d)
  | _ => Err AttributeError
  end.

Definition _default_session_key (event : Event) (channel : ChannelConfig) : result exn string :=
  if String.eqb (ev_source event) "gitlab" then
    let gitlab_ctx := from_option id (JObj []) (assoc "gitlab" (ev_context event)) in
    mr ← ctx_has gitlab_ctx "mergeRequestIid";
    issue ← ctx_has gitlab_ctx "issueIid";
    match mr, issue with
    | Some iid, _ => Ok ("mr:" +:+ str_of iid)
    | None, Some iid => Ok ("issue:" +:+ str_of iid)
    | None, None => Err RoutingError
    end
  else if String.eqb (ev_source event) "github" then
    pr_number ← ctx_get event "github" "prNumber";
    match pr_number with
    | JInt z => if (z <=? 0)%Z then Err RoutingError else Ok ("pr:" +:+ str_of_int z)
    | _ => Err RoutingError
    end
  else match ch_type channel with
  | CT_cron =>
      tick ← ctx_get event "cron" "scheduledTick";
      if json_truthy tick then
        match tick with JStr tick => Ok tick | _ => Err TypeError end
      else Err RoutingError
  | CT_a2a =>
      task_id ← ctx_get event "a2a" "taskId";
      context_id ← ctx_get event "a2a" "contextId";
      match json_or (json_or context_id task_id) (JStr "") with JStr s => Ok s | _ => Err TypeError end
  | _ => Err RoutingError
  end.

Definition _render_override (template : string) (context : json) : result exn string :=
  match render_routing_template template context with
  | Err UnresolvedTemplateError => Err RoutingError
  | Err e => Err e
  | Ok rendered => if truthy rendered then Ok rendered else Err RoutingError
  end.

Definition rate_limit_keys (channel : ChannelConfig) : list string :=
  map rlk_key (from_option rl_per_key [] (ch_rate_limit channel)).

Definition route (event : Event) (channel : ChannelConfig) : result exn RoutedEvent :=
  session_key ← (match routing_session channel with
                 | Some t => _render_override t (_routing_context event)
                 | None => _default_session_key event channel
                 end);
  workspace_key ← (match routing_workspace channel with
                   | Some t =>
                       if String.eqb t SESSION_WORKSPACE then
                         w ← _default_workspace_key event channel;
                         Ok (dumps_strs true [w; session_key])
                       else _render_override t (_routing_context event)
                   | None => _default_workspace_key event channel
                   end);
  rate_keys ← mapM_res (fun key => _render_override key (_routing_context event)) (rate_limit_keys channel);
  Ok {| re_event := event; re_workspace_key := workspace_key; re_session_key := session_key;
        re_rate_keys := rate_keys |}.

(** ** Properties *)

Lemma _render_override_spec t c :
  match _render_override t c with Ok s => s <> "" | Err e => e = RoutingError end.
Proof.
  unfold _render_override. pose proof (render_total t c) as H.
  destruct (render_routing_template t c) as [s|e]; [|by subst].
  destruct (truthy s) eqn:E; [by apply truthy_true|done].
Qed.

(** The parts of a routed event. *)
Lemma route_ok ev ch r :
  route ev ch = Ok r ->
  re_event r = ev
  /\ (match routing_session ch with
      | Some t => _render_override t (_routing_context ev)
      | None => _default_session_key ev ch end) = Ok (re_session_key r)
  /\ (match routing_workspace ch with
      | Some t => if String.eqb t SESSION_WORKSPACE
                  then dumps_strs true ∘ (fun w => [w; re_session_key r]) <$> _default_workspace_key ev ch
                  else _render_override t (_routing_context ev)
      | None => _default_workspace_key ev ch end) = Ok (re_workspace_key r)
  /\ mapM_res (fun key => _render_override key (_routing_context ev)) (rate_limit_keys ch)
     = Ok (re_rate_keys r).
Proof.
  unfold route. intros H. apply bind_ok in H as (s & Hs & H). apply bind_ok in H as (w & Hw & H).
  apply bind_ok in H as (k & Hk & [= <-]). simpl. split_and!; try done.
Qed.
End routing.

(** With [workspaceKey: session] every session has its own Workspace: two routed events of
    such channels get the same Workspace key only if they agree on the default Workspace and on
    the session key. *)
Theorem session_workspace_injective repr ev1 ch1 r1 ev2 ch2 r2 :
  routing_workspace ch1 = Some SESSION_WORKSPACE -> routing_workspace ch2 = Some SESSION_WORKSPACE ->
  route repr ev1 ch1 = Ok r1 -> route repr ev2 ch2 = Ok r2 ->
  re_workspace_key r1 = re_workspace_key r2 ->
  re_session_key r1 = re_session_key r2
  /\ _default_workspace_key repr ev1 ch1 = _default_workspace_key repr ev2 ch2.
Proof.
  intros Hk1 Hk2 H1 H2 Heq. apply route_ok in H1 as (_ & _ & Hw1 & _).
  apply route_ok in H2 as (_ & _ & Hw2 & _). rewrite Hk1 in Hw1. rewrite Hk2 in Hw2.
  rewrite String.eqb_refl in Hw1, Hw2.
  destruct (_default_workspace_key repr ev1 ch1), (_default_workspace_key repr ev2 ch2); try done.
  simpl in *. rewrite <- Heq in Hw2. rewrite <- Hw2 in Hw1.
  assert (Hd : dumps_strs true [a; re_session_key r1] = dumps_strs true [a0; re_session_key r2]) by congruence.
  apply dumps_strs_inj in Hd. split; congruence.
Qed.

Definition session_channel : ChannelConfig :=
  Build_ChannelConfig "mr" CT_webhook 1 (Some WS_gitlab)
    (Some (Build_RoutingBlock (Some "session") None)) None None
    (ch_webhook sample_gitlab_channel) None None None None None.
Definition session_routed : RoutedEvent :=
  {| re_event := sample_gitlab_event;
     re_workspace_key := "[" +:+ quote +:+ "gitlab:mr:42" +:+ quote +:+ "," +:+ quote +:+ "mr:7" +:+ quote +:+ "]";
     re_session_key := "mr:7"; re_rate_keys := [] |}.

Lemma session_workspace_injective_witness :
  route (fun _ => "?") sample_gitlab_event session_channel = Ok session_routed
  /\ re_session_key session_routed = re_session_key session_routed.
Proof.
  split; [reflexivity|].
  exact (proj1 (session_workspace_injective (fun _ => "?") sample_gitlab_event session_channel session_routed
    sample_gitlab_event session_channel session_routed eq_refl eq_refl eq_refl eq_refl eq_refl)).
Defined.

(** The keys the GitLab adapter's events route to by default. *)
Lemma gitlab_default_keys repr ev ch ctx pid kind iid :
  ev_source ev = "gitlab" -> ev_context ev = [("gitlab", JObj ctx)] -> gitlab_target ctx pid kind iid ->
  _default_workspace_key repr ev ch = Ok ("gitlab:" +:+ ch_name ch +:+ ":" +:+ pid)
  /\ _default_session_key repr ev ch = Ok (kind +:+ iid).
Proof.
  intros Hs Hc Ht. unfold _default_workspace_key, _default_session_key, ctx_get.
  rewrite Hs, Hc. destruct Ht as [|? ? ? Hn]; simpl; [done|]. by rewrite Hn.
Qed.

Lemma github_default_keys repr ev ch payload headers r :
  ch_source ch = Some WS_github ->
  normalize_webhook r payload headers ch = Ok (Some ev) ->
  exists repo n, (0 < n)%Z /\ repo <> ""
    /\ _default_workspace_key repr ev ch = Ok ("github:" +:+ ch_name ch +:+ ":" +:+ repo)
    /\ _default_session_key repr ev ch = Ok ("pr:" +:+ str_of_int n).
Proof.
  unfold normalize_webhook. intros -> H. cbv zeta in H.
  destruct (negb (truthy _)); [done|]. apply bind_ok in H as ([repo n] & Hp & [= <-]).
  unfold _parse_github in Hp. apply bind_ok in Hp as ([rv raw] & _ & Hp).
  destruct rv as [| | | |rs| |]; try done. destruct (truthy (strip rs)) eqn:Er; [|done]. cbn [negb] in Hp.
  assert (Hn : repo = rs /\ (0 < n)%Z).
  { destruct raw; try done; apply bind_ok in Hp as (m & _ & Hp);
      (destruct (Z.leb_spec m 0); [done|]); by simplify_eq. }
  destruct Hn as [-> Hn]. exists rs, n. split_and!; try done.
  - intros ->. done.
  - unfold _default_workspace_key, ctx_get. simpl. by rewrite Er.
  - unfold _default_session_key, ctx_get. simpl. by destruct (Z.leb_spec n 0); [lia|].
Qed.

(** Routing cannot fail on its own adapters: an event that a webhook channel accepted by
    the configuration schema normalizes, routed without overrides or rate-limit keys, always
    gets a Workspace and a session key, of the documented forms. *)
Theorem accepted_webhook_routes zone repr payload headers ch ev :
  ChannelConfig_check zone ch = Ok tt -> ch_type ch = CT_webhook ->
  routing_workspace ch = None -> rate_limit_keys ch = [] ->
  (routing_session ch = None \/ ch_source ch = Some WS_generic) ->
  normalize_webhook repr payload headers ch = Ok (Some ev) ->
  match route repr ev ch with
  | Ok r => re_session_key r <> "" /\
      match ch_source ch with
      | Some WS_gitlab => exists pid kind iid, re_workspace_key r = "gitlab:" +:+ ch_name ch +:+ ":" +:+ pid
                            /\ re_session_key r = kind +:+ iid /\ (kind = "mr:" \/ kind = "issue:")
      | Some WS_github => exists repo n, re_workspace_key r = "github:" +:+ ch_name ch +:+ ":" +:+ repo
                            /\ re_session_key r = "pr:" +:+ str_of_int n /\ (0 < n)%Z
      | Some WS_generic => re_workspace_key r = "webhook:" +:+ ch_name ch
      | None => False
      end
  | Err e => e = RoutingError /\ ch_source ch = Some WS_generic /\ present (routing_session ch) = true
  end.
Proof.
  intros Hch Ht Hrw Hrk Hrs Hn.
  assert (Hcoh : _check_type_block_coherence ch = Ok tt)
    by (unfold ChannelConfig_check in Hch; by peel Hch).
  assert (Hsrc : present (ch_source ch) = true /\ present (ch_webhook ch) = true
                 /\ (ch_source ch = Some WS_generic -> present (routing_session ch) = true)).
  { unfold _check_type_block_coherence in Hcoh. rewrite Ht in Hcoh. simpl in Hcoh.
    apply bind_ok in Hcoh as ([] & Hb & Hcoh). apply require_ok in Hb.
    apply bind_ok in Hcoh as ([] & Hs & Hcoh). apply bind_ok in Hcoh as ([] & _ & Hcoh).
    apply bind_ok in Hcoh as ([] & Hses & _). unfold needs_session, source_is in Hses. rewrite Ht in Hses.
    destruct (ch_source ch) as [src|]; [|done]. split_and!; try done.
    intros [= ->]. destruct (present (routing_session ch)); done. }
  destruct Hsrc as (Hsrc & Hwb & Hses). unfold route. rewrite Hrw, Hrk.
  destruct (ch_source ch) as [[]|] eqn:Es; [..|done].
  - destruct Hrs as [Hrs|]; [|done]. rewrite Hrs.
    destruct (ch_webhook ch) as [wh|] eqn:Ew; [|done]. unfold normalize_webhook in Hn. rewrite Es in Hn.
    destruct (normalize_gitlab_target repr payload headers ch wh ev) as (ctx & kind & pid & iid & Hb & Htg & _);
      [done|by rewrite Ht|done|].
    destruct (_build_some _ _ _ _ _ _ _ _ Hb) as (Hc & Hs & _).
    destruct (gitlab_default_keys repr ev ch ctx pid kind iid Hs Hc Htg) as [-> ->]. simpl.
    split; [by inversion Htg; subst|]. exists pid, kind, iid. split_and!; try done.
    inversion Htg; auto.
  - destruct Hrs as [Hrs|]; [|done]. rewrite Hrs.
    destruct (github_default_keys repr ev ch payload headers repr Es Hn) as (repo & n & Hp & _ & -> & ->).
    simpl. split; [done|]. exists repo, n. done.
  - specialize (Hses eq_refl). destruct (routing_session ch) as [t|]; [|done].
    assert (Hev : ev_source ev = "generic").
    { unfold normalize_webhook in Hn. rewrite Es in Hn. cbv zeta in Hn.
      destruct (negb (truthy _)); by simplify_eq. }
    pose proof (_render_override_spec t (_routing_context ev)) as Hr.
    destruct (_render_override t (_routing_context ev)) as [s|e]; [|by subst].
    simpl. unfold _default_workspace_key. rewrite Hev, Ht. simpl. done.
Qed.

Lemma accepted_webhook_routes_witness :
  ChannelConfig_check (fun _ => true) ConfigFacts.sample_channel = Ok tt
  /\ exists r, route (fun _ => "?") sample_gitlab_event ConfigFacts.sample_channel = Ok r
       /\ re_session_key r <> "".
Proof.
  split; [vm_compute; reflexivity|].
  pose proof (accepted_webhook_routes (fun _ => true) (fun _ => "?") gitlab_mr_payload
    [("x-gitlab-event-uuid", "u1")] ConfigFacts.sample_channel sample_gitlab_event
    ltac:(vm_compute; reflexivity) eq_refl eq_refl eq_refl (or_introl eq_refl) eq_refl) as H.
  destruct (route (fun _ => "?") sample_gitlab_event ConfigFacts.sample_channel) as [r|e].
  - exists r. split; [reflexivity|exact (proj1 H)].
  - destruct H as (_ & H & _). discriminate H.
Defined.
