(* ===== verification/Admission.v ===== *)
(** * harness/admission.py: dedup, capacity and FIFO lanes

    The state of one [Admission] object and one definition per operation, each an atomic
    segment of the asyncio program (the code between two awaits).  Tickets are objects with an
    identity, because the code compares them with [is]; futures, semaphores, lanes and monitor
    tasks are explicit.  Time is the injected clock, in microseconds. *)

From S2P Require Import Prelude Sha256 PyJson Refs Config Channels.
Local Open Scope Z_scope.

(** ** Data *)

Definition seconds (n : Z) : Z := 1000000 * n.
(** [_RATE_WINDOW = timedelta(hours=1)] *)
Definition _RATE_WINDOW : Z := seconds 3600.

(** A future: pending, a result, an exception, or cancelled by a caller. *)
Inductive fut := FPending | FResult | FExc (e : exn) | FCancelled.
Definition fut_done (f : fut) : bool := match f with FPending => false | _ => true end.
(** [if not f.done(): f.set_exception(e)] and [... f.set_result(...)] *)
Definition fut_fail (e : exn) (f : fut) : fut := if fut_done f then f else FExc e.
Definition fut_set (f : fut) : fut := if fut_done f then f else FResult.

(** [AdmissionTicket] and [ScriptAdmissionTicket]. *)
Inductive tkind :=
  | Agent (workspace_ref session_ref : string) (ev : RoutedEvent)
  | Script (ev : Event).
Record tobj :=
  { t_invocation_id : string; t_kind : tkind; t_deadline_at : Z; t_started : fut; t_completed : fut }.

(** [RecoveredRun] *)
Record rrun :=
  { r_channel : string; r_workspace_ref : string; r_session_ref : string; r_config_version : string;
    r_deadline_at : Z; r_instance_id : string; r_run_id : option string; r_completed : fut }.

Record ChannelRateLimit := { crl_max_per_hour : option Z; crl_per_key : list Z }.

(** The constructor's arguments; windows and deadlines in microseconds. *)
Record cfg :=
  { c_namespace : string; c_agent_uid : string; c_max_concurrent_invocations : Z;
    c_max_queued_total : Z; c_idempotency_window : Z; c_max_invocation : Z;
    c_workspace_max_concurrent_sessions : Z; c_channel_concurrency : gmap string Z;
    c_max_concurrent_scripts : option Z; c_rate_limits : gmap string ChannelRateLimit;
    c_repr : json -> string (* repr() of a list or dict, which only a malformed project id needs *) }.

(** A lane: the queue of (dedup key, ticket), whether its consumer has taken an entry yet, and
    the ticket [_run_ticket] is processing with the point it awaits at. *)
Inductive phase := Acquiring | Permitted | Delivering.
#[export] Instance phase_eq_dec : EqDecision phase.
Proof. solve_decision. Defined.
Record running := { run_key : string; run_id : nat; run_phase : phase }.
Record lane := { l_queue : list (string * nat); l_begun : bool; l_run : option running }.

Record st := mkst {
  closed : bool;                                  (* _closed *)
  clock : Z;                                      (* the injected clock, in microseconds *)
  next_id : nat;                                  (* identity of the next ticket object *)
  objs : gmap nat tobj;                           (* every ticket object *)
  tickets : gmap string nat;                      (* _tickets *)
  recovered : gmap string rrun;                   (* _recovered *)
  recovery_tasks : gset string;                   (* _recovery_tasks *)
  queued_total : Z;                               (* _queued_total *)
  released : gset string;                         (* _released *)
  completed_at : gmap string Z;                   (* _completed_at *)
  monitors : gmap string nat;                     (* _monitors, by the ticket each one watches *)
  monitor_expired : gset string;                  (* _monitor_expired *)
  lanes : gmap string lane;                       (* _lanes *)
  global_val : Z;                                 (* _global_sem._value *)
  script_val : Z;                                 (* _script_sem._value, when it is a pool of its own *)
  channel_sems : gmap string (Z * Z);             (* _channel_sems: value and capacity *)
  workspace_sems : gmap string (Z * Z);           (* _workspace_sems *)
  rate_admits : gmap (list string) (list Z);      (* _rate_admits *)
  alarms : list string;                           (* alarms raised, newest first *)
  delivered : list nat                           (* tickets handed to the runner, newest first *)
}.

Definition set_closed (v : bool) (s : st) : st :=
  mkst v (clock s) (next_id s) (objs s) (tickets s) (recovered s) (recovery_tasks s) (queued_total s) (released s) (completed_at s) (monitors s) (monitor_expired s) (lanes s) (global_val s) (script_val s) (channel_sems s) (workspace_sems s) (rate_admits s) (alarms s) (delivered s).
Definition set_clock (v : Z) (s : st) : st :=
  mkst (closed s) v (next_id s) (objs s) (tickets s) (recovered s) (recovery_tasks s) (queued_total s) (released s) (completed_at s) (monitors s) (monitor_expired s) (lanes s) (global_val s) (script_val s) (channel_sems s) (workspace_sems s) (rate_admits s) (alarms s) (delivered s).
Definition set_next_id (v : nat) (s : st) : st :=
  mkst (closed s) (clock s) v (objs s) (tickets s) (recovered s) (recovery_tasks s) (queued_total s) (released s) (completed_at s) (monitors s) (monitor_expired s) (lanes s) (global_val s) (script_val s) (channel_sems s) (workspace_sems s) (rate_admits s) (alarms s) (delivered s).
Definition set_objs (v : gmap nat tobj) (s : st) : st :=
  mkst (closed s) (clock s) (next_id s) v (tickets s) (recovered s) (recovery_tasks s) (queued_total s) (released s) (completed_at s) (monitors s) (monitor_expired s) (lanes s) (global_val s) (script_val s) (channel_sems s) (workspace_sems s) (rate_admits s) (alarms s) (delivered s).
Definition set_tickets (v : gmap string nat) (s : st) : st :=
  mkst (closed s) (clock s) (next_id s) (objs s) v (recovered s) (recovery_tasks s) (queued_total s) (released s) (completed_at s) (monitors s) (monitor_expired s) (lanes s) (global_val s) (script_val s) (channel_sems s) (workspace_sems s) (rate_admits s) (alarms s) (delivered s).
Definition set_recovered (v : gmap string rrun) (s : st) : st :=
  mkst (closed s) (clock s) (next_id s) (objs s) (tickets s) v (recovery_tasks s) (queued_total s) (released s) (completed_at s) (monitors s) (monitor_expired s) (lanes s) (global_val s) (script_val s) (channel_sems s) (workspace_sems s) (rate_admits s) (alarms s) (delivered s).
Definition set_recovery_tasks (v : gset string) (s : st) : st :=
  mkst (closed s) (clock s) (next_id s) (objs s) (tickets s) (recovered s) v (queued_total s) (released s) (completed_at s) (monitors s) (monitor_expired s) (lanes s) (global_val s) (script_val s) (channel_sems s) (workspace_sems s) (rate_admits s) (alarms s) (delivered s).
Definition set_queued_total (v : Z) (s : st) : st :=
  mkst (closed s) (clock s) (next_id s) (objs s) (tickets s) (recovered s) (recovery_tasks s) v (released s) (completed_at s) (monitors s) (monitor_expired s) (lanes s) (global_val s) (script_val s) (channel_sems s) (workspace_sems s) (rate_admits s) (alarms s) (delivered s).
Definition set_released (v : gset string) (s : st) : st :=
  mkst (closed s) (clock s) (next_id s) (objs s) (tickets s) (recovered s) (recovery_tasks s) (queued_total s) v (completed_at s) (monitors s) (monitor_expired s) (lanes s) (global_val s) (script_val s) (channel_sems s) (workspace_sems s) (rate_admits s) (alarms s) (delivered s).
Definition set_completed_at (v : gmap string Z) (s : st) : st :=
  mkst (closed s) (clock s) (next_id s) (objs s) (tickets s) (recovered s) (recovery_tasks s) (queued_total s) (released s) v (monitors s) (monitor_expired s) (lanes s) (global_val s) (script_val s) (channel_sems s) (workspace_sems s) (rate_admits s) (alarms s) (delivered s).
Definition set_monitors (v : gmap string nat) (s : st) : st :=
  mkst (closed s) (clock s) (next_id s) (objs s) (tickets s) (recovered s) (recovery_tasks s) (queued_total s) (released s) (completed_at s) v (monitor_expired s) (lanes s) (global_val s) (script_val s) (channel_sems s) (workspace_sems s) (rate_admits s) (alarms s) (delivered s).
Definition set_monitor_expired (v : gset string) (s : st) : st :=
  mkst (closed s) (clock s) (next_id s) (objs s) (tickets s) (recovered s) (recovery_tasks s) (queued_total s) (released s) (completed_at s) (monitors s) v (lanes s) (global_val s) (script_val s) (channel_sems s) (workspace_sems s) (rate_admits s) (alarms s) (delivered s).
Definition set_lanes (v : gmap string lane) (s : st) : st :=
  mkst (closed s) (clock s) (next_id s) (objs s) (tickets s) (recovered s) (recovery_tasks s) (queued_total s) (released s) (completed_at s) (monitors s) (monitor_expired s) v (global_val s) (script_val s) (channel_sems s) (workspace_sems s) (rate_admits s) (alarms s) (delivered s).
Definition set_global_val (v : Z) (s : st) : st :=
  mkst (closed s) (clock s) (next_id s) (objs s) (tickets s) (recovered s) (recovery_tasks s) (queued_total s) (released s) (completed_at s) (monitors s) (monitor_expired s) (lanes s) v (script_val s) (channel_sems s) (workspace_sems s) (rate_admits s) (alarms s) (delivered s).
Definition set_script_val (v : Z) (s : st) : st :=
  mkst (closed s) (clock s) (next_id s) (objs s) (tickets s) (recovered s) (recovery_tasks s) (queued_total s) (released s) (completed_at s) (monitors s) (monitor_expired s) (lanes s) (global_val s) v (channel_sems s) (workspace_sems s) (rate_admits s) (alarms s) (delivered s).
Definition set_channel_sems (v : gmap string (Z * Z)) (s : st) : st :=
  mkst (closed s) (clock s) (next_id s) (objs s) (tickets s) (recovered s) (recovery_tasks s) (queued_total s) (released s) (completed_at s) (monitors s) (monitor_expired s) (lanes s) (global_val s) (script_val s) v (workspace_sems s) (rate_admits s) (alarms s) (delivered s).
Definition set_workspace_sems (v : gmap string (Z * Z)) (s : st) : st :=
  mkst (closed s) (clock s) (next_id s) (objs s) (tickets s) (recovered s) (recovery_tasks s) (queued_total s) (released s) (completed_at s) (monitors s) (monitor_expired s) (lanes s) (global_val s) (script_val s) (channel_sems s) v (rate_admits s) (alarms s) (delivered s).
Definition set_rate_admits (v : gmap (list string) (list Z)) (s : st) : st :=
  mkst (closed s) (clock s) (next_id s) (objs s) (tickets s) (recovered s) (recovery_tasks s) (queued_total s) (released s) (completed_at s) (monitors s) (monitor_expired s) (lanes s) (global_val s) (script_val s) (channel_sems s) (workspace_sems s) v (alarms s) (delivered s).
Definition set_alarms (v : list string) (s : st) : st :=
  mkst (closed s) (clock s) (next_id s) (objs s) (tickets s) (recovered s) (recovery_tasks s) (queued_total s) (released s) (completed_at s) (monitors s) (monitor_expired s) (lanes s) (global_val s) (script_val s) (channel_sems s) (workspace_sems s) (rate_admits s) v (delivered s).
Definition set_delivered (v : list nat) (s : st) : st :=
  mkst (closed s) (clock s) (next_id s) (objs s) (tickets s) (recovered s) (recovery_tasks s) (queued_total s) (released s) (completed_at s) (monitors s) (monitor_expired s) (lanes s) (global_val s) (script_val s) (channel_sems s) (workspace_sems s) (rate_admits s) (alarms s) v.

Definition init (c : cfg) (now : Z) : st :=
  mkst false now 0 ∅ ∅ ∅ ∅ 0 ∅ ∅ ∅ ∅ ∅ (c_max_concurrent_invocations c)
    (from_option id 0 (c_max_concurrent_scripts c)) ∅ ∅ ∅ [] [].

(** ** Tickets and futures *)

Definition t_channel (o : tobj) : string :=
  match t_kind o with Agent _ _ re => re_channel re | Script ev => ev_channel ev end.
Definition t_workspace (o : tobj) : option string :=
  match t_kind o with Agent w _ _ => Some w | Script _ => None end.
Definition t_session (o : tobj) : option string :=
  match t_kind o with Agent _ s _ => Some s | Script _ => None end.
Definition is_script (o : tobj) : bool := match t_kind o with Script _ => true | Agent _ _ _ => false end.

(** The script's project: [context.get("gitlab")], then [.get("projectId", "")], as text. *)
Definition script_project (c : cfg) (ev : Event) : string :=
  match assoc "gitlab" (ev_context ev) with
  | Some (JObj d) => py_str (c_repr c) (from_option id (JStr "") (assoc "projectId" d))
  | _ => ""
  end.
Definition lane_key_of (c : cfg) (o : tobj) : string :=
  match t_kind o with
  | Agent _ s _ => s
  | Script ev => "script:" +:+ invocation_digest (c_agent_uid c) (ev_channel ev) (script_project c ev)
  end.

Definition upd_obj (f : tobj -> tobj) (g : nat) (s : st) : st := set_objs (alter f g (objs s)) s.
Definition obj_futs (fs fc : fut -> fut) (o : tobj) : tobj :=
  {| t_invocation_id := t_invocation_id o; t_kind := t_kind o; t_deadline_at := t_deadline_at o;
     t_started := fs (t_started o); t_completed := fc (t_completed o) |}.

(** [ticket.mark_started()] *)
Definition mark_started (g : nat) (s : st) : st := upd_obj (obj_futs fut_set id) g s.
(** [_fail(ticket, exc)] *)
Definition _fail (g : nat) (e : exn) (s : st) : st := upd_obj (obj_futs (fut_fail e) (fut_fail e)) g s.
Definition alarm (reason : string) (s : st) : st := set_alarms (reason :: alarms s) s.
(** [_expire(ticket, reason)] *)
Definition _expire (g : nat) (reason : string) (s : st) : st := alarm reason (_fail g TimeoutError s).

(** ** Bookkeeping of dedup keys *)

Definition _forget (k : string) (s : st) : st :=
  set_monitor_expired (monitor_expired s ∖ {[k]})
  (set_monitors (delete k (monitors s))
  (set_released (released s ∖ {[k]})
  (set_completed_at (delete k (completed_at s))
  (set_recovered (delete k (recovered s))
  (set_tickets (delete k (tickets s)) s))))).

Definition _release_capacity_once (k : string) (s : st) : st :=
  if decide (k ∈ released s) then s
  else set_completed_at (<[k := clock s]> (completed_at s))
       (set_queued_total (queued_total s - 1)
       (set_released ({[k]} ∪ released s) s)).

(** [_cancel_monitor(dedup_key, ticket)]: guarded by the ownership check. *)
Definition _cancel_monitor (k : string) (g : nat) (s : st) : st * bool :=
  if decide (tickets s !! k = Some g) then
    (set_monitor_expired (monitor_expired s ∖ {[k]}) (set_monitors (delete k (monitors s)) s),
     bool_decide (k ∈ monitor_expired s))
  else (s, false).

Definition _retire (k : string) (g : nat) (s : st) : st :=
  _release_capacity_once k (fst (_cancel_monitor k g s)).

(** Elapsed since completion, for a released key. *)
Definition window_elapsed (c : cfg) (s : st) (k : string) : bool :=
  match completed_at s !! k with
  | Some t => c_idempotency_window c <=? clock s - t
  | None => true
  end.

(** The record [_existing_ticket] finds: an ordinary ticket or a recovered run. *)
Inductive record := RTicket (g : nat) | RRecovered (k : string).
Definition find_record (k : string) (s : st) : option record :=
  match tickets s !! k with
  | Some g => Some (RTicket g)
  | None => match recovered s !! k with Some _ => Some (RRecovered k) | None => None end
  end.

(** [_existing_ticket(dedup_key)] *)
Definition _existing_ticket (c : cfg) (k : string) (s : st) : st * option record :=
  match find_record k s with
  | None => (s, None)
  | Some r =>
      if decide (k ∈ released s) then
        match completed_at s !! k with
        | Some t => if c_idempotency_window c <=? clock s - t then (_forget k s, None) else (s, Some r)
        | None => (s, Some r)
        end
      else (s, Some r)
  end.

(** ** Recovered runs *)

Definition live_recovered (s : st) : gmap string rrun := filter (fun kr => kr.1 ∉ released s) (recovered s).
Definition _recovered_count (P : rrun -> bool) (s : st) : Z :=
  Z.of_nat (size (filter (fun kr => P kr.2 = true) (live_recovered s))).
Definition on_channel (ch : string) (r : rrun) : bool := String.eqb (r_channel r) ch.
Definition on_workspace (w : string) (r : rrun) : bool := String.eqb (r_workspace_ref r) w.
Definition _recovered_owns_session (w se : string) (s : st) : bool :=
  0 <? _recovered_count (fun r => on_workspace w r && String.eqb (r_session_ref r) se) s.

Definition recovered_run (k : string) (s : st) : option rrun :=
  if decide (k ∈ released s) then None else recovered s !! k.

(** [has_work(workspace_ref, session_ref)] *)
Definition ticket_targets (w : string) (se : option string) (o : tobj) : bool :=
  match t_kind o with
  | Agent w' s' _ => String.eqb w' w && match se with None => true | Some x => String.eqb s' x end
  | Script _ => false
  end.
Definition has_work (w : string) (se : option string) (s : st) : bool :=
  existsb (fun kg => bool_decide (kg.1 ∉ released s)
                     && from_option (ticket_targets w se) false (objs s !! kg.2)) (map_to_list (tickets s))
  || (0 <? _recovered_count (fun r => on_workspace w r
                                && match se with None => true | Some x => String.eqb (r_session_ref r) x end) s).

(** ** Permit pools *)

Definition sem_get (cap : Z) (k : string) (m : gmap string (Z * Z)) : gmap string (Z * Z) :=
  match m !! k with Some _ => m | None => <[k := (cap, cap)]> m end.
Definition sem_value (k : string) (m : gmap string (Z * Z)) : Z := from_option fst 0 (m !! k).
Definition sem_add (d : Z) (k : string) (m : gmap string (Z * Z)) : gmap string (Z * Z) :=
  alter (fun vc => (vc.1 + d, vc.2)) k m.

Definition channel_cap (c : cfg) (ch : string) : Z :=
  from_option id (c_max_concurrent_invocations c) (c_channel_concurrency c !! ch).
(** [_channel_sem(channel)] and [_workspace_sem(workspace_ref)]: create on first use. *)
Definition _channel_sem (c : cfg) (ch : string) (s : st) : st :=
  set_channel_sems (sem_get (channel_cap c ch) ch (channel_sems s)) s.
Definition _workspace_sem (c : cfg) (w : string) (s : st) : st :=
  set_workspace_sems (sem_get (c_workspace_max_concurrent_sessions c) w (workspace_sems s)) s.

(** Take or give back ([d = -1] or [1]) the permits of a ticket: the global pool, or the script
    pool of a script when one is configured, the channel's and the Workspace's. *)
Definition own_pool (c : cfg) (o : tobj) : bool :=
  is_script o && match c_max_concurrent_scripts c with Some _ => true | None => false end.
Definition permits (c : cfg) (d : Z) (o : tobj) (s : st) : st :=
  let s := if own_pool c o then set_script_val (script_val s + d) s
           else set_global_val (global_val s + d) s in
  let s := set_channel_sems (sem_add d (t_channel o) (channel_sems s)) s in
  match t_workspace o with
  | Some w => set_workspace_sems (sem_add d w (workspace_sems s)) s
  | None => s
  end.

(** One iteration of [_acquire_all] or [_acquire_script] after its deadline check: whether every
    permit is available now.  A failed inner check rolls back what was taken, so only a full
    success changes a pool. *)
Definition can_acquire (c : cfg) (o : tobj) (s : st) : bool :=
  match t_kind o with
  | Agent w se _ =>
      negb (global_val s <=? _recovered_count (fun _ => true) s)
      && negb (sem_value (t_channel o) (channel_sems s) <=? _recovered_count (on_channel (t_channel o)) s)
      && negb ((sem_value w (workspace_sems s) <=? _recovered_count (on_workspace w) s)
               || _recovered_owns_session w se s)
  | Script _ =>
      (if own_pool c o then negb (script_val s <=? 0)
       else negb (global_val s <=? _recovered_count (fun _ => true) s))
      && negb (sem_value (t_channel o) (channel_sems s) <=? _recovered_count (on_channel (t_channel o)) s)
  end.

(** ** Garbage collection on the admission path *)

Definition values {A} (m : gmap string A) : list A := map snd (map_to_list m).
Definition ticket_objs (s : st) : list tobj := omap (fun g => objs s !! g) (values (tickets s)).
Definition active_workspaces (s : st) : list string :=
  omap t_workspace (ticket_objs s) ++ map r_workspace_ref (values (recovered s)).
Definition active_channels (s : st) : list string :=
  map t_channel (ticket_objs s) ++ map r_channel (values (recovered s)).

(** The keys the sweep forgets: released, and completed a window ago or with no time recorded. *)
Definition expired_keys (c : cfg) (s : st) : list string :=
  List.filter (fun k => bool_decide (k ∈ released s) && window_elapsed c s k)
    (elements (dom (tickets s) ∪ dom (recovered s))).
Definition forget_expired (c : cfg) (s : st) : st := foldr _forget s (expired_keys c s).

(** Idle pools: no ticket or run on the key and every permit back. *)
Definition sweep_sems (active : list string) (m : gmap string (Z * Z)) : gmap string (Z * Z) :=
  filter (fun kv => in_strs kv.1 active || negb (kv.2.1 =? kv.2.2) = true) m.
Definition rate_stale (now : Z) (admits : list Z) : bool :=
  match last admits with None => true | Some t => _RATE_WINDOW <=? now - t end.

Definition _sweep_expired (c : cfg) (s : st) : st :=
  let s := forget_expired c s in
  let s := set_workspace_sems (sweep_sems (active_workspaces s) (workspace_sems s)) s in
  let s := set_channel_sems (sweep_sems (active_channels s) (channel_sems s)) s in
  set_rate_admits (filter (fun kv => rate_stale (clock s) kv.2 = false) (rate_admits s)) s.

(** ** Rate limits *)

Definition str_of_nat (n : nat) : string := str_of_int (Z.of_nat n).
(** [deque.popleft()] while the oldest admit is a window old. *)
Fixpoint rate_pop (now : Z) (admits : list Z) : list Z :=
  match admits with
  | t :: rest => if _RATE_WINDOW <=? now - t then rate_pop now rest else admits
  | [] => []
  end.
Definition rate_deque (k : list string) (s : st) : list Z := from_option id [] (rate_admits s !! k).

(** The (key, cap) checks of a channel, in config order; [zip(..., strict=True)]. *)
Fixpoint per_key_checks (ch : string) (i : nat) (caps : list Z) (keys : list string)
    : result exn (list (list string * Z)) :=
  match caps, keys with
  | [], [] => Ok []
  | cap :: caps, key :: keys =>
      rest ← per_key_checks ch (S i) caps keys; Ok (([ch; str_of_nat i; key], cap) :: rest)
  | _, _ => Err ValueError
  end.
Definition rate_checks (l : ChannelRateLimit) (ch : string) (keys : list string)
    : result exn (list (list string * Z)) :=
  rest ← per_key_checks ch 0 (crl_per_key l) keys;
  Ok (match crl_max_per_hour l with Some cap => [([ch], cap)] | None => [] end ++ rest).

(** The loop of [_check_rate]: on success, the keys whose windows take the new admit. *)
Fixpoint check_windows (checks : list (list string * Z)) (s : st) : st * result exn (list (list string)) :=
  match checks with
  | [] => (s, Ok [])
  | (k, cap) :: checks =>
      let admits := rate_pop (clock s) (rate_deque k s) in
      let s := set_rate_admits (<[k := admits]> (rate_admits s)) s in
      if cap <=? Z.of_nat (length admits) then (alarm "rate limit rejected" s, Err AdmissionRateLimitedError)
      else
        let '(s, r) := check_windows checks s in
        (s, ks ← r; Ok (k :: ks))
  end.
Definition _check_rate (c : cfg) (re : RoutedEvent) (s : st) : st * result exn (list (list string)) :=
  match c_rate_limits c !! re_channel re with
  | None => (s, Ok [])
  | Some limits =>
      match rate_checks limits (re_channel re) (re_rate_keys re) with
      | Err e => (s, Err e)
      | Ok checks => check_windows checks s
      end
  end.
(** [for admits in rate_windows: admits.append(now)] *)
Definition append_admit (s : st) (k : list string) : st :=
  set_rate_admits (<[k := rate_deque k s ++ [clock s]]> (rate_admits s)) s.

(** ** Admission *)

Definition lane_put (lk : string) (k : string) (g : nat) (s : st) : st :=
  let l := from_option id {| l_queue := []; l_begun := false; l_run := None |} (lanes s !! lk) in
  set_lanes (<[lk := {| l_queue := l_queue l ++ [(k, g)]; l_begun := l_begun l; l_run := l_run l |}]> (lanes s)) s.

(** Mark, count, watch and enqueue a new ticket. *)
Definition enqueue (c : cfg) (k : string) (kind : tkind) (windows : list (list string)) (s : st) : st * nat :=
  let g := next_id s in
  let o := {| t_invocation_id := k; t_kind := kind; t_deadline_at := clock s + c_max_invocation c;
              t_started := FPending; t_completed := FPending |} in
  let s := set_objs (<[g := o]> (objs s)) (set_next_id (S g) s) in
  let s := set_queued_total (queued_total s + 1) (set_tickets (<[k := g]> (tickets s)) s) in
  let s := foldl append_admit s windows in
  let s := set_monitors (<[k := g]> (monitors s)) s in
  (lane_put (lane_key_of c o) k g s, g).

Definition agent_kind (c : cfg) (re : RoutedEvent) : tkind :=
  let w := workspace_ref (c_namespace c) (c_agent_uid c) (re_workspace_key re) in
  Agent w (session_ref w (re_session_key re)) re.
Definition _dedup_key (c : cfg) (re : RoutedEvent) : string :=
  invocation_digest (c_agent_uid c) (re_channel re) (re_event_id re).
Definition note_recovered (r : record) (s : st) : st :=
  match r with RRecovered _ => alarm "recovered Started outcome is unknown" s | RTicket _ => s end.

Definition admit_ (c : cfg) (re : RoutedEvent) (s : st) : st * result exn record :=
  if closed s then (s, Err AdmissionClosedError)
  else
    let s := _sweep_expired c s in
    let k := _dedup_key c re in
    let '(s, existing) := _existing_ticket c k s in
    match existing with
    | Some r => (note_recovered r s, Ok r)
    | None =>
        let '(s, windows) := _check_rate c re s in
        match windows with
        | Err e => (s, Err e)
        | Ok windows =>
            if c_max_queued_total c <=? queued_total s then
              (alarm "admission queue capacity rejected" s, Err AdmissionQueueFullError)
            else
              let '(s, g) := enqueue c k (agent_kind c re) windows s in
              (s, Ok (RTicket g))
        end
    end.

Definition admit_script (c : cfg) (ev : Event) (s : st) : st * result exn record :=
  if closed s then (s, Err AdmissionClosedError)
  else
    let s := _sweep_expired c s in
    let k := invocation_digest (c_agent_uid c) (ev_channel ev) (ev_id ev) in
    let '(s, existing) := _existing_ticket c k s in
    match existing with
    | Some r =>
        let s := note_recovered r s in
        match r with
        | RTicket g => if from_option is_script false (objs s !! g) then (s, Ok r) else (s, Err ValueError)
        | RRecovered _ => (s, Err ValueError)
        end
    | None =>
        if c_max_queued_total c <=? queued_total s then
          (alarm "admission queue capacity rejected" s, Err AdmissionQueueFullError)
        else
          let '(s, g) := enqueue c k (Script ev) [] s in
          (s, Ok (RTicket g))
    end.

(** [recover(...)]: the run described by [r], its [completed] future fresh. *)
Definition same_run (a b : rrun) : bool :=
  String.eqb (r_channel a) (r_channel b) && String.eqb (r_workspace_ref a) (r_workspace_ref b)
  && String.eqb (r_session_ref a) (r_session_ref b) && String.eqb (r_config_version a) (r_config_version b)
  && (r_deadline_at a =? r_deadline_at b) && String.eqb (r_instance_id a) (r_instance_id b)
  && negb match r_run_id a, r_run_id b with Some x, Some y => negb (String.eqb x y) | _, _ => false end.
Definition fresh_run (r : rrun) : rrun :=
  {| r_channel := r_channel r; r_workspace_ref := r_workspace_ref r; r_session_ref := r_session_ref r;
     r_config_version := r_config_version r; r_deadline_at := r_deadline_at r;
     r_instance_id := r_instance_id r; r_run_id := r_run_id r; r_completed := FPending |}.
Definition recover (c : cfg) (k : string) (r : rrun) (s : st) : st * result exn record :=
  if closed s then (s, Err AdmissionClosedError)
  else
    let s := _sweep_expired c s in
    match tickets s !! k with
    | Some _ => (s, Err ValueError)
    | None =>
        match recovered s !! k with
        | Some existing =>
            if same_run existing r then (alarm "recovered Started outcome is unknown" s, Ok (RRecovered k))
            else (s, Err ValueError)
        | None =>
            let s := set_recovered (<[k := fresh_run r]> (recovered s)) s in
            let s := alarm "recovered Started outcome is unknown" (set_queued_total (queued_total s + 1) s) in
            (set_recovery_tasks ({[k]} ∪ recovery_tasks s) s, Ok (RRecovered k))
        end
    end.

(** ** The deadline monitor *)

(** One iteration of [_monitor_deadline] for the ticket watched under [k]. *)
Definition monitor_poll (k : string) (s : st) : st :=
  match monitors s !! k with
  | Some g =>
      match objs s !! g with
      | Some o =>
          if t_deadline_at o <=? clock s then
            set_monitors (delete k (monitors s))
              (_expire g "deadline exceeded while queued"
                (set_monitor_expired ({[k]} ∪ monitor_expired s) s))
          else s
      | None => s
      end
  | None => s
  end.

(** ** Lanes: [_Lane._consume] and [_run_ticket] *)

Definition set_run (lk : string) (r : option running) (s : st) : st :=
  set_lanes (alter (fun l => {| l_queue := l_queue l; l_begun := l_begun l; l_run := r |}) lk (lanes s)) s.

(** After [_run_ticket] returned: a drained lane deregisters and its consumer ends. *)
Definition lane_next (lk : string) (s : st) : st :=
  match lanes s !! lk with
  | Some l =>
      match l_queue l with
      | [] => set_lanes (delete lk (lanes s)) s
      | _ => set_run lk None s
      end
  | None => s
  end.

(** The [finally] of [_run_ticket], then the lane's next iteration. *)
Definition finish (lk k : string) (g : nat) (s : st) : st := lane_next lk (_retire k g s).

(** [queue.get()] and [_run_ticket] up to its first await. *)
Definition lane_start (c : cfg) (lk : string) (s : st) : st :=
  match lanes s !! lk with
  | Some {| l_queue := (k, g) :: q; l_run := None |} =>
      match objs s !! g with
      | None => s
      | Some o =>
          let s := set_lanes (<[lk := {| l_queue := q; l_begun := true;
                                l_run := Some {| run_key := k; run_id := g; run_phase := Acquiring |} |}]>
                              (lanes s)) s in
          let '(s, already_monitor_expired) := _cancel_monitor k g s in
          if already_monitor_expired : bool then finish lk k g s
          else if t_deadline_at o <=? clock s then
            finish lk k g (_expire g "deadline exceeded before permit wait" s)
          else
            let s := _channel_sem c (t_channel o) s in
            match t_workspace o with Some w => _workspace_sem c w s | None => s end
      end
  | _ => s
  end.

(** One poll of the permit loop. *)
Definition lane_poll (c : cfg) (lk : string) (s : st) : st :=
  match lanes s !! lk with
  | Some {| l_run := Some {| run_key := k; run_id := g; run_phase := Acquiring |} |} =>
      match objs s !! g with
      | None => s
      | Some o =>
          if t_deadline_at o <=? clock s then
            finish lk k g (_expire g "deadline exceeded while waiting for permits" s)
          else if can_acquire c o s then
            set_run lk (Some {| run_key := k; run_id := g; run_phase := Permitted |}) (permits c (-1) o s)
          else s
      end
  | _ => s
  end.

(** Holding every permit: the last deadline check, then the runner is called. *)
Definition lane_deliver (c : cfg) (lk : string) (s : st) : st :=
  match lanes s !! lk with
  | Some {| l_run := Some {| run_key := k; run_id := g; run_phase := Permitted |} |} =>
      match objs s !! g with
      | None => s
      | Some o =>
          if t_deadline_at o <=? clock s then
            finish lk k g (permits c 1 o (_expire g "deadline exceeded immediately before delivery" s))
          else
            set_delivered (g :: delivered s)
              (set_run lk (Some {| run_key := k; run_id := g; run_phase := Delivering |}) s)
      end
  | _ => s
  end.

(** How the awaited runner ends. *)
Inductive outcome := RunOk | RunErr (e : exn).

Definition resolve (o : tobj) (g : nat) (out : outcome) (s : st) : st :=
  match out with
  | RunOk => upd_obj (obj_futs (fut_fail RuntimeError) fut_set) g s
  | RunErr e =>
      let s := _fail g e s in
      if is_script o then alarm "webhook script runner failed" s else s
  end.
Definition lane_done (c : cfg) (lk : string) (out : outcome) (s : st) : st :=
  match lanes s !! lk with
  | Some {| l_run := Some {| run_key := k; run_id := g; run_phase := Delivering |} |} =>
      match objs s !! g with
      | None => s
      | Some o => finish lk k g (permits c 1 o (resolve o g out s))
      end
  | _ => s
  end.

(** Cancellation of a lane's task.  A consumer that never took its first entry was never
    entered and drains nothing; otherwise the ticket in progress gives its permits back, fails
    and retires, and so does every queued entry. *)
Definition drain (q : list (string * nat)) (s : st) : st :=
  foldl (fun s kg => _retire kg.1 kg.2 (_fail kg.2 CancelledError s)) s q.
Definition lane_cancel (c : cfg) (lk : string) (s : st) : st :=
  match lanes s !! lk with
  | None => s
  | Some l =>
      let s := match l_run l with
               | None => s
               | Some r =>
                   let s := match run_phase r, objs s !! run_id r with
                            | Acquiring, _ | _, None => s
                            | _, Some o => permits c 1 o s
                            end in
                   _retire (run_key r) (run_id r) (_fail (run_id r) CancelledError s)
               end in
      let s := if l_begun l then drain (l_queue l) s else s in
      set_lanes (delete lk (lanes s)) s
  end.

(** ** Recovered-run observers *)

Inductive observation := ObsTerminal | ObsOwnerLost | ObsFailed.
Definition run_future (f : fut -> fut) (k : string) (s : st) : st :=
  set_recovered (alter (fun r => {| r_channel := r_channel r; r_workspace_ref := r_workspace_ref r;
    r_session_ref := r_session_ref r; r_config_version := r_config_version r; r_deadline_at := r_deadline_at r;
    r_instance_id := r_instance_id r; r_run_id := r_run_id r; r_completed := f (r_completed r) |}) k (recovered s)) s.
Definition end_recovered (f : fut -> fut) (k : string) (s : st) : st :=
  _release_capacity_once k (run_future f k s).
Definition observe_done (k : string) (obs : observation) (s : st) : st :=
  if decide (k ∈ recovery_tasks s) then
    let s := match obs with
             | ObsOwnerLost => end_recovered (fut_fail WorkspaceOwnerLost) k s
             | ObsFailed => alarm "recovered run observation failed" s
             | ObsTerminal => if decide (k ∈ released s) then s else end_recovered fut_set k s
             end in
    set_recovery_tasks (recovery_tasks s ∖ {[k]}) s
  else s.

(** ** close() *)

(** A recovered run's share of [close]: its observer's cancellation handler and the final loop. *)
Definition close_recovered (k : string) (s : st) : st :=
  if decide (k ∈ released s) then s else end_recovered (fut_fail RuntimeError) k s.
Definition close_ticket (kg : string * nat) (s : st) : st :=
  _retire kg.1 kg.2 (_fail kg.2 RuntimeError s).
Definition close (c : cfg) (s : st) : st :=
  let s := set_closed true s in
  let s := foldr close_recovered s (elements (recovery_tasks s)) in
  let s := set_recovery_tasks ∅ s in
  let s := foldr (lane_cancel c) s (map fst (map_to_list (lanes s))) in
  let s := set_lanes ∅ s in
  let s := set_monitors ∅ s in
  let s := foldr close_ticket s (map_to_list (tickets s)) in
  foldr close_recovered s (map fst (map_to_list (recovered s))).

(** ** The transition system

    One constructor per atomic segment: calls from outside, the clock, each task's next segment,
    and the runner, the observer and callers acting on futures. *)
Inductive step (c : cfg) : st -> st -> Prop :=
  | step_tick s d : 0 <= d -> step c s (set_clock (clock s + d) s)
  | step_admit s re : step c s (fst (admit_ c re s))
  | step_admit_script s ev : step c s (fst (admit_script c ev s))
  | step_recover s k r : step c s (fst (recover c k r s))
  | step_monitor s k : step c s (monitor_poll k s)
  | step_start s lk : step c s (lane_start c lk s)
  | step_poll s lk : step c s (lane_poll c lk s)
  | step_deliver s lk : step c s (lane_deliver c lk s)
  | step_mark s g : step c s (mark_started g s)
  | step_done s lk out : step c s (lane_done c lk out s)
  | step_runner_cancelled s lk l r :
      lanes s !! lk = Some l -> l_run l = Some r -> run_phase r = Delivering ->
      step c s (lane_cancel c lk s)
  | step_caller_cancel s g started completed :
      step c s (upd_obj (obj_futs (fun f => if (started : bool) && negb (fut_done f) then FCancelled else f)
                                  (fun f => if (completed : bool) && negb (fut_done f) then FCancelled else f)) g s)
  | step_observe s k obs : step c s (observe_done k obs s)
  | step_close s : step c s (close c s).

Definition reachable (c : cfg) (s : st) : Prop := exists now, rtc (step c) (init c now) s.
