(* ===== verification/AdmissionInv.v ===== *)
(** * harness/admission.py: the ledger and lane invariant

    One inductive invariant over every reachable state of [Admission], stated with a list of
    loose entries so that the code's intermediate states (an entry taken out of its lane and not
    yet retired) satisfy it too. *)

From S2P Require Import Prelude Sha256 PyJson Refs Config Channels Admission.
From stdpp Require Import fin_sets gmap.
From Stdlib Require Import Sorted.
Local Open Scope Z_scope.

Create HintDb admission.

(** ** The invariant *)

Definition run_entry (l : lane) : list (string * nat) :=
  match l_run l with Some r => [(run_key r, run_id r)] | None => [] end.
(** What a lane still owes: the entry it runs, then its queue. *)
Definition lane_entries (l : lane) : list (string * nat) := run_entry l ++ l_queue l.
Definition futures_done (o : tobj) : Prop := fut_done (t_started o) = true /\ fut_done (t_completed o) = true.
Definition known (s : st) : gset string := (dom (tickets s)) ∪ (dom (recovered s)).
Definition in_lane (s : st) (lk : string) (l : lane) (k : string) (g : nat) : Prop :=
  lanes s !! lk = Some l /\ (k, g) ∈ lane_entries l.

Record Inv (c : cfg) (E : list (string * nat)) (s : st) : Prop := mkInv {
  inv_objs : forall g, is_Some (objs s !! g) <-> (g < next_id s)%nat;
  inv_tick : forall k g, tickets s !! k = Some g ->
    exists o, objs s !! g = Some o /\ t_invocation_id o = k;
  inv_disj : forall k g, tickets s !! k = Some g -> recovered s !! k = None;
  inv_rel : released s ⊆ known s;
  inv_total : queued_total s = Z.of_nat (size (known s ∖ released s));
  inv_mon : forall k g, monitors s !! k = Some g -> tickets s !! k = Some g;
  inv_exp : forall k, k ∈ monitor_expired s ->
    exists g o, tickets s !! k = Some g /\ (objs s !! g = Some o) /\ futures_done o;
  inv_entry : forall lk l k g, in_lane s lk l k g ->
    tickets s !! k = Some g /\ (k ∉ released s)
    /\ exists o, objs s !! g = Some o /\ lane_key_of c o = lk;
  inv_loose : forall k g, (k, g) ∈ E ->
    tickets s !! k = Some g /\ (k ∉ released s) /\ forall lk l, ~ in_lane s lk l k g;
  inv_loose_nodup : NoDup E;
  inv_fifo : forall lk l, lanes s !! lk = Some l -> StronglySorted Nat.lt (map snd (lane_entries l));
  inv_lane : forall lk l, lanes s !! lk = Some l ->
    lane_entries l <> [] /\ (l_run l = None \/ l_begun l = true);
  inv_cover : closed s = false -> forall k g, tickets s !! k = Some g -> k ∉ released s ->
    (k, g) ∈ E \/ exists lk l, in_lane s lk l k g;
  inv_done : forall k g o, k ∈ released s -> tickets s !! k = Some g -> objs s !! g = Some o -> futures_done o;
  inv_rdone : forall k r, k ∈ released s -> recovered s !! k = Some r -> fut_done (r_completed r) = true;
  inv_watch : forall lk l k g, lanes s !! lk = Some l -> (k, g) ∈ l_queue l ->
    monitors s !! k = Some g \/ k ∈ monitor_expired s;
  inv_unwatch : forall lk l r, lanes s !! lk = Some l -> l_run l = Some r ->
    monitors s !! run_key r = None /\ run_key r ∉ monitor_expired s;
  inv_relmon : forall k, k ∈ released s -> monitors s !! k = None /\ k ∉ monitor_expired s;
  inv_comp : forall k, k ∈ released s <-> is_Some (completed_at s !! k);
  inv_delivered : NoDup (delivered s) /\ forall g, g ∈ delivered s -> (g < next_id s)%nat;
  inv_undelivered : forall lk l k g, lanes s !! lk = Some l -> (k, g) ∈ l_queue l -> g ∉ delivered s;
  inv_run_delivered : forall lk l r, lanes s !! lk = Some l -> l_run l = Some r ->
    run_phase r <> Delivering -> run_id r ∉ delivered s;
  inv_tasks : closed s = false -> forall k, k ∈ recovery_tasks s ->
    is_Some (recovered s !! k) /\ k ∉ released s
}.

(** The invariant's fields as hypotheses. *)
Ltac open_inv I :=
  destruct I as [inv_objs0 inv_tick0 inv_disj0 inv_rel0 inv_total0 inv_mon0 inv_exp0 inv_entry0 inv_loose0
    inv_loose_nodup0 inv_fifo0 inv_lane0 inv_cover0 inv_done0 inv_rdone0 inv_watch0
    inv_unwatch0 inv_relmon0 inv_comp0 inv_delivered0 inv_undelivered0 inv_run_delivered0
    inv_tasks0].

(** The fields the invariant reads. *)
Definition core (s : st) :=
  (closed s, next_id s, objs s, tickets s, recovered s, recovery_tasks s, queued_total s,
   released s, completed_at s, monitors s, monitor_expired s, lanes s, delivered s).
Lemma Inv_core c E s s' : core s' = core s -> Inv c E s -> Inv c E s'.
Proof.
  unfold core. intros [= H1 H2 H3 H4 H5 H6 H7 H8 H9 H10 H11 H12 H13] I. open_inv I.
  split; unfold in_lane, known in *; rewrite ?H1, ?H2, ?H3, ?H4, ?H5, ?H6, ?H7, ?H8, ?H9, ?H10, ?H11, ?H12, ?H13; auto.
Qed.

Lemma Inv_init c now : Inv c [] (init c now).
Proof.
  split; unfold in_lane, known; cbn; intros; rewrite ?lookup_empty in *; try set_solver; try done.
  all: try (setoid_rewrite lookup_empty; naive_solver).
  - split; [by intros [? ?]|lia].
  - constructor.
  - split; [constructor|set_solver].
Qed.

(** ** Futures: updates that keep settled futures settled *)

Definition keeps_done (f : fut -> fut) : Prop := forall x, fut_done x = true -> fut_done (f x) = true.
Lemma keeps_done_id : keeps_done id.
Proof. by intros x. Qed.
Lemma keeps_done_set : keeps_done fut_set.
Proof. by intros []. Qed.
Lemma keeps_done_fail e : keeps_done (fut_fail e).
Proof. by intros []. Qed.
Lemma keeps_done_cancel (b : bool) : keeps_done (fun f => if b && negb (fut_done f) then FCancelled else f).
Proof. by intros []; destruct b. Qed.
#[export] Hint Resolve keeps_done_id keeps_done_set keeps_done_fail keeps_done_cancel : admission.

Lemma upd_obj_lookup f g s g' o' : objs (upd_obj f g s) !! g' = Some o' <->
  exists o, objs s !! g' = Some o /\ o' = if decide (g = g') then f o else o.
Proof.
  cbn. rewrite lookup_alter. case_decide.
  - subst. rewrite fmap_Some. naive_solver.
  - naive_solver.
Qed.
Lemma upd_obj_Some f g s g' o : objs s !! g' = Some o ->
  objs (upd_obj f g s) !! g' = Some (if decide (g = g') then f o else o).
Proof. intros H. apply upd_obj_lookup. eauto. Qed.
Lemma obj_futs_done fs fc o : keeps_done fs -> keeps_done fc -> futures_done o -> futures_done (obj_futs fs fc o).
Proof. intros Hs Hc [H1 H2]. split; cbn; auto. Qed.
Lemma lane_key_futs c fs fc o : lane_key_of c (obj_futs fs fc o) = lane_key_of c o.
Proof. done. Qed.
Lemma fut_fail_done e o : futures_done (obj_futs (fut_fail e) (fut_fail e) o).
Proof. destruct o as [? ? ? [] []]; done. Qed.
Lemma fut_set_done e o : futures_done (obj_futs (fut_fail e) fut_set o).
Proof. destruct o as [? ? ? [] []]; done. Qed.
#[export] Hint Resolve obj_futs_done fut_fail_done fut_set_done : admission.

Lemma Inv_futs c E fs fc g s : keeps_done fs -> keeps_done fc ->
  Inv c E s -> Inv c E (upd_obj (obj_futs fs fc) g s).
Proof.
  intros Hs Hc I. open_inv I. split; auto.
  - intros g'. rewrite <- inv_objs0. unfold is_Some. setoid_rewrite upd_obj_lookup. naive_solver.
  - intros k g' (o & Ho & Hk)%inv_tick0. eexists. split; [by apply upd_obj_Some|]. by case_decide.
  - intros k (g' & o & Ht & Ho & Hd)%inv_exp0. exists g'. eexists. split_and!; [done|by apply upd_obj_Some|].
    case_decide; auto with admission.
  - intros lk l k g' (Ht & Hr & o & Ho & Hk)%inv_entry0. split_and!; [done..|].
    eexists. split; [by apply upd_obj_Some|]. by case_decide.
  - intros k g' o' Hr Ht (o & Ho & ->)%upd_obj_lookup. specialize (inv_done0 _ _ _ Hr Ht Ho).
    case_decide; auto with admission.
Qed.

(** ** Keys: forgetting, releasing, retiring *)

Lemma Inv_forget c E k s : k ∈ released s -> Inv c E s -> Inv c E (_forget k s).
Proof.
  intros Hk I. open_inv I.
  assert (Hne : forall k', k' ∉ released s -> k <> k') by (intros k' H1 ->; contradiction).
  split; auto; cbn.
  - intros k' g [_ H]%lookup_delete_Some. eauto.
  - intros k' g [_ H]%lookup_delete_Some. rewrite lookup_delete_None. eauto.
  - unfold known in *; cbn. rewrite !dom_delete_L. clear -inv_rel0. set_solver.
  - rewrite inv_total0. do 2 f_equal. unfold known in *; cbn. rewrite !dom_delete_L.
    apply set_eq; intros x. destruct (decide (x = k)); set_solver.
  - intros k' g [? H]%lookup_delete_Some. rewrite lookup_delete_ne by done. eauto.
  - intros k' [Hin Hneq]%elem_of_difference. destruct (inv_exp0 _ Hin) as (g & o & ? & ? & ?).
    exists g, o. rewrite lookup_delete_ne by set_solver. auto.
  - intros lk l k' g H. destruct (inv_entry0 _ _ _ _ H) as (? & Hr & ?).
    rewrite lookup_delete_ne by auto. set_solver.
  - intros k' g H. destruct (inv_loose0 _ _ H) as (? & Hr & ?).
    rewrite lookup_delete_ne by auto. set_solver.
  - intros Hc k' g [? H]%lookup_delete_Some Hr. apply (inv_cover0 Hc); [done|set_solver].
  - intros k' g o Hr [? H]%lookup_delete_Some. apply (inv_done0 k'); [set_solver|done].
  - intros k' r Hr [? H]%lookup_delete_Some. apply (inv_rdone0 k'); [set_solver|done].
  - intros lk l k' g Hl Hq. destruct (inv_entry0 lk l k' g) as (? & Hr & _).
    { split; [done|]. apply elem_of_app; auto. }
    rewrite lookup_delete_ne by auto. destruct (inv_watch0 _ _ _ _ Hl Hq); set_solver.
  - intros lk l r Hl Hr. destruct (inv_unwatch0 _ _ _ Hl Hr) as [H1 H2].
    rewrite lookup_delete_None. split; [auto|set_solver].
  - intros k' [Hr Hn]%elem_of_difference. destruct (inv_relmon0 _ Hr).
    rewrite lookup_delete_ne by set_solver. split; [auto|set_solver].
  - intros k'. rewrite lookup_delete_is_Some, <- inv_comp0. set_solver.
  - intros Hc k' H. destruct (inv_tasks0 Hc _ H). rewrite lookup_delete_ne by auto. split; [auto|set_solver].
Qed.

Lemma release_spec k s : k ∉ released s -> _release_capacity_once k s =
  set_completed_at (<[k := clock s]> (completed_at s))
    (set_queued_total (queued_total s - 1) (set_released ({[k]} ∪ released s) s)).
Proof. intros. unfold _release_capacity_once. by rewrite decide_False. Qed.

Lemma size_unrelease (X R : gset string) k : k ∈ X -> k ∉ R ->
  Z.of_nat (size (X ∖ ({[k]} ∪ R))) = Z.of_nat (size (X ∖ R)) - 1.
Proof.
  intros HX HR. assert (E : X ∖ R = {[k]} ∪ (X ∖ ({[k]} ∪ R))).
  { apply set_eq; intros x. destruct (decide (x = k)); set_solver. }
  rewrite E, (size_union {[k]}) by set_solver. rewrite size_singleton. lia.
Qed.

Lemma known_ticket s k g : tickets s !! k = Some g -> k ∈ known s.
Proof. intros H. apply elem_of_union_l, elem_of_dom. eauto. Qed.
Lemma known_recovered s k r : recovered s !! k = Some r -> k ∈ known s.
Proof. intros H. apply elem_of_union_r, elem_of_dom. eauto. Qed.

(** Retiring the entry at hand: its futures are settled, so it may leave. *)
Lemma Inv_retire c E k g s :
  (forall o, objs s !! g = Some o -> futures_done o) ->
  Inv c ((k, g) :: E) s -> Inv c E (_retire k g s).
Proof.
  intros Hdone I. open_inv I.
  destruct (inv_loose0 k g ltac:(set_solver)) as (Ht & Hr & Hlane).
  apply NoDup_cons in inv_loose_nodup0 as [HE HND].
  assert (Hne : forall lk l k' g', in_lane s lk l k' g' -> k <> k').
  { intros lk l k' g' H ->. destruct (inv_entry0 _ _ _ _ H) as (Ht' & _). simplify_eq. by eapply Hlane. }
  assert (Hrec := inv_disj0 _ _ Ht).
  unfold _retire, _cancel_monitor. rewrite decide_True by done. cbn [fst].
  rewrite release_spec by done. split; auto; cbn.
  - change ({[k]} ∪ released s ⊆ known s). pose proof (known_ticket _ _ _ Ht). set_solver.
  - rewrite inv_total0. symmetry. apply size_unrelease; [|done]. by eapply known_ticket.
  - intros k' g' [_ H]%lookup_delete_Some. eauto.
  - intros k' H. apply inv_exp0. set_solver.
  - intros lk l k' g' H. destruct (inv_entry0 _ _ _ _ H) as (? & ? & ?).
    pose proof (Hne _ _ _ _ H). set_solver.
  - intros k' g' H. destruct (inv_loose0 k' g' ltac:(set_solver)) as (? & ? & ?).
    split_and!; auto. assert (k <> k') by (intros ->; simplify_eq; set_solver). set_solver.
  - intros Hc k' g' Ht' Hr'. destruct (inv_cover0 Hc k' g' Ht' ltac:(set_solver)) as [Hin|]; [|auto].
    apply elem_of_cons in Hin as [[= -> ->]|]; [set_solver|auto].
  - intros k' g' o Hr' Ht' Ho. destruct (decide (k' = k)) as [->|].
    + simplify_eq. auto.
    + apply (inv_done0 k' g'); auto. set_solver.
  - intros k' r Hr' Hk'. apply (inv_rdone0 k'); [|done].
    destruct (decide (k' = k)) as [->|]; [congruence|set_solver].
  - intros lk l k' g' Hl Hq. assert (k <> k').
    { eapply Hne. split; [done|]. apply elem_of_app; eauto. }
    rewrite lookup_delete_ne by done. destruct (inv_watch0 _ _ _ _ Hl Hq); set_solver.
  - intros lk l r Hl Hrun. destruct (inv_unwatch0 _ _ _ Hl Hrun). rewrite lookup_delete_None. set_solver.
  - intros k' Hk'. rewrite lookup_delete_None. destruct (decide (k' = k)) as [->|]; [set_solver|].
    destruct (inv_relmon0 k' ltac:(set_solver)). set_solver.
  - intros k'. rewrite elem_of_union, elem_of_singleton, inv_comp0, lookup_insert_is_Some.
    destruct (decide (k = k')); naive_solver.
  - intros Hc k' H. destruct (inv_tasks0 Hc _ H) as [[r Hk'] ?].
    split; [eauto|]. assert (k <> k') by congruence. set_solver.
Qed.

(** ** Lanes: taking entries out *)

(** [l'] is what remains of [l]: a part of its entries, with the same run or none. *)
Definition lane_part (l' l : lane) : Prop :=
  sublist (lane_entries l') (lane_entries l) /\ l_queue l' ⊆ l_queue l
  /\ (l_run l' = None \/ l_run l' = l_run l /\ l_begun l' = l_begun l)
  /\ lane_entries l' <> [].
Definition parts (L : gmap string lane) (s : st) : Prop :=
  forall lk l', L !! lk = Some l' -> exists l, lanes s !! lk = Some l /\ lane_part l' l.

Lemma StronglySorted_sublist {A} (R : A -> A -> Prop) l l' :
  sublist l l' -> StronglySorted R l' -> StronglySorted R l.
Proof.
  induction 1 as [|x l l' Hl IH|x l l' Hl IH]; intros H; [done| |];
    apply StronglySorted_inv in H as [H1 H2]; [|auto].
  constructor; [auto|]. rewrite List.Forall_forall in *. intros y Hy. apply H2.
  apply list_elem_of_In. eapply sublist_subseteq; [exact Hl|]. by apply list_elem_of_In.
Qed.

Lemma sublist_map {A B} (f : A -> B) l l' : sublist l l' -> sublist (map f l) (map f l').
Proof. induction 1; cbn; by constructor. Qed.

Lemma Inv_loosen c E E' L s : Inv c E s -> parts L s -> NoDup E' ->
  (forall k g, (k, g) ∈ E' -> (k, g) ∈ E \/ exists lk l, in_lane s lk l k g) ->
  (forall k g lk l', (k, g) ∈ E' -> L !! lk = Some l' -> (k, g) ∉ lane_entries l') ->
  (closed s = false -> forall k g, (k, g) ∈ E \/ (exists lk l, in_lane s lk l k g) ->
     (k, g) ∈ E' \/ exists lk l', L !! lk = Some l' /\ (k, g) ∈ lane_entries l') ->
  Inv c E' (set_lanes L s).
Proof.
  intros I HL HND Hfrom Hout Hto. open_inv I.
  assert (Hin : forall lk l' k g, L !! lk = Some l' -> (k, g) ∈ lane_entries l' ->
    exists l, in_lane s lk l k g).
  { intros lk l' k g Hl Hi. destruct (HL _ _ Hl) as (l & Hl0 & Hs & _).
    exists l. split; [done|]. eapply sublist_subseteq; eauto. }
  split; auto.
  - intros lk l' k g [Hl Hi]. destruct (Hin _ _ _ _ Hl Hi) as (l & H). eauto.
  - intros k g He. split_and!; [| |intros lk l [Hl Hi]; by eapply Hout].
    + destruct (Hfrom _ _ He) as [H|(lk & l & H)]; [by apply inv_loose0 in H as [? ?]|].
      by apply inv_entry0 in H as (? & ?).
    + destruct (Hfrom _ _ He) as [H|(lk & l & H)]; [by apply inv_loose0 in H as (? & ? & ?)|].
      by apply inv_entry0 in H as (? & ? & ?).
  - intros lk l' Hl. destruct (HL _ _ Hl) as (l & Hl0 & Hs & _).
    eapply StronglySorted_sublist; [|by eapply inv_fifo0]. by apply sublist_map.
  - intros lk l' Hl. destruct (HL _ _ Hl) as (l & Hl0 & _ & _ & Hr & Hne). split; [done|].
    destruct Hr as [|[-> ->]]; [auto|]. by eapply inv_lane0.
  - intros lk l' k g Hl Hq. destruct (HL _ _ Hl) as (l & Hl0 & _ & Hs & _). eauto.
  - intros lk l' r Hl Hrun. destruct (HL _ _ Hl) as (l & Hl0 & _ & _ & [?|[? ?]] & _); [congruence|].
    eapply inv_unwatch0; [exact Hl0|congruence].
  - intros lk l' k g Hl Hq. destruct (HL _ _ Hl) as (l & Hl0 & _ & Hs & _). eauto.
  - intros lk l' r Hl Hrun. destruct (HL _ _ Hl) as (l & Hl0 & _ & _ & [?|[? ?]] & _); [congruence|].
    eapply inv_run_delivered0; [exact Hl0|congruence].
Qed.

Lemma in_lane_inj c E s lk l lk' l' k g g' : Inv c E s ->
  in_lane s lk l k g -> in_lane s lk' l' k g' -> lk = lk' /\ l = l' /\ g = g'.
Proof.
  intros I H H'. destruct (inv_entry _ _ _ I _ _ _ _ H) as (Ht & _ & o & Ho & Hk).
  destruct (inv_entry _ _ _ I _ _ _ _ H') as (Ht' & _ & o' & Ho' & Hk').
  destruct H as [Hl _], H' as [Hl' _]. rewrite Ht in Ht'. simplify_eq. done.
Qed.
Lemma StronglySorted_lt_nodup (l : list nat) : StronglySorted Nat.lt l -> NoDup l.
Proof.
  induction 1 as [|x l Hs IH Hf]; constructor; [|done].
  intros Hx. rewrite List.Forall_forall in Hf. apply list_elem_of_In in Hx. apply Hf in Hx. lia.
Qed.
Lemma entries_nodup c E s lk l : Inv c E s -> lanes s !! lk = Some l -> NoDup (lane_entries l).
Proof.
  intros I Hl. eapply NoDup_fmap_1, StronglySorted_lt_nodup. by eapply inv_fifo.
Qed.

Lemma lane_next_eq lk s l : lanes s !! lk = Some l -> lane_next lk s =
  set_lanes (match l_queue l with
             | [] => delete lk (lanes s)
             | _ => alter (fun l => {| l_queue := l_queue l; l_begun := l_begun l; l_run := None |}) lk (lanes s)
             end) s.
Proof. intros H. unfold lane_next. rewrite H. by destruct (l_queue l). Qed.
Lemma retire_set_lanes L k g s : set_lanes L (_retire k g s) = _retire k g (set_lanes L s).
Proof.
  unfold _retire, _cancel_monitor, _release_capacity_once. cbn.
  destruct (decide (tickets s !! k = Some g)); cbn; destruct (decide (k ∈ released s)); done.
Qed.
Lemma retire_lanes k g s : lanes (_retire k g s) = lanes s.
Proof.
  unfold _retire, _cancel_monitor, _release_capacity_once.
  destruct (decide (tickets s !! k = Some g)); cbn; destruct (decide (k ∈ released s)); done.
Qed.
Lemma finish_eq lk l k g s : lanes s !! lk = Some l -> finish lk k g s = _retire k g (lane_next lk s).
Proof.
  intros H. unfold finish. rewrite (lane_next_eq _ _ l) by by rewrite retire_lanes.
  rewrite (lane_next_eq _ _ l) by done. by rewrite retire_set_lanes, retire_lanes.
Qed.

(** The run's entry leaves its lane. *)
Lemma Inv_lane_next c lk l r s : Inv c [] s -> lanes s !! lk = Some l -> l_run l = Some r ->
  Inv c [(run_key r, run_id r)] (lane_next lk s).
Proof.
  intros I Hl Hr. pose proof (entries_nodup _ _ _ _ _ I Hl) as HND.
  unfold lane_entries, run_entry in HND. rewrite Hr in HND. apply NoDup_cons in HND as [Hn _].
  assert (Hrin : in_lane s lk l (run_key r) (run_id r)).
  { split; [done|]. unfold lane_entries, run_entry. rewrite Hr. set_solver. }
  rewrite (lane_next_eq _ _ l) by done. destruct (l_queue l) as [|q0 q] eqn:Hq; apply (Inv_loosen _ []); auto.
  - intros lk' l' [? H]%lookup_delete_Some. exists l'. repeat split; auto. by eapply inv_lane.
  - apply NoDup_singleton.
  - intros k g [= -> ->]%list_elem_of_singleton. right. eauto.
  - intros k g lk' l' [= -> ->]%list_elem_of_singleton [? H]%lookup_delete_Some Hin.
    destruct (in_lane_inj _ _ _ _ _ lk' l' _ _ _ I Hrin (conj H Hin)) as (? & _). done.
  - intros _ k g [H|(lk' & l' & H)]; [set_solver|]. destruct (decide (lk' = lk)) as [->|].
    + destruct H as [H1 H2]. simplify_eq. unfold lane_entries, run_entry in H2.
      rewrite Hr, Hq in H2. left. set_solver.
    + right. exists lk', l'. destruct H as [H1 H2]. by rewrite lookup_delete_ne.
  - intros lk' l' H. destruct (decide (lk' = lk)) as [->|].
    + rewrite lookup_alter_eq, Hl in H. injection H as <-. exists l. repeat split; auto; cbn.
      * unfold lane_entries, run_entry; cbn. by apply sublist_inserts_l.
      * unfold lane_entries; cbn. by rewrite Hq.
    + rewrite lookup_alter_ne in H by done. exists l'. repeat split; auto. by eapply inv_lane.
  - apply NoDup_singleton.
  - intros k g [= -> ->]%list_elem_of_singleton. right. eauto.
  - intros k g lk' l' [= -> ->]%list_elem_of_singleton H Hin. destruct (decide (lk' = lk)) as [->|].
    + rewrite lookup_alter_eq, Hl in H. injection H as <-. cbn in Hin. by rewrite Hq in Hin.
    + rewrite lookup_alter_ne in H by done.
      destruct (in_lane_inj _ _ _ _ _ lk' l' _ _ _ I Hrin (conj H Hin)) as (? & _). done.
  - intros _ k g [H|(lk' & l' & H)]; [set_solver|]. destruct (decide (lk' = lk)) as [->|].
    + destruct H as [H1 H2]. simplify_eq. unfold lane_entries, run_entry in H2. rewrite Hr in H2.
      apply elem_of_app in H2 as [H2|H2]; [left; set_solver|]. right. exists lk.
      rewrite lookup_alter_eq, Hl. eexists. split; [done|]. exact H2.
    + right. exists lk', l'. destruct H as [H1 H2]. by rewrite lookup_alter_ne.
Qed.

(** [finish] for settled futures, and the cancellation handler's fail-then-retire. *)
Lemma Inv_finish c lk l r s : Inv c [] s -> lanes s !! lk = Some l -> l_run l = Some r ->
  (forall o, objs s !! run_id r = Some o -> futures_done o) ->
  Inv c [] (finish lk (run_key r) (run_id r) s).
Proof.
  intros I Hl Hr Hd. rewrite (finish_eq _ l) by done. apply Inv_retire; [|by eapply Inv_lane_next].
  rewrite (lane_next_eq _ _ l) by done. exact Hd.
Qed.
Lemma Inv_fail c E g e s : Inv c E s -> Inv c E (_fail g e s).
Proof. apply Inv_futs; auto with admission. Qed.
Lemma fail_settles g e s o : objs (_fail g e s) !! g = Some o -> futures_done o.
Proof. intros (o' & _ & ->)%upd_obj_lookup. rewrite decide_True by done. auto with admission. Qed.
Lemma Inv_fail_retire c E k g e s : Inv c ((k, g) :: E) s -> Inv c E (_retire k g (_fail g e s)).
Proof. intros I. apply Inv_retire; [apply fail_settles|by apply Inv_fail]. Qed.
Lemma Inv_drain c q s : Inv c q s -> Inv c [] (drain q s).
Proof.
  revert s. induction q as [|[k g] q IH]; intros s I; [done|]. apply IH. by apply Inv_fail_retire.
Qed.

Lemma core_permits c d o s : core (permits c d o s) = core s.
Proof. unfold permits. destruct (own_pool c o), (t_workspace o); done. Qed.
Lemma permits_set_lanes c d o L s : set_lanes L (permits c d o s) = permits c d o (set_lanes L s).
Proof. unfold permits. destruct (own_pool c o), (t_workspace o); done. Qed.
Lemma drain_set_lanes q L s : set_lanes L (drain q s) = drain q (set_lanes L s).
Proof.
  revert s. induction q as [|[k g] q IH]; intros s; [done|].
  change (drain ((k, g) :: q) s) with (drain q (_retire k g (_fail g CancelledError s))).
  by rewrite IH, retire_set_lanes.
Qed.

(** Cancelling a lane, with its entries already out of [lanes]. *)
Definition cancel_run (c : cfg) (l : lane) (s : st) : st :=
  match l_run l with
  | None => s
  | Some r =>
      _retire (run_key r) (run_id r) (_fail (run_id r) CancelledError
        (match run_phase r, objs s !! run_id r with
         | Acquiring, _ | _, None => s
         | _, Some o => permits c 1 o s
         end))
  end.
Lemma cancel_run_set_lanes c l L s : set_lanes L (cancel_run c l s) = cancel_run c l (set_lanes L s).
Proof.
  unfold cancel_run. destruct (l_run l) as [r|]; [|done]. rewrite retire_set_lanes. f_equal. cbn.
  destruct (run_phase r), (objs s !! run_id r); try done; unfold permits;
    destruct (own_pool _ _), (t_workspace _); done.
Qed.
Lemma drain_lanes q s : lanes (drain q s) = lanes s.
Proof.
  revert s. induction q as [|[k g] q IH]; intros s; [done|].
  change (drain ((k, g) :: q) s) with (drain q (_retire k g (_fail g CancelledError s))).
  by rewrite IH, retire_lanes.
Qed.
Lemma permits_lanes c d o s : lanes (permits c d o s) = lanes s.
Proof. unfold permits. destruct (own_pool c o), (t_workspace o); done. Qed.
Lemma cancel_run_lanes c l s : lanes (cancel_run c l s) = lanes s.
Proof.
  unfold cancel_run. destruct (l_run l) as [r|]; [|done]. rewrite retire_lanes. cbn.
  destruct (run_phase r), (objs s !! run_id r); by rewrite ?permits_lanes.
Qed.
Definition owed (l : lane) : list (string * nat) :=
  run_entry l ++ if l_begun l then l_queue l else [].
Lemma lane_cancel_eq c lk l s : lanes s !! lk = Some l -> lane_cancel c lk s =
  (fun s => if l_begun l then drain (l_queue l) s else s)
    (cancel_run c l (set_lanes (delete lk (lanes s)) s)).
Proof.
  intros H. unfold lane_cancel. rewrite H. fold (cancel_run c l s). cbn.
  destruct (l_begun l).
  - rewrite drain_set_lanes, drain_lanes, cancel_run_set_lanes. by rewrite cancel_run_lanes.
  - by rewrite cancel_run_set_lanes, cancel_run_lanes.
Qed.

Lemma Inv_take_lane c lk l s : Inv c [] s -> lanes s !! lk = Some l ->
  closed s = true \/ l_begun l = true -> Inv c (owed l) (set_lanes (delete lk (lanes s)) s).
Proof.
  intros I Hl Hc. assert (Hsub : forall e, e ∈ owed l -> e ∈ lane_entries l).
  { unfold owed, lane_entries. intros e. destruct (l_begun l); set_solver. }
  assert (Hin : forall k g, (k, g) ∈ owed l -> in_lane s lk l k g) by (intros k g ?; split; auto).
  apply (Inv_loosen _ []); auto.
  - intros lk' l' [? H]%lookup_delete_Some. exists l'. repeat split; auto. by eapply inv_lane.
  - pose proof (entries_nodup _ _ _ _ _ I Hl) as H. unfold owed. destruct (l_begun l); [done|].
    rewrite app_nil_r. unfold lane_entries in H. by apply NoDup_app in H as [? _].
  - intros k g H. right. eauto.
  - intros k g lk' l' He [? Hl']%lookup_delete_Some Hi.
    destruct (in_lane_inj _ _ _ _ _ lk' l' _ _ _ I (Hin _ _ He) (conj Hl' Hi)) as (? & _). done.
  - intros Hcl k g [H|(lk' & l' & H)]; [set_solver|]. destruct (decide (lk' = lk)) as [->|].
    + destruct H as [H1 H2]. simplify_eq. left. unfold owed. destruct Hc as [?| ->]; [congruence|done].
    + right. exists lk', l'. destruct H as [H1 H2]. by rewrite lookup_delete_ne.
Qed.
Lemma Inv_cancel_run c l E s : Inv c (run_entry l ++ E) s -> Inv c E (cancel_run c l s).
Proof.
  unfold run_entry, cancel_run. destruct (l_run l) as [r|]; [|done]. intros I.
  apply Inv_fail_retire. eapply Inv_core; [|exact I].
  destruct (run_phase r), (objs s !! run_id r); try done; apply core_permits.
Qed.
Lemma Inv_lane_cancel c lk s : Inv c [] s ->
  (closed s = true \/ forall l, lanes s !! lk = Some l -> l_begun l = true) -> Inv c [] (lane_cancel c lk s).
Proof.
  intros I Hc. destruct (lanes s !! lk) as [l|] eqn:Hl; [|by unfold lane_cancel; rewrite Hl].
  rewrite (lane_cancel_eq _ _ l) by done.
  assert (I' : Inv c (owed l) (set_lanes (delete lk (lanes s)) s)).
  { apply Inv_take_lane; auto. destruct Hc; eauto. }
  unfold owed in I'. apply Inv_cancel_run in I'. cbv beta. destruct (l_begun l); [by apply Inv_drain|done].
Qed.

(** ** Lanes: dequeuing, permits held, delivery *)

Lemma entry_id_inj c E s lk l lk' l' k k' g : Inv c E s ->
  in_lane s lk l k g -> in_lane s lk' l' k' g -> lk = lk' /\ l = l' /\ k = k'.
Proof.
  intros I H H'. destruct (inv_entry _ _ _ I _ _ _ _ H) as (Ht & _).
  destruct (inv_entry _ _ _ I _ _ _ _ H') as (Ht' & _).
  destruct (inv_tick _ _ _ I _ _ Ht) as (o & Ho & <-). destruct (inv_tick _ _ _ I _ _ Ht') as (o' & Ho' & <-).
  simplify_eq. by destruct (in_lane_inj _ _ _ _ _ _ _ _ _ _ I H H') as (-> & -> & _).
Qed.
Lemma run_in_lane s lk l r : lanes s !! lk = Some l -> l_run l = Some r -> in_lane s lk l (run_key r) (run_id r).
Proof. intros Hl Hr. split; [done|]. unfold lane_entries, run_entry. rewrite Hr. set_solver. Qed.
Lemma queue_in_lane s lk l k g : lanes s !! lk = Some l -> (k, g) ∈ l_queue l -> in_lane s lk l k g.
Proof. intros Hl Hq. split; [done|]. apply elem_of_app. auto. Qed.
(** The running ticket is not also queued, anywhere. *)
Lemma run_not_queued c s lk l r lk' l' k : Inv c [] s -> lanes s !! lk = Some l -> l_run l = Some r ->
  lanes s !! lk' = Some l' -> (k, run_id r) ∈ l_queue l' -> False.
Proof.
  intros I Hl Hr Hl' Hq.
  destruct (entry_id_inj _ _ _ _ _ _ _ _ _ _ I (run_in_lane _ _ _ _ Hl Hr) (queue_in_lane _ _ _ _ _ Hl' Hq))
    as (<- & <- & <-).
  pose proof (entries_nodup _ _ _ _ _ I Hl) as H. unfold lane_entries, run_entry in H. rewrite Hr in H.
  by apply NoDup_cons in H as [? _].
Qed.

(** Replacing one lane by another with the same entries. *)
Definition same_entries (l' l : lane) : Prop := lane_entries l' = lane_entries l.
Definition swap_lane (lk : string) (l' : lane) (s : st) : st := set_lanes (<[lk := l']> (lanes s)) s.
Lemma swap_lookup lk l' s lk2 l2 : lanes (swap_lane lk l' s) !! lk2 = Some l2 <->
  (lk = lk2 /\ l' = l2) \/ (lk <> lk2 /\ lanes s !! lk2 = Some l2).
Proof. apply lookup_insert_Some. Qed.
Lemma set_run_eq lk r l s : lanes s !! lk = Some l ->
  set_run lk r s = swap_lane lk {| l_queue := l_queue l; l_begun := l_begun l; l_run := r |} s.
Proof.
  intros H. unfold set_run, swap_lane. f_equal. apply map_eq. intros lk'.
  destruct (decide (lk' = lk)) as [->|]; [by rewrite lookup_alter_eq, lookup_insert_eq, H|by rewrite lookup_alter_ne, lookup_insert_ne].
Qed.
Lemma swap_in_lane lk l l' s lk2 l2 k g : lanes s !! lk = Some l -> same_entries l' l ->
  in_lane (swap_lane lk l' s) lk2 l2 k g -> exists l2', in_lane s lk2 l2' k g.
Proof.
  intros Hl Hs [[[<- <-]|[? H]]%swap_lookup Hi]; [|by exists l2]. exists l. split; [done|]. by rewrite <- Hs.
Qed.
Lemma swap_in_lane' lk l l' s lk2 l2 k g : lanes s !! lk = Some l -> same_entries l' l ->
  in_lane s lk2 l2 k g -> exists l2', in_lane (swap_lane lk l' s) lk2 l2' k g.
Proof.
  intros Hl Hs [H Hi]. destruct (decide (lk = lk2)) as [<-|].
  - exists l'. split; [apply swap_lookup; auto|]. simplify_eq. by rewrite Hs.
  - exists l2. split; [apply swap_lookup; auto|done].
Qed.

Lemma Inv_swap c lk l l' s : Inv c [] s -> lanes s !! lk = Some l -> same_entries l' l ->
  l_queue l' = l_queue l -> l_begun l' = l_begun l ->
  (forall r, l_run l' = Some r -> run_phase r <> Delivering -> run_id r ∉ delivered s) ->
  Inv c [] (swap_lane lk l' s).
Proof.
  intros I Hl Hs Hq Hb Hd. pose proof (swap_in_lane lk l l' s) as Hto. pose proof (swap_in_lane' lk l l' s) as Hfrom.
  assert (Hrun : forall r, l_run l' = Some r -> exists r0, l_run l = Some r0 /\ run_key r0 = run_key r).
  { unfold same_entries, lane_entries, run_entry in Hs. rewrite Hq in Hs. apply app_inv_tail in Hs.
    intros r Hr. rewrite Hr in Hs. destruct (l_run l) as [r0|]; [|done]. injection Hs as ? ?. eauto. }
  open_inv I. split; auto.
  - intros lk2 l2 k g H. destruct (Hto _ _ _ _ Hl Hs H) as (? & ?). eauto.
  - intros k g H. set_solver.
  - intros lk2 l2 [[<- <-]|[? H]]%swap_lookup; [rewrite Hs|]; eauto.
  - intros lk2 l2 [[<- <-]|[? H]]%swap_lookup; [rewrite Hs|by eauto]. rewrite Hb.
    destruct (inv_lane0 _ _ Hl) as [? [Hn|]]; [|by auto]. split; [done|left].
    destruct (l_run l') as [r|]; [|done]. destruct (Hrun r eq_refl) as (? & ? & _). congruence.
  - intros Hc k g Ht Hr. destruct (inv_cover0 Hc k g Ht Hr) as [?|(lk2 & l2 & H)]; [auto|right].
    destruct (Hfrom _ _ _ _ Hl Hs H) as (? & ?). eauto.
  - intros lk2 l2 k g [[<- <-]|[? H]]%swap_lookup; [rewrite Hq|]; eauto.
  - intros lk2 l2 r [[<- <-]|[? H]]%swap_lookup Hr2; [|by eauto].
    destruct (Hrun r Hr2) as (r0 & Hr0 & <-). eauto.
  - intros lk2 l2 k g [[<- <-]|[? H]]%swap_lookup; [rewrite Hq|]; eauto.
  - intros lk2 l2 r [[<- <-]|[? H]]%swap_lookup Hr2; [by auto|]. eauto.
Qed.

(** A run changes phase; into [Delivering] the runner is called, and only then. *)
Definition with_phase (r : running) (p : phase) : running :=
  {| run_key := run_key r; run_id := run_id r; run_phase := p |}.
Lemma Inv_permitted c lk l r s : Inv c [] s -> lanes s !! lk = Some l -> l_run l = Some r ->
  run_phase r = Acquiring -> Inv c [] (set_run lk (Some (with_phase r Permitted)) s).
Proof.
  intros I Hl Hr Hp. rewrite (set_run_eq _ _ l) by done. apply (Inv_swap c lk l); auto.
  - unfold same_entries, lane_entries, run_entry; cbn. by rewrite Hr.
  - cbn. intros r' [= <-] _. cbn. eapply inv_run_delivered; eauto. congruence.
Qed.
Lemma Inv_deliver c lk l r s : Inv c [] s -> lanes s !! lk = Some l -> l_run l = Some r ->
  run_phase r <> Delivering ->
  Inv c [] (set_delivered (run_id r :: delivered s) (set_run lk (Some (with_phase r Delivering)) s)).
Proof.
  intros I Hl Hr Hp. rewrite (set_run_eq _ _ l) by done.
  pose proof (run_in_lane _ _ _ _ Hl Hr) as Hin. pose proof (inv_run_delivered _ _ _ I _ _ _ Hl Hr Hp) as Hnew.
  set (l' := {| l_queue := l_queue l; l_begun := l_begun l; l_run := Some (with_phase r Delivering) |}).
  assert (Hse : same_entries l' l).
  { unfold same_entries, lane_entries, run_entry; cbn. by rewrite Hr. }
  assert (I' : Inv c [] (swap_lane lk l' s)).
  { apply (Inv_swap c lk l); auto. cbn. by intros r' [= <-]. }
  assert (Hid : (run_id r < next_id s)%nat).
  { destruct (inv_entry _ _ _ I _ _ _ _ Hin) as (_ & _ & o & Ho & _). apply (inv_objs _ _ _ I). eauto. }
  open_inv I'. split; auto; cbn.
  - destruct inv_delivered0 as [H1 H2]. split; [by constructor|].
    intros g [->|H]%elem_of_cons; [done|]. by apply H2.
  - intros lk2 l2 k g Hl2 Hq. apply not_elem_of_cons. split; [|by eapply inv_undelivered0]. intros ->.
    apply swap_lookup in Hl2 as [[<- <-]|[? Hl2]]; eapply (run_not_queued c s lk l r); eauto.
  - intros lk2 l2 r2 Hl2 Hr2 Hp2. apply not_elem_of_cons. split; [|by eapply inv_run_delivered0].
    intros Heq. apply swap_lookup in Hl2 as [[<- <-]|[Hne Hl2]].
    + injection Hr2 as <-. done.
    + pose proof (run_in_lane _ _ _ _ Hl2 Hr2) as Hin2. rewrite Heq in Hin2.
      by destruct (entry_id_inj _ _ _ _ _ _ _ _ _ _ I Hin Hin2) as (? & _).
Qed.

(** [queue.get()], and the monitor stands down. *)
Definition dequeued (k : string) (g : nat) (q : list (string * nat)) : lane :=
  {| l_queue := q; l_begun := true; l_run := Some {| run_key := k; run_id := g; run_phase := Acquiring |} |}.
Lemma dequeued_other c lk l k g q s lk2 l2 k2 g2 : Inv c [] s -> lanes s !! lk = Some l ->
  l_queue l = (k, g) :: q -> l_run l = None ->
  lanes (swap_lane lk (dequeued k g q) s) !! lk2 = Some l2 -> (k2, g2) ∈ l_queue l2 -> k <> k2.
Proof.
  intros I Hl Hq Hr Hl2 Hq2 <-.
  assert (Hin : in_lane s lk l k g) by (eapply queue_in_lane; [done|rewrite Hq; set_solver]).
  apply swap_lookup in Hl2 as [[<- <-]|[Hne Hl2]].
  - cbn in Hq2. assert (Hin2 : in_lane s lk l k g2) by (eapply queue_in_lane; [done|rewrite Hq; set_solver]).
    destruct (in_lane_inj _ _ _ _ _ _ _ _ _ _ I Hin Hin2) as (_ & _ & <-).
    pose proof (entries_nodup _ _ _ _ _ I Hl) as H. unfold lane_entries, run_entry in H. rewrite Hr, Hq in H.
    by apply NoDup_cons in H as [? _].
  - by destruct (in_lane_inj _ _ _ _ _ _ _ _ _ _ I Hin (queue_in_lane _ _ _ _ _ Hl2 Hq2)) as (? & _).
Qed.
Lemma Inv_dequeue c lk l k g q s : Inv c [] s -> lanes s !! lk = Some l ->
  l_queue l = (k, g) :: q -> l_run l = None ->
  Inv c [] (fst (_cancel_monitor k g (swap_lane lk (dequeued k g q) s))).
Proof.
  intros I Hl Hq Hr. set (l' := dequeued k g q).
  assert (Hse : same_entries l' l).
  { unfold same_entries, lane_entries, run_entry; cbn. by rewrite Hr, Hq. }
  assert (Hin : in_lane s lk l k g) by (eapply queue_in_lane; [done|rewrite Hq; set_solver]).
  destruct (inv_entry _ _ _ I _ _ _ _ Hin) as (Ht & Hrel & _).
  unfold _cancel_monitor. rewrite decide_True by done. cbn [fst].
  pose proof (swap_in_lane lk l l' s) as Hto. pose proof (swap_in_lane' lk l l' s) as Hfrom.
  assert (Hother : forall lk2 l2 k2 g2, lanes (swap_lane lk l' s) !! lk2 = Some l2 ->
    (k2, g2) ∈ l_queue l2 -> k <> k2) by (intros lk2 l2 k2 g2; by eapply dequeued_other).
  open_inv I. split; auto; cbn.
  - intros k' g' [_ H]%lookup_delete_Some. auto.
  - intros k' [H _]%elem_of_difference. auto.
  - intros lk2 l2 k2 g2 H. destruct (Hto _ _ _ _ Hl Hse H) as (? & ?). eauto.
  - intros k2 g2 H. set_solver.
  - intros lk2 l2 [[<- <-]|[? H]]%swap_lookup; [rewrite Hse|]; eauto.
  - intros lk2 l2 [[<- <-]|[? H]]%swap_lookup; [|by eauto]. split; [done|by right].
  - intros Hc k2 g2 Ht2 Hr2. destruct (inv_cover0 Hc k2 g2 Ht2 Hr2) as [?|(lk2 & l2 & H)]; [auto|right].
    destruct (Hfrom _ _ _ _ Hl Hse H) as (? & ?). eauto.
  - intros lk2 l2 k2 g2 Hl2 Hq2. pose proof (Hother _ _ _ _ Hl2 Hq2).
    assert (Hm : monitors s !! k2 = Some g2 \/ k2 ∈ monitor_expired s).
    { apply swap_lookup in Hl2 as [[<- <-]|[? Hl2]]; [|by eauto].
      eapply inv_watch0; [exact Hl|]. rewrite Hq. set_solver. }
    rewrite lookup_delete_ne by done. destruct Hm; set_solver.
  - intros lk2 l2 r [[<- <-]|[? H]]%swap_lookup Hr2.
    + injection Hr2 as <-. cbn. rewrite lookup_delete_None. set_solver.
    + destruct (inv_unwatch0 _ _ _ H Hr2). rewrite lookup_delete_None. set_solver.
  - intros k2 H. destruct (inv_relmon0 _ H). rewrite lookup_delete_None. set_solver.
  - intros lk2 l2 k2 g2 [[<- <-]|[? H]]%swap_lookup Hq2; [|by eauto].
    eapply (inv_undelivered0 _ _ k2); [exact Hl|]. rewrite Hq. cbn in Hq2. set_solver.
  - intros lk2 l2 r [[<- <-]|[? H]]%swap_lookup Hr2; [|by eauto]. injection Hr2 as <-. intros _; cbn.
    eapply (inv_undelivered0 _ _ k); [exact Hl|]. rewrite Hq. set_solver.
Qed.

