(* ===== verification/AdmissionKeys.v ===== *)
(** * harness/admission.py: the invariant through the admission path

    Admitting a key, recovering a run, the deadline monitor and the sweep preserve the invariant of
    AdmissionInv. *)

From S2P Require Import Prelude Sha256 PyJson Refs Config Channels Admission AdmissionInv.
From stdpp Require Import fin_sets gmap.
From Stdlib Require Import Sorted.
Local Open Scope Z_scope.

(** ** Admission of a new key *)

Lemma lane_put_eq lk k g s : lane_put lk k g s =
  let l := from_option id {| l_queue := []; l_begun := false; l_run := None |} (lanes s !! lk) in
  swap_lane lk {| l_queue := l_queue l ++ [(k, g)]; l_begun := l_begun l; l_run := l_run l |} s.
Proof. done. Qed.
Lemma core_append_admits ws s : core (foldl append_admit s ws) = core s.
Proof. revert s. induction ws as [|w ws IH]; intros s; [done|]. cbn. by rewrite IH. Qed.

(** The state of a key just marked, counted and watched, its entry not yet in a lane. *)
Definition marked (c : cfg) (k : string) (kind : tkind) (s : st) : st :=
  let g := next_id s in
  set_monitors (<[k := g]> (monitors s))
  (set_queued_total (queued_total s + 1) (set_tickets (<[k := g]> (tickets s))
  (set_objs (<[g := {| t_invocation_id := k; t_kind := kind; t_deadline_at := clock s + c_max_invocation c;
                       t_started := FPending; t_completed := FPending |}]> (objs s))
  (set_next_id (S g) s)))).

Lemma size_add (X : gset string) k : k ∉ X -> Z.of_nat (size ({[k]} ∪ X)) = Z.of_nat (size X) + 1.
Proof. intros. rewrite (size_union {[k]}) by set_solver. rewrite size_singleton. lia. Qed.
Lemma known_fresh (X R : gset string) k : k ∉ X -> R ⊆ X -> ({[k]} ∪ X) ∖ R = {[k]} ∪ (X ∖ R).
Proof. intros. apply set_eq; intros x. destruct (decide (x = k)); set_solver. Qed.

Lemma Inv_marked c k kind s : closed s = false -> tickets s !! k = None -> recovered s !! k = None ->
  Inv c [] s -> Inv c [(k, next_id s)] (marked c k kind s).
Proof.
  intros Hcl Ht Hr I. assert (Hk : k ∉ known s).
  { unfold known. by rewrite not_elem_of_union, !not_elem_of_dom. }
  assert (Hfresh : forall g o, objs s !! g = Some o -> next_id s <> g).
  { intros g o Ho <-. assert (next_id s < next_id s)%nat by (apply (inv_objs _ _ _ I); eauto). lia. }
  assert (Hne : forall k' g', tickets s !! k' = Some g' -> k <> k') by congruence.
  open_inv I.
  assert (Hobj : forall g o, objs s !! g = Some o -> objs (marked c k kind s) !! g = Some o).
  { intros g o Ho. cbn. rewrite lookup_insert_ne; eauto. }
  split; auto; cbn.
  - intros g. cbn. rewrite lookup_insert_is_Some, inv_objs0. destruct (decide (next_id s = g)); lia || (subst; lia).
  - intros k' g [[<- <-]|[? H]]%lookup_insert_Some.
    + eexists. cbn. by rewrite lookup_insert_eq.
    + destruct (inv_tick0 _ _ H) as (o & Ho & ?). eauto.
  - intros k' g [[<- <-]|[? H]]%lookup_insert_Some; [done|]. by eapply inv_disj0.
  - unfold known in *; cbn. rewrite dom_insert_L. set_solver.
  - cbn. rewrite inv_total0. unfold known at 2; cbn.
    rewrite dom_insert_L, <- (assoc_L (∪)). fold (known s).
    rewrite known_fresh by auto. rewrite size_add by set_solver. done.
  - intros k' g [[<- <-]|[? H]]%lookup_insert_Some; cbn; [by rewrite lookup_insert_eq|].
    rewrite lookup_insert_ne by done. auto.
  - intros k' H. destruct (inv_exp0 _ H) as (g & o & H1 & H2 & H3). exists g, o.
    split_and!; [cbn; rewrite lookup_insert_ne; eauto|auto|auto].
  - intros lk l k' g H. destruct (inv_entry0 _ _ _ _ H) as (H1 & H2 & o & H3 & H4).
    split_and!; [cbn; rewrite lookup_insert_ne; eauto|done|eauto].
  - intros k' g [= -> ->]%list_elem_of_singleton. cbn. rewrite lookup_insert_eq. split_and!; [done|set_solver|].
    intros lk l H. apply inv_entry0 in H as (H & _). congruence.
  - apply NoDup_singleton.
  - intros _ k' g [[<- <-]|[? H]]%lookup_insert_Some Hrel; [left; set_solver|right].
    destruct (inv_cover0 Hcl _ _ H Hrel) as [?|]; [set_solver|done].
  - intros k' g o Hrel [[<- <-]|[? H]]%lookup_insert_Some; [set_solver|]. cbn.
    intros [[<- <-]|[? Ho]]%lookup_insert_Some; [|eauto].
    destruct (inv_tick0 _ _ H) as (o & Ho & _). by apply Hfresh in Ho.
  - intros lk l k' g Hl Hq. assert (k <> k').
    { eapply Hne. eapply inv_entry0. by eapply queue_in_lane. }
    cbn. rewrite lookup_insert_ne by done. eauto.
  - intros lk l r Hl Hrun. cbn. rewrite lookup_insert_ne; [by eauto|].
    eapply Hne. eapply inv_entry0. by eapply run_in_lane.
  - intros k' Hk'. cbn. rewrite lookup_insert_ne by set_solver. auto.
  - cbn. destruct inv_delivered0 as [H1 H2]. split; [done|]. intros g Hg. apply H2 in Hg. lia.
Qed.

Lemma StronglySorted_snoc (l : list nat) x :
  StronglySorted Nat.lt l -> (forall y, y ∈ l -> (y < x)%nat) -> StronglySorted Nat.lt (l ++ [x]).
Proof.
  induction 1 as [|y l Hs IH Hf]; intros H; cbn; [by repeat constructor|]. constructor.
  - apply IH. set_solver.
  - rewrite List.Forall_app. split; [done|]. repeat constructor. apply H. set_solver.
Qed.
Lemma lane_put_lookup lk k g s lk2 l2 : lanes (lane_put lk k g s) !! lk2 = Some l2 <->
  (lk = lk2 /\ let l := from_option id {| l_queue := []; l_begun := false; l_run := None |} (lanes s !! lk) in
     l2 = {| l_queue := l_queue l ++ [(k, g)]; l_begun := l_begun l; l_run := l_run l |})
  \/ (lk <> lk2 /\ lanes s !! lk2 = Some l2).
Proof. rewrite lane_put_eq. cbv zeta. rewrite swap_lookup. naive_solver. Qed.
Lemma lane_put_entries lk k g s l2 : lanes (lane_put lk k g s) !! lk = Some l2 ->
  lane_entries l2 = from_option lane_entries [] (lanes s !! lk) ++ [(k, g)].
Proof.
  intros [[_ ->]|[? _]]%lane_put_lookup; [|done]. unfold lane_entries, run_entry; cbn.
  destruct (lanes s !! lk) as [l|]; cbn; [by rewrite <- app_assoc|done].
Qed.
Lemma lane_put_in lk k g s lk2 l2 k2 g2 : in_lane (lane_put lk k g s) lk2 l2 k2 g2 ->
  (lk2 = lk /\ k2 = k /\ g2 = g) \/ exists l, in_lane s lk2 l k2 g2.
Proof.
  intros [Hl Hi]. pose proof Hl as [[<- _]|[? H]]%lane_put_lookup; [|by right; exists l2].
  rewrite (lane_put_entries _ _ _ _ _ Hl) in Hi. apply elem_of_app in Hi as [Hi|Hi]; [|left; set_solver].
  destruct (lanes s !! lk) as [l|] eqn:E; [|set_solver]. right. by exists l.
Qed.
Lemma lane_put_in' lk k g s lk2 l2 k2 g2 : in_lane s lk2 l2 k2 g2 ->
  exists l, in_lane (lane_put lk k g s) lk2 l k2 g2.
Proof.
  intros [Hl Hi]. destruct (decide (lk = lk2)) as [<-|].
  - eexists. split; [apply lane_put_lookup; left; eauto|]. rewrite Hl. cbn.
    unfold lane_entries, run_entry in *; cbn. set_solver.
  - exists l2. split; [apply lane_put_lookup; auto|done].
Qed.
(** The lane's run is the old one, its queue the old one and the new entry. *)
Lemma lane_put_old lk k g s lk2 l2 : lanes (lane_put lk k g s) !! lk2 = Some l2 ->
  (forall k2 g2, (k2, g2) ∈ l_queue l2 ->
     (lk2 = lk /\ k2 = k /\ g2 = g) \/ exists l, lanes s !! lk2 = Some l /\ (k2, g2) ∈ l_queue l)
  /\ (forall r, l_run l2 = Some r -> exists l, lanes s !! lk2 = Some l /\ l_run l = Some r).
Proof.
  intros [[<- ->]|[? H]]%lane_put_lookup; [|split; [intros k2 g2 Hq; right; by exists l2|by eauto]].
  destruct (lanes s !! lk) as [l|] eqn:E; cbn; split; [|by eauto| |done].
  - intros k2 g2 [H|H]%elem_of_app; [right; by exists l|left; set_solver].
  - intros k2 g2 H. left; set_solver.
Qed.

Lemma Inv_lane_put c k g o s : Inv c [(k, g)] s -> objs s !! g = Some o -> monitors s !! k = Some g ->
  (forall lk l k' g', in_lane s lk l k' g' -> (g' < g)%nat) -> g ∉ delivered s ->
  Inv c [] (lane_put (lane_key_of c o) k g s).
Proof.
  intros I Ho Hmon Hlt Hnd. set (lk := lane_key_of c o).
  pose proof (lane_put_in lk k g s) as Hto. pose proof (lane_put_in' lk k g s) as Hfrom.
  pose proof (lane_put_old lk k g s) as Hold.
  open_inv I. destruct (inv_loose0 k g ltac:(set_solver)) as (Ht & Hr & _).
  split; auto.
  - intros lk2 l2 k2 g2 [(-> & -> & ->)|(l & H)]%Hto; [|by eauto]. eauto.
  - intros k2 g2 H. set_solver.
  - constructor.
  - intros lk2 l2 Hl. destruct (decide (lk = lk2)) as [<-|].
    + rewrite (lane_put_entries _ _ _ _ _ Hl), map_app. destruct (lanes s !! lk) as [l|] eqn:El; cbn.
      * apply StronglySorted_snoc; [by eapply inv_fifo0|].
        intros y ([k' g'] & -> & Hy)%list_elem_of_fmap. by eapply Hlt.
      * by repeat constructor.
    + apply lane_put_lookup in Hl as [[? _]|[_ Hl]]; [done|]. eauto.
  - intros lk2 l2 Hl. apply lane_put_lookup in Hl as [[<- ->]|[? Hl]]; [|by eauto]. cbn. split.
    + unfold lane_entries; cbn. intros H%app_eq_nil. destruct H as [_ H]. by destruct (l_queue _).
    + destruct (lanes s !! lk) as [l|] eqn:El; cbn; [|by left]. by eapply inv_lane0.
  - intros Hc k2 g2 Ht2 Hr2. right. destruct (inv_cover0 Hc _ _ Ht2 Hr2) as [H|(lk2 & l2 & H)].
    + apply list_elem_of_singleton in H as [= -> ->]. exists lk. eexists. split.
      * apply lane_put_lookup. left. eauto.
      * unfold lane_entries; cbn. set_solver.
    + destruct (Hfrom _ _ _ _ H) as (? & ?). eauto.
  - intros lk2 l2 k2 g2 Hl Hq. destruct (Hold _ _ Hl) as [H _].
    destruct (H _ _ Hq) as [(-> & -> & ->)|(l & ? & ?)]; [by left|eauto].
  - intros lk2 l2 r Hl Hrun. destruct (Hold _ _ Hl) as [_ H]. destruct (H _ Hrun) as (l & ? & ?). eauto.
  - intros lk2 l2 k2 g2 Hl Hq. destruct (Hold _ _ Hl) as [H _].
    destruct (H _ _ Hq) as [(-> & -> & ->)|(l & ? & ?)]; [done|eauto].
  - intros lk2 l2 r Hl Hrun. destruct (Hold _ _ Hl) as [_ H]. destruct (H _ Hrun) as (l & ? & ?). eauto.
Qed.

Lemma enqueue_eq c k kind ws s : exists s', core s' = core (marked c k kind s) /\
  let o := {| t_invocation_id := k; t_kind := kind; t_deadline_at := clock s + c_max_invocation c;
              t_started := FPending; t_completed := FPending |} in
  enqueue c k kind ws s = (lane_put (lane_key_of c o) k (next_id s) s', next_id s).
Proof.
  eexists. split; [|reflexivity].
  match goal with |- core (set_monitors _ ?x) = _ =>
    match x with foldl append_admit ?y ws => pose proof (core_append_admits ws y) as H end end.
  unfold core in H |- *. injection H as H1 H2 H3 H4 H5 H6 H7 H8 H9 H10 H11 H12 H13. cbn.
  rewrite H1, H2, H3, H4, H5, H6, H7, H8, H9, H10, H11, H12, H13. done.
Qed.
Lemma Inv_enqueue c k kind ws s : closed s = false -> tickets s !! k = None -> recovered s !! k = None ->
  Inv c [] s -> Inv c [] (fst (enqueue c k kind ws s)).
Proof.
  intros Hc Ht Hr I. destruct (enqueue_eq c k kind ws s) as (s' & Hs' & ->). cbn [fst].
  pose proof (Inv_marked c k kind s Hc Ht Hr I) as I'. apply (Inv_core _ _ _ _ Hs') in I'.
  assert (H : objs s' = objs (marked c k kind s) /\ monitors s' = monitors (marked c k kind s)
    /\ lanes s' = lanes s /\ delivered s' = delivered s) by (unfold core in Hs'; by simplify_eq).
  destruct H as (Hobjs & Hmon & Hlanes & Hdel). apply Inv_lane_put; auto.
  - rewrite Hobjs. cbn. by rewrite lookup_insert_eq.
  - rewrite Hmon. cbn. by rewrite lookup_insert_eq.
  - intros lk l k' g' H. unfold in_lane in H. rewrite Hlanes in H.
    destruct (inv_entry _ _ _ I _ _ _ _ H) as (_ & _ & o & Ho & _). apply (inv_objs _ _ _ I). eauto.
  - rewrite Hdel. intros H%(inv_delivered _ _ _ I). lia.
Qed.

(** ** Recovered runs *)

Lemma Inv_recovered c E k r s : tickets s !! k = None -> recovered s !! k = None -> Inv c E s ->
  Inv c E (set_recovery_tasks ({[k]} ∪ recovery_tasks s)
    (set_queued_total (queued_total s + 1) (set_recovered (<[k := r]> (recovered s)) s))).
Proof.
  intros Ht Hr I. assert (Hk : k ∉ known s).
  { unfold known. by rewrite not_elem_of_union, !not_elem_of_dom. }
  open_inv I. split; auto; cbn.
  - intros k' g H. rewrite lookup_insert_ne by congruence. eauto.
  - unfold known in *; cbn. rewrite dom_insert_L. set_solver.
  - rewrite inv_total0. unfold known at 2; cbn. rewrite dom_insert_L.
    replace (dom (tickets s) ∪ ({[k]} ∪ dom (recovered s))) with ({[k]} ∪ known s) by (unfold known; set_solver).
    rewrite known_fresh by auto. rewrite size_add by set_solver. done.
  - intros k' r' Hrel [[<- <-]|[? H]]%lookup_insert_Some; [set_solver|eauto].
  - intros Hc k' [Hk'%elem_of_singleton|H]%elem_of_union.
    + subst. rewrite lookup_insert_eq. split; [eauto|set_solver].
    + destruct (inv_tasks0 Hc _ H). rewrite lookup_insert_is_Some. split; [|done].
      destruct (decide (k = k')); auto.
Qed.

(** An observer settles its run, releases its capacity and ends. *)
Definition settled_run (f : fut -> fut) : Prop := forall x, fut_done (f x) = true.
Lemma settled_set : settled_run fut_set.
Proof. by intros []. Qed.
Lemma settled_fail e : settled_run (fut_fail e).
Proof. by intros []. Qed.
#[export] Hint Resolve settled_set settled_fail : admission.

Lemma run_future_lookup f k s k' r' : recovered (run_future f k s) !! k' = Some r' ->
  exists r, recovered s !! k' = Some r
    /\ (if decide (k = k') then r_completed r' = f (r_completed r) else r' = r).
Proof. cbn. rewrite lookup_alter. case_decide; [|eauto]. subst. rewrite fmap_Some. intros (r & ? & ->). eauto. Qed.
Lemma run_future_known f k s : known (run_future f k s) = known s.
Proof. unfold known; cbn. by rewrite dom_alter_L. Qed.
Lemma run_future_Some f k s k' : is_Some (recovered (run_future f k s) !! k') <-> is_Some (recovered s !! k').
Proof. cbn. apply lookup_alter_is_Some. Qed.

Lemma Inv_end_recovered c E f k s : settled_run f -> is_Some (recovered s !! k) -> k ∉ released s -> Inv c E s ->
  Inv c E (set_recovery_tasks (recovery_tasks s ∖ {[k]}) (end_recovered f k s)).
Proof.
  intros Hf Hk Hr I. assert (Hknown : k ∈ known s) by (destruct Hk; by eapply known_recovered).
  assert (Hnt : tickets s !! k = None).
  { destruct (tickets s !! k) eqn:E'; [|done]. apply (inv_disj _ _ _ I) in E'. destruct Hk; congruence. }
  unfold end_recovered. rewrite release_spec by done. open_inv I. split; auto; cbn.
  - intros k' g H. rewrite lookup_alter_None. eauto.
  - change ({[k]} ∪ released s ⊆ known (run_future f k s)). rewrite run_future_known. set_solver.
  - rewrite inv_total0. symmetry. change (known _) with (known (run_future f k s)) at 1.
    rewrite run_future_known. by apply size_unrelease.
  - intros lk l k' g H. destruct (inv_entry0 _ _ _ _ H) as (H1 & ? & ?). split_and!; auto.
    assert (k <> k') by congruence. set_solver.
  - intros k' g H. destruct (inv_loose0 _ _ H) as (H1 & ? & ?). split_and!; auto.
    assert (k <> k') by congruence. set_solver.
  - intros Hc k' g Ht Hr'. apply inv_cover0; auto. set_solver.
  - intros k' g o Hr' Ht Ho. apply (inv_done0 k' g); auto. assert (k <> k') by congruence. set_solver.
  - intros k' r' Hr' (r & H & Hd)%run_future_lookup. case_decide; [by rewrite Hd|]. subst.
    apply (inv_rdone0 k'); [set_solver|done].
  - intros k' [->%elem_of_singleton|H]%elem_of_union; [|auto]. split.
    + destruct (monitors s !! k) eqn:E'; [|done]. apply inv_mon0 in E'. congruence.
    + intros (g & o & ? & _)%inv_exp0. congruence.
  - intros k'. rewrite elem_of_union, elem_of_singleton, inv_comp0, lookup_insert_is_Some.
    destruct (decide (k = k')); naive_solver.
  - intros Hc k' [H Hn]%elem_of_difference. destruct (inv_tasks0 Hc _ H). split; [|set_solver].
    by apply lookup_alter_is_Some.
Qed.
Lemma Inv_drop_task c E k s : Inv c E s -> Inv c E (set_recovery_tasks (recovery_tasks s ∖ {[k]}) s).
Proof. intros I. open_inv I. split; auto. cbn. intros Hc k' [H _]%elem_of_difference. auto. Qed.

(** ** The deadline monitor *)

Lemma Inv_monitor c k s : Inv c [] s -> Inv c [] (monitor_poll k s).
Proof.
  intros I. unfold monitor_poll. destruct (monitors s !! k) as [g|] eqn:Hm; [|done].
  destruct (objs s !! g) as [o|] eqn:Ho; [|done]. destruct (_ <=? _); [|done].
  pose proof (inv_mon _ _ _ I _ _ Hm) as Ht.
  assert (Hnr : k ∉ released s) by (intros H%(inv_relmon _ _ _ I); destruct H; congruence).
  apply (Inv_fail _ _ g TimeoutError) in I. pose proof (fail_settles g TimeoutError s) as Hd.
  assert (Hg : objs (_fail g TimeoutError s) !! g
    = Some (obj_futs (fut_fail TimeoutError) (fut_fail TimeoutError) o)).
  { unfold _fail. rewrite (upd_obj_Some _ _ _ _ o) by done. by rewrite decide_True. }
  set (s' := _fail g TimeoutError s) in *.
  enough (I' : Inv c [] (set_monitors (delete k (monitors s')) (set_monitor_expired ({[k]} ∪ monitor_expired s') s')))
    by (by eapply Inv_core; [|exact I']).
  open_inv I. split; auto; cbn.
  - intros k' g' [_ H]%lookup_delete_Some. auto.
  - intros k' [->%elem_of_singleton|H]%elem_of_union; [|auto]. eauto 6.
  - intros lk l k' g' Hl Hq. destruct (decide (k = k')) as [<-|]; [right; set_solver|].
    rewrite lookup_delete_ne by done. destruct (inv_watch0 _ _ _ _ Hl Hq); [auto|right; set_solver].
  - intros lk l r Hl Hr. destruct (inv_unwatch0 _ _ _ Hl Hr) as [H1 H2]. rewrite lookup_delete_None.
    split; [auto|]. assert (k <> run_key r) by (intros ->; change (monitors s') with (monitors s) in H1; congruence).
    set_solver.
  - intros k' Hk'. destruct (inv_relmon0 _ Hk'). rewrite lookup_delete_None. split; [auto|].
    assert (k <> k') by (intros ->; done). set_solver.
Qed.

(** ** The admission path: sweep, lookup, rate limits *)

Lemma forget_all_released ks s :
  released (foldr _forget s ks) = released s ∖ list_to_set ks.
Proof. induction ks as [|k ks IH]; cbn; [set_solver|]. rewrite IH. set_solver. Qed.
Lemma Inv_forget_all c ks s : NoDup ks -> (forall k, k ∈ ks -> k ∈ released s) ->
  Inv c [] s -> Inv c [] (foldr _forget s ks).
Proof.
  induction 1 as [|k ks Hk HND IH]; intros Hrel I; [done|]. cbn. apply Inv_forget.
  - rewrite forget_all_released. set_solver.
  - apply IH; [set_solver|done].
Qed.
Lemma expired_keys_spec c s k : k ∈ expired_keys c s <->
  k ∈ known s /\ k ∈ released s /\ window_elapsed c s k = true.
Proof.
  unfold expired_keys. rewrite list_elem_of_In, filter_In, <- list_elem_of_In, elem_of_elements,
    andb_true_iff, bool_decide_eq_true. done.
Qed.
Lemma expired_keys_nodup c s : NoDup (expired_keys c s).
Proof. apply NoDup_ListNoDup, List.NoDup_filter, NoDup_ListNoDup, NoDup_elements. Qed.
Lemma core_sweep c s : core (_sweep_expired c s) = core (forget_expired c s).
Proof. done. Qed.
Lemma Inv_sweep c s : Inv c [] s -> Inv c [] (_sweep_expired c s).
Proof.
  intros I. apply (Inv_core _ _ _ _ (core_sweep c s)). apply Inv_forget_all; [apply expired_keys_nodup| |done].
  intros k Hk. by apply expired_keys_spec in Hk as (_ & ? & _).
Qed.
Lemma forget_all_closed ks s : closed (foldr _forget s ks) = closed s.
Proof. by induction ks. Qed.
Lemma sweep_closed c s : closed (_sweep_expired c s) = closed s.
Proof. apply forget_all_closed. Qed.

Lemma Inv_existing c k s : Inv c [] s -> Inv c [] (fst (_existing_ticket c k s)).
Proof.
  intros I. unfold _existing_ticket. destruct (find_record k s); [|done].
  destruct (decide _) as [Hk|]; [|done]. destruct (completed_at s !! k); [|done].
  destruct (_ <=? _); [|done]. by apply Inv_forget.
Qed.
Lemma existing_closed c k s : closed (fst (_existing_ticket c k s)) = closed s.
Proof.
  unfold _existing_ticket. destruct (find_record k s); [|done].
  destruct (decide _); [|done]. destruct (completed_at s !! k); [|done]. by destruct (_ <=? _).
Qed.
(** A lookup that finds nothing leaves the key free. *)
Lemma existing_None c k s s' : _existing_ticket c k s = (s', None) ->
  tickets s' !! k = None /\ recovered s' !! k = None.
Proof.
  unfold _existing_ticket, find_record.
  destruct (tickets s !! k) eqn:Ht; [|destruct (recovered s !! k) eqn:Hr]; [| |intros [= <-]; done].
  all: destruct (decide _); [|done]; destruct (completed_at s !! k); [|done]; destruct (_ <=? _); [|done].
  all: intros [= <-]; cbn; by rewrite !lookup_delete_eq.
Qed.
Lemma core_check_windows checks s : core (fst (check_windows checks s)) = core s.
Proof.
  revert s. induction checks as [|[k cap] checks IH]; intros s; [done|]. cbn.
  destruct (_ <=? _); [done|]. match goal with |- context [check_windows checks ?s'] => specialize (IH s') end.
  destruct (check_windows checks _). exact IH.
Qed.
Lemma core_check_rate c re s : core (fst (_check_rate c re s)) = core s.
Proof.
  unfold _check_rate. destruct (c_rate_limits c !! _); [|done].
  destruct (rate_checks _ _ _); [apply core_check_windows|done].
Qed.
Lemma core_note_recovered r s : core (note_recovered r s) = core s.
Proof. by destruct r. Qed.

