(* ===== verification/AdmissionSteps.v ===== *)
(** * harness/admission.py: every step preserves the invariant

    One lemma per operation, [close] included, and the induction over reachable states. *)

From S2P Require Import Prelude Sha256 PyJson Refs Config Channels Admission AdmissionInv AdmissionKeys.
From stdpp Require Import fin_sets gmap.
From Stdlib Require Import Sorted.
Local Open Scope Z_scope.

(** ** Every step preserves the invariant *)

Lemma core_closed s s' : core s' = core s -> closed s' = closed s.
Proof. unfold core. by intros [=]. Qed.
Lemma core_fields s s' : core s' = core s ->
  tickets s' = tickets s /\ recovered s' = recovered s /\ next_id s' = next_id s /\ released s' = released s
  /\ queued_total s' = queued_total s /\ lanes s' = lanes s /\ objs s' = objs s /\ delivered s' = delivered s.
Proof. unfold core. intros [= ? ? ? ? ? ? ? ? ? ? ? ? ?]. by split_and!. Qed.

Lemma Inv_admit c re s : Inv c [] s -> Inv c [] (fst (admit_ c re s)).
Proof.
  intros I. unfold admit_. destruct (closed s) eqn:Hc; [done|].
  apply Inv_sweep in I. rewrite <- (sweep_closed c s) in Hc. set (s1 := _sweep_expired c s) in *.
  pose proof (Inv_existing c (_dedup_key c re) s1 I) as I2.
  pose proof (existing_closed c (_dedup_key c re) s1) as Hc2.
  destruct (_existing_ticket _ _ _) as [s2 [r|]] eqn:He; cbn [fst] in *.
  { eapply Inv_core; [apply core_note_recovered|done]. }
  apply existing_None in He as [Ht Hr].
  pose proof (core_check_rate c re s2) as Hcore. destruct (_check_rate c re s2) as [s3 [ws|e]]; cbn [fst] in *; cycle 1.
  { exact (Inv_core _ _ _ _ Hcore I2). }
  pose proof (core_closed _ _ Hcore) as Hc3. destruct (core_fields _ _ Hcore) as (HT & HR & _).
  apply (Inv_core _ _ _ _ Hcore) in I2. destruct (_ <=? _); [by eapply Inv_core; [|exact I2]|].
  pose proof (Inv_enqueue c (_dedup_key c re) (agent_kind c re) ws s3) as H.
  destruct (enqueue _ _ _ _ _). cbn [fst] in *. apply H; congruence.
Qed.
Lemma Inv_admit_script c ev s : Inv c [] s -> Inv c [] (fst (admit_script c ev s)).
Proof.
  intros I. unfold admit_script. destruct (closed s) eqn:Hc; [done|].
  apply Inv_sweep in I. rewrite <- (sweep_closed c s) in Hc. set (s1 := _sweep_expired c s) in *.
  set (k := invocation_digest _ _ _). pose proof (Inv_existing c k s1 I) as I2.
  pose proof (existing_closed c k s1) as Hc2.
  destruct (_existing_ticket _ _ _) as [s2 [r|]] eqn:He; cbn [fst] in *.
  { apply (Inv_core _ _ _ (note_recovered r s2)) in I2; [|apply core_note_recovered].
    destruct r; [destruct (from_option _ _ _)|]; done. }
  apply existing_None in He as [Ht Hr]. destruct (_ <=? _); [by eapply Inv_core; [|exact I2]|].
  pose proof (Inv_enqueue c k (Script ev) [] s2) as H.
  destruct (enqueue _ _ _ _ _). cbn [fst] in *. apply H; congruence.
Qed.
Lemma Inv_recover c k r s : Inv c [] s -> Inv c [] (fst (recover c k r s)).
Proof.
  intros I. unfold recover. destruct (closed s); [done|]. apply Inv_sweep in I.
  set (s1 := _sweep_expired c s) in *. destruct (tickets s1 !! k) eqn:Ht; [done|].
  destruct (recovered s1 !! k) as [r'|] eqn:Hr.
  - destruct (same_run r' r); [|done]. by eapply Inv_core; [|exact I].
  - cbn [fst]. eapply Inv_core; [|by apply (Inv_recovered _ _ k (fresh_run r))]. done.
Qed.

(** Failing the run and finishing, whatever else changes outside the core. *)
Lemma Inv_fail_finish c lk l r e s s' : Inv c [] s -> lanes s !! lk = Some l -> l_run l = Some r ->
  core s' = core (_fail (run_id r) e s) -> Inv c [] (finish lk (run_key r) (run_id r) s').
Proof.
  intros I Hl Hr Hs. destruct (core_fields _ _ Hs) as (_ & _ & _ & _ & _ & HL & HO & _).
  apply (Inv_finish c lk l); auto.
  - eapply Inv_core; [done|]. by apply Inv_fail.
  - by rewrite HL.
  - rewrite HO. apply fail_settles.
Qed.

Lemma Inv_lane_start c lk s : Inv c [] s -> Inv c [] (lane_start c lk s).
Proof.
  intros I. unfold lane_start. destruct (lanes s !! lk) as [[[|[k g] q] b [r|]]|] eqn:Hl; try done.
  destruct (objs s !! g) as [o|] eqn:Ho; [|done].
  pose proof (Inv_dequeue c lk _ k g q s I Hl eq_refl eq_refl) as I'.
  change (set_lanes (<[lk := dequeued k g q]> (lanes s)) s) with (swap_lane lk (dequeued k g q) s).
  fold (dequeued k g q). set (s0 := swap_lane lk (dequeued k g q) s) in *.
  change (set_lanes _ s) with s0. pose proof (inv_exp _ _ _ I k) as Hexp.
  assert (Ht : tickets s !! k = Some g).
  { eapply inv_entry; [done|]. eapply queue_in_lane; [done|]. cbn. set_solver. }
  unfold _cancel_monitor in *. rewrite decide_True in * by done. cbn [fst] in I'.
  set (s1 := set_monitor_expired _ _) in *.
  assert (Hl1 : lanes s1 !! lk = Some (dequeued k g q)) by apply lookup_insert_eq.
  case_bool_decide as Hm.
  { apply (Inv_finish c lk (dequeued k g q) {| run_key := k; run_id := g; run_phase := Acquiring |}); auto.
    destruct (Hexp Hm) as (g' & o' & ? & ? & ?). simplify_eq. cbn. change (objs s1) with (objs s). congruence. }
  destruct (_ <=? _).
  { by apply (Inv_fail_finish c lk _ {| run_key := k; run_id := g; run_phase := Acquiring |} TimeoutError _ _ I' Hl1). }
  destruct (t_workspace o); by eapply Inv_core; [|exact I'].
Qed.
Lemma Inv_lane_poll c lk s : Inv c [] s -> Inv c [] (lane_poll c lk s).
Proof.
  intros I. unfold lane_poll. destruct (lanes s !! lk) as [[q b [[k g []]|]]|] eqn:Hl; try done.
  destruct (objs s !! g) as [o|] eqn:Ho; [|done]. destruct (_ <=? _).
  { by apply (Inv_fail_finish c lk _ {| run_key := k; run_id := g; run_phase := Acquiring |} TimeoutError _ _ I Hl). }
  destruct (can_acquire c o s); [|done].
  apply (Inv_core _ _ _ (permits c (-1) o s)) in I; [|apply core_permits].
  eapply (Inv_permitted c lk _ {| run_key := k; run_id := g; run_phase := Acquiring |}); 
    [done|by rewrite permits_lanes|done|done].
Qed.
Lemma Inv_lane_deliver c lk s : Inv c [] s -> Inv c [] (lane_deliver c lk s).
Proof.
  intros I. unfold lane_deliver. destruct (lanes s !! lk) as [[q b [[k g []]|]]|] eqn:Hl; try done.
  destruct (objs s !! g) as [o|] eqn:Ho; [|done]. destruct (_ <=? _).
  { apply (Inv_fail_finish c lk _ {| run_key := k; run_id := g; run_phase := Permitted |} TimeoutError _ _ I Hl); [done|].
    by rewrite core_permits. }
  by apply (Inv_deliver c lk _ {| run_key := k; run_id := g; run_phase := Permitted |} s I Hl).
Qed.
Lemma Inv_lane_done c lk out s : Inv c [] s -> Inv c [] (lane_done c lk out s).
Proof.
  intros I. unfold lane_done. destruct (lanes s !! lk) as [[q b [[k g []]|]]|] eqn:Hl; try done.
  destruct (objs s !! g) as [o|] eqn:Ho; [|done]. destruct out as [|e]; cbn [resolve].
  - set (s1 := upd_obj _ g s). assert (I1 : Inv c [] s1) by (apply Inv_futs; auto with admission).
    destruct (core_fields _ _ (core_permits c 1 o s1)) as (_ & _ & _ & _ & _ & HL & HO & _).
    apply (Inv_finish c lk {| l_queue := q; l_begun := b; l_run := Some {| run_key := k; run_id := g; run_phase := Delivering |} |}
      {| run_key := k; run_id := g; run_phase := Delivering |}); [|by rewrite HL|done|].
    + eapply Inv_core; [apply core_permits|done].
    + rewrite HO. intros o' (o0 & _ & ->)%upd_obj_lookup. cbn. rewrite decide_True by done. auto with admission.
  - apply (Inv_fail_finish c lk _ {| run_key := k; run_id := g; run_phase := Delivering |} e _ _ I Hl); [done|].
    rewrite core_permits. by destruct (is_script o).
Qed.
Lemma Inv_observe c k obs s : closed s = false -> Inv c [] s -> Inv c [] (observe_done k obs s).
Proof.
  intros Hc I. unfold observe_done. destruct (decide _) as [Hk|]; [|done].
  destruct (inv_tasks _ _ _ I Hc _ Hk) as [Hr Hn]. destruct obs.
  - rewrite decide_False by done. apply (Inv_end_recovered _ _ fut_set k) in I; auto with admission.
    eapply Inv_core; [|exact I]. unfold end_recovered. by rewrite !release_spec.
  - apply (Inv_end_recovered _ _ (fut_fail WorkspaceOwnerLost) k) in I; auto with admission.
    eapply Inv_core; [|exact I]. unfold end_recovered. by rewrite !release_spec.
  - apply (Inv_drop_task _ _ k) in I. by eapply Inv_core; [|exact I].
Qed.

(** ** close() *)

(** Once closed, observers and coverage are out of the picture. *)
Lemma Inv_closed c E T s : closed s = true -> Inv c E s -> Inv c E (set_recovery_tasks T s).
Proof. intros Hc I. open_inv I. split; auto. cbn. congruence. Qed.
Lemma Inv_set_closed c E s : Inv c E s -> Inv c E (set_closed true s).
Proof. intros I. open_inv I. by split; auto. Qed.

Lemma close_recovered_spec k s : closed (close_recovered k s) = closed s
  /\ lanes (close_recovered k s) = lanes s /\ monitors (close_recovered k s) = monitors s
  /\ tickets (close_recovered k s) = tickets s /\ recovery_tasks (close_recovered k s) = recovery_tasks s
  /\ dom (recovered (close_recovered k s)) = dom (recovered s)
  /\ released (close_recovered k s) = {[k]} ∪ released s.
Proof.
  unfold close_recovered. destruct (decide _); [split_and!; auto; set_solver|].
  unfold end_recovered. rewrite release_spec by done. cbn. rewrite dom_alter_L. by split_and!.
Qed.
Lemma Inv_close_recovered c k s : closed s = true -> k ∈ dom (recovered s) -> Inv c [] s ->
  Inv c [] (close_recovered k s).
Proof.
  intros Hc Hk%elem_of_dom I. unfold close_recovered. destruct (decide _) as [|Hr]; [done|].
  apply (Inv_end_recovered _ _ (fut_fail RuntimeError) k) in I; auto with admission.
  apply (Inv_closed _ _ (recovery_tasks s)) in I; [|unfold end_recovered; by rewrite release_spec].
  eapply Inv_core; [|exact I]. unfold end_recovered. by rewrite !release_spec.
Qed.
Lemma close_recovered_all c ks s : closed s = true -> Inv c [] s -> (forall k, k ∈ ks -> k ∈ dom (recovered s)) ->
  let s' := foldr close_recovered s ks in
  Inv c [] s' /\ closed s' = true /\ lanes s' = lanes s /\ monitors s' = monitors s /\ tickets s' = tickets s
  /\ recovery_tasks s' = recovery_tasks s /\ dom (recovered s') = dom (recovered s)
  /\ released s' = list_to_set ks ∪ released s.
Proof.
  intros Hc I. induction ks as [|k ks IH]; intros Hks; cbn.
  - split_and!; auto; set_solver.
  - destruct IH as (I' & H1 & H2 & H3 & H4 & H5 & H6 & H7); [set_solver|].
    destruct (close_recovered_spec k (foldr close_recovered s ks)) as (E1 & E2 & E3 & E4 & E5 & E6 & E7).
    split_and!; try congruence; [|rewrite E7, H7; set_solver].
    apply Inv_close_recovered; auto. rewrite H6. apply Hks. set_solver.
Qed.

(** What cancelling lanes never touches. *)
Definition rest (s : st) := (closed s, recovered s, recovery_tasks s, tickets s, next_id s, delivered s, clock s, rate_admits s).
Lemma rest_retire k g s : rest (_retire k g s) = rest s.
Proof.
  unfold _retire, _cancel_monitor, _release_capacity_once.
  destruct (decide (tickets s !! k = Some g)); cbn; destruct (decide (k ∈ released s)); done.
Qed.
Lemma rest_drain q s : rest (drain q s) = rest s.
Proof.
  revert s. induction q as [|[k g] q IH]; intros s; [done|].
  change (drain ((k, g) :: q) s) with (drain q (_retire k g (_fail g CancelledError s))).
  by rewrite IH, rest_retire.
Qed.
Lemma rest_cancel_run c l s : rest (cancel_run c l s) = rest s.
Proof.
  unfold cancel_run. destruct (l_run l) as [r|]; [|done]. rewrite rest_retire.
  destruct (run_phase r), (objs s !! run_id r); try done;
    unfold permits; destruct (own_pool _ _), (t_workspace _); done.
Qed.
Lemma rest_lane_cancel c lk s : rest (lane_cancel c lk s) = rest s.
Proof.
  destruct (lanes s !! lk) as [l|] eqn:Hl; [|by unfold lane_cancel; rewrite Hl].
  rewrite (lane_cancel_eq _ _ l) by done. cbv beta.
  destruct (l_begun l); rewrite ?rest_drain; by rewrite rest_cancel_run.
Qed.
Lemma lane_cancel_all c lks s : closed s = true -> Inv c [] s ->
  let s' := foldr (lane_cancel c) s lks in
  Inv c [] s' /\ closed s' = true /\ recovery_tasks s' = recovery_tasks s
  /\ recovered s' = recovered s.
Proof.
  intros Hc I. induction lks as [|lk lks IH]; cbn; [done|]. destruct IH as (I' & H1 & H2 & H3).
  pose proof (rest_lane_cancel c lk (foldr (lane_cancel c) s lks)) as [= E1 E2 E3 _ _ _ _ _].
  split_and!; try congruence. apply Inv_lane_cancel; auto.
Qed.

Lemma close_ticket_spec k g s : closed (close_ticket (k, g) s) = closed s
  /\ lanes (close_ticket (k, g) s) = lanes s /\ tickets (close_ticket (k, g) s) = tickets s
  /\ recovery_tasks (close_ticket (k, g) s) = recovery_tasks s
  /\ recovered (close_ticket (k, g) s) = recovered s
  /\ released (close_ticket (k, g) s) = {[k]} ∪ released s
  /\ (monitors s = ∅ -> monitors (close_ticket (k, g) s) = ∅).
Proof.
  unfold close_ticket, _retire, _cancel_monitor, _release_capacity_once; cbn.
  destruct (decide (tickets s !! k = Some g)); cbn; destruct (decide (k ∈ released s)); cbn;
    split_and!; try done; try (intros ->; apply delete_empty); set_solver.
Qed.
Lemma Inv_close_ticket c k g s : closed s = true -> lanes s = ∅ -> tickets s !! k = Some g -> Inv c [] s ->
  Inv c [] (close_ticket (k, g) s).
Proof.
  intros Hc Hl Ht I. unfold close_ticket. cbn [fst snd]. destruct (decide (k ∈ released s)) as [Hr|Hr].
  - apply (Inv_fail _ _ g RuntimeError) in I. unfold _retire, _cancel_monitor.
    set (s1 := _fail g RuntimeError s) in *. rewrite decide_True by done. cbn [fst].
    unfold _release_capacity_once. rewrite decide_True by done.
    assert (HL : lanes s1 = ∅) by done. open_inv I. split; auto; cbn.
    + intros k' g' [_ H]%lookup_delete_Some. auto.
    + intros k' [H _]%elem_of_difference. auto.
    + intros lk l k' g'. by rewrite Hl, lookup_empty.
    + intros lk l r. by rewrite Hl, lookup_empty.
    + intros k' H. destruct (inv_relmon0 _ H). rewrite lookup_delete_None. set_solver.
  - apply Inv_fail_retire. open_inv I. split; auto.
    + intros k' g' [= -> ->]%list_elem_of_singleton. split_and!; auto.
      intros lk l [H _]. by rewrite Hl, lookup_empty in H.
    + apply NoDup_singleton.
    + congruence.
Qed.
Lemma close_ticket_all c kgs s : closed s = true -> lanes s = ∅ -> monitors s = ∅ -> Inv c [] s ->
  (forall kg, kg ∈ kgs -> tickets s !! kg.1 = Some kg.2) ->
  let s' := foldr close_ticket s kgs in
  Inv c [] s' /\ closed s' = true /\ lanes s' = ∅ /\ monitors s' = ∅ /\ tickets s' = tickets s
  /\ recovery_tasks s' = recovery_tasks s /\ recovered s' = recovered s
  /\ released s' = list_to_set (map fst kgs) ∪ released s.
Proof.
  intros Hc Hl Hm I. induction kgs as [|[k g] kgs IH]; intros Hks; cbn.
  - split_and!; auto; set_solver.
  - destruct IH as (I' & H1 & H2 & H3 & H4 & H5 & H6 & H7); [set_solver|].
    destruct (close_ticket_spec k g (foldr close_ticket s kgs)) as (E1 & E2 & E3 & E4 & E5 & E6 & E7).
    split_and!; try congruence; [|by apply E7|rewrite E6, H7; set_solver].
    apply Inv_close_ticket; auto. rewrite H4. apply (Hks (k, g)). set_solver.
Qed.

(** Nothing is left to do: what [close] leaves, and what every later step keeps. *)
Record quiet (s : st) : Prop := mkquiet {
  quiet_lanes : lanes s = ∅;
  quiet_monitors : monitors s = ∅;
  quiet_tasks : recovery_tasks s = ∅;
  quiet_released : known s ⊆ released s
}.
Definition Good (c : cfg) (s : st) : Prop := Inv c [] s /\ (closed s = true -> quiet s).

Lemma Inv_no_lanes c s : closed s = true -> Inv c [] s -> Inv c [] (set_monitors ∅ (set_lanes ∅ s)).
Proof.
  intros Hc I. assert (I' : Inv c [] (set_lanes ∅ s)).
  { apply (Inv_loosen _ []); [done| | | | |congruence]; [|constructor|intros; set_solver|intros; set_solver].
    intros lk l H. by rewrite lookup_empty in H. }
  open_inv I'. split; auto; cbn.
  - intros k g H. by rewrite lookup_empty in H.
  - intros lk l k g H. by rewrite lookup_empty in H.
  - intros lk l r H. by rewrite lookup_empty in H.
  - intros k H. split; [done|]. by apply inv_relmon0.
Qed.
Lemma close_good c s : Good c s ->
  Inv c [] (close c s) /\ closed (close c s) = true /\ quiet (close c s).
Proof.
  intros [I Hq]. unfold close. cbv zeta. set (s1 := set_closed true s).
  assert (I1 : Inv c [] s1) by by apply Inv_set_closed.
  assert (Ht1 : forall k, k ∈ elements (recovery_tasks s1) -> k ∈ dom (recovered s1)).
  { intros k Hk%elem_of_elements. destruct (closed s) eqn:Hc.
    - pose proof (quiet_tasks _ (Hq eq_refl)) as H. cbn in Hk. set_solver.
    - apply elem_of_dom. by apply (inv_tasks _ _ _ I Hc). }
  destruct (close_recovered_all c _ s1 eq_refl I1 Ht1) as (I2 & C2 & _). clear Ht1.
  set (s2 := foldr close_recovered s1 _) in *. apply (Inv_closed _ _ ∅) in I2; [|done].
  set (s3 := set_recovery_tasks ∅ s2) in *.
  destruct (lane_cancel_all c (map fst (map_to_list (lanes s3))) s3 C2 I2) as (I4 & C4 & T4 & _).
  set (s4 := foldr (lane_cancel c) s3 _) in *. apply Inv_no_lanes in I4; [|done].
  set (s6 := set_monitors ∅ _) in *.
  assert (Hk6 : forall kg, kg ∈ map_to_list (tickets s6) -> tickets s6 !! kg.1 = Some kg.2).
  { intros [k g]. by rewrite elem_of_map_to_list. }
  destruct (close_ticket_all c _ s6 C4 eq_refl eq_refl I4 Hk6) as (I7 & C7 & L7 & M7 & T7 & R7 & D7 & E7).
  set (s7 := foldr close_ticket s6 _) in *.
  assert (Hk7 : forall k, k ∈ map fst (map_to_list (recovered s7)) -> k ∈ dom (recovered s7)).
  { intros k ([k' r] & -> & H%elem_of_map_to_list)%list_elem_of_fmap. apply elem_of_dom. eauto. }
  destruct (close_recovered_all c _ s7 C7 I7 Hk7) as (I8 & C8 & L8 & M8 & T8 & R8 & D8 & E8).
  split_and!; [done..|]. split; [congruence|congruence| |].
  - rewrite R8, R7. cbn. by rewrite T4.
  - unfold known. rewrite T8, D8, E8, E7, T7. intros k [H|H]%elem_of_union.
    + apply elem_of_union_r, elem_of_union_l, elem_of_list_to_set, list_elem_of_fmap.
      apply elem_of_dom in H as [g H]. exists (k, g). split; [done|]. by apply elem_of_map_to_list.
    + apply elem_of_union_l, elem_of_list_to_set, list_elem_of_fmap.
      apply elem_of_dom in H as [r H]. exists (k, r). split; [done|]. by apply elem_of_map_to_list.
Qed.

Lemma quiet_core s s' : core s' = core s -> quiet s -> quiet s'.
Proof.
  unfold core. intros [= H1 H2 H3 H4 H5 H6 H7 H8 H9 H10 H11 H12 H13] [Q1 Q2 Q3 Q4].
  split; [congruence..|]. unfold known. by rewrite H4, H5, H8.
Qed.
Lemma quiet_upd f g s : quiet s -> quiet (upd_obj f g s).
Proof. by intros [Q1 Q2 Q3 Q4]. Qed.

(** The lane operations short of a delivery leave the ledger of tickets and deliveries alone. *)
Lemma rest_permits c d o s : rest (permits c d o s) = rest s.
Proof. unfold permits. destruct (own_pool c o), (t_workspace o); done. Qed.
Lemma rest_finish lk k g s : rest (finish lk k g s) = rest s.
Proof.
  unfold finish, lane_next. rewrite retire_lanes, <- (rest_retire k g s).
  destruct (lanes s !! lk) as [l|]; [|done]. by destruct (l_queue l).
Qed.
Lemma rest_lane_start c lk s : rest (lane_start c lk s) = rest s.
Proof.
  unfold lane_start. destruct (lanes s !! lk) as [[[|[k g] q] b [r|]]|]; try done.
  destruct (objs s !! g) as [o|]; [|done]. unfold _cancel_monitor. cbn.
  destruct (decide _); [|]; cbn; try case_bool_decide; rewrite ?rest_finish; try done;
    destruct (_ <=? _); rewrite ?rest_finish; try done; by destruct (t_workspace o).
Qed.
Lemma rest_lane_poll c lk s : rest (lane_poll c lk s) = rest s.
Proof.
  unfold lane_poll. destruct (lanes s !! lk) as [[q b [[k g []]|]]|]; try done.
  destruct (objs s !! g) as [o|]; [|done]. destruct (_ <=? _); [by rewrite rest_finish|].
  destruct (can_acquire c o s); [|done]. exact (rest_permits c (-1) o s).
Qed.
Lemma rest_lane_done c lk out s : rest (lane_done c lk out s) = rest s.
Proof.
  unfold lane_done. destruct (lanes s !! lk) as [[q b [[k g []]|]]|]; try done.
  destruct (objs s !! g) as [o|]; [|done]. rewrite rest_finish, rest_permits.
  destruct out; [done|]. cbn. by destruct (is_script o).
Qed.
Lemma rest_monitor k s : rest (monitor_poll k s) = rest s.
Proof.
  unfold monitor_poll. destruct (monitors s !! k); [|done]. destruct (objs s !! _); [|done]. by destruct (_ <=? _).
Qed.
(** A delivery only adds to what was delivered. *)
Lemma rest_lane_deliver c lk s : exists ds, rest (lane_deliver c lk s) = rest (set_delivered (ds ++ delivered s) s).
Proof.
  exists (match lanes s !! lk with
          | Some {| l_run := Some {| run_id := g; run_phase := Permitted |} |} =>
              match objs s !! g with
              | Some o => if t_deadline_at o <=? clock s then [] else [g]
              | None => []
              end
          | _ => []
          end).
  unfold lane_deliver. destruct (lanes s !! lk) as [[q b [[k g []]|]]|]; try done.
  destruct (objs s !! g) as [o|]; [|done]. destruct (_ <=? _); [|done]. by rewrite rest_finish, rest_permits.
Qed.

(** The admission path neither closes nor delivers. *)
Definition flags (s : st) := (closed s, delivered s).
Lemma flags_core s s' : core s' = core s -> flags s' = flags s.
Proof. unfold core, flags. congruence. Qed.
Lemma flags_sweep c s : flags (_sweep_expired c s) = flags s.
Proof.
  change (flags (foldr _forget s (expired_keys c s)) = flags s). by induction (expired_keys c s).
Qed.
Lemma flags_existing c k s : flags (fst (_existing_ticket c k s)) = flags s.
Proof.
  unfold _existing_ticket. destruct (find_record k s); [|done].
  destruct (decide _); [|done]. destruct (completed_at s !! k); [|done]. by destruct (_ <=? _).
Qed.
Lemma flags_enqueue c k kind ws s : flags (fst (enqueue c k kind ws s)) = flags s.
Proof.
  destruct (enqueue_eq c k kind ws s) as (s' & Hs' & ->). cbn. by apply flags_core in Hs'.
Qed.
Lemma flags_admit c re s : flags (fst (admit_ c re s)) = flags s.
Proof.
  unfold admit_. destruct (closed s) eqn:Hc; [done|]. rewrite <- (flags_sweep c s).
  rewrite <- (flags_existing c (_dedup_key c re) (_sweep_expired c s)).
  destruct (_existing_ticket _ _ _) as [s2 [r|]]; cbn [fst] in *; [by destruct r|].
  rewrite <- (flags_core _ _ (core_check_rate c re s2)).
  destruct (_check_rate c re s2) as [s3 [ws|e]]; cbn [fst] in *; [|done].
  destruct (_ <=? _); [done|]. rewrite <- (flags_enqueue c (_dedup_key c re) (agent_kind c re) ws s3).
  by destruct (enqueue _ _ _ _ _).
Qed.
Lemma flags_admit_script c ev s : flags (fst (admit_script c ev s)) = flags s.
Proof.
  unfold admit_script. destruct (closed s) eqn:Hc; [done|]. rewrite <- (flags_sweep c s).
  set (k := invocation_digest _ _ _). rewrite <- (flags_existing c k (_sweep_expired c s)).
  destruct (_existing_ticket _ _ _) as [s2 [r|]]; cbn [fst] in *.
  - destruct r; [destruct (from_option _ _ _)|]; done.
  - destruct (_ <=? _); [done|]. rewrite <- (flags_enqueue c k (Script ev) [] s2).
    by destruct (enqueue _ _ _ _ _).
Qed.
Lemma flags_recover c k r s : flags (fst (recover c k r s)) = flags s.
Proof.
  unfold recover. destruct (closed s) eqn:Hc; [done|]. rewrite <- (flags_sweep c s).
  destruct (tickets _ !! k); [done|]. destruct (recovered _ !! k) as [r'|]; [|done]. by destruct (same_run r' r).
Qed.
Lemma flags_observe k obs s : flags (observe_done k obs s) = flags s.
Proof.
  assert (HR : forall f s, flags (end_recovered f k s) = flags s).
  { intros f s0. unfold end_recovered, _release_capacity_once. by destruct (decide _). }
  unfold observe_done. destruct (decide _); [|done].
  destruct obs; [destruct (decide _); [done|]| |done]; exact (HR _ s).
Qed.
Lemma rest_flags s s' : rest s' = rest s -> flags s' = flags s.
Proof. unfold rest, flags. congruence. Qed.

(** Only [lane_deliver] calls the runner and only [close] closes. *)
Lemma flags_step c s s' : step c s s' ->
  flags s' = flags s \/ (exists lk, s' = lane_deliver c lk s) \/ s' = close c s.
Proof.
  destruct 1; eauto; left.
  - apply flags_admit.
  - apply flags_admit_script.
  - apply flags_recover.
  - apply rest_flags, rest_monitor.
  - apply rest_flags, rest_lane_start.
  - apply rest_flags, rest_lane_poll.
  - apply rest_flags, rest_lane_done.
  - apply rest_flags, rest_lane_cancel.
  - apply flags_observe.
Qed.
Lemma step_open c s s' : step c s s' -> s' = close c s \/ closed s' = closed s.
Proof.
  intros [H|[[lk ->]|H]]%flags_step; [right; unfold flags in H; congruence| |by left]. right.
  destruct (rest_lane_deliver c lk s) as [ds H]. unfold rest in H. cbn in H. congruence.
Qed.

Lemma Good_open c s : closed s = false -> Inv c [] s -> Good c s.
Proof. intros Hc I. split; [done|congruence]. Qed.
Lemma Good_step c s s' : step c s s' -> Good c s -> Good c s'.
Proof.
  intros Hstep HG. pose proof HG as [I Hq]. destruct (closed s) eqn:Hc.
  - specialize (Hq eq_refl). pose proof Hq as [Q1 Q2 Q3 Q4].
    destruct Hstep; cbn [fst]; try (unfold admit_, admit_script, recover; rewrite Hc; done).
    + split; [by eapply Inv_core; [|exact I]|]. intros _. by eapply quiet_core.
    + unfold monitor_poll. by rewrite Q2, lookup_empty.
    + unfold lane_start. by rewrite Q1, lookup_empty.
    + unfold lane_poll. by rewrite Q1, lookup_empty.
    + unfold lane_deliver. by rewrite Q1, lookup_empty.
    + split; [apply Inv_futs; auto with admission|]. intros _. by apply quiet_upd.
    + unfold lane_done. by rewrite Q1, lookup_empty.
    + unfold lane_cancel. by rewrite Q1, lookup_empty.
    + split; [apply Inv_futs; auto with admission|]. intros _. by apply quiet_upd.
    + unfold observe_done. by rewrite Q3, decide_False by set_solver.
    + destruct (close_good _ _ HG) as (? & ? & ?). by split.
  - destruct (step_open _ _ _ Hstep) as [->|Ho]; [by destruct (close_good _ _ HG) as (? & ? & ?); split|].
    apply Good_open; [congruence|]. destruct Hstep.
    + by eapply Inv_core; [|exact I].
    + by apply Inv_admit.
    + by apply Inv_admit_script.
    + by apply Inv_recover.
    + by apply Inv_monitor.
    + by apply Inv_lane_start.
    + by apply Inv_lane_poll.
    + by apply Inv_lane_deliver.
    + apply Inv_futs; auto with admission.
    + by apply Inv_lane_done.
    + apply Inv_lane_cancel; [done|]. right. intros l' Hl'. assert (l' = l) as -> by congruence.
      destruct (inv_lane _ _ _ I _ _ Hl') as [_ [?|?]]; congruence.
    + apply Inv_futs; auto with admission.
    + by apply Inv_observe.
    + by apply (close_good _ _ HG).
Qed.
Lemma Good_reachable c s : reachable c s -> Good c s.
Proof.
  intros [now H]. assert (G0 : Good c (init c now)) by (split; [apply Inv_init|done]).
  revert G0. induction H as [|x y z Hxy _ IH]; [done|]. intros G. by apply IH, (Good_step c x).
Qed.
