(* ===== verification/AdmissionSem.v ===== *)
(** * harness/admission.py: the permit pools

    In every reachable state each semaphore's value plus the number of runs holding one of its
    permits is its capacity, and no value is negative: concurrency is bounded globally, per
    script pool, per channel and per Workspace. *)

From S2P Require Import Prelude Sha256 PyJson Refs Config ConfigFacts Channels Admission AdmissionInv AdmissionKeys AdmissionSteps.
From stdpp Require Import fin_maps fin_sets gmap.
Local Open Scope Z_scope.

(** ** Counting lanes *)

Definition b2z (b : bool) : Z := if b then 1 else 0.
Definition count (f : lane -> bool) (m : gmap string lane) : Z :=
  Z.of_nat (size (filter (fun kl => f kl.2 = true) m)).
Definition opt_count (f : lane -> bool) (ol : option lane) : Z := from_option (fun l => b2z (f l)) 0 ol.

Lemma count_insert_new f m k l : m !! k = None -> count f (<[k := l]> m) = count f m + b2z (f l).
Proof.
  intros H. unfold count, b2z. destruct (f l) eqn:E.
  - rewrite map_filter_insert_True by done. rewrite map_size_insert_None; [lia|].
    apply map_lookup_filter_None. auto.
  - rewrite map_filter_insert_False by (cbn; congruence). rewrite delete_id by done. lia.
Qed.
Lemma count_delete f m k : count f (delete k m) = count f m - opt_count f (m !! k).
Proof.
  destruct (m !! k) as [l|] eqn:E; cbn; [|rewrite delete_id by done; lia].
  rewrite <- (insert_delete_id m k l) at 2 by done.
  rewrite count_insert_new by apply lookup_delete_eq. lia.
Qed.
Lemma count_insert f m k l : count f (<[k := l]> m) = count f m - opt_count f (m !! k) + b2z (f l).
Proof. rewrite <- insert_delete_eq, count_insert_new, count_delete by apply lookup_delete_eq. lia. Qed.
Lemma count_ext f f' m : (forall k l, m !! k = Some l -> f l = f' l) -> count f m = count f' m.
Proof.
  intros H. unfold count. do 2 f_equal. apply map_filter_ext. intros k l Hl. cbn. by rewrite (H k l).
Qed.
Lemma count_nonneg f m : 0 <= count f m.
Proof. unfold count. lia. Qed.
Lemma count_empty f : count f ∅ = 0.
Proof. unfold count. rewrite map_filter_empty, map_size_empty. done. Qed.
Lemma count_lookup f m k l : m !! k = Some l -> b2z (f l) <= count f m.
Proof.
  intros H. pose proof (count_delete f m k) as E. rewrite H in E. cbn in E.
  pose proof (count_nonneg f (delete k m)). lia.
Qed.

(** ** Holders *)

Definition kinds (s : st) : gmap nat tkind := t_kind <$> objs s.
(** Whether a lane's run holds permits, for a ticket whose kind satisfies [P]. *)
Definition held (P : tkind -> bool) (K : gmap nat tkind) (l : lane) : bool :=
  match l_run l with
  | Some {| run_phase := Acquiring |} | None => false
  | Some r => from_option P false (K !! run_id r)
  end.
Definition holders (P : tkind -> bool) (s : st) : Z := count (held P (kinds s)) (lanes s).

Definition k_script (kd : tkind) : bool := match kd with Script _ => true | Agent _ _ _ => false end.
Definition k_own (c : cfg) (kd : tkind) : bool :=
  k_script kd && match c_max_concurrent_scripts c with Some _ => true | None => false end.
Definition k_channel (kd : tkind) : string :=
  match kd with Agent _ _ re => re_channel re | Script ev => ev_channel ev end.
Definition k_workspace (kd : tkind) : option string := match kd with Agent w _ _ => Some w | Script _ => None end.
Definition on_ch (ch : string) (kd : tkind) : bool := String.eqb (k_channel kd) ch.
Definition on_ws (w : string) (kd : tkind) : bool :=
  match k_workspace kd with Some w' => String.eqb w' w | None => false end.

(** Capacities are not negative (the schema asks for at least one). *)
Record caps_ok (c : cfg) : Prop := mkcaps {
  cap_global : 0 <= c_max_concurrent_invocations c;
  cap_script : 0 <= from_option id 0 (c_max_concurrent_scripts c);
  cap_channel : forall ch, 0 <= channel_cap c ch;
  cap_workspace : 0 <= c_workspace_max_concurrent_sessions c
}.

Record SInv (c : cfg) (s : st) : Prop := mkSInv {
  s_global : global_val s + holders (fun kd => negb (k_own c kd)) s = c_max_concurrent_invocations c;
  s_script : script_val s + holders (k_own c) s = from_option id 0 (c_max_concurrent_scripts c);
  s_channel : forall ch v cap, channel_sems s !! ch = Some (v, cap) ->
    cap = channel_cap c ch /\ v + holders (on_ch ch) s = cap /\ 0 <= v;
  s_workspace : forall w v cap, workspace_sems s !! w = Some (v, cap) ->
    cap = c_workspace_max_concurrent_sessions c /\ v + holders (on_ws w) s = cap /\ 0 <= v;
  s_nonneg : 0 <= global_val s /\ 0 <= script_val s;
  s_present : forall lk l r o, lanes s !! lk = Some l -> l_run l = Some r -> objs s !! run_id r = Some o ->
    is_Some (channel_sems s !! t_channel o)
    /\ forall w, t_workspace o = Some w -> is_Some (workspace_sems s !! w)
}.

(** The state the pools depend on. *)
Definition pool (s : st) :=
  (kinds s, lanes s, global_val s, script_val s, channel_sems s, workspace_sems s).
Lemma kinds_upd fs fc g s : kinds (upd_obj (obj_futs fs fc) g s) = kinds s.
Proof.
  unfold kinds; cbn. apply map_eq. intros g'. rewrite !lookup_fmap, lookup_alter.
  case_decide as E; [subst|done]. by destruct (objs s !! g').
Qed.
Lemma kinds_lookup s g o : objs s !! g = Some o -> kinds s !! g = Some (t_kind o).
Proof. intros H. unfold kinds. by rewrite lookup_fmap, H. Qed.
Lemma SInv_pool c s s' : pool s' = pool s -> SInv c s -> SInv c s'.
Proof.
  unfold pool. intros [= H1 H2 H3 H4 H5 H6] I. destruct I as [G S C W N P].
  split; unfold holders in *; rewrite ?H1, ?H2, ?H3, ?H4, ?H5, ?H6; auto.
  intros lk l r o' Hl Hr Ho. pose proof (kinds_lookup _ _ _ Ho) as Hk. rewrite H1 in Hk. unfold kinds in Hk.
  rewrite lookup_fmap in Hk. destruct (objs s !! run_id r) as [o|] eqn:E; cbn in Hk; [|done]. injection Hk as Hk.
  destruct (P lk l r o Hl Hr E) as [P1 P2]. unfold t_channel, t_workspace in *. rewrite <- Hk. by split.
Qed.

(** ** One lane changes, with the permits it takes or gives back *)

Definition put_lane (lk : string) (ol : option lane) (s : st) : st :=
  set_lanes (partial_alter (fun _ => ol) lk (lanes s)) s.
Lemma count_put f m k ol : count f (partial_alter (fun _ => ol) k m) = count f m - opt_count f (m !! k) + opt_count f ol.
Proof.
  destruct ol as [l|]; [apply (count_insert f m k l)|]. cbn. rewrite Z.add_0_r. apply (count_delete f m k).
Qed.
Lemma put_lookup lk ol s lk' : lanes (put_lane lk ol s) !! lk' = if decide (lk = lk') then ol else lanes s !! lk'.
Proof. cbn. case_decide; subst; [apply lookup_partial_alter_eq|by apply lookup_partial_alter_ne]. Qed.
Definition held_opt (P : tkind -> bool) (s : st) (ol : option lane) : Z := opt_count (held P (kinds s)) ol.
Lemma holders_put P lk ol s :
  holders P (put_lane lk ol s) = holders P s - held_opt P s (lanes s !! lk) + held_opt P s ol.
Proof. apply count_put. Qed.

(** The pools a lane's run uses exist. *)
Definition pools_exist (s : st) (o : tobj) : Prop :=
  is_Some (channel_sems s !! t_channel o) /\ forall w, t_workspace o = Some w -> is_Some (workspace_sems s !! w).
Definition lane_pools (s : st) (ol : option lane) : Prop :=
  forall l r o, ol = Some l -> l_run l = Some r -> objs s !! run_id r = Some o -> pools_exist s o.
Lemma SInv_lane_pools c s lk : SInv c s -> lane_pools s (lanes s !! lk).
Proof. intros I l r o Hl Hr Ho. by eapply s_present. Qed.

Lemma SInv_put c lk ol s : SInv c s -> lane_pools s ol ->
  (forall P, held_opt P s ol = held_opt P s (lanes s !! lk)) -> SInv c (put_lane lk ol s).
Proof.
  intros I Hp He. assert (HH : forall P, holders P (put_lane lk ol s) = holders P s).
  { intros P. rewrite holders_put, He. lia. }
  destruct I as [G S C W N P]. split; rewrite ?HH; auto.
  - intros ch v cap H. rewrite HH. auto.
  - intros w v cap H. rewrite HH. auto.
  - intros lk' l r o. rewrite put_lookup. case_decide; [|by eauto]. intros -> Hr Ho. by eapply Hp.
Qed.

Lemma sem_add_lookup d k m k' v cap : sem_add d k m !! k' = Some (v, cap) <->
  m !! k' = Some (v - (if decide (k = k') then d else 0), cap).
Proof.
  unfold sem_add. rewrite lookup_alter. case_decide; [subst|by rewrite Z.sub_0_r].
  rewrite fmap_Some. split; [intros ([v0 c0] & H & [= -> ->])|intros H]; cbn; [rewrite H; do 2 f_equal; lia|].
  eexists. split; [exact H|]. cbn. f_equal. lia.
Qed.
Lemma sem_add_is_Some d k m k' : is_Some (sem_add d k m !! k') <-> is_Some (m !! k').
Proof. apply lookup_alter_is_Some. Qed.

Lemma permits_global c d o s :
  global_val (permits c d o s) = global_val s + d * b2z (negb (k_own c (t_kind o)))
  /\ script_val (permits c d o s) = script_val s + d * b2z (k_own c (t_kind o)).
Proof.
  unfold permits. assert (Ho : own_pool c o = k_own c (t_kind o)) by done. rewrite Ho.
  destruct (k_own c (t_kind o)), (t_workspace o); cbn; lia.
Qed.
Lemma permits_channel c d o s ch v cap : channel_sems (permits c d o s) !! ch = Some (v, cap) <->
  channel_sems s !! ch = Some (v - d * b2z (on_ch ch (t_kind o)), cap).
Proof.
  replace (channel_sems (permits c d o s)) with (sem_add d (t_channel o) (channel_sems s))
    by (unfold permits; destruct (own_pool c o), (t_workspace o); done).
  rewrite sem_add_lookup. unfold on_ch. change (k_channel (t_kind o)) with (t_channel o).
  case_decide as E; [rewrite E, String.eqb_refl; cbn; by rewrite Z.mul_1_r|].
  destruct (String.eqb_spec (t_channel o) ch); [done|]. cbn. by rewrite Z.mul_0_r.
Qed.
Lemma permits_workspace c d o s w v cap : workspace_sems (permits c d o s) !! w = Some (v, cap) <->
  workspace_sems s !! w = Some (v - d * b2z (on_ws w (t_kind o)), cap).
Proof.
  unfold on_ws. change (k_workspace (t_kind o)) with (t_workspace o).
  unfold permits. destruct (t_workspace o) as [w'|].
  - replace (workspace_sems _) with (sem_add d w' (workspace_sems s)) by by destruct (own_pool c o).
    rewrite sem_add_lookup. case_decide as E; [rewrite E, String.eqb_refl; cbn; by rewrite Z.mul_1_r|].
    destruct (String.eqb_spec w' w); [done|]. cbn. by rewrite Z.mul_0_r.
  - rewrite Z.mul_0_r, Z.sub_0_r. by destruct (own_pool c o).
Qed.
Lemma permits_pools c d o s o' : pools_exist s o' -> pools_exist (permits c d o s) o'.
Proof.
  intros [[[v cap] Hc] Hw]. split.
  - exists (v + d * b2z (on_ch (t_channel o') (t_kind o)), cap). apply permits_channel. rewrite Hc. do 2 f_equal. lia.
  - intros w Hw'. destruct (Hw _ Hw') as [[v' cap'] E]. exists (v' + d * b2z (on_ws w (t_kind o)), cap').
    apply permits_workspace. rewrite E. do 2 f_equal. lia.
Qed.
Lemma permits_lanes_kinds c d o s : lanes (permits c d o s) = lanes s /\ kinds (permits c d o s) = kinds s
  /\ objs (permits c d o s) = objs s.
Proof. unfold permits. destruct (own_pool c o), (t_workspace o); done. Qed.

(** A success of the permit loop leaves room in every pool it takes from. *)
Lemma recovered_count_nonneg P s : 0 <= _recovered_count P s.
Proof. unfold _recovered_count. lia. Qed.
Record room (c : cfg) (d : Z) (o : tobj) (s : st) : Prop := mkroom {
  room_global : 0 <= global_val s + d * b2z (negb (k_own c (t_kind o)));
  room_script : 0 <= script_val s + d * b2z (k_own c (t_kind o));
  room_channel : forall ch v cap, channel_sems s !! ch = Some (v, cap) -> 0 <= v + d * b2z (on_ch ch (t_kind o));
  room_workspace : forall w v cap, workspace_sems s !! w = Some (v, cap) -> 0 <= v + d * b2z (on_ws w (t_kind o))
}.
Lemma b2z_nonneg b : 0 <= b2z b.
Proof. destruct b; cbn; lia. Qed.
Lemma room_release c o s : SInv c s -> room c 1 o s.
Proof.
  intros [G S C W [N1 N2] P].
  split; [pose proof (b2z_nonneg (negb (k_own c (t_kind o)))); lia
         |pose proof (b2z_nonneg (k_own c (t_kind o))); lia| |].
  - intros ch v cap H. destruct (C _ _ _ H) as (_ & _ & ?). pose proof (b2z_nonneg (on_ch ch (t_kind o))). lia.
  - intros w v cap H. destruct (W _ _ _ H) as (_ & _ & ?). pose proof (b2z_nonneg (on_ws w (t_kind o))). lia.
Qed.
Definition SInv_nonneg_channel (s : st) : Prop :=
  forall ch v cap, channel_sems s !! ch = Some (v, cap) -> 0 <= v.
Lemma sem_value_lookup k m v cap : m !! k = Some (v, cap) -> sem_value k m = v.
Proof. unfold sem_value. by intros ->. Qed.
Lemma channel_room o s ch v cap : SInv_nonneg_channel s ->
  (sem_value (t_channel o) (channel_sems s) <=? _recovered_count (on_channel (t_channel o)) s) = false ->
  channel_sems s !! ch = Some (v, cap) -> 0 <= v + -1 * b2z (on_ch ch (t_kind o)).
Proof.
  intros HN H%Z.leb_gt Hl. pose proof (HN _ _ _ Hl). pose proof (recovered_count_nonneg (on_channel (t_channel o)) s).
  unfold on_ch. change (k_channel (t_kind o)) with (t_channel o).
  destruct (String.eqb_spec (t_channel o) ch) as [<-|]; cbn; [|lia].
  rewrite (sem_value_lookup _ _ _ _ Hl) in H. lia.
Qed.
Lemma room_acquire c o s : SInv c s -> can_acquire c o s = true -> room c (-1) o s.
Proof.
  intros [G S C W [N1 N2] P] H. pose proof (recovered_count_nonneg (fun _ => true) s) as Hr.
  assert (HN : SInv_nonneg_channel s) by (intros ch v cap ?; by eapply C).
  unfold can_acquire, own_pool, is_script in H. pose proof (channel_room o s) as HC.
  split; unfold k_own, k_script, on_ws, k_workspace.
  - destruct (t_kind o); cbn in *; destruct (c_max_concurrent_scripts c); cbn in *;
      rewrite ?andb_true_iff, ?negb_true_iff, ?Z.leb_gt in H; lia.
  - destruct (t_kind o); cbn in *; destruct (c_max_concurrent_scripts c); cbn in *;
      rewrite ?andb_true_iff, ?negb_true_iff, ?Z.leb_gt in H; lia.
  - intros ch v cap. apply HC; [done|].
    destruct (t_kind o); rewrite !andb_true_iff, ?negb_true_iff in H; tauto.
  - intros w v cap Hl. destruct (W _ _ _ Hl) as (_ & _ & Hv).
    destruct (t_kind o) as [w' se re|]; [|cbn; lia].
    rewrite !andb_true_iff, !negb_true_iff, orb_false_iff, (Z.leb_gt (sem_value w' _)) in H.
    destruct H as (_ & H & _). pose proof (recovered_count_nonneg (on_workspace w') s).
    destruct (String.eqb_spec w' w) as [->|]; cbn; [|lia]. rewrite (sem_value_lookup _ _ _ _ Hl) in H. lia.
Qed.

(** Taking ([d = -1]) or giving back ([d = 1]) a run's permits as its lane changes. *)
Lemma SInv_permits c lk ol d o s : SInv c s -> room c d o s -> lane_pools s ol ->
  (forall P, held_opt P s ol = held_opt P s (lanes s !! lk) - d * b2z (P (t_kind o))) ->
  SInv c (put_lane lk ol (permits c d o s)).
Proof.
  intros I R Hp He. destruct (permits_lanes_kinds c d o s) as (EL & EK & EO).
  assert (HH : forall P, holders P (put_lane lk ol (permits c d o s)) = holders P s - d * b2z (P (t_kind o))).
  { intros P. rewrite holders_put, EL. unfold held_opt in *. rewrite EK, He.
    unfold holders. rewrite EK, EL. lia. }
  destruct (permits_global c d o s) as [EG ES]. destruct I as [G S C W N P]. destruct R as [R1 R2 R3 R4].
  split; cbn; rewrite ?HH, ?EG, ?ES; auto.
  - cbn beta. lia.
  - lia.
  - intros ch v cap H%permits_channel. rewrite HH. destruct (C _ _ _ H) as (? & ? & ?).
    specialize (R3 _ _ _ H). split_and!; lia.
  - intros w v cap H%permits_workspace. rewrite HH. destruct (W _ _ _ H) as (? & ? & ?).
    specialize (R4 _ _ _ H). split_and!; lia.
  - intros lk' l r o' Hl Hr Ho. rewrite EO in Ho. apply permits_pools.
    change (lanes (put_lane lk ol (permits c d o s)) !! lk' = Some l) in Hl. rewrite put_lookup in Hl.
    case_decide; [by eapply Hp|]. rewrite EL in Hl. by eapply P.
Qed.

(** ** What each operation does to the pools *)

Definition remaining (l : lane) : option lane :=
  match l_queue l with [] => None | q => Some {| l_queue := q; l_begun := l_begun l; l_run := None |} end.
Lemma alter_put (f : lane -> lane) lk (m : gmap string lane) l : m !! lk = Some l ->
  alter f lk m = partial_alter (fun _ => Some (f l)) lk m.
Proof.
  intros H. apply map_eq. intros lk'. destruct (decide (lk = lk')) as [<-|].
  - by rewrite lookup_alter_eq, lookup_partial_alter_eq, H.
  - by rewrite lookup_alter_ne, lookup_partial_alter_ne.
Qed.
Lemma lane_next_put lk l s : lanes s !! lk = Some l -> lane_next lk s = put_lane lk (remaining l) s.
Proof.
  intros H. rewrite (lane_next_eq _ _ l) by done. unfold put_lane, remaining. f_equal.
  destruct (l_queue l) eqn:E; [done|]. rewrite (alter_put _ _ _ l) by done. by rewrite E.
Qed.
Lemma pool_put lk ol s s' : pool s' = pool s -> pool (put_lane lk ol s') = pool (put_lane lk ol s).
Proof. unfold pool. intros [= H1 H2 H3 H4 H5 H6]. unfold kinds in *; cbn in *. congruence. Qed.
Lemma pool_permits c d o s s' : pool s' = pool s -> pool (permits c d o s') = pool (permits c d o s).
Proof.
  unfold pool. intros [= H1 H2 H3 H4 H5 H6]. unfold permits.
  destruct (own_pool c o), (t_workspace o); unfold kinds in *; cbn in *; congruence.
Qed.
Lemma pool_retire k g s : pool (_retire k g s) = pool s.
Proof.
  unfold _retire, _cancel_monitor, _release_capacity_once.
  destruct (decide (tickets s !! k = Some g)); cbn; destruct (decide (k ∈ released s)); done.
Qed.
Lemma pool_fail g e s : pool (_fail g e s) = pool s.
Proof. unfold pool, _fail. by rewrite kinds_upd. Qed.
Lemma pool_lanes s s' : pool s' = pool s -> lanes s' = lanes s.
Proof. unfold pool. congruence. Qed.
Lemma pool_finish lk l k g s s' : lanes s !! lk = Some l -> pool s' = pool s ->
  pool (finish lk k g s') = pool (put_lane lk (remaining l) s).
Proof.
  intros Hl Hp. assert (Hl' : lanes s' !! lk = Some l) by (by rewrite (pool_lanes _ _ Hp)).
  rewrite (finish_eq _ l), pool_retire, (lane_next_put _ l) by done. by apply pool_put.
Qed.
Lemma remaining_held P l s : held_opt P s (remaining l) = 0.
Proof. unfold held_opt, remaining. by destruct (l_queue l). Qed.
Lemma remaining_pools l s : lane_pools s (remaining l).
Proof. intros l' r o H Hr _. unfold remaining in H. destruct (l_queue l); [done|]. injection H as <-. done. Qed.
Lemma held_run P lk l r o s : lanes s !! lk = Some l -> l_run l = Some r -> objs s !! run_id r = Some o ->
  held_opt P s (lanes s !! lk) = if decide (run_phase r = Acquiring) then 0 else b2z (P (t_kind o)).
Proof.
  intros Hl Hr Ho. unfold held_opt. rewrite Hl. cbn. unfold held. rewrite Hr.
  apply kinds_lookup in Ho. destruct r as [k g []]; cbn in *; [done|..]; by rewrite Ho.
Qed.

(** Ending a run that holds no permits, and one that does. *)
Lemma SInv_finish_acquiring c lk l r o k g s s' : SInv c s -> lanes s !! lk = Some l -> l_run l = Some r ->
  objs s !! run_id r = Some o -> run_phase r = Acquiring -> pool s' = pool s -> SInv c (finish lk k g s').
Proof.
  intros I Hl Hr Ho Hph Hp. eapply SInv_pool; [by eapply pool_finish|]. apply SInv_put; [done|apply remaining_pools|].
  intros P. rewrite remaining_held, (held_run _ _ _ _ _ _ Hl Hr Ho). by rewrite decide_True.
Qed.
Lemma SInv_finish_holding c lk l r o k g s s' : SInv c s -> lanes s !! lk = Some l -> l_run l = Some r ->
  objs s !! run_id r = Some o -> run_phase r <> Acquiring -> pool s' = pool (permits c 1 o s) ->
  SInv c (finish lk k g s').
Proof.
  intros I Hl Hr Ho Hph Hp. assert (Hl' : lanes (permits c 1 o s) !! lk = Some l).
  { by destruct (permits_lanes_kinds c 1 o s) as (-> & _). }
  eapply SInv_pool; [by eapply pool_finish|]. apply SInv_permits; [done|by apply room_release|apply remaining_pools|].
  intros P. rewrite remaining_held, (held_run _ _ _ _ _ _ Hl Hr Ho). rewrite decide_False by done. lia.
Qed.

(** Creating a pool on first use: nobody holds it yet. *)
Lemma holders_zero P s : (forall lk l r o, lanes s !! lk = Some l -> l_run l = Some r ->
    objs s !! run_id r = Some o -> P (t_kind o) = false) -> holders P s = 0.
Proof.
  intros H. unfold holders. rewrite (count_ext _ (fun _ => false)).
  - unfold count. replace (filter _ (lanes s)) with (∅ : gmap string lane); [by rewrite map_size_empty|].
    symmetry. apply map_eq. intros k. rewrite lookup_empty, map_lookup_filter_None. by right.
  - intros lk l Hl. unfold held. destruct (l_run l) as [[k g ph]|] eqn:Hr; [|done].
    destruct (kinds s !! g) as [kd|] eqn:Hk; cbn; [|destruct ph; rewrite ?Hk; done].
    unfold kinds in Hk. rewrite lookup_fmap in Hk. destruct (objs s !! g) as [o|] eqn:Ho; [|done].
    injection Hk as <-. pose proof (H lk l _ o Hl Hr Ho) as HP. unfold kinds. rewrite !lookup_fmap, Ho.
    by destruct ph.
Qed.
Lemma sem_get_lookup cap k m k' v cap' : sem_get cap k m !! k' = Some (v, cap') ->
  m !! k' = Some (v, cap') \/ (k = k' /\ m !! k = None /\ v = cap /\ cap' = cap).
Proof.
  unfold sem_get. destruct (m !! k) eqn:E; [by left|].
  intros [[<- [= <- <-]]|[? H]]%lookup_insert_Some; [by right|by left].
Qed.
Lemma sem_get_is_Some cap k m k' : is_Some (sem_get cap k m !! k') <-> k = k' \/ is_Some (m !! k').
Proof.
  unfold sem_get. destruct (m !! k) eqn:E.
  - split; [by right|]. intros [<-|]; [by rewrite E|done].
  - rewrite lookup_insert_is_Some. destruct (decide (k = k')); naive_solver.
Qed.
Lemma SInv_channel_sem c ch s : caps_ok c -> SInv c s -> SInv c (_channel_sem c ch s).
Proof.
  intros K [G S C W N P]. split; auto.
  - intros ch' v cap [H|(<- & E & -> & ->)]%sem_get_lookup; [by apply C|].
    split_and!; [done| |by apply cap_channel]. rewrite (holders_zero (on_ch ch)); [lia|].
    intros lk l r o Hl Hr Ho. destruct (P lk l r o Hl Hr Ho) as [[? H] _].
    apply String.eqb_neq. intros <-. change (k_channel (t_kind o)) with (t_channel o) in E. cbn in H. congruence.
  - intros lk l r o Hl Hr Ho. destruct (P lk l r o Hl Hr Ho) as [H1 H2]. split; [|done].
    apply sem_get_is_Some. by right.
Qed.
Lemma SInv_workspace_sem c w s : caps_ok c -> SInv c s -> SInv c (_workspace_sem c w s).
Proof.
  intros K [G S C W N P]. split; auto.
  - intros w' v cap [H|(<- & E & -> & ->)]%sem_get_lookup; [by apply W|].
    split_and!; [done| |by apply cap_workspace]. rewrite (holders_zero (on_ws w)); [lia|].
    intros lk l r o Hl Hr Ho. destruct (P lk l r o Hl Hr Ho) as [_ H]. cbn in H. unfold on_ws.
    change (k_workspace (t_kind o)) with (t_workspace o). destruct (t_workspace o) as [w'|]; [|done].
    apply String.eqb_neq. intros <-. destruct (H _ eq_refl). congruence.
  - intros lk l r o Hl Hr Ho. destruct (P lk l r o Hl Hr Ho) as [H1 H2]. split; [done|].
    intros w' Hw'. apply sem_get_is_Some. right. by apply H2.
Qed.

(** ** Every step *)

Lemma SInv_lane_start c lk s : caps_ok c -> Inv c [] s -> SInv c s -> SInv c (lane_start c lk s).
Proof.
  intros K I S. unfold lane_start. destruct (lanes s !! lk) as [[[|[k g] q] b [r|]]|] eqn:Hl; try done.
  destruct (objs s !! g) as [o|] eqn:Ho; [|done].
  set (s0 := set_lanes _ s). pose proof (pool_retire k g s0) as Hpc.
  assert (Hcm : pool (fst (_cancel_monitor k g s0)) = pool s0).
  { unfold _cancel_monitor. by destruct (decide _). }
  assert (Hold : forall P, held_opt P s (lanes s !! lk) = 0) by (intros P; by rewrite Hl).
  assert (Hfin : forall s', pool s' = pool s0 -> SInv c (finish lk k g s')).
  { intros s' Hp. assert (Hl0 : lanes s0 !! lk = Some (dequeued k g q)) by apply lookup_insert_eq.
    apply (SInv_pool _ (put_lane lk (remaining (dequeued k g q)) s)).
    - rewrite (pool_finish _ _ _ _ _ _ Hl0 Hp). unfold pool, put_lane; cbn. do 5 f_equal.
      unfold insert, map_insert. apply partial_alter_partial_alter_eq.
    - apply SInv_put; [done|apply remaining_pools|]. intros P. by rewrite remaining_held, Hold. }
  destruct (_cancel_monitor k g s0) as [s1 []]; cbn [fst] in *; [by apply Hfin|].
  destruct (_ <=? _); [apply Hfin; by rewrite <- Hcm, <- (pool_fail g TimeoutError s1)|].
  set (s2 := match t_workspace o with Some w => _workspace_sem c w (_channel_sem c (t_channel o) s)
             | None => _channel_sem c (t_channel o) s end).
  assert (S2 : SInv c s2).
  { unfold s2. destruct (t_workspace o); [apply SInv_workspace_sem; [done|]|]; by apply SInv_channel_sem. }
  assert (E2 : lanes s2 = lanes s /\ objs s2 = objs s) by (unfold s2; by destruct (t_workspace o)).
  destruct E2 as [EL EO].
  apply (SInv_pool _ (put_lane lk (Some (dequeued k g q)) s2)).
  - unfold pool, kinds in Hcm |- *. injection Hcm as H1 H2 H3 H4 H5 H6.
    unfold s2. destruct (t_workspace o); cbn in *; rewrite H1, H2, H3, H4, H5, H6; done.
  - apply SInv_put; [done| |].
    + intros l r o' [= <-] [= <-] Ho'. cbn in Ho'. rewrite EO, Ho in Ho'. injection Ho' as <-.
      unfold s2. split.
      * destruct (t_workspace o); cbn; apply sem_get_is_Some; by left.
      * intros w Hw. rewrite Hw. cbn. apply sem_get_is_Some. by left.
    + intros P. unfold held_opt. rewrite EL, Hl. done.
Qed.
Lemma SInv_lane_poll c lk s : SInv c s -> SInv c (lane_poll c lk s).
Proof.
  intros S. unfold lane_poll. destruct (lanes s !! lk) as [[q b [[k g []]|]]|] eqn:Hl; try done.
  destruct (objs s !! g) as [o|] eqn:Ho; [|done]. destruct (_ <=? _).
  { eapply (SInv_finish_acquiring c lk _ {| run_key := k; run_id := g; run_phase := Acquiring |}); eauto. apply pool_fail. }
  destruct (can_acquire c o s) eqn:Hc; [|done].
  destruct (permits_lanes_kinds c (-1) o s) as (EL & _ & _).
  set (l' := {| l_queue := q; l_begun := b; l_run := Some {| run_key := k; run_id := g; run_phase := Permitted |} |}).
  replace (set_run _ _ _) with (put_lane lk (Some l') (permits c (-1) o s))
    by (unfold set_run, put_lane; f_equal; rewrite (alter_put _ _ _ _ (eq_trans (f_equal (.!! lk) EL) Hl)); done).
  apply SInv_permits; [done|by apply room_acquire| |].
  - intros l r o' [= <-] [= <-]. by apply (s_present _ _ S lk _ _ o' Hl eq_refl).
  - intros P. unfold held_opt. rewrite Hl. unfold l'; cbn. rewrite (kinds_lookup _ _ _ Ho); cbn. lia.
Qed.
Lemma SInv_lane_deliver c lk s : SInv c s -> SInv c (lane_deliver c lk s).
Proof.
  intros S. unfold lane_deliver. destruct (lanes s !! lk) as [[q b [[k g []]|]]|] eqn:Hl; try done.
  destruct (objs s !! g) as [o|] eqn:Ho; [|done]. destruct (_ <=? _).
  { eapply (SInv_finish_holding c lk _ {| run_key := k; run_id := g; run_phase := Permitted |} o _ _ s); [exact S|exact Hl|done|exact Ho|done|].
    apply pool_permits. exact (pool_fail g TimeoutError s). }
  set (l' := {| l_queue := q; l_begun := b; l_run := Some {| run_key := k; run_id := g; run_phase := Delivering |} |}).
  apply (SInv_pool _ (put_lane lk (Some l') s)).
  - unfold pool, set_run, put_lane; cbn. by rewrite (alter_put _ _ _ _ Hl).
  - apply SInv_put; [done| |].
    + intros l r o' [= <-] [= <-]. by apply (s_present _ _ S lk _ _ o' Hl eq_refl).
    + intros P. unfold held_opt. by rewrite Hl.
Qed.
Lemma SInv_lane_done c lk out s : SInv c s -> SInv c (lane_done c lk out s).
Proof.
  intros S. unfold lane_done. destruct (lanes s !! lk) as [[q b [[k g []]|]]|] eqn:Hl; try done.
  destruct (objs s !! g) as [o|] eqn:Ho; [|done].
  eapply (SInv_finish_holding c lk _ {| run_key := k; run_id := g; run_phase := Delivering |} o _ _ s); [exact S|exact Hl|done|exact Ho|done|].
  apply pool_permits. destruct out as [|e]; cbn [resolve]; [unfold pool; by rewrite kinds_upd|].
  rewrite <- (pool_fail g e s). by destruct (is_script o).
Qed.

Lemma pool_drain q s : pool (drain q s) = pool s.
Proof.
  revert s. induction q as [|[k g] q IH]; intros s; [done|].
  change (drain ((k, g) :: q) s) with (drain q (_retire k g (_fail g CancelledError s))).
  by rewrite IH, pool_retire, pool_fail.
Qed.
Lemma SInv_lane_cancel c lk s : Inv c [] s -> SInv c s -> SInv c (lane_cancel c lk s).
Proof.
  intros I S. destruct (lanes s !! lk) as [l|] eqn:Hl; [|by unfold lane_cancel; rewrite Hl].
  rewrite (lane_cancel_eq _ _ l) by done. cbv beta.
  assert (S' : SInv c (cancel_run c l (set_lanes (delete lk (lanes s)) s))).
  { unfold cancel_run. destruct (l_run l) as [r|] eqn:Hr.
    - destruct (inv_entry _ _ _ I _ _ _ _ (run_in_lane _ _ _ _ Hl Hr)) as (_ & _ & o & Ho & _).
      eapply SInv_pool; [by rewrite pool_retire, pool_fail|]. cbn. rewrite Ho.
      assert (Hh : forall P, held_opt P s (lanes s !! lk) = if decide (run_phase r = Acquiring) then 0 else b2z (P (t_kind o)))
        by (intros P; by apply (held_run P lk l r o s)).
      assert (Hcase : SInv c (put_lane lk None (if decide (run_phase r = Acquiring) then s else permits c 1 o s))).
      { case_decide.
        - apply SInv_put; [done|by intros ?|]. intros P. by rewrite Hh.
        - apply SInv_permits; [done|by apply room_release|by intros ?|]. intros P. rewrite Hh. cbn. lia. }
      destruct (run_phase r); [exact Hcase|..]; cbn in Hcase; (eapply SInv_pool; [|exact Hcase]);
        unfold permits; destruct (own_pool c o), (t_workspace o); done.
    - apply (SInv_pool _ (put_lane lk None s)); [done|]. apply SInv_put; [done|by intros ?|].
      intros P. unfold held_opt. rewrite Hl. cbn. unfold held. by rewrite Hr. }
  destruct (l_begun l); [|done]. eapply SInv_pool; [apply pool_drain|done].
Qed.

(** The sweep drops only idle pools nobody waits on. *)
Lemma active_ticket s k g o : tickets s !! k = Some g -> objs s !! g = Some o -> o ∈ ticket_objs s.
Proof.
  intros Ht Ho. unfold ticket_objs. apply list_elem_of_omap. exists g. split; [|done].
  unfold values. apply list_elem_of_fmap. exists (k, g). split; [done|]. by apply elem_of_map_to_list.
Qed.
Lemma sweep_sems_lookup active m k vc : sweep_sems active m !! k = Some vc ->  m !! k = Some vc.
Proof. unfold sweep_sems. rewrite map_lookup_filter_Some. by intros [? _]. Qed.
Lemma sweep_sems_keeps active m k : k ∈ active -> is_Some (m !! k) -> is_Some (sweep_sems active m !! k).
Proof.
  intros Hk [vc H]. exists vc. unfold sweep_sems. apply map_lookup_filter_Some. split; [done|]. cbn.
  apply list_elem_of_In, in_strs_iff in Hk. by rewrite Hk.
Qed.
Lemma pool_forget_all ks s : pool (foldr _forget s ks) = pool s.
Proof. by induction ks. Qed.
Lemma SInv_sweep c s : Inv c [] s -> SInv c s -> SInv c (_sweep_expired c s).
Proof.
  intros I S. apply Inv_sweep in I. apply (Inv_core _ _ _ (forget_expired c s)) in I; [|done].
  apply (SInv_pool _ _ (forget_expired c s)) in S; [|apply pool_forget_all].
  unfold _sweep_expired. set (s1 := forget_expired c s) in *. destruct S as [G S C W N P].
  split; auto; cbn.
  - intros ch v cap H%sweep_sems_lookup. by apply C.
  - intros w v cap H%sweep_sems_lookup. by apply W.
  - intros lk l r o Hl Hr Ho. destruct (P lk l r o Hl Hr Ho) as [H1 H2].
    destruct (inv_entry _ _ _ I _ _ _ _ (run_in_lane _ _ _ _ Hl Hr)) as (Ht & _).
    pose proof (active_ticket _ _ _ _ Ht Ho) as Ha. split.
    + apply sweep_sems_keeps; [|done]. unfold active_channels. apply elem_of_app. left.
      apply list_elem_of_fmap. by exists o.
    + intros w Hw. apply sweep_sems_keeps; [|by apply H2]. unfold active_workspaces. apply elem_of_app. left.
      apply list_elem_of_omap. by exists o.
Qed.

(** A new ticket waits in its lane. *)
Lemma SInv_enqueue c k kind ws s : Inv c [] s -> SInv c s -> SInv c (fst (enqueue c k kind ws s)).
Proof.
  intros I S. destruct (enqueue_eq c k kind ws s) as (s' & Hs' & Heq). cbv zeta in Heq.
  set (o := {| t_invocation_id := k; t_kind := kind; t_deadline_at := clock s + c_max_invocation c;
              t_started := FPending; t_completed := FPending |}) in *.
  set (s1 := set_objs (<[next_id s := o]> (objs s)) s).
  assert (Hfresh : forall lk l r, lanes s !! lk = Some l -> l_run l = Some r -> next_id s <> run_id r).
  { intros lk l r Hl Hr E. destruct (inv_entry _ _ _ I _ _ _ _ (run_in_lane _ _ _ _ Hl Hr)) as (_ & _ & o' & Ho & _).
    assert (run_id r < next_id s)%nat by (apply (inv_objs _ _ _ I); eauto). lia. }
  assert (HH : forall P, holders P s1 = holders P s).
  { intros P. apply count_ext. intros lk l Hl. unfold held. destruct (l_run l) as [r|] eqn:Hr; [|done].
    unfold kinds; cbn. rewrite fmap_insert, lookup_insert_ne by by eapply Hfresh. done. }
  assert (S1 : SInv c s1).
  { destruct S as [G S C W N P]. split; cbn; rewrite ?HH; auto.
    - intros ch v cap H. rewrite HH. by apply C.
    - intros w v cap H. rewrite HH. by apply W.
    - intros lk l r o' Hl Hr Ho. rewrite lookup_insert_ne in Ho by by eapply Hfresh. by eapply P. }
  set (lk := lane_key_of c o) in *.
  set (l0 := from_option id {| l_queue := []; l_begun := false; l_run := None |} (lanes s !! lk)).
  apply (SInv_pool _ (put_lane lk (Some {| l_queue := l_queue l0 ++ [(k, next_id s)]; l_begun := l_begun l0; l_run := l_run l0 |}) s1)).
  - unfold enqueue. fold o. fold lk. cbn [fst].
    assert (HF : forall ws s2, pool (foldl append_admit s2 ws) = pool s2).
    { induction ws0 as [|w ws0 IH]; intros s2; [done|]. cbn. by rewrite IH. }
    match goal with |- context [foldl append_admit ?x ws] => specialize (HF ws x) end.
    unfold pool, kinds in *; cbn in *. injection HF as H1 H2 H3 H4 H5 H6. rewrite H1, H2, H3, H4, H5, H6. done.
  - apply SInv_put; [done| |].
    + intros l r o' [= <-] Hr Ho. cbn in Hr. destruct (lanes s !! lk) as [l|] eqn:Hl; [|done].
      by apply (s_present _ _ S1 lk l r o').
    + intros P. unfold held_opt. cbn. unfold l0. by destruct (lanes s !! lk).
Qed.

Lemma pool_existing c k s : pool (fst (_existing_ticket c k s)) = pool s.
Proof.
  unfold _existing_ticket. destruct (find_record k s); [|done].
  destruct (decide _); [|done]. destruct (completed_at s !! k); [|done]. by destruct (_ <=? _).
Qed.
Lemma pool_check_rate c re s : pool (fst (_check_rate c re s)) = pool s.
Proof.
  unfold _check_rate. destruct (c_rate_limits c !! _); [|done]. destruct (rate_checks _ _ _) as [checks|]; [|done].
  revert s. induction checks as [|[k cap] checks IH]; intros s; [done|]. cbn.
  destruct (_ <=? _); [done|]. match goal with |- context [check_windows checks ?s'] => specialize (IH s') end.
  destruct (check_windows checks _). exact IH.
Qed.
Lemma SInv_admit c re s : Inv c [] s -> SInv c s -> SInv c (fst (admit_ c re s)).
Proof.
  intros I S. unfold admit_. destruct (closed s) eqn:Hc; [done|].
  pose proof (SInv_sweep c s I S) as S1. apply Inv_sweep in I. set (s1 := _sweep_expired c s) in *.
  pose proof (Inv_existing c (_dedup_key c re) s1 I) as I2.
  pose proof (SInv_pool _ _ _ (pool_existing c (_dedup_key c re) s1) S1) as S2.
  destruct (_existing_ticket _ _ _) as [s2 [r|]]; cbn [fst] in *.
  { eapply SInv_pool; [|exact S2]. by destruct r. }
  pose proof (Inv_core _ _ _ _ (core_check_rate c re s2) I2) as I3.
  pose proof (SInv_pool _ _ _ (pool_check_rate c re s2) S2) as S3.
  destruct (_check_rate c re s2) as [s3 [ws|e]]; cbn [fst] in *; [|done].
  destruct (_ <=? _); [by eapply SInv_pool; [|exact S3]|].
  pose proof (SInv_enqueue c (_dedup_key c re) (agent_kind c re) ws s3 I3 S3) as H.
  destruct (enqueue _ _ _ _ _). exact H.
Qed.
Lemma SInv_admit_script c ev s : Inv c [] s -> SInv c s -> SInv c (fst (admit_script c ev s)).
Proof.
  intros I S. unfold admit_script. destruct (closed s) eqn:Hc; [done|].
  pose proof (SInv_sweep c s I S) as S1. apply Inv_sweep in I. set (s1 := _sweep_expired c s) in *.
  set (k := invocation_digest _ _ _). pose proof (Inv_existing c k s1 I) as I2.
  pose proof (SInv_pool _ _ _ (pool_existing c k s1) S1) as S2.
  destruct (_existing_ticket _ _ _) as [s2 [r|]]; cbn [fst] in *.
  { apply (SInv_pool _ _ (note_recovered r s2)) in S2; [|by destruct r].
    destruct r; [destruct (from_option _ _ _)|]; done. }
  destruct (_ <=? _); [by eapply SInv_pool; [|exact S2]|].
  pose proof (SInv_enqueue c k (Script ev) [] s2 I2 S2) as H. destruct (enqueue _ _ _ _ _). exact H.
Qed.
Lemma SInv_recover c k r s : Inv c [] s -> SInv c s -> SInv c (fst (recover c k r s)).
Proof.
  intros I S. unfold recover. destruct (closed s); [done|]. pose proof (SInv_sweep c s I S) as S1.
  destruct (tickets _ !! k); [done|]. destruct (recovered _ !! k) as [r'|].
  - destruct (same_run r' r); [|done]. by eapply SInv_pool; [|exact S1].
  - by eapply SInv_pool; [|exact S1].
Qed.

(** ** close() *)

Lemma pool_close_recovered ks s : pool (foldr close_recovered s ks) = pool s.
Proof.
  induction ks as [|k ks IH]; [done|]. cbn. rewrite <- IH. unfold close_recovered.
  destruct (decide _); [done|]. unfold end_recovered, _release_capacity_once. by destruct (decide _).
Qed.
Lemma pool_close_ticket kgs s : pool (foldr close_ticket s kgs) = pool s.
Proof.
  induction kgs as [|[k g] kgs IH]; [done|]. cbn. rewrite <- IH. unfold close_ticket. by rewrite pool_retire, pool_fail.
Qed.
Lemma lane_cancel_lanes c lk s : lanes (lane_cancel c lk s) = delete lk (lanes s).
Proof.
  destruct (lanes s !! lk) as [l|] eqn:Hl; [|unfold lane_cancel; by rewrite Hl, delete_id].
  rewrite (lane_cancel_eq _ _ l) by done. cbv beta. destruct (l_begun l); rewrite ?drain_lanes; by rewrite cancel_run_lanes.
Qed.
Lemma lane_cancel_all_lanes c lks s lk : lanes (foldr (lane_cancel c) s lks) !! lk =
  if decide (lk ∈ lks) then None else lanes s !! lk.
Proof.
  induction lks as [|lk' lks IH]; cbn; [done|]. rewrite lane_cancel_lanes, lookup_delete, IH.
  repeat case_decide; set_solver.
Qed.
Lemma lanes_all_cancelled c s : lanes (foldr (lane_cancel c) s (map fst (map_to_list (lanes s)))) = ∅.
Proof.
  apply map_eq. intros lk. rewrite lane_cancel_all_lanes, lookup_empty. case_decide as H; [done|].
  destruct (lanes s !! lk) as [l|] eqn:E; [|done]. destruct H. apply list_elem_of_fmap.
  exists (lk, l). split; [done|]. by apply elem_of_map_to_list.
Qed.
Lemma SInv_cancel_all c lks s : closed s = true -> Inv c [] s -> SInv c s -> SInv c (foldr (lane_cancel c) s lks).
Proof.
  intros Hc I S. induction lks as [|lk lks IH]; [done|]. cbn. apply SInv_lane_cancel; [|done].
  by apply lane_cancel_all.
Qed.
Lemma SInv_close c s : Good c s -> SInv c s -> SInv c (close c s).
Proof.
  intros [I Hq] S. unfold close. cbv zeta. set (s1 := set_closed true s).
  assert (I1 : Inv c [] s1) by by apply Inv_set_closed.
  assert (Ht1 : forall k, k ∈ elements (recovery_tasks s1) -> k ∈ dom (recovered s1)).
  { intros k Hk%elem_of_elements. destruct (closed s) eqn:Hc.
    - pose proof (quiet_tasks _ (Hq eq_refl)) as H. cbn in Hk. set_solver.
    - apply elem_of_dom. by apply (inv_tasks _ _ _ I Hc). }
  destruct (close_recovered_all c _ s1 eq_refl I1 Ht1) as (I2 & C2 & _).
  pose proof (pool_close_recovered (elements (recovery_tasks s1)) s1) as P2.
  set (s2 := foldr close_recovered s1 _) in *. apply (Inv_closed _ _ ∅) in I2; [|done].
  set (s3 := set_recovery_tasks ∅ s2) in *.
  assert (S3 : SInv c s3) by by apply (SInv_pool _ s).
  pose proof (SInv_cancel_all c (map fst (map_to_list (lanes s3))) s3 C2 I2 S3) as S4.
  pose proof (lanes_all_cancelled c s3) as L4. set (s4 := foldr (lane_cancel c) s3 _) in *.
  eapply SInv_pool; [|exact S4]. rewrite pool_close_recovered, pool_close_ticket.
  unfold pool. cbn. by rewrite L4.
Qed.

(** ** Reachable states *)

Lemma SInv_init c now : caps_ok c -> SInv c (init c now).
Proof.
  intros [K1 K2 K3 K4]. assert (HH : forall P, holders P (init c now) = 0) by (intros P; apply count_empty).
  split; rewrite ?HH; cbn; try lia; intros *; by rewrite lookup_empty.
Qed.
Lemma SInv_step c s s' : caps_ok c -> step c s s' -> Good c s -> SInv c s -> SInv c s'.
Proof.
  intros K Hstep HG S. pose proof HG as [I _]. destruct Hstep.
  - by eapply SInv_pool; [|exact S].
  - by apply SInv_admit.
  - by apply SInv_admit_script.
  - by apply SInv_recover.
  - eapply SInv_pool; [|exact S]. unfold monitor_poll. destruct (monitors s !! k); [|done].
    destruct (objs s !! _); [|done]. destruct (_ <=? _); [|done]. rewrite <- (pool_fail n TimeoutError s). done.
  - by apply SInv_lane_start.
  - by apply SInv_lane_poll.
  - by apply SInv_lane_deliver.
  - eapply SInv_pool; [|exact S]. unfold pool, mark_started. by rewrite kinds_upd.
  - by apply SInv_lane_done.
  - by apply SInv_lane_cancel.
  - eapply SInv_pool; [|exact S]. unfold pool. by rewrite kinds_upd.
  - eapply SInv_pool; [|exact S]. unfold observe_done. destruct (decide _); [|done].
    destruct obs; [destruct (decide _); [done|]| |done]; unfold end_recovered, _release_capacity_once;
      by destruct (decide _).
  - by apply SInv_close.
Qed.
Lemma SInv_reachable c s : caps_ok c -> reachable c s -> SInv c s.
Proof.
  intros K [now H]. assert (G0 : Good c (init c now) /\ SInv c (init c now)).
  { split; [split; [apply Inv_init|done]|by apply SInv_init]. }
  revert G0. induction H as [|x y z Hxy _ IH]; [tauto|]. intros [G S]. apply IH.
  split; [by eapply Good_step|by eapply SInv_step].
Qed.
