(* ===== verification/AdmissionProps.v ===== *)
(** * harness/admission.py: what admission promises

    The contract of [Admission], over every reachable state: dedup, capacity, FIFO lanes, permit
    pools, deadlines, retention and [close]. *)

From S2P Require Import Prelude Sha256 PyJson Refs Config ConfigFacts Channels Admission AdmissionInv AdmissionKeys AdmissionSteps AdmissionSem.
From stdpp Require Import fin_maps fin_sets gmap.
From Stdlib Require Import Sorted.
Local Open Scope Z_scope.

(** ** A sample run, for the witnesses *)

Definition sample_cfg : cfg :=
  {| c_namespace := "ns"; c_agent_uid := "123e4567-e89b-12d3-a456-426614174000";
     c_max_concurrent_invocations := 2; c_max_queued_total := 3; c_idempotency_window := seconds 60;
     c_max_invocation := seconds 30; c_workspace_max_concurrent_sessions := 1;
     c_channel_concurrency := ∅; c_max_concurrent_scripts := Some 1;
     c_rate_limits := {["hook" := {| crl_max_per_hour := Some 2; crl_per_key := [] |}]};
     c_repr := fun _ => "" |}.
Definition sample_event (id session : string) : RoutedEvent :=
  {| re_event := {| ev_id := id; ev_channel := "hook"; ev_type := "webhook"; ev_source := "s";
                    ev_payload := []; ev_context := []; ev_actor := "a" |};
     re_workspace_key := "w"; re_session_key := session; re_rate_keys := [] |}.
Definition sample_lane : string := lane_key_of sample_cfg
  {| t_invocation_id := ""; t_kind := agent_kind sample_cfg (sample_event "" "x"); t_deadline_at := 0;
     t_started := FPending; t_completed := FPending |}.
(** Two deliveries of one session; the first is handed to the runner. *)
Definition sample_queued : st :=
  fst (admit_ sample_cfg (sample_event "e2" "x") (fst (admit_ sample_cfg (sample_event "e1" "x") (init sample_cfg 0)))).
Definition sample_permitted : st := lane_poll sample_cfg sample_lane (lane_start sample_cfg sample_lane sample_queued).
Definition sample_running : st := lane_deliver sample_cfg sample_lane sample_permitted.
Lemma sample_queued_reachable : reachable sample_cfg sample_queued.
Proof.
  exists 0. unfold sample_queued.
  eapply rtc_l; [apply (step_admit _ _ (sample_event "e1" "x"))|].
  eapply rtc_l; [apply (step_admit _ _ (sample_event "e2" "x"))|]. apply rtc_refl.
Qed.
Lemma reachable_step c s s' : reachable c s -> step c s s' -> reachable c s'.
Proof. intros [now H] Hs. exists now. by eapply rtc_r. Qed.
Lemma sample_permitted_reachable : reachable sample_cfg sample_permitted.
Proof.
  unfold sample_permitted. eapply reachable_step; [|apply step_poll]. eapply reachable_step; [|apply step_start].
  apply sample_queued_reachable.
Qed.
Lemma sample_running_reachable : reachable sample_cfg sample_running.
Proof. eapply reachable_step; [apply sample_permitted_reachable|apply step_deliver]. Qed.
Lemma sample_caps : caps_ok sample_cfg.
Proof.
  split; cbn; try lia. intros ch. unfold channel_cap. cbn. rewrite lookup_empty. cbn. lia.
Qed.
Lemma sample_closed : closed sample_running = false.
Proof. vm_compute. reflexivity. Qed.
Lemma sample_delivered : delivered sample_running = [0%nat] /\ queued_total sample_running = 2.
Proof. vm_compute. done. Qed.

(** ** What [close] keeps *)

Lemma quiet_total c s : Inv c [] s -> known s ⊆ released s -> queued_total s = 0.
Proof.
  intros I H. rewrite (inv_total _ _ _ I). replace (known s ∖ released s) with (∅ : gset string) by set_solver.
  done.
Qed.
Lemma close_tickets c s : tickets (close c s) = tickets s.
Proof.
  assert (HR : forall ks s, tickets (foldr close_recovered s ks) = tickets s).
  { induction ks as [|k ks IH]; intros s0; [done|]. cbn. rewrite <- (IH s0).
    by destruct (close_recovered_spec k (foldr close_recovered s0 ks)) as (_ & _ & _ & -> & _). }
  assert (HT : forall kgs s, tickets (foldr close_ticket s kgs) = tickets s).
  { induction kgs as [|[k g] kgs IH]; intros s0; [done|]. cbn. rewrite <- (IH s0).
    by destruct (close_ticket_spec k g (foldr close_ticket s0 kgs)) as (_ & _ & -> & _). }
  assert (HL : forall lks s, tickets (foldr (lane_cancel c) s lks) = tickets s).
  { induction lks as [|lk lks IH]; intros s0; [done|]. cbn. rewrite <- (IH s0).
    by pose proof (rest_lane_cancel c lk (foldr (lane_cancel c) s0 lks)) as [= _ _ _ -> _ _ _ _]. }
  unfold close. cbv zeta. rewrite HR, HT. cbn. rewrite HL. cbn. by rewrite HR.
Qed.

Lemma delivered_close c s : delivered (close c s) = delivered s.
Proof.
  assert (HR : forall ks s, delivered (foldr close_recovered s ks) = delivered s).
  { induction ks as [|k ks IH]; intros s0; [done|]. cbn. rewrite <- (IH s0). unfold close_recovered.
    destruct (decide _); [done|]. unfold end_recovered, _release_capacity_once. by destruct (decide _). }
  assert (HT : forall kgs s, delivered (foldr close_ticket s kgs) = delivered s).
  { induction kgs as [|[k g] kgs IH]; intros s0; [done|]. cbn. rewrite <- (IH s0). unfold close_ticket at 1. cbn.
    by pose proof (rest_retire k g (_fail g RuntimeError (foldr close_ticket s0 kgs))) as [= _ _ _ _ _ -> _ _]. }
  assert (HL : forall lks s, delivered (foldr (lane_cancel c) s lks) = delivered s).
  { induction lks as [|lk lks IH]; intros s0; [done|]. cbn. rewrite <- (IH s0).
    by pose proof (rest_lane_cancel c lk (foldr (lane_cancel c) s0 lks)) as [= _ _ _ _ _ -> _ _]. }
  unfold close. cbv zeta. rewrite HR, HT. cbn. rewrite HL. cbn. by rewrite HR.
Qed.
Lemma delivered_step c s s' : step c s s' -> delivered s' = delivered s \/ exists lk, s' = lane_deliver c lk s.
Proof.
  intros [H|[[lk ->]| ->]]%flags_step; [left; unfold flags in H; congruence|by eauto|left; apply delivered_close].
Qed.

(** ** Delivery *)

(** C1. At most once: whatever admissions, deadlines, cancellations, recoveries and redeliveries
    happen, and in whatever order the lanes, monitors and observers run, no ticket is handed to
    the runner twice. *)
Theorem delivered_once c s : reachable c s -> NoDup (delivered s).
Proof. intros H. apply Good_reachable in H as [I _]. by apply (inv_delivered _ _ _ I). Qed.
Lemma delivered_once_witness : delivered sample_running = [0%nat] /\ NoDup (delivered sample_running).
Proof. split; [apply sample_delivered|]. apply (delivered_once sample_cfg), sample_running_reachable. Defined.

(** C2. A ticket's one FIFO entry: until admission closes, a ticket is unreleased exactly while it
    sits in a lane (queued or running), and never in two lanes or under two generations.  This is
    what lets the code keep a key's record and admit no second generation before the first is
    dequeued. *)
Theorem unreleased_has_one_entry c s k g : reachable c s -> closed s = false -> tickets s !! k = Some g ->
  (k ∉ released s <-> exists lk l, in_lane s lk l k g)
  /\ (forall lk l lk' l' g', in_lane s lk l k g -> in_lane s lk' l' k g' -> lk = lk' /\ g' = g).
Proof.
  intros [I _]%Good_reachable Hc Ht. split; [split|].
  - intros Hr. destruct (inv_cover _ _ _ I Hc _ _ Ht Hr) as [H|H]; [set_solver|done].
  - intros (lk & l & H). by apply (inv_entry _ _ _ I) in H as (_ & ? & _).
  - intros lk l lk' l' g' H H'. by destruct (in_lane_inj _ _ _ _ _ _ _ _ _ _ I H H') as (-> & _ & ->).
Qed.
Definition sample_key (id : string) : string := _dedup_key sample_cfg (sample_event id "x").
Lemma unreleased_has_one_entry_witness :
  (sample_key "e1" ∉ released sample_running
   <-> exists lk l, in_lane sample_running lk l (sample_key "e1") 0) /\ sample_key "e1" ∉ released sample_running.
Proof.
  split; [|vm_compute; by intros ?].
  apply (unreleased_has_one_entry sample_cfg sample_running (sample_key "e1") 0 sample_running_reachable);
    vm_compute; reflexivity.
Defined.

(** C3. Strict FIFO: a lane's entries, the running one first, are in admission order and all belong
    to the lane's session (or script project); so while a ticket runs, everything of its session
    admitted later waits behind it. *)
Theorem lane_fifo c s lk l : reachable c s -> lanes s !! lk = Some l ->
  StronglySorted Nat.lt (map snd (lane_entries l))
  /\ (forall k g, (k, g) ∈ lane_entries l -> exists o, objs s !! g = Some o /\ lane_key_of c o = lk)
  /\ (forall r k g, l_run l = Some r -> (k, g) ∈ l_queue l -> (run_id r < g)%nat).
Proof.
  intros [I _]%Good_reachable Hl. split_and!.
  - by eapply inv_fifo.
  - intros k g Hi. by destruct (inv_entry _ _ _ I lk l k g (conj Hl Hi)) as (_ & _ & ?).
  - intros r k g Hr Hq. pose proof (inv_fifo _ _ _ I _ _ Hl) as H. unfold lane_entries, run_entry in H.
    rewrite Hr in H. apply StronglySorted_inv in H as [_ H]. rewrite List.Forall_forall in H.
    apply H. apply list_elem_of_In, list_elem_of_fmap. by exists (k, g).
Qed.
Definition sample_lane_state : lane :=
  {| l_queue := [(sample_key "e2", 1%nat)]; l_begun := true;
     l_run := Some {| run_key := sample_key "e1"; run_id := 0; run_phase := Delivering |} |}.
Lemma lane_fifo_witness : StronglySorted Nat.lt (map snd (lane_entries sample_lane_state)).
Proof.
  apply (lane_fifo sample_cfg sample_running sample_lane sample_lane_state sample_running_reachable).
  vm_compute. reflexivity.
Defined.

(** One run per session: two lanes never run tickets of the same session at the same time. *)
Theorem session_serial c s lk l r lk' l' r' o o' : reachable c s ->
  lanes s !! lk = Some l -> l_run l = Some r -> objs s !! run_id r = Some o ->
  lanes s !! lk' = Some l' -> l_run l' = Some r' -> objs s !! run_id r' = Some o' ->
  is_script o = false -> is_script o' = false -> t_session o = t_session o' ->
  lk = lk' /\ r = r' /\ o = o'.
Proof.
  intros [I _]%Good_reachable Hl Hr Ho Hl' Hr' Ho' Hs Hs' Hse.
  destruct (inv_entry _ _ _ I _ _ _ _ (run_in_lane _ _ _ _ Hl Hr)) as (_ & _ & o1 & Ho1 & Hk).
  destruct (inv_entry _ _ _ I _ _ _ _ (run_in_lane _ _ _ _ Hl' Hr')) as (_ & _ & o2 & Ho2 & Hk').
  rewrite Ho in Ho1. rewrite Ho' in Ho2. injection Ho1 as <-. injection Ho2 as <-.
  assert (Hlk : lk = lk').
  { rewrite <- Hk, <- Hk'. unfold lane_key_of, is_script, t_session in *.
    destruct (t_kind o), (t_kind o'); try done. by injection Hse as ->. }
  rewrite <- Hlk in *. rewrite Hl in Hl'. injection Hl' as <-. rewrite Hr in Hr'. injection Hr' as <-.
  split_and!; congruence.
Qed.
Definition sample_obj : tobj := from_option id
  {| t_invocation_id := ""; t_kind := Script (re_event (sample_event "" "")); t_deadline_at := 0;
     t_started := FPending; t_completed := FPending |} (objs sample_running !! 0%nat).
Lemma session_serial_witness : is_script sample_obj = false /\ sample_lane = sample_lane.
Proof.
  split; [vm_compute; reflexivity|].
  apply (session_serial sample_cfg sample_running sample_lane sample_lane_state
    {| run_key := sample_key "e1"; run_id := 0; run_phase := Delivering |} sample_lane sample_lane_state
    {| run_key := sample_key "e1"; run_id := 0; run_phase := Delivering |} sample_obj sample_obj
    sample_running_reachable); vm_compute; reflexivity.
Defined.

(** The runner starts in time and with permits: a step that hands a ticket to the runner finds it
    at the head of its lane, holding its permits, before its deadline, on an open admission. *)
Theorem delivery_in_time c s s' g : reachable c s -> step c s s' ->
  g ∈ delivered s' -> g ∉ delivered s ->
  exists lk l r o, lanes s !! lk = Some l /\ l_run l = Some r /\ run_id r = g /\ run_phase r = Permitted
    /\ objs s !! g = Some o /\ clock s < t_deadline_at o /\ closed s = false.
Proof.
  intros HR Hstep Hin Hout. destruct (Good_reachable _ _ HR) as [I Hq].
  destruct (delivered_step _ _ _ Hstep) as [E|(lk & ->)]; [by rewrite E in Hin|].
  unfold lane_deliver in Hin. destruct (lanes s !! lk) as [[q b [[k g' []]|]]|] eqn:Hl; try done.
  destruct (objs s !! g') as [o|] eqn:Ho; [|done].
  destruct (Z.leb_spec (t_deadline_at o) (clock s)).
  { destruct Hout. pose proof (rest_finish lk k g' (permits c 1 o (_expire g' "deadline exceeded immediately before delivery" s)))
      as H1. rewrite rest_permits in H1. unfold rest in H1. cbn in H1. congruence. }
  cbn in Hin. apply elem_of_cons in Hin as [->|Hin]; [|done].
  do 4 eexists. split_and!; try done. destruct (closed s) eqn:Hc; [|done].
  rewrite (quiet_lanes _ (Hq eq_refl)), lookup_empty in Hl. done.
Qed.
Lemma delivery_in_time_witness : exists o, objs sample_permitted !! 0%nat = Some o /\ clock sample_permitted < t_deadline_at o.
Proof.
  destruct (delivery_in_time sample_cfg sample_permitted sample_running 0 sample_permitted_reachable
    (step_deliver _ _ sample_lane)) as (lk & l & r & o & H).
  - vm_compute. apply list_elem_of_here.
  - vm_compute. intros H. inversion H.
  - exists o. tauto.
Defined.

(** ** Permits *)

(** C4. Bounded concurrency: in every reachable state the runs that hold permits (delivering or about
    to) stay within the global pool, the script pool, their channel's cap and their Workspace's. *)
Theorem concurrency_bounded c s : caps_ok c -> reachable c s ->
  holders (fun kd => negb (k_own c kd)) s <= c_max_concurrent_invocations c
  /\ holders (k_own c) s <= from_option id 0 (c_max_concurrent_scripts c)
  /\ (forall ch, holders (on_ch ch) s <= channel_cap c ch)
  /\ (forall w, holders (on_ws w) s <= c_workspace_max_concurrent_sessions c).
Proof.
  intros K HR. destruct (SInv_reachable _ _ K HR) as [G S C W [N1 N2] P]. split_and!; [lia|lia| |].
  - intros ch. destruct (channel_sems s !! ch) as [[v cap]|] eqn:E.
    + destruct (C _ _ _ E) as (-> & ? & ?). lia.
    + rewrite holders_zero; [by apply cap_channel|]. intros lk l r o Hl Hr Ho.
      destruct (P lk l r o Hl Hr Ho) as [[? H] _]. apply String.eqb_neq. intros <-.
      change (k_channel (t_kind o)) with (t_channel o) in E. congruence.
  - intros w. destruct (workspace_sems s !! w) as [[v cap]|] eqn:E.
    + destruct (W _ _ _ E) as (-> & ? & ?). lia.
    + rewrite holders_zero; [by apply cap_workspace|]. intros lk l r o Hl Hr Ho.
      destruct (P lk l r o Hl Hr Ho) as [_ H]. unfold on_ws. change (k_workspace (t_kind o)) with (t_workspace o).
      destruct (t_workspace o) as [w'|]; [|done]. apply String.eqb_neq. intros <-. destruct (H _ eq_refl). congruence.
Qed.
Lemma concurrency_bounded_witness :
  holders (on_ch "hook") sample_running = 1 /\ holders (on_ch "hook") sample_running <= channel_cap sample_cfg "hook".
Proof.
  split; [vm_compute; reflexivity|].
  exact (proj1 (proj2 (proj2 (concurrency_bounded sample_cfg sample_running sample_caps sample_running_reachable))) "hook").
Defined.

(** No permit leaks: each semaphore's value and its holders add up to its capacity, whatever
    deadlines, failures, cancellations and sweeps happened; so when nothing runs every pool is full. *)
Theorem permits_conserved c s : caps_ok c -> reachable c s ->
  global_val s + holders (fun kd => negb (k_own c kd)) s = c_max_concurrent_invocations c
  /\ script_val s + holders (k_own c) s = from_option id 0 (c_max_concurrent_scripts c)
  /\ (forall ch v cap, channel_sems s !! ch = Some (v, cap) ->
        cap = channel_cap c ch /\ v + holders (on_ch ch) s = cap)
  /\ (forall w v cap, workspace_sems s !! w = Some (v, cap) ->
        cap = c_workspace_max_concurrent_sessions c /\ v + holders (on_ws w) s = cap).
Proof.
  intros K HR. destruct (SInv_reachable _ _ K HR) as [G S C W N P]. split_and!; auto.
  - intros ch v cap H. by destruct (C _ _ _ H) as (? & ? & _).
  - intros w v cap H. by destruct (W _ _ _ H) as (? & ? & _).
Qed.
Lemma permits_conserved_witness :
  global_val sample_running + holders (fun kd => negb (k_own sample_cfg kd)) sample_running
  = c_max_concurrent_invocations sample_cfg.
Proof. exact (proj1 (permits_conserved sample_cfg sample_running sample_caps sample_running_reachable)). Defined.

(** ** Capacity *)

(** The queue counter is exact: [queued_total] is the number of known keys (tickets and recovered
    runs) not yet released; in particular it never goes negative and no release is counted twice. *)
Theorem queued_total_exact c s : reachable c s ->
  queued_total s = Z.of_nat (size ((dom (tickets s) ∪ dom (recovered s)) ∖ released s))
  /\ released s ⊆ dom (tickets s) ∪ dom (recovered s).
Proof.
  intros [I _]%Good_reachable. split; [apply (inv_total _ _ _ I)|apply (inv_rel _ _ _ I)].
Qed.
Lemma queued_total_exact_witness :
  size ((dom (tickets sample_running) ∪ dom (recovered sample_running)) ∖ released sample_running) = 2%nat.
Proof.
  destruct (queued_total_exact sample_cfg sample_running sample_running_reachable) as [H _].
  apply Nat2Z.inj. rewrite <- H. apply sample_delivered.
Defined.

(** Every released ticket is settled: once a key's capacity is given back, both of its futures
    are done, so no caller waits forever on a retired ticket. *)
Theorem released_settled c s k : reachable c s -> k ∈ released s ->
  (forall g o, tickets s !! k = Some g -> objs s !! g = Some o -> futures_done o)
  /\ (forall r, recovered s !! k = Some r -> fut_done (r_completed r) = true)
  /\ monitors s !! k = None /\ k ∉ monitor_expired s.
Proof.
  intros [I _]%Good_reachable Hk. split_and!.
  - intros g o. by apply (inv_done _ _ _ I).
  - intros r. by apply (inv_rdone _ _ _ I).
  - by apply (inv_relmon _ _ _ I).
  - by apply (inv_relmon _ _ _ I).
Qed.
Definition sample_done : st := lane_done sample_cfg sample_lane RunOk sample_running.
Lemma sample_done_reachable : reachable sample_cfg sample_done.
Proof. eapply reachable_step; [apply sample_running_reachable|apply step_done]. Qed.
Definition sample_done_obj : tobj := from_option id sample_obj (objs sample_done !! 0%nat).
Lemma released_settled_witness : t_completed sample_done_obj = FResult /\ futures_done sample_done_obj.
Proof.
  split; [vm_compute; reflexivity|].
  assert (H : sample_key "e1" ∈ released sample_done).
  { apply (bool_decide_unpack _). vm_compute. exact Logic.I. }
  apply (released_settled sample_cfg sample_done (sample_key "e1") sample_done_reachable H) with (g := 0%nat);
    vm_compute; reflexivity.
Defined.

(** ** close() *)

(** [close] accounts for everything: afterwards no lane, monitor or observer is left, every
    ticket and recovered run is released with its futures done, the counter is back to zero and
    no ticket record was dropped. *)
Theorem close_settles_everything c s : reachable c s ->
  let s' := close c s in
  closed s' = true /\ lanes s' = ∅ /\ monitors s' = ∅ /\ recovery_tasks s' = ∅ /\ queued_total s' = 0
  /\ tickets s' = tickets s
  /\ (forall k g o, tickets s' !! k = Some g -> objs s' !! g = Some o -> futures_done o)
  /\ (forall k r, recovered s' !! k = Some r -> fut_done (r_completed r) = true).
Proof.
  intros HG%Good_reachable s'. destruct (close_good _ _ HG) as (I & Hc & [Q1 Q2 Q3 Q4]). split_and!; auto.
  - by eapply quiet_total.
  - apply close_tickets.
  - intros k g o Ht. apply (inv_done _ _ _ I k); [|done]. apply Q4. by eapply known_ticket.
  - intros k r Hr. apply (inv_rdone _ _ _ I k); [|done]. apply Q4. by eapply known_recovered.
Qed.
Lemma close_settles_everything_witness :
  queued_total sample_running = 2 /\ queued_total (close sample_cfg sample_running) = 0.
Proof.
  split; [apply sample_delivered|].
  apply (close_settles_everything sample_cfg sample_running sample_running_reachable).
Defined.

(** [close] is terminal: from a closed state no step, of any task or caller, hands anything to the
    runner, adds or drops a ticket or opens admission again; and [admit], [admit_script] and
    [recover] raise [AdmissionClosedError] and change nothing. *)
Theorem closed_is_terminal c s s' : reachable c s -> closed s = true -> step c s s' ->
  closed s' = true /\ delivered s' = delivered s /\ tickets s' = tickets s /\ lanes s' = ∅ /\ queued_total s' = 0
  /\ (forall re, admit_ c re s' = (s', Err AdmissionClosedError))
  /\ (forall ev, admit_script c ev s' = (s', Err AdmissionClosedError))
  /\ (forall k r, recover c k r s' = (s', Err AdmissionClosedError)).
Proof.
  intros HR Hc Hstep. pose proof (reachable_step _ _ _ HR Hstep) as HR'.
  apply Good_reachable in HR as [I Hq]. apply Good_reachable in HR' as [I' Hq'].
  destruct (Hq Hc) as [Q1 Q2 Q3 Q4].
  assert (Hc' : closed s' = true /\ tickets s' = tickets s).
  { destruct Hstep; cbn [fst]; try (unfold admit_, admit_script, recover; by rewrite Hc).
    - done.
    - unfold monitor_poll. by rewrite Q2, lookup_empty.
    - unfold lane_start. by rewrite Q1, lookup_empty.
    - unfold lane_poll. by rewrite Q1, lookup_empty.
    - unfold lane_deliver. by rewrite Q1, lookup_empty.
    - done.
    - unfold lane_done. by rewrite Q1, lookup_empty.
    - unfold lane_cancel. by rewrite Q1, lookup_empty.
    - done.
    - unfold observe_done. by rewrite Q3, decide_False by set_solver.
    - split; [|apply close_tickets]. by apply close_good. }
  destruct Hc' as [Hc' Ht']. destruct (Hq' Hc') as [Q1' _ _ Q4']. split_and!; auto.
  - destruct (delivered_step _ _ _ Hstep) as [|(lk & ->)]; [done|]. unfold lane_deliver. by rewrite Q1, lookup_empty.
  - by eapply quiet_total.
  - intros re. unfold admit_. by rewrite Hc'.
  - intros ev. unfold admit_script. by rewrite Hc'.
  - intros k r. unfold recover. by rewrite Hc'.
Qed.
Definition sample_after_close : st := close sample_cfg sample_running.
Lemma sample_after_close_reachable : reachable sample_cfg sample_after_close.
Proof. eapply reachable_step; [apply sample_running_reachable|apply step_close]. Qed.
Lemma closed_is_terminal_witness : delivered (close sample_cfg sample_after_close) = delivered sample_after_close.
Proof.
  exact (proj1 (proj2 (closed_is_terminal sample_cfg sample_after_close _ sample_after_close_reachable
    (proj1 (proj2 (close_good _ _ (Good_reachable _ _ sample_running_reachable)))) (step_close _ _)))).
Defined.
