(* ===== verification/AdmissionDedup.v ===== *)
(** * harness/admission.py: dedup, retention, rate limits and progress

    What [admit] answers on every branch, how long a key is remembered, the rate windows, the
    deadline monitor, and that a waiting ticket runs when the pools are free. *)

From S2P Require Import Prelude Sha256 PyJson Refs Config ConfigFacts Channels Admission AdmissionInv AdmissionKeys AdmissionSteps AdmissionSem AdmissionProps.
From stdpp Require Import fin_maps fin_sets gmap.
From Stdlib Require Import Sorted.
Local Open Scope Z_scope.

(** ** Forgetting a list of keys *)

Lemma forget_all_tickets ks s k : tickets (foldr _forget s ks) !! k = if decide (k ∈ ks) then None else tickets s !! k.
Proof.
  induction ks as [|k' ks IH]; cbn; [done|]. rewrite lookup_delete, IH. repeat case_decide; set_solver.
Qed.
Lemma forget_all_recovered ks s k : recovered (foldr _forget s ks) !! k = if decide (k ∈ ks) then None else recovered s !! k.
Proof.
  induction ks as [|k' ks IH]; cbn; [done|]. rewrite lookup_delete, IH. repeat case_decide; set_solver.
Qed.
Lemma forget_all_completed ks s k :
  completed_at (foldr _forget s ks) !! k = if decide (k ∈ ks) then None else completed_at s !! k.
Proof.
  induction ks as [|k' ks IH]; cbn; [done|]. rewrite lookup_delete, IH. repeat case_decide; set_solver.
Qed.

Lemma forget_all_clock ks s : clock (foldr _forget s ks) = clock s.
Proof. by induction ks. Qed.

(** A key the code must still remember: outstanding, or released less than a window ago. *)
Definition retained (c : cfg) (s : st) (k : string) : Prop :=
  k ∉ released s \/ exists t, completed_at s !! k = Some t /\ clock s - t < c_idempotency_window c.
Lemma retained_not_expired c s k : retained c s k -> k ∉ expired_keys c s.
Proof.
  intros H (_ & Hr & Hw)%expired_keys_spec. destruct H as [?|(t & Ht & Hlt)]; [done|].
  unfold window_elapsed in Hw. rewrite Ht in Hw. apply Z.leb_le in Hw. lia.
Qed.
Lemma sweep_find c s k : retained c s k -> find_record k (_sweep_expired c s) = find_record k s.
Proof.
  intros H%retained_not_expired. unfold find_record.
  change (tickets (_sweep_expired c s)) with (tickets (foldr _forget s (expired_keys c s))).
  change (recovered (_sweep_expired c s)) with (recovered (foldr _forget s (expired_keys c s))).
  by rewrite forget_all_tickets, forget_all_recovered, !decide_False by done.
Qed.
Lemma sweep_retained c s k : retained c s k -> retained c (_sweep_expired c s) k.
Proof.
  intros H. pose proof (retained_not_expired _ _ _ H) as Hn. unfold retained.
  change (released (_sweep_expired c s)) with (released (foldr _forget s (expired_keys c s))).
  change (completed_at (_sweep_expired c s)) with (completed_at (foldr _forget s (expired_keys c s))).
  change (clock (_sweep_expired c s)) with (clock (foldr _forget s (expired_keys c s))).
  rewrite forget_all_clock, forget_all_released, forget_all_completed, decide_False by done.
  destruct H as [H|H]; [left; set_solver|by right].
Qed.
Lemma existing_retained c k s r : retained c s k -> find_record k s = Some r -> _existing_ticket c k s = (s, Some r).
Proof.
  intros H Hf. unfold _existing_ticket. rewrite Hf. destruct (decide _) as [Hr|]; [|done].
  destruct H as [?|(t & -> & Hlt)]; [done|]. destruct (Z.leb_spec (c_idempotency_window c) (clock s - t)); [lia|done].
Qed.

(** C6. Idempotent delivery: while a key is outstanding, or for the idempotency window after it was
    released, delivering the same event again returns the record it already has: no new ticket,
    no lane entry, no capacity taken. *)
Theorem admit_dedup c re s r : closed s = false -> retained c s (_dedup_key c re) ->
  find_record (_dedup_key c re) s = Some r ->
  snd (admit_ c re s) = Ok r /\ lanes (fst (admit_ c re s)) = lanes s /\ next_id (fst (admit_ c re s)) = next_id s
  /\ queued_total (fst (admit_ c re s)) = queued_total s.
Proof.
  intros Hc Hret Hf. unfold admit_. rewrite Hc.
  rewrite (existing_retained c _ _ r) by (by apply sweep_retained || by rewrite sweep_find).
  assert (HL : forall ks s, lanes (foldr _forget s ks) = lanes s /\ next_id (foldr _forget s ks) = next_id s
    /\ queued_total (foldr _forget s ks) = queued_total s) by (induction ks; intros; [done|apply IHks]).
  destruct (HL (expired_keys c s) s) as (H1 & H2 & H3). by destruct r; cbn [fst snd note_recovered]; split_and!.
Qed.
Lemma sample_retained : retained sample_cfg sample_running (_dedup_key sample_cfg (sample_event "e1" "x")).
Proof. left. apply (bool_decide_unpack _). vm_compute. exact Logic.I. Qed.
Lemma sample_find : find_record (_dedup_key sample_cfg (sample_event "e1" "x")) sample_running = Some (RTicket 0).
Proof. vm_compute. reflexivity. Qed.
Lemma admit_dedup_witness : snd (admit_ sample_cfg (sample_event "e1" "x") sample_running) = Ok (RTicket 0).
Proof.
  exact (proj1 (admit_dedup sample_cfg (sample_event "e1" "x") sample_running _ sample_closed sample_retained sample_find)).
Defined.

(** ** A new key *)

Lemma find_None k s : find_record k s = None <-> tickets s !! k = None /\ recovered s !! k = None.
Proof. unfold find_record. destruct (tickets s !! k), (recovered s !! k); naive_solver. Qed.
Lemma sweep_tickets c s : tickets (_sweep_expired c s) = tickets (foldr _forget s (expired_keys c s)).
Proof. done. Qed.
Lemma sweep_find_None c k s : find_record k s = None -> find_record k (_sweep_expired c s) = None.
Proof.
  rewrite !find_None. intros [H1 H2]. split.
  - rewrite sweep_tickets, forget_all_tickets. by case_decide.
  - change (recovered (_sweep_expired c s)) with (recovered (foldr _forget s (expired_keys c s))).
    rewrite forget_all_recovered. by case_decide.
Qed.
Lemma enqueue_fields c k kind ws s :
  let s' := fst (enqueue c k kind ws s) in
  let o := {| t_invocation_id := k; t_kind := kind; t_deadline_at := clock s + c_max_invocation c;
              t_started := FPending; t_completed := FPending |} in
  snd (enqueue c k kind ws s) = next_id s
  /\ tickets s' = <[k := next_id s]> (tickets s) /\ objs s' !! next_id s = Some o
  /\ queued_total s' = queued_total s + 1 /\ released s' = released s /\ monitors s' !! k = Some (next_id s)
  /\ in_lane s' (lane_key_of c o) (from_option id {| l_queue := []; l_begun := false; l_run := None |}
       (lanes s' !! lane_key_of c o)) k (next_id s).
Proof.
  cbv zeta. set (o := {| t_invocation_id := k; t_kind := kind; t_deadline_at := clock s + c_max_invocation c;
              t_started := FPending; t_completed := FPending |}).
  destruct (enqueue_eq c k kind ws s) as (s' & Hs' & ->). cbn [fst snd]. fold o.
  assert (HM : monitors s' = monitors (marked c k kind s)) by (unfold core in Hs'; congruence).
  destruct (core_fields _ _ Hs') as (HT & _ & _ & HR & HQ & HL & HO & _). cbn in HM, HT, HR, HQ, HL, HO.
  split_and!; try done.
  - cbn. rewrite HO. by rewrite lookup_insert_eq.
  - cbn. rewrite HM. by rewrite lookup_insert_eq.
  - cbv zeta. unfold in_lane. rewrite lane_put_eq. cbv zeta. cbn. rewrite lookup_insert_eq. cbn. split; [done|].
    unfold lane_entries; cbn. set_solver.
Qed.

Lemma check_rate_clock c re s : clock (fst (_check_rate c re s)) = clock s.
Proof.
  unfold _check_rate. destruct (c_rate_limits c !! _); [|done]. destruct (rate_checks _ _ _) as [checks|]; [|done].
  revert s. induction checks as [|[k cap] checks IH]; intros s; [done|]. cbn.
  destruct (_ <=? _); [done|]. match goal with |- context [check_windows checks ?s'] => specialize (IH s') end.
  destruct (check_windows checks _). exact IH.
Qed.

(** A new event, on every branch: a rate limit refuses it first, then a full queue; otherwise
    exactly one ticket is created, with the Workspace and session refs of its keys, the deadline one
    [max_invocation] from now, both futures pending, its monitor running and its entry in its
    session's lane; the counter grows by one.  A refusal is an error, takes no capacity and leaves
    no ticket. *)
Theorem admit_new c re s : closed s = false -> find_record (_dedup_key c re) s = None ->
  let k := _dedup_key c re in
  let s' := fst (admit_ c re s) in
  let s0 := _sweep_expired c s in
  match snd (_check_rate c re s0) with
  | Err e => snd (admit_ c re s) = Err e /\ tickets s' = tickets s0 /\ queued_total s' = queued_total s
  | Ok _ =>
      if c_max_queued_total c <=? queued_total s then
        snd (admit_ c re s) = Err AdmissionQueueFullError /\ tickets s' = tickets s0
        /\ queued_total s' = queued_total s
      else
        let o := {| t_invocation_id := k; t_kind := agent_kind c re; t_deadline_at := clock s + c_max_invocation c;
                    t_started := FPending; t_completed := FPending |} in
        snd (admit_ c re s) = Ok (RTicket (next_id s)) /\ tickets s' = <[k := next_id s]> (tickets s0)
        /\ objs s' !! next_id s = Some o /\ queued_total s' = queued_total s + 1
        /\ monitors s' !! k = Some (next_id s) /\ exists l, in_lane s' (lane_key_of c o) l k (next_id s)
  end.
Proof.
  intros Hc Hf. cbv zeta. unfold admit_. rewrite Hc.
  assert (He : _existing_ticket c (_dedup_key c re) (_sweep_expired c s) = (_sweep_expired c s, None)).
  { unfold _existing_ticket. by rewrite sweep_find_None. }
  rewrite He. set (s0 := _sweep_expired c s).
  assert (H0 : queued_total s0 = queued_total s /\ next_id s0 = next_id s /\ clock s0 = clock s).
  { assert (HL : forall ks, queued_total (foldr _forget s ks) = queued_total s
      /\ next_id (foldr _forget s ks) = next_id s /\ clock (foldr _forget s ks) = clock s)
      by (induction ks; [done|assumption]). apply HL. }
  destruct H0 as (Hq & Hn & Hck).
  pose proof (core_check_rate c re s0) as Hcore. pose proof (check_rate_clock c re s0) as Hck'.
  destruct (_check_rate c re s0) as [s3 [ws|e]]; cbn [fst snd] in *;
    destruct (core_fields _ _ Hcore) as (HT & _ & HN & _ & HQ & _ & _ & _).
  - rewrite HQ, Hq. destruct (_ <=? _); cbn [fst snd].
    + cbn. rewrite HT, HQ. done.
    + destruct (enqueue_fields c (_dedup_key c re) (agent_kind c re) ws s3) as (E1 & E2 & E3 & E4 & _ & E6 & E7).
      destruct (enqueue _ _ _ _ _) as [s4 g]. cbn [fst snd] in *. subst g. rewrite Hck', Hck in *.
      rewrite HN, Hn in *. rewrite HT in *. rewrite E4, HQ, Hq. split_and!; try done. by eexists.
  - rewrite HT, HQ. done.
Qed.
Lemma sample_rate_limited : snd (_check_rate sample_cfg (sample_event "e3" "x")
  (_sweep_expired sample_cfg sample_running)) = Err AdmissionRateLimitedError.
Proof. vm_compute. reflexivity. Qed.
Lemma sample_e3_new : find_record (_dedup_key sample_cfg (sample_event "e3" "x")) sample_running = None.
Proof. vm_compute. reflexivity. Qed.
Lemma admit_new_witness :
  snd (admit_ sample_cfg (sample_event "e3" "x") sample_running) = Err AdmissionRateLimitedError.
Proof.
  pose proof (admit_new sample_cfg (sample_event "e3" "x") sample_running sample_closed sample_e3_new) as H.
  cbv zeta in H. rewrite sample_rate_limited in H. exact (proj1 H).
Defined.

(** ** Retention *)

Lemma existing_keeps c k' s k g : retained c s k -> tickets s !! k = Some g ->
  tickets (fst (_existing_ticket c k' s)) !! k = Some g.
Proof.
  intros Hr Ht. unfold _existing_ticket. destruct (find_record k' s); [|done].
  destruct (decide _) as [Hk|]; [|done]. destruct (completed_at s !! k') as [t|] eqn:Hc; [|done].
  destruct (Z.leb_spec (c_idempotency_window c) (clock s - t)); [|done]. cbn.
  rewrite lookup_delete_ne; [done|]. intros ->. destruct Hr as [?|(t' & Ht' & ?)]; [done|].
  rewrite Hc in Ht'. injection Ht' as <-. lia.
Qed.
Lemma sweep_keeps c s k g : retained c s k -> tickets s !! k = Some g -> tickets (_sweep_expired c s) !! k = Some g.
Proof.
  intros Hr%retained_not_expired Ht. by rewrite sweep_tickets, forget_all_tickets, decide_False.
Qed.
Lemma enqueue_keeps c k' kind ws s k g : tickets s !! k' = None -> tickets s !! k = Some g ->
  tickets (fst (enqueue c k' kind ws s)) !! k = Some g.
Proof.
  intros Hn Ht. destruct (enqueue_fields c k' kind ws s) as (_ & -> & _).
  rewrite lookup_insert_ne; [done|congruence].
Qed.
Lemma rest_tickets s s' : rest s' = rest s -> tickets s' = tickets s.
Proof. unfold rest. congruence. Qed.

(** Retention: no step, by any task or caller, forgets or replaces a ticket that is outstanding or
    was released less than the idempotency window ago. *)
Theorem retention c s s' k g : step c s s' -> retained c s k -> tickets s !! k = Some g -> tickets s' !! k = Some g.
Proof.
  intros Hstep Hr Ht. destruct Hstep; try done.
  - unfold admit_. destruct (closed s); [done|]. apply (sweep_keeps c) in Ht; [|done]. apply sweep_retained in Hr.
    apply (existing_keeps c (_dedup_key c re)) in Ht; [|done]. set (s1 := _sweep_expired c s) in *.
    destruct (_existing_ticket _ _ _) as [s2 [r|]] eqn:He; cbn [fst] in *; [by destruct r|].
    apply existing_None in He as [Hn _].
    destruct (core_fields _ _ (core_check_rate c re s2)) as (HT & _). rewrite <- HT in Ht, Hn.
    destruct (_check_rate c re s2) as [s3 [ws|e]]; cbn [fst] in *; [|done].
    destruct (_ <=? _); [done|]. pose proof (enqueue_keeps c _ (agent_kind c re) ws s3 k g Hn Ht) as H.
    destruct (enqueue _ _ _ _ _). exact H.
  - unfold admit_script. destruct (closed s); [done|]. apply (sweep_keeps c) in Ht; [|done]. apply sweep_retained in Hr.
    set (k' := invocation_digest _ _ _). apply (existing_keeps c k') in Ht; [|done].
    destruct (_existing_ticket _ _ _) as [s2 [r|]] eqn:He; cbn [fst] in *.
    { destruct r; [cbn [note_recovered]; destruct (from_option _ _ _)|]; done. }
    apply existing_None in He as [Hn _]. destruct (_ <=? _); [done|].
    pose proof (enqueue_keeps c _ (Script ev) [] s2 k g Hn Ht) as H. destruct (enqueue _ _ _ _ _). exact H.
  - unfold recover. destruct (closed s); [done|]. apply (sweep_keeps c) in Ht; [|done].
    destruct (tickets _ !! k0); [done|]. destruct (recovered _ !! k0) as [r'|]; [|done]. by destruct (same_run r' r).
  - by rewrite (rest_tickets _ _ (rest_monitor k0 s)).
  - by rewrite (rest_tickets _ _ (rest_lane_start c lk s)).
  - by rewrite (rest_tickets _ _ (rest_lane_poll c lk s)).
  - destruct (rest_lane_deliver c lk s) as [ds H]. by rewrite (rest_tickets _ _ H).
  - by rewrite (rest_tickets _ _ (rest_lane_done c lk out s)).
  - by rewrite (rest_tickets _ _ (rest_lane_cancel c lk s)).
  - assert (HR : forall f s, tickets (end_recovered f k0 s) = tickets s).
    { intros f s0. unfold end_recovered, _release_capacity_once. by destruct (decide _). }
    unfold observe_done. destruct (decide _); [|done].
    destruct obs; [destruct (decide _); [done|]| |done]; cbn; by rewrite HR.
  - by rewrite close_tickets.
Qed.
Lemma sample_ticket : tickets sample_running !! _dedup_key sample_cfg (sample_event "e1" "x") = Some 0%nat.
Proof. vm_compute. reflexivity. Qed.
Lemma retention_witness : tickets sample_done !! _dedup_key sample_cfg (sample_event "e1" "x") = Some 0%nat.
Proof.
  exact (retention sample_cfg sample_running sample_done _ _ (step_done _ _ _ RunOk) sample_retained sample_ticket).
Defined.
