(* ===== verification/AdmissionRates.v ===== *)
(** * harness/admission.py: the rolling rate windows

    Each rate limit keeps the admit times of the last hour in a deque.  The deques are sorted and
    never in the future, so popping from the left keeps exactly the last hour; nothing younger than
    an hour is ever dropped, and a new ticket finds every one of its windows below its cap. *)

From S2P Require Import Prelude Sha256 PyJson Refs Config ConfigFacts Channels Admission AdmissionInv AdmissionKeys AdmissionSteps AdmissionSem AdmissionProps AdmissionDedup.
From stdpp Require Import fin_maps fin_sets gmap.
From Stdlib Require Import Sorted.
Local Open Scope Z_scope.

(** ** Deques *)

(** The admits younger than the window. *)
Definition recent (now : Z) (l : list Z) : list Z := List.filter (fun t => now - t <? _RATE_WINDOW) l.
Definition deque_ok (now : Z) (l : list Z) : Prop := StronglySorted Z.le l /\ forall t, In t l -> t <= now.
Definition rates_ok (s : st) : Prop := forall k l, rate_admits s !! k = Some l -> deque_ok (clock s) l.

Lemma rate_pop_recent now l : StronglySorted Z.le l -> rate_pop now l = recent now l.
Proof.
  induction 1 as [|t l Hs IH Hf]; [done|]. cbn. destruct (Z.leb_spec _RATE_WINDOW (now - t)).
  - rewrite IH. destruct (Z.ltb_spec (now - t) _RATE_WINDOW); [lia|done].
  - destruct (Z.ltb_spec (now - t) _RATE_WINDOW) as [_|]; [|lia]. f_equal. symmetry. unfold recent.
    assert (Hall : forall t', In t' l -> now - t' < _RATE_WINDOW).
    { rewrite List.Forall_forall in Hf. intros t' H'. apply Hf in H'. lia. }
    clear IH Hs Hf. induction l as [|t' l IH]; [done|]. cbn.
    destruct (Z.ltb_spec (now - t') _RATE_WINDOW) as [_|H']; [|specialize (Hall t' (or_introl eq_refl)); lia].
    f_equal. apply IH. intros x Hx. apply Hall. by right.
Qed.
Lemma rate_pop_suffix now l : exists pre, l = pre ++ rate_pop now l.
Proof.
  induction l as [|t l [pre IH]]; [by exists []|]. cbn. destruct (_ <=? _); [|by exists []].
  exists (t :: pre). cbn. by rewrite <- IH.
Qed.
Lemma rate_pop_idem now l : rate_pop now (rate_pop now l) = rate_pop now l.
Proof. induction l as [|t l IH]; [done|]. cbn. destruct (_ <=? _) eqn:E; [done|]. cbn. by rewrite E. Qed.
Lemma StronglySorted_suffix (l1 l2 : list Z) : StronglySorted Z.le (l1 ++ l2) -> StronglySorted Z.le l2.
Proof. induction l1 as [|x l1 IH]; [done|]. cbn. intros H. apply IH. by apply StronglySorted_inv in H as [H _]. Qed.
Lemma deque_ok_pop now l : deque_ok now l -> deque_ok now (rate_pop now l).
Proof.
  intros [Hs Hb]. destruct (rate_pop_suffix now l) as [pre E]. rewrite E in Hs, Hb. split.
  - by eapply StronglySorted_suffix.
  - intros t Ht. apply Hb, in_or_app. by right.
Qed.
Lemma deque_ok_app now l : deque_ok now l -> deque_ok now (l ++ [now]).
Proof.
  intros [Hs Hb]. split.
  - induction Hs as [|t l Hs IH Hf]; cbn; [by repeat constructor|]. constructor.
    + apply IH. intros t' Ht'. apply Hb. by right.
    + apply Forall_app. split; [done|]. repeat constructor. apply Hb. by left.
  - intros t [H|[<-|[]]]%in_app_or; [by apply Hb|lia].
Qed.
Lemma deque_ok_later now d l : 0 <= d -> deque_ok now l -> deque_ok (now + d) l.
Proof. intros Hd [Hs Hb]. split; [done|]. intros t Ht%Hb. lia. Qed.
Lemma rates_ok_deque s k : rates_ok s -> deque_ok (clock s) (rate_deque k s).
Proof.
  intros H. unfold rate_deque. destruct (rate_admits s !! k) eqn:E; cbn; [by eapply H|].
  split; [constructor|done].
Qed.

(** The fields the windows depend on. *)
Definition rates (s : st) := (clock s, rate_admits s).
Lemma rates_ok_eq s s' : rates s' = rates s -> rates_ok s -> rates_ok s'.
Proof. unfold rates. intros [= H1 H2] H k l. rewrite H1, H2. apply H. Qed.
Lemma rates_ok_insert s k l : rates_ok s -> deque_ok (clock s) l ->
  rates_ok (set_rate_admits (<[k := l]> (rate_admits s)) s).
Proof. intros H Hl k' l'; cbn; intros [[<- <-]|[_ H']]%lookup_insert_Some; [done|]. by eapply H. Qed.
Lemma deque_insert k l s : rate_deque k (set_rate_admits (<[k := l]> (rate_admits s)) s) = l.
Proof. unfold rate_deque; cbn. by rewrite lookup_insert_eq. Qed.
Lemma deque_insert_ne k k' l s : k <> k' -> rate_deque k' (set_rate_admits (<[k := l]> (rate_admits s)) s) = rate_deque k' s.
Proof. intros H. unfold rate_deque; cbn. by rewrite lookup_insert_ne. Qed.
Lemma rest_rates s s' : rest s' = rest s -> rates s' = rates s.
Proof. unfold rest, rates. congruence. Qed.

(** ** The admission path remembers the last hour *)

Record remembers (s s' : st) : Prop := mkremembers {
  rem_ok : rates_ok s';
  rem_clock : clock s' = clock s;
  rem_recent : forall k t, In t (rate_deque k s) -> clock s - t < _RATE_WINDOW -> In t (rate_deque k s')
}.
Lemma remembers_trans s1 s2 s3 : remembers s1 s2 -> remembers s2 s3 -> remembers s1 s3.
Proof. intros [A1 A2 A3] [B1 B2 B3]. split; [done|congruence|]. intros k t H Ht. apply B3; [auto|by rewrite A2]. Qed.
Lemma remembers_eq s s' : rates s' = rates s -> rates_ok s -> remembers s s'.
Proof.
  intros He H. pose proof (rates_ok_eq _ _ He H) as H'. unfold rates in He. injection He as H1 H2.
  split; [done|done|]. intros k t. unfold rate_deque. by rewrite H2.
Qed.

Lemma rates_forget_all ks s : rates (foldr _forget s ks) = rates s.
Proof. by induction ks. Qed.
Lemma sorted_snoc_le l0 t : StronglySorted Z.le (l0 ++ [t]) -> forall t', In t' l0 -> t' <= t.
Proof.
  induction l0 as [|x l0 IH]; [done|]. cbn. intros [Hs Hf]%StronglySorted_inv t' [<-|Hin]; [|by apply IH].
  rewrite List.Forall_forall in Hf. apply Hf, in_or_app. right. by left.
Qed.
Lemma last_bound l t now : StronglySorted Z.le l -> last l = Some t -> _RATE_WINDOW <= now - t ->
  forall t', In t' l -> _RATE_WINDOW <= now - t'.
Proof.
  intros Hs Hl Ht t' Hin. apply last_Some in Hl as [l0 ->].
  apply in_app_or in Hin as [Hin|[<-|[]]]; [|done]. pose proof (sorted_snoc_le _ _ Hs _ Hin). lia.
Qed.
Lemma remembers_sweep c s : rates_ok s -> remembers s (_sweep_expired c s).
Proof.
  intros H. eapply remembers_trans; [by apply (remembers_eq _ (forget_expired c s)); [apply rates_forget_all|]|].
  assert (H1 : rates_ok (forget_expired c s)) by (eapply rates_ok_eq; [apply rates_forget_all|done]).
  set (s1 := forget_expired c s) in *. split; [|done|].
  - intros k l [Hl _]%map_lookup_filter_Some. by eapply H1.
  - intros k t. change (rate_deque k (_sweep_expired c s)) with
      (from_option id [] (filter (fun kv => rate_stale (clock s1) kv.2 = false) (rate_admits s1) !! k)).
    unfold rate_deque. destruct (rate_admits s1 !! k) as [l|] eqn:E; [|done]. cbn. intros Hin Ht.
    rewrite (proj2 (map_lookup_filter_Some _ _ _ l)); [done|]. split; [done|]. cbn.
    unfold rate_stale. destruct (last l) as [t0|] eqn:El; [|by apply last_None in El; subst].
    apply Z.leb_gt. destruct (Z.lt_ge_cases (clock s1 - t0) _RATE_WINDOW) as [|Hge]; [done|].
    pose proof (last_bound l t0 (clock s1) (proj1 (H1 _ _ E)) El Hge _ Hin). lia.
Qed.
Lemma remembers_existing c k s : rates_ok s -> remembers s (fst (_existing_ticket c k s)).
Proof.
  intros H. apply remembers_eq; [|done]. unfold _existing_ticket. destruct (find_record k s); [|done].
  destruct (decide _); [|done]. destruct (completed_at s !! k); [|done]. by destruct (_ <=? _).
Qed.
Lemma remembers_pop k s : rates_ok s ->
  remembers s (set_rate_admits (<[k := rate_pop (clock s) (rate_deque k s)]> (rate_admits s)) s).
Proof.
  intros H. pose proof (rates_ok_deque _ k H) as Hd. split; [by apply rates_ok_insert, deque_ok_pop|done|].
  intros k' t Hin Ht. destruct (decide (k = k')) as [<-|].
  - rewrite deque_insert. rewrite rate_pop_recent by apply Hd. apply filter_In. split; [done|]. lia.
  - by rewrite deque_insert_ne.
Qed.
Lemma remembers_append s k : rates_ok s -> remembers s (append_admit s k).
Proof.
  intros H. pose proof (rates_ok_deque _ k H) as Hd. split; [by apply rates_ok_insert, deque_ok_app|done|].
  intros k' t Hin _. unfold append_admit. destruct (decide (k = k')) as [<-|].
  - rewrite deque_insert. apply in_or_app. by left.
  - by rewrite deque_insert_ne.
Qed.
Lemma remembers_appends ws s : rates_ok s -> remembers s (foldl append_admit s ws).
Proof.
  revert s. induction ws as [|k ws IH]; intros s H; [by apply remembers_eq|]. cbn.
  eapply remembers_trans; [by apply (remembers_append s k)|]. apply IH. by apply remembers_append.
Qed.
Lemma rates_enqueue c k kind ws s : rates (fst (enqueue c k kind ws s)) = rates (foldl append_admit s ws).
Proof.
  unfold enqueue. cbn [fst]. assert (H : forall s1 s2, rates s1 = rates s2 ->
    rates (foldl append_admit s1 ws) = rates (foldl append_admit s2 ws)).
  { induction ws as [|w ws IH]; intros s1 s2 E; [done|]. cbn. apply IH.
    unfold rates in *. injection E as E1 E2. unfold append_admit, rate_deque; cbn. by rewrite E1, E2. }
  set (x := set_queued_total _ _). rewrite <- (H x s) by done. done.
Qed.

(** The checks pass on popped deques below their caps, and pop nothing younger than an hour. *)
Lemma check_windows_spec checks s : rates_ok s ->
  remembers s (fst (check_windows checks s))
  /\ forall ks, snd (check_windows checks s) = Ok ks ->
       ks = map fst checks
       /\ forall k cap, In (k, cap) checks -> Z.of_nat (length (recent (clock s) (rate_deque k s))) < cap.
Proof.
  revert s. induction checks as [|[k cap] checks IH]; intros s H.
  { split; [by apply remembers_eq|]. intros ks [= <-]. split; [done|]. by intros k cap []. }
  cbn. set (s1 := set_rate_admits _ s). pose proof (remembers_pop k s H) as H1. fold s1 in H1.
  pose proof (rates_ok_deque _ k H) as [Hk _].
  destruct (Z.leb_spec cap (Z.of_nat (length (rate_pop (clock s) (rate_deque k s))))) as [|Hlt]; cbn [fst snd].
  { split; [eapply remembers_trans; [exact H1|]; by apply remembers_eq; [|apply H1]|done]. }
  destruct (IH s1 (rem_ok _ _ H1)) as [H2 H3]. destruct (check_windows checks s1) as [s2 r]. cbn [fst snd] in *.
  split; [by eapply remembers_trans|]. intros ks (ks' & Hr & [= <-])%bind_ok.
  destruct (H3 _ Hr) as [-> Hcaps]. split; [done|]. intros k' cap' [[= <- <-]|Hin].
  - by rewrite <- rate_pop_recent.
  - specialize (Hcaps _ _ Hin). change (clock s1) with (clock s) in Hcaps.
    enough (E : recent (clock s) (rate_deque k' s1) = recent (clock s) (rate_deque k' s)) by congruence.
    unfold s1. destruct (decide (k = k')) as [<-|]; [|by rewrite deque_insert_ne].
    rewrite deque_insert. rewrite <- (rate_pop_recent (clock s) (rate_pop _ _))
      by exact (proj1 (deque_ok_pop _ _ (rates_ok_deque _ _ H))).
    by rewrite rate_pop_idem, rate_pop_recent.
Qed.
Lemma check_rate_spec c re s : rates_ok s ->
  remembers s (fst (_check_rate c re s))
  /\ forall ks, snd (_check_rate c re s) = Ok ks ->
       match c_rate_limits c !! re_channel re with
       | None => ks = []
       | Some l => exists checks, rate_checks l (re_channel re) (re_rate_keys re) = Ok checks /\ ks = map fst checks
           /\ forall k cap, In (k, cap) checks -> Z.of_nat (length (recent (clock s) (rate_deque k s))) < cap
       end.
Proof.
  intros H. unfold _check_rate. destruct (c_rate_limits c !! _) as [l|].
  - destruct (rate_checks l _ _) as [checks|e]; [|split; [by apply remembers_eq|done]].
    destruct (check_windows_spec checks s H) as [H1 H2]. split; [done|]. intros ks Hks.
    destruct (H2 _ Hks) as [-> Hc]. by exists checks.
  - split; [by apply remembers_eq|]. by intros ks [= <-].
Qed.

(** ** Every step *)

Lemma remembers_admit c re s : rates_ok s -> remembers s (fst (admit_ c re s)).
Proof.
  intros H. unfold admit_. destruct (closed s); [by apply remembers_eq|].
  pose proof (remembers_sweep c s H) as H1. set (s1 := _sweep_expired c s) in *.
  pose proof (remembers_trans _ _ _ H1 (remembers_existing c (_dedup_key c re) s1 (rem_ok _ _ H1))) as H2.
  destruct (_existing_ticket _ _ _) as [s2 [r|]]; cbn [fst] in *.
  { eapply remembers_trans; [exact H2|]. apply remembers_eq; [by destruct r|apply H2]. }
  pose proof (remembers_trans _ _ _ H2 (proj1 (check_rate_spec c re s2 (rem_ok _ _ H2)))) as H3.
  destruct (_check_rate c re s2) as [s3 [ws|e]]; cbn [fst] in *; [|done]. destruct (_ <=? _).
  { eapply remembers_trans; [exact H3|]. apply remembers_eq; [done|apply H3]. }
  pose proof (remembers_trans _ _ _ H3 (remembers_appends ws s3 (rem_ok _ _ H3))) as H4.
  pose proof (remembers_trans _ _ _ H4 (remembers_eq _ _ (rates_enqueue c (_dedup_key c re) (agent_kind c re) ws s3) (rem_ok _ _ H4))) as H5.
  destruct (enqueue _ _ _ _ _). exact H5.
Qed.
Lemma remembers_admit_script c ev s : rates_ok s -> remembers s (fst (admit_script c ev s)).
Proof.
  intros H. unfold admit_script. destruct (closed s); [by apply remembers_eq|].
  pose proof (remembers_sweep c s H) as H1. set (s1 := _sweep_expired c s) in *. set (k := invocation_digest _ _ _).
  pose proof (remembers_trans _ _ _ H1 (remembers_existing c k s1 (rem_ok _ _ H1))) as H2.
  destruct (_existing_ticket _ _ _) as [s2 [r|]]; cbn [fst] in *.
  { eapply remembers_trans; [exact H2|]. apply remembers_eq; [|apply H2].
    destruct r; [cbn; destruct (from_option _ _ _)|]; done. }
  destruct (_ <=? _).
  { eapply remembers_trans; [exact H2|]. apply remembers_eq; [done|apply H2]. }
  pose proof (remembers_trans _ _ _ H2 (remembers_eq _ _ (rates_enqueue c k (Script ev) [] s2) (rem_ok _ _ H2))) as H5.
  destruct (enqueue _ _ _ _ _). exact H5.
Qed.
Lemma remembers_recover c k r s : rates_ok s -> remembers s (fst (recover c k r s)).
Proof.
  intros H. unfold recover. destruct (closed s); [by apply remembers_eq|].
  pose proof (remembers_sweep c s H) as H1. set (s1 := _sweep_expired c s) in *.
  destruct (tickets s1 !! k); [done|]. destruct (recovered s1 !! k) as [r'|]; [destruct (same_run r' r); [|done]|];
    (eapply remembers_trans; [exact H1|]; apply remembers_eq; [done|apply H1]).
Qed.
Lemma rates_observe k obs s : rates (observe_done k obs s) = rates s.
Proof.
  assert (HR : forall f s, rates (end_recovered f k s) = rates s).
  { intros f s0. unfold end_recovered, _release_capacity_once. by destruct (decide _). }
  unfold observe_done. destruct (decide _); [|done].
  destruct obs; [destruct (decide _); [done|]| |done]; exact (HR _ s).
Qed.
Lemma rates_close c s : rates (close c s) = rates s.
Proof.
  assert (HR : forall ks s, rates (foldr close_recovered s ks) = rates s).
  { induction ks as [|k ks IH]; intros s0; [done|]. cbn. rewrite <- (IH s0). unfold close_recovered.
    destruct (decide _); [done|]. unfold end_recovered, _release_capacity_once. by destruct (decide _). }
  assert (HT : forall kgs s, rates (foldr close_ticket s kgs) = rates s).
  { induction kgs as [|[k g] kgs IH]; intros s0; [done|]. cbn. rewrite <- (IH s0). unfold close_ticket at 1. cbn.
    by rewrite (rest_rates _ _ (rest_retire k g _)). }
  assert (HL : forall lks s, rates (foldr (lane_cancel c) s lks) = rates s).
  { induction lks as [|lk lks IH]; intros s0; [done|]. cbn. rewrite <- (IH s0). apply rest_rates, rest_lane_cancel. }
  unfold close. cbv zeta. rewrite HR, HT.
  exact (eq_trans (HL _ (set_recovery_tasks ∅ _)) (HR _ (set_closed true s))).
Qed.
(** Every step but the clock's keeps the last hour of every window; the clock only moves forward. *)
Lemma step_remembers c s s' : step c s s' -> rates_ok s ->
  remembers s s' \/ exists d, 0 <= d /\ s' = set_clock (clock s + d) s.
Proof.
  intros Hstep H. destruct Hstep; [right; by exists d|left..].
  - by apply remembers_admit.
  - by apply remembers_admit_script.
  - by apply remembers_recover.
  - apply remembers_eq; [apply rest_rates, rest_monitor|done].
  - apply remembers_eq; [apply rest_rates, rest_lane_start|done].
  - apply remembers_eq; [apply rest_rates, rest_lane_poll|done].
  - destruct (rest_lane_deliver c lk s) as [ds E]. apply remembers_eq; [|done]. by rewrite (rest_rates _ _ E).
  - by apply remembers_eq.
  - apply remembers_eq; [apply rest_rates, rest_lane_done|done].
  - apply remembers_eq; [apply rest_rates, rest_lane_cancel|done].
  - by apply remembers_eq.
  - apply remembers_eq; [apply rates_observe|done].
  - apply remembers_eq; [apply rates_close|done].
Qed.
Lemma rates_ok_step c s s' : step c s s' -> rates_ok s -> rates_ok s'.
Proof.
  intros Hs H. destruct (step_remembers _ _ _ Hs H) as [[]|(d & Hd & ->)]; [done|].
  intros k l Hl. apply deque_ok_later; [done|]. by eapply H.
Qed.
Lemma rates_ok_reachable c s : reachable c s -> rates_ok s.
Proof.
  intros [now H]. assert (G0 : rates_ok (init c now)) by (intros k l; cbn; by rewrite lookup_empty).
  revert G0. induction H as [|x y z Hxy _ IH]; [done|]. intros G. by eapply IH, rates_ok_step.
Qed.

Lemma recent_none now l : (forall t, In t l -> _RATE_WINDOW <= now - t) -> recent now l = [].
Proof.
  intros H. induction l as [|t l IH]; [done|]. cbn. pose proof (H t (or_introl eq_refl)).
  destruct (Z.ltb_spec (now - t) _RATE_WINDOW); [lia|]. apply IH. intros t' Ht'. apply H. by right.
Qed.
Lemma recent_sweep c s k : rates_ok s ->
  recent (clock s) (rate_deque k (_sweep_expired c s)) = recent (clock s) (rate_deque k s).
Proof.
  intros H. pose proof (rates_forget_all (expired_keys c s) s) as [= HC HA].
  unfold rate_deque, _sweep_expired. cbn. unfold forget_expired. rewrite HA, HC.
  destruct (rate_admits s !! k) as [l|] eqn:E.
  - destruct (decide (rate_stale (clock s) l = false)) as [Hs|Hs].
    + by rewrite (proj2 (map_lookup_filter_Some _ _ _ l)).
    + rewrite (proj2 (map_lookup_filter_None _ _ _)) by (right; intros l' Hl'; cbn; congruence). cbn.
      symmetry. apply recent_none. unfold rate_stale in Hs. destruct (last l) as [t|] eqn:El.
      * apply (last_bound l t); [by apply (H _ _ E)|done|]. apply not_false_iff_true, Z.leb_le in Hs. lia.
      * by apply last_None in El as ->.
  - rewrite (proj2 (map_lookup_filter_None _ _ _)) by by left. done.
Qed.
Lemma existing_None_same c k s s' : _existing_ticket c k s = (s', None) ->
  next_id s' = next_id s /\ rates s' = rates s.
Proof.
  unfold _existing_ticket. destruct (find_record k s); [|by intros [= <-]].
  destruct (decide _); [|done]. destruct (completed_at s !! k); [|done]. destruct (_ <=? _); [|done]. by intros [= <-].
Qed.
Lemma appends_record ws s k : In k ws -> In (clock s) (rate_deque k (foldl append_admit s ws)).
Proof.
  revert s. induction ws as [|w ws IH]; [done|]. intros s Hin. cbn.
  assert (Hkeep : forall ws s1 t, In t (rate_deque k s1) -> In t (rate_deque k (foldl append_admit s1 ws))).
  { clear. induction ws as [|w ws IH]; intros s1 t Ht; [done|]. cbn. apply IH. unfold append_admit.
    destruct (decide (w = k)) as [->|]; [rewrite deque_insert; apply in_or_app; by left|by rewrite deque_insert_ne]. }
  destruct (decide (w = k)) as [->|Hne].
  - apply Hkeep. unfold append_admit. rewrite deque_insert. apply in_or_app. right. by left.
  - apply (IH (append_admit s w)). by destruct Hin.
Qed.
Lemma next_existing_Some c k s s' r : _existing_ticket c k s = (s', Some r) -> next_id s' = next_id s.
Proof.
  unfold _existing_ticket. destruct (find_record k s); [|done].
  destruct (decide _); [|by intros [= <- _]]. destruct (completed_at s !! k); [|by intros [= <- _]].
  destruct (_ <=? _); [done|by intros [= <- _]].
Qed.
Lemma sweep_next c s : next_id (_sweep_expired c s) = next_id s.
Proof. change (next_id (foldr _forget s (expired_keys c s)) = next_id s). by induction (expired_keys c s). Qed.

(** C7. Rate limits hold over a rolling hour: a delivery that becomes a new ticket found, for each of
    its channel's limits, fewer admits in the last hour than the cap, and is itself recorded in each
    of those windows; and no step drops an admit younger than an hour. *)
Theorem rate_limit_rolling c re s : reachable c s ->
  (forall l, c_rate_limits c !! re_channel re = Some l -> next_id (fst (admit_ c re s)) = S (next_id s) ->
     exists checks, rate_checks l (re_channel re) (re_rate_keys re) = Ok checks
       /\ forall k cap, In (k, cap) checks ->
            Z.of_nat (length (recent (clock s) (rate_deque k s))) < cap
            /\ In (clock s) (rate_deque k (fst (admit_ c re s))))
  /\ (forall s' k t, step c s s' -> In t (rate_deque k s) -> clock s' - t < _RATE_WINDOW -> In t (rate_deque k s')).
Proof.
  intros HR. pose proof (rates_ok_reachable _ _ HR) as H. split.
  - intros l Hl. unfold admit_. destruct (closed s); [cbn; lia|].
    pose proof (remembers_sweep c s H) as H1. rewrite <- (sweep_next c s).
    destruct (_existing_ticket _ _ (_sweep_expired c s)) as [s2 [r|]] eqn:He; cbn [fst snd].
    { apply next_existing_Some in He. assert (next_id (note_recovered r s2) = next_id s2) by by destruct r. lia. }
    destruct (existing_None_same _ _ _ _ He) as [Hn2 Hr2]. clear He.
    pose proof (remembers_trans _ _ _ H1 (remembers_eq _ _ Hr2 (rem_ok _ _ H1))) as H2.
    destruct (check_rate_spec c re s2 (rem_ok _ _ H2)) as [H3 Hspec]. rewrite Hl in Hspec.
    pose proof (remembers_trans _ _ _ H2 H3) as H23.
    destruct (core_fields _ _ (core_check_rate c re s2)) as (_ & _ & HN & _).
    destruct (_check_rate c re s2) as [s3 [ws|e]]; cbn [fst snd] in *; [|lia].
    destruct (_ <=? _); [intros Hx; change (next_id s3 = S (next_id (_sweep_expired c s))) in Hx; lia|]. intros _. destruct (Hspec _ eq_refl) as (checks & Hchecks & -> & Hcap).
    exists checks. split; [done|]. intros k cap Hin. split.
    + rewrite <- (recent_sweep c s k H). specialize (Hcap _ _ Hin). rewrite (rem_clock _ _ H2) in Hcap.
      pose proof (f_equal snd Hr2 : rate_admits s2 = rate_admits (_sweep_expired c s)) as HA. unfold rate_deque in *. by rewrite <- HA.
    + pose proof (f_equal snd (rates_enqueue c (_dedup_key c re) (agent_kind c re) (map fst checks) s3)) as HA.
      destruct (enqueue _ _ _ _ _) as [s4 g]. cbn [fst snd rates] in *. unfold rate_deque at 1.
      change (rate_admits s4 = rate_admits (foldl append_admit s3 (map fst checks))) in HA. rewrite HA.
      rewrite <- (rem_clock _ _ H23). apply (appends_record (map fst checks) s3 k). apply in_map_iff. by exists (k, cap).
  - intros s' k t Hs Hin Ht. destruct (step_remembers _ _ _ Hs H) as [[_ Hc Hrec]|(d & Hd & ->)]; [|done].
    apply Hrec; [done|]. by rewrite <- Hc.
Qed.
Lemma rate_limit_rolling_witness :
  In (clock sample_running) (rate_deque ["hook"] sample_running)
  /\ In (clock sample_running) (rate_deque ["hook"] sample_done).
Proof.
  assert (H0 : In (clock sample_running) (rate_deque ["hook"] sample_running)) by (vm_compute; by left).
  split; [exact H0|].
  refine (proj2 (rate_limit_rolling sample_cfg (sample_event "e1" "x") sample_running sample_running_reachable)
    sample_done ["hook"] (clock sample_running) (step_done _ _ _ RunOk) H0 _).
  vm_compute. reflexivity.
Defined.
