(* ===== verification/AdmissionLive.v ===== *)
(** * harness/admission.py: deadlines, completion and progress

    A queued ticket past its deadline is failed by its monitor and stays accounted; a run that
    ends settles its ticket and moves its lane on; the outstanding tickets stay within the queue
    bound; and a waiting ticket is delivered when the pools are free. *)

From S2P Require Import Prelude Sha256 PyJson Refs Config ConfigFacts Channels Admission AdmissionInv AdmissionKeys AdmissionSteps AdmissionSem AdmissionProps AdmissionDedup.
From stdpp Require Import fin_maps fin_sets gmap.
Local Open Scope Z_scope.

(** The deadline monitor: a ticket still queued at its deadline is failed by its monitor's next
    poll, however stuck its lane is; its entry stays in the lane and keeps its capacity until the
    lane dequeues it, so no second generation of the key can slip in between. *)
Theorem monitor_expires_queued c s lk l k g o : reachable c s -> lanes s !! lk = Some l -> (k, g) ∈ l_queue l ->
  objs s !! g = Some o -> t_deadline_at o <= clock s ->
  let s' := monitor_poll k s in
  (exists o', objs s' !! g = Some o' /\ futures_done o') /\ in_lane s' lk l k g /\ (k ∉ released s')
  /\ queued_total s' = queued_total s /\ tickets s' !! k = Some g.
Proof.
  intros [I _]%Good_reachable Hl Hq Ho Hd. cbv zeta.
  pose proof (queue_in_lane _ _ _ _ _ Hl Hq) as Hin. destruct (inv_entry _ _ _ I _ _ _ _ Hin) as (Ht & Hr & _).
  unfold monitor_poll. destruct (monitors s !! k) as [g'|] eqn:Hm.
  - pose proof (inv_mon _ _ _ I _ _ Hm) as Ht'. rewrite Ht in Ht'. injection Ht' as <-. rewrite Ho.
    destruct (Z.leb_spec (t_deadline_at o) (clock s)) as [_|]; [|lia]. split_and!; try done.
    eexists. split; [by apply upd_obj_Some|]. rewrite decide_True by done. auto with admission.
  - destruct (inv_watch _ _ _ I _ _ _ _ Hl Hq) as [?|He]; [congruence|].
    destruct (inv_exp _ _ _ I _ He) as (g' & o' & Ht' & Ho' & Hdone). rewrite Ht in Ht'. injection Ht' as <-.
    split_and!; try done. eauto.
Qed.
(** The sample's second ticket, still queued an hour later. *)
Definition sample_late : st := set_clock (clock sample_running + seconds 3600) sample_running.
Lemma sample_late_reachable : reachable sample_cfg sample_late.
Proof. eapply reachable_step; [apply sample_running_reachable|]. apply step_tick. done. Qed.
Definition sample_obj2 : tobj := from_option id sample_obj (objs sample_late !! 1%nat).
Lemma monitor_expires_queued_witness : sample_key "e2" ∉ released (monitor_poll (sample_key "e2") sample_late).
Proof.
  refine (proj1 (proj2 (proj2 (monitor_expires_queued sample_cfg sample_late sample_lane sample_lane_state
    (sample_key "e2") 1 sample_obj2 sample_late_reachable _ _ _ _)))).
  - vm_compute. reflexivity.
  - apply list_elem_of_here.
  - vm_compute. reflexivity.
  - vm_compute. discriminate.
Defined.

(** ** A run ends *)

Lemma release_queued k s : k ∉ released s ->
  queued_total (_release_capacity_once k s) = queued_total s - 1 /\ k ∈ released (_release_capacity_once k s).
Proof. intros H. rewrite release_spec by done. cbn. split; [done|set_solver]. Qed.
Lemma retire_released k g s : k ∉ released s -> queued_total (_retire k g s) = queued_total s - 1
  /\ k ∈ released (_retire k g s) /\ objs (_retire k g s) = objs s.
Proof.
  intros H. unfold _retire. assert (Hs : released (fst (_cancel_monitor k g s)) = released s
    /\ queued_total (fst (_cancel_monitor k g s)) = queued_total s /\ objs (fst (_cancel_monitor k g s)) = objs s)
    by (unfold _cancel_monitor; by destruct (decide _)).
  destruct Hs as (Hr & Hq & Ho). destruct (release_queued k (fst (_cancel_monitor k g s))) as [H1 H2]; [by rewrite Hr|].
  split_and!; [lia|done|]. rewrite <- Ho. unfold _release_capacity_once. by destruct (decide _).
Qed.
Lemma lane_next_frame lk s : released (lane_next lk s) = released s /\ queued_total (lane_next lk s) = queued_total s
  /\ objs (lane_next lk s) = objs s.
Proof. unfold lane_next. destruct (lanes s !! lk) as [l|]; [|done]. by destruct (l_queue l). Qed.

(** When the runner ends, with a result or an error, the ticket's [completed] holds that outcome
    (unless a caller already cancelled it), [started] is settled even if the runner never signalled
    it, the key is released and counted once, and the lane moves to its next entry or ends. *)
Theorem run_settles c s lk l r o out : reachable c s -> lanes s !! lk = Some l -> l_run l = Some r ->
  run_phase r = Delivering -> objs s !! run_id r = Some o ->
  let s' := lane_done c lk out s in
  run_key r ∈ released s' /\ queued_total s' = queued_total s - 1
  /\ lanes s' !! lk = match l_queue l with
                      | [] => None
                      | q => Some {| l_queue := q; l_begun := l_begun l; l_run := None |}
                      end
  /\ exists o', objs s' !! run_id r = Some o' /\ futures_done o'
       /\ t_completed o' = match out with
                           | RunOk => fut_set (t_completed o)
                           | RunErr e => fut_fail e (t_completed o)
                           end.
Proof.
  intros [I _]%Good_reachable Hl Hr Hp Ho. cbv zeta.
  destruct (inv_entry _ _ _ I _ _ _ _ (run_in_lane _ _ _ _ Hl Hr)) as (_ & Hrel & _).
  unfold lane_done. rewrite Hl. destruct l as [q b run]. cbn in Hr. subst run. destruct r as [k g ph]. cbn in Hp, Ho.
  subst ph. cbn [run_key run_id] in *. rewrite Ho. set (s1 := resolve o g out s).
  assert (H1 : released s1 = released s /\ queued_total s1 = queued_total s /\ lanes s1 = lanes s).
  { subst s1. destruct out; cbn [resolve]; [done|]. by destruct (is_script o). }
  assert (Ho1 : objs s1 !! g = Some (match out with
      | RunOk => obj_futs (fut_fail RuntimeError) fut_set o
      | RunErr e => obj_futs (fut_fail e) (fut_fail e) o end)).
  { subst s1. assert (Hu : forall f, objs (upd_obj f g s) !! g = Some (f o)).
    { intros f. rewrite (upd_obj_Some _ _ _ _ o Ho). by rewrite decide_True. }
    destruct out as [|e]; cbn [resolve]; [apply Hu|]. destruct (is_script o); apply Hu. }
  destruct H1 as (Hr1 & Hq1 & Hl1). set (s2 := permits c 1 o s1).
  assert (H2 : released s2 = released s /\ queued_total s2 = queued_total s /\ lanes s2 = lanes s /\ objs s2 = objs s1).
  { subst s2. rewrite <- Hr1, <- Hq1, <- Hl1. unfold permits. by destruct (own_pool c o), (t_workspace o). }
  destruct H2 as (Hr2 & Hq2 & Hl2 & Ho2). unfold finish.
  destruct (retire_released k g s2) as (E1 & E2 & E3); [by rewrite Hr2|].
  destruct (lane_next_frame lk (_retire k g s2)) as (F1 & F2 & F3). rewrite F1, F2, F3, E3, Ho2, Ho1.
  split_and!; [done|lia| |].
  - rewrite (lane_next_put lk {| l_queue := q; l_begun := b; l_run := Some {| run_key := k; run_id := g; run_phase := Delivering |} |})
      by by rewrite retire_lanes, Hl2.
    rewrite put_lookup, decide_True by done. unfold remaining; cbn. by destruct q.
  - eexists. split; [done|]. destruct out; split; auto with admission.
Qed.
Lemma sample_lane_at : lanes sample_running !! sample_lane = Some sample_lane_state.
Proof. vm_compute. reflexivity. Qed.
Lemma sample_obj_at : objs sample_running !! 0%nat = Some sample_obj.
Proof. vm_compute. reflexivity. Qed.
Definition sample_run : running := {| run_key := sample_key "e1"; run_id := 0; run_phase := Delivering |}.
Lemma run_settles_witness :
  queued_total (lane_done sample_cfg sample_lane RunOk sample_running) = queued_total sample_running - 1.
Proof.
  exact (proj1 (proj2 (run_settles sample_cfg sample_running sample_lane sample_lane_state sample_run sample_obj RunOk
    sample_running_reachable sample_lane_at eq_refl eq_refl sample_obj_at))).
Defined.

(** ** The queue bound *)

(** The tickets still outstanding. *)
Definition outstanding (s : st) : gset string := dom (tickets s) ∖ released s.
Lemma outstanding_shrinks s s' : tickets s' = tickets s -> released s ⊆ released s' -> outstanding s' ⊆ outstanding s.
Proof. unfold outstanding. intros ->. set_solver. Qed.
Lemma release_grows k s : released s ⊆ released (_release_capacity_once k s).
Proof. unfold _release_capacity_once. destruct (decide _); [done|]. cbn. set_solver. Qed.
Lemma retire_grows k g s : released s ⊆ released (_retire k g s).
Proof.
  unfold _retire. etrans; [|apply release_grows]. unfold _cancel_monitor. by destruct (decide _).
Qed.
Lemma finish_grows lk k g s : released s ⊆ released (finish lk k g s).
Proof.
  unfold finish. destruct (lane_next_frame lk (_retire k g s)) as (-> & _). apply retire_grows.
Qed.
Lemma permits_released c d o s : released (permits c d o s) = released s.
Proof. unfold permits. by destruct (own_pool c o), (t_workspace o). Qed.
Lemma lane_start_grows c lk s : released s ⊆ released (lane_start c lk s).
Proof.
  unfold lane_start. destruct (lanes s !! lk) as [[[|[k g] q] b [r|]]|]; try done.
  destruct (objs s !! g) as [o|]; [|done]. unfold _cancel_monitor. cbn.
  destruct (decide _); cbn; try case_bool_decide; try (etrans; [|apply finish_grows]; done);
    destruct (_ <=? _); try (etrans; [|apply finish_grows]; done); by destruct (t_workspace o).
Qed.
Lemma lane_poll_grows c lk s : released s ⊆ released (lane_poll c lk s).
Proof.
  unfold lane_poll. destruct (lanes s !! lk) as [[q b [[k g []]|]]|]; try done.
  destruct (objs s !! g) as [o|]; [|done]. destruct (_ <=? _); [etrans; [|apply finish_grows]; done|].
  destruct (can_acquire c o s); [|done]. cbn. by rewrite permits_released.
Qed.
Lemma lane_deliver_grows c lk s : released s ⊆ released (lane_deliver c lk s).
Proof.
  unfold lane_deliver. destruct (lanes s !! lk) as [[q b [[k g []]|]]|]; try done.
  destruct (objs s !! g) as [o|]; [|done]. destruct (_ <=? _); [|done].
  etrans; [|apply finish_grows]. by rewrite permits_released.
Qed.
Lemma lane_done_grows c lk out s : released s ⊆ released (lane_done c lk out s).
Proof.
  unfold lane_done. destruct (lanes s !! lk) as [[q b [[k g []]|]]|]; try done.
  destruct (objs s !! g) as [o|]; [|done]. etrans; [|apply finish_grows]. rewrite permits_released.
  destruct out; [done|]. cbn. by destruct (is_script o).
Qed.
Lemma drain_grows q s : released s ⊆ released (drain q s).
Proof.
  revert s. induction q as [|[k g] q IH]; intros s; [done|].
  change (drain ((k, g) :: q) s) with (drain q (_retire k g (_fail g CancelledError s))).
  etrans; [|apply IH]. etrans; [|apply retire_grows]. done.
Qed.
Lemma lane_cancel_grows c lk s : released s ⊆ released (lane_cancel c lk s).
Proof.
  destruct (lanes s !! lk) as [l|] eqn:Hl; [|by unfold lane_cancel; rewrite Hl].
  rewrite (lane_cancel_eq _ _ l) by done. cbv beta.
  assert (H : released s ⊆ released (cancel_run c l (set_lanes (delete lk (lanes s)) s))).
  { unfold cancel_run. destruct (l_run l) as [r|]; [|done]. etrans; [|apply retire_grows]. cbn.
    destruct (run_phase r), (objs s !! run_id r); cbn; rewrite ?permits_released; done. }
  destruct (l_begun l); [|done]. etrans; [exact H|apply drain_grows].
Qed.
Lemma observe_grows k obs s : released s ⊆ released (observe_done k obs s).
Proof.
  assert (HR : forall f, released s ⊆ released (end_recovered f k s)).
  { intros f. unfold end_recovered. etrans; [|apply release_grows]. done. }
  unfold observe_done. destruct (decide _); [|done].
  destruct obs; [destruct (decide _); [done|]| |done]; exact (HR _).
Qed.
Lemma close_grows c s : known s ⊆ released (close c s) -> released s ⊆ known s -> released s ⊆ released (close c s).
Proof. set_solver. Qed.
Lemma sweep_outstanding c s : outstanding (_sweep_expired c s) ⊆ outstanding s.
Proof.
  unfold outstanding. rewrite sweep_tickets.
  change (released (_sweep_expired c s)) with (released (foldr _forget s (expired_keys c s))).
  rewrite forget_all_released. intros k [[g Hg]%elem_of_dom Hr]%elem_of_difference.
  rewrite forget_all_tickets in Hg. case_decide as Hk; [done|].
  apply elem_of_difference. split; [apply elem_of_dom; eauto|set_solver].
Qed.
Lemma existing_outstanding c k s : outstanding (fst (_existing_ticket c k s)) ⊆ outstanding s.
Proof.
  unfold _existing_ticket. destruct (find_record k s); [|done].
  destruct (decide _) as [Hk|]; [|done]. destruct (completed_at s !! k); [|done]. destruct (_ <=? _); [|done].
  unfold outstanding; cbn. rewrite dom_delete_L. intros x. destruct (decide (x = k)); set_solver.
Qed.
Lemma enqueue_outstanding c k kind ws s : outstanding (fst (enqueue c k kind ws s)) ⊆ {[k]} ∪ outstanding s.
Proof.
  destruct (enqueue_fields c k kind ws s) as (_ & HT & _ & _ & HR & _). unfold outstanding.
  rewrite HT, HR, dom_insert_L. set_solver.
Qed.
Lemma outstanding_counted c s : Inv c [] s -> Z.of_nat (size (outstanding s)) <= queued_total s.
Proof.
  intros I. rewrite (inv_total _ _ _ I). apply inj_le, subseteq_size. unfold outstanding, known. set_solver.
Qed.
Lemma outstanding_core s s' : core s' = core s -> outstanding s' = outstanding s.
Proof. intros H. destruct (core_fields _ _ H) as (HT & _ & _ & HR & _). unfold outstanding. by rewrite HT, HR. Qed.
Lemma bounded_sub (X Y : gset string) m : X ⊆ Y -> Z.of_nat (size Y) <= m -> Z.of_nat (size X) <= m.
Proof. intros H%subseteq_size. lia. Qed.
Lemma enqueue_bounded c k kind ws s : Inv c [] s -> queued_total s < c_max_queued_total c ->
  Z.of_nat (size (outstanding (fst (enqueue c k kind ws s)))) <= c_max_queued_total c.
Proof.
  intros I Hq. eapply bounded_sub; [apply enqueue_outstanding|]. pose proof (outstanding_counted _ _ I).
  pose proof (size_union_alt {[k]} (outstanding s)) as E. rewrite E, size_singleton.
  assert (size (outstanding s ∖ {[k]}) <= size (outstanding s))%nat by (apply subseteq_size; set_solver). lia.
Qed.
Lemma admit_bounded c re s : Inv c [] s -> Z.of_nat (size (outstanding s)) <= c_max_queued_total c ->
  Z.of_nat (size (outstanding (fst (admit_ c re s)))) <= c_max_queued_total c.
Proof.
  intros I Hb. unfold admit_. destruct (closed s); [done|]. apply Inv_sweep in I.
  apply (bounded_sub _ _ _ (sweep_outstanding c s)) in Hb. set (s1 := _sweep_expired c s) in *.
  apply (bounded_sub _ _ _ (existing_outstanding c (_dedup_key c re) s1)) in Hb.
  apply (Inv_existing c (_dedup_key c re)) in I. destruct (_existing_ticket _ _ _) as [s2 [r|]]; cbn [fst] in *.
  { by destruct r. }
  pose proof (core_check_rate c re s2) as Hc. rewrite <- (outstanding_core _ _ Hc) in Hb.
  apply (Inv_core _ _ _ _ Hc) in I. destruct (_check_rate c re s2) as [s3 [ws|e]]; cbn [fst] in *; [|done].
  destruct (Z.leb_spec (c_max_queued_total c) (queued_total s3)) as [|Hq]; [done|].
  pose proof (enqueue_bounded c (_dedup_key c re) (agent_kind c re) ws s3 I Hq).
  by destruct (enqueue _ _ _ _ _).
Qed.
Lemma admit_script_bounded c ev s : Inv c [] s -> Z.of_nat (size (outstanding s)) <= c_max_queued_total c ->
  Z.of_nat (size (outstanding (fst (admit_script c ev s)))) <= c_max_queued_total c.
Proof.
  intros I Hb. unfold admit_script. destruct (closed s); [done|]. apply Inv_sweep in I.
  apply (bounded_sub _ _ _ (sweep_outstanding c s)) in Hb. set (s1 := _sweep_expired c s) in *.
  set (k := invocation_digest _ _ _). apply (bounded_sub _ _ _ (existing_outstanding c k s1)) in Hb.
  apply (Inv_existing c k) in I. destruct (_existing_ticket _ _ _) as [s2 [r|]]; cbn [fst] in *.
  { destruct r; [cbn [note_recovered]; destruct (from_option _ _ _)|]; done. }
  destruct (Z.leb_spec (c_max_queued_total c) (queued_total s2)) as [|Hq]; [done|].
  pose proof (enqueue_bounded c k (Script ev) [] s2 I Hq). by destruct (enqueue _ _ _ _ _).
Qed.
Lemma recover_outstanding c k r s : outstanding (fst (recover c k r s)) ⊆ outstanding s.
Proof.
  unfold recover. destruct (closed s); [done|]. etrans; [|apply (sweep_outstanding c s)].
  set (s1 := _sweep_expired c s). destruct (tickets s1 !! k); [done|].
  destruct (recovered s1 !! k) as [r'|]; [|done]. by destruct (same_run r' r).
Qed.
(** No step but an admission adds an outstanding ticket. *)
Lemma shrinks_step c s s' : Good c s -> step c s s' ->
  outstanding s' ⊆ outstanding s \/ (exists re, s' = fst (admit_ c re s)) \/ (exists ev, s' = fst (admit_script c ev s)).
Proof.
  intros HG Hstep. destruct Hstep; eauto; left; try done.
  - apply recover_outstanding.
  - apply outstanding_shrinks; [apply rest_tickets, rest_monitor|]. unfold monitor_poll.
    destruct (monitors s !! k); [|done]. destruct (objs s !! _); [|done]. by destruct (_ <=? _).
  - apply outstanding_shrinks; [apply rest_tickets, rest_lane_start|apply lane_start_grows].
  - apply outstanding_shrinks; [apply rest_tickets, rest_lane_poll|apply lane_poll_grows].
  - apply outstanding_shrinks; [|apply lane_deliver_grows]. destruct (rest_lane_deliver c lk s) as [ds H].
    by rewrite (rest_tickets _ _ H).
  - apply outstanding_shrinks; [apply rest_tickets, rest_lane_done|apply lane_done_grows].
  - apply outstanding_shrinks; [apply rest_tickets, rest_lane_cancel|apply lane_cancel_grows].
  - apply outstanding_shrinks; [|apply observe_grows].
    assert (HR : forall f, tickets (end_recovered f k s) = tickets s).
    { intros f. unfold end_recovered, _release_capacity_once. by destruct (decide _). }
    unfold observe_done. destruct (decide _); [|done].
    destruct obs; [destruct (decide _); [done|]| |done]; exact (HR _).
  - destruct (close_good _ _ HG) as (_ & _ & Q). pose proof (quiet_released _ Q) as H. unfold known in H.
    unfold outstanding. set_solver.
Qed.

(** The queue bound: at most [max_queued_total] tickets are outstanding in any reachable state,
    whatever recovered runs add to the counter. *)
Theorem queue_bounded c s : 0 <= c_max_queued_total c -> reachable c s ->
  Z.of_nat (size (dom (tickets s) ∖ released s)) <= c_max_queued_total c.
Proof.
  intros Hm [now H]. assert (G0 : Good c (init c now) /\ Z.of_nat (size (outstanding (init c now))) <= c_max_queued_total c).
  { split; [split; [apply Inv_init|done]|]. unfold outstanding; cbn. rewrite dom_empty_L.
    by replace (∅ ∖ ∅) with (∅ : gset string) by set_solver. }
  change (Z.of_nat (size (outstanding s)) <= c_max_queued_total c).
  revert G0. induction H as [|x y z Hxy _ IH]; [tauto|]. intros [G B]. apply IH. split; [by eapply Good_step|].
  destruct (shrinks_step _ _ _ G Hxy) as [Hs|[[re ->]|[ev ->]]].
  - by eapply bounded_sub.
  - apply admit_bounded; [apply G|done].
  - apply admit_script_bounded; [apply G|done].
Qed.
Lemma queue_bounded_witness :
  Z.of_nat (size (dom (tickets sample_running) ∖ released sample_running)) <= c_max_queued_total sample_cfg.
Proof. apply (queue_bounded sample_cfg sample_running); [done|apply sample_running_reachable]. Defined.

(** ** Progress *)

(** Every capacity is at least one, as the schema asks. *)
Record caps_positive (c : cfg) : Prop := mkpositive {
  pos_global : 1 <= c_max_concurrent_invocations c;
  pos_script : match c_max_concurrent_scripts c with Some n => 1 <= n | None => True end;
  pos_channel : forall ch, 1 <= channel_cap c ch;
  pos_workspace : 1 <= c_workspace_max_concurrent_sessions c
}.
Lemma caps_positive_ok c : caps_positive c -> caps_ok c.
Proof.
  intros [P1 P2 P3 P4]. split; [lia| |intros ch; specialize (P3 ch); lia|lia].
  destruct (c_max_concurrent_scripts c); cbn; lia.
Qed.
Lemma no_recovered P s : live_recovered s = ∅ -> _recovered_count P s = 0.
Proof. intros H. unfold _recovered_count. rewrite H, map_filter_empty, map_size_empty. done. Qed.
(** Nobody holds a permit. *)
Definition no_holder (s : st) : Prop :=
  forall lk l r, lanes s !! lk = Some l -> l_run l = Some r -> run_phase r = Acquiring.
Lemma no_holder_zero P s : no_holder s -> holders P s = 0.
Proof.
  intros H. unfold holders. rewrite (count_ext _ (fun _ => false)).
  - unfold count. replace (filter _ (lanes s)) with (∅ : gmap string lane); [by rewrite map_size_empty|].
    symmetry. apply map_eq. intros k. rewrite lookup_empty, map_lookup_filter_None. by right.
  - intros lk l Hl. unfold held. destruct (l_run l) as [[k g ph]|] eqn:Hr; [|done]. by specialize (H _ _ _ Hl Hr); cbn in H; subst.
Qed.
Lemma can_acquire_free c o s : caps_positive c -> SInv c s -> no_holder s -> live_recovered s = ∅ ->
  pools_exist s o -> can_acquire c o s = true.
Proof.
  intros [P1 P2 P3 P4] [G S C W N _] Hn Hr [[[v cap] Hch] Hws].
  destruct (C _ _ _ Hch) as (Hcap & Hsum & _). rewrite no_holder_zero in Hsum by done.
  rewrite no_holder_zero in G by done. rewrite no_holder_zero in S by done. specialize (P3 (t_channel o)).
  assert (Hcv : (sem_value (t_channel o) (channel_sems s) <=? _recovered_count (on_channel (t_channel o)) s) = false).
  { rewrite no_recovered, (sem_value_lookup _ _ _ _ Hch) by done. apply Z.leb_gt. lia. }
  assert (Hg : (global_val s <=? _recovered_count (fun _ => true) s) = false).
  { rewrite no_recovered by done. apply Z.leb_gt. lia. }
  unfold can_acquire. rewrite Hcv, Hg. destruct (t_kind o) as [w se re|ev] eqn:Hk.
  - destruct (Hws w) as [[v' cap'] Hw]; [by unfold t_workspace; rewrite Hk|].
    destruct (W _ _ _ Hw) as (Hcap' & Hsum' & _). rewrite no_holder_zero in Hsum' by done.
    unfold _recovered_owns_session. rewrite !no_recovered, (sem_value_lookup _ _ _ _ Hw) by done.
    destruct (Z.leb_spec v' 0); [lia|done].
  - unfold own_pool, is_script. rewrite Hk. cbn. destruct (c_max_concurrent_scripts c) as [n|]; cbn; [|done].
    cbn in S. destruct (Z.leb_spec (script_val s) 0); [lia|done].
Qed.

(** The dequeue of a live ticket: it starts waiting for permits, and nothing else moves. *)
Lemma lane_start_live c lk l k g q o s : lanes s !! lk = Some l -> l_queue l = (k, g) :: q -> l_run l = None ->
  tickets s !! k = Some g -> objs s !! g = Some o -> clock s < t_deadline_at o -> k ∉ monitor_expired s ->
  let s1 := lane_start c lk s in
  lanes s1 = <[lk := dequeued k g q]> (lanes s) /\ objs s1 = objs s /\ clock s1 = clock s
  /\ recovered s1 = recovered s /\ released s1 = released s /\ delivered s1 = delivered s.
Proof.
  intros Hl Hq Hr Ht Ho Hd He. cbv zeta. destruct l as [q0 b run]; cbn in Hq, Hr; subst q0 run.
  unfold lane_start. rewrite Hl, Ho. unfold _cancel_monitor. cbn.
  rewrite decide_True by done. cbn. rewrite bool_decide_eq_false_2 by done.
  destruct (Z.leb_spec (t_deadline_at o) (clock s)); [lia|]. by destruct (t_workspace o).
Qed.

(** C5. Progress: when no run holds a permit and no recovered run is live, the head of any idle lane
    whose deadline has not passed is handed to the runner by the lane's own next three segments
    (dequeue, permit poll, delivery). *)
Theorem idle_lane_delivers c s lk l k g q o : caps_positive c -> reachable c s ->
  lanes s !! lk = Some l -> l_queue l = (k, g) :: q -> l_run l = None ->
  objs s !! g = Some o -> clock s < t_deadline_at o -> k ∉ monitor_expired s ->
  no_holder s -> live_recovered s = ∅ ->
  delivered (lane_deliver c lk (lane_poll c lk (lane_start c lk s))) = g :: delivered s.
Proof.
  intros K HR Hl Hq Hr Ho Hd He Hn Hrec. pose proof (Good_reachable _ _ HR) as [I _].
  assert (Ht : tickets s !! k = Some g).
  { eapply inv_entry; [exact I|]. eapply queue_in_lane; [exact Hl|]. rewrite Hq. set_solver. }
  destruct (lane_start_live c lk l k g q o s Hl Hq Hr Ht Ho Hd He) as (L1 & O1 & C1 & R1 & E1 & D1).
  assert (HR1 : reachable c (lane_start c lk s)) by (eapply reachable_step; [exact HR|apply step_start]).
  set (s1 := lane_start c lk s) in *.
  assert (Hl1 : lanes s1 !! lk = Some (dequeued k g q)) by (rewrite L1; apply lookup_insert_eq).
  assert (Ho1 : objs s1 !! g = Some o) by by rewrite O1.
  pose proof (SInv_reachable _ _ (caps_positive_ok _ K) HR1) as S1.
  assert (Hn1 : no_holder s1).
  { intros lk' l' r'. rewrite L1. intros [[<- <-]|[_ Hl']]%lookup_insert_Some Hr'; [by injection Hr' as <-|by eapply Hn]. }
  assert (Hacq : can_acquire c o s1 = true).
  { apply can_acquire_free; auto.
    - unfold live_recovered in *. by rewrite R1, E1.
    - by apply (s_present _ _ S1 lk (dequeued k g q) {| run_key := k; run_id := g; run_phase := Acquiring |} o). }
  rewrite <- D1. unfold lane_poll. rewrite Hl1. cbn. rewrite Ho1, C1.
  destruct (Z.leb_spec (t_deadline_at o) (clock s)); [lia|]. rewrite Hacq.
  set (s2 := set_run _ _ _). destruct (permits_lanes_kinds c (-1) o s1) as (PL & _ & PO).
  assert (Hl2 : lanes s2 !! lk = Some {| l_queue := q; l_begun := true;
      l_run := Some {| run_key := k; run_id := g; run_phase := Permitted |} |}).
  { unfold s2, set_run. cbn. by rewrite lookup_alter_eq, PL, Hl1. }
  unfold lane_deliver. rewrite Hl2. change (objs s2) with (objs (permits c (-1) o s1)). rewrite PO, Ho1.
  pose proof (rest_permits c (-1) o s1) as [= _ _ _ _ _ HD HC _].
  change (clock s2) with (clock (permits c (-1) o s1)). rewrite HC, C1.
  destruct (Z.leb_spec (t_deadline_at o) (clock s)); [lia|]. cbn. by rewrite HD.
Qed.
Definition sample_queue_lane : lane :=
  {| l_queue := [(sample_key "e1", 0%nat); (sample_key "e2", 1%nat)]; l_begun := false; l_run := None |}.
Definition sample_obj1 : tobj := from_option id sample_obj (objs sample_queued !! 0%nat).
Lemma sample_positive : caps_positive sample_cfg.
Proof.
  split; cbn; try lia. intros ch. unfold channel_cap. cbn. rewrite lookup_empty. cbn. lia.
Qed.
Lemma sample_queue_at : lanes sample_queued !! sample_lane = Some sample_queue_lane.
Proof. vm_compute. reflexivity. Qed.
Lemma sample_obj1_at : objs sample_queued !! 0%nat = Some sample_obj1.
Proof. vm_compute. reflexivity. Qed.
Lemma sample_queued_idle : no_holder sample_queued.
Proof.
  assert (HL : lanes sample_queued = {[sample_lane := sample_queue_lane]}) by (vm_compute; reflexivity).
  intros lk l r. rewrite HL. by intros [<- <-]%lookup_singleton_Some.
Qed.
Lemma idle_lane_delivers_witness : delivered sample_running = [0%nat].
Proof.
  refine (idle_lane_delivers sample_cfg sample_queued sample_lane sample_queue_lane (sample_key "e1") 0
    [(sample_key "e2", 1%nat)] sample_obj1 sample_positive sample_queued_reachable sample_queue_at eq_refl eq_refl
    sample_obj1_at _ _ sample_queued_idle _); vm_compute; done.
Defined.
