(* ===== verification/StateRefs.v ===== *)
(** * storage/refs.py: the domain descriptor of Storage and its object keys

    A [StateRef] names one persisted domain (a Workspace or a session of it).  Storage derives
    every object key from it; the keys of different domains and of different kinds of objects
    are proved disjoint. *)

From S2P Require Import Prelude Sha256 PyJson Config.
From Stdlib Require Import Ascii.

Definition DOMAIN_WORKSPACE : string := "workspace".
Definition DOMAIN_SESSION : string := "session".

(** [re.compile("^[0-9a-f]{64}$").match]: [$] also matches before a final newline. *)
Definition hex64 (v : string) : bool := (String.length v =? 64)%nat && str_forallb is_hex v.
Definition newline : string := String (ascii_of_N 10) "".
Definition _HEX64 (v : string) : bool :=
  hex64 v || (let '(p, r) := str_split_at 64 v in hex64 p && String.eqb r newline).

Record FrozenAgentIdentity := { fi_name : string; fi_namespace : string; fi_uid : string }.

#[export] Instance frozen_eq_dec : EqDecision FrozenAgentIdentity.
Proof. solve_decision. Defined.

Record StateRef :=
  { sr_agent : FrozenAgentIdentity; sr_workspace_ref : string; sr_domain : string;
    sr_session_ref : option string }.

#[export] Instance state_ref_eq_dec : EqDecision StateRef.
Proof. solve_decision. Defined.

(** What the [agent] field may be given: a frozen identity, a live one (whose fields may have
    been changed since its own validation), or raw data. *)
Inductive identity_input :=
  | FrozenInput (f : FrozenAgentIdentity)
  | LiveInput (a : AgentIdentity)
  | RawInput (j : json).

Definition checked_identity (a : AgentIdentity) : result exn AgentIdentity :=
  AgentIdentity_check a ≫= fun _ => Ok a.

Section validate.
(** Pydantic's reading of the fields of a raw [AgentIdentity]. *)
Context (decode_identity : json -> result exn AgentIdentity).

Definition _freeze_identity (v : identity_input) : result exn FrozenAgentIdentity :=
  identity ← match v with
             | FrozenInput f => checked_identity {| agent_name := fi_name f;
                                  agent_namespace := fi_namespace f; agent_uid := fi_uid f |}
             | LiveInput a => checked_identity {| agent_name := agent_name a;
                                agent_namespace := agent_namespace a; agent_uid := agent_uid a |}
             | RawInput j => decode_identity j ≫= checked_identity
             end;
  Ok {| fi_name := agent_name identity; fi_namespace := agent_namespace identity;
        fi_uid := agent_uid identity |}.

Definition _hex64 (v : option string) : result exn unit :=
  match v with
  | Some v => require (_HEX64 v) ValueError
  | None => Ok tt
  end.

Definition _known_domain (v : string) : result exn unit :=
  require (String.eqb v DOMAIN_WORKSPACE || String.eqb v DOMAIN_SESSION) ValueError.

Definition _session_ref_matches_domain (r : StateRef) : result exn unit :=
  if String.eqb (sr_domain r) DOMAIN_SESSION && bool_decide (sr_session_ref r = None)
  then Err ValueError
  else if String.eqb (sr_domain r) DOMAIN_WORKSPACE && negb (bool_decide (sr_session_ref r = None))
  then Err ValueError
  else Ok tt.

(** [StateRef(agent=..., workspace_ref=..., domain=..., session_ref=...)] *)
Definition new_StateRef (agent : identity_input) (workspace_ref domain : string)
    (session_ref : option string) : result exn StateRef :=
  identity ← _freeze_identity agent;
  _hex64 (Some workspace_ref) ≫= fun _ =>
  _known_domain domain ≫= fun _ =>
  _hex64 session_ref ≫= fun _ =>
  let r := {| sr_agent := identity; sr_workspace_ref := workspace_ref; sr_domain := domain;
              sr_session_ref := session_ref |} in
  _session_ref_matches_domain r ≫= fun _ => Ok r.
End validate.

(** [s.strip('/')] *)
Fixpoint lstrip_slash (s : string) : string :=
  match s with
  | String a s' => if Ascii.eqb a "/" then lstrip_slash s' else s
  | EmptyString => ""
  end.
Fixpoint rstrip_slash (s : string) : string :=
  match s with
  | EmptyString => ""
  | String a s =>
      let r := rstrip_slash s in
      if Ascii.eqb a "/" && String.eqb r "" then "" else String a r
  end.
Definition strip_slash (s : string) : string := rstrip_slash (lstrip_slash s).

(** [f"{self.session_ref}"] *)
Definition session_text (r : StateRef) : string :=
  match sr_session_ref r with Some s => s | None => "None" end.

Definition _base_key (r : StateRef) (prefix : string) : string :=
  let base := strip_slash prefix +:+ "/" +:+ fi_namespace (sr_agent r) +:+ "/"
              +:+ fi_uid (sr_agent r) +:+ "/" +:+ sr_workspace_ref r in
  if String.eqb (sr_domain r) DOMAIN_SESSION then base +:+ "/sessions/" +:+ session_text r
  else base.

Definition registry_key (r : StateRef) (prefix : string) : string :=
  _base_key r prefix +:+ "/registry.json".
Definition snapshot_key (r : StateRef) (prefix snapshot_id : string) : string :=
  _base_key r prefix +:+ "/snapshots/" +:+ snapshot_id +:+ ".tar.gz".
Definition commit_record_key (r : StateRef) (prefix snapshot_id : string) : string :=
  _base_key r prefix +:+ "/commits/" +:+ snapshot_id +:+ ".json".

(** ** Keys are disjoint *)

Definition no_slash (s : string) : bool := str_forallb (fun a => negb (Ascii.eqb a "/")) s.

(** The part of the identity the keys depend on (the agent's name is not one of them). *)
Definition location (r : StateRef) : string * string * string * option string :=
  (fi_namespace (sr_agent r), fi_uid (sr_agent r), sr_workspace_ref r, sr_session_ref r).

(** An accepted descriptor whose namespace, like every Kubernetes name, has no slash. *)
Definition accepted_ref (r : StateRef) : Prop :=
  (exists decode agent, new_StateRef decode agent (sr_workspace_ref r) (sr_domain r)
                          (sr_session_ref r) = Ok r)
  /\ no_slash (fi_namespace (sr_agent r)) = true.

Lemma str_app_inj_r s t u : s +:+ u = t +:+ u -> s = t.
Proof.
  revert t; induction s as [|a s IH]; intros [|b t] H; [done|..].
  - exfalso. rewrite str_app_nil_l in H. apply (f_equal String.length) in H.
    rewrite str_app_length in H. simpl in H. lia.
  - exfalso. rewrite str_app_nil_l in H. apply (f_equal String.length) in H.
    rewrite str_app_length in H. simpl in H. lia.
  - rewrite !str_app_cons in H. injection H as -> H. f_equal. by apply IH.
Qed.

(** Texts cut at their first slash. *)
Lemma cut_at_slash s t r u :
  no_slash s = true -> no_slash t = true ->
  s +:+ String "/" r = t +:+ String "/" u -> s = t /\ r = u.
Proof.
  revert t; induction s as [|a s IH]; intros [|b t] Hs Ht H;
    rewrite ?str_app_cons, ?str_app_nil_l in H; cbn [no_slash str_forallb] in *.
  - by injection H.
  - injection H as <- _. done.
  - injection H as -> _. done.
  - apply andb_prop in Hs as [_ Hs]. apply andb_prop in Ht as [_ Ht].
    injection H as -> H. by destruct (IH t Hs Ht H) as [-> ->].
Qed.

Lemma hex_no_slash s : str_forallb is_hex s = true -> no_slash s = true.
Proof.
  unfold no_slash. induction s as [|a s IH]; simpl; [done|].
  intros [Ha Hs]%andb_prop. rewrite IH by done.
  destruct a as [[] [] [] [] [] [] [] []]; done.
Qed.

Lemma no_slash_app s t : no_slash (s +:+ t) = no_slash s && no_slash t.
Proof.
  unfold no_slash. induction s as [|a s IH]; [done|]. rewrite str_app_cons. simpl.
  by rewrite IH, andb_assoc.
Qed.

Lemma str_split_at_app n s : let '(p, r) := str_split_at n s in s = p +:+ r.
Proof.
  revert s; induction n as [|n IH]; intros [|a s]; simpl; try done.
  specialize (IH s). destruct (str_split_at n s) as [p r]. rewrite str_app_cons. by rewrite IH at 1.
Qed.

Lemma _HEX64_no_slash s : _HEX64 s = true -> no_slash s = true.
Proof.
  unfold _HEX64, hex64. intros [H|H]%orb_prop.
  - apply andb_prop in H as [_ H]. by apply hex_no_slash.
  - pose proof (str_split_at_app 64 s) as Hs. destruct (str_split_at 64 s) as [p r].
    apply andb_prop in H as [H Hr]. apply andb_prop in H as [_ H].
    apply String.eqb_eq in Hr as ->. rewrite Hs, no_slash_app, hex_no_slash by done. done.
Qed.

Lemma split_on_forallb_ref f c s :
  f c = true -> forallb (str_forallb f) (split_on c s) = true -> str_forallb f s = true.
Proof.
  intros Hc. unfold split_on.
  cut (forall acc, forallb (str_forallb f) (split_on_aux c acc s) = true ->
                   str_forallb f acc = true /\ str_forallb f s = true).
  { intros H1 H2. by apply (H1 "") in H2 as [_ ?]. }
  assert (Happ : forall x y, str_forallb f (x +:+ y) = str_forallb f x && str_forallb f y).
  { intros x y. induction x as [|a x IHx]; [done|]. rewrite str_app_cons. simpl.
    by rewrite IHx, andb_assoc. }
  induction s as [|a s IH]; intros acc H; cbn [split_on_aux forallb str_forallb] in *.
  - apply andb_prop in H as [H _]. done.
  - destruct (Ascii.eqb_spec a c) as [->|Hne].
    + cbn [forallb] in H. apply andb_prop in H as [Ha H]. destruct (IH _ H) as [_ Hs].
      by rewrite Hc, Hs.
    + destruct (IH _ H) as [Ha Hs]. rewrite Happ in Ha. apply andb_prop in Ha as [Ha1 Ha2].
      cbn [str_forallb] in Ha2. rewrite andb_true_r in Ha2. by rewrite Ha2, Hs.
Qed.

Lemma uuid_no_slash s : uuid_pattern s = true -> no_slash s = true.
Proof.
  intros H. apply (split_on_forallb_ref _ "-"); [done|]. unfold uuid_pattern in H.
  assert (Hf : forallb (str_forallb is_lower_hex) (split_on "-" s) = true).
  { destruct (split_on "-" s) as [|a [|b [|c [|d [|e [|]]]]]]; try done.
    by apply andb_prop in H as [_ H]. }
  rewrite forallb_forall in Hf |- *. intros x Hx. by apply hex_no_slash, Hf.
Qed.

Lemma accepted_ref_spec r :
  accepted_ref r ->
  no_slash (fi_namespace (sr_agent r)) = true /\ no_slash (fi_uid (sr_agent r)) = true
  /\ no_slash (sr_workspace_ref r) = true
  /\ ((sr_domain r = DOMAIN_WORKSPACE /\ sr_session_ref r = None)
      \/ (sr_domain r = DOMAIN_SESSION /\ exists s, sr_session_ref r = Some s /\ no_slash s = true)).
Proof.
  intros [(decode & agent & H) Hns]. unfold new_StateRef in H.
  apply bind_ok in H as (i & Hi & H). apply bind_ok in H as ([] & Hw & H).
  apply bind_ok in H as ([] & Hd & H). apply bind_ok in H as ([] & Hs & H).
  apply bind_ok in H as ([] & Hm & H). injection H as H.
  apply require_ok in Hw, Hd. split; [done|].
  assert (Hu : no_slash (fi_uid (sr_agent r)) = true).
  { assert (exists a, checked_identity a = Ok a /\ fi_uid i = agent_uid a) as (a & Ha & Hia).
    { unfold _freeze_identity in Hi. apply bind_ok in Hi as (a & Ha & Hi). injection Hi as <-.
      unfold checked_identity in *. exists a. split; [|done]. destruct agent; inv_ok; simpl;
      by repeat match goal with H : AgentIdentity_check _ = Ok _ |- _ => rewrite H; clear H end. }
    rewrite <- H. simpl. rewrite Hia. apply uuid_no_slash.
    unfold checked_identity, AgentIdentity_check in Ha. inv_ok. done. }
  split; [done|]. split; [by apply _HEX64_no_slash|].
  unfold _session_ref_matches_domain in Hm. cbn [sr_domain sr_session_ref] in Hm.
  apply orb_prop in Hd as [Hd|Hd]; apply String.eqb_eq in Hd; rewrite Hd in *;
    destruct (sr_session_ref r) as [s|] eqn:E; try done; [left; done|right].
  split; [done|]. exists s. split; [done|]. simpl in Hs. apply require_ok in Hs.
  by apply _HEX64_no_slash.
Qed.

(** The three kinds of objects of a domain. *)
Inductive key_kind := RegistryKey | SnapshotKey (snapshot_id : string) | CommitKey (snapshot_id : string).

#[export] Instance key_kind_eq_dec : EqDecision key_kind.
Proof. solve_decision. Defined.

Definition object_key (prefix : string) (r : StateRef) (k : key_kind) : string :=
  match k with
  | RegistryKey => registry_key r prefix
  | SnapshotKey id => snapshot_key r prefix id
  | CommitKey id => commit_record_key r prefix id
  end.

(** The path below the Workspace ref. *)
Definition kind_tail (k : key_kind) : string :=
  match k with
  | RegistryKey => "registry.json"
  | SnapshotKey id => "snapshots/" +:+ id +:+ ".tar.gz"
  | CommitKey id => "commits/" +:+ id +:+ ".json"
  end.

Lemma kind_tail_inj k1 k2 : kind_tail k1 = kind_tail k2 -> k1 = k2.
Proof.
  destruct k1 as [|i|i], k2 as [|j|j]; cbn [kind_tail]; intros H; try done;
    apply str_app_inj_l, str_app_inj_r in H; congruence.
Qed.

(** The path below the agent's UID. *)
Definition below_workspace (r : StateRef) (k : key_kind) : string :=
  sr_workspace_ref r +:+ String "/"
    (match sr_session_ref r with
     | Some s => "sessions/" +:+ s +:+ String "/" (kind_tail k)
     | None => kind_tail k
     end).

Lemma object_key_eq prefix r k :
  accepted_ref r ->
  object_key prefix r k
  = strip_slash prefix +:+ "/" +:+ fi_namespace (sr_agent r) +:+ String "/"
      (fi_uid (sr_agent r) +:+ String "/" (below_workspace r k)).
Proof.
  intros Hr. apply accepted_ref_spec in Hr as (_ & _ & _ & Hd).
  assert (E : object_key prefix r k = _base_key r prefix +:+ String "/" (kind_tail k)).
  { destruct k; reflexivity. }
  rewrite E. clear E. unfold _base_key, below_workspace, session_text.
  destruct Hd as [[-> ->]|[-> (s & -> & Hs)]].
  - change (String.eqb DOMAIN_WORKSPACE DOMAIN_SESSION) with false. cbn iota.
    rewrite !str_app_assoc. reflexivity.
  - rewrite String.eqb_refl, !str_app_assoc. reflexivity.
Qed.

Lemma below_workspace_inj r1 r2 k1 k2 :
  accepted_ref r1 -> accepted_ref r2 -> below_workspace r1 k1 = below_workspace r2 k2 ->
  sr_workspace_ref r1 = sr_workspace_ref r2 /\ sr_session_ref r1 = sr_session_ref r2 /\ k1 = k2.
Proof.
  intros H1 H2 H. apply accepted_ref_spec in H1 as (_ & _ & Hw1 & Hd1).
  apply accepted_ref_spec in H2 as (_ & _ & Hw2 & Hd2). unfold below_workspace in H.
  apply cut_at_slash in H as [Hw H]; [|done..]. split; [done|].
  destruct Hd1 as [[_ E1]|[_ (s1 & E1 & Hs1)]], Hd2 as [[_ E2]|[_ (s2 & E2 & Hs2)]];
    rewrite E1, E2 in *.
  - by apply kind_tail_inj in H as ->.
  - destruct k1; done.
  - destruct k2; done.
  - apply str_app_inj_l in H. apply cut_at_slash in H as [-> H]; [|done..].
    by apply kind_tail_inj in H as ->.
Qed.

Lemma storage_keys_inj prefix r1 r2 k1 k2 :
  accepted_ref r1 -> accepted_ref r2 ->
  object_key prefix r1 k1 = object_key prefix r2 k2 ->
  location r1 = location r2 /\ k1 = k2.
Proof.
  intros H1 H2 H. rewrite !object_key_eq in H by done.
  apply str_app_inj_l in H. rewrite !str_app_cons, !str_app_nil_l in H.
  injection H as H.
  destruct (accepted_ref_spec _ H1) as (Hn1 & Hu1 & _).
  destruct (accepted_ref_spec _ H2) as (Hn2 & Hu2 & _).
  apply cut_at_slash in H as [Hn H]; [|done..]. apply cut_at_slash in H as [Hu H]; [|done..].
  apply below_workspace_inj in H as (Hw & Hs & ->); [|done..].
  unfold location. by rewrite Hn, Hu, Hw, Hs.
Qed.

(** Storage never addresses the same object for two purposes: the keys of two accepted
    descriptors (with one bucket prefix) are equal only when they are the same kind of object,
    with the same snapshot id, of the same namespace, agent UID, Workspace ref and session
    ref. *)
Theorem storage_keys_disjoint prefix r1 r2 k1 k2 :
  accepted_ref r1 -> accepted_ref r2 ->
  object_key prefix r1 k1 = object_key prefix r2 k2 ->
  location r1 = location r2 /\ k1 = k2.
Proof. apply storage_keys_inj. Qed.

(** A concrete descriptor. *)
Definition sample_uid : string := "01234567-89ab-cdef-0123-456789abcdef".
Definition sample_ref : StateRef :=
  {| sr_agent := {| fi_name := "agent"; fi_namespace := "ach"; fi_uid := sample_uid |};
     sr_workspace_ref := sha256_hex "w"; sr_domain := DOMAIN_SESSION;
     sr_session_ref := Some (sha256_hex "s") |}.

Lemma sample_ref_accepted : accepted_ref sample_ref.
Proof.
  split; [|done].
  exists (fun _ => Err ValueError), (FrozenInput (sr_agent sample_ref)). vm_compute. reflexivity.
Qed.

Lemma storage_keys_disjoint_witness :
  location sample_ref = location sample_ref /\ CommitKey "x" = CommitKey "x".
Proof.
  exact (storage_keys_disjoint "ach/" sample_ref sample_ref (CommitKey "x") (CommitKey "x")
           sample_ref_accepted sample_ref_accepted eq_refl).
Defined.
