(* ===== verification/Effects.v ===== *)
(** * Effectful code: programs of calls, and a rely-guarantee logic for them

    A coroutine is the tree of the calls it makes to its environment: each call's answer
    selects how it goes on.  Everything the environment decides (what a backend answers, the
    time, whether a call fails) is an answer, so one program has many runs, and other programs
    may act on the same world between any two of its calls.  [wp] proves a postcondition and a
    guarantee on every call under such interference; [system_inv] composes it over any number
    of programs interleaved call by call. *)

From S2P Require Import Prelude.

Section prog.
Context {C : Type} {ans : C -> Type} {E : Type}.

Inductive prog (A : Type) : Type :=
  | Done (r : result E A)
  | Call (c : C) (k : ans c -> prog A).
Arguments Done {A} r.
Arguments Call {A} c k.

(** One call, and the answer it gets. *)
Definition call (c : C) : prog (ans c) := Call c (fun a => Done (Ok a)).

#[global] Instance prog_ret : MRet prog := fun A a => Done (Ok a).

Fixpoint prog_run {A B} (p : prog A) (f : result E A -> prog B) : prog B :=
  match p with
  | Done r => f r
  | Call c k => Call c (fun a => prog_run (k a) f)
  end.

#[global] Instance prog_bind : MBind prog := fun A B f p =>
  prog_run p (fun r => match r with Ok a => f a | Err e => Done (Err e) end).

#[global] Instance prog_fmap : FMap prog := fun A B f p =>
  prog_run p (fun r => match r with Ok a => Done (Ok (f a)) | Err e => Done (Err e) end).

(** [raise e], [try: p except e: h e], and the outcome of [p] as a value. *)
Definition throw {A} (e : E) : prog A := Done (Err e).
Definition catch {A} (p : prog A) (h : E -> prog A) : prog A :=
  prog_run p (fun r => match r with Ok a => Done (Ok a) | Err e => h e end).
Definition attempt {A} (p : prog A) : prog (result E A) := prog_run p (fun r => Done (Ok r)).
Definition lift {A} (r : result E A) : prog A := Done r.

(** At most [n] calls, whatever the answers. *)
Fixpoint calls_within {A} (n : nat) (p : prog A) {struct p} : Prop :=
  match p with
  | Done _ => True
  | Call c k => match n with O => False | S n => forall a, calls_within n (k a) end
  end.

Lemma calls_within_mono {A} n m (p : prog A) : n <= m -> calls_within n p -> calls_within m p.
Proof.
  revert n m; induction p as [r|c k IH]; intros [|n] [|m] Hle H; simpl in *; try done; [lia|].
  intros a. apply (IH a n); [lia|auto].
Qed.

Lemma calls_within_run {A B} n m (p : prog A) (f : result E A -> prog B) :
  calls_within n p -> (forall r, calls_within m (f r)) -> calls_within (n + m) (prog_run p f).
Proof.
  intros Hp Hf. revert n Hp; induction p as [r|c k IH]; intros n Hp; simpl in *.
  - apply (calls_within_mono m); [lia|auto].
  - destruct n as [|n]; [done|]. simpl. intros a. by apply IH.
Qed.

(** ** Worlds, histories and interference *)

Section logic.
Context {W : Type}.
(** What the environment may answer, and what a call does to the world. *)
Context (step : W -> forall c : C, ans c -> W -> Prop).
(** The changes any program may make, given the history of worlds (newest first). *)
Context (legal : list W -> W -> Prop).

Inductive ext : list W -> list W -> Prop :=
  | ext_refl h : ext h h
  | ext_more h h' w : ext h h' -> legal h' w -> ext h (w :: h').

Lemma ext_trans h1 h2 h3 : ext h1 h2 -> ext h2 h3 -> ext h1 h3.
Proof. intros H1. induction 1; [done|]. constructor; auto. Qed.

Lemma ext_one h w : legal h w -> ext h (w :: h).
Proof. intros. constructor; [constructor|done]. Qed.

Lemma ext_suffix h h' : ext h h' -> exists ws, h' = ws ++ h.
Proof. induction 1 as [h|h h' w _ [ws ->]]; [by exists []|by exists (w :: ws)]. Qed.

Lemma ext_in h h' w : ext h h' -> In w h -> In w h'.
Proof. induction 1; [done|]. intros. right. auto. Qed.

#[global] Instance ext_preorder : PreOrder ext.
Proof. split; [intros h; constructor|]. intros h1 h2 h3; apply ext_trans. Qed.

(** A postcondition that survives what other programs do. *)
Definition stable {A} (Q : list W -> result E A -> Prop) : Prop :=
  forall h h' r, ext h h' -> Q h r -> Q h' r.

Section guarantee.
(** Every run of [p] from history [h], under any interference by legal changes, makes only the
    changes [guar] allows and ends with [Q]. *)
Context (guar : list W -> W -> Prop).

Fixpoint wp {A} (p : prog A) (Q : list W -> result E A -> Prop) (h : list W) : Prop :=
  match p with
  | Done r => Q h r
  | Call c k =>
      forall past w, ext h (w :: past) -> forall a w', step w c a w' ->
        guar (w :: past) w' /\ wp (k a) Q (w' :: w :: past)
  end.

Lemma wp_ret {A} (r : result E A) Q h : Q h r -> wp (Done r) Q h.
Proof. done. Qed.

Lemma wp_call {A} c (k : ans c -> prog A) Q h :
  (forall past w, ext h (w :: past) -> forall a w', step w c a w' ->
     guar (w :: past) w' /\ wp (k a) Q (w' :: w :: past)) -> wp (Call c k) Q h.
Proof. done. Qed.

Lemma wp_run {A B} (p : prog A) (f : result E A -> prog B) Q h :
  wp p (fun h r => wp (f r) Q h) h -> wp (prog_run p f) Q h.
Proof.
  revert h; induction p as [r|c k IH]; intros h H; simpl in *; [done|].
  intros past w Hx a w' Hs. destruct (H past w Hx a w' Hs). auto.
Qed.

Hypothesis guar_legal : forall h w, guar h w -> legal h w.

Lemma wp_mono {A} (p : prog A) (Q Q' : list W -> result E A -> Prop) h :
  wp p Q h -> (forall h' r, ext h h' -> Q h' r -> Q' h' r) -> wp p Q' h.
Proof.
  revert h; induction p as [r|c k IH]; intros h H HQ; simpl in *; [apply HQ; [constructor|done]|].
  intros past w Hx a w' Hs. destruct (H past w Hx a w' Hs) as [Hl Hk]. split; [done|].
  apply (IH a); [done|]. intros h' r Hx'. apply HQ.
  eapply ext_trans; [exact Hx|]. eapply ext_trans; [by apply ext_one, guar_legal|done].
Qed.

Lemma wp_bind {A B} (p : prog A) (f : A -> prog B) Q h :
  wp p (fun h r => match r with Ok a => wp (f a) Q h | Err e => Q h (Err e) end) h ->
  wp (p ≫= f) Q h.
Proof. intros H. apply wp_run. eapply wp_mono; [exact H|]. by intros h' [a|e] _. Qed.

Lemma wp_fmap {A B} (f : A -> B) (p : prog A) Q h :
  wp p (fun h r => match r with Ok a => Q h (Ok (f a)) | Err e => Q h (Err e) end) h ->
  wp (f <$> p) Q h.
Proof. intros H. apply wp_run. eapply wp_mono; [exact H|]. by intros h' [a|e] _. Qed.

Lemma wp_catch {A} (p : prog A) (hd : E -> prog A) Q h :
  wp p (fun h r => match r with Ok a => Q h (Ok a) | Err e => wp (hd e) Q h end) h ->
  wp (catch p hd) Q h.
Proof. intros H. apply wp_run. eapply wp_mono; [exact H|]. by intros h' [a|e] _. Qed.

Lemma wp_attempt {A} (p : prog A) Q h :
  wp p (fun h r => Q h (Ok r)) h -> wp (attempt p) Q h.
Proof. intros H. by apply wp_run. Qed.

Lemma wp_ext {A} (p : prog A) Q h h' : stable Q -> ext h h' -> wp p Q h -> wp p Q h'.
Proof.
  intros HQ Hx. destruct p as [r|c k]; simpl; [by apply HQ|].
  intros H past w Hx'. apply H. by eapply ext_trans.
Qed.

End guarantee.

(** ** Systems of interleaved programs *)

Context {Op R : Type} (code : Op -> prog R).

Definition system := (list W * list (Op * prog R))%type.

Context (may_start : Op -> list W -> Prop).

Inductive sys_step : system -> system -> Prop :=
  | sys_start h ts o : may_start o h -> sys_step (h, ts) (h, ts ++ [(o, code o)])
  | sys_call w past ts i o c (k : ans c -> prog R) a w' :
      ts !! i = Some (o, Call c k) -> step w c a w' ->
      sys_step (w :: past, ts) (w' :: w :: past, <[i := (o, k a)]> ts).

Inductive sys_reachable (w0 : W) : system -> Prop :=
  | sys_init : sys_reachable w0 ([w0], [])
  | sys_more s s' : sys_reachable w0 s -> sys_step s s' -> sys_reachable w0 s'.

Context (Q : Op -> list W -> result E R -> Prop).
Hypothesis Q_stable : forall o, stable (Q o).

(** If every operation that may start satisfies its [wp], then in every reachable state the
    history consists of legal changes and every finished operation satisfies its
    postcondition. *)
Lemma system_inv w0 h ts :
  (forall o h, ext [w0] h -> may_start o h -> wp legal (code o) (Q o) h) ->
  sys_reachable w0 (h, ts) ->
  ext [w0] h /\ Forall (fun t => wp legal (snd t) (Q (fst t)) h) ts.
Proof.
  intros Hops Hr. remember (h, ts) as s eqn:Hs. revert h ts Hs.
  induction Hr as [|s s' _ IH Hst]; intros h ts Hs; [injection Hs as <- <-; repeat constructor|].
  destruct Hst as [h0 ts0 o Hm|w past ts0 i o c k a w' Hi Hc];
    injection Hs as <- <-; destruct (IH _ _ eq_refl) as [Hx Hts].
  - split; [done|]. apply Forall_app. split; [done|]. repeat constructor. by apply Hops.
  - assert (Hk := Hts). rewrite Forall_lookup in Hk. apply Hk in Hi. simpl in Hi.
    destruct (Hi past w (ext_refl _) a w' Hc) as [Hl Hwp]. split; [by constructor|].
    apply Forall_insert; [|done]. eapply Forall_impl; [exact Hts|].
    intros [o' p']. simpl. apply wp_ext; [done|]. by apply ext_one.
Qed.
End logic.
End prog.

Arguments prog {C} ans E A : assert.
Arguments Done {C ans E A} r.
Arguments Call {C ans E A} c k.
Arguments ext {W} legal h h'.

Arguments throw {C ans E A} e.
