(* ===== verification/Storage.v ===== *)
(** * storage/api.py, storage/fencing.py and storage/s3.py: fenced snapshot storage

    Registry documents and commit records with their strict validation, and the operations of
    [S3Storage] as programs over the calls they make: conditional PUTs and GETs of the bucket,
    the clock, the read cache and the private staging file.  What boto3 and the bucket do is
    not defined here (see StorageLogic.v for the laws assumed of them); [asyncio] cancellation
    is not modelled. *)

From S2P Require Import Prelude Sha256 PyJson PyLoads Config StateRefs Effects.
From Stdlib Require Import Ascii.
Local Open Scope Z_scope.

(** ** Receipts and leases (storage/api.py) *)

Record WriterLease :=
  { wl_ref : StateRef; wl_writer_instance_id : string; wl_epoch : Z; wl_base_etag : option string }.

Record PersistReceipt :=
  { pr_ref : StateRef; pr_snapshot_id : string; pr_writer_epoch : Z; pr_generation : Z;
    pr_etag : string; pr_checksum : string; pr_size : Z; pr_version : Z;
    pr_committed_at : option string; pr_expires_at : option string }.

#[export] Instance persist_receipt_eq_dec : EqDecision PersistReceipt.
Proof. solve_decision. Defined.

(** ** The registry document (storage/fencing.py) *)

Record LatestEntry :=
  { le_snapshot_id : string; le_checksum : string; le_size : Z; le_version : Z;
    le_committed_at : option string; le_expires_at : option string }.

#[export] Instance latest_entry_eq_dec : EqDecision LatestEntry.
Proof. solve_decision. Defined.

Record RegistryDoc :=
  { rd_writer_epoch : Z; rd_writer_instance_id : string; rd_generation : Z;
    rd_latest : option LatestEntry }.

#[export] Instance registry_doc_eq_dec : EqDecision RegistryDoc.
Proof. solve_decision. Defined.

(** [RegistryDoc.empty(writer_instance_id)] *)
Definition RegistryDoc_empty (writer_instance_id : string) : RegistryDoc :=
  {| rd_writer_epoch := 1; rd_writer_instance_id := writer_instance_id; rd_generation := 1;
     rd_latest := None |}.

Definition with_new_writer (d : RegistryDoc) (writer_instance_id : string) : RegistryDoc :=
  {| rd_writer_epoch := rd_writer_epoch d + 1; rd_writer_instance_id := writer_instance_id;
     rd_generation := rd_generation d + 1; rd_latest := rd_latest d |}.

Definition with_committed_snapshot (d : RegistryDoc) (epoch : Z) (writer_instance_id : string)
    (entry : LatestEntry) : RegistryDoc :=
  {| rd_writer_epoch := epoch; rd_writer_instance_id := writer_instance_id;
     rd_generation := rd_generation d + 1; rd_latest := Some entry |}.

Definition assert_lease_current (doc : option RegistryDoc) (lease : WriterLease)
    : result exn RegistryDoc :=
  match doc with
  | None => Err WriterFenced
  | Some d =>
      if negb (rd_writer_epoch d =? wl_epoch lease) then Err WriterFenced
      else if negb (String.eqb (rd_writer_instance_id d) (wl_writer_instance_id lease))
      then Err WriterFenced
      else Ok d
  end.

(** ** Retention dates

    [datetime] is observed through [fromisoformat] (an aware value is its UTC instant in
    microseconds, a naive one is [Some None]) and [isoformat] of UTC values. *)
Class PyDatetime := {
  fromisoformat : string -> option (option Z);
  isoformat_utc : Z -> string;
  iso_body : Z -> string;
  (** The instants a [datetime] can hold. *)
  in_range : Z -> bool;
  (** [isoformat()] of a UTC value ends in its only [+00:00], and is read back. *)
  isoformat_utc_suffix : forall t, in_range t = true ->
    find_sub "+00:00" (isoformat_utc t) = Some (iso_body t, "");
  fromisoformat_isoformat : forall t, in_range t = true ->
    fromisoformat (isoformat_utc t) = Some (Some t)
}.

(** [s.replace(old, new)]; each round consumes at least one character when [old] has one. *)
Fixpoint replace_fuel (fuel : nat) (old new s : string) : string :=
  match fuel with
  | O => s
  | S fuel =>
      match find_sub old s with
      | None => s
      | Some (pre, rest) => pre +:+ new +:+ replace_fuel fuel old new rest
      end
  end.
Definition str_replace (old new s : string) : string := replace_fuel (S (String.length s)) old new s.

(** [s[:-1]] and [s.endswith("Z")]. *)
Fixpoint str_init (s : string) : string :=
  match s with
  | EmptyString => ""
  | String _ EmptyString => ""
  | String a s => String a (str_init s)
  end.
Fixpoint ends_with_char (c : ascii) (s : string) : bool :=
  match s with
  | EmptyString => false
  | String a EmptyString => Ascii.eqb a c
  | String _ s => ends_with_char c s
  end.

Section dates.
Context `{PyDatetime}.

Definition _format_retention_date (value : Z) : result exn string :=
  if in_range value then Ok (str_replace "+00:00" "Z" (isoformat_utc value)) else Err OverflowError.

Definition _parse_retention_date (nullable : bool) (value : json) : result exn (option string) :=
  match value with
  | JNull => if nullable then Ok None else Err RestoreFailed
  | JStr s =>
      if negb (truthy s) then Err RestoreFailed
      else match fromisoformat (if ends_with_char "Z" s then str_init s +:+ "+00:00" else s) with
           | None => Err RestoreFailed
           | Some None => Err RestoreFailed
           | Some (Some t) => Some <$> _format_retention_date t
           end
  | _ => Err RestoreFailed
  end.

(** [datetime.fromisoformat(s[:-1] + "+00:00")], compared with other aware values. *)
Definition instant_of (s : string) : result exn Z :=
  match fromisoformat (str_init s +:+ "+00:00") with
  | Some (Some t) => Ok t
  | Some None => Err TypeError
  | None => Err ValueError
  end.

Definition _validate_retention_metadata (d : list (string * json))
    : result exn (option string * option string) :=
  match assoc "committed_at" d, assoc "expires_at" d with
  | None, None => Ok (None, None)
  | Some c, Some e =>
      committed_at ← _parse_retention_date false c;
      expires_at ← _parse_retention_date true e;
      match committed_at, expires_at with
      | Some c, Some e =>
          te ← instant_of e; tc ← instant_of c;
          if te <? tc then Err RestoreFailed else Ok (committed_at, expires_at)
      | _, _ => Ok (committed_at, expires_at)
      end
  | _, _ => Err RestoreFailed
  end.

Definition _validate_retention_days (retention_days : Z) : result exn unit :=
  require (0 <=? retention_days) ValueError.

(** [_SHA256_HEX]: exactly 64 lower-case hexadecimal digits ([\Z]). *)
Definition _SHA256_HEX (v : string) : bool := hex64 v.

(** A non-empty [str] and an [int] that is not a [bool] and is at least [lo]. *)
Definition nonempty_str (j : json) : result exn string :=
  match j with JStr s => if truthy s then Ok s else Err RestoreFailed | _ => Err RestoreFailed end.
Definition int_at_least (lo : Z) (j : json) : result exn Z :=
  match j with JInt z => if lo <=? z then Ok z else Err RestoreFailed | _ => Err RestoreFailed end.
Definition sha256_str (j : json) : result exn string :=
  match j with JStr s => if _SHA256_HEX s then Ok s else Err RestoreFailed | _ => Err RestoreFailed end.

(** [data[key]] after the check that no required key is missing. *)
Definition field (k : string) (d : list (string * json)) : result exn json :=
  opt_or RestoreFailed (assoc k d).

Definition _validate_latest_entry (data : json) : result exn LatestEntry :=
  match data with
  | JObj d =>
      snapshot_id ← field "snapshot_id" d; checksum ← field "checksum" d;
      size ← field "size" d; version ← field "version" d;
      snapshot_id ← nonempty_str snapshot_id;
      checksum ← sha256_str checksum;
      size ← int_at_least 0 size;
      version ← int_at_least 1 version;
      '(committed_at, expires_at) ← _validate_retention_metadata d;
      Ok {| le_snapshot_id := snapshot_id; le_checksum := checksum; le_size := size;
            le_version := version; le_committed_at := committed_at; le_expires_at := expires_at |}
  | _ => Err RestoreFailed
  end.

Definition _validate_registry_doc (data : json) : result exn RegistryDoc :=
  match data with
  | JObj d =>
      writer_epoch ← field "writer_epoch" d; writer_instance_id ← field "writer_instance_id" d;
      generation ← field "generation" d; latest_raw ← field "latest" d;
      writer_epoch ← int_at_least 1 writer_epoch;
      writer_instance_id ← nonempty_str writer_instance_id;
      generation ← int_at_least 1 generation;
      latest ← match latest_raw with
               | JNull => Ok None
               | _ => Some <$> _validate_latest_entry latest_raw
               end;
      Ok {| rd_writer_epoch := writer_epoch; rd_writer_instance_id := writer_instance_id;
            rd_generation := generation; rd_latest := latest |}
  | _ => Err RestoreFailed
  end.

(** The validated fields of a commit record, [PersistReceipt] without its [ref]. *)
Definition _validate_commit_record (ref : StateRef) (data : json) : result exn PersistReceipt :=
  match data with
  | JObj d =>
      snapshot_id ← field "snapshot_id" d; writer_epoch ← field "writer_epoch" d;
      generation ← field "generation" d; etag ← field "etag" d;
      checksum ← field "checksum" d; size ← field "size" d; version ← field "version" d;
      snapshot_id ← nonempty_str snapshot_id;
      writer_epoch ← int_at_least 1 writer_epoch;
      generation ← int_at_least 1 generation;
      version ← int_at_least 1 version;
      size ← int_at_least 0 size;
      etag ← nonempty_str etag;
      checksum ← sha256_str checksum;
      '(committed_at, expires_at) ← _validate_retention_metadata d;
      Ok {| pr_ref := ref; pr_snapshot_id := snapshot_id; pr_writer_epoch := writer_epoch;
            pr_generation := generation; pr_etag := etag; pr_checksum := checksum;
            pr_size := size; pr_version := version; pr_committed_at := committed_at;
            pr_expires_at := expires_at |}
  | _ => Err RestoreFailed
  end.
End dates.

(** ** The calls an operation makes *)

(** An exception of the S3 client: its error code (empty without a [response]), the name of
    its class, and whether it is a [TimeoutError] or [ConnectionError]. *)
Record client_error := { ce_code : string; ce_type : string; ce_connection : bool }.

Inductive serr := PyErr (e : exn) | ClientErr (e : client_error).

Definition _error_code (e : serr) : string :=
  match e with ClientErr e => ce_code e | PyErr _ => "" end.

Definition _is_not_found (e : serr) : bool :=
  in_strs (_error_code e) ["404"; "NoSuchKey"; "NotFound"].

Definition _is_precondition_failed (e : serr) : bool :=
  in_strs (_error_code e) ["PreconditionFailed"; "412"; "ConditionalRequestConflict"].

Definition _TRANSIENT_CODES : list string :=
  ["408"; "429"; "500"; "502"; "503"; "504"; "RequestTimeout"; "RequestTimeoutException";
   "SlowDown"; "InternalError"; "ServiceUnavailable"].
Definition _TRANSIENT_SDK_ERRORS : list string :=
  ["EndpointConnectionError"; "ConnectionClosedError"; "ConnectTimeoutError";
   "ReadTimeoutError"; "HTTPClientError"].

Definition _is_snapshot_transient (e : serr) : bool :=
  match e with
  | PyErr TimeoutError | PyErr ConnectionError => true
  | PyErr _ => false
  | ClientErr e => ce_connection e || in_strs (ce_type e) _TRANSIENT_SDK_ERRORS
  end || in_strs (_error_code e) _TRANSIENT_CODES.

Inductive put_cond := IfNoneMatch | IfMatch (etag : string).

(** Steps on a private staging file, each in its own worker ([_run_owned]). *)
Inductive staging_op := NewStagingPath | OpenStaging | WriteStaging | CloseStaging | HashStaging
  | ReadStaging | Unlink.

Inductive storage_call :=
  | GetObject (key : string)
  | PutObject (key body : string) (cond : put_cond) (metadata : list (string * string))
  | HeadObject (key : string)
  | ClockNow
  | CacheGet (registry_key : string) (version : Z) (expected_checksum : string)
  | CachePut (registry_key : string) (version : Z) (data : string)
  | StagingStep (op : staging_op).

(** Body and ETag of a GET; ETag of a PUT; [ContentLength] and [Metadata] of a HEAD. *)
Definition answer (c : storage_call) : Type :=
  match c with
  | GetObject _ => result client_error (string * string)
  | PutObject _ _ _ _ => result client_error string
  | HeadObject _ => result client_error (option Z * list (string * string))
  | ClockNow => Z
  | CacheGet _ _ _ => result exn (option string)
  | CachePut _ _ _ => result exn unit
  | StagingStep _ => result exn unit
  end.

Abbreviation sprog := (prog answer serr).

Definition py {A} (r : result exn A) : sprog A :=
  match r with Ok a => mret a | Err e => throw (PyErr e) end.
Definition client {A} (r : result client_error A) : sprog A :=
  match r with Ok a => mret a | Err e => throw (ClientErr e) end.

Definition get_object (key : string) : sprog (string * string) := call (GetObject key) ≫= client.
Definition put_object key body cond metadata : sprog string :=
  call (PutObject key body cond metadata) ≫= client.
Definition head_object (key : string) : sprog (option Z * list (string * string)) :=
  call (HeadObject key) ≫= client.
Definition clock : sprog Z := call ClockNow.
Definition staging (op : staging_op) : sprog unit := call (StagingStep op) ≫= py.

Definition len (s : string) : Z := Z.of_nat (String.length s).

(** The caller's [AsyncIterator[bytes]]: the chunks it yields, and the exception it may end in. *)
Record byte_stream := { bs_chunks : list string; bs_raises : option exn }.

(** [write_capped] (storage/archive.py): the bytes written, or the exception; the partial file
    is removed on any failure, and the first failure is the one raised. *)
Fixpoint write_chunks (max_bytes total : Z) (written : string) (chunks : list string)
    (ends : option exn) : sprog string :=
  match chunks with
  | [] => match ends with Some e => throw (PyErr e) | None => mret written end
  | chunk :: chunks =>
      let total := total + len chunk in
      if max_bytes <? total then throw (PyErr ArchiveTooLarge)
      else staging WriteStaging ≫= fun _ =>
           write_chunks max_bytes total (written +:+ chunk) chunks ends
  end.
Definition write_capped (s : byte_stream) (max_bytes : Z) : sprog string :=
  let fail e := attempt (staging Unlink) ≫= fun _ => throw e in
  opened ← attempt (staging OpenStaging);
  match opened with
  | Err e => fail e
  | Ok _ =>
      written ← attempt (write_chunks max_bytes 0 "" (bs_chunks s) (bs_raises s));
      closed ← attempt (staging CloseStaging);
      match written, closed with
      | Ok dest, Ok _ => mret dest
      | Ok _, Err e => fail e
      | Err e, _ => fail e
      end
  end.

(** [_receive_bounded]: the staged bytes, their checksum and size. *)
Definition _receive_bounded (s : byte_stream) (max_bytes : Z) : sprog (string * string * Z) :=
  staging NewStagingPath ≫= fun _ =>
  dest ← write_capped s max_bytes;
  catch (staging HashStaging) (fun e => attempt (staging Unlink) ≫= fun _ => throw e) ≫= fun _ =>
  mret (dest, sha256_hex dest, len dest).

(** [_fetch_with_etag] and [_download_capped]: the body, or the error of a body over the cap. *)
Definition _fetch_with_etag (key : string) (max_bytes : Z) : sprog (string * string) :=
  '(raw, etag) ← get_object key;
  if max_bytes <? len raw then throw (PyErr RestoreFailed) else mret (raw, etag).
Definition _download_capped (key : string) (max_bytes : Z) : sprog string :=
  '(body, _) ← get_object key;
  staging WriteStaging ≫= fun _ =>
  if max_bytes <? len body then throw (PyErr ArchiveTooLarge) else mret body.

(** ** S3Storage *)

Definition _CAS_RETRY_LIMIT : nat := 20.
Definition _MAX_REGISTRY_BYTES : Z := 64 * 1024.
Definition _DEFAULT_MAX_SNAPSHOT_BYTES : Z := 512 * 1024 * 1024.

(** The fields of an instance; a client and a cache are configured or not. *)
Record S3Storage :=
  { st_bucket : option string; st_prefix : string; st_client : bool; st_cache : bool;
    st_max_snapshot_bytes : Z }.

(** [S3Storage.__init__] strips the prefix. *)
Definition new_S3Storage bucket prefix client cache max_snapshot_bytes : S3Storage :=
  {| st_bucket := bucket; st_prefix := strip_slash prefix; st_client := client; st_cache := cache;
     st_max_snapshot_bytes := max_snapshot_bytes |}.

Definition opt_json (o : option string) : json := match o with Some s => JStr s | None => JNull end.

(** [asdict(doc)], without the retention fields of a legacy snapshot. *)
Definition latest_document (e : LatestEntry) : json :=
  JObj ([("snapshot_id", JStr (le_snapshot_id e)); ("checksum", JStr (le_checksum e));
         ("size", JInt (le_size e)); ("version", JInt (le_version e))]
        ++ match le_committed_at e with
           | None => []
           | Some c => [("committed_at", JStr c); ("expires_at", opt_json (le_expires_at e))]
           end).
Definition registry_document (d : RegistryDoc) : json :=
  JObj [("writer_epoch", JInt (rd_writer_epoch d));
        ("writer_instance_id", JStr (rd_writer_instance_id d));
        ("generation", JInt (rd_generation d));
        ("latest", match rd_latest d with Some e => latest_document e | None => JNull end)].

Definition commit_document (r : PersistReceipt) : json :=
  JObj ([("snapshot_id", JStr (pr_snapshot_id r)); ("writer_epoch", JInt (pr_writer_epoch r));
         ("generation", JInt (pr_generation r)); ("etag", JStr (pr_etag r));
         ("checksum", JStr (pr_checksum r)); ("size", JInt (pr_size r));
         ("version", JInt (pr_version r))]
        ++ match pr_committed_at r with
           | None => []
           | Some c => [("committed_at", JStr c); ("expires_at", opt_json (pr_expires_at r))]
           end).

Definition _receipt_from (ref : StateRef) (doc : RegistryDoc) (etag : string) (retention_days : Z)
    : result exn PersistReceipt :=
  match rd_latest doc with
  | None => Err AssertionError
  | Some e =>
      if (0 <? retention_days) && bool_decide (le_committed_at e = None) then Err RestoreFailed
      else Ok {| pr_ref := ref; pr_snapshot_id := le_snapshot_id e;
                 pr_writer_epoch := rd_writer_epoch doc; pr_generation := rd_generation doc;
                 pr_etag := etag; pr_checksum := le_checksum e; pr_size := le_size e;
                 pr_version := le_version e; pr_committed_at := le_committed_at e;
                 pr_expires_at := le_expires_at e |}
  end.

(** [current.latest] is exactly the snapshot being committed. *)
Definition is_latest (o : option LatestEntry) (snapshot_id checksum : string) (size : Z) : bool :=
  match o with
  | Some e => String.eqb (le_snapshot_id e) snapshot_id && String.eqb (le_checksum e) checksum
              && (le_size e =? size)
  | None => false
  end.

Section operations.
Context `{PyDatetime}.
(** [float(text)], reached only by registry objects this storage did not write. *)
Context (parse_float : string -> pyfloat).
Context (self : S3Storage).

Definition _require_client : result exn unit :=
  require (negb (bool_decide (st_bucket self = None)) && st_client self) StorageUnavailable.

Definition parse_registry (raw : string) : result exn RegistryDoc :=
  opt_or RestoreFailed (json_loads parse_float raw) ≫= _validate_registry_doc.
Definition parse_commit (ref : StateRef) (raw : string) : result exn PersistReceipt :=
  opt_or RestoreFailed (json_loads parse_float raw) ≫= _validate_commit_record ref.

(** [except Exception as exc: if _is_not_found(exc): return default; raise] *)
Definition not_found_is {A} (default : A) (p : sprog A) : sprog A :=
  catch p (fun e => if _is_not_found e then mret default else throw e).

Definition _read_registry (ref : StateRef) : sprog (option (RegistryDoc * string)) :=
  py _require_client ≫= fun _ =>
  fetched ← not_found_is None
              (Some <$> _fetch_with_etag (registry_key ref (st_prefix self)) _MAX_REGISTRY_BYTES);
  match fetched with
  | None => mret None
  | Some (raw, etag) => doc ← py (parse_registry raw); mret (Some (doc, etag))
  end.

Definition _read_commit_record (ref : StateRef) (snapshot_id : string) (retention_days : Z)
    : sprog (option PersistReceipt) :=
  py _require_client ≫= fun _ =>
  fetched ← not_found_is None
              (Some <$> _fetch_with_etag (commit_record_key ref (st_prefix self) snapshot_id)
                          _MAX_REGISTRY_BYTES);
  match fetched with
  | None => mret None
  | Some (raw, _) =>
      receipt ← py (parse_commit ref raw);
      if negb (String.eqb (pr_snapshot_id receipt) snapshot_id) then throw (PyErr RestoreFailed)
      else if (0 <? retention_days) && bool_decide (pr_committed_at receipt = None)
      then throw (PyErr RestoreFailed)
      else mret (Some receipt)
  end.

Definition _write_commit_record (ref : StateRef) (receipt : PersistReceipt) : sprog unit :=
  py _require_client ≫= fun _ =>
  written ← attempt (put_object (commit_record_key ref (st_prefix self) (pr_snapshot_id receipt))
                       (json_dumps (commit_document receipt)) IfNoneMatch []);
  match written with
  | Ok _ => mret tt
  | Err e =>
      if negb (_is_precondition_failed e) then throw e
      else existing ← _read_commit_record ref (pr_snapshot_id receipt) 0;
           if bool_decide (existing = Some receipt) then mret tt else throw (PyErr RestoreFailed)
  end.

Definition _cas_write_registry (ref : StateRef) (doc : RegistryDoc) (expected_etag : option string)
    : sprog string :=
  py _require_client ≫= fun _ =>
  catch (put_object (registry_key ref (st_prefix self)) (json_dumps (registry_document doc))
           (match expected_etag with None => IfNoneMatch | Some e => IfMatch e end) [])
        (fun e => if _is_precondition_failed e then throw (PyErr PreconditionFailed) else throw e).

(** Whether this call created the object, or an earlier attempt with the same [owner] did. *)
Definition _upload_snapshot_immutable (ref : StateRef) (snapshot_id dest checksum : string)
    (size : Z) (owner : list (string * string)) : sprog bool :=
  py _require_client ≫= fun _ =>
  let key := snapshot_key ref (st_prefix self) snapshot_id in
  put ← attempt (put_object key dest IfNoneMatch (("sha256", checksum) :: owner));
  match put with
  | Ok _ => mret true
  | Err e =>
      if negb (_is_precondition_failed e) then throw e
      else '(content_length, metadata) ← head_object key;
           if negb (bool_decide (assoc "sha256" metadata = Some checksum))
              || negb (from_option id (-1) content_length =? size)
           then throw (PyErr SnapshotConflict)
           else mret (forallb (fun kv => bool_decide (assoc (fst kv) metadata = Some (snd kv))) owner)
  end.

Definition _reconciled_receipt_if_applied (ref : StateRef) (lease : WriterLease)
    (snapshot_id checksum : string) (size retention_days : Z)
    : sprog (option PersistReceipt * RegistryDoc) :=
  read ← _read_registry ref;
  refreshed ← py (assert_lease_current (fst <$> read) lease);
  let refreshed_etag := from_option snd "" read in
  if is_latest (rd_latest refreshed) snapshot_id checksum size then
    receipt ← py (_receipt_from ref refreshed refreshed_etag retention_days);
    _write_commit_record ref receipt ≫= fun _ => mret (Some receipt, refreshed)
  else mret (None, refreshed).

Definition current_writer (ref : StateRef) : sprog (option string) :=
  py _require_client ≫= fun _ =>
  doc ← _read_registry ref;
  mret (match doc with Some (d, _) => Some (rd_writer_instance_id d) | None => None end).

(** [except Exception as exc: if _is_snapshot_transient(exc): raise SnapshotTransientFailure] *)
Definition transient_guard {A} (p : sprog A) : sprog A :=
  catch p (fun e => if _is_snapshot_transient e then throw (PyErr SnapshotTransientFailure)
                    else throw e).

Definition is_precondition (e : serr) : bool :=
  match e with PyErr PreconditionFailed => true | _ => false end.

(** One iteration per remaining retry; [rejected] is the ETag the last CAS lost with. *)
Fixpoint acquire_loop (retries : nat) (ref : StateRef) (writer_instance_id : string)
    (rejected : option string) : sprog WriterLease :=
  match retries with
  | O => throw (PyErr RuntimeError)
  | S retries =>
      read ← transient_guard (_read_registry ref);
      let etag := snd <$> read in
      if negb (bool_decide (etag = None)) && bool_decide (etag = rejected)
      then throw (PyErr RuntimeError)
      else
        let new_doc := match read with
                       | Some (current, _) => with_new_writer current writer_instance_id
                       | None => RegistryDoc_empty writer_instance_id
                       end in
        cas ← attempt (_cas_write_registry ref new_doc etag);
        match cas with
        | Ok new_etag =>
            mret {| wl_ref := ref; wl_writer_instance_id := writer_instance_id;
                    wl_epoch := rd_writer_epoch new_doc;
                    wl_base_etag := match rd_latest new_doc with
                                    | Some _ => Some new_etag | None => None end |}
        | Err e =>
            if is_precondition e then acquire_loop retries ref writer_instance_id etag
            else transient_guard (throw e)
        end
  end.

Definition acquire_writer (ref : StateRef) (writer_instance_id : string) : sprog WriterLease :=
  py _require_client ≫= fun _ => acquire_loop _CAS_RETRY_LIMIT ref writer_instance_id None.

(** [committed_dt + timedelta(days=retention_days)] *)
Definition day_us : Z := 86400 * 1000000.
Definition expiry_of (committed_at : string) (retention_days : Z) : result exn (option string) :=
  committed_dt ← instant_of committed_at;
  if 0 <? retention_days
  then Some <$> _format_retention_date (committed_dt + retention_days * day_us)
  else Ok None.

(** The commit of the staged bytes [dest], inside [persist]. *)
Definition _commit (ref : StateRef) (snapshot_id dest checksum : string) (size : Z)
    (lease : WriterLease) (expected_base : option string) (retention_days : Z)
    (current : RegistryDoc) (current_etag : string) : sprog PersistReceipt :=
  historical ← _read_commit_record ref snapshot_id retention_days;
  match historical with
  | Some historical =>
      if String.eqb (pr_checksum historical) checksum && (pr_size historical =? size)
      then mret historical
      else throw (PyErr SnapshotConflict)
  | None =>
  if is_latest (rd_latest current) snapshot_id checksum size then
    receipt ← py (_receipt_from ref current current_etag retention_days);
    _write_commit_record ref receipt ≫= fun _ => mret receipt
  else
  let owner := [("writer-epoch", str_of_int (wl_epoch lease));
                ("writer-instance-id", wl_writer_instance_id lease);
                ("base-generation", str_of_int (rd_generation current))] in
  uploaded ← _upload_snapshot_immutable ref snapshot_id dest checksum size owner;
  if negb uploaded then throw (PyErr ConcurrentModification) else
  base ← match expected_base with
         | None => match rd_latest current with
                   | Some _ => throw (PyErr ConcurrentModification)
                   | None => mret current_etag
                   end
         | Some base => mret base
         end;
  let new_version := match rd_latest current with Some e => le_version e | None => 0 end + 1 in
  now ← clock;
  committed_at ← py (_format_retention_date now);
  expires_at ← py (expiry_of committed_at retention_days);
  let new_doc := with_committed_snapshot current (wl_epoch lease) (wl_writer_instance_id lease)
    {| le_snapshot_id := snapshot_id; le_checksum := checksum; le_size := size;
       le_version := new_version; le_committed_at := Some committed_at;
       le_expires_at := expires_at |} in
  cas ← attempt (_cas_write_registry ref new_doc (Some base));
  match cas with
  | Ok new_etag =>
      let receipt := {| pr_ref := ref; pr_snapshot_id := snapshot_id;
        pr_writer_epoch := wl_epoch lease; pr_generation := rd_generation new_doc;
        pr_etag := new_etag; pr_checksum := checksum; pr_size := size;
        pr_version := new_version; pr_committed_at := Some committed_at;
        pr_expires_at := expires_at |} in
      _write_commit_record ref receipt ≫= fun _ => mret receipt
  | Err e =>
      '(receipt, refreshed) ← _reconciled_receipt_if_applied ref lease snapshot_id checksum size
                                retention_days;
      match receipt with
      | Some receipt => mret receipt
      | None =>
          if is_precondition e then throw (PyErr ConcurrentModification)
          else if bool_decide (rd_latest refreshed = rd_latest current) then throw e
          else throw (PyErr ConcurrentModification)
      end
  end
  end.

(** The end of [persist]: the staging file is removed, then the commit's own outcome wins. *)
Definition is_transient_failure (e : serr) : bool :=
  match e with PyErr SnapshotTransientFailure => true | _ => false end.
Definition finish_persist (outcome : result serr PersistReceipt) : sprog PersistReceipt :=
  unlinked ← attempt (staging Unlink);
  match outcome with
  | Err e =>
      if is_transient_failure e then throw e
      else if _is_snapshot_transient e then throw (PyErr SnapshotTransientFailure) else throw e
  | Ok receipt => match unlinked with Err e => throw e | Ok _ => mret receipt end
  end.

Definition persist (ref : StateRef) (snapshot_id : string) (stream : byte_stream)
    (lease : WriterLease) (expected_base : option string) (retention_days : Z)
    : sprog PersistReceipt :=
  py (_validate_retention_days retention_days) ≫= fun _ =>
  if negb (bool_decide (wl_ref lease = ref)) then throw (PyErr WriterFenced) else
  read ← transient_guard (_read_registry ref);
  current ← py (assert_lease_current (fst <$> read) lease);
  let current_etag := from_option snd "" read in
  '(dest, checksum, size) ← _receive_bounded stream (st_max_snapshot_bytes self);
  outcome ← attempt (_commit ref snapshot_id dest checksum size lease expected_base
                       retention_days current current_etag);
  finish_persist outcome.

Definition _check_snapshot_expiry (latest : LatestEntry) (now : Z) : result exn unit :=
  match le_expires_at latest with
  | None => Ok tt
  | Some expires_at =>
      now_utc ← _format_retention_date now;
      t ← instant_of now_utc; te ← instant_of expires_at;
      if te <=? t then Err SnapshotExpired else Ok tt
  end.

Definition check_expiry_now (latest : LatestEntry) : sprog unit :=
  now ← clock; py (_check_snapshot_expiry latest now).

Record RestoreReceipt :=
  { rr_ref : StateRef; rr_snapshot_id : string; rr_writer_epoch : Z; rr_generation : Z;
    rr_etag : string; rr_checksum : string; rr_size : Z; rr_version : Z;
    rr_open : sprog string; rr_committed_at : option string; rr_expires_at : option string }.

(** The [try] body of [_open]: download, size, checksum, read back. *)
Definition verified_payload (ref : StateRef) (latest : LatestEntry) : sprog string :=
  payload ← _download_capped (snapshot_key ref (st_prefix self) (le_snapshot_id latest))
              (st_max_snapshot_bytes self);
  if negb (len payload =? le_size latest) then throw (PyErr RestoreFailed) else
  staging HashStaging ≫= fun _ =>
  if negb (String.eqb (sha256_hex payload) (le_checksum latest))
  then throw (PyErr RestoreFailed)
  else staging ReadStaging ≫= fun _ => mret payload.

Definition cache_put (ref : StateRef) (latest : LatestEntry) (payload : string) : sprog unit :=
  if st_cache self
  then call (CachePut (registry_key ref (st_prefix self)) (le_version latest) payload) ≫= py
  else mret tt.

(** The generator behind [RestoreReceipt.open]: the one chunk it yields. *)
Definition _open (ref : StateRef) (latest : LatestEntry) (cached : option string) : sprog string :=
  check_expiry_now latest ≫= fun _ =>
  match cached with
  | Some data => mret data
  | None =>
      staging NewStagingPath ≫= fun _ =>
      outcome ← attempt (verified_payload ref latest);
      unlinked ← attempt (staging Unlink);
      match outcome, unlinked with
      | Err e, _ => throw e
      | _, Err e => throw e
      | Ok payload, Ok _ =>
          check_expiry_now latest ≫= fun _ =>
          cache_put ref latest payload ≫= fun _ =>
          check_expiry_now latest ≫= fun _ => mret payload
      end
  end.

Definition cache_get (ref : StateRef) (latest : LatestEntry) : sprog (option string) :=
  if st_cache self
  then call (CacheGet (registry_key ref (st_prefix self)) (le_version latest)
               (le_checksum latest)) ≫= py
  else mret None.

(** On a cache miss, the snapshot object must be there with the registered size. *)
Definition check_object (ref : StateRef) (latest : LatestEntry) (cached : option string) : sprog unit :=
  match cached with
  | Some _ => mret tt
  | None =>
      '(content_length, _) ←
        catch (head_object (snapshot_key ref (st_prefix self) (le_snapshot_id latest)))
          (fun e => if _is_not_found e then throw (PyErr RestoreFailed) else throw e);
      if negb (from_option id (-1) content_length =? le_size latest)
      then throw (PyErr RestoreFailed) else mret tt
  end.

Definition restore (ref : StateRef) (retention_days : Z) : sprog (option RestoreReceipt) :=
  py (_validate_retention_days retention_days) ≫= fun _ =>
  py _require_client ≫= fun _ =>
  read ← _read_registry ref;
  match read with
  | None => mret None
  | Some (doc, etag) =>
  match rd_latest doc with
  | None => mret None
  | Some latest =>
  if (0 <? retention_days) && bool_decide (le_committed_at latest = None)
  then throw (PyErr RestoreFailed) else
  check_expiry_now latest ≫= fun _ =>
  if st_max_snapshot_bytes self <? le_size latest then throw (PyErr RestoreFailed) else
  cached ← cache_get ref latest;
  check_object ref latest cached ≫= fun _ =>
  mret (Some {| rr_ref := ref; rr_snapshot_id := le_snapshot_id latest;
                rr_writer_epoch := rd_writer_epoch doc; rr_generation := rd_generation doc;
                rr_etag := etag; rr_checksum := le_checksum latest; rr_size := le_size latest;
                rr_version := le_version latest; rr_open := _open ref latest cached;
                rr_committed_at := le_committed_at latest; rr_expires_at := le_expires_at latest |})
  end end.
End operations.
