(* ===== verification/StorageDocs.v ===== *)
(** * Registry documents and commit records: validation and round trips

    The strict readers accept exactly well-formed documents, and read back what the writers
    wrote. *)

From S2P Require Import Prelude Sha256 PyJson PyLoads Config StateRefs Effects Storage.
From Stdlib Require Import Ascii.
Local Open Scope Z_scope.

(** ** Retention dates *)

Lemma str_init_snoc s a : str_init (s +:+ String a "") = s.
Proof.
  induction s as [|b s IH]; [done|]. rewrite str_app_cons. cbn [str_init]. rewrite IH.
  by destruct s.
Qed.

Lemma ends_with_snoc s a : ends_with_char a (s +:+ String a "") = true.
Proof.
  induction s as [|b s IH]; [apply Ascii.eqb_refl|]. rewrite str_app_cons.
  cbn [ends_with_char]. destruct (s +:+ String a "") eqn:E; [|done]. by destruct s.
Qed.

Section docs.
Context `{PyDatetime}.

(** The text [_format_retention_date] writes for the instant [t]. *)
Definition date_text (t : Z) : string := iso_body t +:+ "Z".

Lemma isoformat_utc_eq t : in_range t = true -> isoformat_utc t = iso_body t +:+ "+00:00".
Proof.
  intros Ht. pose proof (isoformat_utc_suffix t Ht) as E. apply find_sub_eq in E.
  by rewrite str_app_nil_r in E.
Qed.

Lemma format_in_range t s :
  _format_retention_date t = Ok s <-> in_range t = true /\ s = date_text t.
Proof.
  unfold _format_retention_date, str_replace. destruct (in_range t) eqn:E; [|naive_solver].
  cbn [replace_fuel]. rewrite isoformat_utc_suffix by done.
  assert (Hr : forall n, replace_fuel n "+00:00" "Z" "" = "") by (by intros []).
  rewrite Hr, str_app_nil_r. unfold date_text. split; [by intros [= <-]|by intros [_ ->]].
Qed.

Lemma instant_of_date t : in_range t = true -> instant_of (date_text t) = Ok t.
Proof.
  intros Ht. unfold instant_of, date_text. rewrite str_init_snoc, <- isoformat_utc_eq by done.
  by rewrite fromisoformat_isoformat.
Qed.

Lemma parse_date_text b t :
  in_range t = true -> _parse_retention_date b (JStr (date_text t)) = Ok (Some (date_text t)).
Proof.
  intros Ht. unfold _parse_retention_date.
  assert (Hne : truthy (date_text t) = true).
  { apply truthy_true. unfold date_text. by destruct (iso_body t). }
  rewrite Hne. cbn [negb]. unfold date_text at 1 2 3. rewrite ends_with_snoc, str_init_snoc.
  rewrite <- isoformat_utc_eq, fromisoformat_isoformat by done.
  by rewrite (proj2 (format_in_range t (date_text t))).
Qed.

Lemma parse_date_inv b j o :
  _parse_retention_date b j = Ok o ->
  (o = None /\ b = true) \/ exists t, in_range t = true /\ o = Some (date_text t).
Proof.
  unfold _parse_retention_date. destruct j; try done.
  - destruct b; [|done]. intros [= <-]. by left.
  - destruct (negb _); [done|]. destruct (fromisoformat _) as [[t|]|]; try done.
    intros Hf. apply fmap_ok in Hf as (s' & Hf & ->). apply format_in_range in Hf as [Ht ->].
    right. by exists t.
Qed.

(** Retention fields as the storage writes them: none (a legacy snapshot), or a commit date
    and an expiry date that is not earlier. *)
Definition dates_ok (committed_at expires_at : option string) : Prop :=
  match committed_at, expires_at with
  | None, None => True
  | Some c, None => exists t, in_range t = true /\ c = date_text t
  | Some c, Some e => exists t t', in_range t = true /\ in_range t' = true /\ t <= t'
                                  /\ c = date_text t /\ e = date_text t'
  | None, Some _ => False
  end.

(** The two members a writer appends for the retention fields. *)
Definition date_members (committed_at expires_at : option string) : list (string * json) :=
  match committed_at with
  | None => []
  | Some c => [("committed_at", JStr c); ("expires_at", opt_json expires_at)]
  end.

Lemma validate_retention_written c e d :
  dates_ok c e ->
  assoc "committed_at" d = assoc "committed_at" (date_members c e) ->
  assoc "expires_at" d = assoc "expires_at" (date_members c e) ->
  _validate_retention_metadata d = Ok (c, e).
Proof.
  unfold _validate_retention_metadata. intros Hd -> ->. destruct c as [c|], e as [e|]; try done.
  - destruct Hd as (t & t' & Ht & Ht' & Hle & -> & ->). cbn -[_parse_retention_date instant_of].
    rewrite !parse_date_text by done. cbn -[instant_of].
    rewrite !instant_of_date by done. cbn. by rewrite (proj2 (Z.ltb_ge _ _)).
  - destruct Hd as (t & Ht & ->). cbn -[_parse_retention_date].
    rewrite parse_date_text by done. done.
Qed.

Lemma validate_retention_inv d c e : _validate_retention_metadata d = Ok (c, e) -> dates_ok c e.
Proof.
  unfold _validate_retention_metadata.
  destruct (assoc "committed_at" d) as [jc|], (assoc "expires_at" d) as [je|]; try done;
    [|by intros [= <- <-]].
  intros E. apply bind_ok in E as (c' & Hc & E). apply bind_ok in E as (e' & He & E).
  apply parse_date_inv in Hc as [[_ ?]|(t & Ht & ->)]; [done|].
  apply parse_date_inv in He as [[-> _]|(t' & Ht' & ->)].
  - injection E as <- <-. by exists t.
  - apply bind_ok in E as (te & Hte & E). apply bind_ok in E as (tc & Htc & E).
    rewrite instant_of_date in Hte, Htc by done. injection Hte as <-. injection Htc as <-.
    destruct (Z.ltb_spec t' t); [done|]. injection E as <- <-. by exists t, t'.
Qed.

(** ** Well-formed documents *)

Definition entry_ok (e : LatestEntry) : Prop :=
  truthy (le_snapshot_id e) = true /\ hex64 (le_checksum e) = true /\ 0 <= le_size e
  /\ 1 <= le_version e /\ dates_ok (le_committed_at e) (le_expires_at e).

Definition doc_ok (d : RegistryDoc) : Prop :=
  1 <= rd_writer_epoch d /\ truthy (rd_writer_instance_id d) = true /\ 1 <= rd_generation d
  /\ match rd_latest d with Some e => entry_ok e | None => True end.

Definition receipt_ok (r : PersistReceipt) : Prop :=
  truthy (pr_snapshot_id r) = true /\ 1 <= pr_writer_epoch r /\ 1 <= pr_generation r
  /\ truthy (pr_etag r) = true /\ hex64 (pr_checksum r) = true /\ 0 <= pr_size r
  /\ 1 <= pr_version r /\ dates_ok (pr_committed_at r) (pr_expires_at r).

Lemma nonempty_str_ok s : truthy s = true -> nonempty_str (JStr s) = Ok s.
Proof. intros Hs. unfold nonempty_str. by rewrite Hs. Qed.
Lemma int_at_least_ok lo z : lo <= z -> int_at_least lo (JInt z) = Ok z.
Proof. intros Hz. unfold int_at_least. by rewrite (proj2 (Z.leb_le _ _)). Qed.
Lemma sha256_str_ok s : hex64 s = true -> sha256_str (JStr s) = Ok s.
Proof. intros Hs. unfold sha256_str, _SHA256_HEX. by rewrite Hs. Qed.

Lemma nonempty_str_inv j s : nonempty_str j = Ok s -> truthy s = true.
Proof. destruct j; simpl; try done. case_match; [|done]. by intros [= <-]. Qed.
Lemma int_at_least_inv lo j z : int_at_least lo j = Ok z -> lo <= z.
Proof. destruct j as [| |x| | | |]; simpl; try done. destruct (Z.leb_spec lo x); [|done]. by intros [= <-]. Qed.
Lemma sha256_str_inv j s : sha256_str j = Ok s -> hex64 s = true.
Proof. destruct j; simpl; try done. unfold _SHA256_HEX. case_match; [|done]. by intros [= <-]. Qed.

Lemma validate_latest_written e :
  entry_ok e -> _validate_latest_entry (latest_document e) = Ok e.
Proof.
  intros (Hi & Hc & Hs & Hv & Hd). destruct e as [i c s v co ex]. simpl in *.
  unfold latest_document, _validate_latest_entry, field. cbn -[_validate_retention_metadata].
  rewrite Hi. unfold _SHA256_HEX. rewrite Hc.
  rewrite (proj2 (Z.leb_le _ _) Hs), (proj2 (Z.leb_le _ _) Hv). cbn -[_validate_retention_metadata].
  erewrite (validate_retention_written co ex); [done|done|by destruct co|by destruct co].
Qed.

Lemma validate_latest_inv j e : _validate_latest_entry j = Ok e -> entry_ok e.
Proof.
  destruct j as [| | | | | |d]; try done. unfold _validate_latest_entry. intros E.
  do 8 apply bind_ok in E as (? & ? & E). apply bind_ok in E as ([co ex] & Hd & E).
  injection E as <-. unfold entry_ok. simpl.
  eauto 10 using nonempty_str_inv, sha256_str_inv, int_at_least_inv, validate_retention_inv.
Qed.

Lemma validate_registry_written d :
  doc_ok d -> _validate_registry_doc (registry_document d) = Ok d.
Proof.
  intros (He & Hw & Hg & Hl). destruct d as [ep w g l]. simpl in *.
  unfold registry_document, _validate_registry_doc, field.
  cbn -[_validate_latest_entry latest_document].
  rewrite Hw, (proj2 (Z.leb_le _ _) He), (proj2 (Z.leb_le _ _) Hg).
  cbn -[_validate_latest_entry latest_document].
  destruct l as [e|]; [|done].
  pose proof (validate_latest_written e Hl) as Hv.
  assert (Hm : match latest_document e with JNull => Ok None
               | _ => Some <$> _validate_latest_entry (latest_document e) end = Ok (Some e)).
  { rewrite Hv. done. }
  rewrite Hm. done.
Qed.

Lemma validate_registry_inv j d : _validate_registry_doc j = Ok d -> doc_ok d.
Proof.
  destruct j as [| | | | | |o]; try done. unfold _validate_registry_doc. intros E.
  do 4 apply bind_ok in E as (? & ? & E). apply bind_ok in E as (ep & He & E).
  apply bind_ok in E as (w & Hw & E). apply bind_ok in E as (g & Hg & E).
  apply bind_ok in E as (l & Hl & E). injection E as <-. unfold doc_ok. simpl.
  split_and!; eauto using nonempty_str_inv, int_at_least_inv.
  destruct l as [e|]; [|done].
  match type of Hl with match ?j with _ => _ end = _ =>
    assert (Hv : Some <$> _validate_latest_entry j = Ok (Some e)) by (by destruct j) end.
  apply fmap_ok in Hv as (? & Hv & [= <-]). by eapply validate_latest_inv.
Qed.

Lemma validate_commit_written r :
  receipt_ok r -> _validate_commit_record (pr_ref r) (commit_document r) = Ok r.
Proof.
  intros (Hi & He & Hg & Ht & Hc & Hs & Hv & Hd). destruct r as [ref i ep g t c s v co ex].
  simpl in *. unfold commit_document, _validate_commit_record, field.
  cbn -[_validate_retention_metadata]. rewrite Hi, Ht. unfold _SHA256_HEX. rewrite Hc.
  rewrite (proj2 (Z.leb_le _ _) He), (proj2 (Z.leb_le _ _) Hg), (proj2 (Z.leb_le _ _) Hs),
    (proj2 (Z.leb_le _ _) Hv). cbn -[_validate_retention_metadata].
  erewrite (validate_retention_written co ex); [done|done|by destruct co|by destruct co].
Qed.

Lemma validate_commit_inv ref j r :
  _validate_commit_record ref j = Ok r -> receipt_ok r /\ pr_ref r = ref.
Proof.
  destruct j as [| | | | | |o]; try done. unfold _validate_commit_record. intros E.
  do 14 apply bind_ok in E as (? & ? & E). apply bind_ok in E as ([co ex] & Hd & E).
  injection E as <-. unfold receipt_ok. simpl.
  split_and!; eauto using nonempty_str_inv, sha256_str_inv, int_at_least_inv, validate_retention_inv.
Qed.

(** ** The texts *)

Lemma plain_registry d : plain_json (registry_document d) = true.
Proof. destruct d as [ep w g [[i c s v [co|] [ex|]]|]]; reflexivity. Qed.
Lemma plain_commit r : plain_json (commit_document r) = true.
Proof. destruct r as [ref i ep g t c s v [co|] [ex|]]; reflexivity. Qed.

Context (pf : string -> pyfloat).

Lemma parse_registry_written d :
  doc_ok d -> parse_registry pf (json_dumps (registry_document d)) = Ok d.
Proof.
  intros Hd. unfold parse_registry. rewrite json_loads_dumps by apply plain_registry.
  cbn [opt_or mbind result_bind]. by apply validate_registry_written.
Qed.

Lemma parse_commit_written r :
  receipt_ok r -> parse_commit pf (pr_ref r) (json_dumps (commit_document r)) = Ok r.
Proof.
  intros Hr. unfold parse_commit. rewrite json_loads_dumps by apply plain_commit.
  cbn [opt_or mbind result_bind]. by apply validate_commit_written.
Qed.

Lemma parse_registry_inv raw d : parse_registry pf raw = Ok d -> doc_ok d.
Proof. unfold parse_registry. intros (j & _ & E)%bind_ok. by eapply validate_registry_inv. Qed.

Lemma parse_commit_inv ref raw r :
  parse_commit pf ref raw = Ok r -> receipt_ok r /\ pr_ref r = ref.
Proof. unfold parse_commit. intros (j & _ & E)%bind_ok. by eapply validate_commit_inv. Qed.

(** The text of a document determines it. *)
Lemma registry_text_inj d d' :
  doc_ok d -> doc_ok d' ->
  json_dumps (registry_document d) = json_dumps (registry_document d') -> d = d'.
Proof.
  intros Hd Hd' E. pose proof (parse_registry_written d Hd) as H1.
  rewrite E, parse_registry_written in H1 by done. congruence.
Qed.

(** C13. What Storage writes it reads back: the text of any well-formed registry document, and
    of any well-formed commit record, parses and validates to the same document; and the
    readers only ever return well-formed ones, whatever bytes they are given. *)
Theorem storage_documents_roundtrip :
  (forall d, doc_ok d -> parse_registry pf (json_dumps (registry_document d)) = Ok d)
  /\ (forall r, receipt_ok r ->
        parse_commit pf (pr_ref r) (json_dumps (commit_document r)) = Ok r)
  /\ (forall raw d, parse_registry pf raw = Ok d -> doc_ok d)
  /\ (forall ref raw r, parse_commit pf ref raw = Ok r -> receipt_ok r /\ pr_ref r = ref).
Proof.
  split_and!; [apply parse_registry_written|apply parse_commit_written
              |apply parse_registry_inv|apply parse_commit_inv].
Qed.
End docs.

(** ** A concrete calendar

    Instants are written in decimal: enough to instantiate [PyDatetime] and run the model. *)
Definition no_plus (s : string) : bool := str_forallb (fun a => negb (Ascii.eqb a "+")) s.

Lemma find_sub_first pre rest :
  no_plus pre = true -> find_sub "+00:00" (pre +:+ "+00:00" +:+ rest) = Some (pre, rest).
Proof.
  induction pre as [|a pre IH]; cbn [no_plus str_forallb]; intros Hp.
  - rewrite str_app_nil_l.
    assert (E : strip_prefix "+00:00" ("+00:00" +:+ rest) = Some rest) by (by apply strip_prefix_eq).
    revert E. generalize ("+00:00" +:+ rest). intros [|b s] E; cbn [find_sub]; by rewrite E.
  - apply andb_prop in Hp as [Ha Hp]. rewrite str_app_cons. cbn [find_sub strip_prefix].
    apply negb_true_iff in Ha. rewrite Ascii.eqb_sym, Ha, IH; done.
Qed.

Lemma no_plus_pretty z : no_plus (str_of_int z) = true.
Proof.
  assert (Hd : forall n : N, no_plus (pretty n) = true).
  { intros n. unfold pretty, pretty_N. destruct (decide (n = 0)%N) as [|Hn]; [by subst|].
    destruct (pretty_go_spec n "") as (a & t & -> & Hd & _); [lia|]. rewrite str_app_nil_r.
    revert Hd. generalize (String a t). intros s. unfold no_plus.
    induction s as [|b s IH]; [done|]. cbn [str_forallb]. intros [Hb Hs]%andb_prop.
    rewrite (IH Hs). clear -Hb. by destruct b as [[] [] [] [] [] [] [] []]. }
  destruct z; unfold str_of_int; [done|apply (Hd (N.pos p))|].
  change (pretty (Z.neg p)) with ("-" +:+ pretty (N.pos p)).
  rewrite str_app_cons, str_app_nil_l. apply (Hd (N.pos p)).
Qed.

Definition no_float (s : string) : pyfloat := PyFloat s None.

Definition plain_fromisoformat (s : string) : option (option Z) :=
  match find_sub "+00:00" s with
  | Some (pre, EmptyString) =>
      match scan_number no_float pre with Some (JInt z, EmptyString) => Some (Some z) | _ => None end
  | _ => None
  end.

Lemma plain_suffix t : find_sub "+00:00" (str_of_int t +:+ "+00:00") = Some (str_of_int t, "").
Proof. apply (find_sub_first _ ""), no_plus_pretty. Qed.

Lemma plain_fromisoformat_ok t : plain_fromisoformat (str_of_int t +:+ "+00:00") = Some (Some t).
Proof.
  unfold plain_fromisoformat. rewrite plain_suffix.
  pose proof (scan_number_int no_float t "" eq_refl) as E. rewrite str_app_nil_r in E.
  by rewrite E.
Qed.

Definition plain_datetime : PyDatetime := {|
  fromisoformat := plain_fromisoformat;
  isoformat_utc := fun t => str_of_int t +:+ "+00:00";
  iso_body := str_of_int;
  in_range := fun t => (0 <=? t) && (t <? 10000 * 365 * day_us);
  isoformat_utc_suffix := fun t _ => plain_suffix t;
  fromisoformat_isoformat := fun t _ => plain_fromisoformat_ok t
|}.

Definition sample_entry : LatestEntry :=
  {| le_snapshot_id := "s1"; le_checksum := sha256_hex "data"; le_size := 4; le_version := 1;
     le_committed_at := Some "7Z"; le_expires_at := Some "9Z" |}.
Definition sample_doc : RegistryDoc :=
  {| rd_writer_epoch := 2; rd_writer_instance_id := "pod-a"; rd_generation := 3;
     rd_latest := Some sample_entry |}.

Lemma sample_doc_ok : @doc_ok plain_datetime sample_doc.
Proof.
  unfold doc_ok, entry_ok, sample_doc, sample_entry; simpl. split_and!; try done.
  exists 7, 9. done.
Qed.

Lemma storage_documents_roundtrip_witness :
  @parse_registry plain_datetime no_float (json_dumps (registry_document sample_doc)) = Ok sample_doc.
Proof.
  exact (proj1 (@storage_documents_roundtrip plain_datetime no_float) sample_doc sample_doc_ok).
Defined.
