(* ===== verification/StorageLogic.v ===== *)
(** * The bucket, the changes storage operations make to it, and their invariants

    [S3Backend] states what is relied on of the bucket behind boto3: conditional PUTs,
    read-after-write GETs, ETags that follow the content, and the checksummed read cache.  A
    PUT that fails may nevertheless have been applied, unless the failure is a precondition
    failure.  [legal] is every change the operations make; its consequences over a history of
    worlds are the invariants the theorems rest on. *)

From S2P Require Import Prelude Sha256 PyJson PyLoads Config StateRefs Effects Storage StorageDocs.
Local Open Scope Z_scope.

Record s3_object := { o_body : string; o_meta : list (string * string) }.

Class S3Backend (W : Type) `{PyDatetime} := {
  (** [s3_step w c a w']: in world [w] the call [c] may be answered by [a], leaving [w']. *)
  s3_step : W -> forall c : storage_call, answer c -> W -> Prop;
  objects : W -> gmap string s3_object;
  etag_of : string -> string;
  put_allowed (o : option s3_object) (cond : put_cond) : Prop :=
    match cond with
    | IfNoneMatch => o = None
    | IfMatch etag => exists ob, o = Some ob /\ etag_of (o_body ob) = etag
    end;
  etag_inj : forall b b', etag_of b = etag_of b' -> b = b';
  etag_nonempty : forall b, truthy (etag_of b) = true;
  get_law : forall w k r w', s3_step w (GetObject k) r w' ->
    objects w' = objects w /\
    match r with
    | Ok (b, e) => e = etag_of b /\ exists m, objects w !! k = Some {| o_body := b; o_meta := m |}
    | Err e => _is_not_found (ClientErr e) = true -> objects w !! k = None
    end;
  head_law : forall w k r w', s3_step w (HeadObject k) r w' ->
    objects w' = objects w /\
    match r with
    | Ok (n, m) => exists b, n = Some (len b) /\ objects w !! k = Some {| o_body := b; o_meta := m |}
    | Err e => _is_not_found (ClientErr e) = true -> objects w !! k = None
    end;
  put_law : forall w k b c m r w', s3_step w (PutObject k b c m) r w' ->
    let applied := put_allowed (objects w !! k) c
                   /\ objects w' = <[k := {| o_body := b; o_meta := m |}]> (objects w) in
    match r with
    | Ok e => e = etag_of b /\ applied
    | Err e => objects w' = objects w
               \/ (_is_precondition_failed (ClientErr e) = false /\ applied)
    end;
  clock_law : forall w (t : Z) w', s3_step w ClockNow t w' -> objects w' = objects w;
  cache_get_law : forall w k v sum r w', s3_step w (CacheGet k v sum) r w' ->
    objects w' = objects w /\ forall data, r = Ok (Some data) -> sha256_hex data = sum;
  cache_put_law : forall w k v data r w', s3_step w (CachePut k v data) r w' ->
    objects w' = objects w;
  staging_law : forall w op r w', s3_step w (StagingStep op) r w' -> objects w' = objects w
}.

Section logic.
Context `{S3Backend W} (pf : string -> pyfloat) (self : S3Storage).

Abbreviation reg_key ref := (registry_key ref (st_prefix self)).
Abbreviation snap_key ref id := (snapshot_key ref (st_prefix self) id).
Abbreviation commit_key ref id := (commit_record_key ref (st_prefix self) id).

(** ** What a world says of a domain *)

(** The registry object of the domain, and the document it holds. *)
Definition registry_is (w : W) (ref : StateRef) (b : string) (d : RegistryDoc) : Prop :=
  (exists m, objects w !! reg_key ref = Some {| o_body := b; o_meta := m |})
  /\ parse_registry pf b = Ok d.

(** The bytes of an entry's snapshot object, with its checksum and size. *)
Definition snapshot_present (w : W) (ref : StateRef) (e : LatestEntry) : Prop :=
  exists data m, objects w !! snap_key ref (le_snapshot_id e) = Some {| o_body := data; o_meta := m |}
    /\ sha256_hex data = le_checksum e /\ len data = le_size e.

(** [r] is the receipt of a registry document that was current in some world of [h]. *)
Definition committed (h : list W) (r : PersistReceipt) : Prop :=
  exists w b d, In w h /\ registry_is w (pr_ref r) b d
    /\ _receipt_from (pr_ref r) d (etag_of b) 0 = Ok r.

(** The durable commit record of [r] is in the bucket. *)
Definition recorded (w : W) (r : PersistReceipt) : Prop :=
  exists b m, objects w !! commit_key (pr_ref r) (pr_snapshot_id r) = Some {| o_body := b; o_meta := m |}
    /\ parse_commit pf (pr_ref r) b = Ok r.

(** ** The changes the operations make *)

Definition prev_version (d : RegistryDoc) : Z :=
  match rd_latest d with Some e => le_version e | None => 0 end.

Inductive doc_step (w : W) (ref : StateRef) : option RegistryDoc -> RegistryDoc -> Prop :=
  | step_first i : truthy i = true -> doc_step w ref None (RegistryDoc_empty i)
  | step_writer d i : truthy i = true -> doc_step w ref (Some d) (with_new_writer d i)
  | step_commit d e :
      entry_ok e -> le_version e = prev_version d + 1 -> snapshot_present w ref e ->
      doc_step w ref (Some d)
        (with_committed_snapshot d (rd_writer_epoch d) (rd_writer_instance_id d) e).

Definition registry_before (w : W) (ref : StateRef) (od : option RegistryDoc) : Prop :=
  match od with
  | None => objects w !! reg_key ref = None
  | Some d => exists b, registry_is w ref b d
  end.

Definition put_in (w : W) (k b : string) (m : list (string * string)) (w' : W) : Prop :=
  objects w' = <[k := {| o_body := b; o_meta := m |}]> (objects w).

Inductive legal : list W -> W -> Prop :=
  | legal_same w past w' : objects w' = objects w -> legal (w :: past) w'
  | legal_registry w past w' ref od d :
      accepted_ref ref -> registry_before w ref od -> doc_step w ref od d ->
      put_in w (reg_key ref) (json_dumps (registry_document d)) [] w' -> legal (w :: past) w'
  | legal_snapshot w past w' ref id data m :
      accepted_ref ref -> objects w !! snap_key ref id = None ->
      assoc "sha256" m = Some (sha256_hex data) ->
      put_in w (snap_key ref id) data m w' -> legal (w :: past) w'
  | legal_commit w past w' r :
      accepted_ref (pr_ref r) ->
      objects w !! commit_key (pr_ref r) (pr_snapshot_id r) = None -> receipt_ok r ->
      committed (w :: past) r ->
      put_in w (commit_key (pr_ref r) (pr_snapshot_id r)) (json_dumps (commit_document r)) [] w' ->
      legal (w :: past) w'.

(** ** The order of the worlds of a history *)

(** Registry documents only grow: the generation increases with every change, the writer epoch
    never decreases, and an epoch belongs to one writer instance. *)
Definition doc_le (d d' : RegistryDoc) : Prop :=
  d = d' \/ (rd_generation d < rd_generation d' /\ rd_writer_epoch d <= rd_writer_epoch d'
             /\ (rd_writer_epoch d = rd_writer_epoch d' ->
                 rd_writer_instance_id d = rd_writer_instance_id d')).

Lemma doc_le_refl d : doc_le d d.
Proof. by left. Qed.
Lemma doc_le_trans d1 d2 d3 : doc_le d1 d2 -> doc_le d2 d3 -> doc_le d1 d3.
Proof.
  intros [->|(Hg & He & Hi)] [->|(Hg' & He' & Hi')]; try (by left); try (right; by split_and!).
  right. split_and!; [lia|lia|]. intros E. rewrite Hi, Hi' by lia. done.
Qed.
Lemma doc_le_antisym d d' : doc_le d d' -> doc_le d' d -> d = d'.
Proof. intros [E|(Hg & _)] [E'|(Hg' & _)]; [done|done|done|lia]. Qed.

Definition world_le (w w' : W) : Prop :=
  (forall ref b d, accepted_ref ref -> registry_is w ref b d ->
     exists b' d', registry_is w' ref b' d' /\ doc_le d d' /\ (d = d' -> b = b'))
  /\ (forall ref id o, accepted_ref ref -> objects w !! snap_key ref id = Some o ->
        objects w' !! snap_key ref id = Some o)
  /\ (forall ref id o, accepted_ref ref -> objects w !! commit_key ref id = Some o ->
        objects w' !! commit_key ref id = Some o).

Lemma world_le_refl w : world_le w w.
Proof. split_and!; [|done..]. intros. eexists _, _. split; [done|]. by split; [left|]. Qed.

Lemma world_le_trans w1 w2 w3 : world_le w1 w2 -> world_le w2 w3 -> world_le w1 w3.
Proof.
  intros (R1 & S1 & C1) (R2 & S2 & C2). split_and!; [|eauto..].
  intros ref b d Hr H1. destruct (R1 _ _ _ Hr H1) as (b2 & d2 & H2 & L2 & E2).
  destruct (R2 _ _ _ Hr H2) as (b3 & d3 & H3 & L3 & E3). exists b3, d3. split; [done|].
  split; [by eapply doc_le_trans|]. intros ->.
  assert (d2 = d3) as -> by (by apply doc_le_antisym). rewrite E2, E3; done.
Qed.

(** ** Keys of different purposes *)

Lemma keys_ne r1 r2 k1 k2 :
  accepted_ref r1 -> accepted_ref r2 -> k1 <> k2 ->
  object_key (st_prefix self) r1 k1 <> object_key (st_prefix self) r2 k2.
Proof. intros H1 H2 Hk E. by apply storage_keys_inj in E as [_ ?]. Qed.

Lemma reg_ne_snap r1 r2 id : accepted_ref r1 -> accepted_ref r2 -> reg_key r1 <> snap_key r2 id.
Proof. intros. by apply (keys_ne r1 r2 RegistryKey (SnapshotKey id)). Qed.
Lemma reg_ne_commit r1 r2 id : accepted_ref r1 -> accepted_ref r2 -> reg_key r1 <> commit_key r2 id.
Proof. intros. by apply (keys_ne r1 r2 RegistryKey (CommitKey id)). Qed.
Lemma snap_ne_commit r1 r2 id id' :
  accepted_ref r1 -> accepted_ref r2 -> snap_key r1 id <> commit_key r2 id'.
Proof. intros. by apply (keys_ne r1 r2 (SnapshotKey id) (CommitKey id')). Qed.

(** A write to one key leaves the objects at the others. *)
Lemma put_in_ne w k b m w' k' : put_in w k b m w' -> k <> k' -> objects w' !! k' = objects w !! k'.
Proof. intros -> Hne. by rewrite lookup_insert_ne. Qed.
Lemma put_in_eq w k b m w' :
  put_in w k b m w' -> objects w' !! k = Some {| o_body := b; o_meta := m |}.
Proof. intros ->. by rewrite lookup_insert_eq. Qed.

Lemma registry_is_same w w' ref b d :
  objects w' !! reg_key ref = objects w !! reg_key ref -> registry_is w ref b d -> registry_is w' ref b d.
Proof. unfold registry_is. by intros ->. Qed.

Lemma registry_is_fun w ref b d b' d' :
  registry_is w ref b d -> registry_is w ref b' d' -> b = b' /\ d = d'.
Proof. intros [[m E] P] [[m' E'] P']. rewrite E in E'. simplify_eq. split; congruence. Qed.

Lemma doc_step_ok w ref od d :
  (forall d0, od = Some d0 -> doc_ok d0) -> doc_step w ref od d -> doc_ok d.
Proof.
  intros Hok Hs. destruct Hs as [i Hi|d0 i Hi|d0 e He Hv _].
  - by unfold doc_ok; simpl.
  - destruct (Hok d0 eq_refl) as (? & ? & ? & ?). unfold doc_ok; simpl. split_and!; try done; lia.
  - destruct (Hok d0 eq_refl) as (? & ? & ? & ?). unfold doc_ok; simpl. split_and!; try done; lia.
Qed.

Lemma doc_step_le w ref d d' : doc_step w ref (Some d) d' -> doc_le d d' /\ d <> d'.
Proof.
  intros Hs. inversion Hs; subst; clear Hs.
  - split; [right; simpl; split_and!; lia|]. intros E. apply (f_equal rd_generation) in E. simpl in E. lia.
  - split; [right; simpl; split_and!; try lia; done|].
    intros E. apply (f_equal rd_generation) in E. simpl in E. lia.
Qed.

(** The document a registry write leaves behind. *)
Lemma registry_written w w' ref od d :
  registry_before w ref od -> doc_step w ref od d ->
  put_in w (reg_key ref) (json_dumps (registry_document d)) [] w' ->
  registry_is w' ref (json_dumps (registry_document d)) d.
Proof.
  intros Hb Hs Hp. split; [eexists; by eapply put_in_eq|]. apply parse_registry_written.
  apply (doc_step_ok w ref od); [|done]. intros d0 ->. destruct Hb as (b & _ & Hp'). by eapply parse_registry_inv.
Qed.

(** ** Every legal change moves the world forward *)

Lemma location_reg r r' : accepted_ref r -> accepted_ref r' -> reg_key r = reg_key r' -> location r = location r'.
Proof. intros H1 H2 E. by apply (storage_keys_inj _ r r' RegistryKey RegistryKey) in E as [? _]. Qed.

Lemma legal_le w past w' : legal (w :: past) w' -> world_le w w'.
Proof.
  intros Hl. inversion Hl as [? ? ? Ho|? ? ? ref od d Hr Hb Hs Hp|? ? ? ref id data m Hr Hn Hm Hp
    |? ? ? r Hr Hn Hok Hc Hp]; subst; clear Hl.
  - unfold world_le, registry_is. rewrite Ho. apply world_le_refl.
  - split_and!.
    + intros ref' b d' Hr' Hd'. destruct (decide (reg_key ref = reg_key ref')) as [E|E].
      * pose proof (registry_written _ _ _ _ _ Hb Hs Hp) as Hw.
        unfold registry_is in Hd', Hw |- *. rewrite <- E in Hd' |- *.
        destruct od as [d0|]; simpl in Hb.
        -- destruct Hb as (b0 & Hb0).
           destruct (registry_is_fun w ref b0 d0 b d' Hb0 Hd') as [<- <-].
           destruct (doc_step_le _ _ _ _ Hs) as [Hle Hne]. by eexists _, _.
        -- destruct Hd' as [[m Hd'] _]. congruence.
      * exists b, d'. split; [|by split; [left|]].
        eapply registry_is_same; [|exact Hd']. by eapply put_in_ne.
    + intros ref' id o Hr' Ho. erewrite put_in_ne; [exact Ho|exact Hp|by apply reg_ne_snap].
    + intros ref' id o Hr' Ho. erewrite put_in_ne; [exact Ho|exact Hp|by apply reg_ne_commit].
  - split_and!.
    + intros ref' b d' Hr' Hd'. exists b, d'. split; [|by split; [left|]].
      eapply registry_is_same; [|exact Hd']. eapply put_in_ne; [exact Hp|].
      intros E. symmetry in E. by apply reg_ne_snap in E.
    + intros ref' id' o Hr' Ho. erewrite put_in_ne; [exact Ho|exact Hp|]. intros E. congruence.
    + intros ref' id' o Hr' Ho. erewrite put_in_ne; [exact Ho|exact Hp|by apply snap_ne_commit].
  - split_and!.
    + intros ref' b d' Hr' Hd'. exists b, d'. split; [|by split; [left|]].
      eapply registry_is_same; [|exact Hd']. eapply put_in_ne; [exact Hp|].
      intros E. symmetry in E. by apply reg_ne_commit in E.
    + intros ref' id' o Hr' Ho. erewrite put_in_ne; [exact Ho|exact Hp|].
      intros E. symmetry in E. by apply snap_ne_commit in E.
    + intros ref' id' o Hr' Ho. erewrite put_in_ne; [exact Ho|exact Hp|]. intros E. congruence.
Qed.
End logic.

(** ** Histories *)

Section history.
Context `{S3Backend W} (pf : string -> pyfloat) (self : S3Storage).

Abbreviation legal := (legal pf self).
Abbreviation reg_key ref := (registry_key ref (st_prefix self)).
Abbreviation snap_key ref id := (snapshot_key ref (st_prefix self) id).
Abbreviation commit_key ref id := (commit_record_key ref (st_prefix self) id).

(** [P] held in some world of the history. *)
Definition ever (P : W -> Prop) (h : list W) : Prop := exists w, In w h /\ P w.

Lemma ever_ext P h h' : ext legal h h' -> ever P h -> ever P h'.
Proof. intros Hx (w & Hw & HP). exists w. split; [by eapply ext_in|done]. Qed.

Lemma ever_head (P : W -> Prop) w past : P w -> ever P (w :: past).
Proof. exists w. split; [by left|done]. Qed.

Lemma committed_ext h h' r : ext legal h h' -> committed pf self h r -> committed pf self h' r.
Proof. intros Hx (w & b & d & Hw & Hr). exists w, b, d. split; [by eapply ext_in|done]. Qed.

(** The same receipt asked for through another descriptor of the same domain. *)
Definition with_ref (ref : StateRef) (r : PersistReceipt) : PersistReceipt :=
  {| pr_ref := ref; pr_snapshot_id := pr_snapshot_id r; pr_writer_epoch := pr_writer_epoch r;
     pr_generation := pr_generation r; pr_etag := pr_etag r; pr_checksum := pr_checksum r;
     pr_size := pr_size r; pr_version := pr_version r; pr_committed_at := pr_committed_at r;
     pr_expires_at := pr_expires_at r |}.

Lemma parse_commit_any_ref ref r :
  receipt_ok r -> parse_commit pf ref (json_dumps (commit_document r)) = Ok (with_ref ref r).
Proof. intros Hok. by apply (parse_commit_written pf (with_ref ref r)). Qed.

Lemma object_key_location r r' k :
  accepted_ref r -> accepted_ref r' -> location r = location r' ->
  object_key (st_prefix self) r k = object_key (st_prefix self) r' k.
Proof.
  intros H1 H2 E. rewrite !object_key_eq by done. unfold location, below_workspace in *.
  by injection E as -> -> -> ->.
Qed.

Lemma committed_with_ref h r ref :
  accepted_ref ref -> accepted_ref (pr_ref r) -> location (pr_ref r) = location ref ->
  committed pf self h r -> committed pf self h (with_ref ref r).
Proof.
  intros H1 H2 E (w & b & d & Hw & [[m Hm] Hp] & Hr). exists w, b, d. split; [done|].
  pose proof (object_key_location _ _ RegistryKey H2 H1 E) as Ek. cbn [object_key] in Ek.
  split.
  - split; [|done]. exists m. cbn [with_ref pr_ref]. by rewrite <- Ek.
  - unfold _receipt_from in *. destruct (rd_latest d) as [e|]; [|done]. simpl in *.
    by injection Hr as <-.
Qed.

(** The invariant of a bucket that only storage operations have written. *)
Record world_inv (h : list W) (w : W) : Prop := {
  wi_registry : forall ref o, accepted_ref ref -> objects w !! reg_key ref = Some o ->
    exists d, parse_registry pf (o_body o) = Ok d
              /\ forall e, rd_latest d = Some e -> snapshot_present self w ref e;
  wi_snapshot : forall ref id o, accepted_ref ref -> objects w !! snap_key ref id = Some o ->
    assoc "sha256" (o_meta o) = Some (sha256_hex (o_body o));
  wi_commit : forall ref id o, accepted_ref ref -> objects w !! commit_key ref id = Some o ->
    exists r, parse_commit pf ref (o_body o) = Ok r /\ pr_snapshot_id r = id
              /\ pr_ref r = ref /\ receipt_ok r /\ committed pf self h r
}.

Lemma snapshot_present_le w w' ref e :
  accepted_ref ref -> world_le pf self w w' -> snapshot_present self w ref e ->
  snapshot_present self w' ref e.
Proof.
  intros Hr (_ & Hs & _) (data & m & Ho & ?). exists data, m. split; [by apply Hs|done].
Qed.

Lemma world_inv_step w past w' :
  world_inv (w :: past) w -> legal (w :: past) w' -> world_inv (w' :: w :: past) w'.
Proof.
  intros [IR IS IC] Hl. pose proof (legal_le pf self _ _ _ Hl) as Hle.
  assert (Hx : ext legal (w :: past) (w' :: w :: past)) by (by apply ext_one).
  assert (IC' : forall r id o, accepted_ref r -> objects w !! commit_key r id = Some o ->
    exists rc, parse_commit pf r (o_body o) = Ok rc /\ pr_snapshot_id rc = id /\ pr_ref rc = r
               /\ receipt_ok rc /\ committed pf self (w' :: w :: past) rc).
  { intros r id o Hr Ho. destruct (IC _ _ _ Hr Ho) as (rc & ? & ? & ? & ? & ?).
    exists rc. split_and!; try done. by eapply committed_ext. }
  assert (IR' : forall r o, accepted_ref r -> objects w !! reg_key r = Some o ->
    exists d, parse_registry pf (o_body o) = Ok d
              /\ forall e, rd_latest d = Some e -> snapshot_present self w' r e).
  { intros r o Hr Ho. destruct (IR _ _ Hr Ho) as (d & ? & Hd). exists d. split; [done|].
    intros e He. eapply snapshot_present_le; eauto. }
  inversion Hl as [? ? ? Ho|? ? ? ref od d Hr Hb Hs Hp|? ? ? ref id data m Hr Hn Hm Hp
    |? ? ? r Hr Hn Hok Hc Hp]; subst; clear Hl.
  - split; rewrite Ho; eauto.
  - split.
    + intros ref' o Hr' Ho'. destruct (decide (reg_key ref = reg_key ref')) as [E|E].
      * pose proof (registry_written pf self _ _ _ _ _ Hb Hs Hp) as [[m Hw] Hpd].
        rewrite <- E, Hw in Ho'. injection Ho' as <-. exists d. split; [done|].
        assert (El : location ref = location ref') by (by eapply location_reg).
        assert (Hold : forall e d0, od = Some d0 -> rd_latest d0 = Some e ->
                       snapshot_present self w' ref' e).
        { intros e d0 -> He. destruct Hb as (b0 & [m0 Hm0] & Hp0). rewrite E in Hm0.
          destruct (IR' _ _ Hr' Hm0) as (d1 & Hd1 & Hl). simpl in Hd1.
          assert (d1 = d0) as -> by congruence. by apply Hl. }
        intros e He. destruct Hs as [i Hi|d0 i Hi|d0 e0 He0 Hv Hsp]; [done|by eapply Hold|].
        injection He as <-. destruct Hsp as (dt & mt & Hsp & ?). exists dt, mt. split; [|done].
        erewrite put_in_ne; [|exact Hp|by apply reg_ne_snap].
        rewrite <- Hsp. f_equal. symmetry.
        apply (object_key_location ref ref' (SnapshotKey _)); done.
      * apply IR'; [done|]. erewrite <- put_in_ne; [exact Ho'|exact Hp|done].
    + intros ref' id' o Hr' Ho'. eapply (IS ref' id'); [done|].
      erewrite <- put_in_ne; [exact Ho'|exact Hp|by apply reg_ne_snap].
    + intros ref' id' o Hr' Ho'. apply IC'; [done|].
      erewrite <- put_in_ne; [exact Ho'|exact Hp|by apply reg_ne_commit].
  - split.
    + intros ref' o Hr' Ho'. apply IR'; [done|].
      erewrite <- put_in_ne; [exact Ho'|exact Hp|]. intros E. symmetry in E.
      by apply reg_ne_snap in E.
    + intros ref' id' o Hr' Ho'. destruct (decide (snap_key ref id = snap_key ref' id')) as [E|E].
      * rewrite <- E, (put_in_eq _ _ _ _ _ Hp) in Ho'. by injection Ho' as <-.
      * eapply (IS ref' id'); [done|]. erewrite <- put_in_ne; [exact Ho'|exact Hp|done].
    + intros ref' id' o Hr' Ho'. apply IC'; [done|].
      erewrite <- put_in_ne; [exact Ho'|exact Hp|by apply snap_ne_commit].
  - split.
    + intros ref' o Hr' Ho'. apply IR'; [done|].
      erewrite <- put_in_ne; [exact Ho'|exact Hp|]. intros E. symmetry in E.
      by apply reg_ne_commit in E.
    + intros ref' id' o Hr' Ho'. eapply (IS ref' id'); [done|].
      erewrite <- put_in_ne; [exact Ho'|exact Hp|]. intros E. symmetry in E.
      by apply snap_ne_commit in E.
    + intros ref' id' o Hr' Ho'.
      destruct (decide (commit_key (pr_ref r) (pr_snapshot_id r) = commit_key ref' id')) as [E|E].
      * pose proof (storage_keys_inj (st_prefix self) (pr_ref r) ref'
          (CommitKey (pr_snapshot_id r)) (CommitKey id') Hr Hr' E) as [El Ei]. injection Ei as Ei.
        rewrite <- E, (put_in_eq _ _ _ _ _ Hp) in Ho'. injection Ho' as <-.
        exists (with_ref ref' r). split_and!; try done; [by apply parse_commit_any_ref|].
        apply committed_with_ref; try done. by eapply committed_ext.
      * apply IC'; [done|]. erewrite <- put_in_ne; [exact Ho'|exact Hp|done].
Qed.

(** Histories of a bucket that started empty. *)
Definition good (h : list W) : Prop := exists w0, objects w0 = ∅ /\ ext legal [w0] h.

Lemma good_ext h h' : good h -> ext legal h h' -> good h'.
Proof. intros (w0 & Hw0 & Hx) Hx'. exists w0. split; [done|]. by eapply ext_trans. Qed.

Lemma good_inv h :
  good h -> exists w past, h = w :: past /\ world_inv h w /\ forall w1, In w1 h -> world_le pf self w1 w.
Proof.
  intros (w0 & Hw0 & Hx). remember [w0] as h0 eqn:Hh0.
  induction Hx as [h|h h' w' Hx IH Hl]; subst.
  - exists w0, []. split; [done|]. split.
    + split; rewrite Hw0; intros *; rewrite lookup_empty; done.
    + intros w1 [->|[]]. apply world_le_refl.
  - destruct IH as (w & past & -> & Hi & Hle); [done|]. exists w', (w :: past).
    split; [done|]. split; [by apply world_inv_step|].
    intros w1 [->|Hin]; [apply world_le_refl|].
    eapply world_le_trans; [by apply Hle|]. by eapply legal_le.
Qed.

Lemma good_head w past : good (w :: past) -> world_inv (w :: past) w.
Proof. intros (w' & past' & [= <- <-] & Hi & _)%good_inv. done. Qed.

Lemma good_le w past w1 : good (w :: past) -> In w1 (w :: past) -> world_le pf self w1 w.
Proof. intros (w' & past' & [= <- <-] & _ & Hle)%good_inv. apply Hle. Qed.

Lemma good_cons h : good h -> exists w past, h = w :: past.
Proof. intros (w & past & -> & _)%good_inv. by exists w, past. Qed.

(** Every world of a history was once the newest. *)
Lemma good_at h w : good h -> In w h -> exists past, good (w :: past).
Proof.
  intros (w0 & Hw0 & Hx). remember [w0] as h0 eqn:Hh0. induction Hx as [h|h h' u Hx IH Hl]; subst.
  - intros [->|[]]. exists []. exists w. split; [done|constructor].
  - intros [->|Hin]; [|by apply IH]. exists h'. exists w0. split; [done|]. by constructor.
Qed.

(** The snapshot of every document the registry ever held is still there. *)
Lemma snapshot_kept w past w1 ref b d e :
  good (w :: past) -> accepted_ref ref -> In w1 (w :: past) -> registry_is pf self w1 ref b d ->
  rd_latest d = Some e -> snapshot_present self w ref e.
Proof.
  intros Hg Hr Hin [[m Hm] Hp] He. destruct (good_at _ _ Hg Hin) as (past1 & Hg1).
  destruct (good_head _ _ Hg1) as [HR _ _]. destruct (HR _ _ Hr Hm) as (d' & Hd' & Hs).
  simpl in Hd'. assert (d' = d) as -> by congruence.
  eapply snapshot_present_le; [done|by eapply good_le|by apply Hs].
Qed.

(** Neighbouring worlds of a history differ by a legal change. *)
Lemma good_adjacent h h1 w' w h2 : good h -> h = h1 ++ w' :: w :: h2 -> legal (w :: h2) w'.
Proof.
  intros (w0 & _ & Hx). remember [w0] as h0 eqn:Hh0. revert h1.
  induction Hx as [h|h h' u Hx IH Hl]; intros h1 Heq; subst.
  - destruct h1 as [|x [|]]; discriminate Heq.
  - destruct h1 as [|x h1]; simpl in Heq; simplify_eq/=; [done|]. by eapply IH.
Qed.
End history.
