(* ===== verification/StorageSpecs.v ===== *)
(** * Specifications of the storage operations

    One rule per call and per shared step, for any interference [legal] and any guarantee that
    allows steps without a write; then what the operations and their parts promise of their
    result under any interference. *)

From S2P Require Import Prelude Sha256 PyJson PyLoads Config StateRefs Effects Storage StorageDocs StorageLogic.
Local Open Scope Z_scope.

(** ** Calls *)

Section calls.
Context `{S3Backend W} (legal guar : list W -> W -> Prop).
Hypothesis guar_same : forall w past w', objects w' = objects w -> guar (w :: past) w'.
Hypothesis guar_legal : forall h w, guar h w -> legal h w.
Abbreviation wp := (wp s3_step legal guar).

Lemma ext_here h w past w' : ext legal h (w :: past) -> objects w' = objects w ->
  ext legal h (w' :: w :: past).
Proof. intros Hx Ho. eapply ext_trans; [exact Hx|]. by apply ext_one, guar_legal, guar_same. Qed.

Lemma wp_py {A} (r : result exn A) Q h :
  Q h (match r with Ok a => Ok a | Err e => Err (PyErr e) end) -> wp (py r) Q h.
Proof. by destruct r. Qed.

Lemma wp_get_object key Q h :
  (forall w past w' r, ext legal h (w' :: w :: past) -> objects w' = objects w ->
     match r with
     | Ok (b, e) => e = etag_of b /\ exists m, objects w' !! key = Some {| o_body := b; o_meta := m |}
     | Err (ClientErr e) => _is_not_found (ClientErr e) = true -> objects w' !! key = None
     | Err (PyErr _) => False
     end -> Q (w' :: w :: past) r) ->
  wp (get_object key) Q h.
Proof.
  intros HQ. unfold get_object. apply wp_run. intros past w Hx a w' Hs.
  apply get_law in Hs as [Ho Ha]. split; [by apply guar_same|]. cbn -[client].
  destruct a as [[b e]|e]; simpl; apply HQ; try done; try (by apply ext_here); by rewrite Ho.
Qed.

Lemma wp_head_object key Q h :
  (forall w past w' r, ext legal h (w' :: w :: past) -> objects w' = objects w ->
     match r with
     | Ok (n, m) => exists b, n = Some (len b) /\ objects w' !! key = Some {| o_body := b; o_meta := m |}
     | Err _ => True
     end -> Q (w' :: w :: past) r) ->
  wp (head_object key) Q h.
Proof.
  intros HQ. unfold head_object. apply wp_run. intros past w Hx a w' Hs.
  apply head_law in Hs as [Ho Ha]. split; [by apply guar_same|]. cbn -[client].
  destruct a as [[b e]|e]; simpl; apply HQ; try done; try (by apply ext_here); by rewrite Ho.
Qed.

Lemma wp_clock Q h : (forall h' t, ext legal h h' -> Q h' (Ok t)) -> wp clock Q h.
Proof.
  intros HQ past w Hx a w' Hs. apply clock_law in Hs. split; [by apply guar_same|].
  simpl. apply HQ. by apply ext_here.
Qed.

Lemma wp_staging op Q h : (forall h' r, ext legal h h' -> Q h' r) -> wp (staging op) Q h.
Proof.
  intros HQ. apply wp_run. intros past w Hx a w' Hs. apply staging_law in Hs.
  split; [by apply guar_same|]. simpl. apply wp_py. apply HQ. by apply ext_here.
Qed.

Lemma wp_cache_get k v sum Q h :
  (forall h' r, ext legal h h' -> (forall data, r = Ok (Some data) -> sha256_hex data = sum) ->
     Q h' r) -> wp (call (CacheGet k v sum) ≫= py) Q h.
Proof.
  intros HQ. apply wp_run. intros past w Hx a w' Hs. apply cache_get_law in Hs as [Ho Ha].
  split; [by apply guar_same|]. simpl. apply wp_py. apply HQ; [by apply ext_here|].
  intros data. destruct a; simpl; [|done]. intros [= ->]. by apply Ha.
Qed.

Lemma wp_cache_put k v data Q h :
  (forall h' r, ext legal h h' -> Q h' r) -> wp (call (CachePut k v data) ≫= py) Q h.
Proof.
  intros HQ. apply wp_run. intros past w Hx a w' Hs. apply cache_put_law in Hs.
  split; [by apply guar_same|]. simpl. apply wp_py. apply HQ. by apply ext_here.
Qed.

Lemma wp_fetch_opt key cap Q h :
  (forall w past r, ext legal h (w :: past) ->
     match r with
     | Ok (Some (b, e)) => e = etag_of b /\ exists m, objects w !! key = Some {| o_body := b; o_meta := m |}
     | Ok None => objects w !! key = None
     | Err _ => True
     end -> Q (w :: past) r) ->
  wp (not_found_is None (Some <$> _fetch_with_etag key cap)) Q h.
Proof using guar_same guar_legal.
  intros HQ. unfold not_found_is, _fetch_with_etag.
  apply wp_catch; [done|]. apply wp_fmap; [done|]. apply wp_bind; [done|]. apply wp_get_object.
  intros w past w' r Hx Ho Hr. destruct r as [[b e]|[e|e]]; [|done|].
  - case_match; [|by apply HQ]. simpl. by apply HQ.
  - case_match; simpl; apply HQ; auto.
Qed.

Lemma wp_transient_guard {A} (p : prog answer serr A) Q h :
  wp p (fun h r => match r with
                   | Ok a => Q h (Ok a)
                   | Err e => Q h (Err (if _is_snapshot_transient e
                                        then PyErr SnapshotTransientFailure else e))
                   end) h ->
  wp (transient_guard p) Q h.
Proof using guar_legal.
  intros Hp. apply wp_catch; [done|]. eapply wp_mono; [done|exact Hp|].
  intros h' [a|e] _ HQ; [done|]. by case_match.
Qed.

(** [_receive_bounded]: the checksum and size are those of the bytes received. *)
Lemma wp_write_chunks cap total written chunks ends Q h :
  (forall h' r, ext legal h h' ->
     (forall dest, r = Ok dest -> ends = None /\ dest = written +:+ concat_str chunks) -> Q h' r) ->
  wp (write_chunks cap total written chunks ends) Q h.
Proof using guar_same guar_legal.
  revert total written h; induction chunks as [|c chunks IH]; intros total written h HQ;
    cbn [write_chunks].
  - destruct ends as [e|]; simpl; (apply HQ; [constructor|]); [done|].
    intros dest [= <-]. by rewrite str_app_nil_r.
  - case_match; [by apply HQ; [constructor|]|]. apply wp_bind; [done|]. apply wp_staging.
    intros h1 [[]|e] Hx; [|by apply HQ]. apply IH. intros h2 r Hx2 Hr. apply HQ; [by eapply ext_trans|].
    intros dest Hd. destruct (Hr dest Hd) as [-> ->]. split; [done|].
    by rewrite str_app_assoc.
Qed.

Lemma wp_fail_unlink {A} e Q h :
  (forall h', ext legal h h' -> Q h' (Err e : result serr A)) ->
  wp (attempt (staging Unlink) ≫= fun _ => throw e) Q h.
Proof using guar_same guar_legal.
  intros HQ. apply wp_bind; [done|]. apply wp_attempt. apply wp_staging.
  intros h' r Hx. cbn beta iota. by apply HQ.
Qed.

Definition stream_data (s : byte_stream) : string := concat_str (bs_chunks s).

Lemma wp_receive s cap Q h :
  (forall h' r, ext legal h h' ->
     (forall x, r = Ok x -> bs_raises s = None /\
        x = (stream_data s, sha256_hex (stream_data s), len (stream_data s))) -> Q h' r) ->
  wp (_receive_bounded s cap) Q h.
Proof using guar_same guar_legal.
  intros HQ. unfold _receive_bounded. apply wp_bind; [done|]. apply wp_staging.
  intros h1 [[]|e] H1; [|by apply HQ]. apply wp_bind; [done|]. unfold write_capped.
  apply wp_bind; [done|]. apply wp_attempt. apply wp_staging.
  intros h2 o H2. assert (Hx2 : ext legal h h2) by (by eapply ext_trans).
  destruct o as [[]|e]; cbn beta iota.
  2:{ apply wp_fail_unlink. intros h3 H3. apply HQ; [by eapply ext_trans|done]. }
  apply wp_bind; [done|]. apply wp_attempt. apply wp_write_chunks.
  intros h3 r3 H3 Hr3. assert (Hx3 : ext legal h h3) by (by eapply ext_trans).
  cbn beta iota. apply wp_bind; [done|]. apply wp_attempt. apply wp_staging.
  intros h4 r4 H4. assert (Hx4 : ext legal h h4) by (by eapply ext_trans). cbn beta iota.
  destruct r3 as [dest|e]; [destruct r4 as [[]|e]|];
    try (apply wp_fail_unlink; intros h5 H5; apply HQ; [by eapply ext_trans|done]).
  destruct (Hr3 dest eq_refl) as [Hs ->]. rewrite str_app_nil_l. cbn beta iota.
  apply wp_bind; [done|]. apply wp_catch; [done|]. apply wp_staging. intros h5 r5 H5.
  assert (Hx5 : ext legal h h5) by (by eapply ext_trans).
  destruct r5 as [[]|e].
  - simpl. apply HQ; [done|]. by intros x [= <-].
  - apply wp_fail_unlink. intros h6 H6. apply HQ; [by eapply ext_trans|done].
Qed.

Lemma wp_finish_persist o Q h :
  (forall h' r, ext legal h h' -> (forall x, r = Ok x -> o = Ok x) -> Q h' r) ->
  wp (finish_persist o) Q h.
Proof using guar_same guar_legal.
  intros HQ. unfold finish_persist. apply wp_bind; [done|]. apply wp_attempt. apply wp_staging.
  intros h' u Hx. cbn beta iota. destruct o as [x|e]; [destruct u as [[]|e]|]; simpl.
  - apply HQ; [done|]. by intros y [= <-].
  - by apply HQ.
  - destruct (is_transient_failure e); [by apply HQ|]. destruct (_is_snapshot_transient e); by apply HQ.
Qed.
(** A conditional PUT whose effect, wherever it lands, is guaranteed. *)
Lemma wp_put_object key body cond m Q h :
  (forall w past w', ext legal h (w :: past) -> put_allowed (objects w !! key) cond ->
     put_in w key body m w' -> guar (w :: past) w') ->
  (forall w past w' r, ext legal h (w :: past) -> ext legal h (w' :: w :: past) ->
     match r with
     | Ok e => e = etag_of body /\ put_allowed (objects w !! key) cond /\ put_in w key body m w'
     | Err (PyErr _) => False
     | Err (ClientErr _) => True
     end -> Q (w' :: w :: past) r) ->
  wp (put_object key body cond m) Q h.
Proof.
  intros Hl HQ. unfold put_object. apply wp_run. intros past w Hx a w' Hs.
  apply put_law in Hs. assert (Hg : guar (w :: past) w').
  { destruct a as [e|e]; [destruct Hs as (_ & Ha & Hp)|destruct Hs as [Ho|(_ & Ha & Hp)]];
      [by eapply Hl|by apply guar_same|by eapply Hl]. }
  split; [done|]. assert (Hx' : ext legal h (w' :: w :: past)) by (by constructor; [|apply guar_legal]).
  destruct a as [e|e]; simpl; apply HQ; done.
Qed.

End calls.

(** ** Operations *)

Section specs.
Context `{S3Backend W} (pf : string -> pyfloat) (self : S3Storage).

Abbreviation legal := (legal pf self).
Abbreviation good := (good pf self).
Abbreviation reg_key ref := (registry_key ref (st_prefix self)).
Abbreviation snap_key ref id := (snapshot_key ref (st_prefix self) id).
Abbreviation commit_key ref id := (commit_record_key ref (st_prefix self) id).

(** ** Calls that do not write *)

Section quiet.
Context (guar : list W -> W -> Prop).
Hypothesis guar_same : forall w past w', objects w' = objects w -> guar (w :: past) w'.
Hypothesis guar_legal : forall h w, guar h w -> legal h w.

Abbreviation wp := (wp s3_step legal guar).

(** [_read_registry]: the document it returns is the registry's at that moment. *)
Definition reads_registry (h : list W) (ref : StateRef)
    (r : result serr (option (RegistryDoc * string))) : Prop :=
  exists w past, h = w :: past /\
  match r with
  | Ok None => objects w !! reg_key ref = None
  | Ok (Some (d, etag)) => exists b, registry_is pf self w ref b d /\ etag = etag_of b
  | Err _ => True
  end.

Lemma wp_read_registry ref Q h :
  good h -> (forall h' r, ext legal h h' -> reads_registry h' ref r -> Q h' r) ->
  wp (_read_registry pf self ref) Q h.
Proof using guar_same guar_legal.
  intros Hg HQ. unfold _read_registry. apply wp_bind; [done|]. apply wp_py.
  destruct (_require_client self) as [[]|e]; cbn beta iota.
  2:{ destruct (good_cons _ _ _ Hg) as (w & past & ->).
      apply HQ; [constructor|]. by exists w, past. }
  apply wp_bind; [done|]. apply wp_fetch_opt; [done|done|]. intros w past r Hx Hr.
  destruct r as [[[b e]|]|e]; cbn beta iota.
  - destruct Hr as [-> Hm]. apply wp_bind; [done|]. apply wp_py.
    destruct (parse_registry pf b) as [d|e] eqn:E; simpl; apply HQ; try done; exists w, past; [|done].
    split; [done|]. by exists b.
  - simpl. apply HQ; [done|]. by exists w, past.
  - apply HQ; [done|]. by exists w, past.
Qed.

(** [_read_commit_record]: a record it returns is the durable one, [None] means there is none. *)
Lemma wp_read_commit ref id days Q h :
  good h ->
  (forall h' r, ext legal h h' ->
     (exists w past, h' = w :: past /\
        match r with
        | Ok (Some rc) => recorded pf self w rc /\ pr_ref rc = ref /\ pr_snapshot_id rc = id
        | Ok None => objects w !! commit_key ref id = None
        | Err _ => True
        end) -> Q h' r) ->
  wp (_read_commit_record pf self ref id days) Q h.
Proof using guar_same guar_legal.
  intros Hg HQ. unfold _read_commit_record. apply wp_bind; [done|]. apply wp_py.
  destruct (_require_client self) as [[]|e]; cbn beta iota.
  2:{ destruct (good_cons _ _ _ Hg) as (w & past & ->).
      apply HQ; [constructor|]. by exists w, past. }
  apply wp_bind; [done|]. apply wp_fetch_opt; [done|done|]. intros w past r Hx Hr.
  destruct r as [[[b e]|]|e]; cbn beta iota; [|simpl; apply HQ; [done|]; by exists w, past..].
  destruct Hr as [-> [m Hm]]. apply wp_bind; [done|]. apply wp_py.
  destruct (parse_commit pf ref b) as [rc|e] eqn:E; cbn beta iota;
    [|apply HQ; [done|]; by exists w, past].
  destruct (String.eqb_spec (pr_snapshot_id rc) id) as [Hid|Hid]; cbn [negb];
    [|apply HQ; [done|]; by exists w, past].
  case_match; simpl; (apply HQ; [done|]); exists w, past; split; try done.
  destruct (parse_commit_inv pf _ _ _ E) as [_ Hrf]. split_and!; [|done..].
  exists b, m. by rewrite Hrf, Hid.
Qed.

End quiet.

(** ** Calls that write *)

Abbreviation wp := (wp s3_step legal legal).

Lemma legal_unchanged w past w' : objects w' = objects w -> legal (w :: past) w'.
Proof. apply legal_same. Qed.
Lemma legal_id h w : legal h w -> legal h w.
Proof. done. Qed.
Hint Resolve legal_unchanged legal_id : core.

(** [_write_commit_record]: on return the durable record is this receipt. *)
Lemma wp_write_commit r Q h :
  good h -> accepted_ref (pr_ref r) -> receipt_ok r -> committed pf self h r ->
  (forall h' res, ext legal h h' ->
     (res = Ok tt -> ever (fun w => recorded pf self w r) h') -> Q h' res) ->
  wp (_write_commit_record pf self (pr_ref r) r) Q h.
Proof.
  intros Hg Hr Hok Hc HQ. unfold _write_commit_record.
  apply wp_bind; [done|]. apply wp_py.
  destruct (_require_client self) as [[]|e]; cbn beta iota; [|by apply HQ; [constructor|]].
  apply wp_bind; [done|]. apply wp_attempt. apply wp_put_object; [auto|auto| |].
  { intros w past w' Hx Ha Hp. eapply legal_commit; try done. by eapply committed_ext. }
  intros w past w' res _ Hx Hres. cbn beta iota. destruct res as [e|e].
  - destruct Hres as (_ & _ & Hp). simpl. apply HQ; [done|]. intros _. apply ever_head.
    exists (json_dumps (commit_document r)), []. split; [by eapply put_in_eq|].
    by apply parse_commit_written.
  - destruct (_is_precondition_failed e); cbn [negb]; [|by apply HQ]. apply wp_bind; [done|].
    apply wp_read_commit; [auto|auto|by eapply good_ext|]. intros h2 r2 Hx2 (w2 & past2 & -> & Hr2).
    assert (Hx3 : ext legal h (w2 :: past2)) by (by eapply ext_trans).
    destruct r2 as [rc|e2]; [|by apply HQ].
    case_bool_decide as Hrc; simpl; apply HQ; try done. intros _. subst rc. apply ever_head. apply Hr2.
Qed.

(** [_cas_write_registry]: legal when the document is a step from the one the condition names. *)
Lemma wp_cas_registry ref d etag Q h :
  accepted_ref ref -> good h ->
  (forall w past, ext legal h (w :: past) ->
     put_allowed (objects w !! reg_key ref)
       (match etag with None => IfNoneMatch | Some e => IfMatch e end) ->
     exists od, registry_before pf self w ref od /\ doc_step self w ref od d) ->
  (forall h' r, ext legal h h' ->
     match r with
     | Ok e => e = etag_of (json_dumps (registry_document d)) /\
         ever (fun w => registry_is pf self w ref (json_dumps (registry_document d)) d) h'
     | Err _ => True
     end -> Q h' r) ->
  wp (_cas_write_registry self ref d etag) Q h.
Proof.
  intros Hr Hg Hstep HQ. unfold _cas_write_registry. apply wp_bind; [done|]. apply wp_py.
  destruct (_require_client self) as [[]|e]; cbn beta iota; [|by apply HQ; [constructor|]].
  apply wp_catch; [done|]. apply wp_put_object; [auto|auto| |].
  { intros w past w' Hx Ha Hp. destruct (Hstep w past Hx Ha) as (od & Hb & Hs).
    by eapply legal_registry. }
  intros w past w' res Hx' Hx Hres. destruct res as [e|e]; cbn beta iota.
  - destruct Hres as (-> & Ha & Hp).
    destruct (Hstep w past Hx' Ha) as (od & Hb & Hs).
    apply HQ; [done|]. split; [done|]. apply ever_head. by eapply registry_written.
  - destruct (_is_precondition_failed e); by apply HQ.
Qed.

(** [_upload_snapshot_immutable]: [True] means the object is there with these bytes. *)
Definition uploaded_as (ref : StateRef) (id checksum : string) (size : Z) (w : W) : Prop :=
  exists data m, objects w !! snap_key ref id = Some {| o_body := data; o_meta := m |}
    /\ sha256_hex data = checksum /\ len data = size.

Lemma wp_upload ref id data owner Q h :
  accepted_ref ref -> good h ->
  (forall h' r, ext legal h h' ->
     (r = Ok true -> ever (uploaded_as ref id (sha256_hex data) (len data)) h') -> Q h' r) ->
  wp (_upload_snapshot_immutable self ref id data (sha256_hex data) (len data) owner) Q h.
Proof.
  intros Hr Hg HQ. unfold _upload_snapshot_immutable. apply wp_bind; [done|]. apply wp_py.
  destruct (_require_client self) as [[]|e]; cbn beta iota; [|by apply HQ; [constructor|]].
  apply wp_bind; [done|]. apply wp_attempt. apply wp_put_object; [auto|auto| |].
  { intros w past w' Hx Ha Hp. eapply legal_snapshot; try done. cbn [assoc]. by rewrite String.eqb_refl. }
  intros w past w' res Hx' Hx Hres. cbn beta iota. destruct res as [e|e].
  - destruct Hres as (_ & _ & Hp). simpl. apply HQ; [done|]. intros _. apply ever_head.
    eexists data, _. split; [by eapply put_in_eq|done].
  - destruct (_is_precondition_failed e); cbn [negb]; [|by apply HQ].
    apply wp_bind; [done|]. apply wp_head_object; [auto|auto|]. intros w2 past2 w3 r2 Hx2 Ho Hr2.
    assert (Hx3 : ext legal h (w3 :: w2 :: past2)) by (by eapply ext_trans).
    destruct r2 as [[n m]|e2]; cbn beta iota; [|by apply HQ].
    destruct Hr2 as (b & -> & Hm). simpl.
    destruct (bool_decide _) eqn:Hsum; cbn [negb orb]; [|by apply HQ].
    destruct (Z.eqb_spec (len b) (len data)) as [Hlen|]; cbn [negb]; [|by apply HQ].
    apply bool_decide_eq_true in Hsum. simpl. apply HQ; [done|]. intros _. apply ever_head.
    exists b, m. split; [done|]. split; [|done].
    pose proof (good_head _ _ _ _ (good_ext _ _ _ _ Hg Hx3)) as [_ Hi _].
    specialize (Hi ref id _ Hr Hm). simpl in Hi. congruence.
Qed.
End specs.
