(* ===== verification/StoragePersist.v ===== *)
(** * persist, acquire_writer and restore: what they promise under interference *)

From S2P Require Import Prelude Sha256 PyJson PyLoads Config StateRefs Effects Storage StorageDocs StorageLogic StorageSpecs.
Local Open Scope Z_scope.

Section persist.
Context `{S3Backend W} (pf : string -> pyfloat) (self : S3Storage).

Abbreviation legal := (legal pf self).
Abbreviation good := (good pf self).
Abbreviation reg_key ref := (registry_key ref (st_prefix self)).
Abbreviation wp := (wp s3_step legal legal).

Hint Resolve legal_same : core.
Lemma legal_id_per h w : legal h w -> legal h w.
Proof. done. Qed.
Hint Resolve legal_id_per : core.

(** The registry of [ref] held document [d], with text [b], in some world. *)
Definition seen (h : list W) (ref : StateRef) (b : string) (d : RegistryDoc) : Prop :=
  ever (fun w => registry_is pf self w ref b d) h.

Lemma seen_ext h h' ref b d : ext legal h h' -> seen h ref b d -> seen h' ref b d.
Proof. apply ever_ext. Qed.

(** What is seen is no newer than what the registry holds now. *)
Lemma seen_le w past ref b d b' d' :
  good (w :: past) -> accepted_ref ref -> seen (w :: past) ref b d -> registry_is pf self w ref b' d' ->
  doc_le d d' /\ (d = d' -> b = b').
Proof.
  intros Hg Hr (w1 & Hin & Hs) Hw. destruct (good_le _ _ _ _ _ Hg Hin) as (Hle & _ & _).
  destruct (Hle _ _ _ Hr Hs) as (b2 & d2 & H2 & Hd & Hb).
  by destruct (registry_is_fun _ _ _ _ _ _ _ _ H2 Hw) as [-> ->].
Qed.

Lemma registry_is_ok w ref b d : registry_is pf self w ref b d -> doc_ok d.
Proof. intros [_ Hp]. by eapply parse_registry_inv. Qed.

(** The result of a successful commit of [data] as snapshot [id]. *)
Definition persisted (h : list W) (ref : StateRef) (id data : string) (r : PersistReceipt) : Prop :=
  ever (fun w => recorded pf self w r) h
  /\ pr_ref r = ref /\ pr_snapshot_id r = id /\ pr_checksum r = sha256_hex data
  /\ pr_size r = len data.

Lemma persisted_ext h h' ref id data r :
  ext legal h h' -> persisted h ref id data r -> persisted h' ref id data r.
Proof. intros Hx [? ?]. split; [by eapply ever_ext|done]. Qed.

Lemma receipt_from_ok ref d b days r :
  doc_ok d -> _receipt_from ref d (etag_of b) days = Ok r ->
  receipt_ok r /\ pr_ref r = ref /\ _receipt_from ref d (etag_of b) 0 = Ok r
  /\ exists e, rd_latest d = Some e /\ pr_snapshot_id r = le_snapshot_id e
               /\ pr_checksum r = le_checksum e /\ pr_size r = le_size e.
Proof.
  unfold _receipt_from. intros (He & Hw & Hg & Hl). destruct (rd_latest d) as [e|]; [|done].
  case_match; [done|]. intros [= <-]. destruct Hl as (? & ? & ? & ? & ?).
  split; [|split; [done|split; [done|by exists e]]].
  unfold receipt_ok; simpl. split_and!; try done. apply etag_nonempty.
Qed.

Lemma is_latest_true o id sum size :
  is_latest o id sum size = true ->
  exists e, o = Some e /\ le_snapshot_id e = id /\ le_checksum e = sum /\ le_size e = size.
Proof.
  destruct o as [e|]; [|done]. simpl. intros Hb. apply andb_prop in Hb as [Hb Hs].
  apply andb_prop in Hb as [Hi Hc]. exists e.
  by rewrite String.eqb_eq in Hi, Hc; rewrite Z.eqb_eq in Hs.
Qed.

(** Writing the record of a document that is, or was, the registry's. *)
Lemma wp_record_doc ref id data d b days receipt Q h :
  good h -> accepted_ref ref -> seen h ref b d ->
  is_latest (rd_latest d) id (sha256_hex data) (len data) = true ->
  _receipt_from ref d (etag_of b) days = Ok receipt ->
  (forall h' r, ext legal h h' -> (r = Ok tt -> persisted h' ref id data receipt) -> Q h' r) ->
  wp (_write_commit_record pf self ref receipt) Q h.
Proof.
  intros Hg Hr Hs Hl Hrc HQ. assert (Hs' := Hs). destruct Hs' as (w1 & Hin & Hw1).
  destruct (receipt_from_ok _ _ _ _ _ (registry_is_ok _ _ _ _ Hw1) Hrc)
    as (Hok & Href & Hrc0 & e & Hle & Hid & Hsum & Hsize).
  apply is_latest_true in Hl as (e' & He' & ? & ? & ?). assert (e' = e) as -> by congruence.
  rewrite <- Href at 1. apply wp_write_commit; [done|by rewrite Href|done| |].
  - exists w1, b, d. rewrite Href. by split_and!.
  - intros h' res Hx Hres. apply HQ; [done|]. intros ->.
    split; [by apply Hres|]. split_and!; congruence.
Qed.

Lemma wp_reconciled ref lease id data days Q h :
  good h -> accepted_ref ref ->
  (forall h' r, ext legal h h' ->
     (forall x d, r = Ok (Some x, d) -> persisted h' ref id data x) -> Q h' r) ->
  wp (_reconciled_receipt_if_applied pf self ref lease id (sha256_hex data) (len data) days) Q h.
Proof.
  intros Hg Hr HQ. unfold _reconciled_receipt_if_applied. apply wp_bind; [auto|].
  apply wp_read_registry; [auto|auto|done|]. intros h1 r1 Hx1 (w & past & -> & Hr1).
  destruct r1 as [read|e]; [|by apply HQ]. apply wp_bind; [auto|]. apply wp_py.
  destruct (assert_lease_current (fst <$> read) lease) as [d|e] eqn:Ha; cbn beta iota; [|by apply HQ].
  destruct (is_latest (rd_latest d) id _ _) eqn:Hl; [|by apply HQ].
  destruct read as [[d' etag]|]; [|done]. destruct Hr1 as (b & Hb & ->). simpl in Ha |- *.
  assert (d' = d) as -> by (by unfold assert_lease_current in Ha; repeat case_match; simplify_eq).
  apply wp_bind; [auto|]. apply wp_py.
  destruct (_receipt_from ref d (etag_of b) days) as [receipt|e] eqn:Hrc; cbn beta iota; [|by apply HQ].
  apply wp_bind; [auto|].
  eapply (wp_record_doc ref id data d b days); [by eapply good_ext|done|by apply ever_head|done|done|].
  intros h' r Hx' Hres. assert (Hx2 : ext legal h h') by (by eapply ext_trans).
  destruct r as [[]|e]; simpl; apply HQ; try done. intros y d2 [= <- <-]. by apply Hres.
Qed.

(** The base a caller names is the ETag of a document no newer than the one just read. *)
Definition base_known (h : list W) (ref : StateRef) (base : option string) (d : RegistryDoc) : Prop :=
  forall e, base = Some e -> exists b' d', seen h ref b' d' /\ etag_of b' = e /\ doc_le d' d.

(** At the moment the CAS applies, the registry still holds the document that was read. *)
Lemma cas_base_current w past ref b d base etag :
  good (w :: past) -> accepted_ref ref -> seen (w :: past) ref b d ->
  base_known (w :: past) ref base d -> etag = from_option id (etag_of b) base ->
  put_allowed (objects w !! reg_key ref) (IfMatch etag) ->
  exists b', registry_is pf self w ref b' d.
Proof.
  intros Hg Hr Hs Hk -> ([b1 m1] & Ho & He). simpl in He.
  destruct base as [e|]; simpl in He.
  - destruct (Hk e eq_refl) as (b' & d' & Hs' & He' & Hle). rewrite <- He' in He. apply etag_inj in He as ->.
    assert (Hi : registry_is pf self w ref b' d').
    { split; [by exists m1|]. by destruct Hs' as (w1 & _ & _ & Hp). }
    destruct (seen_le _ _ _ _ _ _ _ Hg Hr Hs Hi) as [Hle' _].
    rewrite (doc_le_antisym d' d) in Hi by done. by exists b'.
  - apply etag_inj in He as ->. exists b. split; [by exists m1|].
    by destruct Hs as (w1 & _ & _ & Hp).
Qed.

Lemma uploaded_present w past ref e :
  good (w :: past) -> accepted_ref ref ->
  ever (uploaded_as self ref (le_snapshot_id e) (le_checksum e) (le_size e)) (w :: past) ->
  snapshot_present self w ref e.
Proof.
  intros Hg Hr (w1 & Hin & Hu). eapply snapshot_present_le; [done|by eapply good_le|exact Hu].
Qed.

(** The retention fields of a new entry. *)
Lemma expiry_dates_ok now days c e :
  _format_retention_date now = Ok c -> 0 <= days -> expiry_of c days = Ok e -> dates_ok (Some c) e.
Proof.
  intros [Hn ->]%format_in_range Hd. unfold expiry_of. rewrite instant_of_date by done.
  cbn [mbind result_bind]. destruct (0 <? days).
  - intros (s & [Hn' ->]%format_in_range & ->)%fmap_ok. simpl. exists now, (now + days * day_us).
    split_and!; try done. unfold day_us. lia.
  - intros [= <-]. by exists now.
Qed.

Lemma prev_version_nonneg d : doc_ok d -> 0 <= prev_version d.
Proof.
  intros (_ & _ & _ & Hl). unfold prev_version. destruct (rd_latest d) as [e|]; [|done].
  destruct Hl as (_ & _ & _ & Hv & _). lia.
Qed.

(** The guard on the base: what [base] is when it is not a conflict. *)
Lemma wp_choose_base (d : RegistryDoc) (etag : string) expected_base Q h :
  (forall e, Q h (Err e)) -> Q h (Ok (from_option id etag expected_base)) ->
  wp (match expected_base with
      | None => match rd_latest d with
                | Some _ => throw (PyErr ConcurrentModification)
                | None => mret etag
                end
      | Some base => mret base
      end : prog answer serr string) Q h.
Proof. intros HE HO. destruct expected_base; [done|]. destruct (rd_latest d); [apply HE|done]. Qed.

Lemma wp_commit ref id data lease expected_base days d b Q h :
  good h -> accepted_ref ref -> truthy id = true -> 0 <= days ->
  seen h ref b d -> assert_lease_current (Some d) lease = Ok d -> base_known h ref expected_base d ->
  (forall h' r, ext legal h h' -> (forall x, r = Ok x -> persisted h' ref id data x) -> Q h' r) ->
  wp (_commit pf self ref id data (sha256_hex data) (len data) lease expected_base days d (etag_of b)) Q h.
Proof.
  intros Hg Hr Hid Hdays Hs Ha Hk HQ. unfold _commit. apply wp_bind; [auto|].
  apply wp_read_commit; [auto|auto|done|]. intros h1 r1 Hx1 (w1 & past1 & -> & Hr1).
  destruct r1 as [[rc|]|e]; cbn beta iota; [| |by apply HQ].
  { destruct Hr1 as (Hrec & Href & Hrid).
    destruct (String.eqb_spec (pr_checksum rc) (sha256_hex data)); [|by apply HQ].
    destruct (Z.eqb_spec (pr_size rc) (len data)); [|by apply HQ]. simpl. apply HQ; [done|].
    intros x [= <-]. split; [by apply ever_head|done]. }
  assert (Hg1 : good (w1 :: past1)) by (by eapply good_ext).
  assert (Hs1 : seen (w1 :: past1) ref b d) by (by eapply seen_ext).
  destruct (is_latest (rd_latest d) id _ _) eqn:Hl.
  { apply wp_bind; [auto|]. apply wp_py.
    destruct (_receipt_from ref d (etag_of b) days) as [receipt|e] eqn:Hrc; cbn beta iota; [|by apply HQ].
    apply wp_bind; [auto|]. eapply (wp_record_doc ref id data d b days); try done.
    intros h2 r2 Hx2 Hr2. assert (Hx : ext legal h h2) by (by eapply ext_trans).
    destruct r2 as [[]|e]; simpl; apply HQ; try done. intros x [= <-]. by apply Hr2. }
  apply wp_bind; [auto|]. apply wp_upload; [done|done|]. intros h2 r2 Hx2 Hr2.
  assert (Hxb : ext legal h h2) by (by eapply ext_trans).
  destruct r2 as [[]|e]; cbn [negb]; cbn beta iota; [|by apply HQ..].
  specialize (Hr2 eq_refl). apply wp_bind; [auto|]. apply wp_choose_base; [by intros; apply HQ|].
  cbn beta iota. apply wp_bind; [auto|]. apply wp_clock; [auto|auto|]. intros h3 now Hx3.
  assert (Hxc : ext legal h h3) by (by eapply ext_trans). cbn beta iota.
  apply wp_bind; [auto|]. apply wp_py.
  destruct (_format_retention_date now) as [committed_at|e] eqn:Hc; cbn beta iota; [|by apply HQ].
  apply wp_bind; [auto|]. apply wp_py.
  destruct (expiry_of committed_at days) as [expires_at|e] eqn:He; cbn beta iota; [|by apply HQ].
  pose proof (expiry_dates_ok _ _ _ _ Hc Hdays He) as Hdates.
  assert (Hok : doc_ok d) by (destruct Hs as (? & _ & ?); by eapply registry_is_ok).
  change (match rd_latest d with Some e => le_version e | None => 0 end) with (prev_version d).
  set (entry := {| le_snapshot_id := id; le_checksum := sha256_hex data; le_size := len data;
                   le_version := prev_version d + 1; le_committed_at := Some committed_at;
                   le_expires_at := expires_at |}).
  assert (Hentry : entry_ok entry).
  { pose proof (prev_version_nonneg d Hok). unfold entry_ok, entry; simpl. split_and!; try done; [|unfold len; lia|lia].
    unfold hex64. by rewrite sha256_hex_length, sha256_hex_is_hex. }
  assert (Hlease : wl_epoch lease = rd_writer_epoch d
                   /\ wl_writer_instance_id lease = rd_writer_instance_id d).
  { unfold assert_lease_current in Ha. destruct (Z.eqb_spec (rd_writer_epoch d) (wl_epoch lease)); [|done].
    destruct (String.eqb_spec (rd_writer_instance_id d) (wl_writer_instance_id lease)); [|done]. done. }
  destruct Hlease as [-> ->]. set (new := with_committed_snapshot d _ _ entry).
  assert (Hg3 : good h3) by (apply (good_ext pf self h); done).
  apply wp_bind; [auto|]. apply wp_attempt. apply wp_cas_registry; [done|done| |].
  { intros w past Hx Hput. assert (Hgw : good (w :: past)) by (apply (good_ext pf self h3); done).
    exists (Some d). split.
    - eapply (cas_base_current w past ref b d expected_base); try done.
      + eapply seen_ext; [|exact Hs]. by eapply ext_trans.
      + intros e' He'. destruct (Hk e' He') as (b' & d' & Hs' & ? & ?). exists b', d'.
        split; [|done]. eapply seen_ext; [|exact Hs']. by eapply ext_trans.
    - unfold new. apply step_commit; [done|done|]. apply (uploaded_present w past); [done|done|].
      eapply ever_ext; [|exact Hr2]. by eapply ext_trans. }
  intros h4 r4 Hx4 Hr4. assert (Hxd : ext legal h h4) by (by eapply ext_trans).
  assert (Hg4 : good h4) by (apply (good_ext pf self h); done). cbn beta iota. destruct r4 as [etag|e].
  - destruct Hr4 as [-> Hs4]. apply wp_bind; [auto|].
    eapply (wp_record_doc ref id data new _ 0); [done|done|exact Hs4| |reflexivity|].
    + unfold is_latest, new, entry; simpl. by rewrite !String.eqb_refl, Z.eqb_refl.
    + intros h5 r5 Hx5 Hr5. assert (Hxe : ext legal h h5) by (by eapply ext_trans).
      destruct r5 as [[]|e]; simpl; apply HQ; try done. intros x [= <-]. by apply Hr5.
  - apply wp_bind; [auto|]. apply wp_reconciled; [done|done|]. intros h5 r5 Hx5 Hr5.
    assert (Hxe : ext legal h h5) by (by eapply ext_trans).
    destruct r5 as [[[x|] d5]|e5]; cbn beta iota; [| |by apply HQ].
    + simpl. apply HQ; [done|]. intros y [= <-]. by eapply Hr5.
    + destruct (is_precondition e); [by apply HQ|]. case_bool_decide; by apply HQ.
Qed.

(** What [persist] may be asked: an accepted descriptor, a snapshot id, and a base that is the
    ETag of a registry document of the domain already seen. *)
Definition persist_args (h : list W) (ref : StateRef) (id : string) (expected_base : option string)
    : Prop :=
  accepted_ref ref /\ truthy id = true
  /\ forall e, expected_base = Some e -> exists b d, seen h ref b d /\ etag_of b = e.

Lemma wp_persist ref id stream lease expected_base days Q h :
  good h -> persist_args h ref id expected_base ->
  (forall h' r, ext legal h h' ->
     (forall x, r = Ok x -> bs_raises stream = None /\ wl_ref lease = ref
                            /\ persisted h' ref id (stream_data stream) x) -> Q h' r) ->
  wp (persist pf self ref id stream lease expected_base days) Q h.
Proof.
  intros Hg (Hr & Hid & Hbase) HQ. unfold persist. apply wp_bind; [auto|]. apply wp_py.
  unfold _validate_retention_days. destruct (Z.leb_spec 0 days) as [Hdays|]; cbn [require]; cbn beta iota;
    [|by apply HQ; [constructor|]].
  case_bool_decide as Href; cbn [negb]; [|by apply HQ; [constructor|]].
  apply wp_bind; [auto|]. apply wp_transient_guard; [auto|].
  apply wp_read_registry; [auto|auto|done|]. intros h1 r1 Hx1 (w1 & past1 & -> & Hr1).
  destruct r1 as [read|e]; cbn beta iota; [|by apply HQ]. apply wp_bind; [auto|]. apply wp_py.
  destruct (assert_lease_current (fst <$> read) lease) as [d|e] eqn:Ha; cbn beta iota; [|by apply HQ].
  destruct read as [[d' etag]|]; [|done]. destruct Hr1 as (b & Hb & ->). simpl in Ha.
  cbn [from_option snd]. cbn zeta.
  assert (d' = d) as -> by (by unfold assert_lease_current in Ha; repeat case_match; simplify_eq).
  assert (Hg1 : good (w1 :: past1)) by (by eapply good_ext).
  apply wp_bind; [auto|]. apply wp_receive; [auto|auto|]. intros h2 r2 Hx2 Hr2.
  assert (Hxb : ext legal h h2) by (by eapply ext_trans).
  destruct r2 as [x|e]; cbn beta iota; [|by apply HQ].
  destruct (Hr2 x eq_refl) as [Hraise ->]. cbn beta iota.
  apply wp_bind; [auto|]. apply wp_attempt.
  eapply (wp_commit ref id (stream_data stream) lease expected_base days d b); try done.
  - by eapply good_ext.
  - eapply seen_ext; [exact Hx2|]. by apply ever_head.
  - intros e He. destruct (Hbase e He) as (b' & d' & Hs' & He'). exists b', d'. split_and!; [|done|].
    + by eapply seen_ext.
    + eapply (seen_le w1 past1); [done|done| |exact Hb]. by eapply seen_ext.
  - intros h3 r3 Hx3 Hr3. assert (Hxc : ext legal h h3) by (by eapply ext_trans). cbn beta iota.
    apply wp_finish_persist; [auto|auto|]. intros h4 r4 Hx4 Hr4.
    assert (Hxd : ext legal h h4) by (by eapply ext_trans). apply HQ; [done|]. intros x Hx.
    split_and!; [done|done|]. eapply persisted_ext; [exact Hx4|]. by apply Hr3, Hr4.
Qed.
End persist.

Section acquire.
Context `{S3Backend W} (pf : string -> pyfloat) (self : S3Storage).

Abbreviation legal := (legal pf self).
Abbreviation good := (good pf self).
Abbreviation seen := (seen pf self).
Abbreviation reg_key ref := (registry_key ref (st_prefix self)).
Abbreviation commit_key ref id := (commit_record_key ref (st_prefix self) id).
Abbreviation wp := (wp s3_step legal legal).

Hint Resolve legal_same : core.
Local Lemma legal_id_acq h w : legal h w -> legal h w.
Proof. done. Qed.
Hint Resolve legal_id_acq : core.

(** ** acquire_writer *)

(** A granted lease: the registry recorded this instance as the writer of this epoch. *)
Definition granted (h : list W) (ref : StateRef) (i : string) (lease : WriterLease) : Prop :=
  wl_ref lease = ref /\ wl_writer_instance_id lease = i
  /\ exists b d, seen h ref b d /\ rd_writer_epoch d = wl_epoch lease
       /\ rd_writer_instance_id d = i
       /\ wl_base_etag lease = match rd_latest d with Some _ => Some (etag_of b) | None => None end.

Lemma granted_ext h h' ref i l : ext legal h h' -> granted h ref i l -> granted h' ref i l.
Proof.
  intros Hx (? & ? & b & d & Hs & ?). split_and!; try done. exists b, d. split; [|done].
  by eapply seen_ext.
Qed.

Lemma wp_acquire_loop n ref i rejected Q h :
  good h -> accepted_ref ref -> truthy i = true ->
  (forall h' r, ext legal h h' -> (forall l, r = Ok l -> granted h' ref i l) -> Q h' r) ->
  wp (acquire_loop pf self n ref i rejected) Q h.
Proof.
  revert rejected h; induction n as [|n IH]; intros rejected h Hg Hr Hi HQ; cbn [acquire_loop].
  { by apply HQ; [constructor|]. }
  apply wp_bind; [auto|]. apply wp_transient_guard; [auto|].
  apply wp_read_registry; [auto|auto|done|]. intros h1 r1 Hx1 (w1 & past1 & -> & Hr1).
  destruct r1 as [read|e]; cbn beta iota; [|by apply HQ]. cbn zeta.
  destruct (_ && _); [by apply HQ|].
  set (new_doc := match read with Some (current, _) => with_new_writer current i
                             | None => RegistryDoc_empty i end).
  assert (Hg1 : good (w1 :: past1)) by (by eapply good_ext).
  apply wp_bind; [auto|]. apply wp_attempt. apply wp_cas_registry; [done|done| |].
  { intros w past Hx Hput. destruct read as [[d etag]|]; simpl in Hput.
    - destruct Hr1 as (b & Hb & ->). exists (Some d). split; [|by apply step_writer].
      destruct Hput as ([b1 m1] & Ho & He). apply etag_inj in He. simpl in He. subst b1.
      exists b. split; [by exists m1|by destruct Hb].
    - exists None. split; [done|]. by apply step_first. }
  intros h2 r2 Hx2 Hr2. assert (Hxb : ext legal h h2) by (by eapply ext_trans). cbn beta iota.
  destruct r2 as [etag|e].
  - destruct Hr2 as [-> Hs]. simpl. apply HQ; [done|]. intros l [= <-]. split_and!; try done.
    exists (json_dumps (registry_document new_doc)), new_doc. split_and!; try done.
    unfold new_doc. by destruct read as [[d etag]|].
  - destruct (is_precondition e).
    + apply IH; [|done|done|].
      * apply (good_ext pf self h); done.
      * intros h3 r3 Hx3 Hr3. apply HQ; [by eapply ext_trans|done].
    + apply wp_transient_guard; [auto|]. simpl. by apply HQ.
Qed.

Lemma wp_acquire ref i Q h :
  good h -> accepted_ref ref -> truthy i = true ->
  (forall h' r, ext legal h h' -> (forall l, r = Ok l -> granted h' ref i l) -> Q h' r) ->
  wp (acquire_writer pf self ref i) Q h.
Proof.
  intros Hg Hr Hi HQ. unfold acquire_writer. apply wp_bind; [auto|]. apply wp_py.
  destruct (_require_client self) as [[]|e]; cbn beta iota; [|by apply HQ; [constructor|]].
  by apply wp_acquire_loop.
Qed.

Lemma calls_read_registry ref : calls_within 1 (_read_registry pf self ref).
Proof.
  unfold _read_registry. destruct (_require_client self) as [[]|e]; [|done].
  unfold not_found_is, _fetch_with_etag, get_object. simpl. intros [[b e]|e]; simpl.
  - destruct (_ <? _); simpl; [done|]. by destruct (parse_registry pf b).
  - by destruct (_is_not_found _).
Qed.

Lemma calls_cas ref d etag : calls_within 1 (_cas_write_registry self ref d etag).
Proof.
  unfold _cas_write_registry. destruct (_require_client self) as [[]|e]; [|done].
  simpl. intros [e|e]; simpl; [done|]. by destruct (_is_precondition_failed _).
Qed.

Lemma calls_guard {A} n (p : prog answer serr A) : calls_within n p -> calls_within n (transient_guard p).
Proof.
  intros Hp. replace n with (n + 0)%nat by lia. apply calls_within_run; [done|].
  intros [a|e]; [done|]. by destruct (_is_snapshot_transient e).
Qed.

Lemma calls_acquire_loop n ref i rejected : calls_within (2 * n) (acquire_loop pf self n ref i rejected).
Proof.
  revert rejected; induction n as [|n IH]; intros rejected; cbn [acquire_loop]; [done|].
  replace (2 * S n)%nat with (1 + (1 + 2 * n))%nat by lia.
  apply calls_within_run; [apply calls_guard, calls_read_registry|].
  intros [read|e]; [|done]. cbn zeta. destruct (_ && _); [done|].
  apply calls_within_run.
  { replace 1%nat with (1 + 0)%nat by lia. apply calls_within_run; [apply calls_cas|done]. }
  intros [[etag|e]|e]; [exact I| |exact I]. destruct (is_precondition e); [apply IH|].
  apply calls_guard. exact I.
Qed.

(** ** restore *)

(** What [restore] returns: a receipt of a document the registry held. *)
Definition restorable (h : list W) (ref : StateRef) (rr : RestoreReceipt) : Prop :=
  exists b d e, seen h ref b d /\ rd_latest d = Some e
    /\ rr_ref rr = ref /\ rr_snapshot_id rr = le_snapshot_id e
    /\ rr_writer_epoch rr = rd_writer_epoch d /\ rr_generation rr = rd_generation d
    /\ rr_etag rr = etag_of b /\ rr_checksum rr = le_checksum e /\ rr_size rr = le_size e
    /\ rr_version rr = le_version e /\ rr_committed_at rr = le_committed_at e
    /\ rr_expires_at rr = le_expires_at e.

Lemma wp_check_expiry e Q h : (forall h' r, ext legal h h' -> Q h' r) -> wp (check_expiry_now e) Q h.
Proof.
  intros HQ. unfold check_expiry_now. apply wp_bind; [auto|]. apply wp_clock; [auto|auto|].
  intros h' t Hx. cbn beta iota. apply wp_py. by apply HQ.
Qed.

(** Runs that end in bytes of the registered checksum, if they end in bytes. *)
Abbreviation verified e Q h :=
  (forall h' r, ext legal h h' -> (forall data, r = Ok data -> sha256_hex data = le_checksum e) ->
     Q h' r).

(** [step Hx]: the continuation of a call, from a history that extends the current one. *)
Ltac extend h h' Hx := assert (Hx : ext legal h h') by (by eapply ext_trans).

Lemma wp_verified_payload ref e Q h : verified e Q h -> wp (verified_payload self ref e) Q h.
Proof.
  intros HQ. unfold verified_payload, _download_capped. do 2 (apply wp_bind; [auto|]).
  apply wp_get_object; [auto|auto|]. intros w past w' r Hx1 _ _.
  destruct r as [[b et]|x]; cbn beta iota; [|by apply HQ].
  apply wp_bind; [auto|]. apply wp_staging; [auto|auto|]. intros h2 [[]|x] H2; cbn beta iota;
    extend h h2 Hx2; [|by apply HQ].
  destruct (_ <? _); [by apply HQ|]. unfold mret at 1, prog_ret at 1. cbn [wp].
  cbn beta iota. destruct (_ =? _); cbn [negb]; [|by apply HQ].
  apply wp_bind; [auto|]. apply wp_staging; [auto|auto|]. intros h3 [[]|x] H3; cbn beta iota;
    extend h h3 Hx3; [|by apply HQ].
  destruct (String.eqb_spec (sha256_hex b) (le_checksum e)) as [E|]; cbn [negb]; [|by apply HQ].
  apply wp_bind; [auto|]. apply wp_staging; [auto|auto|]. intros h4 [[]|x] H4; cbn beta iota;
    extend h h4 Hx4; [|by apply HQ].
  apply HQ; [done|]. by intros data [= <-].
Qed.

Lemma wp_put_in_cache ref e payload Q h :
  (forall h' r, ext legal h h' -> Q h' r) -> wp (cache_put self ref e payload) Q h.
Proof.
  intros HQ. unfold cache_put. destruct (st_cache self); [|by apply HQ; constructor].
  apply wp_cache_put; [auto|auto|done].
Qed.

Lemma wp_open ref e cached Q h :
  (forall data, cached = Some data -> sha256_hex data = le_checksum e) ->
  verified e Q h -> wp (_open self ref e cached) Q h.
Proof.
  intros Hcached HQ. unfold _open. apply wp_bind; [auto|]. apply wp_check_expiry.
  intros h1 [[]|x] Hx1; cbn beta iota; [|by apply HQ].
  destruct cached as [data|]; [simpl; apply HQ; [done|]; intros ? [= <-]; by apply Hcached|].
  apply wp_bind; [auto|]. apply wp_staging; [auto|auto|]. intros h2 [[]|x] H2; cbn beta iota;
    extend h h2 Hx2; [|by apply HQ].
  apply wp_bind; [auto|]. apply wp_attempt. apply wp_verified_payload.
  intros h3 r3 H3 Hr3. extend h h3 Hx3. cbn beta iota.
  apply wp_bind; [auto|]. apply wp_attempt. apply wp_staging; [auto|auto|]. intros h4 u H4.
  extend h h4 Hx4. cbn beta iota.
  destruct r3 as [payload|x]; [|by apply HQ]. destruct u as [[]|x]; [|by apply HQ].
  specialize (Hr3 payload eq_refl). apply wp_bind; [auto|]. apply wp_check_expiry.
  intros h5 [[]|x] H5; cbn beta iota; extend h h5 Hx5; [|by apply HQ].
  apply wp_bind; [auto|]. apply wp_put_in_cache.
  intros h6 [[]|x] H6; cbn beta iota; extend h h6 Hx6; [|by apply HQ].
  apply wp_bind; [auto|]. apply wp_check_expiry.
  intros h7 [[]|x] H7; cbn beta iota; extend h h7 Hx7; [|by apply HQ].
  simpl. apply HQ; [done|]. by intros ? [= <-].
Qed.

Lemma wp_get_from_cache ref e Q h :
  (forall h' r, ext legal h h' ->
     (forall data, r = Ok (Some data) -> sha256_hex data = le_checksum e) -> Q h' r) ->
  wp (cache_get self ref e) Q h.
Proof.
  intros HQ. unfold cache_get. destruct (st_cache self); [|by apply HQ; [constructor|]].
  apply wp_cache_get; [auto|auto|done].
Qed.

Lemma wp_check_object ref e cached Q h :
  (forall h' r, ext legal h h' -> Q h' r) -> wp (check_object self ref e cached) Q h.
Proof.
  intros HQ. destruct cached as [data|]; [by apply HQ; constructor|]. unfold check_object.
  apply wp_bind; [auto|]. apply wp_catch; [auto|].
  apply wp_head_object; [auto|auto|]. intros w past w' r Hx _ _.
  destruct r as [[n m]|x]; cbn beta iota.
  - destruct (_ =? _); by apply HQ.
  - destruct (_is_not_found x); by apply HQ.
Qed.

Lemma wp_restore ref days Q h :
  good h ->
  (forall h' r, ext legal h h' ->
     (forall rr, r = Ok (Some rr) -> restorable h' ref rr /\
        exists e cached, rr_open rr = _open self ref e cached /\ rr_checksum rr = le_checksum e
          /\ forall data, cached = Some data -> sha256_hex data = le_checksum e) -> Q h' r) ->
  wp (restore pf self ref days) Q h.
Proof.
  intros Hg HQ. unfold restore. apply wp_bind; [auto|]. apply wp_py.
  destruct (_validate_retention_days days) as [[]|x]; cbn beta iota; [|by apply HQ; [constructor|]].
  apply wp_bind; [auto|]. apply wp_py.
  destruct (_require_client self) as [[]|x]; cbn beta iota; [|by apply HQ; [constructor|]].
  apply wp_bind; [auto|]. apply wp_read_registry; [auto|auto|done|].
  intros h1 r1 Hx1 (w1 & past1 & -> & Hr1).
  destruct r1 as [[[d etag]|]|x]; cbn beta iota; [|by apply HQ..].
  destruct Hr1 as (b & Hb & ->). destruct (rd_latest d) as [e|] eqn:El; [|by apply HQ].
  assert (Hs : seen (w1 :: past1) ref b d) by (by apply ever_head).
  destruct (_ && _); [by apply HQ|]. apply wp_bind; [auto|]. apply wp_check_expiry.
  intros h2 [[]|x] H2; cbn beta iota; extend h h2 Hx2; [|by apply HQ].
  destruct (_ <? _); [by apply HQ|]. apply wp_bind; [auto|]. apply wp_get_from_cache.
  intros h3 [cached|x] H3 Hc; cbn beta iota; extend h h3 Hx3; [|by apply HQ].
  apply wp_bind; [auto|]. apply wp_check_object.
  intros h4 [[]|x] H4; cbn beta iota; extend h h4 Hx4; [|by apply HQ].
  simpl. apply HQ; [done|]. intros rr [= <-]. split.
  - exists b, d, e. split; [|by split_and!]. eapply seen_ext; [|exact Hs].
    eapply ext_trans; [exact H2|]. by eapply ext_trans.
  - exists e, cached. split_and!; try done. intros data ->. by apply Hc.
Qed.
End acquire.
