(* ===== verification/StorageProps.v ===== *)
(** * Fenced storage: what holds of any number of interleaved operations

    The operations of every writer of a bucket run interleaved, call by call, from an empty
    bucket; any call may fail, and a failed PUT may have been applied. *)

From S2P Require Import Prelude Sha256 PyJson PyLoads Config StateRefs Effects Storage StorageDocs StorageLogic StorageSpecs StoragePersist.
Local Open Scope Z_scope.

(** ** Operations *)

Inductive storage_op :=
  | OpAcquire (ref : StateRef) (writer_instance_id : string)
  | OpPersist (ref : StateRef) (snapshot_id : string) (stream : byte_stream) (lease : WriterLease)
      (expected_base : option string) (retention_days : Z)
  | OpRestore (ref : StateRef) (retention_days : Z)
  | OpCurrentWriter (ref : StateRef).

Inductive storage_result :=
  | ResLease (l : WriterLease)
  | ResReceipt (r : PersistReceipt)
  | ResRestored (o : option (RestoreReceipt * string))
  | ResWriter (o : option string).

Section system.
Context `{S3Backend W} (pf : string -> pyfloat) (self : S3Storage).

Abbreviation legal := (legal pf self).
Abbreviation good := (good pf self).
Abbreviation seen := (seen pf self).
Abbreviation wp := (wp s3_step legal legal).

(** The caller of [restore] consumes the content it returns. *)
Definition op_code (o : storage_op) : prog answer serr storage_result :=
  match o with
  | OpAcquire ref i => ResLease <$> acquire_writer pf self ref i
  | OpPersist ref id stream lease base days =>
      ResReceipt <$> persist pf self ref id stream lease base days
  | OpRestore ref days =>
      rr ← restore pf self ref days;
      match rr with
      | None => mret (ResRestored None)
      | Some rr => data ← rr_open rr; mret (ResRestored (Some (rr, data)))
      end
  | OpCurrentWriter ref => ResWriter <$> current_writer pf self ref
  end.

(** Callers name accepted descriptors, non-empty ids, and bases they were given. *)
Definition op_args (o : storage_op) (h : list W) : Prop :=
  match o with
  | OpAcquire ref i => accepted_ref ref /\ truthy i = true
  | OpPersist ref id _ _ base _ => persist_args pf self h ref id base
  | OpRestore ref _ | OpCurrentWriter ref => accepted_ref ref
  end.

Definition op_post (o : storage_op) (h : list W) (r : result serr storage_result) : Prop :=
  match o, r with
  | OpAcquire ref i, Ok (ResLease l) => granted pf self h ref i l
  | OpPersist ref id stream lease _ _, Ok (ResReceipt r) =>
      wl_ref lease = ref /\ accepted_ref ref /\ persisted pf self h ref id (stream_data stream) r
  | OpRestore ref _, Ok (ResRestored (Some (rr, data))) =>
      accepted_ref ref /\ restorable pf self h ref rr /\ sha256_hex data = rr_checksum rr
  | _, _ => True
  end.

Lemma op_post_stable o : stable legal (op_post o).
Proof.
  intros h h' r Hx. destruct o, r as [[]|]; simpl; try done.
  - by apply granted_ext.
  - intros (? & ? & ?). split_and!; try done. by eapply persisted_ext.
  - destruct o as [[rr data]|]; [|done]. intros (? & (b & d & e & Hs & ?) & ?).
    split_and!; try done. exists b, d, e. split; [by eapply seen_ext|done].
Qed.

Hint Resolve legal_same : core.
Local Lemma legal_id_sys h w : legal h w -> legal h w.
Proof. done. Qed.
Hint Resolve legal_id_sys : core.

Lemma op_wp o h : good h -> op_args o h -> wp (op_code o) (op_post o) h.
Proof.
  intros Hg Ha. destruct o as [ref i|ref id stream lease base days|ref days|ref]; cbn [op_code op_args] in *.
  - apply wp_fmap; [auto|]. destruct Ha as [Hr Hi]. apply wp_acquire; try done.
    intros h' [l|e] Hx Hl; simpl; [|done]. by apply Hl.
  - apply wp_fmap; [auto|]. apply wp_persist; [done|done|]. intros h' [r|e] Hx Hres; simpl; [|done].
    destruct (Hres r eq_refl) as (_ & ? & ?). split_and!; try done. by destruct Ha.
  - apply wp_bind; [auto|]. apply wp_restore; [done|]. intros h' [[rr|]|e] Hx Hres; cbn beta iota; [|done..].
    destruct (Hres rr eq_refl) as (Hrest & e & cached & Hopen & Hsum & Hc).
    apply wp_bind; [auto|]. rewrite Hopen. apply wp_open; [done|].
    intros h2 [data|x] Hx2 Hd; simpl; [|done]. split_and!; try done.
    + destruct Hrest as (b & d & e' & Hs & ?). exists b, d, e'. split; [by eapply seen_ext|done].
    + rewrite Hsum. by apply Hd.
  - apply wp_fmap; [auto|]. unfold current_writer. apply wp_bind; [auto|]. apply wp_py.
    destruct (_require_client self) as [[]|e]; cbn beta iota; [|done].
    apply wp_bind; [auto|]. apply wp_read_registry; [auto|auto|done|].
    by intros h' [[[d et]|]|e] _ _.
Qed.

(** ** Reachable systems *)

(** [reachable w0 (h, ts)]: from the empty bucket [w0], some interleaving of the started
    operations [ts] produced the worlds [h]. *)
Definition reachable (w0 : W) (s : system (W:=W)) : Prop :=
  objects w0 = ∅ /\ sys_reachable s3_step op_code op_args w0 s.

Lemma reachable_inv w0 h ts :
  reachable w0 (h, ts) ->
  good h /\ forall o r, In (o, Done r) ts -> op_post o h r.
Proof.
  intros [Hw0 Hr]. destruct (system_inv s3_step legal op_code op_args op_post op_post_stable w0 h ts)
    as [Hx Hts]; [|done|].
  - intros o h' Hx Ha. apply op_wp; [|done]. by exists w0.
  - split; [by exists w0|]. intros o r Hin. rewrite Forall_forall in Hts.
    apply (Hts (o, Done r)). by apply list_elem_of_In.
Qed.

Lemma ever_recorded w past r :
  good (w :: past) -> accepted_ref (pr_ref r) ->
  ever (fun w => recorded pf self w r) (w :: past) -> recorded pf self w r.
Proof.
  intros Hg Hr (w1 & Hin & b & m & Ho & Hp). destruct (good_le _ _ _ _ _ Hg Hin) as (_ & _ & Hc).
  exists b, m. split; [by apply Hc|done].
Qed.

Lemma recorded_fun w r1 r2 :
  recorded pf self w r1 -> recorded pf self w r2 -> pr_ref r1 = pr_ref r2 ->
  pr_snapshot_id r1 = pr_snapshot_id r2 -> r1 = r2.
Proof.
  intros (b1 & m1 & H1 & P1) (b2 & m2 & H2 & P2) Er Ei. rewrite Er, Ei, H2 in H1.
  injection H1 as <- <-. rewrite Er, P2 in P1. congruence.
Qed.

(** C9. A snapshot id is committed at most once: whatever operations ran, interleaved or
    retried, by whichever writers, and however the backend failed, any two [persist] calls for
    the same domain and snapshot id that returned a receipt returned the same receipt, and the
    bytes they were given have the same SHA-256 digest. *)
Theorem persist_receipts_agree w0 h ts ref id s1 l1 b1 d1 r1 s2 l2 b2 d2 r2 :
  reachable w0 (h, ts) ->
  In (OpPersist ref id s1 l1 b1 d1, Done (Ok (ResReceipt r1))) ts ->
  In (OpPersist ref id s2 l2 b2 d2, Done (Ok (ResReceipt r2))) ts ->
  r1 = r2 /\ sha256_hex (stream_data s1) = sha256_hex (stream_data s2).
Proof.
  intros Hr H1 H2. apply reachable_inv in Hr as [Hg Hpost].
  apply Hpost in H1 as (_ & Hr1 & Hp1), H2 as (_ & Hr2 & Hp2).
  destruct (good_cons _ _ _ Hg) as (w & past & ->).
  destruct Hp1 as (R1 & E1 & I1 & C1 & _), Hp2 as (R2 & E2 & I2 & C2 & _).
  apply ever_recorded in R1; [|done|by rewrite E1]. apply ever_recorded in R2; [|done|by rewrite E2].
  assert (r1 = r2) as -> by (eapply recorded_fun; [exact R1|exact R2|congruence|congruence]).
  split; [done|congruence].
Qed.

(** C10. A receipt is durable: after [persist] returned it, in every later state the snapshot
    object holds bytes of the digest and size that were sent, the commit record reads back to
    the receipt, and the receipt's epoch, generation, ETag and version are those of a registry
    document that really was the domain's current one. *)
Theorem receipt_durable w0 h ts ref id s l b days r :
  reachable w0 (h, ts) -> In (OpPersist ref id s l b days, Done (Ok (ResReceipt r))) ts ->
  exists w past, h = w :: past
    /\ (exists data m, objects w !! snapshot_key ref (st_prefix self) id
                         = Some {| o_body := data; o_meta := m |}
          /\ sha256_hex data = sha256_hex (stream_data s) /\ len data = len (stream_data s))
    /\ recorded pf self w r
    /\ (exists w1 text doc, In w1 h /\ registry_is pf self w1 ref text doc
          /\ _receipt_from ref doc (etag_of text) 0 = Ok r).
Proof.
  intros Hr Hin. apply reachable_inv in Hr as [Hg Hpost].
  apply Hpost in Hin as (_ & Hacc & Hrec & Href & Hid & Hsum & Hsize).
  destruct (good_cons _ _ _ Hg) as (w & past & ->). exists w, past. split; [done|].
  assert (Hrec' : recorded pf self w r) by (apply (ever_recorded w past); [done|by rewrite Href|done]).
  pose proof (good_head _ _ _ _ Hg) as [_ _ IC].
  destruct Hrec' as (bt & m & Ho & Hp).
  assert (Hacc' : accepted_ref (pr_ref r)) by (by rewrite Href).
  destruct (IC _ _ _ Hacc' Ho) as (r' & Hp' & _ & _ & _ & Hc). simpl in Hp'.
  assert (r' = r) as -> by congruence.
  destruct Hc as (w1 & text & doc & Hin1 & Hreg & Hfrom). rewrite Href in *.
  split; [|split; [by exists bt, m; rewrite Href|by exists w1, text, doc]].
  assert (He : exists e, rd_latest doc = Some e /\ le_snapshot_id e = id
               /\ le_checksum e = sha256_hex (stream_data s) /\ le_size e = len (stream_data s)).
  { unfold _receipt_from in Hfrom. destruct (rd_latest doc) as [e|]; [|done]. exists e.
    simpl in Hfrom. injection Hfrom as <-. simpl in *. by split_and!. }
  destruct He as (e & He & <- & <- & <-). by eapply snapshot_kept.
Qed.

(** ** The registry as a fenced register *)

(** The abstract register of a domain: acquiring starts a new epoch and keeps the committed
    snapshot; a commit is made in the current epoch by its writer and takes the next version. *)
Inductive fenced_step : option RegistryDoc -> option RegistryDoc -> Prop :=
  | fenced_stutter o : fenced_step o o
  | fenced_first i : truthy i = true -> fenced_step None (Some (RegistryDoc_empty i))
  | fenced_writer d i : truthy i = true -> fenced_step (Some d) (Some (with_new_writer d i))
  | fenced_commit d e :
      entry_ok e -> le_version e = prev_version d + 1 ->
      fenced_step (Some d)
        (Some (with_committed_snapshot d (rd_writer_epoch d) (rd_writer_instance_id d) e)).

(** The document of a domain in a world. *)
Definition register_of (w : W) (ref : StateRef) : option RegistryDoc :=
  o ← objects w !! registry_key ref (st_prefix self);
  match parse_registry pf (o_body o) with Ok d => Some d | Err _ => None end.

Lemma register_of_is w ref b d : registry_is pf self w ref b d -> register_of w ref = Some d.
Proof. intros [[m Hm] Hp]. unfold register_of. rewrite Hm. simpl. by rewrite Hp. Qed.

Lemma register_of_same w w' ref :
  objects w' !! registry_key ref (st_prefix self) = objects w !! registry_key ref (st_prefix self) ->
  register_of w' ref = register_of w ref.
Proof. unfold register_of. by intros ->. Qed.

Lemma legal_fenced w past w' ref :
  accepted_ref ref -> legal (w :: past) w' -> fenced_step (register_of w ref) (register_of w' ref).
Proof.
  intros Hr Hl. inversion Hl as [? ? ? Ho|? ? ? ref' od d Hr' Hb Hs Hp|? ? ? ref' id data m Hr' Hn Hm Hp
    |? ? ? r Hr' Hn Hok Hc Hp]; subst; clear Hl.
  - rewrite (register_of_same w w') by (by rewrite Ho). constructor.
  - destruct (decide (registry_key ref' (st_prefix self) = registry_key ref (st_prefix self))) as [E|E].
    + pose proof (registry_written pf self _ _ _ _ _ Hb Hs Hp) as Hw.
      assert (E1 : register_of w ref = od).
      { destruct od as [d0|]; simpl in Hb.
        - destruct Hb as (b & Hb). apply (register_of_is w ref b). unfold registry_is in *. by rewrite <- E.
        - unfold register_of. rewrite <- E, Hb. done. }
      assert (E2 : register_of w' ref = Some d).
      { eapply (register_of_is w' ref). unfold registry_is in *. by rewrite <- E. }
      rewrite E1, E2. destruct Hs; by constructor.
    + rewrite (register_of_same w w') by (by eapply put_in_ne). constructor.
  - rewrite (register_of_same w w'); [constructor|]. eapply put_in_ne; [exact Hp|].
    intros E. symmetry in E. by apply reg_ne_snap in E.
  - rewrite (register_of_same w w'); [constructor|]. eapply put_in_ne; [exact Hp|].
    intros E. symmetry in E. by apply reg_ne_commit in E.
Qed.

(** C8. Storage implements a fenced register.  Seen through any one domain, every history of the
    bucket starts with no document and moves by the abstract steps only: a new writer starts
    the next epoch and never loses the committed snapshot, and a commit happens only in the
    epoch that is current at that very moment, so a superseded writer never changes it. *)
Theorem storage_refines_fenced_register w0 h ts ref :
  reachable w0 (h, ts) -> accepted_ref ref ->
  register_of w0 ref = None
  /\ forall h1 w' w h2, h = h1 ++ w' :: w :: h2 -> fenced_step (register_of w ref) (register_of w' ref).
Proof.
  intros Hr Hacc. assert (Hw0 := proj1 Hr). apply reachable_inv in Hr as [Hg _]. split.
  - unfold register_of. by rewrite Hw0, lookup_empty.
  - intros h1 w' w h2 E. eapply legal_fenced; [done|]. by eapply good_adjacent.
Qed.

(** Two documents of one domain that both were current. *)
Lemma seen_comparable h ref b1 d1 b2 d2 :
  good h -> accepted_ref ref -> seen h ref b1 d1 -> seen h ref b2 d2 ->
  doc_le d1 d2 \/ doc_le d2 d1.
Proof.
  intros (w0 & Hw0 & Hx) Hr. remember [w0] as h0 eqn:Hh0.
  assert (Hnone : forall b d, ~ registry_is pf self w0 ref b d).
  { intros b d [[m Hm] _]. by rewrite Hw0, lookup_empty in Hm. }
  induction Hx as [h|h h' w Hx IH Hl]; subst.
  - intros (w & [<-|[]] & Hs). by apply Hnone in Hs.
  - assert (Hgw : good (w :: h')) by (exists w0; split; [done|by constructor]).
    intros (u1 & [<-|H1] & Hs1) (u2 & [<-|H2] & Hs2).
    + left. destruct (registry_is_fun _ _ _ _ _ _ _ _ Hs1 Hs2) as [_ ->]. by left.
    + right. eapply (seen_le pf self w h'); [done|done| |exact Hs1]. exists u2. split; [by right|done].
    + left. eapply (seen_le pf self w h'); [done|done| |exact Hs2]. exists u1. split; [by right|done].
    + apply IH; [done|by exists u1|by exists u2].
Qed.

(** Writer epochs are exclusive: two leases granted for one domain with the same epoch
    belong to the same writer instance. *)
Theorem writer_epochs_exclusive w0 h ts ref i1 i2 l1 l2 :
  reachable w0 (h, ts) -> accepted_ref ref ->
  In (OpAcquire ref i1, Done (Ok (ResLease l1))) ts ->
  In (OpAcquire ref i2, Done (Ok (ResLease l2))) ts ->
  wl_epoch l1 = wl_epoch l2 ->
  i1 = i2 /\ wl_writer_instance_id l1 = i1 /\ wl_writer_instance_id l2 = i2.
Proof.
  intros Hr Hacc H1 H2 He. apply reachable_inv in Hr as [Hg Hpost].
  apply Hpost in H1 as (_ & ? & b1 & d1 & Hs1 & E1 & I1 & _).
  apply Hpost in H2 as (_ & ? & b2 & d2 & Hs2 & E2 & I2 & _). split_and!; try done.
  destruct (seen_comparable _ _ _ _ _ _ Hg Hacc Hs1 Hs2) as [[->|(_ & _ & Hi)]|[->|(_ & _ & Hi)]];
    try congruence; rewrite <- I1, <- I2; [apply Hi; congruence|symmetry; apply Hi; congruence].
Qed.

(** C12. A restore serves committed bytes: what the caller reads has the checksum of a document
    that was the domain's current one, and that snapshot's object is in the bucket with the
    same digest and the registered size. *)
Theorem restore_serves_committed w0 h ts ref days rr data :
  reachable w0 (h, ts) -> In (OpRestore ref days, Done (Ok (ResRestored (Some (rr, data))))) ts ->
  sha256_hex data = rr_checksum rr
  /\ exists w past stored m, h = w :: past
       /\ objects w !! snapshot_key ref (st_prefix self) (rr_snapshot_id rr)
            = Some {| o_body := stored; o_meta := m |}
       /\ sha256_hex stored = sha256_hex data /\ len stored = rr_size rr.
Proof.
  intros Hr Hin. apply reachable_inv in Hr as [Hg Hpost].
  apply Hpost in Hin as (Hacc & (b & d & e & (w1 & Hin1 & Hreg) & He & _ & Eid & _ & _ & _ & Esum & Esize & _) & Hd).
  split; [done|]. destruct (good_cons _ _ _ Hg) as (w & past & ->).
  destruct (snapshot_kept _ _ _ _ _ _ _ _ _ Hg Hacc Hin1 Hreg He) as (stored & m & Ho & Hs & Hl).
  exists w, past, stored, m. rewrite Eid, Esize, Hd, Esum. done.
Qed.

(** ** Superseded leases and repeated commits make no change at all *)

Definition unchanged (h : list W) (w' : W) : Prop :=
  match h with w :: _ => objects w' = objects w | [] => False end.

Lemma unchanged_legal h w' : unchanged h w' -> legal h w'.
Proof. destruct h as [|w past]; [done|]. apply legal_same. Qed.
Hint Resolve unchanged_legal : core.
Lemma unchanged_same w past w' : objects w' = objects w -> unchanged (w :: past) w'.
Proof. done. Qed.
Hint Resolve unchanged_same : core.

(** The lease is not, or no longer, the registry's writer. *)
Definition superseded (d : RegistryDoc) (l : WriterLease) : Prop :=
  wl_epoch l < rd_writer_epoch d
  \/ (wl_epoch l = rd_writer_epoch d /\ wl_writer_instance_id l <> rd_writer_instance_id d).

Lemma superseded_fenced d d' l :
  superseded d l -> doc_le d d' -> assert_lease_current (Some d') l = Err WriterFenced.
Proof.
  intros Hs Hle. unfold assert_lease_current.
  destruct (Z.eqb_spec (rd_writer_epoch d') (wl_epoch l)) as [E|]; [|done]. cbn [negb].
  destruct (String.eqb_spec (rd_writer_instance_id d') (wl_writer_instance_id l)) as [I|]; [|done].
  exfalso. destruct Hle as [->|(_ & He & Hi)], Hs as [Hs|[Hs Hs']]; try lia; [congruence|].
  apply Hs'. rewrite Hi by lia. done.
Qed.

(** C11. Once a domain's registry has moved past a lease, [persist] with that lease fails and
    makes no change to the bucket, whatever it sends and whatever happens concurrently. *)
Theorem superseded_lease_fenced h ref b d id stream lease base days :
  good h -> accepted_ref ref -> seen h ref b d -> superseded d lease ->
  Effects.wp s3_step legal unchanged (persist pf self ref id stream lease base days)
    (fun _ r => exists e, r = Err e) h.
Proof.
  intros Hg Hr Hs Hsup. unfold persist. apply wp_bind; [auto|]. apply wp_py.
  destruct (_validate_retention_days days) as [[]|e]; cbn beta iota; [|by eexists].
  destruct (negb _); [by eexists|].
  apply wp_bind; [auto|]. apply wp_transient_guard; [auto|].
  apply wp_read_registry; [auto|auto|done|]. intros h1 r1 Hx1 (w & past & -> & Hr1).
  destruct r1 as [read|e]; cbn beta iota; [|by eexists]. apply wp_bind; [auto|]. apply wp_py.
  assert (Hf : assert_lease_current (fst <$> read) lease = Err WriterFenced).
  { destruct read as [[d' etag]|]; [|done]. destruct Hr1 as (b' & Hb' & _).
    cbn [fst fmap option_fmap option_map]. eapply superseded_fenced; [done|].
    eapply (seen_le pf self w past); [by eapply good_ext|done|by eapply seen_ext|done]. }
  rewrite Hf. by eexists.
Qed.

(** Retrying a committed snapshot is harmless: once the commit record of a snapshot id is
    durable, every later [persist] of that id changes nothing; it either fails or returns that
    very receipt, and it returns it only for bytes of the committed digest and size. *)
Theorem persist_retry_idempotent h ref id r stream lease base days :
  good h -> accepted_ref ref -> ever (fun w => recorded pf self w r) h ->
  pr_ref r = ref -> pr_snapshot_id r = id ->
  Effects.wp s3_step legal unchanged (persist pf self ref id stream lease base days)
    (fun _ res => forall r', res = Ok r' ->
       r' = r /\ pr_checksum r = sha256_hex (stream_data stream)
       /\ pr_size r = len (stream_data stream)) h.
Proof.
  intros Hg Hacc Hrec Href Hid.
  set (same r' := r' = r /\ pr_checksum r = sha256_hex (stream_data stream)
                  /\ pr_size r = len (stream_data stream)).
  unfold persist. apply wp_bind; [auto|]. apply wp_py.
  destruct (_validate_retention_days days) as [[]|e]; cbn beta iota; [|done].
  destruct (negb _); [done|].
  apply wp_bind; [auto|]. apply wp_transient_guard; [auto|].
  apply wp_read_registry; [auto|auto|done|]. intros h1 r1 Hx1 _.
  destruct r1 as [read|e]; cbn beta iota; [|done]. apply wp_bind; [auto|]. apply wp_py.
  destruct (assert_lease_current _ _) as [d|e]; cbn beta iota; [|done]. cbn zeta.
  apply wp_bind; [auto|]. apply wp_receive; [auto|auto|]. intros h2 r2 Hx2 Hr2.
  assert (Hx12 : ext legal h h2) by (by eapply ext_trans).
  destruct r2 as [x|e]; cbn beta iota; [|done]. destruct (Hr2 x eq_refl) as [_ ->]. cbn beta iota.
  apply wp_bind; [auto|]. apply wp_attempt. unfold _commit. apply wp_bind; [auto|].
  apply wp_read_commit; [auto|auto|by apply (good_ext pf self h)|].
  intros h3 r3 Hx3 (w & past & -> & Hr3). assert (Hx13 : ext legal h (w :: past)) by (by eapply ext_trans).
  assert (Hgw : good (w :: past)) by (by apply (good_ext pf self h)).
  assert (Hnow : recorded pf self w r).
  { apply (ever_recorded w past); [done|by rewrite Href|]. by eapply ever_ext. }
  assert (Hend : forall (o : result serr PersistReceipt) h4, (forall r', o = Ok r' -> same r') ->
    Effects.wp s3_step legal unchanged (finish_persist o) (fun _ res => forall r', res = Ok r' -> same r') h4).
  { intros o h4 Ho. apply wp_finish_persist; [auto|auto|]. intros h5 res _ Hres r' Hr'. by apply Ho, Hres. }
  destruct r3 as [[rc|]|e]; cbn beta iota; [| |by apply Hend].
  - destruct Hr3 as (Hrc & Hrcref & Hrcid).
    assert (rc = r) as -> by (eapply recorded_fun; [exact Hrc|exact Hnow|congruence|congruence]).
    destruct (String.eqb_spec (pr_checksum r) (sha256_hex (stream_data stream))); [|by apply Hend].
    destruct (Z.eqb_spec (pr_size r) (len (stream_data stream))); [|by apply Hend].
    apply Hend. by intros r' [= <-].
  - destruct Hnow as (b & m & Ho & _). rewrite Href, Hid in Ho. congruence.
Qed.

(** [acquire_writer] gives up after 20 lost races: whatever the backend answers it makes at
    most 40 calls. *)
Theorem acquire_writer_bounded ref i : calls_within 40 (acquire_writer pf self ref i).
Proof.
  unfold acquire_writer. destruct (_require_client self) as [[]|e]; [|exact I].
  exact (calls_acquire_loop pf self _CAS_RETRY_LIMIT ref i None).
Qed.
End system.

(** ** Samples *)

Definition mem := gmap string s3_object.
Definition mem_etag (b : string) : string := "etag:" +:+ b.
Definition missing : client_error :=
  {| ce_code := "404"; ce_type := "ClientError"; ce_connection := false |}.
Definition lost_race : client_error :=
  {| ce_code := "PreconditionFailed"; ce_type := "ClientError"; ce_connection := false |}.

Definition mem_allows (o : option s3_object) (cond : put_cond) : bool :=
  match cond, o with
  | IfNoneMatch, None => true
  | IfMatch etag, Some ob => String.eqb (mem_etag (o_body ob)) etag
  | _, _ => false
  end.

(** The answer to a call, and the bucket after it. *)
Definition mem_exec (w : mem) (c : storage_call) : answer c * mem :=
  match c with
  | GetObject k => (match w !! k with
                    | Some o => Ok (o_body o, mem_etag (o_body o)) | None => Err missing end, w)
  | PutObject k b cond m =>
      if mem_allows (w !! k) cond
      then (Ok (mem_etag b), <[k := {| o_body := b; o_meta := m |}]> w) else (Err lost_race, w)
  | HeadObject k => (match w !! k with
                     | Some o => Ok (Some (len (o_body o)), o_meta o) | None => Err missing end, w)
  | ClockNow => (7, w)
  | CacheGet _ _ _ => (Ok None, w)
  | CachePut _ _ _ => (Ok tt, w)
  | StagingStep _ => (Ok tt, w)
  end.

Definition mem_step (w : mem) (c : storage_call) (a : answer c) (w' : mem) : Prop :=
  mem_exec w c = (a, w').

#[refine] Definition mem_backend : @S3Backend mem plain_datetime := {|
  s3_step := mem_step; objects := fun w => w; etag_of := mem_etag |}.
Proof.
  - intros b b'. apply str_app_inj_l.
  - done.
  - intros w k r w' E. injection E as <- <-. split; [done|]. cbn beta.
    destruct (w !! k) as [[b m]|] eqn:Ek; [split; [done|]; by exists m|done].
  - intros w k r w' E. injection E as <- <-. split; [done|]. cbn beta.
    destruct (w !! k) as [[b m]|] eqn:Ek; [by exists b|done].
  - intros w k b c m r w' E. unfold mem_step, mem_exec in E.
    destruct (mem_allows (w !! k) c) eqn:Ha; injection E as <- <-; simpl; [|by left].
    split; [done|]. split; [|done]. unfold mem_allows in Ha.
    destruct c as [|etag], (w !! k) as [ob|] eqn:Ek; try done.
    exists ob. split; [exact Ek|]. by apply String.eqb_eq in Ha.
  - intros w t w' E. by injection E as _ <-.
  - intros w k v sum r w' E. injection E as <- <-. by split.
  - intros w k v data r w' E. by injection E as _ <-.
  - intros w op r w' E. by injection E as _ <-.
Defined.
#[local] Existing Instance plain_datetime.
#[local] Existing Instance mem_backend.

(** Run a program alone from the newest world of a history. *)
Fixpoint mem_run {A} (p : prog answer serr A) (w : mem) (past : list mem)
    : mem * list mem * result serr A :=
  match p with
  | Done r => (w, past, r)
  | Call c k => let '(a, w') := mem_exec w c in mem_run (k a) w' (w :: past)
  end.

Lemma insert_last {A} (l : list A) x y : <[length l := y]> (l ++ [x]) = l ++ [y].
Proof. rewrite insert_app_r_alt by lia. by rewrite Nat.sub_diag. Qed.

Section run.
Context (self : S3Storage).

Definition mem_reachable := reachable (W:=mem) no_float self.
Definition mem_code := op_code no_float self.

Lemma mem_run_reachable (ts : list (storage_op * prog answer serr storage_result)) o p w past :
  mem_reachable ∅ (w :: past, ts ++ [(o, p)]) ->
  let '(w', past', r) := mem_run p w past in
  mem_reachable ∅ (w' :: past', ts ++ [(o, Done r)]).
Proof.
  revert w past; induction p as [r|c k IH]; intros w past Hr; cbn [mem_run]; [done|].
  destruct (mem_exec w c) as [a w'] eqn:E. apply IH. destruct Hr as [H0 Hr]. split; [done|].
  eapply sys_more; [exact Hr|]. rewrite <- (insert_last ts (o, Call c k) (o, k a)).
  eapply (sys_call _ _ _ w past (ts ++ [(o, Call c k)]) (length ts)); [|exact E].
  by rewrite list_lookup_middle.
Qed.
End run.

(** ** A run: acquire, persist, restore, then a second writer retries *)

Definition sample_storage : S3Storage :=
  new_S3Storage (Some "bucket") "/ach/" true false _DEFAULT_MAX_SNAPSHOT_BYTES.

Definition sample_stream : byte_stream := {| bs_chunks := ["da"; "ta"]; bs_raises := None |}.
Definition lease_of (i : string) (epoch : Z) : WriterLease :=
  {| wl_ref := sample_ref; wl_writer_instance_id := i; wl_epoch := epoch; wl_base_etag := None |}.

Definition op1 : storage_op := OpAcquire sample_ref "pod-a".
Definition op2 : storage_op := OpPersist sample_ref "s1" sample_stream (lease_of "pod-a" 1) None 1.
Definition op3 : storage_op := OpRestore sample_ref 1.
Definition op4 : storage_op := OpAcquire sample_ref "pod-b".
Definition op5 : storage_op := OpPersist sample_ref "s1" sample_stream (lease_of "pod-b" 2) None 1.

(** The state after running one more operation alone. *)
Definition after (o : storage_op) (s : mem * list mem * list (storage_op * prog answer serr storage_result)) :=
  let '(w, past, ts) := s in
  let '(w', past', r) := mem_run (mem_code sample_storage o) w past in
  (w', past', ts ++ [(o, Done r)]).

Definition run1 := after op1 (∅, [], []).
Definition run2 := after op2 run1.
Definition run3 := after op3 run2.
Definition run4 := after op4 run3.
Definition run5 := after op5 run4.

Definition run_reachable (s : mem * list mem * list (storage_op * prog answer serr storage_result)) :=
  let '(w, past, ts) := s in mem_reachable sample_storage ∅ (w :: past, ts).

Lemma after_reachable o s :
  run_reachable s -> (forall h, op_args no_float sample_storage o h) -> run_reachable (after o s).
Proof.
  destruct s as [[w past] ts]. intros Hr Ha. unfold after, run_reachable in *.
  destruct (mem_run _ w past) as [[w' past'] r] eqn:E.
  pose proof (mem_run_reachable sample_storage ts o (mem_code sample_storage o) w past) as H.
  rewrite E in H. apply H. destruct Hr as [H0 Hr]. split; [done|].
  eapply sys_more; [exact Hr|]. by constructor.
Qed.

Lemma sample_acquire_args i h : truthy i = true -> op_args no_float sample_storage (OpAcquire sample_ref i) h.
Proof. intros Hi. split; [apply sample_ref_accepted|done]. Qed.
Lemma sample_persist_args s l d h :
  op_args no_float sample_storage (OpPersist sample_ref "s1" s l None d) h.
Proof. split; [apply sample_ref_accepted|]. by split. Qed.

Lemma run0_reachable : run_reachable (∅, [], []).
Proof. split; [done|constructor]. Qed.
Lemma run1_reachable : run_reachable run1.
Proof. apply after_reachable; [exact run0_reachable|]. intros h. by apply sample_acquire_args. Qed.
Lemma run2_reachable : run_reachable run2.
Proof. apply after_reachable; [exact run1_reachable|]. intros h. apply sample_persist_args. Qed.
Lemma run3_reachable : run_reachable run3.
Proof. apply after_reachable; [exact run2_reachable|]. intros h. apply sample_ref_accepted. Qed.
Lemma run4_reachable : run_reachable run4.
Proof. apply after_reachable; [exact run3_reachable|]. intros h. by apply sample_acquire_args. Qed.
Lemma run5_reachable : run_reachable run5.
Proof. apply after_reachable; [exact run4_reachable|]. intros h. apply sample_persist_args. Qed.

Definition history (s : mem * list mem * list (storage_op * prog answer serr storage_result)) :=
  let '(w, past, _) := s in w :: past.
Definition threads (s : mem * list mem * list (storage_op * prog answer serr storage_result)) :=
  snd s.

Lemma run5_system : mem_reachable sample_storage ∅ (history run5, threads run5).
Proof.
  pose proof run5_reachable as H. unfold run_reachable, history, threads in *.
  by destruct run5 as [[w past] ts].
Qed.

(** The receipt of the first commit, computed. *)
Definition sample_receipt : PersistReceipt :=
  {| pr_ref := sample_ref; pr_snapshot_id := "s1"; pr_writer_epoch := 1; pr_generation := 2;
     pr_etag := mem_etag (json_dumps (registry_document
       {| rd_writer_epoch := 1; rd_writer_instance_id := "pod-a"; rd_generation := 2;
          rd_latest := Some {| le_snapshot_id := "s1"; le_checksum := sha256_hex "data";
            le_size := 4; le_version := 1; le_committed_at := Some "7Z";
            le_expires_at := Some (str_of_int (7 + day_us) +:+ "Z") |} |}));
     pr_checksum := sha256_hex "data"; pr_size := 4; pr_version := 1; pr_committed_at := Some "7Z";
     pr_expires_at := Some (str_of_int (7 + day_us) +:+ "Z") |}.

Lemma run5_op1 : In (op1, Done (Ok (ResLease (lease_of "pod-a" 1)))) (threads run5).
Proof. apply (nth_error_In _ 0). vm_compute. reflexivity. Qed.
Lemma run5_op2 : In (op2, Done (Ok (ResReceipt sample_receipt))) (threads run5).
Proof. apply (nth_error_In _ 1). vm_compute. reflexivity. Qed.
Lemma run5_op5 : In (op5, Done (Ok (ResReceipt sample_receipt))) (threads run5).
Proof. apply (nth_error_In _ 4). vm_compute. reflexivity. Qed.

Definition thread := (storage_op * prog answer serr storage_result)%type.
Definition restored_by (t : option thread) : option (storage_op * string * string) :=
  match t with
  | Some (o, Done (Ok (ResRestored (Some (rr, d))))) => Some (o, rr_checksum rr, d)
  | _ => None
  end.
Definition leased_by (t : option thread) : option (storage_op * Z) :=
  match t with Some (o, Done (Ok (ResLease l))) => Some (o, wl_epoch l) | _ => None end.

Lemma restored_by_inv t o s d :
  restored_by t = Some (o, s, d) ->
  exists rr, rr_checksum rr = s /\ t = Some (o, Done (Ok (ResRestored (Some (rr, d))))).
Proof.
  destruct t as [[o' [[[| |[[rr d']|]|]|]|]]|]; simpl; try done. intros [= <- <- <-]. by exists rr.
Qed.
Lemma leased_by_inv t o e :
  leased_by t = Some (o, e) -> exists l, wl_epoch l = e /\ t = Some (o, Done (Ok (ResLease l))).
Proof. destruct t as [[o' [[[l| | |]|]|]]|]; simpl; try done. intros [= <- <-]. by exists l. Qed.

Lemma run5_op3 :
  exists rr, rr_checksum rr = sha256_hex "data" /\
    In (op3, Done (Ok (ResRestored (Some (rr, "data"))))) (threads run5).
Proof.
  assert (E : restored_by (nth_error (threads run5) 2) = Some (op3, sha256_hex "data", "data"))
    by (vm_compute; reflexivity).
  apply restored_by_inv in E as (rr & Hs & E). exists rr. split; [exact Hs|].
  exact (nth_error_In _ _ E).
Qed.

Lemma run5_good : good no_float sample_storage (history run5).
Proof. exact (proj1 (reachable_inv no_float sample_storage ∅ _ _ run5_system)). Qed.

Lemma run5_lease2 :
  exists b d, seen no_float sample_storage (history run5) sample_ref b d /\ rd_writer_epoch d = 2.
Proof.
  pose proof (proj2 (reachable_inv no_float sample_storage ∅ _ _ run5_system)) as Hpost.
  assert (E : leased_by (nth_error (threads run5) 3) = Some (op4, 2)) by (vm_compute; reflexivity).
  apply leased_by_inv in E as (l & He & E). apply nth_error_In, Hpost in E.
  destruct E as (_ & _ & b & d & Hs & Hep & _). exists b, d. split; [exact Hs|congruence].
Qed.

Lemma run5_recorded : ever (fun w => recorded no_float sample_storage w sample_receipt) (history run5).
Proof.
  pose proof (proj2 (reachable_inv no_float sample_storage ∅ _ _ run5_system) _ _ run5_op2) as Hp.
  by destruct Hp as (_ & _ & Hr & _).
Qed.

(** ** The theorems applied to the run *)

Lemma persist_receipts_agree_witness :
  sample_receipt = sample_receipt
  /\ sha256_hex (stream_data sample_stream) = sha256_hex (stream_data sample_stream).
Proof.
  exact (persist_receipts_agree no_float sample_storage ∅ (history run5) (threads run5) sample_ref "s1"
           sample_stream (lease_of "pod-a" 1) None 1 sample_receipt
           sample_stream (lease_of "pod-b" 2) None 1 sample_receipt run5_system run5_op2 run5_op5).
Defined.

Lemma receipt_durable_witness :
  exists w past, history run5 = w :: past
    /\ (exists data m, w !! snapshot_key sample_ref (st_prefix sample_storage) "s1"
                         = Some {| o_body := data; o_meta := m |}
          /\ sha256_hex data = sha256_hex (stream_data sample_stream)
          /\ len data = len (stream_data sample_stream))
    /\ recorded no_float sample_storage w sample_receipt
    /\ (exists w1 text doc, In w1 (history run5)
          /\ registry_is no_float sample_storage w1 sample_ref text doc
          /\ _receipt_from sample_ref doc (etag_of text) 0 = Ok sample_receipt).
Proof.
  exact (receipt_durable no_float sample_storage ∅ (history run5) (threads run5) sample_ref "s1"
           sample_stream (lease_of "pod-a" 1) None 1 sample_receipt run5_system run5_op2).
Defined.

Lemma storage_refines_fenced_register_witness :
  register_of no_float sample_storage (∅ : mem) sample_ref = None
  /\ forall h1 w' w h2, history run5 = h1 ++ w' :: w :: h2 ->
       fenced_step (register_of no_float sample_storage w sample_ref)
                   (register_of no_float sample_storage w' sample_ref).
Proof.
  exact (storage_refines_fenced_register no_float sample_storage ∅ (history run5) (threads run5)
           sample_ref run5_system sample_ref_accepted).
Defined.

Lemma writer_epochs_exclusive_witness :
  "pod-a" = "pod-a" /\ wl_writer_instance_id (lease_of "pod-a" 1) = "pod-a"
  /\ wl_writer_instance_id (lease_of "pod-a" 1) = "pod-a".
Proof.
  exact (writer_epochs_exclusive no_float sample_storage ∅ (history run5) (threads run5) sample_ref
           "pod-a" "pod-a" (lease_of "pod-a" 1) (lease_of "pod-a" 1) run5_system
           sample_ref_accepted run5_op1 run5_op1 eq_refl).
Defined.

Lemma restore_serves_committed_witness :
  exists rr, sha256_hex "data" = rr_checksum rr
    /\ exists w past stored m, history run5 = w :: past
         /\ w !! snapshot_key sample_ref (st_prefix sample_storage) (rr_snapshot_id rr)
              = Some {| o_body := stored; o_meta := m |}
         /\ sha256_hex stored = sha256_hex "data" /\ len stored = rr_size rr.
Proof.
  destruct run5_op3 as (rr & _ & Hin). exists rr.
  exact (restore_serves_committed no_float sample_storage ∅ (history run5) (threads run5) sample_ref 1
           rr "data" run5_system Hin).
Defined.

Lemma superseded_lease_fenced_witness :
  Effects.wp mem_step (legal no_float sample_storage) unchanged
    (persist no_float sample_storage sample_ref "s2" sample_stream (lease_of "pod-a" 1) None 1)
    (fun _ r => exists e, r = Err e) (history run5).
Proof.
  destruct run5_lease2 as (b & d & Hs & He).
  refine (superseded_lease_fenced no_float sample_storage (history run5) sample_ref b d "s2"
            sample_stream (lease_of "pod-a" 1) None 1 run5_good sample_ref_accepted Hs _).
  left. rewrite He. reflexivity.
Defined.

Lemma persist_retry_idempotent_witness :
  Effects.wp mem_step (legal no_float sample_storage) unchanged
    (persist no_float sample_storage sample_ref "s1" sample_stream (lease_of "pod-b" 2) None 1)
    (fun _ res => forall r', res = Ok r' ->
       r' = sample_receipt /\ pr_checksum sample_receipt = sha256_hex (stream_data sample_stream)
       /\ pr_size sample_receipt = len (stream_data sample_stream)) (history run5).
Proof.
  exact (persist_retry_idempotent no_float sample_storage (history run5) sample_ref "s1" sample_receipt
           sample_stream (lease_of "pod-b" 2) None 1 run5_good sample_ref_accepted run5_recorded
           eq_refl eq_refl).
Defined.
