(* ===== verification/Tokens.v ===== *)
(** * harness/tokens.py: facade tokens, host tokens and engine bearers

    The MAC is HMAC-SHA256 of [Sha256]; URL-safe base64 is the encoder and the lenient decoder
    of [binascii].  Ed25519 (the [cryptography] package) is a parameter: its public-key
    derivation, signing and verification. *)

From S2P Require Import Prelude Sha256.
From Stdlib Require Import Ascii.

Local Open Scope string_scope.

(** ** Base64 *)

Definition b64_char (n : N) : ascii :=
  ascii_of_N (if n <? 26 then 65 + n else if n <? 52 then 71 + n
              else if n <? 62 then n - 4 else if n =? 62 then 45 else 95)%N.

(** [base64.urlsafe_b64encode]: groups of three bytes, the last one padded. *)
Fixpoint urlsafe_b64encode (l : list N) : string :=
  match l with
  | [] => ""
  | [a] => String (b64_char (a / 4)) (String (b64_char (a mod 4 * 16)) "==")
  | [a; b] =>
      String (b64_char (a / 4)) (String (b64_char (a mod 4 * 16 + b / 16))
        (String (b64_char (b mod 16 * 4)) "="))
  | a :: b :: c :: l =>
      String (b64_char (a / 4)) (String (b64_char (a mod 4 * 16 + b / 16))
        (String (b64_char (b mod 16 * 4 + c / 64)) (String (b64_char (c mod 64))
          (urlsafe_b64encode l))))
  end%N.

(** [s.rstrip("=")] *)
Fixpoint rstrip_char (c : ascii) (s : string) : string :=
  match s with
  | EmptyString => ""
  | String a s =>
      let r := rstrip_char c s in
      if Ascii.eqb a c && String.eqb r "" then "" else String a r
  end.

Definition _b64 (raw : list N) : string := rstrip_char "=" (urlsafe_b64encode raw).

(** The value of a base64 digit after [translate]: [-] and [_] stand for [+] and [/], which
    are accepted as well. *)
Definition b64_value (a : ascii) : option N :=
  let n := ascii_code a in
  (if is_upper a then Some (n - 65)
   else if is_lower a then Some (n - 71)
   else if is_digit a then Some (n + 4)
   else if (n =? 45) || (n =? 43) then Some 62
   else if (n =? 95) || (n =? 47) then Some 63
   else None)%N.

(** [binascii.a2b_base64] in its default, lenient mode: characters outside the alphabet are
    skipped, a completed padding ends the data.  [quad] is the position in the group of four,
    [left] the bits carried over, [pads] the padding characters since the last digit. *)
Fixpoint a2b_base64 (s : string) (quad : nat) (left : N) (pads : nat) : result exn (list N) :=
  match s with
  | EmptyString => if (quad =? 0)%nat then Ok [] else Err ValueError
  | String a s =>
      if Ascii.eqb a "=" then
        if (2 <=? quad)%nat then
          if (4 <=? quad + S pads)%nat then Ok [] else a2b_base64 s quad left (S pads)
        else a2b_base64 s quad left pads
      else match b64_value a with
      | None => a2b_base64 s quad left pads
      | Some v =>
          match quad with
          | 0%nat => a2b_base64 s 1 v 0
          | 1%nat => cons (left * 4 + v / 16)%N <$> a2b_base64 s 2 (v mod 16)%N 0
          | 2%nat => cons (left * 16 + v / 4)%N <$> a2b_base64 s 3 (v mod 4)%N 0
          | _ => cons (left * 64 + v)%N <$> a2b_base64 s 0 0 0
          end
      end
  end.

(** [base64.urlsafe_b64decode] of a [str]: [ValueError] unless it is ASCII. *)
Definition urlsafe_b64decode (s : string) : result exn (list N) :=
  require (str_forallb (fun a => ascii_code a <? 128)%N s) ValueError ≫= fun _ =>
  a2b_base64 s 0 0 0.

(** [-n % 4] *)
Definition b64_padding (n : nat) : nat := Z.to_nat ((- Z.of_nat n) mod 4).
Fixpoint repeat_char (c : ascii) (n : nat) : string :=
  match n with 0%nat => "" | S n => String c (repeat_char c n) end.
Definition _unb64 (text : string) : result exn (list N) :=
  urlsafe_b64decode (text +:+ repeat_char "=" (b64_padding (String.length text))).

(** ** Tokens *)

(** [token.rpartition(c)] when [c] occurs: the text before and after its last occurrence. *)
Fixpoint rpartition (c : ascii) (s : string) : option (string * string) :=
  match s with
  | EmptyString => None
  | String a s =>
      match rpartition c s with
      | Some (p, r) => Some (String a p, r)
      | None => if Ascii.eqb a c then Some ("", s) else None
      end
  end.

Definition FACADE_TOKEN_HEADER : string := "x-ach-facade-token".
Definition _ENGINE_SEED_LABEL : string := "ach-sandbox-engine".

Definition _mac (key : string) (purpose claim : string) : string :=
  hmac_hex key (purpose +:+ ":" +:+ claim).
Definition facade_token (key claim : string) : string :=
  claim +:+ "." +:+ _mac key "facade" claim.
Definition host_token (key agent_uid : string) : string := _mac key "host" agent_uid.
Definition verify_facade_token (key token : string) : option string :=
  match rpartition "." token with
  | None => None
  | Some (claim, mac) =>
      if negb (truthy claim) then None
      else if String.eqb mac (_mac key "facade" claim) then Some claim else None
  end.

(** [load_harness_key] reads the environment variable; unset and empty raise. *)
Definition load_harness_key (environ : string -> option string) (env_name : string) :
    result exn string :=
  match environ env_name with
  | Some value => if truthy value then Ok value else Err RuntimeError
  | None => Err RuntimeError
  end.

(** [owned_workspace] is the caller's callback: it answers or raises. *)
Definition authenticate_facade (owned_workspace : string -> result exn bool)
    (key token : string) : result exn string :=
  match verify_facade_token key token with
  | None => Err WorkspaceAuthenticationFailed
  | Some claim =>
      owned ← owned_workspace claim;
      if (owned : bool) then Ok claim else Err WorkspaceAuthenticationFailed
  end.

Section ed25519.
(** [Ed25519PrivateKey.from_private_bytes(seed)]: its raw public half and its signatures.
    [ed_verify pub sig msg]: loading the public half and checking a signature, with the
    exceptions of either. *)
Context (ed_public : list N -> list N) (ed_sign : list N -> string -> list N)
        (ed_verify : list N -> list N -> string -> result exn unit).

Definition _signing_key (key : string) : list N :=
  hmac_digest (encode key) (encode _ENGINE_SEED_LABEL).
Definition engine_verify_key (key : string) : string := _b64 (ed_public (_signing_key key)).
Definition engine_message (claim : string) : string := "ach-engine:" +:+ claim.
Definition engine_bearer (key claim : string) : string :=
  claim +:+ "." +:+ _b64 (ed_sign (_signing_key key) (engine_message claim)).

Definition verify_engine_bearer (verify_key bearer : string) : result exn (option string) :=
  match rpartition "." bearer with
  | None => Ok None
  | Some (claim, sig) =>
      if negb (truthy claim) then Ok None
      else match pub ← _unb64 verify_key; raw ← _unb64 sig; ed_verify pub raw (engine_message claim) with
      | Ok _ => Ok (Some claim)
      | Err InvalidSignature | Err ValueError => Ok None
      | Err e => Err e
      end
  end.
End ed25519.

(** ** [rpartition] *)

Definition lacks (c : ascii) (s : string) : bool := str_forallb (fun a => negb (Ascii.eqb a c)) s.

Lemma rpartition_none c s : rpartition c s = None <-> lacks c s = true.
Proof.
  unfold lacks. induction s as [|a s IH]; simpl; [done|].
  destruct (rpartition c s) as [[p r]|]; [|destruct (Ascii.eqb a c); simpl; naive_solver].
  split; [done|]. intros [_ H]%andb_prop. naive_solver.
Qed.

Lemma rpartition_some c s p r :
  rpartition c s = Some (p, r) <-> s = p +:+ String c r /\ lacks c r = true.
Proof.
  revert p. induction s as [|a s IH]; intros p; simpl.
  - split; [done|]. intros [H _]. by destruct p.
  - destruct (rpartition c s) as [[p' r']|] eqn:E.
    + split.
      * intros [= <- <-]. destruct (proj1 (IH p') eq_refl) as [-> ?]. done.
      * intros [H Hr]. destruct p as [|b p]; rewrite ?str_app_nil_l, ?str_app_cons in H; simplify_eq.
        -- apply rpartition_none in Hr. congruence.
        -- f_equal. assert (Some (p', r') = Some (p, r)) as [= -> ->]; [|done]. by apply IH.
    + apply rpartition_none in E. destruct (Ascii.eqb_spec a c) as [->|Hne]; split.
      * by intros [= <- <-].
      * intros [H Hr]. destruct p as [|b p]; rewrite ?str_app_nil_l, ?str_app_cons in H; simplify_eq; [done|].
        exfalso. cut (@None (string * string) = Some (p, r)); [done|]. apply IH. done.
      * done.
      * intros [H Hr]. destruct p as [|b p]; rewrite ?str_app_nil_l, ?str_app_cons in H; simplify_eq.
        exfalso. cut (@None (string * string) = Some (p, r)); [done|]. apply IH. done.
Qed.

Lemma lacks_hex s : str_forallb is_hex s = true -> lacks "." s = true.
Proof.
  unfold lacks. induction s as [|a s IH]; [done|]. cbn [str_forallb].
  intros [Ha Hs]%andb_prop. apply andb_true_intro. split; [|by apply IH].
  by destruct (Ascii.eqb_spec a ".") as [->|].
Qed.

Lemma hmac_is_hex key msg : str_forallb is_hex (hmac_hex key msg) = true.
Proof. apply hex_is_hex, flat_map_be_bytes. Qed.

Lemma hmac_length key msg : String.length (hmac_hex key msg) = 64%nat.
Proof. unfold hmac_hex. rewrite hex_length. unfold hmac_digest. by rewrite sha256_digest_length. Qed.

Lemma truthy_claim (claim : string) : claim <> "" -> truthy claim = true.
Proof. apply truthy_true. Qed.

(** A facade token is accepted for a claim exactly when it is the token minted for that
    claim with the same key, and the claim is not empty: no other text is accepted, whatever
    dots the claim has, and a minted token gives its claim back. *)
Theorem facade_token_exact key token claim :
  verify_facade_token key token = Some claim <-> claim <> "" /\ token = facade_token key claim.
Proof.
  unfold verify_facade_token, facade_token. split.
  - destruct (rpartition "." token) as [[c m]|] eqn:E; [|done].
    apply rpartition_some in E as [-> _].
    destruct (truthy c) eqn:Ht; [|done]. simpl.
    destruct (String.eqb_spec m (_mac key "facade" c)) as [->|]; [|done].
    intros [= ->]. split; [by apply truthy_true|done].
  - intros [Hne ->].
    rewrite (proj2 (rpartition_some "." (claim +:+ "." +:+ _mac key "facade" claim) claim
                                    (_mac key "facade" claim)))
      by (split; [done|apply lacks_hex, hmac_is_hex]).
    rewrite truthy_claim by done. simpl. by rewrite String.eqb_refl.
Qed.

(** ** Base64 round trip *)

#[local] Ltac Zify.zify_post_hook ::= Z.to_euclidean_division_equations.

Lemma forall_below (k : nat) (f : N -> bool) :
  forallb f (map N.of_nat (List.seq 0 k)) = true -> forall n, (n < N.of_nat k)%N -> f n = true.
Proof.
  intros Hf n Hn. rewrite forallb_forall in Hf. apply Hf, in_map_iff.
  exists (N.to_nat n). split; [lia|]. apply in_seq. lia.
Qed.

Definition digit_ok (n : N) : bool :=
  let a := b64_char n in
  negb (Ascii.eqb a "=") && negb (Ascii.eqb a ".") && (ascii_code a <? 128)%N
  && match b64_value a with Some v => (v =? n)%N | None => false end.

Lemma b64_digit n :
  (n < 64)%N ->
  b64_value (b64_char n) = Some n /\ Ascii.eqb (b64_char n) "=" = false
  /\ Ascii.eqb (b64_char n) "." = false /\ (ascii_code (b64_char n) <? 128)%N = true.
Proof.
  intros Hn. pose proof (forall_below 64 digit_ok eq_refl n Hn) as H. unfold digit_ok in H.
  apply andb_prop in H as [H Hv]. apply andb_prop in H as [H Ha]. apply andb_prop in H as [He Hd].
  destruct (b64_value (b64_char n)) as [v|]; [|done]. apply N.eqb_eq in Hv as ->.
  rewrite negb_true_iff in *. done.
Qed.

(** The characters of an encoding without its padding. *)
Fixpoint b64_digits (l : list N) : list N :=
  match l with
  | [] => []
  | [a] => [a / 4; a mod 4 * 16]
  | [a; b] => [a / 4; a mod 4 * 16 + b / 16; b mod 16 * 4]
  | a :: b :: c :: l => a / 4 :: a mod 4 * 16 + b / 16 :: b mod 16 * 4 + c / 64 :: c mod 64
                        :: b64_digits l
  end%N.

Fixpoint chars (l : list N) : string :=
  match l with [] => "" | n :: l => String (b64_char n) (chars l) end.

(** Induction by groups of three. *)
Lemma three_ind (P : list N -> Prop) :
  P [] -> (forall a, P [a]) -> (forall a b, P [a; b]) ->
  (forall a b c l, P l -> P (a :: b :: c :: l)) -> forall l, P l.
Proof.
  intros H0 H1 H2 H3 l. remember (length l) as n eqn:Hn. revert l Hn.
  induction (lt_wf n) as [n _ IH]. intros l ->.
  destruct l as [|a [|b [|c l]]]; auto. apply H3. eapply IH; [|reflexivity]. simpl. lia.
Qed.

Definition byte (n : N) : Prop := (n < 256)%N.

Lemma b64_digits_bound l : Forall byte l -> Forall (fun n => (n < 64)%N) (b64_digits l).
Proof.
  unfold byte. induction l as [|a|a b|a b c l IH] using three_ind; intros H;
    decompose_Forall_hyps; simpl; repeat (apply Forall_cons; split; [lia|]); try done; auto.
Qed.

Lemma rstrip_char_digits l :
  Forall (fun n => (n < 64)%N) l -> forall pad, rstrip_char "=" pad = "" ->
  rstrip_char "=" (chars l +:+ pad) = chars l.
Proof.
  intros Hl pad Hp. induction Hl as [|n l Hn _ IH]; [done|].
  cbn [chars]. rewrite str_app_cons. cbn [rstrip_char]. rewrite IH.
  destruct (b64_digit n Hn) as (_ & -> & _). done.
Qed.

Lemma urlsafe_b64encode_eq l :
  exists pad, urlsafe_b64encode l = chars (b64_digits l) +:+ pad /\ rstrip_char "=" pad = "".
Proof.
  induction l as [|a|a b|a b c l (pad & IH & Hp)] using three_ind; simpl.
  - by exists "".
  - by exists "==".
  - by exists "=".
  - exists pad. by rewrite IH.
Qed.

Lemma _b64_digits l : Forall byte l -> _b64 l = chars (b64_digits l).
Proof.
  intros H. unfold _b64. destruct (urlsafe_b64encode_eq l) as (pad & -> & Hp).
  by apply rstrip_char_digits; [apply b64_digits_bound|].
Qed.

Lemma chars_length l : String.length (chars l) = length l.
Proof. induction l; simpl; congruence. Qed.

Lemma a2b_digit n s q left pads :
  (n < 64)%N ->
  a2b_base64 (String (b64_char n) s) q left pads =
  match q with
  | 0%nat => a2b_base64 s 1 n 0
  | 1%nat => cons (left * 4 + n / 16)%N <$> a2b_base64 s 2 (n mod 16)%N 0
  | 2%nat => cons (left * 16 + n / 4)%N <$> a2b_base64 s 3 (n mod 4)%N 0
  | _ => cons (left * 64 + n)%N <$> a2b_base64 s 0 0 0
  end.
Proof. intros Hn. cbn [a2b_base64]. destruct (b64_digit n Hn) as (-> & -> & _). done. Qed.

Lemma b64_length_step n : b64_padding (S (S (S (S n)))) = b64_padding n.
Proof. unfold b64_padding. f_equal. lia. Qed.

Lemma decode_digits l :
  Forall byte l ->
  a2b_base64 (chars (b64_digits l) +:+ repeat_char "=" (b64_padding (length (b64_digits l)))) 0 0 0
  = Ok l.
Proof.
  induction l as [|a|a b|a b c l IH] using three_ind; intros H; unfold byte in H;
    rewrite ?Forall_cons in H; destruct_and?;
    cbn [b64_digits chars length]; rewrite ?b64_length_step, ?str_app_cons.
  - done.
  - rewrite !a2b_digit by lia. simpl. do 2 f_equal. lia.
  - rewrite !a2b_digit by lia. simpl. do 2 f_equal; [lia|f_equal; lia].
  - rewrite !a2b_digit by lia. rewrite IH by done. simpl.
    do 2 f_equal; [lia|]. f_equal; [lia|]. f_equal. lia.
Qed.

Lemma digits_ascii l pad :
  Forall (fun n => (n < 64)%N) l ->
  str_forallb (fun a => ascii_code a <? 128)%N pad = true ->
  str_forallb (fun a => ascii_code a <? 128)%N (chars l +:+ pad) = true.
Proof.
  intros Hl Hp. induction Hl as [|n l Hn _ IH]; [done|].
  cbn [chars]. rewrite str_app_cons. cbn [str_forallb]. rewrite IH, andb_true_r.
  by destruct (b64_digit n Hn) as (_ & _ & _ & ->).
Qed.

Lemma repeat_pad_ascii n : str_forallb (fun a => ascii_code a <? 128)%N (repeat_char "=" n) = true.
Proof. induction n; [done|]. simpl. done. Qed.

Lemma b64_roundtrip raw : Forall byte raw -> _unb64 (_b64 raw) = Ok raw.
Proof.
  intros H. rewrite _b64_digits by done. unfold _unb64, urlsafe_b64decode.
  rewrite digits_ascii by (first [by apply b64_digits_bound|apply repeat_pad_ascii]).
  simpl. rewrite chars_length. by apply decode_digits.
Qed.

Lemma lacks_b64 raw : Forall byte raw -> lacks "." (_b64 raw) = true.
Proof.
  intros H. rewrite _b64_digits by done. unfold lacks.
  induction (b64_digits_bound _ H) as [|n l Hn _ IH]; [done|].
  cbn [chars str_forallb]. rewrite IH. by destruct (b64_digit n Hn) as (_ & _ & -> & _).
Qed.

(** ** Engine bearers *)

Section bearer.
Context (ed_public : list N -> list N) (ed_sign : list N -> string -> list N)
        (ed_verify : list N -> list N -> string -> result exn unit).
(** What the [cryptography] package documents: keys and signatures are bytes, and a signature
    made with a 32-byte seed verifies under its public half. *)
Hypothesis ed_public_bytes : forall seed, Forall byte (ed_public seed).
Hypothesis ed_sign_bytes : forall seed msg, Forall byte (ed_sign seed msg).
Hypothesis ed_verify_sign : forall seed msg,
  length seed = 32%nat -> ed_verify (ed_public seed) (ed_sign seed msg) msg = Ok tt.

Abbreviation verify := (verify_engine_bearer ed_verify).

Lemma verify_engine_bearer_some vk bearer claim :
  verify vk bearer = Ok (Some claim) ->
  claim <> "" /\ exists sig pub raw,
    bearer = claim +:+ "." +:+ sig /\ _unb64 vk = Ok pub /\ _unb64 sig = Ok raw
    /\ ed_verify pub raw (engine_message claim) = Ok tt.
Proof.
  unfold verify_engine_bearer. destruct (rpartition "." bearer) as [[c sig]|] eqn:E; [|done].
  apply rpartition_some in E as [-> _]. destruct (truthy c) eqn:Ht; [|done]. simpl.
  destruct (_unb64 vk) as [pub|[]] eqn:Ep; simpl; try done.
  destruct (_unb64 sig) as [raw|[]] eqn:Er; simpl; try done.
  destruct (ed_verify pub raw (engine_message c)) as [[]|[]] eqn:Ev; try done.
  intros [= <-]. split; [by apply truthy_true|]. by exists sig, pub, raw.
Qed.

(** The bearer minted for a non-empty claim verifies under the rendered public key to that
    claim and to no other, whatever dots the claim has; and any bearer that verifies carries
    an Ed25519 signature over the very claim it is accepted for. *)
Theorem engine_bearer_roundtrip key vk bearer claim :
  (claim <> "" ->
   verify (engine_verify_key ed_public key) (engine_bearer ed_sign key claim) = Ok (Some claim))
  /\ (verify vk bearer = Ok (Some claim) ->
      claim <> "" /\ exists sig pub raw,
        bearer = claim +:+ "." +:+ sig /\ _unb64 vk = Ok pub /\ _unb64 sig = Ok raw
        /\ ed_verify pub raw (engine_message claim) = Ok tt).
Proof.
  split; [|apply verify_engine_bearer_some]. intros Hne.
  unfold verify_engine_bearer, engine_bearer, engine_verify_key.
  rewrite (proj2 (rpartition_some "." _ claim (_b64 (ed_sign (_signing_key key) (engine_message claim)))))
    by (split; [done|by apply lacks_b64]).
  rewrite truthy_claim by done. simpl. rewrite !b64_roundtrip by done. simpl.
  by rewrite ed_verify_sign by apply sha256_digest_length.
Qed.
End bearer.

(** A toy signature scheme with the documented behaviour: it signs by hashing. *)
Definition toy_sign (seed : list N) (msg : string) : list N :=
  sha256_digest (sha256_digest seed ++ encode msg).
Definition toy_verify (pub sig : list N) (msg : string) : result exn unit :=
  if decide (sig = sha256_digest (pub ++ encode msg)) then Ok tt else Err InvalidSignature.

Lemma toy_bytes l : Forall byte (sha256_digest l).
Proof. apply flat_map_be_bytes. Qed.

Lemma toy_verify_sign seed msg :
  length seed = 32%nat -> toy_verify (sha256_digest seed) (toy_sign seed msg) msg = Ok tt.
Proof. intros _. unfold toy_verify, toy_sign. by rewrite decide_True. Qed.

Lemma engine_bearer_roundtrip_witness :
  verify_engine_bearer toy_verify (engine_verify_key sha256_digest "k") (engine_bearer toy_sign "k" "ws.1")
  = Ok (Some "ws.1").
Proof.
  exact (proj1 (engine_bearer_roundtrip sha256_digest toy_sign toy_verify toy_bytes
    (fun seed msg => toy_bytes _) toy_verify_sign "k" "" "" "ws.1") ltac:(discriminate)).
Defined.
