(* ===== verification/Artifacts.v ===== *)
(** * storage/artifacts.py: immutable artifacts

    Publishing and reading an artifact as programs over the calls of Storage.v: a body object
    created once, which carries its descriptor, and a manifest that registers it.  The content
    a reader opens is consumed to its end; cancellation is not modelled. *)

From S2P Require Import Prelude Sha256 PyJson PyLoads Config StateRefs Tokens Effects Storage.
From Stdlib Require Import Ascii.
Local Open Scope Z_scope.

Definition _MAX_MANIFEST_BYTES : Z := 64 * 1024.
Definition _CHUNK : Z := 1024 * 1024.
Definition _ID (v : string) : bool := hex64 v.
Record ArtifactProducer := { ap_session_ref : string; ap_invocation_id : string }.
#[export] Instance artifact_producer_eq_dec : EqDecision ArtifactProducer.
Proof. solve_decision. Defined.
Record ArtifactMetadata :=
  { am_artifact_id : string; am_owner : StateRef; am_producer : ArtifactProducer; am_mime : string; am_name : string;
    am_size : Z; am_checksum : string; am_created_at : Z; am_expires_at : option Z }.
Record ArtifactReceipt := { ar_artifact_id : string; ar_reference : string; ar_metadata : ArtifactMetadata }.
Definition _receipt (m : ArtifactMetadata) : ArtifactReceipt :=
  {| ar_artifact_id := am_artifact_id m; ar_reference := "artifact:" +:+ am_artifact_id m; ar_metadata := m |}.

(** ** Names and documents *)

Definition owner_fields (o : StateRef) : list string := [fi_namespace (sr_agent o); fi_uid (sr_agent o); sr_workspace_ref o].
Definition _artifact_id (owner : StateRef) (idempotency_key : string) : string :=
  sha256_hex (dumps_strs false (["artifact-v1"] ++ owner_fields owner ++ [idempotency_key])).
Definition _descriptor (owner : StateRef) (p : ArtifactProducer) (mime name : string) : string :=
  dumps_strs false (owner_fields owner ++ [ap_session_ref p; ap_invocation_id p; mime; name]).
Definition packed (descriptor : string) : string := urlsafe_b64encode (encode descriptor).
Definition body_key_of (owner : StateRef) (prefix artifact_id : string) : string :=
  _base_key owner prefix +:+ "/artifacts/" +:+ artifact_id +:+ "/blob".
Definition manifest_key_of (owner : StateRef) (prefix artifact_id : string) : string :=
  _base_key owner prefix +:+ "/artifacts/" +:+ artifact_id +:+ "/metadata.json".
(** [set(d) == set(keys)]. *)
Definition has_keys (keys : list string) (d : list (string * json)) : bool :=
  forallb (fun kv => in_strs (fst kv) keys) d && forallb (fun k => present (assoc k d)) keys.
Definition nonempty (j : json) : option string := match j with JStr s => if truthy s then Some s else None | _ => None end.
Definition hex_digest (j : json) : option string := match j with JStr s => if _ID s then Some s else None | _ => None end.

Section documents.
Context `{PyDatetime} (parse_float : string -> pyfloat).

Definition _utc (t : Z) : result exn string := _format_retention_date t.
Definition _parse_date (v : json) : result exn Z :=
  match v with
  | JStr s =>
      match fromisoformat (str_replace "Z" "+00:00" s) with
      | Some (Some t) => if in_range t then Ok t else Err OverflowError
      | _ => Err RestoreFailed
      end
  | _ => Err RestoreFailed
  end.
Definition _parse_expiry (v : json) : result exn (option Z) :=
  match v with JStr s => if String.eqb s "none" then Ok None else Some <$> _parse_date v | _ => Some <$> _parse_date v end.
Definition _metadata_json (m : ArtifactMetadata) : result exn json :=
  created ← _utc (am_created_at m);
  expires ← match am_expires_at m with Some t => JStr <$> _utc t | None => Ok JNull end;
  Ok (JObj [("artifact_id", JStr (am_artifact_id m));
            ("owner", JObj [("namespace", JStr (fi_namespace (sr_agent (am_owner m))));
                            ("uid", JStr (fi_uid (sr_agent (am_owner m))));
                            ("workspace_ref", JStr (sr_workspace_ref (am_owner m)))]);
            ("producer", JObj [("session_ref", JStr (ap_session_ref (am_producer m)));
                               ("invocation_id", JStr (ap_invocation_id (am_producer m)))]);
            ("mime", JStr (am_mime m)); ("name", JStr (am_name m)); ("size", JInt (am_size m));
            ("checksum", JStr (am_checksum m)); ("created_at", JStr created); ("expires_at", expires)]).

Definition manifest_keys : list string :=
  ["artifact_id"; "owner"; "producer"; "mime"; "name"; "size"; "checksum"; "created_at"; "expires_at"].
Definition refused {A} (o : option A) : result exn A := opt_or RestoreFailed o.
Definition block_of (keys : list string) (j : json) : result exn (list (string * json)) :=
  match j with JObj d => if has_keys keys d then Ok d else Err RestoreFailed | _ => Err RestoreFailed end.
Definition text_at (k : string) (d : list (string * json)) : result exn string := refused (assoc k d ≫= nonempty).
Definition _parse_manifest (raw : string) : result exn ArtifactMetadata :=
  if _MAX_MANIFEST_BYTES <? len raw then Err RestoreFailed else
  doc ← refused (json_loads parse_float raw);
  doc ← block_of manifest_keys doc;
  owner ← refused (assoc "owner" doc) ≫= block_of ["namespace"; "uid"; "workspace_ref"];
  producer ← refused (assoc "producer" doc) ≫= block_of ["session_ref"; "invocation_id"];
  artifact_id ← refused (assoc "artifact_id" doc ≫= hex_digest);
  checksum ← refused (assoc "checksum" doc ≫= hex_digest);
  size ← refused (assoc "size" doc ≫= fun v => match v with JInt z => if 0 <=? z then Some z else None | _ => None end);
  namespace ← text_at "namespace" owner; uid ← text_at "uid" owner; workspace_ref ← text_at "workspace_ref" owner;
  session_ref ← text_at "session_ref" producer; invocation_id ← text_at "invocation_id" producer;
  mime ← text_at "mime" doc; name ← text_at "name" doc;
  parsed_owner ← match new_StateRef (fun _ => Err ValueError)
                         (LiveInput {| agent_name := "artifact"; agent_namespace := namespace; agent_uid := uid |})
                         workspace_ref DOMAIN_WORKSPACE None with
                 | Ok r => Ok r
                 | Err _ => Err RestoreFailed
                 end;
  created_at ← refused (assoc "created_at" doc) ≫= _parse_date;
  expires ← refused (assoc "expires_at" doc);
  expires_at ← match expires with JNull => Ok None | v => Some <$> _parse_date v end;
  Ok {| am_artifact_id := artifact_id; am_owner := parsed_owner;
        am_producer := {| ap_session_ref := session_ref; ap_invocation_id := invocation_id |};
        am_mime := mime; am_name := name; am_size := size; am_checksum := checksum;
        am_created_at := created_at; am_expires_at := expires_at |}.

Definition _body_metadata (m : ArtifactMetadata) (descriptor : string) : result exn (list (string * string)) :=
  created ← _utc (am_created_at m);
  expires ← match am_expires_at m with Some t => _utc t | None => Ok "none" end;
  Ok [("ach-artifact-id", am_artifact_id m); ("ach-descriptor", packed descriptor); ("ach-checksum", am_checksum m);
      ("ach-size", str_of_int (am_size m)); ("ach-created-at", created); ("ach-expires-at", expires)].
Definition meta_json (metadata : list (string * string)) (k : string) : json :=
  match assoc k metadata with Some s => JStr s | None => JNull end.
(** The body object is the one these bytes and this descriptor make. *)
Definition body_matches (artifact_id descriptor checksum : string) (size : Z) (head : option Z * list (string * string)) : bool :=
  let '(content_length, metadata) := head in
  bool_decide (assoc "ach-artifact-id" metadata = Some artifact_id)
  && bool_decide (assoc "ach-descriptor" metadata = Some (packed descriptor))
  && bool_decide (assoc "ach-checksum" metadata = Some checksum)
  && bool_decide (assoc "ach-size" metadata = Some (str_of_int size))
  && (from_option id (-1) content_length =? size).
Definition body_dates (metadata : list (string * string)) : result exn (Z * option Z) :=
  created ← _parse_date (meta_json metadata "ach-created-at");
  expires ← _parse_expiry (meta_json metadata "ach-expires-at");
  Ok (created, expires).
(** The owner of the publication, whatever the display name of the agent. *)
Definition same_owner (a b : StateRef) : bool := bool_decide (owner_fields a = owner_fields b).
Definition with_owner (owner : StateRef) (m : ArtifactMetadata) : ArtifactMetadata :=
  {| am_artifact_id := am_artifact_id m; am_owner := owner; am_producer := am_producer m; am_mime := am_mime m;
     am_name := am_name m; am_size := am_size m; am_checksum := am_checksum m; am_created_at := am_created_at m;
     am_expires_at := am_expires_at m |}.
Definition _check_manifest_match (existing expected : ArtifactMetadata) : result exn ArtifactReceipt :=
  if String.eqb (am_artifact_id existing) (am_artifact_id expected) && same_owner (am_owner existing) (am_owner expected)
     && bool_decide (am_producer existing = am_producer expected) && String.eqb (am_mime existing) (am_mime expected)
     && String.eqb (am_name existing) (am_name expected) && (am_size existing =? am_size expected)
     && String.eqb (am_checksum existing) (am_checksum expected)
  then Ok (_receipt (with_owner (am_owner expected) existing)) else Err ArtifactConflict.

(** ** The operations *)

Context (self : S3Storage).
Definition _head (key : string) : sprog (option (option Z * list (string * string))) :=
  catch (Some <$> head_object key) (fun e => if _is_not_found e then mret None else throw e).
Definition _read_body (key : string) (cap : Z) : sprog string := fst <$> _fetch_with_etag key cap.
(** [try: p finally: await _cleanup_path(path)] *)
Definition cleaned {A} (p : sprog A) : sprog A :=
  r ← attempt p; _ ← staging Unlink; lift r.
Definition expiry_after (created days : Z) : result exn (option Z) :=
  if days =? 0 then Ok None else
  let t := created + days * 86400000000 in if in_range t then Ok (Some t) else Err OverflowError.

(** What is published. *)
Record publication :=
  { pub_owner : StateRef; pub_producer : ArtifactProducer; pub_key : string; pub_mime : string; pub_name : string }.
Definition pub_id (p : publication) : string := _artifact_id (pub_owner p) (pub_key p).
Definition pub_descriptor (p : publication) : string := _descriptor (pub_owner p) (pub_producer p) (pub_mime p) (pub_name p).
Definition metadata_of (p : publication) (checksum : string) (size : Z) (dates : Z * option Z) : ArtifactMetadata :=
  {| am_artifact_id := pub_id p; am_owner := pub_owner p; am_producer := pub_producer p; am_mime := pub_mime p;
     am_name := pub_name p; am_size := size; am_checksum := checksum; am_created_at := fst dates; am_expires_at := snd dates |}.
(** The body object exists and is this publication's: its dates are those it was created with. *)
Definition existing_body (p : publication) (checksum : string) (size : Z) (head : option Z * list (string * string)) :
    sprog ArtifactMetadata :=
  if body_matches (pub_id p) (pub_descriptor p) checksum size head
  then dates ← py (body_dates (snd head)); mret (metadata_of p checksum size dates)
  else throw (PyErr ArtifactConflict).
Definition ensure_body (p : publication) (days : Z) (data checksum : string) (size : Z) : sprog ArtifactMetadata :=
  let key := body_key_of (pub_owner p) (st_prefix self) (pub_id p) in
  head ← _head key;
  match head with
  | Some head => existing_body p checksum size head
  | None =>
      created ← clock;
      expires ← py (expiry_after created days);
      let expected := metadata_of p checksum size (created, expires) in
      upload ← py (_body_metadata expected (pub_descriptor p));
      put ← attempt (_ ← staging OpenStaging; put_object key data IfNoneMatch upload);
      match put with
      | Ok _ => mret expected
      | Err original =>
          head ← _head key;
          match head with
          | None => throw original
          | Some head => existing_body p checksum size head
          end
      end
  end.
Definition register (p : publication) (expected : ArtifactMetadata) : sprog ArtifactReceipt :=
  let key := manifest_key_of (pub_owner p) (st_prefix self) (pub_id p) in
  manifest ← py (_metadata_json expected);
  put ← attempt (put_object key (dumps false manifest) IfNoneMatch
                   [("ach-artifact-id", pub_id p); ("ach-checksum", am_checksum expected);
                    ("ach-descriptor", sha256_hex (pub_descriptor p))]);
  match put with
  | Ok _ => mret (_receipt expected)
  | Err original =>
      raw ← catch (_read_body key _MAX_MANIFEST_BYTES) (fun e => throw (if _is_not_found e then original else e));
      existing ← py (_parse_manifest raw);
      py (_check_manifest_match existing expected)
  end.
Definition check_publication (p : publication) (policy : ArtifactsBlock) : result exn unit :=
  if negb (art_enabled policy) then Err ArtifactDisabled else
  if negb (String.eqb (sr_domain (pub_owner p)) DOMAIN_WORKSPACE) then Err ValueError else
  _ ← new_StateRef (fun _ => Err ValueError) (FrozenInput (sr_agent (pub_owner p))) (sr_workspace_ref (pub_owner p))
        DOMAIN_SESSION (Some (ap_session_ref (pub_producer p)));
  require (truthy (pub_key p) && truthy (pub_mime p) && truthy (pub_name p) && truthy (ap_invocation_id (pub_producer p)))
    ValueError.
Definition too_large (e : serr) : serr := match e with PyErr ArchiveTooLarge => PyErr ArtifactTooLarge | e => e end.
Definition create_artifact_s3 (p : publication) (stream : byte_stream) (policy : ArtifactsBlock) : sprog ArtifactReceipt :=
  _ ← py (check_publication p policy);
  '(data, checksum, size) ← catch (_receive_bounded stream (max_artifact_bytes policy)) (fun e => throw (too_large e));
  cleaned (expected ← ensure_body p (art_retention_days policy) data checksum size; register p expected).
Definition create_artifact (p : publication) (stream : byte_stream) (policy : ArtifactsBlock) : sprog ArtifactReceipt :=
  _ ← py (_require_client self); create_artifact_s3 p stream policy.

Definition check_not_expired (m : ArtifactMetadata) : sprog unit :=
  match am_expires_at m with
  | None => mret tt
  | Some t => now ← clock; if t <=? now then throw (PyErr ArtifactExpired) else mret tt
  end.
(** The chunks the content is read in. *)
Fixpoint read_chunks (fuel : nat) (left : Z) : sprog unit :=
  match fuel with
  | O => mret tt
  | S fuel => if left <=? 0 then mret tt else _ ← staging ReadStaging; read_chunks fuel (left - _CHUNK)
  end.
Definition body_error (e : serr) : serr :=
  match e with PyErr ArchiveTooLarge => PyErr RestoreFailed | e => if _is_not_found e then PyErr RestoreFailed else e end.
(** [receipt.open()], read to its end. *)
Definition open_artifact (key : string) (m : ArtifactMetadata) : sprog string :=
  _ ← check_not_expired m;
  _ ← staging NewStagingPath;
  cleaned (data ← catch (_download_capped key (am_size m)) (fun e => throw (body_error e));
           _ ← staging HashStaging;
           if (len data =? am_size m) && String.eqb (sha256_hex data) (am_checksum m)
           then _ ← read_chunks (String.length data) (len data); mret data
           else throw (PyErr RestoreFailed)).
Definition read_artifact_s3 (owner : StateRef) (artifact_id : string) : sprog ArtifactMetadata :=
  if negb (String.eqb (sr_domain owner) DOMAIN_WORKSPACE) then throw (PyErr ValueError) else
  if negb (_ID artifact_id) then throw (PyErr ArtifactNotFound) else
  raw ← catch (_read_body (manifest_key_of owner (st_prefix self) artifact_id) _MAX_MANIFEST_BYTES)
          (fun e => throw (if _is_not_found e then PyErr ArtifactNotFound else e));
  meta ← py (_parse_manifest raw);
  if negb (String.eqb (am_artifact_id meta) artifact_id && same_owner (am_owner meta) owner) then throw (PyErr ArtifactNotFound) else
  let meta := with_owner owner meta in
  _ ← check_not_expired meta; mret meta.
Definition read_artifact (owner : StateRef) (artifact_id : string) : sprog ArtifactMetadata :=
  _ ← py (_require_client self); read_artifact_s3 owner artifact_id.
Definition read_whole (owner : StateRef) (artifact_id : string) : sprog (ArtifactMetadata * string) :=
  meta ← read_artifact owner artifact_id;
  data ← open_artifact (body_key_of owner (st_prefix self) artifact_id) meta;
  mret (meta, data).
End documents.
