(* ===== verification/ArtifactsProps.v ===== *)
(** * storage/artifacts.py: an artifact is published once

    Any number of publications and reads interleave, call by call, on a bucket that may fail at
    any call.  [kept] is all that may happen to the body object of one artifact: it is created
    once, with the checksum of its bytes, and never changed. *)

From S2P Require Import Prelude Sha256 PyJson PyLoads Config StateRefs Tokens Effects Storage StorageDocs StorageLogic StorageSpecs StorageProps Artifacts.
From Stdlib Require Import Ascii.
Local Open Scope Z_scope.

Lemma ends_with_last c s a : ends_with_char c (s +:+ String a "") = Ascii.eqb a c.
Proof.
  induction s as [|b s IH]; [done|]. rewrite str_app_cons. cbn [ends_with_char].
  destruct (s +:+ String a "") eqn:E; [by destruct s|]. exact IH.
Qed.
Lemma blob_not_manifest stem owner prefix id : manifest_key_of owner prefix id <> stem +:+ "/blob".
Proof.
  intros E. apply (f_equal (ends_with_char "b")) in E. unfold manifest_key_of in E.
  change "/blob" with ("/blo" +:+ "b") in E. change "/metadata.json" with ("/metadata.jso" +:+ "n") in E.
  rewrite <- !str_app_assoc in E. by rewrite !ends_with_last in E.
Qed.
Lemma packed_inj d d' : packed d = packed d' -> d = d'.
Proof.
  intros E. apply encode_inj. assert (Hb : forall s, Forall byte (encode s)) by (intros; apply encode_byte).
  apply (f_equal (rstrip_char "=")) in E. unfold packed in E.
  pose proof (b64_roundtrip _ (Hb d)) as H1. pose proof (b64_roundtrip _ (Hb d')) as H2.
  unfold _b64 in *. rewrite E, H2 in H1. by injection H1.
Qed.

Section artifacts.
Context `{S3Backend W} (pf : string -> pyfloat) (self : S3Storage) (stem : string).
Let bk : string := stem +:+ "/blob".

Definition honest (o : s3_object) : Prop := assoc "ach-checksum" (o_meta o) = Some (sha256_hex (o_body o)).
Definition kept (w w' : W) : Prop :=
  objects w' !! bk = objects w !! bk
  \/ (objects w !! bk = None /\ exists o, objects w' !! bk = Some o /\ honest o).
Definition blob_legal (h : list W) (w' : W) : Prop := match h with w :: _ => kept w w' | [] => True end.
Abbreviation wp := (wp s3_step blob_legal blob_legal).
Lemma blob_same w past w' : objects w' = objects w -> blob_legal (w :: past) w'.
Proof. intros Ho. left. by rewrite Ho. Qed.
Lemma blob_id h w : blob_legal h w -> blob_legal h w.
Proof. done. Qed.
Hint Resolve blob_same blob_id : core.

(** The body is there, of this size, under this descriptor and this checksum. *)
Definition stamped (descriptor checksum : string) (size : Z) (h : list W) : Prop :=
  exists w past o, h = w :: past /\ objects w !! bk = Some o
  /\ assoc "ach-descriptor" (o_meta o) = Some (packed descriptor) /\ assoc "ach-checksum" (o_meta o) = Some checksum
  /\ len (o_body o) = size.
Lemma stamped_ext d c n h h' : ext blob_legal h h' -> stamped d c n h -> stamped d c n h'.
Proof.
  induction 1 as [h|h h' w _ IH Hl]; [done|]. intros Hs. destruct (IH Hs) as (w1 & past & o & -> & Ho & Hd).
  exists w, (w1 :: past), o. split; [done|]. split; [|done]. destruct Hl as [->|[Hn _]]; [done|congruence].
Qed.
Lemma put_kept w key b m w' : put_in w key b m w' -> objects w !! key = None ->
  (key = bk -> assoc "ach-checksum" m = Some (sha256_hex b)) -> kept w w'.
Proof.
  intros Hp Hn Hc. destruct (decide (key = bk)) as [->|Hne].
  - right. split; [done|]. exists {| o_body := b; o_meta := m |}. split; [by eapply put_in_eq|by apply Hc].
  - left. by eapply put_in_ne.
Qed.

(** ** The calls *)

Lemma wp_head key (Q : list W -> result serr (option (option Z * list (string * string))) -> Prop) h :
  (forall w past, ext blob_legal h (w :: past) -> Q (w :: past) (Ok None)) ->
  (forall w past b m, ext blob_legal h (w :: past) -> objects w !! key = Some {| o_body := b; o_meta := m |} ->
     Q (w :: past) (Ok (Some (Some (len b), m)))) ->
  (forall h' e, ext blob_legal h h' -> Q h' (Err e)) -> wp (_head key) Q h.
Proof.
  intros HN HS HE. unfold _head. apply wp_catch; [auto|]. apply wp_fmap; [auto|].
  apply wp_head_object; [auto|auto|]. intros w past w' [[n m]|e] Hx Ho Hr.
  - destruct Hr as (b & -> & Hb). by eapply HS.
  - destruct (_is_not_found e); [by apply HN|by apply HE].
Qed.
Lemma wp_existing_body p checksum size head Q h :
  (forall dates, body_matches (pub_id p) (pub_descriptor p) checksum size head = true ->
     Q h (Ok (metadata_of p checksum size dates))) ->
  (forall e, Q h (Err e)) -> wp (existing_body p checksum size head) Q h.
Proof.
  intros HQ HE. unfold existing_body. destruct (body_matches _ _ _ _ _) eqn:Em; [|by apply HE].
  apply wp_bind; [auto|]. apply wp_py. destruct (body_dates _); [by apply HQ|by apply HE].
Qed.
Lemma body_matches_spec id d c size n m : body_matches id d c size (Some n, m) = true ->
  assoc "ach-descriptor" m = Some (packed d) /\ assoc "ach-checksum" m = Some c /\ n = size.
Proof. unfold body_matches. rewrite !andb_true_iff, !bool_decide_eq_true, Z.eqb_eq. by intros [[[[_ ?] ?] _] ?]. Qed.

Lemma wp_ensure_body p days data Q h :
  (forall h' dates, ext blob_legal h h' ->
     (body_key_of (pub_owner p) (st_prefix self) (pub_id p) = bk -> stamped (pub_descriptor p) (sha256_hex data) (len data) h') ->
     Q h' (Ok (metadata_of p (sha256_hex data) (len data) dates))) ->
  (forall h' e, ext blob_legal h h' -> Q h' (Err e)) ->
  wp (ensure_body self p days data (sha256_hex data) (len data)) Q h.
Proof.
  intros HQ HE. unfold ensure_body. set (key := body_key_of _ _ _).
  assert (Hfound : forall w past b m, ext blob_legal h (w :: past) ->
    objects w !! key = Some {| o_body := b; o_meta := m |} ->
    wp (existing_body p (sha256_hex data) (len data) (Some (len b), m)) Q (w :: past)).
  { intros w past b m Hx Ho. apply wp_existing_body; [|by intros; apply HE]. intros dates Hm.
    apply body_matches_spec in Hm as (Hd & Hc & Hn). apply HQ; [done|]. intros Hk.
    exists w, past, {| o_body := b; o_meta := m |}. split; [done|]. rewrite <- Hk. done. }
  apply wp_bind; [auto|]. apply wp_head; [|exact Hfound|done].
  intros w1 past1 H1. apply wp_bind; [auto|]. apply wp_clock; [auto|auto|]. intros h2 t H2.
  assert (Hx2 : ext blob_legal h h2) by (by eapply ext_trans).
  apply wp_bind; [auto|]. apply wp_py. destruct (expiry_after t days) as [expires|y]; [|by apply HE].
  apply wp_bind; [auto|]. apply wp_py. destruct (_body_metadata _ _) as [upload|y] eqn:Eu; [|by apply HE].
  assert (Hup : assoc "ach-descriptor" upload = Some (packed (pub_descriptor p))
                /\ assoc "ach-checksum" upload = Some (sha256_hex data)).
  { unfold _body_metadata in Eu. apply bind_ok in Eu as (c & _ & Eu). apply bind_ok in Eu as (x & _ & [= <-]). done. }
  apply wp_bind; [auto|]. apply wp_attempt, wp_bind; [auto|]. apply wp_staging; [auto|auto|].
  intros h3 opened H3. assert (Hx3 : ext blob_legal h h3) by (by eapply ext_trans).
  assert (Hagain : forall h4 e, ext blob_legal h h4 ->
    wp (head ← _head key; match head with None => throw e | Some head => existing_body p (sha256_hex data) (len data) head end) Q h4).
  { intros h4 e Hx4. apply wp_bind; [auto|]. apply wp_head; [|intros; apply Hfound; [by eapply ext_trans|done]|].
    - intros. apply HE. by eapply ext_trans.
    - intros. apply HE. by eapply ext_trans. }
  destruct opened as [[]|e]; [|by apply Hagain].
  apply wp_put_object; [auto|auto| |].
  - intros w past w' _ Hn Hp. eapply put_kept; [exact Hp|exact Hn|]. intros _. apply Hup.
  - intros w past w' r _ Hx Hr. assert (Hx4 : ext blob_legal h (w' :: w :: past)) by (by eapply ext_trans).
    destruct r as [etag|e]; [|by apply Hagain]. destruct Hr as (_ & _ & Hp). apply HQ; [done|]. intros Hk.
    exists w', (w :: past), {| o_body := data; o_meta := upload |}. split; [done|]. rewrite <- Hk.
    split; [by eapply put_in_eq|]. by destruct Hup.
Qed.

Lemma wp_read_any key cap (Q : list W -> result serr string -> Prop) h :
  (forall h' r, ext blob_legal h h' -> Q h' r) -> wp (_read_body key cap) Q h.
Proof.
  intros HQ. unfold _read_body, _fetch_with_etag. apply wp_fmap; [auto|]. apply wp_bind; [auto|].
  apply wp_get_object; [auto|auto|]. intros w past w' [[b e]|e] Hx _ _; [|by apply HQ].
  destruct (cap <? len b); by apply HQ.
Qed.
Lemma manifest_match existing p c n dates rc :
  _check_manifest_match existing (metadata_of p c n dates) = Ok rc -> exists dates', rc = _receipt (metadata_of p c n dates').
Proof.
  unfold _check_manifest_match. destruct (_ && _) eqn:E; [|done]. intros [= <-].
  rewrite !andb_true_iff, !String.eqb_eq, bool_decide_eq_true, Z.eqb_eq in E.
  exists (am_created_at existing, am_expires_at existing). unfold with_owner, metadata_of in *. cbn in *.
  destruct E as [[[[[[E1 _] E2] E3] E4] E5] E6]. by rewrite E1, E2, E3, E4, E5, E6.
Qed.
Lemma wp_register p c n dates Q h :
  (forall h' dates', ext blob_legal h h' -> Q h' (Ok (_receipt (metadata_of p c n dates')))) ->
  (forall h' e, ext blob_legal h h' -> Q h' (Err e)) ->
  wp (register pf self p (metadata_of p c n dates)) Q h.
Proof.
  intros HQ HE. unfold register. apply wp_bind; [auto|]. apply wp_py.
  destruct (_metadata_json _) as [manifest|y]; [|by apply HE; constructor].
  apply wp_bind; [auto|]. apply wp_attempt. apply wp_put_object; [auto|auto| |].
  - intros w past w' _ Hn Hp. eapply put_kept; [exact Hp|exact Hn|]. intros Hk. by apply blob_not_manifest in Hk.
  - intros w past w' r _ Hx Hr. destruct r as [etag|e]; [by apply HQ|].
    apply wp_bind; [auto|]. apply wp_catch; [auto|]. apply wp_read_any. intros h2 r2 H2.
    assert (Hx2 : ext blob_legal h h2) by (by eapply ext_trans).
    destruct r2 as [raw|x]; [|by apply HE]. apply wp_bind; [auto|]. apply wp_py.
    destruct (_parse_manifest pf raw) as [existing|y]; [|by apply HE]. apply wp_py.
    destruct (_check_manifest_match _ _) as [rc|y] eqn:Em; [|by apply HE].
    apply manifest_match in Em as [dates' ->]. by apply HQ.
Qed.
Lemma wp_cleaned {A} (p : prog answer serr A) (Q : list W -> result serr A -> Prop) h :
  wp p (fun h r => (forall h', ext blob_legal h h' -> Q h' r) /\ forall h' e, ext blob_legal h h' -> Q h' (Err e)) h ->
  wp (cleaned p) Q h.
Proof.
  intros Hp. unfold cleaned. apply wp_bind; [auto|]. apply wp_attempt. eapply wp_mono; [auto|exact Hp|].
  intros h' r Hx [HQ HE]. cbn beta iota. apply wp_bind; [auto|]. apply wp_staging; [auto|auto|].
  intros h2 [[]|e] H2; [by apply HQ|by apply HE].
Qed.

Definition created (p : publication) (stream : byte_stream) (h : list W) (r : result serr ArtifactReceipt) : Prop :=
  match r with
  | Ok rc =>
      (exists dates, rc = _receipt (metadata_of p (sha256_hex (stream_data stream)) (len (stream_data stream)) dates))
      /\ (body_key_of (pub_owner p) (st_prefix self) (pub_id p) = bk ->
          stamped (pub_descriptor p) (sha256_hex (stream_data stream)) (len (stream_data stream)) h)
  | Err _ => True
  end.
Lemma created_stable p stream : stable blob_legal (created p stream).
Proof. intros h h' [rc|e] Hx; [|done]. intros [Hd Hs]. split; [done|]. intros Hk. by eapply stamped_ext, Hs. Qed.
Lemma wp_create p stream policy h : wp (create_artifact pf self p stream policy) (created p stream) h.
Proof.
  unfold create_artifact, create_artifact_s3. apply wp_bind; [auto|]. apply wp_py. destruct (_require_client self) as [[]|]; [|done].
  apply wp_bind; [auto|]. apply wp_py. destruct (check_publication p policy) as [[]|]; [|done].
  apply wp_bind; [auto|]. apply wp_catch; [auto|]. apply wp_receive; [auto|auto|]. intros h1 r1 H1 Hr1.
  destruct r1 as [[[data c] n]|e]; [|done]. destruct (Hr1 _ eq_refl) as [_ [= -> -> ->]].
  apply wp_cleaned, wp_bind; [auto|]. apply wp_ensure_body; [|by intros; split].
  intros h2 dates H2 Hs. apply wp_register; [|by intros; split].
  intros h3 dates' H3. split; [|done]. intros h4 H4. split; [by exists dates'|].
  intros Hk. eapply stamped_ext; [|by apply Hs]. by eapply ext_trans.
Qed.

(** The content a reader got is the body of the artifact, and has the checksum told. *)
Definition served (owner : StateRef) (id : string) (h : list W) (r : result serr (ArtifactMetadata * string)) : Prop :=
  match r with
  | Ok (meta, data) =>
      sha256_hex data = am_checksum meta /\ len data = am_size meta
      /\ (body_key_of owner (st_prefix self) id = bk ->
          exists w past o, h = w :: past /\ objects w !! bk = Some o /\ o_body o = data)
  | Err _ => True
  end.
Lemma served_stable owner id : stable blob_legal (served owner id).
Proof.
  intros h h' [[meta data]|e] Hx; [|done]. intros (Hc & Hn & Hb). split; [done|]. split; [done|]. intros Hk.
  specialize (Hb Hk). clear Hk Hc Hn. induction Hx as [h|h h' w _ IH Hl]; [done|].
  destruct (IH Hb) as (w1 & past & o & -> & Ho & Hd). exists w, (w1 :: past), o. split; [done|]. split; [|done].
  destruct Hl as [->|[Hn _]]; [done|congruence].
Qed.
Lemma wp_not_expired m (Q : list W -> result serr unit -> Prop) h :
  (forall h' r, ext blob_legal h h' -> Q h' r) -> wp (check_not_expired m) Q h.
Proof.
  intros HQ. unfold check_not_expired. destruct (am_expires_at m) as [t|]; [|by apply HQ; constructor].
  apply wp_bind; [auto|]. apply wp_clock; [auto|auto|]. intros h' now Hx. destruct (t <=? now); by apply HQ.
Qed.
Lemma wp_read_chunks fuel left (Q : list W -> result serr unit -> Prop) h :
  (forall h' r, ext blob_legal h h' -> Q h' r) -> wp (read_chunks fuel left) Q h.
Proof.
  revert left h. induction fuel as [|fuel IH]; intros left h HQ; cbn [read_chunks]; [by apply HQ; constructor|].
  destruct (left <=? 0); [by apply HQ; constructor|]. apply wp_bind; [auto|]. apply wp_staging; [auto|auto|].
  intros h1 [[]|e] H1; [|by apply HQ]. apply IH. intros. apply HQ. by eapply ext_trans.
Qed.
Lemma wp_read owner id h : wp (read_whole pf self owner id) (served owner id) h.
Proof.
  unfold read_whole, read_artifact, read_artifact_s3. do 2 (apply wp_bind; [auto|]). apply wp_py.
  destruct (_require_client self) as [[]|]; [|done]. destruct (negb _); [done|]. destruct (negb (_ID id)); [done|].
  apply wp_bind; [auto|]. apply wp_catch; [auto|]. apply wp_read_any. intros h1 [raw|e] H1; [|done].
  apply wp_bind; [auto|]. apply wp_py. destruct (_parse_manifest pf raw) as [m|]; [|done]. destruct (negb _); [done|].
  set (meta := with_owner owner m). apply wp_bind; [auto|]. apply wp_not_expired. intros h2 [[]|e] H2; [|done].
  cbn beta iota. apply wp_bind; [auto|]. unfold open_artifact. apply wp_bind; [auto|]. apply wp_not_expired.
  intros h3 [[]|e] H3; [|done]. apply wp_bind; [auto|]. apply wp_staging; [auto|auto|]. intros h4 [[]|e] H4; [|done].
  apply wp_cleaned. unfold _download_capped. apply wp_bind; [auto|]. apply wp_catch; [auto|]. apply wp_bind; [auto|].
  apply wp_get_object; [auto|auto|]. intros w past w' [[body etag]|e] H5 Ho Hr; [|by destruct e; split].
  apply wp_bind; [auto|]. apply wp_staging; [auto|auto|]. intros h6 [[]|e] H6; [|by split].
  destruct (am_size meta <? len body); [by split|]. cbn beta iota. apply wp_bind; [auto|]. apply wp_staging; [auto|auto|].
  intros h7 [[]|e] H7; [|by split]. destruct (_ && _) eqn:E; [|by split].
  apply andb_true_iff in E as [En%Z.eqb_eq Ec%String.eqb_eq]. apply wp_bind; [auto|]. apply wp_read_chunks.
  intros h8 [[]|e] H8; [|by split]. split; [|done]. intros h9 H9. cbn beta iota.
  assert (Hx : ext blob_legal (w' :: w :: past) h9) by (repeat (eapply ext_trans; [eassumption|]); constructor).
  destruct Hr as (_ & m0 & Hb). apply served_stable with (w' :: w :: past); [done|]. split; [done|]. split; [done|].
  intros Hk. exists w', (w :: past), {| o_body := body; o_meta := m0 |}. split; [done|]. by rewrite <- Hk.
Qed.
(** Whatever happened to the bucket, the checksum on the body object is that of its bytes. *)
Lemma ext_honest w0 h : objects w0 !! bk = None -> ext blob_legal [w0] h ->
  exists w past, h = w :: past /\ forall o, objects w !! bk = Some o -> honest o.
Proof.
  intros Hw0 Hx. remember [w0] as h0 eqn:E. revert Hw0. induction Hx as [h|h h' w _ IH Hl]; intros Hw0.
  - exists w0, []. split; [done|]. intros o. by rewrite Hw0.
  - destruct (IH E Hw0) as (w1 & past & -> & Ho). exists w, (w1 :: past). split; [done|].
    destruct Hl as [->|(_ & o & -> & Hh)]; [done|]. by intros o' [= <-].
Qed.
Lemma blob_agreed w0 h d1 c1 n1 d2 c2 n2 : objects w0 !! bk = None -> ext blob_legal [w0] h ->
  stamped d1 c1 n1 h -> stamped d2 c2 n2 h -> d1 = d2 /\ c1 = c2 /\ n1 = n2.
Proof.
  intros Hw0 Hx (w & past & o & -> & Ho & Hd & Hc & Hn) (w' & past' & o' & [= <- <-] & Ho' & Hd' & Hc' & Hn').
  rewrite Ho in Ho'. injection Ho' as <-. rewrite Hd in Hd'. rewrite Hc in Hc'. injection Hc' as <-.
  injection Hd' as Hd'%packed_inj. split_and!; congruence.
Qed.
End artifacts.

(** ** Publications and reads, interleaved *)

Inductive artifact_op :=
  | OpCreate (p : publication) (stream : byte_stream) (policy : ArtifactsBlock)
  | OpRead (owner : StateRef) (artifact_id : string).
Inductive artifact_result :=
  | ResPublished (rc : ArtifactReceipt)
  | ResContent (meta : ArtifactMetadata) (data : string).

Section system.
Context `{S3Backend W} (pf : string -> pyfloat) (self : S3Storage).

Definition artifact_code (o : artifact_op) : prog answer serr artifact_result :=
  match o with
  | OpCreate p stream policy => ResPublished <$> create_artifact pf self p stream policy
  | OpRead owner id => (fun '(m, d) => ResContent m d) <$> read_whole pf self owner id
  end.
Definition artifact_post (stem : string) (o : artifact_op) (h : list W) (r : result serr artifact_result) : Prop :=
  match o, r with
  | OpCreate p stream _, Ok (ResPublished rc) => created self stem p stream h (Ok rc)
  | OpRead owner id, Ok (ResContent m d) => served self stem owner id h (Ok (m, d))
  | _, _ => True
  end.
Definition artifacts_reachable (w0 : W) (s : system (W:=W)) : Prop :=
  objects w0 = ∅ /\ sys_reachable s3_step artifact_code (fun _ _ => True) w0 s.

Lemma artifact_wp stem o h : wp s3_step (blob_legal stem) (blob_legal stem) (artifact_code o) (artifact_post stem o) h.
Proof.
  assert (Hid : forall h w, blob_legal stem h w -> blob_legal stem h w) by done.
  destruct o as [p stream policy|owner id]; (apply wp_fmap; [exact Hid|]).
  - eapply wp_mono; [exact Hid|apply wp_create|]. by intros h' [rc|e].
  - eapply wp_mono; [exact Hid|apply wp_read|]. by intros h' [[m d]|e].
Qed.
Lemma artifact_post_stable stem o : stable (blob_legal stem) (artifact_post stem o).
Proof.
  intros h h' r Hx. destruct o, r as [[]|]; cbn [artifact_post]; try done.
  - by apply created_stable.
  - by apply served_stable.
Qed.
Lemma artifacts_inv stem w0 h ts : artifacts_reachable w0 (h, ts) ->
  objects w0 !! (stem +:+ "/blob") = None /\ ext (blob_legal stem) [w0] h
  /\ forall o r, In (o, Done r) ts -> artifact_post stem o h r.
Proof.
  intros [Hw0 Hr]. destruct (system_inv s3_step (blob_legal stem) artifact_code (fun _ _ => True) (artifact_post stem)
    (artifact_post_stable stem) w0 h ts) as [Hx Hts]; [intros; apply artifact_wp|done|].
  split; [by rewrite Hw0|]. split; [done|]. intros o r Hin. rewrite Forall_forall in Hts.
  apply (Hts (o, Done r)). by apply list_elem_of_In.
Qed.
Lemma descriptor_inj p p' : pub_owner p = pub_owner p' -> pub_key p = pub_key p' ->
  pub_descriptor p = pub_descriptor p' -> p = p'.
Proof.
  destruct p as [o [s i] k m n], p' as [o' [s' i'] k' m' n']. unfold pub_descriptor, _descriptor. cbn.
  intros -> -> E%dumps_strs_inj. cbn in E. by injection E as -> -> -> ->.
Qed.

(** C34. An artifact is published once.  Whatever publications and reads ran, interleaved call by
    call or retried after a failure of the bucket at any call, any two publications under the
    same owner and idempotency key that returned a receipt were the same publication (producer,
    media type and name) of content with the same SHA-256 digest and size, and the receipts name
    the same artifact; every reader that got that artifact to its end got content with that
    digest and size. *)
Theorem artifact_published_once w0 h ts p1 s1 pol1 rc1 p2 s2 pol2 rc2 :
  artifacts_reachable w0 (h, ts) ->
  In (OpCreate p1 s1 pol1, Done (Ok (ResPublished rc1))) ts ->
  In (OpCreate p2 s2 pol2, Done (Ok (ResPublished rc2))) ts ->
  pub_owner p1 = pub_owner p2 -> pub_key p1 = pub_key p2 ->
  p1 = p2 /\ sha256_hex (stream_data s1) = sha256_hex (stream_data s2) /\ len (stream_data s1) = len (stream_data s2)
  /\ ar_reference rc1 = ar_reference rc2
  /\ forall meta data, In (OpRead (pub_owner p1) (ar_artifact_id rc1), Done (Ok (ResContent meta data))) ts ->
       sha256_hex data = sha256_hex (stream_data s1) /\ len data = len (stream_data s1).
Proof.
  intros Hr H1 H2 Eo Ek. assert (Ei : pub_id p1 = pub_id p2) by (unfold pub_id; congruence).
  set (stem := _base_key (pub_owner p1) (st_prefix self) +:+ "/artifacts/" +:+ pub_id p1).
  assert (Hb : body_key_of (pub_owner p1) (st_prefix self) (pub_id p1) = stem +:+ "/blob").
  { unfold body_key_of, stem. by rewrite !str_app_assoc. }
  destruct (artifacts_inv stem _ _ _ Hr) as (Hw0 & Hx & Hp).
  destruct (Hp _ _ H1) as [[dates1 ->] S1]. destruct (Hp _ _ H2) as [[dates2 ->] S2]. specialize (S1 Hb).
  assert (S2' := S2). rewrite <- Eo, <- Ei in S2'. specialize (S2' Hb).
  destruct (blob_agreed _ _ _ _ _ _ _ _ _ Hw0 Hx S1 S2') as (Ed & Ec & En).
  split; [by apply descriptor_inj|]. split; [done|]. split; [done|]. split; [unfold _receipt, metadata_of; cbn [ar_reference am_artifact_id]; by rewrite Ei|].
  intros meta data Hin. destruct (Hp _ _ Hin) as (_ & _ & Hs). destruct (Hs Hb) as (w & past & o & -> & Ho & <-).
  destruct (ext_honest _ _ _ Hw0 Hx) as (? & ? & [= <- <-] & Hh). specialize (Hh _ Ho).
  destruct S1 as (? & ? & o1 & [= <- <-] & Ho1 & _ & Hc & Hn). rewrite Ho in Ho1. injection Ho1 as <-.
  unfold honest in Hh. rewrite Hc in Hh. by injection Hh as ->.
Qed.
End system.

(** ** Samples *)

#[local] Existing Instance plain_datetime.
#[local] Existing Instance mem_backend.

Abbreviation art_thread := (artifact_op * prog answer serr artifact_result)%type.
Definition art_state : Type := mem * list mem * list art_thread.
Definition art_reached (s : art_state) : Prop :=
  let '(w, past, ts) := s in artifacts_reachable no_float sample_storage ∅ (w :: past, ts).

Lemma art_run_reached (ts : list art_thread) o p w past :
  art_reached (w, past, ts ++ [(o, p)]) ->
  let '(w', past', r) := mem_run p w past in art_reached (w', past', ts ++ [(o, Done r)]).
Proof.
  revert w past; induction p as [r|c k IH]; intros w past Hr; cbn [mem_run]; [done|].
  destruct (mem_exec w c) as [a w'] eqn:E. apply IH. destruct Hr as [Hw0 Hr]. split; [done|].
  eapply sys_more; [exact Hr|]. rewrite <- (insert_last ts (o, Call c k) (o, k a)).
  eapply (sys_call _ _ _ w past (ts ++ [(o, Call c k)]) (length ts)); [|exact E].
  by rewrite list_lookup_middle.
Qed.
(** The state after running one more operation alone. *)
Definition art_after (o : artifact_op) (s : art_state) : art_state :=
  let '(w, past, ts) := s in
  let '(w', past', r) := mem_run (artifact_code no_float sample_storage o) w past in
  (w', past', ts ++ [(o, Done r)]).
Lemma art_after_reached o s : art_reached s -> art_reached (art_after o s).
Proof.
  destruct s as [[w past] ts]. intros Hr. unfold art_after.
  pose proof (art_run_reached ts o (artifact_code no_float sample_storage o) w past) as H.
  destruct (mem_run _ w past) as [[w' past'] r]. apply H. destruct Hr as [Hw0 Hr]. split; [done|].
  eapply sys_more; [exact Hr|]. by constructor.
Qed.

Definition art_owner : StateRef :=
  {| sr_agent := sr_agent sample_ref; sr_workspace_ref := sr_workspace_ref sample_ref;
     sr_domain := DOMAIN_WORKSPACE; sr_session_ref := None |}.
Definition report : publication :=
  {| pub_owner := art_owner; pub_producer := {| ap_session_ref := sha256_hex "s"; ap_invocation_id := "inv-1" |};
     pub_key := "key-1"; pub_mime := "text/plain"; pub_name := "report.txt" |}.
Definition other_report : publication :=
  {| pub_owner := art_owner; pub_producer := pub_producer report; pub_key := "key-1"; pub_mime := "text/plain";
     pub_name := "other.txt" |}.
Definition art_policy : ArtifactsBlock := {| art_enabled := true; max_artifact_bytes := 100; art_retention_days := 1 |}.
Definition whole_stream : byte_stream := {| bs_chunks := ["data"]; bs_raises := None |}.

Definition create1 : artifact_op := OpCreate report sample_stream art_policy.
Definition create2 : artifact_op := OpCreate report whole_stream art_policy.
Definition create3 : artifact_op := OpCreate other_report whole_stream art_policy.
Definition read1 : artifact_op := OpRead art_owner (pub_id report).
Definition art_runs : art_state := art_after read1 (art_after create3 (art_after create2 (art_after create1 (∅, [], [])))).
Definition art_history (s : art_state) : list mem := let '(w, past, _) := s in w :: past.
Definition art_threads (s : art_state) : list art_thread := snd s.

Lemma art_runs_reached : artifacts_reachable no_float sample_storage ∅ (art_history art_runs, art_threads art_runs).
Proof.
  assert (H : art_reached art_runs).
  { unfold art_runs. do 4 apply art_after_reached. split; [done|constructor]. }
  unfold art_reached, art_history, art_threads in *. by destruct art_runs as [[w past] ts].
Qed.

Definition report_meta : ArtifactMetadata := metadata_of report (sha256_hex "data") 4 (7, Some (7 + day_us)).
Definition outcome (t : option art_thread) : option (artifact_op * result serr artifact_result) :=
  match t with Some (o, Done r) => Some (o, r) | _ => None end.
Lemma outcome_in l n o r : outcome (nth_error l n) = Some (o, r) -> In (o, Done r) l.
Proof.
  destruct (nth_error l n) as [[o' [r'|]]|] eqn:E; try done. intros [= <- <-]. by eapply nth_error_In.
Qed.

(** The retry, whose chunks are cut differently, got the receipt of the first publication; a
    publication under the same key with another name is a conflict. *)
Lemma created_first : In (create1, Done (Ok (ResPublished (_receipt report_meta)))) (art_threads art_runs).
Proof. apply (outcome_in _ 0). vm_compute. reflexivity. Qed.
Lemma created_again : In (create2, Done (Ok (ResPublished (_receipt report_meta)))) (art_threads art_runs).
Proof. apply (outcome_in _ 1). vm_compute. reflexivity. Qed.
Lemma created_other : In (create3, Done (Err (PyErr ArtifactConflict))) (art_threads art_runs).
Proof. apply (outcome_in _ 2). vm_compute. reflexivity. Qed.
Lemma read_back : In (read1, Done (Ok (ResContent report_meta "data"))) (art_threads art_runs).
Proof. apply (outcome_in _ 3). vm_compute. reflexivity. Qed.

Lemma artifact_published_once_witness : sha256_hex "data" = sha256_hex (stream_data sample_stream) /\ 4 = len (stream_data sample_stream).
Proof.
  destruct (artifact_published_once no_float sample_storage ∅ (art_history art_runs) (art_threads art_runs)
    report sample_stream art_policy (_receipt report_meta) report whole_stream art_policy (_receipt report_meta)
    art_runs_reached created_first created_again eq_refl eq_refl) as (_ & _ & _ & _ & Hread).
  exact (Hread report_meta "data" read_back).
Defined.
