(* ===== verification/Cache.v ===== *)
(** * storage/cache.py: the bounded read cache

    The cache directory is an association list of its files, in [iterdir] order.  Every method
    holds the instance's lock, so a call is one step; a file system error of [put] is the flag
    [write_fails]. *)

From S2P Require Import Prelude Sha256 PyJson Config.
From Stdlib Require Import Ascii.
Local Open Scope Z_scope.

Definition _TMP_INFIX : string := ".tmp-".
Record cache_file := { cf_data : string; cf_mtime : Z }.
Definition cache_dir := list (string * cache_file).
Definition size_of (f : cache_file) : Z := Z.of_nat (String.length (cf_data f)).

(** [_cache_key(registry_key, version)] *)
Definition _cache_key (registry_key : string) (version : Z) : string :=
  sha256_hex (registry_key +:+ "@v" +:+ str_of_int version).

(** [path.unlink(missing_ok=True)], [path.touch()], and the atomic [tmp.replace(path)]. *)
Definition unlink (name : string) (d : cache_dir) : cache_dir :=
  List.filter (fun e => negb (String.eqb (fst e) name)) d.
Fixpoint replace_file (name : string) (f : cache_file) (d : cache_dir) : cache_dir :=
  match d with
  | [] => [(name, f)]
  | (n, g) :: d => if String.eqb n name then (n, f) :: d else (n, g) :: replace_file name f d
  end.
Definition touch (name : string) (now : Z) (d : cache_dir) : cache_dir :=
  match assoc name d with
  | Some f => replace_file name {| cf_data := cf_data f; cf_mtime := now |} d
  | None => d
  end.

(** [sorted(entries, key=mtime)], a stable sort. *)
Fixpoint insert_by_mtime (e : string * cache_file) (l : cache_dir) : cache_dir :=
  match l with
  | [] => [e]
  | e' :: l => if cf_mtime (snd e) <? cf_mtime (snd e') then e :: e' :: l
               else e' :: insert_by_mtime e l
  end.
Definition sort_by_mtime (l : cache_dir) : cache_dir := foldl (fun acc e => insert_by_mtime e acc) [] l.

(** The files that take part in eviction: published ones. *)
Definition published (d : cache_dir) : cache_dir :=
  List.filter (fun e => negb (contains _TMP_INFIX (fst e))) d.
Definition total_size (d : cache_dir) : Z := foldr (fun e n => size_of (snd e) + n) 0 d.

Section cache.
Context (max_bytes : Z).

Definition get (registry_key : string) (version : Z) (expected_checksum : string) (now : Z)
    (d : cache_dir) : option string * cache_dir :=
  let path := _cache_key registry_key version in
  match assoc path d with
  | None => (None, d)
  | Some f =>
      if max_bytes <? size_of f then (None, unlink path d)
      else if negb (String.eqb (sha256_hex (cf_data f)) expected_checksum)
      then (None, unlink path d)
      else (Some (cf_data f), touch path now d)
  end.

Fixpoint evict_loop (keep : string) (total : Z) (oldest_first d : cache_dir) : cache_dir :=
  match oldest_first with
  | [] => d
  | (n, f) :: rest =>
      if total <=? max_bytes then d
      else if String.eqb n keep then evict_loop keep total rest d
      else evict_loop keep (total - size_of f) rest (unlink n d)
  end.
Definition _evict_over_budget (keep : string) (d : cache_dir) : cache_dir :=
  let entries := published d in
  evict_loop keep (total_size entries) (sort_by_mtime entries) d.

Definition put (registry_key : string) (version : Z) (data : string) (now : Z) (write_fails : bool)
    (d : cache_dir) : result exn cache_dir :=
  if max_bytes <? Z.of_nat (String.length data) then Ok d
  else
    let path := _cache_key registry_key version in
    if write_fails then Err OSError
    else Ok (_evict_over_budget path (replace_file path {| cf_data := data; cf_mtime := now |} d)).
End cache.

(** ** Facts *)

Lemma hex_not_tmp s : str_forallb is_hex s = true -> contains _TMP_INFIX s = false.
Proof.
  unfold contains. intros Hs. destruct (find_sub _TMP_INFIX s) as [[pre rest]|] eqn:E; [|done].
  apply find_sub_eq in E as ->. exfalso. induction pre as [|a pre IH].
  - discriminate Hs.
  - rewrite str_app_cons in Hs. simpl in Hs. apply andb_prop in Hs as [_ Hs]. auto.
Qed.

Lemma cache_key_published k v : contains _TMP_INFIX (_cache_key k v) = false.
Proof. apply hex_not_tmp, sha256_hex_is_hex. Qed.

Lemma assoc_replace name f d : assoc name (replace_file name f d) = Some f.
Proof.
  induction d as [|[n g] d IH]; simpl; [by rewrite String.eqb_refl|].
  destruct (String.eqb_spec n name) as [->|Hne]; simpl; [by rewrite String.eqb_refl|].
  by destruct (String.eqb_spec name n) as [->|].
Qed.

Lemma assoc_unlink_ne name name' d : name' <> name -> assoc name (unlink name' d) = assoc name d.
Proof.
  intros Hne. induction d as [|[n g] d IH]; simpl; [done|].
  destruct (String.eqb_spec n name') as [->|]; simpl.
  - destruct (String.eqb_spec name name') as [->|]; [done|]. exact IH.
  - by destruct (String.eqb_spec name n).
Qed.

Lemma evict_keeps max keep total l d : assoc keep (evict_loop max keep total l d) = assoc keep d.
Proof.
  revert total d; induction l as [|[n f] l IH]; intros total d; simpl; [done|].
  destruct (_ <=? _); [done|]. destruct (String.eqb_spec n keep) as [->|Hne]; [apply IH|].
  by rewrite IH, assoc_unlink_ne.
Qed.

Lemma size_nonneg f : 0 <= size_of f.
Proof. unfold size_of. lia. Qed.

Lemma total_app l1 l2 : total_size (l1 ++ l2) = total_size l1 + total_size l2.
Proof. induction l1 as [|e l1 IH]; simpl; [done|]. rewrite IH. lia. Qed.

Lemma total_perm l1 l2 : l1 ≡ₚ l2 -> total_size l1 = total_size l2.
Proof. induction 1; simpl; lia. Qed.

Lemma insert_perm e l : insert_by_mtime e l ≡ₚ e :: l.
Proof.
  induction l as [|e' l IH]; simpl; [done|]. destruct (_ <? _); [done|].
  rewrite IH. constructor.
Qed.

Lemma sort_perm_aux acc l : foldl (fun acc e => insert_by_mtime e acc) acc l ≡ₚ l ++ acc.
Proof.
  revert acc; induction l as [|e l IH]; intros acc; simpl; [done|].
  rewrite IH, insert_perm. by rewrite <- Permutation_middle.
Qed.
Lemma sort_perm l : sort_by_mtime l ≡ₚ l.
Proof. unfold sort_by_mtime. by rewrite sort_perm_aux, app_nil_r. Qed.

Definition names (d : cache_dir) : list string := map fst d.

Lemma published_unlink n d : published (unlink n d) = unlink n (published d).
Proof.
  unfold published, unlink. induction d as [|[m g] d IH]; simpl; [done|].
  destruct (String.eqb m n) eqn:E1, (contains _TMP_INFIX m) eqn:E2; simpl;
    rewrite ?E1, ?E2; simpl; rewrite ?IH; done.
Qed.

Lemma unlink_absent n d : ~ In n (names d) -> unlink n d = d.
Proof.
  induction d as [|[m g] d IH]; simpl; [done|]. intros Hn.
  destruct (String.eqb_spec m n) as [->|]; [by destruct Hn; left|]. simpl. rewrite IH; auto.
Qed.

(** Unlinking a listed file takes its size off the total. *)
Lemma total_unlink n f d :
  NoDup (names d) -> In (n, f) d -> total_size (unlink n d) = total_size d - size_of f.
Proof.
  induction d as [|[m g] d IH]; [done|]. cbn [names map fst]. intros Hnd Hin.
  apply NoDup_cons in Hnd as [Hm Hnd]. simpl. destruct Hin as [[= -> ->]|Hin].
  - rewrite String.eqb_refl. simpl. rewrite unlink_absent; [lia|].
    by rewrite <- list_elem_of_In.
  - destruct (String.eqb_spec m n) as [->|]; simpl.
    + exfalso. apply Hm. apply list_elem_of_In, in_map_iff. by exists (n, f).
    + rewrite IH by done. lia.
Qed.

Lemma NoDup_names_filter (p : string * cache_file -> bool) d :
  NoDup (names d) -> NoDup (names (List.filter p d)).
Proof.
  induction d as [|[m g] d IH]; simpl; [done|]. intros [Hm Hnd]%NoDup_cons.
  destruct (p (m, g)); simpl; [|auto]. apply NoDup_cons. split; [|auto].
  intros Hin. apply Hm. apply list_elem_of_In in Hin. apply list_elem_of_In.
  apply in_map_iff in Hin as ([m' g'] & <- & Hin). apply filter_In in Hin as [Hin _].
  apply in_map_iff. by exists (m', g').
Qed.

Lemma unlink_perm n d d' : d ≡ₚ d' -> unlink n d ≡ₚ unlink n d'.
Proof.
  unfold unlink. induction 1 as [|e d d' _ IH|e e' d|d1 d2 d3 _ IH1 _ IH2]; simpl; [done| | |].
  - destruct (negb _); by rewrite IH.
  - do 2 destruct (negb _); try done. constructor.
  - by rewrite IH1.
Qed.

Lemma names_perm d d' : d ≡ₚ d' -> NoDup (names d) -> NoDup (names d').
Proof. intros Hp. unfold names. by rewrite (Permutation_map fst Hp). Qed.

Lemma all_keep_total max keep d :
  NoDup (names d) -> Forall (fun e => fst e = keep) d ->
  (forall f, In (keep, f) d -> size_of f <= max) -> 0 <= max -> total_size d <= max.
Proof.
  intros Hnd Hk Hs Hm. destruct d as [|[n f] [|[n' f'] d]]; simpl; [done| |].
  - inversion Hk as [|? ? En _]; simpl in En; subst. specialize (Hs f (or_introl eq_refl)). lia.
  - exfalso. inversion Hk as [|? ? E1 Hk']; inversion Hk' as [|? ? E2 _]; simpl in *; subst.
    apply NoDup_cons in Hnd as [Hn _]. apply Hn. by left.
Qed.

Lemma evict_bound max keep l K d :
  0 <= max -> NoDup (names (published d)) -> published d ≡ₚ l ++ K ->
  Forall (fun e => fst e = keep) K ->
  (forall f, In (keep, f) (published d) -> size_of f <= max) ->
  total_size (published (evict_loop max keep (total_size (published d)) l d)) <= max.
Proof.
  intros Hm. revert K d; induction l as [|[n f] l IH]; intros K d Hnd Hp HK Hs; cbn [evict_loop].
  - eapply all_keep_total; try done. simpl in Hp. by rewrite Hp.
  - destruct (Z.leb_spec (total_size (published d)) max) as [|_]; [done|].
    destruct (String.eqb_spec n keep) as [->|Hne].
    + apply (IH ((keep, f) :: K)); [done| |by constructor|done].
      rewrite Hp. simpl. by rewrite Permutation_middle.
    + assert (Hin : In (n, f) (published d)).
      { apply list_elem_of_In. rewrite Hp. apply list_elem_of_here. }
      assert (Hu : published (unlink n d) ≡ₚ l ++ K).
      { rewrite published_unlink. rewrite (unlink_perm n _ _ Hp). simpl.
        rewrite String.eqb_refl. simpl. rewrite unlink_absent; [done|].
        pose proof (names_perm _ _ Hp Hnd) as Hnd'. simpl in Hnd'.
        apply NoDup_cons in Hnd' as [Hn _]. by rewrite <- list_elem_of_In. }
      rewrite <- (total_unlink n f (published d)) by done. rewrite <- published_unlink.
      apply (IH K); [|done|done|].
      * rewrite published_unlink. by apply NoDup_names_filter.
      * intros g Hg. apply Hs. rewrite published_unlink in Hg. by apply filter_In in Hg as [? _].
Qed.

Lemma in_replace n f d g : In (n, g) (replace_file n f d) -> NoDup (names d) -> g = f.
Proof.
  induction d as [|[m h] d IH]; simpl; [by intros [[= ->]|[]]|].
  intros Hin [Hm Hnd]%NoDup_cons. destruct (String.eqb_spec m n) as [->|Hne]; simpl in Hin.
  - destruct Hin as [[= ->]|Hin]; [done|]. exfalso. apply Hm. apply list_elem_of_In, in_map_iff.
    by exists (n, g).
  - destruct Hin as [[= -> _]|Hin]; [done|]. by apply IH.
Qed.

Lemma names_replace n f d : names (replace_file n f d) = names d \/ names (replace_file n f d) = names d ++ [n].
Proof.
  induction d as [|[m h] d IH]; simpl; [by right|]. destruct (String.eqb m n); simpl; [by left|].
  destruct IH as [->| ->]; auto.
Qed.

Lemma replace_keeps_nodup n f d : NoDup (names d) -> NoDup (names (replace_file n f d)).
Proof.
  induction d as [|[m h] d IH]; simpl; [intros _; apply NoDup_singleton|].
  intros [Hm Hnd]%NoDup_cons. destruct (String.eqb_spec m n) as [->|Hne]; simpl.
  - by apply NoDup_cons.
  - apply NoDup_cons. split; [|by apply IH]. intros Hin.
    destruct (names_replace n f d) as [E|E]; rewrite E in Hin; [done|].
    apply elem_of_app in Hin as [Hin|Hin]; [done|]. apply list_elem_of_singleton in Hin. congruence.
Qed.

(** The cache stays within its budget and serves only verified bytes.  After a [put] that
    stored anything, the published files total at most [max_bytes] and the new entry is among
    them: [get] with the digest of its bytes returns it.  Whatever is in the directory, [get]
    only ever returns bytes of the digest it was asked for. *)
Theorem cache_bounded_and_verified max k v data now now' d d' :
  0 <= max -> NoDup (names d) -> Z.of_nat (String.length data) <= max ->
  put max k v data now false d = Ok d' ->
  total_size (published d') <= max
  /\ fst (get max k v (sha256_hex data) now' d') = Some data
  /\ (forall k' v' sum b, fst (get max k' v' sum now' d') = Some b -> sha256_hex b = sum).
Proof.
  intros Hm Hnd Hlen Hput. unfold put in Hput. rewrite (proj2 (Z.ltb_ge _ _)) in Hput by done.
  injection Hput as <-. set (path := _cache_key k v). set (f := {| cf_data := data; cf_mtime := now |}).
  set (d1 := replace_file path f d). assert (Hnd1 : NoDup (names d1)) by (by apply replace_keeps_nodup).
  split_and!.
  - unfold _evict_over_budget. eapply (evict_bound max path _ []); [done| | |done|].
    + by apply NoDup_names_filter.
    + by rewrite app_nil_r, sort_perm.
    + intros g Hg. apply filter_In in Hg as [Hg _]. apply in_replace in Hg as ->; [|done].
      unfold size_of; simpl. done.
  - unfold get. fold path. unfold _evict_over_budget. rewrite evict_keeps. unfold d1.
    rewrite assoc_replace. unfold size_of. cbn [cf_data f].
    rewrite (proj2 (Z.ltb_ge _ _)) by done. by rewrite String.eqb_refl.
  - intros k' v' sum b Hg. unfold get in Hg. destruct (assoc _ _) as [g|]; [|done].
    destruct (_ <? _); [done|]. destruct (String.eqb_spec (sha256_hex (cf_data g)) sum) as [<-|]; [|done].
    simpl in Hg. by injection Hg as <-.
Qed.

Lemma cache_bounded_and_verified_witness :
  let d := [("old", {| cf_data := "xxxxxx"; cf_mtime := 1 |})] in
  let d' := [(_cache_key "k" 2, {| cf_data := "data"; cf_mtime := 5 |})] in
  total_size (published d') <= 8
  /\ fst (get 8 "k" 2 (sha256_hex "data") 9 d') = Some "data"
  /\ (forall k' v' sum b, fst (get 8 k' v' sum 9 d') = Some b -> sha256_hex b = sum).
Proof.
  intros d d'.
  refine (cache_bounded_and_verified 8 "k" 2 "data" 5 9 d d' _ _ _ _).
  - lia.
  - apply NoDup_singleton.
  - simpl. lia.
  - vm_compute. reflexivity.
Defined.
