(* ===== verification/Archive.v ===== *)
(** * storage/archive.py: the member check of archives and the capped writer

    [_MemberCheck] runs over the members of an archive in order, while packing and while
    extracting.  [tarfile] itself, its [data] filter and the file system are not modelled. *)

From S2P Require Import Prelude Sha256 PyJson.
From Stdlib Require Import Ascii.

Local Open Scope string_scope.
Local Open Scope list_scope.
Local Open Scope Z_scope.

Definition _MAX_MEMBER_NAME_LEN : nat := 4096.

(** The type byte of a tar header, and the constants of [tarfile]. *)
Definition REGTYPE : ascii := "0".
Definition AREGTYPE : ascii := ascii_of_N 0.
Definition LNKTYPE : ascii := "1".
Definition SYMTYPE : ascii := "2".
Definition DIRTYPE : ascii := "5".
Definition _ALLOWED_TYPES : list ascii := [REGTYPE; AREGTYPE; DIRTYPE; SYMTYPE; LNKTYPE].

Record TarInfo :=
  { ti_name : string; ti_type : ascii; ti_linkname : string; ti_size : Z }.
Definition issym (m : TarInfo) : bool := Ascii.eqb (ti_type m) SYMTYPE.
Definition islnk (m : TarInfo) : bool := Ascii.eqb (ti_type m) LNKTYPE.

Definition slash : ascii := "/".
Definition backslash : ascii := ascii_of_N 92.

(** [path_name.replace("\\", "/").split("/")] *)
Definition _split (path_name : string) : list string :=
  split_on slash (str_map (fun a => if Ascii.eqb a backslash then slash else a) path_name).

(** [stack] is kept with its last component first. *)
Fixpoint resolve_parts (stack : list string) (parts : list string) : option (list string) :=
  match parts with
  | [] => Some (reverse stack)
  | part :: parts =>
      if String.eqb part "" || String.eqb part "." then resolve_parts stack parts
      else if String.eqb part ".." then
        match stack with
        | [] => None
        | _ :: stack => resolve_parts stack parts
        end
      else resolve_parts (part :: stack) parts
  end.
Definition _resolve_link_target (base : list string) (link : string) : option (list string) :=
  resolve_parts (reverse base) (_split link).

Definition no_op (part : string) : bool := String.eqb part "" || String.eqb part ".".
Definition _normalize_parent (parts : list string) : list string :=
  filter (fun part => negb (no_op part)) parts.

(** [name.startswith("/") or name.startswith("\\")] *)
Definition is_absolute (name : string) : bool :=
  match name with
  | String a _ => Ascii.eqb a slash || Ascii.eqb a backslash
  | EmptyString => false
  end.

Record _MemberCheck :=
  { mc_max_expanded_bytes : Z; mc_max_members : Z; mc_count : Z; mc_total_size : Z }.
Definition new_check (max_expanded_bytes max_members : Z) : _MemberCheck :=
  {| mc_max_expanded_bytes := max_expanded_bytes; mc_max_members := max_members;
     mc_count := 0; mc_total_size := 0 |}.

(** The directory a link of the member resolves against: the archive root for a hard link, the
    member's own directory for a symbolic link. *)
Definition link_base (m : TarInfo) : list string :=
  if islnk m then [] else _normalize_parent (removelast (_split (ti_name m))).

Definition check_name (name : string) : result exn unit :=
  if (_MAX_MEMBER_NAME_LEN <? str_len name)%nat then Err TarError
  else if is_absolute name then Err TarError
  else if bool_decide (".." ∈ _split name) then Err TarError
  else Ok tt.
Definition check_link (m : TarInfo) : result exn unit :=
  if negb (issym m || islnk m) then Ok tt
  else if (_MAX_MEMBER_NAME_LEN <? str_len (ti_linkname m))%nat then Err TarError
  else if is_absolute (ti_linkname m) then Err TarError
  else match _resolve_link_target (link_base m) (ti_linkname m) with
       | None => Err TarError
       | Some _ => Ok tt
       end.

(** [__call__]: the check's next state and the outcome; a raise keeps what was counted. *)
Definition check_member (c : _MemberCheck) (m : TarInfo) : _MemberCheck * result exn TarInfo :=
  let c := {| mc_max_expanded_bytes := mc_max_expanded_bytes c; mc_max_members := mc_max_members c;
              mc_count := mc_count c + 1; mc_total_size := mc_total_size c |} in
  if mc_max_members c <? mc_count c then (c, Err ArchiveTooLarge)
  else match check_name (ti_name m) ≫= fun _ =>
             require (bool_decide (ti_type m ∈ _ALLOWED_TYPES)) TarError ≫= fun _ =>
             check_link m with
  | Err e => (c, Err e)
  | Ok _ =>
      let c := {| mc_max_expanded_bytes := mc_max_expanded_bytes c;
                  mc_max_members := mc_max_members c; mc_count := mc_count c;
                  mc_total_size := mc_total_size c + ti_size m |} in
      if mc_max_expanded_bytes c <? mc_total_size c then (c, Err ArchiveTooLarge) else (c, Ok m)
  end.

(** The members of one archive, checked in order; the first refusal ends the pass. *)
Fixpoint check_members (c : _MemberCheck) (ms : list TarInfo) : result exn (list TarInfo) :=
  match ms with
  | [] => Ok []
  | m :: ms =>
      match check_member c m with
      | (c, Ok m) => cons m <$> check_members c ms
      | (_, Err e) => Err e
      end
  end.

(** [_CappedWriter]: what was written and the budget.  [cw_written] counts a refused chunk. *)
Record _CappedWriter := { cw_file : string; cw_max_bytes : Z; cw_written : Z }.
Definition new_writer (max_bytes : Z) : _CappedWriter :=
  {| cw_file := ""; cw_max_bytes := max_bytes; cw_written := 0 |}.
Definition cw_write (w : _CappedWriter) (data : string) : _CappedWriter * result exn Z :=
  let written := cw_written w + Z.of_nat (String.length data) in
  if cw_max_bytes w <? written
  then ({| cw_file := cw_file w; cw_max_bytes := cw_max_bytes w; cw_written := written |},
        Err ArchiveTooLarge)
  else ({| cw_file := cw_file w +:+ data; cw_max_bytes := cw_max_bytes w; cw_written := written |},
        Ok (Z.of_nat (String.length data))).

(** ** A walk that never leaves the root

    Reference definition: counting, over every prefix of the components, the steps down and
    the steps up. *)

Definition is_up (part : string) : bool := String.eqb part "..".
Definition is_down (part : string) : bool := negb (no_op part) && negb (is_up part).
Definition count (f : string -> bool) (l : list string) : nat := length (filter f l).

Definition stays_inside (depth : nat) (parts : list string) : Prop :=
  forall seen rest, parts = seen ++ rest ->
    (count is_up seen <= depth + count is_down seen)%nat.

Lemma no_op_not_up part : no_op part = true -> is_up part = false /\ is_down part = false.
Proof.
  unfold is_down, is_up, no_op. intros H. rewrite H. split; [|done].
  destruct (String.eqb_spec part ".."); [subst; done|done].
Qed.

Lemma count_cons f part l :
  count f (part :: l) = ((if f part then 1 else 0) + count f l)%nat.
Proof.
  unfold count. rewrite filter_cons. destruct (f part); by destruct (decide _).
Qed.

Lemma stays_inside_cons depth part parts d' :
  (depth + (if is_down part then 1 else 0))%nat = (d' + (if is_up part then 1 else 0))%nat ->
  stays_inside depth (part :: parts) <-> stays_inside d' parts.
Proof.
  intros Hd. unfold stays_inside. split.
  - intros H seen rest ->. specialize (H (part :: seen) rest eq_refl).
    rewrite !count_cons in H. lia.
  - intros H seen rest Heq. destruct seen as [|p seen]; [unfold count; simpl; lia|].
    injection Heq as <- ->. specialize (H seen rest eq_refl). rewrite !count_cons. lia.
Qed.

Lemma resolve_parts_spec stack parts :
  is_Some (resolve_parts stack parts) <-> stays_inside (length stack) parts.
Proof.
  revert stack; induction parts as [|part parts IH]; intros stack; simpl.
  - split; [|by eexists]. intros _ seen rest H. symmetry in H. apply app_nil in H as [-> ->]. unfold count; simpl; lia.
  - destruct (String.eqb part "" || String.eqb part ".") eqn:En.
    + destruct (no_op_not_up _ En) as [Hu Hw].
      rewrite IH. symmetry. apply stays_inside_cons. by rewrite Hu, Hw.
    + destruct (String.eqb part "..") eqn:Eu.
      * assert (is_down part = false) as Hw by (unfold is_down, is_up; by rewrite Eu, andb_false_r).
        destruct stack as [|s stack].
        -- split; [intros [? ?]; done|]. intros H. specialize (H [part] parts eq_refl).
           rewrite !count_cons in H. unfold is_up in H. rewrite Eu, Hw in H.
           unfold count in H. simpl in H. lia.
        -- rewrite IH. symmetry. apply stays_inside_cons. unfold is_up. rewrite Hw, Eu. simpl. lia.
      * assert (is_down part = true) as Hw by (unfold is_down, is_up, no_op; by rewrite En, Eu).
        rewrite IH. symmetry. apply stays_inside_cons. unfold is_up. rewrite Hw, Eu. simpl. lia.
Qed.

Lemma _resolve_link_target_spec base link :
  is_Some (_resolve_link_target base link) <-> stays_inside (length base) (_split link).
Proof. unfold _resolve_link_target. rewrite resolve_parts_spec, length_reverse. done. Qed.

(** What the resolution gives is the normal form of the walk: no component of it is empty, a
    dot or a double dot, when none of the base is. *)
Definition plain_parts (l : list string) : Prop := Forall (fun p => is_down p = true) l.

Lemma resolve_parts_plain stack parts out :
  plain_parts stack -> resolve_parts stack parts = Some out -> plain_parts out.
Proof.
  revert stack; induction parts as [|part parts IH]; intros stack Hs H; simpl in H.
  - injection H as <-. by apply Forall_reverse.
  - destruct (String.eqb part "" || String.eqb part ".") eqn:En; [eauto|].
    destruct (String.eqb part "..") eqn:Eu.
    + destruct stack as [|s stack]; [done|]. inversion Hs. eauto.
    + apply IH in H; [done|]. constructor; [|done]. unfold is_down, is_up, no_op. by rewrite En, Eu.
Qed.

(** ** The accepted archives *)

(** A member's own name: relative, short enough, with no double dot. *)
Definition name_ok (name : string) : Prop :=
  (str_len name <= _MAX_MEMBER_NAME_LEN)%nat /\ is_absolute name = false /\ ".." ∉ _split name.
(** A link's target never walks out of the archive root, from the directory it is read in. *)
Definition link_ok (m : TarInfo) : Prop :=
  issym m || islnk m = true ->
  (str_len (ti_linkname m) <= _MAX_MEMBER_NAME_LEN)%nat /\ is_absolute (ti_linkname m) = false
  /\ stays_inside (length (link_base m)) (_split (ti_linkname m)).
Definition member_ok (m : TarInfo) : Prop :=
  name_ok (ti_name m) /\ ti_type m ∈ _ALLOWED_TYPES /\ link_ok m.

Definition total_size (ms : list TarInfo) : Z := foldr (fun m t => ti_size m + t) 0 ms.

Lemma check_name_ok name u : check_name name = Ok u <-> name_ok name.
Proof.
  unfold check_name, name_ok. destruct u.
  destruct (Nat.ltb_spec _MAX_MEMBER_NAME_LEN (str_len name)); [split; [done|lia]|].
  destruct (is_absolute name); [naive_solver|].
  case_bool_decide; naive_solver.
Qed.

Lemma check_link_ok m u : check_link m = Ok u <-> link_ok m.
Proof.
  unfold check_link, link_ok. destruct u.
  destruct (issym m || islnk m); simpl; [|naive_solver].
  destruct (Nat.ltb_spec _MAX_MEMBER_NAME_LEN (str_len (ti_linkname m))).
  { split; [done|]. intros H'. destruct (H' eq_refl). lia. }
  destruct (is_absolute (ti_linkname m)); [naive_solver|].
  pose proof (_resolve_link_target_spec (link_base m) (ti_linkname m)) as Hs.
  destruct (_resolve_link_target _ _) as [out|]; split; try done.
  - intros _ _. split_and!; [done..|]. apply Hs. by eexists.
  - intros H'. destruct (H' eq_refl) as (_ & _ & Hi). apply Hs in Hi as [? ?]. done.
Qed.

Lemma check_member_ok c m :
  snd (check_member c m) = Ok m <->
  mc_count c + 1 <= mc_max_members c /\ member_ok m
  /\ mc_total_size c + ti_size m <= mc_max_expanded_bytes c.
Proof.
  unfold check_member, member_ok. simpl.
  destruct (Z.ltb_spec (mc_max_members c) (mc_count c + 1)); simpl; [split; [done|lia]|].
  pose proof (check_name_ok (ti_name m) tt) as Hn. pose proof (check_link_ok m tt) as Hl.
  destruct (check_name (ti_name m)) as [[]|e]; simpl.
  - destruct (bool_decide (ti_type m ∈ _ALLOWED_TYPES)) eqn:Et; simpl.
    + apply bool_decide_eq_true in Et. destruct (check_link m) as [[]|e].
      * destruct (Z.ltb_spec (mc_max_expanded_bytes c) (mc_total_size c + ti_size m)); simpl.
        -- split; [done|]. intros (_ & _ & ?). lia.
        -- split; [intros _|done]. naive_solver.
      * simpl. split; [done|]. intros (_ & (_ & _ & Hk) & _). by apply Hl in Hk.
    + apply bool_decide_eq_false in Et. naive_solver.
  - split; [done|]. intros (_ & (Hk & _) & _). by apply Hn in Hk.
Qed.

Lemma check_member_next c m :
  snd (check_member c m) = Ok m ->
  fst (check_member c m) =
    {| mc_max_expanded_bytes := mc_max_expanded_bytes c; mc_max_members := mc_max_members c;
       mc_count := mc_count c + 1; mc_total_size := mc_total_size c + ti_size m |}.
Proof.
  unfold check_member. simpl. destruct (mc_max_members c <? _); [done|].
  destruct (check_name _ ≫= _) as [[]|]; [|done]. by destruct (_ <? _).
Qed.

Lemma check_member_same c m m' : snd (check_member c m) = Ok m' -> m' = m.
Proof.
  unfold check_member. simpl. destruct (mc_max_members c <? _); [done|].
  destruct (check_name _ ≫= _) as [[]|]; [|done]. destruct (_ <? _); by intros [=].
Qed.

Lemma check_members_cons c m ms out :
  check_members c (m :: ms) = Ok out <->
  snd (check_member c m) = Ok m /\ exists out', out = m :: out' /\
    check_members (fst (check_member c m)) ms = Ok out'.
Proof.
  simpl. destruct (check_member c m) as [c' [m'|e]] eqn:E; simpl; [|naive_solver].
  assert (m' = m) as -> by (apply (check_member_same c); by rewrite E).
  rewrite fmap_ok. naive_solver.
Qed.

(** C18. An archive passes the member check exactly when it has at most [max_members] members,
    each of them relative, without [..], of an allowed type and, for a link, with a target
    whose walk from the directory it is read in never leaves the archive root, and no prefix of
    it expands past [max_expanded_bytes]; the members come out unchanged. *)
Theorem member_check_exact max_bytes max_members ms out :
  check_members (new_check max_bytes max_members) ms = Ok out <->
  out = ms /\ Forall member_ok ms
  /\ forall seen rest, ms = seen ++ rest -> seen <> [] ->
       Z.of_nat (length seen) <= max_members /\ total_size seen <= max_bytes.
Proof.
  enough (forall c ms out, check_members c ms = Ok out <->
    out = ms /\ Forall member_ok ms
    /\ forall seen rest, ms = seen ++ rest -> seen <> [] ->
         mc_count c + Z.of_nat (length seen) <= mc_max_members c
         /\ mc_total_size c + total_size seen <= mc_max_expanded_bytes c) as H by apply H.
  clear. intros c ms; revert c; induction ms as [|m ms IH]; intros c out.
  - simpl. split.
    + intros [= <-]. split_and!; [done|constructor|]. intros [|x seen] rest H Hne; [by destruct Hne|done].
    + by intros (-> & _).
  - rewrite check_members_cons, check_member_ok. split.
    + intros ((Hc & Hm & Ht) & out' & -> & H). rewrite check_member_next in H by by apply check_member_ok.
      apply IH in H as (-> & Hf & Hp). simpl in Hp. split_and!; [done|by constructor|].
      intros [|m' seen] rest Heq Hne; [by destruct Hne|]. injection Heq as <- ->. cbn [length total_size foldr].
      destruct seen as [|m' seen]; [simpl; lia|].
      specialize (Hp (m' :: seen) rest eq_refl ltac:(done)). unfold total_size in *. lia.
    + intros (-> & Hf & Hp). inversion Hf as [|? ? Hm Hf']; subst.
      pose proof (Hp [m] ms eq_refl ltac:(done)) as [Hc Ht]. simpl in Hc, Ht.
      assert (mc_count c + 1 <= mc_max_members c /\ member_ok m
              /\ mc_total_size c + ti_size m <= mc_max_expanded_bytes c) as Hok by (split_and!; [lia|done|lia]).
      split; [done|]. exists ms. split; [done|]. rewrite check_member_next by by apply check_member_ok.
      apply IH. split_and!; [done..|]. simpl. intros seen rest -> Hne.
      pose proof (Hp (m :: seen) rest eq_refl ltac:(done)) as [Hc' Ht'].
      cbn [length total_size foldr] in Hc', Ht'. unfold total_size. lia.
Qed.

(** The capped writer's file never holds more than the budget, whatever is written to it. *)
Definition writer_inv (w : _CappedWriter) : Prop :=
  Z.of_nat (String.length (cw_file w)) <= cw_written w
  /\ Z.of_nat (String.length (cw_file w)) <= Z.max 0 (cw_max_bytes w).

Lemma cw_write_inv w data :
  writer_inv w -> writer_inv (fst (cw_write w data))
  /\ cw_max_bytes (fst (cw_write w data)) = cw_max_bytes w.
Proof.
  unfold writer_inv, cw_write. intros [H1 H2].
  destruct (Z.ltb_spec (cw_max_bytes w) (cw_written w + Z.of_nat (String.length data))); simpl;
    rewrite ?str_app_length; split; [lia|done|lia|done].
Qed.
