(* ===== verification/Public.v ===== *)
(** * config/public.py: the projection of the configuration the execution pod receives

    [public_config] builds the projection field by field; no field of it can hold a channel,
    a handoff secret, a memory credential or the capability server's key. *)

From S2P Require Import Prelude Sha256 PyJson Config ConfigFacts.
From Stdlib Require Import Ascii.
Local Open Scope Z_scope.

Record PublicEngineBlock :=
  { pe_env : list (string * string); pe_startup_timeout_seconds : Z;
    pe_compaction : CompactionBlock; pe_deny_tools : list string }.
Definition PublicEngineBlock_check (b : PublicEngineBlock) : result exn unit :=
  require (0 <? pe_startup_timeout_seconds b) ValueError.

Record PublicConfig :=
  { pc_agent : AgentIdentity; pc_config_version : string; pc_model : ModelBlock;
    pc_exclude : AchCapabilityFilterExclude; pc_prompt : option SystemPrompt;
    pc_limits : LimitsBlock; pc_engine : PublicEngineBlock; pc_hooks : HooksBlock;
    pc_facade_endpoint : string }.

(** The checks of the projection as a document of its own, every block validated. *)
Definition PublicConfig_check (p : PublicConfig) : result exn unit :=
  AgentIdentity_check (pc_agent p) ≫= fun _ =>
  require (hex64 (pc_config_version p)) ValueError ≫= fun _ =>
  ThinkingBlock_check (m_thinking (pc_model p)) ≫= fun _ =>
  opt_check SystemPrompt_check (pc_prompt p) ≫= fun _ =>
  LimitsBlock_check (pc_limits p) ≫= fun _ =>
  PublicEngineBlock_check (pc_engine p) ≫= fun _ =>
  CompactionBlock_check (pe_compaction (pc_engine p)) ≫= fun _ =>
  HooksBlock_check (pc_hooks p) ≫= fun _ =>
  _require_endpoint (pc_facade_endpoint p).

(** [for name, value in engine_env.items()]: only approved names with their approved value. *)
Definition check_approved (approved : list (string * string)) (nv : string * string) : result exn unit :=
  v ← opt_or ValueError (assoc (fst nv) approved);
  require (String.eqb v (snd nv)) ValueError.

(** Blocks that are already validated objects are not validated again. *)
Definition public_config (c : RuntimeConfig) (engine_env : list (string * string)) :
    result exn PublicConfig :=
  _ ← mapM_res (check_approved (eng_env (rc_engine c))) engine_env;
  facade ← opt_or ValueError (rc_facade_endpoint c);
  model ← opt_or AttributeError (rc_model c);
  _ ← ThinkingBlock_check (m_thinking model);
  let engine :=
    {| pe_env := engine_env;
       pe_startup_timeout_seconds := eng_startup_timeout_seconds (rc_engine c);
       pe_compaction := eng_compaction (rc_engine c);
       pe_deny_tools := eng_deny_tools (rc_engine c) |} in
  _ ← PublicEngineBlock_check engine;
  _ ← _require_endpoint facade;
  _ ← require (hex64 (rc_config_version c)) ValueError;
  Ok {| pc_agent := rc_agent c; pc_config_version := rc_config_version c; pc_model := model;
        pc_exclude := cap_exclude (rc_capability c); pc_prompt := rc_prompt c;
        pc_limits := rc_limits c; pc_engine := engine; pc_hooks := rc_hooks c;
        pc_facade_endpoint := facade |}.

(** [bootstrap.json]. *)
Record ExecutionBootstrap :=
  { bs_agent : AgentIdentity; bs_facade_endpoint : string; bs_engine : engine_type }.
Definition ExecutionBootstrap_check (b : ExecutionBootstrap) : result exn unit :=
  AgentIdentity_check (bs_agent b) ≫= fun _ => _require_endpoint (bs_facade_endpoint b).

(** ** The projection of an accepted configuration *)

Definition approved_env (c : RuntimeConfig) (env : list (string * string)) : Prop :=
  forall name value, In (name, value) env -> assoc name (eng_env (rc_engine c)) = Some value.

Lemma check_approved_ok approved nv u :
  check_approved approved nv = Ok u <-> assoc (fst nv) approved = Some (snd nv).
Proof.
  unfold check_approved. destruct u. rewrite bind_ok. setoid_rewrite opt_or_ok.
  setoid_rewrite require_ok. split.
  - intros (v & Ha & Hv). apply String.eqb_eq in Hv as <-. done.
  - intros H. exists (snd nv). by rewrite String.eqb_refl.
Qed.

Lemma mapM_unit_ok {A} (f : A -> result exn unit) (l : list A) :
  (exists us, mapM_res f l = Ok us) <-> forall x, In x l -> f x = Ok tt.
Proof.
  induction l as [|x l IH]; simpl; [split; [done|by eexists]|]. split.
  - intros (us & H). apply bind_ok in H as ([] & Hx & H). apply bind_ok in H as (vs & Hl & _).
    intros y [<-|Hy]; [done|]. apply IH; [by exists vs|done].
  - intros H. destruct (proj2 IH) as (vs & Hvs); [auto|].
    exists (tt :: vs). rewrite (H x) by auto. simpl. by rewrite Hvs.
Qed.

Lemma mapM_approved c env :
  (exists us, mapM_res (check_approved (eng_env (rc_engine c))) env = Ok us) <-> approved_env c env.
Proof.
  rewrite mapM_unit_ok. unfold approved_env. split.
  - intros H n v Hin. apply H in Hin. by apply check_approved_ok in Hin.
  - intros H [n v] Hin. apply check_approved_ok. auto.
Qed.

(** The model of a checked configuration exists and its thinking block is valid. *)
Lemma checked_model zk c :
  RuntimeConfig_check zk c = Ok tt ->
  exists m, rc_model c = Some m /\ ThinkingBlock_check (m_thinking m) = Ok tt.
Proof.
  intros H. unfold RuntimeConfig_check in H. apply bind_ok in H as (_ & _ & H).
  apply bind_ok in H as ([] & Hc & _). unfold CapabilityBlock_check in Hc. unfold rc_model.
  apply bind_ok in Hc as ([] & Hs & Hc). apply bind_ok in Hc as ([] & Ha & Hb).
  unfold _server_selects_its_block in Hb.
  destruct (cap_ach (rc_capability c)) as [a|].
  - exists (am_block (as_model a)). split; [done|]. unfold opt_check, AchServer_check in Ha.
    apply bind_ok in Ha as (_ & _ & Ha). apply bind_ok in Ha as ([] & Ha & _). done.
  - destruct (cap_standalone (rc_capability c)) as [s|]; [|by destruct (cap_server (rc_capability c))].
    exists (sm_block (ss_model s)). split; [done|].
    unfold opt_check, StandaloneServer_check, StandaloneModel_check in Hs.
    apply bind_ok in Hs as ([] & Hs & _). apply bind_ok in Hs as (_ & _ & Hs).
    apply bind_ok in Hs as ([] & Hs & _). done.
Qed.

(** The projection's fields, as the configuration, the approved environment and the facade
    endpoint determine them. *)
Definition projection (c : RuntimeConfig) (env : list (string * string)) (facade : string)
    (model : ModelBlock) : PublicConfig :=
  {| pc_agent := rc_agent c; pc_config_version := rc_config_version c; pc_model := model;
     pc_exclude := cap_exclude (rc_capability c); pc_prompt := rc_prompt c;
     pc_limits := rc_limits c;
     pc_engine := {| pe_env := env;
                     pe_startup_timeout_seconds := eng_startup_timeout_seconds (rc_engine c);
                     pe_compaction := eng_compaction (rc_engine c);
                     pe_deny_tools := eng_deny_tools (rc_engine c) |};
     pc_hooks := rc_hooks c; pc_facade_endpoint := facade |}.

Section accepted.
Context (zk : string -> bool) (c : RuntimeConfig).
Hypothesis accepted : RuntimeConfig_check zk c = Ok tt.
Hypothesis versioned : hex64 (rc_config_version c) = true.

Lemma accepted_blocks :
  AgentIdentity_check (rc_agent c) = Ok tt /\ (0 <? eng_startup_timeout_seconds (rc_engine c)) = true
  /\ CompactionBlock_check (eng_compaction (rc_engine c)) = Ok tt
  /\ LimitsBlock_check (rc_limits c) = Ok tt /\ opt_check SystemPrompt_check (rc_prompt c) = Ok tt
  /\ HooksBlock_check (rc_hooks c) = Ok tt
  /\ opt_check _require_endpoint (rc_facade_endpoint c) = Ok tt.
Proof.
  pose proof accepted as H. unfold RuntimeConfig_check in H.
  apply bind_ok in H as ([] & Hi & H). apply bind_ok in H as ([] & _ & H).
  apply bind_ok in H as ([] & He & H). apply bind_ok in H as ([] & Hl & H).
  apply bind_ok in H as ([] & _ & H). apply bind_ok in H as ([] & _ & H).
  apply bind_ok in H as (_ & _ & H). apply bind_ok in H as ([] & Hp & H).
  apply bind_ok in H as ([] & Hh & H). apply bind_ok in H as ([] & _ & H).
  apply bind_ok in H as ([] & Hf & H). clear H. unfold EngineBlock_check in He.
  apply bind_ok in He as (_ & _ & He). apply bind_ok in He as ([] & Hs & He).
  apply bind_ok in He as ([] & Hc & _). apply require_ok in Hs. done.
Qed.

(** C19. For an accepted configuration the projection succeeds exactly when every given engine
    variable is an approved one with its approved value and the configuration has a facade
    endpoint; it is then the projection of those fields and no others.  Whatever it returns is
    itself a valid public document. *)
Theorem public_config_valid env p :
  (public_config c env = Ok p <->
   approved_env c env /\ exists facade model, rc_facade_endpoint c = Some facade
     /\ rc_model c = Some model /\ p = projection c env facade model)
  /\ (public_config c env = Ok p -> PublicConfig_check p = Ok tt).
Proof.
  destruct (checked_model zk c accepted) as (m & Hm & Ht).
  destruct accepted_blocks as (Hi & Hs & Hc & Hl & Hp & Hh & Hf).
  assert (Hiff : public_config c env = Ok p <-> approved_env c env /\ exists facade model,
            rc_facade_endpoint c = Some facade /\ rc_model c = Some model /\ p = projection c env facade model).
  { unfold public_config. rewrite Hm. split.
    - intros H. apply bind_ok in H as (us & Hus & H).
      assert (approved_env c env) as Ha by (apply mapM_approved; by exists us).
      destruct (rc_facade_endpoint c) as [f|] eqn:Ef; [|done]. simpl in H, Hf.
      rewrite Ht in H. simpl in H. unfold PublicEngineBlock_check in H. simpl in H.
      rewrite Hs in H. simpl in H. rewrite Hf in H. simpl in H. rewrite versioned in H. simpl in H.
      injection H as <-. split; [done|]. by exists f, m.
    - intros (Ha & f & m' & Ef & [= <-] & ->). apply mapM_approved in Ha as (us & ->).
      rewrite Ef in *. simpl in *. rewrite Ht. simpl. unfold PublicEngineBlock_check. simpl.
      rewrite Hs. simpl. rewrite Hf. simpl. by rewrite versioned. }
  split; [exact Hiff|]. intros (_ & f & m' & Ef & Em & ->)%Hiff. rewrite Ef in Hf. simpl in Hf.
  assert (m' = m) as -> by congruence. unfold PublicConfig_check, PublicEngineBlock_check. simpl.
  rewrite Hi. simpl. rewrite versioned. simpl. rewrite Ht. simpl. rewrite Hp. simpl.
  rewrite Hl. simpl. rewrite Hs. simpl. rewrite Hc. simpl. by rewrite Hh.
Qed.
End accepted.

(** ** An accepted configuration and its projection *)

Definition sample_version : string := sha256_hex "sample".
Definition versioned_config : RuntimeConfig :=
  let c := sample_config in
  {| rc_agent := rc_agent c; rc_config_version := sample_version; rc_capability := rc_capability c;
     rc_engine := rc_engine c; rc_limits := rc_limits c; rc_workspace := rc_workspace c;
     rc_artifacts := rc_artifacts c; rc_channels := rc_channels c; rc_prompt := rc_prompt c;
     rc_hooks := rc_hooks c; rc_memory := rc_memory c; rc_facade_endpoint := rc_facade_endpoint c |}.
Definition sample_public : PublicConfig :=
  projection versioned_config [("LANG", "C")] "http://agent.ach.svc:8081/facades" sample_model.

Lemma public_config_valid_witness :
  public_config versioned_config [("LANG", "C")] = Ok sample_public.
Proof.
  apply (proj2 (proj1 (public_config_valid (fun _ => true) versioned_config
    ltac:(vm_compute; reflexivity) ltac:(vm_compute; reflexivity) [("LANG", "C")] sample_public))).
  split; [intros n v [[= <- <-]|[]]; reflexivity|].
  exists "http://agent.ach.svc:8081/facades", sample_model.
  split; [reflexivity|]. split; reflexivity.
Defined.

Example unapproved_env_refused :
  public_config versioned_config [("PATH", "/tmp")] = Err ValueError.
Proof. vm_compute. reflexivity. Qed.
