(* ===== verification/Wire.v ===== *)
(** * execution/wire.py: the documents exchanged with the mini-harness

    Strict Pydantic models: aliases only, no extra member, no coercion.  A document is a JSON
    object; a datetime is read by [datetime.fromisoformat] and must be aware. *)

From S2P Require Import Prelude Sha256 PyJson Config StateRefs Effects Storage StorageDocs.
From Stdlib Require Import Ascii.
Local Open Scope Z_scope.

Inductive RunState :=
  | Queued | Preparing | Sending | Running | Completed | Failed | Cancelled | Skipped | Unknown.
#[export] Instance run_state_eq_dec : EqDecision RunState.
Proof. solve_decision. Defined.

Definition run_states : list (string * RunState) :=
  [("queued", Queued); ("preparing", Preparing); ("sending", Sending); ("running", Running);
   ("completed", Completed); ("failed", Failed); ("cancelled", Cancelled); ("skipped", Skipped);
   ("unknown", Unknown)].
Definition run_state_str (s : RunState) : string :=
  match s with
  | Queued => "queued" | Preparing => "preparing" | Sending => "sending" | Running => "running"
  | Completed => "completed" | Failed => "failed" | Cancelled => "cancelled"
  | Skipped => "skipped" | Unknown => "unknown"
  end.

Record StartRequest :=
  { sr_invocation_id : string; sr_channel : string; rq_workspace_ref : string;
    rq_session_ref : string; sr_workspace_key : string; sr_session_key : string;
    sr_config_version : string; sr_prompt : string; sr_deadline_at : Z;
    sr_memory_available : option bool; sr_inform_user : bool }.
#[export] Instance start_request_eq_dec : EqDecision StartRequest.
Proof. solve_decision. Defined.

Record Started :=
  { sd_invocation_id : string; sd_session_ref : string; sd_run_id : string; sd_config_version : string }.
#[export] Instance started_eq_dec : EqDecision Started.
Proof. solve_decision. Defined.

Record RunStatus :=
  { rs_invocation_id : string; rs_channel : string; rs_workspace_ref : string;
    rs_session_ref : string; rs_run_id : option string; rs_config_version : string;
    rs_deadline_at : Z; rs_state : RunState; rs_error : option string; rs_result : json }.

Record CancelRequest := { cq_invocation_id : string; cq_reason : string }.

(** ** Reading one member *)

Definition wire_dict (allowed : list string) (j : json) : result exn (list (string * json)) :=
  match j with
  | JObj d => if forallb (fun kv => in_strs (fst kv) allowed) d then Ok d else Err ValueError
  | _ => Err ValueError
  end.
Definition wire_get {A} (read : json -> result exn A) (k : string) (d : list (string * json)) : result exn A :=
  opt_or ValueError (assoc k d) ≫= read.
Definition wire_default {A} (read : json -> result exn A) (dflt : A) (k : string)
    (d : list (string * json)) : result exn A :=
  match assoc k d with Some j => read j | None => Ok dflt end.

Definition read_str (j : json) : result exn string :=
  match j with JStr s => Ok s | _ => Err ValueError end.
Definition read_str1 (j : json) : result exn string :=
  s ← read_str j; if truthy s then Ok s else Err ValueError.
Definition read_hex64 (j : json) : result exn string :=
  s ← read_str j; if Config.hex64 s then Ok s else Err ValueError.
Definition read_bool (j : json) : result exn bool :=
  match j with JBool b => Ok b | _ => Err ValueError end.
Definition read_opt {A} (read : json -> result exn A) (j : json) : result exn (option A) :=
  match j with JNull => Ok None | _ => Some <$> read j end.
Definition read_state (j : json) : result exn RunState :=
  s ← read_str j; opt_or ValueError (assoc s run_states).

(** [_finite_json]: every number of the document is finite. *)
Fixpoint _finite_json (value : json) : bool :=
  match value with
  | JFloat f => bool_decide (is_Some (f_int f))
  | JList l => forallb _finite_json l
  | JObj d => forallb (fun kv => _finite_json (snd kv)) d
  | _ => true
  end.

Section wire.
Context `{DT : PyDatetime}.
(** Pydantic's JSON form of an aware datetime. *)
Context (dump_datetime : Z -> string).

(** [_parse_iso_datetime] then [_tz_aware_utc]. *)
Definition read_deadline (j : json) : result exn Z :=
  match j with
  | JStr s =>
      match fromisoformat s with
      | Some (Some t) => Ok t
      | _ => Err ValueError
      end
  | _ => Err ValueError
  end.

Definition start_request_members : list string :=
  ["invocationId"; "channel"; "workspaceRef"; "sessionRef"; "workspaceKey"; "sessionKey";
   "configVersion"; "prompt"; "deadlineAt"; "memoryAvailable"; "informUser"].
Definition StartRequest_validate (j : json) : result exn StartRequest :=
  d ← wire_dict start_request_members j;
  invocation_id ← wire_get read_str1 "invocationId" d;
  channel ← wire_get read_str1 "channel" d;
  workspace_ref ← wire_get read_str1 "workspaceRef" d;
  session_ref ← wire_get read_str1 "sessionRef" d;
  workspace_key ← wire_get read_str1 "workspaceKey" d;
  session_key ← wire_get read_str1 "sessionKey" d;
  config_version ← wire_get read_hex64 "configVersion" d;
  prompt ← wire_get read_str "prompt" d;
  deadline_at ← wire_get read_deadline "deadlineAt" d;
  memory_available ← wire_default (read_opt read_bool) None "memoryAvailable" d;
  inform_user ← wire_default read_bool false "informUser" d;
  Ok {| sr_invocation_id := invocation_id; sr_channel := channel; rq_workspace_ref := workspace_ref;
        rq_session_ref := session_ref; sr_workspace_key := workspace_key;
        sr_session_key := session_key; sr_config_version := config_version; sr_prompt := prompt;
        sr_deadline_at := deadline_at; sr_memory_available := memory_available;
        sr_inform_user := inform_user |}.

Definition Started_validate (j : json) : result exn Started :=
  d ← wire_dict ["invocationId"; "sessionRef"; "runId"; "configVersion"] j;
  invocation_id ← wire_get read_str "invocationId" d;
  session_ref ← wire_get read_str "sessionRef" d;
  run_id ← wire_get read_str "runId" d;
  config_version ← wire_get read_str "configVersion" d;
  Ok {| sd_invocation_id := invocation_id; sd_session_ref := session_ref; sd_run_id := run_id;
        sd_config_version := config_version |}.

Definition run_status_members : list string :=
  ["invocationId"; "channel"; "workspaceRef"; "sessionRef"; "runId"; "configVersion";
   "deadlineAt"; "state"; "error"; "result"].
Definition RunStatus_validate (j : json) : result exn RunStatus :=
  d ← wire_dict run_status_members j;
  invocation_id ← wire_get read_str "invocationId" d;
  channel ← wire_get read_str "channel" d;
  workspace_ref ← wire_get read_str "workspaceRef" d;
  session_ref ← wire_get read_str "sessionRef" d;
  run_id ← wire_get (read_opt read_str) "runId" d;
  config_version ← wire_get read_str "configVersion" d;
  deadline_at ← wire_get read_deadline "deadlineAt" d;
  state ← wire_get read_state "state" d;
  error ← wire_default (read_opt read_str) None "error" d;
  result ← wire_default Ok JNull "result" d;
  Ok {| rs_invocation_id := invocation_id; rs_channel := channel; rs_workspace_ref := workspace_ref;
        rs_session_ref := session_ref; rs_run_id := run_id; rs_config_version := config_version;
        rs_deadline_at := deadline_at; rs_state := state; rs_error := error; rs_result := result |}.

Definition CancelRequest_validate (j : json) : result exn CancelRequest :=
  d ← wire_dict ["invocationId"; "reason"] j;
  invocation_id ← wire_get read_str1 "invocationId" d;
  reason ← wire_get read_str1 "reason" d;
  Ok {| cq_invocation_id := invocation_id; cq_reason := reason |}.

(** [model_dump(by_alias=True, mode="json")] *)
Definition opt_json {A} (f : A -> json) (o : option A) : json :=
  match o with Some a => f a | None => JNull end.
Definition StartRequest_dump (r : StartRequest) : json :=
  JObj [("invocationId", JStr (sr_invocation_id r)); ("channel", JStr (sr_channel r));
        ("workspaceRef", JStr (rq_workspace_ref r)); ("sessionRef", JStr (rq_session_ref r));
        ("workspaceKey", JStr (sr_workspace_key r)); ("sessionKey", JStr (sr_session_key r));
        ("configVersion", JStr (sr_config_version r)); ("prompt", JStr (sr_prompt r));
        ("deadlineAt", JStr (dump_datetime (sr_deadline_at r)));
        ("memoryAvailable", opt_json JBool (sr_memory_available r));
        ("informUser", JBool (sr_inform_user r))].
Definition Started_dump (r : Started) : json :=
  JObj [("invocationId", JStr (sd_invocation_id r)); ("sessionRef", JStr (sd_session_ref r));
        ("runId", JStr (sd_run_id r)); ("configVersion", JStr (sd_config_version r))].
Definition RunStatus_dump (r : RunStatus) : json :=
  JObj [("invocationId", JStr (rs_invocation_id r)); ("channel", JStr (rs_channel r));
        ("workspaceRef", JStr (rs_workspace_ref r)); ("sessionRef", JStr (rs_session_ref r));
        ("runId", opt_json JStr (rs_run_id r)); ("configVersion", JStr (rs_config_version r));
        ("deadlineAt", JStr (dump_datetime (rs_deadline_at r)));
        ("state", JStr (run_state_str (rs_state r))); ("error", opt_json JStr (rs_error r));
        ("result", rs_result r)].
Definition CancelRequest_dump (r : CancelRequest) : json :=
  JObj [("invocationId", JStr (cq_invocation_id r)); ("reason", JStr (cq_reason r))].

(** What the constructors accept: the constraints of the fields. *)
Definition StartRequest_ok (r : StartRequest) : bool :=
  truthy (sr_invocation_id r) && truthy (sr_channel r) && truthy (rq_workspace_ref r)
  && truthy (rq_session_ref r) && truthy (sr_workspace_key r) && truthy (sr_session_key r)
  && Config.hex64 (sr_config_version r).
Definition CancelRequest_ok (r : CancelRequest) : bool :=
  truthy (cq_invocation_id r) && truthy (cq_reason r).

Lemma read_str1_ok s : truthy s = true -> read_str1 (JStr s) = Ok s.
Proof. intros Hs. unfold read_str1. simpl. by rewrite Hs. Qed.
Lemma read_hex64_ok s : Config.hex64 s = true -> read_hex64 (JStr s) = Ok s.
Proof. intros Hs. unfold read_hex64. cbn [read_str mbind result_bind]. by rewrite Hs. Qed.
Lemma read_state_ok s : read_state (JStr (run_state_str s)) = Ok s.
Proof. by destruct s. Qed.

Lemma read_str1_inv j s : read_str1 j = Ok s -> truthy s = true.
Proof.
  unfold read_str1. rewrite bind_ok. intros (t & _ & H). by destruct (truthy t) eqn:E; simplify_eq.
Qed.
Lemma read_hex64_inv j s : read_hex64 j = Ok s -> Config.hex64 s = true.
Proof.
  unfold read_hex64. rewrite bind_ok. intros (t & _ & H).
  by destruct (Config.hex64 t) eqn:E; simplify_eq.
Qed.
Lemma wire_get_ok {A} (read : json -> result exn A) k d a :
  wire_get read k d = Ok a -> exists j, assoc k d = Some j /\ read j = Ok a.
Proof.
  unfold wire_get. rewrite bind_ok. intros (j & Hj & Hr). apply opt_or_ok in Hj. by exists j.
Qed.

(** The fields a validated document was read from satisfy their constraints. *)
Lemma StartRequest_validate_ok j r : StartRequest_validate j = Ok r -> StartRequest_ok r = true.
Proof.
  unfold StartRequest_validate. intros Hv.
  repeat match type of Hv with mbind _ _ = Ok _ => apply bind_ok in Hv as (? & ? & Hv) end.
  injection Hv as <-. unfold StartRequest_ok. simpl.
  repeat match goal with Hg : wire_get _ _ _ = Ok _ |- _ =>
    apply wire_get_ok in Hg as (? & _ & Hg) end.
  repeat match goal with
  | Hg : read_str1 _ = Ok ?s |- _ => apply read_str1_inv in Hg; rewrite Hg; clear Hg
  | Hg : read_hex64 _ = Ok _ |- _ => apply read_hex64_inv in Hg; rewrite Hg; clear Hg
  end. done.
Qed.

Lemma CancelRequest_validate_ok j r : CancelRequest_validate j = Ok r -> CancelRequest_ok r = true.
Proof.
  unfold CancelRequest_validate. intros Hv.
  repeat match type of Hv with mbind _ _ = Ok _ => apply bind_ok in Hv as (? & ? & Hv) end.
  injection Hv as <-. unfold CancelRequest_ok. simpl.
  repeat match goal with Hg : wire_get _ _ _ = Ok _ |- _ =>
    apply wire_get_ok in Hg as (? & _ & Hg) end.
  repeat match goal with
  | Hg : read_str1 _ = Ok ?s |- _ => apply read_str1_inv in Hg; rewrite Hg; clear Hg
  end. done.
Qed.

Section roundtrip.
(** [fromisoformat] reads back Pydantic's form of an aware datetime. *)
Hypothesis dump_parses : forall t, in_range t = true -> fromisoformat (dump_datetime t) = Some (Some t).

Lemma read_deadline_ok t : in_range t = true -> read_deadline (JStr (dump_datetime t)) = Ok t.
Proof. intros Ht. simpl. by rewrite dump_parses. Qed.

(** Every document the mini-harness and the Harness exchange survives the wire: the dump of
    a valid [StartRequest], [Started], [RunStatus] or [CancelRequest] validates back to the
    same value, and whatever validates as a request satisfies the field constraints. *)
Theorem wire_roundtrip (r : StartRequest) (s : Started) (st : RunStatus) (q : CancelRequest) j :
  (in_range (sr_deadline_at r) = true ->
   (StartRequest_ok r = true <-> StartRequest_validate (StartRequest_dump r) = Ok r))
  /\ Started_validate (Started_dump s) = Ok s
  /\ (in_range (rs_deadline_at st) = true -> RunStatus_validate (RunStatus_dump st) = Ok st)
  /\ (CancelRequest_ok q = true <-> CancelRequest_validate (CancelRequest_dump q) = Ok q)
  /\ (StartRequest_validate j = Ok r -> StartRequest_ok r = true).
Proof.
  split_and!.
  - intros Hd. split; [|apply StartRequest_validate_ok]. intros Hr.
    unfold StartRequest_ok in Hr. rewrite !andb_true_iff in Hr.
    destruct Hr as [[[[[[H1 H2] H3] H4] H5] H6] H7].
    destruct r as [i c w se wk sk v p dl m inf]; simpl in *.
    unfold StartRequest_validate, StartRequest_dump, wire_get, wire_default.
    cbn -[read_str1 read_hex64 read_deadline].
    rewrite !read_str1_ok by done. cbn -[read_hex64 read_deadline].
    rewrite read_hex64_ok by done. cbn -[read_deadline].
    rewrite read_deadline_ok by done. by destruct m.
  - by destruct s.
  - intros Hd. destruct st as [i c w se ri v dl sta er re]; simpl in *.
    unfold RunStatus_validate, RunStatus_dump, wire_get, wire_default.
    cbn -[read_deadline read_state].
    destruct ri; cbn -[read_deadline read_state]; rewrite read_deadline_ok by done;
      cbn -[read_state]; rewrite read_state_ok; by destruct er.
  - split; [|apply CancelRequest_validate_ok]. intros Hq.
    unfold CancelRequest_ok in Hq. apply andb_prop in Hq as [H1 H2].
    destruct q as [i re]; simpl in *. unfold CancelRequest_validate, CancelRequest_dump, wire_get.
    cbn -[read_str1]. by rewrite !read_str1_ok by done.
  - apply StartRequest_validate_ok.
Qed.
End roundtrip.
End wire.

(** ** A request on the wire *)

Definition sample_request : StartRequest :=
  {| sr_invocation_id := "inv-1"; sr_channel := "mr"; rq_workspace_ref := "w"; rq_session_ref := "s";
     sr_workspace_key := "wk"; sr_session_key := "sk"; sr_config_version := sha256_hex "cfg";
     sr_prompt := "review"; sr_deadline_at := 600; sr_memory_available := Some false;
     sr_inform_user := true |}.

Lemma wire_roundtrip_witness :
  StartRequest_validate (DT := plain_datetime)
    (StartRequest_dump (isoformat_utc (PyDatetime := plain_datetime)) sample_request)
  = Ok sample_request.
Proof.
  apply (proj1 (wire_roundtrip (DT := plain_datetime) (isoformat_utc (PyDatetime := plain_datetime))
    (fromisoformat_isoformat (PyDatetime := plain_datetime)) sample_request
    {| sd_invocation_id := ""; sd_session_ref := ""; sd_run_id := ""; sd_config_version := "" |}
    {| rs_invocation_id := ""; rs_channel := ""; rs_workspace_ref := ""; rs_session_ref := "";
       rs_run_id := None; rs_config_version := ""; rs_deadline_at := 0; rs_state := Queued;
       rs_error := None; rs_result := JNull |}
    {| cq_invocation_id := ""; cq_reason := "" |} JNull)).
  - reflexivity.
  - vm_compute. reflexivity.
Defined.
