(* ===== verification/Sessions.v ===== *)
(** * execution/sessions.py: the session registry, hook results, token redaction

    A session's HOME is observed through the presence of its started marker.  The processes of
    the hooks and the file system are not modelled. *)

From S2P Require Import Prelude Sha256 PyJson Config Tokens.
From Stdlib Require Import Ascii.

Local Open Scope string_scope.

(** ** Redaction of facade tokens *)

(** The characters of a claim ([\s] is ASCII white space, as everywhere). *)
Definition claim_char (a : ascii) : bool :=
  negb (is_space a || Ascii.eqb a (ascii_of_N 34) || Ascii.eqb a "'" || Ascii.eqb a "/" || Ascii.eqb a "=").
(** [\w]: an ASCII word character, or a byte of a non-ASCII one. *)
Definition word_char (a : ascii) : bool :=
  is_alnum a || Ascii.eqb a "_" || (128 <=? ascii_code a)%N.

(** [[0-9a-f]{n}\b]: the text after [n] hexadecimal digits and a word boundary. *)
Fixpoint hex_end (n : nat) (s : string) : option string :=
  match n with
  | O => match s with
         | String a _ => if word_char a then None else Some s
         | EmptyString => Some s
         end
  | S n => match s with
           | String a s => if is_hex a then hex_end n s else None
           | EmptyString => None
           end
  end.

(** The text after the longest match of [_FACADE_TOKEN] at the start of [s]; [some]: a claim
    character was already read. *)
Fixpoint token_end (some : bool) (s : string) : option string :=
  match s with
  | EmptyString => None
  | String a s =>
      if claim_char a then
        match token_end true s with
        | Some rest => Some rest
        | None => if some && Ascii.eqb a "." then hex_end 64 s else None
        end
      else None
  end.

Fixpoint redact_fuel (fuel : nat) (text : string) : string :=
  match fuel with
  | O => text
  | S fuel =>
      match text with
      | EmptyString => ""
      | String a s =>
          match token_end false text with
          | Some rest => "<redacted>" +:+ redact_fuel fuel rest
          | None => String a (redact_fuel fuel s)
          end
      end
  end.
Definition redact_facade_tokens (text : string) : string := redact_fuel (String.length text) text.

(** ** Sessions *)

Definition SESSION_STARTED_MARKER : string := ".ach-session-started".
Definition MAX_HOOK_OUTPUT_BYTES : Z := 64 * 1024.

Definition _safe_dir_name (session_ref : string) : string := sha256_hex session_ref.

Record SessionState :=
  { ss_native_session_id : option string; ss_started : bool;
    ss_suspend_hook_failed : option bool; ss_suspended : bool }.

(** [get_or_create]: [marker] tells whether the HOME of the session has the started marker. *)
Definition get_or_create (marker : bool) (session_ref : string) (m : gmap string SessionState) :
    gmap string SessionState :=
  match m !! session_ref with
  | Some _ => m
  | None => <[session_ref := {| ss_native_session_id := None; ss_started := marker;
                                ss_suspend_hook_failed := None; ss_suspended := false |}]> m
  end.

(** What [_run_supervised] observed of a hook: its exit and the bytes it wrote. *)
Record HookRun := { hk_returncode : Z; hk_stdout : string; hk_stderr : string }.
Record HookResult :=
  { hr_returncode : Z; hr_stdout : string; hr_stderr : string; hr_stdout_overflow : bool }.
Definition hook_result (r : HookRun) : HookResult :=
  let cap := Z.to_nat MAX_HOOK_OUTPUT_BYTES in
  {| hr_returncode := hk_returncode r;
     hr_stdout := fst (str_split_at cap (hk_stdout r));
     hr_stderr := fst (str_split_at cap (hk_stderr r));
     hr_stdout_overflow := (cap <? String.length (hk_stdout r))%nat |}.

(** [run_gate_hook] and [run_hook], once the process ended by itself. *)
Definition run_gate_hook (r : HookRun) : result exn HookResult :=
  let result := hook_result r in
  if hr_stdout_overflow result then Err SessionHookFailed else Ok result.
Definition run_hook (r : HookRun) : result exn unit :=
  if (hr_returncode (hook_result r) =? 0)%Z then Ok tt else Err SessionHookFailed.

(** ** A redacted text does not depend on the token it held *)

Lemma is_hex_claim a : is_hex a = true -> claim_char a = true.
Proof.
  unfold is_hex, claim_char, is_space. intros H.
  destruct (Ascii.eqb_spec a (ascii_of_N 34)) as [->|]; [done|].
  destruct (Ascii.eqb_spec a "'") as [->|]; [done|].
  destruct (Ascii.eqb_spec a "/") as [->|]; [done|].
  destruct (Ascii.eqb_spec a "=") as [->|]; [done|].
  rewrite !orb_false_r. apply negb_true_iff.
  change ascii_code with N_of_ascii in *.
  destruct (_ || _) eqn:E in H; [|done]. clear H.
  destruct (((9 <=? N_of_ascii a)%N && _) || _) eqn:E2; [|done]. exfalso.
  unfold is_digit, is_lower, ascii_code in E.
  repeat match goal with H : _ || _ = true |- _ => apply orb_prop in H as [H|H] end;
  repeat match goal with H : _ && _ = true |- _ => apply andb_prop in H as [? ?] end;
  rewrite ?N.leb_le in *; lia.
Qed.

Lemma hex_end_length n s r : hex_end n s = Some r -> (String.length r <= String.length s)%nat.
Proof.
  revert s; induction n as [|n IH]; intros s H; simpl in H.
  - destruct s as [|a s]; [by simplify_eq|]. by destruct (word_char a); simplify_eq.
  - destruct s as [|a s]; [done|]. destruct (is_hex a); [|done]. apply IH in H. simpl. lia.
Qed.

Lemma token_end_length b s r : token_end b s = Some r -> (String.length r < String.length s)%nat.
Proof.
  revert b r; induction s as [|a s IH]; intros b r H; cbn [token_end] in H; [done|].
  destruct (claim_char a); [|done]. destruct (token_end true s) as [rest|] eqn:E.
  - injection H as <-. apply IH in E. simpl. lia.
  - destruct (b && Ascii.eqb a "."); [|done]. apply hex_end_length in H. simpl. lia.
Qed.

Lemma redact_fuel_enough n m text :
  (String.length text <= n)%nat -> (String.length text <= m)%nat -> redact_fuel n text = redact_fuel m text.
Proof.
  revert m text; induction n as [|n IH]; intros [|m] [|a s] Hn Hm; simpl in Hn, Hm; try lia; [done..|].
  cbn [redact_fuel]. destruct (token_end false (String a s)) as [rest|] eqn:E.
  - apply token_end_length in E. simpl in E. f_equal. apply IH; lia.
  - f_equal. apply IH; lia.
Qed.

Lemma redact_eq a s :
  redact_facade_tokens (String a s) =
  match token_end false (String a s) with
  | Some rest => "<redacted>" +:+ redact_facade_tokens rest
  | None => String a (redact_facade_tokens s)
  end.
Proof.
  unfold redact_facade_tokens. cbn [String.length redact_fuel].
  destruct (token_end false (String a s)) as [rest|] eqn:E; [|done].
  apply token_end_length in E. simpl in E. f_equal. apply redact_fuel_enough; lia.
Qed.

(** A match that ends before a character no claim has does not see what follows. *)
Lemma hex_end_app n s t :
  str_forallb claim_char s = false -> hex_end n (s +:+ t) = (fun r => r +:+ t) <$> hex_end n s.
Proof.
  revert s; induction n as [|n IH]; intros [|a s] H; simpl in H; try done;
    rewrite str_app_cons; cbn [hex_end].
  - by destruct (word_char a).
  - destruct (is_hex a) eqn:E; [|done]. rewrite (is_hex_claim a E) in H. by apply IH.
Qed.

Lemma token_end_app b s t :
  str_forallb claim_char s = false -> token_end b (s +:+ t) = (fun r => r +:+ t) <$> token_end b s.
Proof.
  revert b; induction s as [|a s IH]; intros b H; simpl in H; [done|].
  rewrite str_app_cons. cbn [token_end]. destruct (claim_char a); [|done]. simpl in H.
  rewrite IH by done. destruct (token_end true s) as [r|]; [done|]. cbn [fmap option_fmap option_map].
  destruct (b && Ascii.eqb a "."); [|done]. by apply hex_end_app.
Qed.

(** What follows the token: the end of the text, or a quote, a slash, a blank, an equal sign. *)
Definition ends_token (post : string) : bool :=
  match post with
  | EmptyString => true
  | String a _ => negb (claim_char a) && negb (word_char a)
  end.

Lemma token_end_digits b h post :
  str_forallb is_hex h = true -> ends_token post = true -> token_end b (h +:+ post) = None.
Proof.
  intros Hh Hp. revert b; induction h as [|a h IH]; intros b.
  - rewrite str_app_nil_l. destruct post as [|a post]; [done|]. simpl in *.
    by destruct (claim_char a).
  - cbn [str_forallb] in Hh. apply andb_prop in Hh as [Ha Hh].
    rewrite str_app_cons. cbn [token_end]. rewrite (is_hex_claim a Ha), IH by done.
    destruct (Ascii.eqb_spec a "."); [by subst|]. by rewrite andb_false_r.
Qed.

Lemma hex_end_digits h post :
  str_forallb is_hex h = true -> ends_token post = true ->
  hex_end (String.length h) (h +:+ post) = Some post.
Proof.
  intros Hh Hp. induction h as [|a h IH]; cbn [str_forallb String.length] in *.
  - rewrite str_app_nil_l. destruct post as [|a post]; [done|]. simpl in *.
    destruct (word_char a); [|done]. by rewrite andb_false_r in Hp.
  - apply andb_prop in Hh as [Ha Hh]. rewrite str_app_cons. cbn [hex_end]. rewrite Ha. auto.
Qed.

Lemma token_end_token b u mac post :
  str_forallb claim_char u = true -> b = true \/ u <> "" ->
  String.length mac = 64%nat -> str_forallb is_hex mac = true -> ends_token post = true ->
  token_end b (u +:+ "." +:+ mac +:+ post) = Some post.
Proof.
  intros Hu Hb Hl Hm Hp. revert b Hb. induction u as [|a u IH]; intros b Hb.
  - destruct Hb as [->|[]]; [|done]. rewrite str_app_nil_l, str_app_cons, str_app_nil_l.
    cbn [token_end]. change (claim_char ".") with true. cbn iota.
    rewrite token_end_digits by done. change (true && ("." =? ".")%char) with true. cbn iota.
    rewrite <- Hl. by apply hex_end_digits.
  - cbn [str_forallb] in Hu. apply andb_prop in Hu as [Ha Hu].
    rewrite str_app_cons. cbn [token_end]. rewrite Ha, IH; auto.
Qed.

(** A claim that a facade token can be told apart by: not empty, with claim characters only. *)
Definition plain_claim (claim : string) : bool := truthy claim && str_forallb claim_char claim.

Lemma token_end_facade r key claim post :
  plain_claim claim = true -> str_forallb claim_char r = true -> ends_token post = true ->
  token_end false (r +:+ facade_token key claim +:+ post) = Some post.
Proof.
  intros [Ht Hc]%andb_prop Hr Hp. unfold facade_token.
  rewrite !str_app_assoc, <- (str_app_assoc r claim).
  apply token_end_token; [|right|apply hmac_length|apply hmac_is_hex|done].
  - clear -Hr Hc. induction r as [|a r IH]; [done|]. cbn [str_forallb] in Hr.
    apply andb_prop in Hr as [Ha Hr]. rewrite str_app_cons. cbn [str_forallb]. by rewrite Ha, IH.
  - apply truthy_true in Ht. by destruct r.
Qed.

(** Redaction hides facade tokens completely: wherever a token of a claim without blanks,
    quotes, slashes or equal signs stands in a hook's output, before the end of the text or
    such a character, the redacted output is the same for any other token in its place. *)
Theorem redaction_hides_tokens pre post key claim key' claim' :
  plain_claim claim = true -> plain_claim claim' = true -> ends_token post = true ->
  redact_facade_tokens (pre +:+ facade_token key claim +:+ post)
  = redact_facade_tokens (pre +:+ facade_token key' claim' +:+ post).
Proof.
  intros Hc Hc' Hp. remember (String.length pre) as n eqn:Hn. revert pre Hn.
  induction (lt_wf n) as [n _ IH]. intros pre ->.
  destruct (str_forallb claim_char pre) eqn:Hall.
  - assert (forall key claim, plain_claim claim = true ->
      redact_facade_tokens (pre +:+ facade_token key claim +:+ post)
      = "<redacted>" +:+ redact_facade_tokens post) as E; [|by rewrite !E].
    clear -Hall Hp. intros key claim Hc. pose proof (token_end_facade pre key claim post Hc Hall Hp) as E.
    destruct (pre +:+ facade_token key claim +:+ post) as [|a s]; [done|]. by rewrite redact_eq, E.
  - destruct pre as [|a pre]; [done|]. rewrite !str_app_cons, !redact_eq, <- !str_app_cons.
    rewrite !token_end_app by done.
    destruct (token_end false (String a pre)) as [rest|] eqn:E; simpl.
    + f_equal. apply token_end_length in E. by apply (IH (String.length rest)).
    + f_equal. apply (IH (String.length pre)); simpl; [lia|done].
Qed.

Lemma redaction_hides_tokens_witness :
  redact_facade_tokens ("bearer=" +:+ facade_token "k" "agent-w1" +:+ "' failed")
  = redact_facade_tokens ("bearer=" +:+ facade_token "other" "x" +:+ "' failed").
Proof. exact (redaction_hides_tokens "bearer=" "' failed" "k" "agent-w1" "other" "x" eq_refl eq_refl eq_refl). Defined.

Example redacted_text :
  redact_facade_tokens ("bearer=" +:+ facade_token "k" "agent-w1" +:+ "' failed")
  = "bearer=<redacted>' failed".
Proof. vm_compute. reflexivity. Qed.
