(* ===== verification/Execution.v ===== *)
(** * execution/service.py: the invocation registry of the mini-harness

    Every coroutine of [ExecutionService] is cut into the segments it runs between two awaits;
    [step] lets the segments of all invocations interleave in any order the event loop allows,
    with any answer of the engine, the hooks and the clock.  The engine is the environment: a
    segment that calls it records the call in the invocation's log, and the end of the call
    comes back as another step. *)

From stdpp Require Import fin_sets gmap.
From Stdlib Require Import Ascii.
From S2P Require Import Prelude Sha256 PyJson Config Public StateRefs Effects Storage Wire Tokens Sessions.
Local Open Scope Z_scope.

Definition MAX_RETAINED_RUNS : nat := Z.to_nat 1024.
Definition SKIP_EXIT_CODE : Z := 78.
Definition _HOOK_ERROR_TAIL : nat := 500.
Definition seconds (n : Z) : Z := 1000000 * n.
(** engine/base.py *)
Definition CANCEL_KILL_BOUND_SECONDS : Z := 10.

(** An exception with its message: the registry keeps [str(exc)]. *)
Record pyexc := { x_class : exn; x_msg : string }.
Definition exc (c : exn) (msg : string) : pyexc := {| x_class := c; x_msg := msg |}.
(** [getattr(exc, "ambiguous", False)] *)
Definition ambiguous (x : pyexc) : bool :=
  match x_class x with NativeLaunchFailed a => a | _ => false end.
Definition is_timeout (x : pyexc) : bool := bool_decide (x_class x = TimeoutError).
Definition is_cancelled (x : pyexc) : bool := bool_decide (x_class x = CancelledError).

(** engine/base.py: [EngineOutcome], [EngineReceipt], [_HaltBudget]. *)
Inductive EngineOutcome := EoRunning | EoCompleted | EoFailed | EoCancelled | EoUnknown.
Definition outcome_state (o : EngineOutcome) : RunState :=
  match o with
  | EoRunning => Running | EoCompleted => Completed | EoFailed => Failed
  | EoCancelled => Cancelled | EoUnknown => Unknown
  end.
Record EngineReceipt := { er_native_session_id : option string; er_input_id : string }.
Record HaltBudget := { cleanup_started_at : Z; force_deadline : Z; confirmation_deadline : option Z }.
Definition mark_forced (at_ : Z) (b : HaltBudget) : HaltBudget :=
  match confirmation_deadline b with
  | Some _ => b
  | None => {| cleanup_started_at := cleanup_started_at b; force_deadline := force_deadline b;
               confirmation_deadline := Some (at_ + seconds 5) |}
  end.

(** [asyncio.Future[Started]] *)
Inductive future := FutPending | FutResult (s : Started) | FutExc (x : pyexc) | FutCancelled.
Definition fut_done (f : future) : bool := match f with FutPending => false | _ => true end.
(** [if not f.done(): f.set_...] *)
Definition fut_settle (g : future) (f : future) : future := if fut_done f then f else g.

(** Where each task of an invocation is suspended. *)
Inductive owner_pc :=
  | OwNone                                  (* a restored run has no owner *)
  | OwNew                                   (* created, not yet run *)
  | OwAcquire                               (* [session_lock.acquire()] under the deadline *)
  | OwHook                                  (* [run_gate_hook] *)
  | OwProbe (prompt : string)               (* [_require_mcp_tools] *)
  | OwSend                                  (* [self._engine.start] under [wait_for] *)
  | OwDone
  | OwCancelled
  | OwRaised (x : pyexc).
Definition owner_done (p : owner_pc) : bool :=
  match p with OwDone | OwCancelled | OwRaised _ => true | _ => false end.
Inductive watch_pc :=
  | WNone | WNew
  | WSleep (end_ : Z)                       (* [asyncio.sleep] in the loop *)
  | WJoin                                   (* awaits the cleanup it claimed *)
  | WDone.
Inductive settle_pc := SeNone | SeWait | SeJoin | SeDone.
Inductive cleanup_pc :=
  | ClNone
  | ClNew (reason : string) (terminal_state : RunState)
  | ClSpawned (reason : string) (terminal_state : RunState)    (* both tasks created *)
  | ClWait (reason : string) (terminal_state : RunState)       (* until [force_deadline] *)
  | ClWaitForced (reason : string) (terminal_state : RunState) (* until [confirmation_deadline] *)
  | ClDone
  | ClCancelled.
(** [None]: the task returned. *)
Inductive engine_task := EcNone | EcRun | EcEnded (x : option pyexc).
Inductive stop_pc :=
  | StNone | StNew | StWait | StWaitForced | StEnded (x : option pyexc).

(** What the engine was asked for an invocation, and how each call ended. *)
Inductive engine_obs :=
  | EStart (prompt : string) (catalog : option (list (string * json)))
  | EAccepted | ERejected (x : pyexc)
  | ESettled (o : EngineOutcome) | ECancel | EHalted.

(** ** The invocation record *)

Record Invocation := mkInv {
  iv_request : StartRequest;                        (* request *)
  iv_public : PublicConfig;                         (* public, captured at admission *)
  iv_catalog : option (list (string * json));       (* catalog *)
  iv_run_id : string;                               (* run_id *)
  iv_started : future;                              (* started *)
  iv_received_at : Z;                               (* received_at *)
  iv_terminal : bool;                               (* terminal *)
  iv_state : RunState;                              (* state *)
  iv_error : option string;                         (* error *)
  iv_result : json;                                 (* result *)
  iv_terminal_at : option Z;                        (* terminal_at *)
  iv_owner : owner_pc;                              (* owner_task *)
  iv_owner_cancel : bool;                           (* owner_task.cancel() was called *)
  iv_watch : watch_pc;                              (* deadline_task *)
  iv_settle : settle_pc;                            (* settle_task *)
  iv_cleanup : cleanup_pc;                          (* cancel_task *)
  iv_reservation : option string;                   (* reservation: the session whose lock is held *)
  iv_receipt : option EngineReceipt;                (* receipt *)
  iv_possible_send : bool;                          (* possible_send *)
  iv_budget : option HaltBudget;                    (* cleanup_budget *)
  iv_engine_cancel : engine_task;                   (* engine_cancel_task *)
  iv_owner_stop : stop_pc;                          (* owner_stop_task *)
  iv_log : list engine_obs                         (* calls to the engine for it and their ends, newest first *)
}.

Definition set_iv_request (v : StartRequest) (i : Invocation) : Invocation :=
  mkInv v (iv_public i) (iv_catalog i) (iv_run_id i) (iv_started i) (iv_received_at i) (iv_terminal i) (iv_state i) (iv_error i) (iv_result i) (iv_terminal_at i) (iv_owner i) (iv_owner_cancel i) (iv_watch i) (iv_settle i) (iv_cleanup i) (iv_reservation i) (iv_receipt i) (iv_possible_send i) (iv_budget i) (iv_engine_cancel i) (iv_owner_stop i) (iv_log i).
Definition set_iv_public (v : PublicConfig) (i : Invocation) : Invocation :=
  mkInv (iv_request i) v (iv_catalog i) (iv_run_id i) (iv_started i) (iv_received_at i) (iv_terminal i) (iv_state i) (iv_error i) (iv_result i) (iv_terminal_at i) (iv_owner i) (iv_owner_cancel i) (iv_watch i) (iv_settle i) (iv_cleanup i) (iv_reservation i) (iv_receipt i) (iv_possible_send i) (iv_budget i) (iv_engine_cancel i) (iv_owner_stop i) (iv_log i).
Definition set_iv_catalog (v : option (list (string * json))) (i : Invocation) : Invocation :=
  mkInv (iv_request i) (iv_public i) v (iv_run_id i) (iv_started i) (iv_received_at i) (iv_terminal i) (iv_state i) (iv_error i) (iv_result i) (iv_terminal_at i) (iv_owner i) (iv_owner_cancel i) (iv_watch i) (iv_settle i) (iv_cleanup i) (iv_reservation i) (iv_receipt i) (iv_possible_send i) (iv_budget i) (iv_engine_cancel i) (iv_owner_stop i) (iv_log i).
Definition set_iv_run_id (v : string) (i : Invocation) : Invocation :=
  mkInv (iv_request i) (iv_public i) (iv_catalog i) v (iv_started i) (iv_received_at i) (iv_terminal i) (iv_state i) (iv_error i) (iv_result i) (iv_terminal_at i) (iv_owner i) (iv_owner_cancel i) (iv_watch i) (iv_settle i) (iv_cleanup i) (iv_reservation i) (iv_receipt i) (iv_possible_send i) (iv_budget i) (iv_engine_cancel i) (iv_owner_stop i) (iv_log i).
Definition set_iv_started (v : future) (i : Invocation) : Invocation :=
  mkInv (iv_request i) (iv_public i) (iv_catalog i) (iv_run_id i) v (iv_received_at i) (iv_terminal i) (iv_state i) (iv_error i) (iv_result i) (iv_terminal_at i) (iv_owner i) (iv_owner_cancel i) (iv_watch i) (iv_settle i) (iv_cleanup i) (iv_reservation i) (iv_receipt i) (iv_possible_send i) (iv_budget i) (iv_engine_cancel i) (iv_owner_stop i) (iv_log i).
Definition set_iv_received_at (v : Z) (i : Invocation) : Invocation :=
  mkInv (iv_request i) (iv_public i) (iv_catalog i) (iv_run_id i) (iv_started i) v (iv_terminal i) (iv_state i) (iv_error i) (iv_result i) (iv_terminal_at i) (iv_owner i) (iv_owner_cancel i) (iv_watch i) (iv_settle i) (iv_cleanup i) (iv_reservation i) (iv_receipt i) (iv_possible_send i) (iv_budget i) (iv_engine_cancel i) (iv_owner_stop i) (iv_log i).
Definition set_iv_terminal (v : bool) (i : Invocation) : Invocation :=
  mkInv (iv_request i) (iv_public i) (iv_catalog i) (iv_run_id i) (iv_started i) (iv_received_at i) v (iv_state i) (iv_error i) (iv_result i) (iv_terminal_at i) (iv_owner i) (iv_owner_cancel i) (iv_watch i) (iv_settle i) (iv_cleanup i) (iv_reservation i) (iv_receipt i) (iv_possible_send i) (iv_budget i) (iv_engine_cancel i) (iv_owner_stop i) (iv_log i).
Definition set_iv_state (v : RunState) (i : Invocation) : Invocation :=
  mkInv (iv_request i) (iv_public i) (iv_catalog i) (iv_run_id i) (iv_started i) (iv_received_at i) (iv_terminal i) v (iv_error i) (iv_result i) (iv_terminal_at i) (iv_owner i) (iv_owner_cancel i) (iv_watch i) (iv_settle i) (iv_cleanup i) (iv_reservation i) (iv_receipt i) (iv_possible_send i) (iv_budget i) (iv_engine_cancel i) (iv_owner_stop i) (iv_log i).
Definition set_iv_error (v : option string) (i : Invocation) : Invocation :=
  mkInv (iv_request i) (iv_public i) (iv_catalog i) (iv_run_id i) (iv_started i) (iv_received_at i) (iv_terminal i) (iv_state i) v (iv_result i) (iv_terminal_at i) (iv_owner i) (iv_owner_cancel i) (iv_watch i) (iv_settle i) (iv_cleanup i) (iv_reservation i) (iv_receipt i) (iv_possible_send i) (iv_budget i) (iv_engine_cancel i) (iv_owner_stop i) (iv_log i).
Definition set_iv_result (v : json) (i : Invocation) : Invocation :=
  mkInv (iv_request i) (iv_public i) (iv_catalog i) (iv_run_id i) (iv_started i) (iv_received_at i) (iv_terminal i) (iv_state i) (iv_error i) v (iv_terminal_at i) (iv_owner i) (iv_owner_cancel i) (iv_watch i) (iv_settle i) (iv_cleanup i) (iv_reservation i) (iv_receipt i) (iv_possible_send i) (iv_budget i) (iv_engine_cancel i) (iv_owner_stop i) (iv_log i).
Definition set_iv_terminal_at (v : option Z) (i : Invocation) : Invocation :=
  mkInv (iv_request i) (iv_public i) (iv_catalog i) (iv_run_id i) (iv_started i) (iv_received_at i) (iv_terminal i) (iv_state i) (iv_error i) (iv_result i) v (iv_owner i) (iv_owner_cancel i) (iv_watch i) (iv_settle i) (iv_cleanup i) (iv_reservation i) (iv_receipt i) (iv_possible_send i) (iv_budget i) (iv_engine_cancel i) (iv_owner_stop i) (iv_log i).
Definition set_iv_owner (v : owner_pc) (i : Invocation) : Invocation :=
  mkInv (iv_request i) (iv_public i) (iv_catalog i) (iv_run_id i) (iv_started i) (iv_received_at i) (iv_terminal i) (iv_state i) (iv_error i) (iv_result i) (iv_terminal_at i) v (iv_owner_cancel i) (iv_watch i) (iv_settle i) (iv_cleanup i) (iv_reservation i) (iv_receipt i) (iv_possible_send i) (iv_budget i) (iv_engine_cancel i) (iv_owner_stop i) (iv_log i).
Definition set_iv_owner_cancel (v : bool) (i : Invocation) : Invocation :=
  mkInv (iv_request i) (iv_public i) (iv_catalog i) (iv_run_id i) (iv_started i) (iv_received_at i) (iv_terminal i) (iv_state i) (iv_error i) (iv_result i) (iv_terminal_at i) (iv_owner i) v (iv_watch i) (iv_settle i) (iv_cleanup i) (iv_reservation i) (iv_receipt i) (iv_possible_send i) (iv_budget i) (iv_engine_cancel i) (iv_owner_stop i) (iv_log i).
Definition set_iv_watch (v : watch_pc) (i : Invocation) : Invocation :=
  mkInv (iv_request i) (iv_public i) (iv_catalog i) (iv_run_id i) (iv_started i) (iv_received_at i) (iv_terminal i) (iv_state i) (iv_error i) (iv_result i) (iv_terminal_at i) (iv_owner i) (iv_owner_cancel i) v (iv_settle i) (iv_cleanup i) (iv_reservation i) (iv_receipt i) (iv_possible_send i) (iv_budget i) (iv_engine_cancel i) (iv_owner_stop i) (iv_log i).
Definition set_iv_settle (v : settle_pc) (i : Invocation) : Invocation :=
  mkInv (iv_request i) (iv_public i) (iv_catalog i) (iv_run_id i) (iv_started i) (iv_received_at i) (iv_terminal i) (iv_state i) (iv_error i) (iv_result i) (iv_terminal_at i) (iv_owner i) (iv_owner_cancel i) (iv_watch i) v (iv_cleanup i) (iv_reservation i) (iv_receipt i) (iv_possible_send i) (iv_budget i) (iv_engine_cancel i) (iv_owner_stop i) (iv_log i).
Definition set_iv_cleanup (v : cleanup_pc) (i : Invocation) : Invocation :=
  mkInv (iv_request i) (iv_public i) (iv_catalog i) (iv_run_id i) (iv_started i) (iv_received_at i) (iv_terminal i) (iv_state i) (iv_error i) (iv_result i) (iv_terminal_at i) (iv_owner i) (iv_owner_cancel i) (iv_watch i) (iv_settle i) v (iv_reservation i) (iv_receipt i) (iv_possible_send i) (iv_budget i) (iv_engine_cancel i) (iv_owner_stop i) (iv_log i).
Definition set_iv_reservation (v : option string) (i : Invocation) : Invocation :=
  mkInv (iv_request i) (iv_public i) (iv_catalog i) (iv_run_id i) (iv_started i) (iv_received_at i) (iv_terminal i) (iv_state i) (iv_error i) (iv_result i) (iv_terminal_at i) (iv_owner i) (iv_owner_cancel i) (iv_watch i) (iv_settle i) (iv_cleanup i) v (iv_receipt i) (iv_possible_send i) (iv_budget i) (iv_engine_cancel i) (iv_owner_stop i) (iv_log i).
Definition set_iv_receipt (v : option EngineReceipt) (i : Invocation) : Invocation :=
  mkInv (iv_request i) (iv_public i) (iv_catalog i) (iv_run_id i) (iv_started i) (iv_received_at i) (iv_terminal i) (iv_state i) (iv_error i) (iv_result i) (iv_terminal_at i) (iv_owner i) (iv_owner_cancel i) (iv_watch i) (iv_settle i) (iv_cleanup i) (iv_reservation i) v (iv_possible_send i) (iv_budget i) (iv_engine_cancel i) (iv_owner_stop i) (iv_log i).
Definition set_iv_possible_send (v : bool) (i : Invocation) : Invocation :=
  mkInv (iv_request i) (iv_public i) (iv_catalog i) (iv_run_id i) (iv_started i) (iv_received_at i) (iv_terminal i) (iv_state i) (iv_error i) (iv_result i) (iv_terminal_at i) (iv_owner i) (iv_owner_cancel i) (iv_watch i) (iv_settle i) (iv_cleanup i) (iv_reservation i) (iv_receipt i) v (iv_budget i) (iv_engine_cancel i) (iv_owner_stop i) (iv_log i).
Definition set_iv_budget (v : option HaltBudget) (i : Invocation) : Invocation :=
  mkInv (iv_request i) (iv_public i) (iv_catalog i) (iv_run_id i) (iv_started i) (iv_received_at i) (iv_terminal i) (iv_state i) (iv_error i) (iv_result i) (iv_terminal_at i) (iv_owner i) (iv_owner_cancel i) (iv_watch i) (iv_settle i) (iv_cleanup i) (iv_reservation i) (iv_receipt i) (iv_possible_send i) v (iv_engine_cancel i) (iv_owner_stop i) (iv_log i).
Definition set_iv_engine_cancel (v : engine_task) (i : Invocation) : Invocation :=
  mkInv (iv_request i) (iv_public i) (iv_catalog i) (iv_run_id i) (iv_started i) (iv_received_at i) (iv_terminal i) (iv_state i) (iv_error i) (iv_result i) (iv_terminal_at i) (iv_owner i) (iv_owner_cancel i) (iv_watch i) (iv_settle i) (iv_cleanup i) (iv_reservation i) (iv_receipt i) (iv_possible_send i) (iv_budget i) v (iv_owner_stop i) (iv_log i).
Definition set_iv_owner_stop (v : stop_pc) (i : Invocation) : Invocation :=
  mkInv (iv_request i) (iv_public i) (iv_catalog i) (iv_run_id i) (iv_started i) (iv_received_at i) (iv_terminal i) (iv_state i) (iv_error i) (iv_result i) (iv_terminal_at i) (iv_owner i) (iv_owner_cancel i) (iv_watch i) (iv_settle i) (iv_cleanup i) (iv_reservation i) (iv_receipt i) (iv_possible_send i) (iv_budget i) (iv_engine_cancel i) v (iv_log i).
Definition set_iv_log (v : list engine_obs) (i : Invocation) : Invocation :=
  mkInv (iv_request i) (iv_public i) (iv_catalog i) (iv_run_id i) (iv_started i) (iv_received_at i) (iv_terminal i) (iv_state i) (iv_error i) (iv_result i) (iv_terminal_at i) (iv_owner i) (iv_owner_cancel i) (iv_watch i) (iv_settle i) (iv_cleanup i) (iv_reservation i) (iv_receipt i) (iv_possible_send i) (iv_budget i) (iv_engine_cancel i) (iv_owner_stop i) v.

(** ** The state of the service *)

Record Service := mkSvc {
  objs : gmap nat Invocation;                       (* every invocation object *)
  next_id : nat;                                    (* identity of the next object *)
  invocations : list (string * nat);                (* _invocations, in insertion order *)
  public : option PublicConfig;                     (* _public *)
  catalog : option (list (string * json));          (* _catalog *)
  closed : bool;                                    (* _closed *)
  frozen : bool;                                    (* _workspace_frozen *)
  sessions : gmap string SessionState;              (* _sessions._sessions *)
  markers : gset string;                            (* sessions whose HOME has the started marker *)
  locked : gset string;                             (* sessions whose lock is locked *)
  archiving : gset string;                          (* sessions locked by an archive, restore or retire operation *)
  timeouts : list nat;                              (* tasks running _timeout_cancel for a cancel() call *)
  mono : Z;                                         (* time.monotonic(), in microseconds *)
  utc : Z                                          (* datetime.now(timezone.utc), in microseconds *)
}.

Definition put_objs (v : gmap nat Invocation) (s : Service) : Service :=
  mkSvc v (next_id s) (invocations s) (public s) (catalog s) (closed s) (frozen s) (sessions s) (markers s) (locked s) (archiving s) (timeouts s) (mono s) (utc s).
Definition put_next_id (v : nat) (s : Service) : Service :=
  mkSvc (objs s) v (invocations s) (public s) (catalog s) (closed s) (frozen s) (sessions s) (markers s) (locked s) (archiving s) (timeouts s) (mono s) (utc s).
Definition put_invocations (v : list (string * nat)) (s : Service) : Service :=
  mkSvc (objs s) (next_id s) v (public s) (catalog s) (closed s) (frozen s) (sessions s) (markers s) (locked s) (archiving s) (timeouts s) (mono s) (utc s).
Definition put_public (v : option PublicConfig) (s : Service) : Service :=
  mkSvc (objs s) (next_id s) (invocations s) v (catalog s) (closed s) (frozen s) (sessions s) (markers s) (locked s) (archiving s) (timeouts s) (mono s) (utc s).
Definition put_catalog (v : option (list (string * json))) (s : Service) : Service :=
  mkSvc (objs s) (next_id s) (invocations s) (public s) v (closed s) (frozen s) (sessions s) (markers s) (locked s) (archiving s) (timeouts s) (mono s) (utc s).
Definition put_closed (v : bool) (s : Service) : Service :=
  mkSvc (objs s) (next_id s) (invocations s) (public s) (catalog s) v (frozen s) (sessions s) (markers s) (locked s) (archiving s) (timeouts s) (mono s) (utc s).
Definition put_frozen (v : bool) (s : Service) : Service :=
  mkSvc (objs s) (next_id s) (invocations s) (public s) (catalog s) (closed s) v (sessions s) (markers s) (locked s) (archiving s) (timeouts s) (mono s) (utc s).
Definition put_sessions (v : gmap string SessionState) (s : Service) : Service :=
  mkSvc (objs s) (next_id s) (invocations s) (public s) (catalog s) (closed s) (frozen s) v (markers s) (locked s) (archiving s) (timeouts s) (mono s) (utc s).
Definition put_markers (v : gset string) (s : Service) : Service :=
  mkSvc (objs s) (next_id s) (invocations s) (public s) (catalog s) (closed s) (frozen s) (sessions s) v (locked s) (archiving s) (timeouts s) (mono s) (utc s).
Definition put_locked (v : gset string) (s : Service) : Service :=
  mkSvc (objs s) (next_id s) (invocations s) (public s) (catalog s) (closed s) (frozen s) (sessions s) (markers s) v (archiving s) (timeouts s) (mono s) (utc s).
Definition put_archiving (v : gset string) (s : Service) : Service :=
  mkSvc (objs s) (next_id s) (invocations s) (public s) (catalog s) (closed s) (frozen s) (sessions s) (markers s) (locked s) v (timeouts s) (mono s) (utc s).
Definition put_timeouts (v : list nat) (s : Service) : Service :=
  mkSvc (objs s) (next_id s) (invocations s) (public s) (catalog s) (closed s) (frozen s) (sessions s) (markers s) (locked s) (archiving s) v (mono s) (utc s).
Definition put_mono (v : Z) (s : Service) : Service :=
  mkSvc (objs s) (next_id s) (invocations s) (public s) (catalog s) (closed s) (frozen s) (sessions s) (markers s) (locked s) (archiving s) (timeouts s) v (utc s).
Definition put_utc (v : Z) (s : Service) : Service :=
  mkSvc (objs s) (next_id s) (invocations s) (public s) (catalog s) (closed s) (frozen s) (sessions s) (markers s) (locked s) (archiving s) (timeouts s) (mono s) v.


(** ** One invocation *)

Definition log (e : engine_obs) (i : Invocation) : Invocation := set_iv_log (e :: iv_log i) i.
Definition iv_session (i : Invocation) : string := rq_session_ref (iv_request i).

(** [deadline_task.cancel()]: a watch that sleeps ends without another word; one that awaits
    the cleanup task it claimed would take that task down with it. *)
Definition cancel_watch (i : Invocation) : Invocation :=
  match iv_watch i with
  | WNew | WSleep _ => set_iv_watch WDone i
  | WJoin => set_iv_watch WDone (match iv_cleanup i with
                                 | ClNone | ClDone | ClCancelled => i
                                 | _ => set_iv_cleanup ClCancelled i
                                 end)
  | WNone | WDone => i
  end.

(** [_release_session_lock]: the lock itself is released where the invocation is written back. *)
Definition _release_session_lock (i : Invocation) : Invocation := set_iv_reservation None i.

Definition known_terminal (st : RunState) : bool :=
  match st with Completed | Failed | Cancelled | Skipped => true | _ => false end.

Section service.
(** The process's own Workspace ref, and a duration in milliseconds as a JSON number. *)
Context (own_workspace_ref : option string) (elapsed_ms : Z -> json).

(** [usage]: what [self._engine.usage] answers as a dict, [None] when it does not. *)
Definition _retain_reporting (usage : option (list (string * json))) (i : Invocation) : Invocation :=
  let known := known_terminal (iv_state i) in
  let duration_ms :=
    match iv_terminal_at i with
    | Some t => if known then elapsed_ms (Z.max 0 (t - iv_received_at i)) else JNull
    | None => JNull
    end in
  let usage_dict :=
    match usage, iv_terminal_at i with
    | Some d, Some _ => if known then JObj d else JNull
    | _, _ => JNull
    end in
  let reporting := JObj [("duration_ms", duration_ms); ("usage", usage_dict)] in
  match iv_result i with
  | JObj d =>
      match assoc "reporting" d with
      | Some _ => i
      | None => set_iv_result (JObj (d ++ [("reporting", reporting)])) i
      end
  | JNull => set_iv_result (JObj [("reporting", reporting)]) i
  | v => set_iv_result (JObj [("value", v); ("reporting", reporting)]) i
  end.

Definition started_of (i : Invocation) : Started :=
  {| sd_invocation_id := sr_invocation_id (iv_request i); sd_session_ref := iv_session i;
     sd_run_id := iv_run_id i; sd_config_version := sr_config_version (iv_request i) |}.

(** [terminal], [state], [error], [terminal_at] and the report, set together. *)
Definition terminate (now : Z) (usage : option (list (string * json))) (st : RunState)
    (error : option string) (i : Invocation) : Invocation :=
  _retain_reporting usage
    (set_iv_terminal_at (Some now) (set_iv_error error (set_iv_state st (set_iv_terminal true i)))).

Definition _finish_without_engine (now : Z) (usage : option (list (string * json))) (st : RunState)
    (error : option string) (i : Invocation) : Invocation :=
  if iv_terminal i then i
  else
    let i := cancel_watch (terminate now usage st error i) in
    _release_session_lock (set_iv_started (fut_settle (FutResult (started_of i)) (iv_started i)) i).

Definition _fail_before_started (now : Z) (usage : option (list (string * json))) (x : pyexc)
    (st : RunState) (release : bool) (i : Invocation) : Invocation :=
  if iv_terminal i then i
  else
    let i := cancel_watch (terminate now usage st (Some (x_msg x)) i) in
    let i := set_iv_started (fut_settle (FutExc x) (iv_started i)) i in
    if release then _release_session_lock i else i.

(** [_ensure_cleanup]; [by_watch]: the claim is made by the invocation's own deadline watch. *)
Definition _ensure_cleanup (now : Z) (by_watch : bool) (reason : string) (st : RunState)
    (i : Invocation) : Invocation :=
  match iv_cleanup i with
  | ClNone =>
      let i := set_iv_terminal true i in
      let i := if by_watch then i else cancel_watch i in
      let i := match iv_budget i with
               | Some _ => i
               | None => set_iv_budget
                   (Some {| cleanup_started_at := now;
                            force_deadline := now + seconds CANCEL_KILL_BOUND_SECONDS;
                            confirmation_deadline := None |}) i
               end in
      set_iv_cleanup (ClNew reason st) i
  | _ => i
  end.

Definition _fail_after_possible_send (now : Z) (usage : option (list (string * json))) (x : pyexc)
    (i : Invocation) : Invocation :=
  if iv_terminal i then i
  else if negb (ambiguous x) && negb (is_timeout x) then
    _fail_before_started now usage x Failed true (log (ERejected x) i)
  else
    let i := set_iv_error (Some (x_msg x)) i in
    let i := _ensure_cleanup now false ("unconfirmed send: " +:+ x_msg x)
               (if ambiguous x then Unknown else Failed) i in
    set_iv_started (fut_settle (FutExc x) (iv_started i)) i.

(** [_timeout_cancel] up to its await. *)
Definition _timeout_cancel (now : Z) (by_watch : bool) (reason : string) (i : Invocation) : Invocation :=
  if iv_terminal i then i
  else
    let i := set_iv_started (fut_settle (FutExc (exc TimeoutError reason)) (iv_started i)) i in
    _ensure_cleanup now by_watch reason Failed i.

Definition _claim_explicit_cancel (now : Z) (reason : string) (i : Invocation) : Invocation :=
  let i := set_iv_started (fut_settle FutCancelled (iv_started i)) i in
  _ensure_cleanup now false reason Cancelled i.

(** ** The catalog of one run *)

Definition dict_put (k : string) (v : json) (d : list (string * json)) : list (string * json) :=
  if in_strs k (map fst d) then map (fun kv => if String.eqb (fst kv) k then (k, v) else kv) d
  else d ++ [(k, v)].
Definition dict_pop (k : string) (d : list (string * json)) : list (string * json) :=
  filter (fun kv => String.eqb (fst kv) k = false) d.
(** [mcp = d.get("mcp")], updated in place when it is a dict. *)
Definition update_mcp (f : list (string * json) -> list (string * json)) (d : list (string * json)) :
    list (string * json) :=
  match assoc "mcp" d with
  | Some (JObj mcp) => dict_put "mcp" (JObj (f mcp)) d
  | _ => d
  end.
Definition start_catalog (r : StartRequest) (c : option (list (string * json))) :
    option (list (string * json)) :=
  let drop_memory := match sr_memory_available r with Some false => true | _ => false end in
  (fun d =>
     let d := if drop_memory then update_mcp (dict_pop "memory") d else d in
     if sr_inform_user r then d else update_mcp (dict_pop "progress") d) <$> c.

(** [urllib.parse.quote(s, safe="")] *)
Definition upper_hex (n : N) : ascii := ascii_of_N (if n <? 10 then 48 + n else 55 + n)%N.
Definition unreserved (a : ascii) : bool :=
  is_alnum a || Ascii.eqb a "_" || Ascii.eqb a "." || Ascii.eqb a "-" || Ascii.eqb a "~".
Fixpoint quote_url (s : string) : string :=
  match s with
  | EmptyString => ""
  | String a s =>
      if unreserved a then String a (quote_url s)
      else String "%" (String (upper_hex (ascii_code a / 16)) (String (upper_hex (ascii_code a mod 16))
             (quote_url s)))
  end.
Definition rstrip_slash (s : string) : string := rstrip_char "/" s.

(** The [url] of server [name], when it is [old]. *)
Definition set_server_url (name old new : string) (mcp : list (string * json)) : list (string * json) :=
  match assoc name mcp with
  | Some (JObj entry) =>
      match assoc "url" entry with
      | Some (JStr u) =>
          if String.eqb u old then dict_put name (JObj (dict_put "url" (JStr new) entry)) mcp else mcp
      | _ => mcp
      end
  | _ => mcp
  end.
Definition run_catalog (i : Invocation) : option (list (string * json)) :=
  let facade := rstrip_slash (pc_facade_endpoint (iv_public i)) in
  let id := quote_url (sr_invocation_id (iv_request i)) in
  update_mcp (fun mcp =>
    set_server_url "progress" (facade +:+ "/progress") (facade +:+ "/progress/runs/" +:+ id +:+ "/")
      (set_server_url "artifacts" (facade +:+ "/artifacts") (facade +:+ "/artifacts/runs/" +:+ id +:+ "/")
        mcp)) <$> iv_catalog i.

(** ** The owner task: [_run_start] *)

Definition expired (utc : Z) (i : Invocation) : bool := sr_deadline_at (iv_request i) <=? utc.
Definition owner_ends (i : Invocation) : Invocation := set_iv_owner OwDone i.

Definition owner_begin (now utc : Z) (usage : option (list (string * json))) (i : Invocation) : Invocation :=
  match iv_owner i with
  | OwNew =>
      if iv_owner_cancel i then set_iv_owner OwCancelled i
      else if expired utc i then
        owner_ends (_fail_before_started now usage
          (exc TimeoutError "deadline already expired before preparation") Failed false i)
      else set_iv_owner OwAcquire i
  | _ => i
  end.

(** The acquire ended without the lock: its deadline, or the owner's cancellation. *)
Definition owner_acquire_ends (now : Z) (usage : option (list (string * json))) (i : Invocation) : Invocation :=
  match iv_owner i with
  | OwAcquire =>
      if iv_owner_cancel i then set_iv_owner OwCancelled i
      else owner_ends (_fail_before_started now usage (exc TimeoutError "") Failed false i)
  | _ => i
  end.

(** Once prepared: the gate's verdict, then the engine invocation is built ([built]: what
    building it raised), up to the probe of the MCP servers. *)
Definition gate_error (g : HookResult) : string :=
  "sessionStart exited " +:+ str_of_int (hr_returncode g) +:+ ": "
  +:+ str_tail _HOOK_ERROR_TAIL (redact_facade_tokens (hr_stderr g)).
Definition send_prompt (gate : option HookResult) (i : Invocation) : string :=
  let prompt := sr_prompt (iv_request i) in
  match gate with
  | Some g => if truthy (strip (hr_stdout g)) then prompt +:+ newline +:+ newline +:+ hr_stdout g else prompt
  | None => prompt
  end.
Definition owner_build (now : Z) (usage : option (list (string * json))) (built : option pyexc)
    (prompt : string) (i : Invocation) : Invocation :=
  let i := set_iv_state Sending i in
  match built with
  | Some x =>
      if is_cancelled x then set_iv_owner OwCancelled i
      else owner_ends (_fail_before_started now usage x Failed true i)
  | None => set_iv_owner (OwProbe prompt) i
  end.
Definition owner_gate (now : Z) (usage : option (list (string * json))) (gate : option HookResult)
    (built : option pyexc) (i : Invocation) : Invocation :=
  if iv_terminal i then owner_ends i
  else
    match gate with
    | Some g =>
        if hr_returncode g =? SKIP_EXIT_CODE then
          owner_ends (_finish_without_engine now usage Skipped None i)
        else if negb (hr_returncode g =? 0) then
          owner_ends (_finish_without_engine now usage Failed (Some (gate_error g)) i)
        else owner_build now usage built (send_prompt gate i) i
    | None => owner_build now usage built (send_prompt gate i) i
    end.

(** The lock is acquired; [session_started]: the session ran before. *)
Definition owner_acquired (now utc : Z) (usage : option (list (string * json))) (session_started : bool)
    (built : option pyexc) (i : Invocation) : Invocation :=
  let i := set_iv_reservation (Some (iv_session i)) i in
  if iv_terminal i then owner_ends i
  else if expired utc i then
    owner_ends (_fail_before_started now usage
      (exc TimeoutError "deadline expired after acquiring session reservation") Failed true i)
  else
    let i := set_iv_state Preparing i in
    match session_start (pc_hooks (iv_public i)) with
    | Some _ => if session_started then owner_gate now usage None built i else set_iv_owner OwHook i
    | None => owner_gate now usage None built i
    end.

(** The gate hook ended; a [CancelledError] can only be the owner's own cancellation. *)
Definition owner_hook (now : Z) (usage : option (list (string * json))) (r : HookResult + pyexc)
    (built : option pyexc) (i : Invocation) : Invocation :=
  match iv_owner i with
  | OwHook =>
      match r with
      | inl gate => owner_gate now usage (Some gate) built i
      | inr x =>
          if bool_decide (x_class x = SessionHookFailed) then
            owner_ends (_finish_without_engine now usage Failed (Some ("sessionStart " +:+ x_msg x)) i)
          else if is_timeout x then owner_ends (_fail_before_started now usage x Failed true i)
          else if is_cancelled x then
            if iv_owner_cancel i then set_iv_owner OwCancelled i else i
          else owner_ends (_fail_before_started now usage x Failed true i)
      end
  | _ => i
  end.

(** The probe ended.  An owner that was cancelled while it awaited the probe gets the
    [CancelledError] there: neither [sleep] nor [gather] swallows it. *)
Definition owner_probe (now utc : Z) (usage : option (list (string * json))) (r : option pyexc)
    (i : Invocation) : Invocation :=
  match iv_owner i with
  | OwProbe prompt =>
      if iv_owner_cancel i then set_iv_owner OwCancelled i
      else match r with
      | Some x =>
          if is_cancelled x then i
          else owner_ends (_finish_without_engine now usage Failed (Some (x_msg x)) i)
      | None =>
          if expired utc i then
            owner_ends (_fail_before_started now usage
              (exc TimeoutError "deadline expired before native send") Failed true i)
          else
            set_iv_owner OwSend (log (EStart prompt (run_catalog i)) (set_iv_possible_send true i))
      end
  | _ => i
  end.

(** [engine.start] ended.  [marked]: what recording the started marker raised. *)
Definition owner_send (now : Z) (usage : option (list (string * json))) (r : EngineReceipt + pyexc)
    (marked : option pyexc) (i : Invocation) : Invocation :=
  match iv_owner i with
  | OwSend =>
      match r with
      | inr x =>
          if is_cancelled x then if iv_owner_cancel i then set_iv_owner OwCancelled i else i
          else owner_ends (_fail_after_possible_send now usage x i)
      | inl receipt =>
          let i := log EAccepted (set_iv_receipt (Some receipt) i) in
          match marked with
          | Some x => set_iv_owner (OwRaised x) i
          | None =>
              if iv_terminal i then owner_ends i
              else
                let i := set_iv_state Running i in
                let i := set_iv_started (fut_settle (FutResult (started_of i)) (iv_started i)) i in
                owner_ends (set_iv_settle SeWait i)
          end
      end
  | _ => i
  end.

(** ** The deadline watch: [_deadline_watch] *)

Definition watch_fire (now : Z) (reason : string) (i : Invocation) : Invocation :=
  if iv_terminal i then set_iv_watch WDone i
  else set_iv_watch WJoin (_timeout_cancel now true reason i).
Definition stall_reason (i : Invocation) : string :=
  "stalled: no engine progress for " +:+ str_of_int (max_stall_seconds (pc_limits (iv_public i))) +:+ "s".
Definition _remaining (utc : Z) (i : Invocation) : Z := Z.max 0 (sr_deadline_at (iv_request i) - utc).
(** [progress]: what [last_progress] answers for a running invocation. *)
Definition watch_poll (now utc : Z) (progress : option Z) (i : Invocation) : Invocation :=
  match iv_watch i with
  | WNew =>
      let end_ := now + _remaining utc i in
      if end_ - now <=? 0 then watch_fire now "deadline expired" i else set_iv_watch (WSleep end_) i
  | WSleep end_ =>
      let stalled :=
        match progress with
        | Some p => bool_decide (iv_state i = Running)
                    && (seconds (max_stall_seconds (pc_limits (iv_public i))) <=? now - p)
        | None => false
        end in
      if stalled then watch_fire now (stall_reason i) i
      else if end_ - now <=? 0 then watch_fire now "deadline expired" i
      else i
  | _ => i
  end.

(** ** Settlement: [_hold_until_settled] *)

Definition _hold_until_settled (now : Z) (usage : option (list (string * json)))
    (r : (EngineOutcome * option string) + pyexc) (i : Invocation) : Invocation :=
  match iv_settle i with
  | SeWait =>
      match r with
      | inr x =>
          if iv_terminal i then set_iv_settle SeDone i
          else set_iv_settle SeJoin
                 (_ensure_cleanup now false ("settlement lost: " +:+ x_msg x) Unknown (cancel_watch i))
      | inl (outcome, text) =>
          let i := set_iv_settle SeDone (log (ESettled outcome) i) in
          if iv_terminal i then i
          else
            let i := set_iv_state (outcome_state outcome) i in
            let i := match outcome, text with
                     | EoCompleted, Some t => set_iv_result (JObj [("text", JStr t)]) i
                     | _, _ => i
                     end in
            let i := _retain_reporting usage (set_iv_terminal_at (Some now) (set_iv_terminal true i)) in
            _release_session_lock (cancel_watch i)
      end
  | _ => i
  end.

(** ** The retained cleanup: [_confirm_halt_and_release], [_stop_owner] *)

(** The worker creates both tasks, then waits.  asyncio runs ready callbacks in order, so the
    first segments of the two tasks run next to each other: the engine is asked to cancel and
    the owner is cancelled in one step ([cleanup_run]). *)
Definition cleanup_spawn (i : Invocation) : Invocation :=
  match iv_cleanup i with
  | ClNew reason st => set_iv_cleanup (ClSpawned reason st) (set_iv_owner_stop StNew i)
  | _ => i
  end.
(** The verdict of [_stop_owner] on an owner that is done. *)
Definition stop_verdict (i : Invocation) : stop_pc :=
  match iv_owner i with
  | OwRaised x => StEnded (Some x)
  | _ => StEnded None
  end.
Definition cleanup_run (i : Invocation) : Invocation :=
  match iv_cleanup i with
  | ClSpawned reason st =>
      let i := log ECancel (set_iv_engine_cancel EcRun (set_iv_cleanup (ClWait reason st) i)) in
      match iv_owner i with
      | OwNone => set_iv_owner_stop (StEnded None) i
      | p => if owner_done p then set_iv_owner_stop (stop_verdict i) i
             else set_iv_owner_stop StWait (set_iv_owner_cancel true i)
      end
  | _ => i
  end.

Definition engine_cancel_ends (r : option pyexc) (i : Invocation) : Invocation :=
  match iv_engine_cancel i with
  | EcRun => set_iv_engine_cancel (EcEnded r) (match r with None => log EHalted i | Some _ => i end)
  | _ => i
  end.
(** The engine committed to a forced kill: the first one freezes the confirmation deadline. *)
Definition engine_forces (now : Z) (i : Invocation) : Invocation :=
  match iv_engine_cancel i, iv_budget i with
  | EcRun, Some b => set_iv_budget (Some (mark_forced now b)) i
  | _, _ => i
  end.

Definition stop_timeout : pyexc :=
  exc TimeoutError "owner task did not stop within the shared cleanup deadline".
Definition past (now : Z) (d : option Z) : bool :=
  match d with Some d => d <=? now | None => false end.
Definition stop_wakes (now : Z) (i : Invocation) : Invocation :=
  match iv_owner_stop i, iv_budget i with
  | StWait, Some b =>
      if owner_done (iv_owner i) then set_iv_owner_stop (stop_verdict i) i
      else if force_deadline b <=? now then
        match confirmation_deadline b with
        | Some _ => set_iv_owner_stop StWaitForced i
        | None => set_iv_owner_stop (StEnded (Some stop_timeout)) i
        end
      else i
  | StWaitForced, Some b =>
      if owner_done (iv_owner i) then set_iv_owner_stop (stop_verdict i) i
      else if past now (confirmation_deadline b) then set_iv_owner_stop (StEnded (Some stop_timeout)) i
      else i
  | _, _ => i
  end.

Definition engine_result (i : Invocation) : option (option pyexc) :=
  match iv_engine_cancel i with EcEnded r => Some r | _ => None end.
Definition stop_result (i : Invocation) : option (option pyexc) :=
  match iv_owner_stop i with StEnded r => Some r | _ => None end.

Definition uncertain_end (now : Z) (usage : option (list (string * json))) (reason why : string)
    (i : Invocation) : Invocation :=
  let error := str_or (from_option id "" (iv_error i)) reason +:+ "; cleanup uncertain: " +:+ why in
  set_iv_cleanup ClDone
    (_retain_reporting usage
      (set_iv_terminal_at (Some now) (set_iv_error (Some error) (set_iv_state Unknown i)))).
Definition task_failure (x : pyexc) : string :=
  if is_cancelled x then "retained task was cancelled" else x_msg x.
(** Both observations are over: the verdict. *)
Definition cleanup_verdict (now : Z) (usage : option (list (string * json))) (reason : string)
    (st : RunState) (i : Invocation) : Invocation :=
  match engine_result i, stop_result i with
  | Some None, Some None =>
      let error := str_or (from_option id "" (iv_error i)) reason in
      set_iv_cleanup ClDone
        (_release_session_lock
          (_retain_reporting usage
            (set_iv_terminal_at (Some now) (set_iv_error (Some error) (set_iv_state st i)))))
  | Some (Some x), Some _ | Some None, Some (Some x) => uncertain_end now usage reason (task_failure x) i
  | _, _ => uncertain_end now usage reason "observation expired" i
  end.
Definition both_ended (i : Invocation) : bool :=
  bool_decide (is_Some (engine_result i)) && bool_decide (is_Some (stop_result i)).
Definition cleanup_wakes (now : Z) (usage : option (list (string * json))) (i : Invocation) : Invocation :=
  match iv_cleanup i, iv_budget i with
  | ClWait reason st, Some b =>
      if both_ended i then cleanup_verdict now usage reason st i
      else if force_deadline b <=? now then
        match confirmation_deadline b with
        | Some _ => set_iv_cleanup (ClWaitForced reason st) i
        | None => cleanup_verdict now usage reason st i
        end
      else i
  | ClWaitForced reason st, Some b =>
      if both_ended i || past now (confirmation_deadline b) then cleanup_verdict now usage reason st i
      else i
  | _, _ => i
  end.

(** ** The service *)


Definition lock_change (old new : option string) (l : gset string) : gset string :=
  match old, new with
  | None, Some k => l ∪ {[k]}
  | Some k, None => l ∖ {[k]}
  | _, _ => l
  end.
(** Write an invocation back.  Taking its reservation locks the session's lock, giving it up
    releases that lock ([_release_session_lock]). *)
Definition commit (o : nat) (i i' : Invocation) (s : Service) : Service :=
  put_locked (lock_change (iv_reservation i) (iv_reservation i') (locked s))
    (put_objs (<[o := i']> (objs s)) s).
Definition segment (o : nat) (f : Invocation -> Invocation) (s : Service) : Service :=
  match objs s !! o with Some i => commit o i (f i) s | None => s end.

Definition find_invocation (k : string) (s : Service) : option (nat * Invocation) :=
  match assoc k (invocations s) with
  | Some o => pair o <$> objs s !! o
  | None => None
  end.

Definition configure (p : PublicConfig) (c : option (list (string * json))) (s : Service) :
    Service * result exn unit :=
  if closed s then (s, Err RuntimeError) else (put_catalog c (put_public (Some p) s), Ok tt).

(** *** Retention: [_reserve_capacity] *)

Definition evictable (window : Z) (s : Service) (o : nat) : bool :=
  match objs s !! o with
  | None => false
  | Some i =>
      iv_terminal i
      && match iv_terminal_at i with Some t => window <=? mono s - t | None => false end
      && bool_decide (iv_reservation i = None)
      && match iv_cleanup i with ClNone | ClDone | ClCancelled => true | _ => false end
      && negb (bool_decide (iv_state i = Unknown))
      && match iv_engine_cancel i with EcNone | EcEnded _ => true | EcRun => false end
      && match iv_owner_stop i with StNone | StEnded _ => true | _ => false end
  end.
Definition idempotency_window (s : Service) : Z :=
  match public s with Some p => seconds (idempotency_window_seconds (pc_limits p)) | None => 0 end.
Definition evictable_keys (s : Service) : list string :=
  map fst (filter (fun ko => evictable (idempotency_window s) s (snd ko) = true) (invocations s)).
Definition _reserve_capacity (s : Service) : result exn Service :=
  let n := length (invocations s) in
  if (n <? MAX_RETAINED_RUNS)%nat then Ok s
  else match evictable_keys s with
  | [] => Err CapacityExceeded
  | keys =>
      let gone := take (n - MAX_RETAINED_RUNS + 1)%nat keys in
      Ok (put_invocations (filter (fun ko => in_strs (fst ko) gone = false) (invocations s)) s)
  end.

(** *** [start]: the synchronous part, up to awaiting the [started] future of the answer *)

Definition new_invocation (p : PublicConfig) (r : StartRequest) (run_id : string) (s : Service) : Invocation :=
  mkInv r p (start_catalog r (catalog s)) run_id FutPending (mono s) false Preparing None JNull None
    OwNew false WNew SeNone ClNone None None false None EcNone StNone [].
Definition add_invocation (k : string) (i : Invocation) (s : Service) : Service :=
  put_next_id (S (next_id s))
    (put_invocations (invocations s ++ [(k, next_id s)]) (put_objs (<[next_id s := i]> (objs s)) s)).

Definition start (r : StartRequest) (run_id : string) (s : Service) : Service * result exn nat :=
  if frozen s then (s, Err RuntimeError)
  else if match own_workspace_ref with
          | Some w => negb (String.eqb (rq_workspace_ref r) w)
          | None => false
          end then (s, Err WorkspaceMismatch)
  else if closed s then (s, Err RuntimeError)
  else match find_invocation (sr_invocation_id r) s with
  | Some (o, i) => if decide (iv_request i = r) then (s, Ok o) else (s, Err ConflictingStart)
  | None =>
      match public s with
      | None => (s, Err RuntimeError)
      | Some p =>
          if negb (String.eqb (sr_config_version r) (pc_config_version p)) then (s, Err RuntimeError)
          else match _reserve_capacity s with
          | Err e => (s, Err e)
          | Ok s =>
              (add_invocation (sr_invocation_id r) (new_invocation p r run_id s) s, Ok (next_id s))
          end
      end
  end.

(** *** The owner's segments that touch the session registry *)

Definition session_started (l : string) (s : Service) : bool :=
  from_option ss_started false (sessions s !! l).
Definition acquire_session (o : nat) (usage : option (list (string * json))) (built : option pyexc)
    (s : Service) : Service :=
  match objs s !! o with
  | None => s
  | Some i =>
      let l := iv_session i in
      match iv_owner i with
      | OwAcquire =>
          if iv_owner_cancel i || bool_decide (l ∈ locked s) then s
          else
            let s := if iv_terminal i || expired (utc s) i then s
                     else put_sessions (get_or_create (bool_decide (l ∈ markers s)) l (sessions s)) s in
            commit o i (owner_acquired (mono s) (utc s) usage (session_started l s) built i) s
      | _ => s
      end
  end.

Definition note_receipt (l : string) (receipt : EngineReceipt) (s : Service) : Service :=
  put_sessions (alter (fun ss =>
    {| ss_native_session_id := er_native_session_id receipt; ss_started := ss_started ss;
       ss_suspend_hook_failed := ss_suspend_hook_failed ss; ss_suspended := false |}) l (sessions s)) s.
(** [mark_started] *)
Definition mark_started (l : string) (s : Service) : Service :=
  put_markers (markers s ∪ {[l]}) (put_sessions (alter (fun ss =>
    {| ss_native_session_id := ss_native_session_id ss; ss_started := true;
       ss_suspend_hook_failed := ss_suspend_hook_failed ss; ss_suspended := ss_suspended ss |})
    l (sessions s)) s).
Definition send_ends (o : nat) (usage : option (list (string * json))) (r : EngineReceipt + pyexc)
    (touch : option pyexc) (s : Service) : Service :=
  match objs s !! o with
  | None => s
  | Some i =>
      let l := iv_session i in
      let marked := if session_started l s then None else touch in
      let s' := commit o i (owner_send (mono s) usage r marked i) s in
      match iv_owner i, r with
      | OwSend, inl receipt =>
          let s' := note_receipt l receipt s' in
          match marked with
          | None => if session_started l s then s' else mark_started l s'
          | Some _ => s'
          end
      | _, _ => s'
      end
  end.

(** *** [cancel] and [close], up to the tasks they await *)

Definition cancel (k reason : string) (s : Service) : Service * result exn unit :=
  match find_invocation k s with
  | None => (s, Err KeyError)
  | Some (o, i) =>
      match iv_cleanup i with
      | ClNone =>
          if iv_terminal i then (s, Ok tt)
          else if expired (utc s) i then (put_timeouts (o :: timeouts s) s, Ok tt)
          else (segment o (_claim_explicit_cancel (mono s) reason) s, Ok tt)
      | _ => (s, Ok tt)
      end
  end.
Definition run_timeout (o : nat) (s : Service) : Service :=
  if bool_decide (o ∈ timeouts s) then segment o (_timeout_cancel (mono s) false "deadline expired") s
  else s.

(** [close] stops admission; the close task then claims every invocation still at work. *)
Definition close_claims (s : Service) : Service :=
  foldr (fun ko s => segment (snd ko) (fun i =>
           match iv_cleanup i with
           | ClNone => if iv_terminal i then i else _claim_explicit_cancel (mono s) "shutdown" i
           | _ => i
           end) s) s (invocations s).
Definition uncertain (i : Invocation) : bool :=
  bool_decide (iv_state i = Unknown)
  || match iv_cleanup i with ClNone | ClDone | ClCancelled => false | _ => true end
  || match iv_engine_cancel i with EcRun => true | _ => false end
  || match iv_owner_stop i with StNone | StEnded _ => false | _ => true end.
(** The invocations that keep the close from asking the engine to close. *)
Definition close_blockers (s : Service) : list string :=
  map fst (filter (fun ko => from_option uncertain false (objs s !! snd ko) = true) (invocations s)).

(** *** [status] *)

Definition status (k : string) (s : Service) : result exn RunStatus :=
  match find_invocation k s with
  | None => Err KeyError
  | Some (_, i) =>
      Ok {| rs_invocation_id := sr_invocation_id (iv_request i); rs_channel := sr_channel (iv_request i);
            rs_workspace_ref := rq_workspace_ref (iv_request i); rs_session_ref := iv_session i;
            rs_run_id := Some (iv_run_id i); rs_config_version := sr_config_version (iv_request i);
            rs_deadline_at := sr_deadline_at (iv_request i); rs_state := iv_state i;
            rs_error := iv_error i; rs_result := iv_result i |}
  end.

(** *** Restored runs: [_adopt_restored_run] *)

(** The saved run, its request and its receipt already validated. *)
Record SavedRun :=
  { sv_request : StartRequest; sv_state : option RunState; sv_run_id : string;
    sv_started : option Started; sv_error : option string; sv_result : json }.
Definition adopted (p : PublicConfig) (v : SavedRun) (st : RunState) (now : Z) : Invocation :=
  let started :=
    match sv_started v with
    | Some d => FutResult d
    | None => FutExc (exc RuntimeError (str_or (from_option id "" (sv_error v))
                ("invocation ended as " +:+ run_state_str st +:+ " before Started")))
    end in
  mkInv (sv_request v) p None (sv_run_id v) started now true st (sv_error v) (sv_result v) (Some now)
    OwNone false WNone SeNone ClNone None None false None EcNone StNone [].
Definition _adopt_restored_run (v : SavedRun) (s : Service) : Service * result exn unit :=
  let k := sr_invocation_id (sv_request v) in
  match assoc k (invocations s) with
  | Some _ => (s, Ok tt)
  | None =>
      match sv_state v, public s with
      | Some st, Some p =>
          if negb (known_terminal st) then (s, Err ValueError)
          else if negb (truthy (sv_run_id v)) then (s, Err ValueError)
          else if match sv_started v with
                  | Some d => negb (String.eqb (sd_invocation_id d) k
                                    && String.eqb (sd_session_ref d) (rq_session_ref (sv_request v))
                                    && String.eqb (sd_config_version d) (sr_config_version (sv_request v)))
                  | None => false
                  end then (s, Err ValueError)
          else (add_invocation k (adopted p v st (mono s)) s, Ok tt)
      | _, _ => (s, Err ValueError)
      end
  end.

(** *** Sessions under an archive operation: [async with self._sessions.lock(...)] *)

Definition archive_lock (l : string) (s : Service) : Service :=
  if bool_decide (l ∈ locked s) then s
  else put_archiving (archiving s ∪ {[l]}) (put_locked (locked s ∪ {[l]}) s).
Definition archive_unlock (l : string) (s : Service) : Service :=
  if bool_decide (l ∈ archiving s)
  then put_archiving (archiving s ∖ {[l]}) (put_locked (locked s ∖ {[l]}) s)
  else s.

(** [session_info]: [native] is the engine's own view of the session, [None] when it has none:
    whether its process is alive and whether it has a session id. *)
Record SessionInfo :=
  { si_initialized : bool; si_native_session_id : option string; si_active : bool;
    si_needs_suspend : bool; si_uncertain : bool; si_suspend_hook_failed : option bool;
    si_idle : option Z }.
Definition session_invocations (l : string) (s : Service) : list Invocation :=
  filter (fun i => iv_session i = l) (omap (fun ko => objs s !! snd ko) (invocations s)).
Definition session_info (l : string) (native : option (bool * bool)) (s : Service) : result exn SessionInfo :=
  match sessions s !! l with
  | None => Err KeyError
  | Some st =>
      let active := from_option fst false native in
      let ended := omap iv_terminal_at (session_invocations l s) in
      Ok {| si_initialized := bool_decide (l ∈ markers s);
            si_native_session_id := ss_native_session_id st;
            si_active := active;
            si_needs_suspend := from_option snd false native && negb active && negb (ss_suspended st);
            si_uncertain := existsb uncertain (session_invocations l s);
            si_suspend_hook_failed := ss_suspend_hook_failed st;
            si_idle := match ended with [] => None | t :: ts => Some (mono s - foldr Z.max t ts) end |}
  end.

(** [retire_session], its lock held: [engine] is the engine's own retirement. *)
Definition retire_session (l : string) (native : option (bool * bool)) (engine : result exn unit)
    (s : Service) : Service * result exn unit :=
  match sessions s !! l with
  | None => (s, Ok tt)
  | Some _ =>
      if existsb (fun i => negb (iv_terminal i)) (session_invocations l s) then (s, Err RuntimeError)
      else match session_info l native s with
      | Err e => (s, Err e)
      | Ok info =>
          if si_active info || si_uncertain info then (s, Err RuntimeError)
          else match engine with
          | Err e => (s, Err e)
          | Ok _ => (put_markers (markers s ∖ {[l]}) (put_sessions (delete l (sessions s)) s), Ok tt)
          end
      end
  end.

(** ** Every interleaving *)

Inductive step : Service -> Service -> Prop :=
  | step_clock s m u : mono s <= m -> step s (put_utc u (put_mono m s))
  | step_configure s p c : step s (fst (configure p c s))
  | step_frozen s b : step s (put_frozen b s)
  | step_start s r run_id : step s (fst (start r run_id s))
  | step_cancel s k reason : step s (fst (cancel k reason s))
  | step_timeout s o : step s (run_timeout o s)
  | step_close s : step s (put_closed true s)
  | step_close_claims s : closed s = true -> step s (close_claims s)
  | step_owner_begin s o u : step s (segment o (owner_begin (mono s) (utc s) u) s)
  | step_acquire_ends s o u : step s (segment o (owner_acquire_ends (mono s) u) s)
  | step_acquired s o u built : step s (acquire_session o u built s)
  | step_hook s o u r built : step s (segment o (owner_hook (mono s) u r built) s)
  | step_probe s o u r : step s (segment o (owner_probe (mono s) (utc s) u r) s)
  | step_send s o u r touch : step s (send_ends o u r touch s)
  | step_watch s o progress : step s (segment o (watch_poll (mono s) (utc s) progress) s)
  | step_settle s o u r : step s (segment o (_hold_until_settled (mono s) u r) s)
  | step_spawn s o : step s (segment o cleanup_spawn s)
  | step_run s o : step s (segment o cleanup_run s)
  | step_engine_cancel s o r : step s (segment o (engine_cancel_ends r) s)
  | step_engine_forces s o : step s (segment o (engine_forces (mono s)) s)
  | step_stop s o : step s (segment o (stop_wakes (mono s)) s)
  | step_cleanup s o u : step s (segment o (cleanup_wakes (mono s) u) s)
  | step_adopt s v : step s (fst (_adopt_restored_run v s))
  | step_archive_lock s l : step s (archive_lock l s)
  | step_archive_unlock s l : step s (archive_unlock l s)
  | step_retire s l native engine :
      l ∈ archiving s -> step s (fst (retire_session l native engine s))
  | step_session_found s l m :                  (* [inventory], [restore], [snapshot] *)
      sessions s !! l = None \/ l ∈ archiving s -> step s (put_sessions (<[l := m]> (sessions s)) s).

Definition init (m u : Z) : Service :=
  mkSvc ∅ 0 [] None None false false ∅ ∅ ∅ ∅ [] m u.
Definition reachable (s : Service) : Prop := exists m u, rtc step (init m u) s.
End service.
