(* ===== verification/ExecutionInv.v ===== *)
(** * execution/service.py: the invariant of an invocation and of the service

    [Oinv] relates the fields of one invocation, whatever the others do; [Inv] adds the locks
    and the registry.  Every segment preserves them. *)

From stdpp Require Import fin_sets gmap.
From S2P Require Import Prelude Sha256 PyJson Config Public StateRefs Effects Storage Wire Tokens Sessions Execution.
Local Open Scope Z_scope.

(** The engine may be working for the invocation: its last start has neither been refused nor
    settled, and no cancellation has come back since. *)
Fixpoint live (l : list engine_obs) : bool :=
  match l with
  | [] => false
  | EStart _ _ :: _ => true
  | ERejected _ :: _ | ESettled _ :: _ | EHalted :: _ => false
  | _ :: l => live l
  end.
Definition is_start (e : engine_obs) : bool := match e with EStart _ _ => true | _ => false end.
Definition starts (l : list engine_obs) : nat := length (List.filter is_start l).

(** Owners that have not sent yet, owners that hold the lock, owners a cancellation can no
    longer let send. *)
Definition unsent (p : owner_pc) : bool :=
  match p with OwNew | OwAcquire | OwHook | OwProbe _ | OwNone => true | _ => false end.
Definition holding (p : owner_pc) : bool :=
  match p with OwHook | OwProbe _ | OwSend => true | _ => false end.
Definition early (p : owner_pc) : bool :=
  match p with OwNew | OwAcquire | OwNone => true | _ => false end.
Definition ended (p : owner_pc) : bool := owner_done p || match p with OwNone => true | _ => false end.

Definition present {A} (o : option A) : bool := match o with Some _ => true | None => false end.
Definition reserved (i : Invocation) : bool := present (iv_reservation i).
Definition at_end (i : Invocation) : bool := present (iv_terminal_at i).
Definition budgeted (i : Invocation) : bool := present (iv_budget i).

(** The claimed cleanup: not yet, at work, over. *)
Definition unclaimed (c : cleanup_pc) : bool := match c with ClNone => true | _ => false end.
Definition working (c : cleanup_pc) : bool :=
  match c with ClNew _ _ | ClSpawned _ _ | ClWait _ _ | ClWaitForced _ _ => true | _ => false end.
Definition launched (c : cleanup_pc) : bool :=
  match c with ClWait _ _ | ClWaitForced _ _ | ClDone => true | _ => false end.
Definition not_cancelled (c : cleanup_pc) : bool := match c with ClCancelled => false | _ => true end.
Definition asked (e : engine_task) : bool := match e with EcNone => false | _ => true end.
Definition halted (e : engine_task) : bool := match e with EcEnded None => true | _ => false end.
Definition stopped (p : stop_pc) : bool := match p with StEnded None => true | _ => false end.
Definition joining (p : watch_pc) : bool := match p with WJoin => true | _ => false end.
Definition settling (p : settle_pc) : bool := match p with SeNone => false | _ => true end.

Definition forced_wait (c : cleanup_pc) : bool := match c with ClWaitForced _ _ => true | _ => false end.
Definition confirmed (b : option HaltBudget) : bool :=
  match b with Some b => present (confirmation_deadline b) | None => false end.

Record Oinv (i : Invocation) : Prop := mkOinv {
  oi_early : early (iv_owner i) = true -> reserved i = false;
  oi_holding : holding (iv_owner i) = true -> reserved i = true;
  oi_unsent : unsent (iv_owner i) = true -> iv_possible_send i = false /\ iv_settle i = SeNone;
  oi_sending : iv_owner i = OwSend -> iv_possible_send i = true /\ iv_settle i = SeNone;
  oi_session : forall l, iv_reservation i = Some l -> l = iv_session i;
  oi_restored : iv_owner i = OwNone -> iv_terminal i = true /\ iv_cleanup i = ClNone;
  oi_claimed : unclaimed (iv_cleanup i) = false -> iv_terminal i = true /\ budgeted i = true;
  oi_kept : not_cancelled (iv_cleanup i) = true;
  oi_launched : launched (iv_cleanup i) = asked (iv_engine_cancel i);
  oi_cancelled : asked (iv_engine_cancel i) = true -> iv_owner_cancel i = true \/ ended (iv_owner i) = true;
  oi_stopped : stopped (iv_owner_stop i) = true -> ended (iv_owner i) = true;
  oi_halted : halted (iv_engine_cancel i) = true -> live (iv_log i) = false;
  oi_live : live (iv_log i) = true -> reserved i = true;
  oi_start : starts (iv_log i) = if iv_possible_send i then 1%nat else 0%nat;
  oi_final : iv_terminal i = true -> at_end i = negb (working (iv_cleanup i));
  oi_running : iv_terminal i = false -> at_end i = false;
  oi_joining : joining (iv_watch i) = true -> iv_terminal i = true;
  oi_settling : settling (iv_settle i) = true -> owner_done (iv_owner i) = true /\ fut_done (iv_started i) = true;
  oi_started : iv_terminal i = true -> fut_done (iv_started i) = true;
  oi_forced : forced_wait (iv_cleanup i) = true -> confirmed (iv_budget i) = true
}.

(** ** The segments preserve it *)

Section segments.
Context (elapsed_ms : Z -> json).

(** Reporting changes the result only. *)
Lemma retain_result u i : exists r, _retain_reporting elapsed_ms u i = set_iv_result r i.
Proof.
  unfold _retain_reporting. destruct (iv_result i) eqn:E; eauto.
  destruct (assoc _ _); eauto. exists (iv_result i). by destruct i.
Qed.

Ltac open_oinv H :=
  destruct H as [Hea Hho Hun Hse Hss Hre Hcl Hke Hla Hca Hst Hha Hli Hsn Hfi Hru Hjo Hsg Hsd Hfo].
(** Simplify the facts whose premises the case at hand decides. *)
Ltac oinv_facts :=
  cbn in *;
  repeat match goal with
  | H : true = true -> _ |- _ => specialize (H eq_refl)
  | H : ?x = ?x -> _ |- _ => specialize (H eq_refl)
  | H : false = true -> _ |- _ => clear H
  | H : true = false -> _ |- _ => clear H
  | H : _ /\ _ |- _ => destruct H
  | H : ?x = ?x |- _ => clear H
  | H : ?x = _ |- _ => is_var x; subst x
  | H : _ = ?x |- _ => is_var x; subst x
  end; try discriminate.
Ltac oinv_close :=
  oinv_facts; constructor; unfold reserved, at_end, budgeted, iv_session; cbn;
  first [done | assumption
  | intros; split; solve [auto|congruence|match goal with H : ?P -> _ /\ _, X : ?P |- _ => destruct (H X); solve [auto|congruence] end]
  | intros; solve [auto|congruence|exfalso; auto]].
(** Open an invocation: its fields become variables, the segment computes on them. *)
Ltac oinv_open I :=
  open_oinv I;
  match goal with i : Invocation |- _ =>
    destruct i as [f_rq f_pu f_ca f_rid f_sta f_rec f_ter f_st f_err f_res f_tat f_ow f_owc f_wa f_se f_cl f_rsv f_rcp f_ps f_bu f_ec f_os f_lg]
  end; unfold reserved, at_end, budgeted, iv_session in *; cbn in *; subst.
Ltac oinv_retain :=
  repeat match goal with
  | |- context [_retain_reporting ?e ?u ?i] =>
      let r := fresh "r" in let E := fresh in
      destruct (retain_result u i) as [r E]; rewrite E; clear E
  end.

(** An invocation that is not terminal has no cleanup and no end yet. *)
Lemma Oinv_fresh i :
  Oinv i -> iv_terminal i = false ->
  iv_cleanup i = ClNone /\ joining (iv_watch i) = false /\ iv_engine_cancel i = EcNone
  /\ at_end i = false /\ iv_owner i <> OwNone.
Proof.
  intros I Ht. open_oinv I. rewrite Ht in *.
  assert (iv_cleanup i = ClNone) as Hc by (destruct (iv_cleanup i); [done|by destruct Hcl..]).
  rewrite Hc in *. split_and!; [done|destruct (joining _); [by rewrite Hjo|done]|
    destruct (iv_engine_cancel i); done|auto|]. intros Ho. by destruct (Hre Ho).
Qed.

Lemma cancel_watch_eq i :
  joining (iv_watch i) = false -> exists w, joining w = false /\ cancel_watch i = set_iv_watch w i.
Proof.
  unfold cancel_watch. intros H. destruct (iv_watch i) eqn:E; try done; [|by exists WDone..|];
    eexists; (split; [|by destruct i; cbn in *; subst]); done.
Qed.

Lemma fut_settle_done g f : fut_done g = true -> fut_done (fut_settle g f) = true.
Proof. intros H. unfold fut_settle. by destruct (fut_done f) eqn:E. Qed.

(** Ended by the owner itself, without a cleanup. *)
Definition finished (now : Z) (st : RunState) (err : option string) (r : json) (w : watch_pc)
    (f : future) (release : bool) (i : Invocation) : Invocation :=
  let i := set_iv_started f (set_iv_watch w (set_iv_result r (set_iv_terminal_at (Some now)
             (set_iv_error err (set_iv_state st (set_iv_terminal true i)))))) in
  if release then set_iv_reservation None i else i.

Lemma fail_finished now u x st release i :
  iv_terminal i = false -> joining (iv_watch i) = false ->
  exists r w g, joining w = false /\ fut_done g = true
    /\ _fail_before_started elapsed_ms now u x st release i
       = finished now st (Some (x_msg x)) r w (fut_settle g (iv_started i)) release i.
Proof.
  intros Ht Hj. unfold _fail_before_started, terminate. rewrite Ht. oinv_retain.
  edestruct cancel_watch_eq as (w & Hw & ->); [exact Hj|].
  exists r, w, (FutExc x). split_and!; [done..|]. by destruct i.
Qed.

Lemma finish_finished now u st err i :
  iv_terminal i = false -> joining (iv_watch i) = false ->
  exists r w g, joining w = false /\ fut_done g = true
    /\ _finish_without_engine elapsed_ms now u st err i
       = finished now st err r w (fut_settle g (iv_started i)) true i.
Proof.
  intros Ht Hj. unfold _finish_without_engine, terminate. rewrite Ht. oinv_retain.
  edestruct cancel_watch_eq as (w & Hw & ->); [exact Hj|].
  eexists r, w, _. by split_and!; [| |by destruct i].
Qed.

Lemma Oinv_finished now st err r w g release i :
  Oinv i -> iv_terminal i = false -> joining w = false -> fut_done g = true ->
  (release = true -> live (iv_log i) = false) ->
  Oinv (owner_ends (finished now st err r w (fut_settle g (iv_started i)) release i)).
Proof.
  intros I Ht Hw Hg Hrel. pose proof (fut_settle_done g (iv_started i) Hg) as Hf.
  revert Hf. generalize (fut_settle g (iv_started i)) as f. intros f Hf. destruct (Oinv_fresh i I Ht) as (Hc & _ & He & _ & _). oinv_open I.
  destruct release; oinv_facts; oinv_close.
Qed.

Lemma Oinv_begin now utc u i : Oinv i -> Oinv (owner_begin elapsed_ms now utc u i).
Proof.
  intros I. unfold owner_begin. destruct (iv_owner i) eqn:Ho; try done.
  destruct (iv_owner_cancel i) eqn:Hc; [oinv_open I; oinv_close|].
  destruct (expired utc i); [|oinv_open I; oinv_close].
  destruct (iv_terminal i) eqn:Ht.
  - unfold _fail_before_started. rewrite Ht. oinv_open I. oinv_close.
  - destruct (Oinv_fresh i I Ht) as (_ & Hj & _).
    edestruct fail_finished as (r & w & f & Hw & Hf & ->); [done..|].
    by apply Oinv_finished.
Qed.

(** Claimed by a cleanup. *)
Definition claimed (reason : string) (st : RunState) (b : HaltBudget) (w : watch_pc) (i : Invocation) :
    Invocation :=
  set_iv_cleanup (ClNew reason st) (set_iv_budget (Some b) (set_iv_watch w (set_iv_terminal true i))).

Lemma ensure_claimed now bw reason st i :
  iv_cleanup i = ClNone -> joining (iv_watch i) = false ->
  exists b w, joining w = false /\ _ensure_cleanup now bw reason st i = claimed reason st b w i.
Proof.
  intros Hc Hj. unfold _ensure_cleanup. rewrite Hc.
  assert (exists w, joining w = false /\
    (if bw then set_iv_terminal true i else cancel_watch (set_iv_terminal true i))
    = set_iv_watch w (set_iv_terminal true i)) as (w & Hw & ->).
  { destruct bw; [exists (iv_watch i); by destruct i|]. by apply cancel_watch_eq. }
  destruct (iv_budget i) as [b|] eqn:Hb.
  - exists b, w. split; [done|]. destruct i; cbn in *; subst. done.
  - eexists _, w. split; [done|]. destruct i; cbn in *; subst. done.
Qed.

(** The claim, with the [started] future settled and the error replaced. *)
Definition claimed_as (reason : string) (st : RunState) (b : HaltBudget) (w : watch_pc) (f : future)
    (err : option string) (i : Invocation) : Invocation :=
  set_iv_started f (set_iv_error err (claimed reason st b w i)).

Lemma Oinv_claimed reason st b w g err i :
  Oinv i -> iv_terminal i = false -> joining w = false -> fut_done g = true ->
  Oinv (claimed_as reason st b w (fut_settle g (iv_started i)) err i).
Proof.
  intros I Ht Hw Hg. pose proof (fut_settle_done g (iv_started i) Hg) as Hf.
  revert Hf. generalize (fut_settle g (iv_started i)) as f. intros f Hf. destruct (Oinv_fresh i I Ht) as (Hc & _ & He & Ha & Ho). oinv_open I.
  oinv_facts; oinv_close.
Qed.

Lemma Oinv_owner_ends reason st b w g err i :
  Oinv i -> iv_terminal i = false -> joining w = false -> fut_done g = true ->
  Oinv (owner_ends (claimed_as reason st b w (fut_settle g (iv_started i)) err i)).
Proof.
  intros I Ht Hw Hg. pose proof (fut_settle_done g (iv_started i) Hg) as Hf.
  revert Hf. generalize (fut_settle g (iv_started i)) as f. intros f Hf. destruct (Oinv_fresh i I Ht) as (Hc & _ & He & Ha & Ho). oinv_open I.
  oinv_facts; oinv_close.
Qed.

Lemma Oinv_watch_joins reason st b w g err i :
  Oinv i -> iv_terminal i = false -> joining w = false -> fut_done g = true ->
  Oinv (set_iv_watch WJoin (claimed_as reason st b w (fut_settle g (iv_started i)) err i)).
Proof.
  intros I Ht Hw Hg. pose proof (fut_settle_done g (iv_started i) Hg) as Hf.
  revert Hf. generalize (fut_settle g (iv_started i)) as f. intros f Hf. destruct (Oinv_fresh i I Ht) as (Hc & _ & He & Ha & Ho). oinv_open I.
  oinv_facts; oinv_close.
Qed.

Lemma timeout_claimed now bw reason i :
  iv_terminal i = false -> iv_cleanup i = ClNone -> joining (iv_watch i) = false ->
  exists b w g, joining w = false /\ fut_done g = true
    /\ _timeout_cancel now bw reason i
       = claimed_as reason Failed b w (fut_settle g (iv_started i)) (iv_error i) i.
Proof.
  intros Ht Hc Hj. unfold _timeout_cancel. rewrite Ht.
  edestruct ensure_claimed as (b & w & Hw & ->); [exact Hc|exact Hj|].
  eexists b, w, _. by split_and!; [| |by destruct i].
Qed.

Lemma cancel_claimed now reason i :
  iv_cleanup i = ClNone -> joining (iv_watch i) = false ->
  exists b w g, joining w = false /\ fut_done g = true
    /\ _claim_explicit_cancel now reason i
       = claimed_as reason Cancelled b w (fut_settle g (iv_started i)) (iv_error i) i.
Proof.
  intros Hc Hj. unfold _claim_explicit_cancel.
  edestruct ensure_claimed as (b & w & Hw & ->); [exact Hc|exact Hj|].
  eexists b, w, _. by split_and!; [| |by destruct i].
Qed.

Lemma Oinv_timeout now reason i : Oinv i -> Oinv (_timeout_cancel now false reason i).
Proof.
  intros I. destruct (iv_terminal i) eqn:Ht; [unfold _timeout_cancel; by rewrite Ht|].
  destruct (Oinv_fresh i I Ht) as (Hc & Hj & _).
  edestruct timeout_claimed as (b & w & f & Hw & Hf & ->); [done..|]. by apply Oinv_claimed.
Qed.

Lemma Oinv_cancel now reason i :
  Oinv i -> iv_terminal i = false -> Oinv (_claim_explicit_cancel now reason i).
Proof.
  intros I Ht. destruct (Oinv_fresh i I Ht) as (Hc & Hj & _).
  edestruct cancel_claimed as (b & w & f & Hw & Hf & ->); [done..|]. by apply Oinv_claimed.
Qed.

Lemma Oinv_watch now utc p i : Oinv i -> Oinv (watch_poll now utc p i).
Proof.
  intros I.
  assert (forall reason, iv_watch i <> WJoin -> Oinv (watch_fire now reason i)) as Hfire.
  { intros reason Hn. unfold watch_fire. destruct (iv_terminal i) eqn:Ht.
    - oinv_open I. oinv_close.
    - destruct (Oinv_fresh i I Ht) as (Hc & Hj & _).
      edestruct timeout_claimed as (b & w & f & Hw & Hf & ->); [done..|]. by apply Oinv_watch_joins. }
  unfold watch_poll. destruct (iv_watch i) eqn:Hw; try done.
  - destruct (_ <=? 0); [by apply Hfire|]. oinv_open I. oinv_close.
  - destruct (match p with Some _ => _ | None => _ end); [by apply Hfire|].
    destruct (_ <=? 0); [by apply Hfire|done].
Qed.

Lemma Oinv_acquire_ends now u i : Oinv i -> Oinv (owner_acquire_ends elapsed_ms now u i).
Proof.
  intros I. unfold owner_acquire_ends. destruct (iv_owner i) eqn:Ho; try done.
  destruct (iv_owner_cancel i) eqn:Hc; [oinv_open I; oinv_close|].
  destruct (iv_terminal i) eqn:Ht.
  - unfold _fail_before_started. rewrite Ht. oinv_open I. oinv_close.
  - destruct (Oinv_fresh i I Ht) as (_ & Hj & _).
    edestruct fail_finished as (r & w & f & Hw & Hf & ->); [done..|]. by apply Oinv_finished.
Qed.

(** Before its send the log of an invocation holds no start. *)
Lemma unsent_not_live l : starts l = 0%nat -> live l = false.
Proof.
  unfold starts. induction l as [|e l IH]; [done|]. destruct e; simpl; try done; auto.
Qed.

Lemma Oinv_owner_fail now u x st release i :
  Oinv i -> iv_possible_send i = false ->
  Oinv (owner_ends (_fail_before_started elapsed_ms now u x st release i)).
Proof.
  intros I Hp. destruct (iv_terminal i) eqn:Ht.
  - unfold _fail_before_started. rewrite Ht. oinv_open I. oinv_close.
  - destruct (Oinv_fresh i I Ht) as (_ & Hj & _).
    edestruct fail_finished as (r & w & f & Hw & Hf & ->); [done..|]. apply Oinv_finished; try done.
    intros _. apply unsent_not_live. rewrite (oi_start i I). by rewrite Hp.
Qed.

Lemma Oinv_owner_finish now u st err i :
  Oinv i -> iv_possible_send i = false ->
  Oinv (owner_ends (_finish_without_engine elapsed_ms now u st err i)).
Proof.
  intros I Hp. destruct (iv_terminal i) eqn:Ht.
  - unfold _finish_without_engine. rewrite Ht. oinv_open I. oinv_close.
  - destruct (Oinv_fresh i I Ht) as (_ & Hj & _).
    edestruct finish_finished as (r & w & f & Hw & Hf & ->); [done..|]. apply Oinv_finished; try done.
    intros _. apply unsent_not_live. rewrite (oi_start i I). by rewrite Hp.
Qed.

(** A state, an error, a receipt or a result are no part of the invariant. *)
Lemma Oinv_state st i : Oinv i -> Oinv (set_iv_state st i).
Proof. intros I. oinv_open I. oinv_close. Qed.
Lemma Oinv_result r i : Oinv i -> Oinv (set_iv_result r i).
Proof. intros I. oinv_open I. oinv_close. Qed.
Lemma Oinv_retain u i : Oinv i -> Oinv (_retain_reporting elapsed_ms u i).
Proof. intros I. oinv_retain. by apply Oinv_result. Qed.
Lemma Oinv_receipt r i : Oinv i -> Oinv (set_iv_receipt r i).
Proof. intros I. oinv_open I. oinv_close. Qed.
Hint Resolve Oinv_state Oinv_result Oinv_receipt : core.

(** The owner holds the lock and goes on without having sent. *)
Lemma Oinv_owner p i :
  Oinv i -> holding (iv_owner i) = true -> iv_possible_send i = false -> iv_settle i = SeNone ->
  (holding p = true /\ unsent p = true \/ owner_done p = true) -> Oinv (set_iv_owner p i).
Proof.
  intros I Hh Hp Hnone Hx.
  assert (early p = false /\ p <> OwSend /\ p <> OwNone) as (He & Hs & Hn) by (destruct p; naive_solver).
  oinv_open I. rewrite Hh in *. oinv_facts. constructor; unfold reserved, at_end, budgeted, iv_session; cbn;
    try first [done | assumption | intros; split; solve [auto|congruence] | intros; solve [auto|congruence|exfalso; auto]].
  - intros Ha. destruct (Hca Ha) as [?|Hd]; [by left|]. destruct f_ow; done.
  - intros Hd. apply Hst in Hd. destruct f_ow; done.
Qed.
Lemma Oinv_owner_done i :
  Oinv i -> holding (iv_owner i) = true -> iv_possible_send i = false -> Oinv (owner_ends i).
Proof.
  intros I Hh Hp. apply Oinv_owner; try done; [|by right]. apply (oi_unsent i I).
  destruct (iv_owner i) eqn:E; try done. by destruct (oi_sending i I E) as [? _]; congruence.
Qed.

Lemma Oinv_build now u built prompt i :
  Oinv i -> holding (iv_owner i) = true -> iv_possible_send i = false -> iv_settle i = SeNone ->
  Oinv (owner_build elapsed_ms now u built prompt i).
Proof.
  intros I Hh Hp Hs. unfold owner_build. destruct built as [x|].
  - destruct (is_cancelled x).
    + apply Oinv_owner; try done; [by apply Oinv_state|by right].
    + apply Oinv_owner_fail; [by apply Oinv_state|done].
  - apply Oinv_owner; try done; [by apply Oinv_state|by left].
Qed.

Lemma Oinv_gate now u gate built i :
  Oinv i -> holding (iv_owner i) = true -> iv_possible_send i = false -> iv_settle i = SeNone ->
  Oinv (owner_gate elapsed_ms now u gate built i).
Proof.
  intros I Hh Hp Hs. unfold owner_gate. destruct (iv_terminal i); [by apply Oinv_owner_done|].
  destruct gate as [g|]; [|by apply Oinv_build].
  destruct (_ =? _); [by apply Oinv_owner_finish|].
  destruct (negb _); [by apply Oinv_owner_finish|by apply Oinv_build].
Qed.

Lemma Oinv_hook now u r built i : Oinv i -> Oinv (owner_hook elapsed_ms now u r built i).
Proof.
  intros I. unfold owner_hook. destruct (iv_owner i) eqn:Ho; try done.
  destruct (oi_unsent i I) as [Hp Hs]; [by rewrite Ho|].
  assert (holding (iv_owner i) = true) as Hh by by rewrite Ho.
  destruct r as [gate|x]; [by apply Oinv_gate|].
  destruct (bool_decide _); [by apply Oinv_owner_finish|].
  destruct (is_timeout x); [by apply Oinv_owner_fail|].
  destruct (is_cancelled x); [|by apply Oinv_owner_fail].
  destruct (iv_owner_cancel i); [|done]. apply Oinv_owner; try done. by right.
Qed.

Lemma Oinv_probe now utc u r i : Oinv i -> Oinv (owner_probe elapsed_ms now utc u r i).
Proof.
  intros I. unfold owner_probe. destruct (iv_owner i) as [| | | |prompt| | | |] eqn:Ho; try done.
  destruct (oi_unsent i I) as [Hp Hs]; [by rewrite Ho|].
  assert (holding (iv_owner i) = true) as Hh by by rewrite Ho.
  destruct (iv_owner_cancel i) eqn:Hc; [apply Oinv_owner; try done; by right|].
  destruct r as [x|].
  - destruct (is_cancelled x); [done|by apply Oinv_owner_finish].
  - destruct (expired utc i); [by apply Oinv_owner_fail|].
    generalize (run_catalog i) as cat. intros cat. oinv_open I. oinv_facts.
    assert (asked f_ec = false) as Ha by (destruct (asked f_ec); [by destruct Hca|done]).
    destruct f_ec; [|done..]. constructor; unfold reserved, at_end, budgeted, iv_session; cbn;
      try first [done | assumption | intros; solve [auto|congruence|exfalso; auto]].
Qed.

Lemma Oinv_fail_send now u x i :
  Oinv i -> iv_owner i = OwSend -> Oinv (owner_ends (_fail_after_possible_send elapsed_ms now u x i)).
Proof.
  intros I Ho. unfold _fail_after_possible_send. destruct (iv_terminal i) eqn:Ht.
  - oinv_open I. oinv_close.
  - destruct (negb (ambiguous x) && negb (is_timeout x)).
    + destruct (Oinv_fresh i I Ht) as (Hc & Hj & _).
      edestruct (fail_finished now u x Failed true (log (ERejected x) i)) as (r & w & f & Hw & Hf & ->); [done..|].
      apply Oinv_finished; try done. oinv_open I. oinv_facts. oinv_close.
    + destruct (Oinv_fresh i I Ht) as (Hc & Hj & _).
      edestruct (ensure_claimed now false ("unconfirmed send: " +:+ x_msg x)
        (if ambiguous x then Unknown else Failed) (set_iv_error (Some (x_msg x)) i))
        as (b & w & Hw & ->); [done..|].
      replace (owner_ends _) with (owner_ends (claimed_as ("unconfirmed send: " +:+ x_msg x)
        (if ambiguous x then Unknown else Failed) b w
        (fut_settle (FutExc x) (iv_started i)) (Some (x_msg x)) i)) by by destruct i.
      by apply Oinv_owner_ends.
Qed.

Lemma Oinv_accepted r i : Oinv i -> Oinv (log EAccepted (set_iv_receipt r i)).
Proof. intros I. oinv_open I. oinv_close. Qed.

Lemma Oinv_send now u r marked i : Oinv i -> Oinv (owner_send elapsed_ms now u r marked i).
Proof.
  intros I. unfold owner_send. destruct (iv_owner i) eqn:Ho; try done. destruct r as [receipt|x].
  - apply (Oinv_accepted (Some receipt)) in I. set (j := log EAccepted _) in *.
    assert (iv_owner j = OwSend) as Hj by (by destruct i). clearbody j. clear Ho i.
    destruct marked as [x|]; [oinv_open I; oinv_close|].
    destruct (iv_terminal j) eqn:Ht; [oinv_open I; oinv_close|].
    pose proof (fut_settle_done (FutResult (started_of (set_iv_state Running j))) (iv_started j) eq_refl) as Hf.
    assert (iv_started (set_iv_state Running j) = iv_started j) as E by by destruct j. rewrite E.
    revert Hf. generalize (fut_settle (FutResult (started_of (set_iv_state Running j))) (iv_started j)).
    intros f Hf. oinv_open I. oinv_close.
  - destruct (is_cancelled x).
    + destruct (iv_owner_cancel i) eqn:Hc; [|done]. oinv_open I. oinv_close.
    + by apply Oinv_fail_send.
Qed.

(** *** The acquired lock

    Between taking the lock and its next await the owner's own position is not read: it may be
    thought of as already holding the lock. *)
Lemma retain_owner u p i :
  _retain_reporting elapsed_ms u (set_iv_owner p i) = set_iv_owner p (_retain_reporting elapsed_ms u i).
Proof. unfold _retain_reporting. destruct i; cbn. destruct iv_result; try done. by destruct (assoc _ _). Qed.
Lemma cancel_watch_owner p i : cancel_watch (set_iv_owner p i) = set_iv_owner p (cancel_watch i).
Proof. destruct i; unfold cancel_watch; cbn. destruct iv_watch; try done. by destruct iv_cleanup. Qed.
Lemma terminate_owner now u st err p i :
  terminate elapsed_ms now u st err (set_iv_owner p i) = set_iv_owner p (terminate elapsed_ms now u st err i).
Proof. unfold terminate. rewrite <- retain_owner. by destruct i. Qed.
Lemma fail_owner now u x st release p i :
  owner_ends (_fail_before_started elapsed_ms now u x st release (set_iv_owner p i))
  = owner_ends (_fail_before_started elapsed_ms now u x st release i).
Proof.
  unfold _fail_before_started. rewrite terminate_owner, cancel_watch_owner.
  replace (iv_terminal (set_iv_owner p i)) with (iv_terminal i) by by destruct i.
  destruct (iv_terminal i); [by destruct i|]. set (j := cancel_watch _). clearbody j.
  by destruct release, j.
Qed.
Lemma build_owner now u built prompt p i :
  owner_build elapsed_ms now u built prompt (set_iv_owner p i) = owner_build elapsed_ms now u built prompt i.
Proof.
  unfold owner_build. replace (set_iv_state Sending (set_iv_owner p i))
    with (set_iv_owner p (set_iv_state Sending i)) by by destruct i.
  destruct built as [x|]; [destruct (is_cancelled x)|]; [by destruct i|apply fail_owner|by destruct i].
Qed.

Lemma Oinv_takes_lock i :
  Oinv i -> iv_owner i = OwAcquire -> Oinv (set_iv_owner OwHook (set_iv_reservation (Some (iv_session i)) i)).
Proof. intros I Ho. oinv_open I. oinv_close. Qed.

Lemma Oinv_acquired now utc u ss built i :
  Oinv i -> iv_owner i = OwAcquire -> Oinv (owner_acquired elapsed_ms now utc u ss built i).
Proof.
  intros I Ho. pose proof (oi_unsent i I) as Hun. rewrite Ho in Hun. destruct (Hun eq_refl) as [Hp Hs]. clear Hun.
  apply Oinv_takes_lock in I; [|done]. set (k := set_iv_reservation _ i) in I.
  assert (iv_possible_send k = false /\ iv_settle k = SeNone /\ iv_public k = iv_public i
    /\ iv_terminal k = iv_terminal i /\ iv_request k = iv_request i) as (Hp' & Hs' & Hpu & Ht & Hr)
    by (unfold k; by destruct i).
  unfold owner_acquired. fold k. clearbody k.
  assert (Oinv (owner_ends k)) as Hends.
  { replace (owner_ends k) with (owner_ends (set_iv_owner OwHook k)) by by destruct k.
    apply Oinv_owner_done; by destruct k. }
  assert (forall j, Oinv (set_iv_owner OwHook j) -> iv_possible_send j = false -> iv_settle j = SeNone ->
            forall prompt, Oinv (owner_build elapsed_ms now u built prompt j)) as Hbuild.
  { intros j Ij Hpj Hsj prompt. rewrite <- (build_owner now u built prompt OwHook).
    apply Oinv_build; by destruct j. }
  assert (Oinv (owner_gate elapsed_ms now u None built (set_iv_state Preparing k))) as Hgate.
  { unfold owner_gate. replace (iv_terminal (set_iv_state Preparing k)) with (iv_terminal k) by by destruct k.
    destruct (iv_terminal k).
    - replace (owner_ends (set_iv_state Preparing k)) with (set_iv_state Preparing (owner_ends k)) by by destruct k.
      by apply Oinv_state.
    - apply Hbuild; [|by destruct k..].
      replace (set_iv_owner OwHook (set_iv_state Preparing k))
        with (set_iv_state Preparing (set_iv_owner OwHook k)) by by destruct k. by apply Oinv_state. }
  destruct (iv_terminal k) eqn:Htk; [done|]. destruct (expired utc k).
  - rewrite <- (fail_owner _ _ _ _ _ OwHook). apply Oinv_owner_fail; [done|]. by destruct k.
  - assert (Oinv (set_iv_owner OwHook (set_iv_state Preparing k))) as Hhook.
    { replace (set_iv_owner OwHook (set_iv_state Preparing k))
        with (set_iv_state Preparing (set_iv_owner OwHook k)) by by destruct k. by apply Oinv_state. }
    replace (iv_public (set_iv_state Preparing k)) with (iv_public k) by by destruct k.
    destruct (session_start _); [|done]. by destruct ss.
Qed.

(** *** Settlement and cleanup *)

Lemma Oinv_settle now u r i : Oinv i -> Oinv (_hold_until_settled elapsed_ms now u r i).
Proof.
  intros I. unfold _hold_until_settled. destruct (iv_settle i) eqn:Hs; try done.
  destruct r as [[o text]|x].
  - replace (iv_terminal (set_iv_settle SeDone (log (ESettled o) i))) with (iv_terminal i) by by destruct i.
    destruct (iv_terminal i) eqn:Ht.
    + oinv_open I. oinv_facts. destruct f_ow; try done; oinv_close.
    + set (j := match o, text with EoCompleted, Some _ => _ | _, _ => _ end).
      assert (exists st r, j = set_iv_result r (set_iv_state st (set_iv_settle SeDone (log (ESettled o) i))))
        as (st & r & ->).
      { unfold j. exists (outcome_state o). destruct o, text; try (exists (iv_result i); by destruct i); eauto. }
      oinv_retain. destruct (Oinv_fresh i I Ht) as (Hc & Hj & He & _).
      edestruct cancel_watch_eq as (w & Hw & ->); [by destruct i|].
      oinv_open I. oinv_facts. destruct f_ow; try done; oinv_close.
  - destruct (iv_terminal i) eqn:Ht; [oinv_open I; oinv_facts; destruct f_ow; try done; oinv_close|].
    destruct (Oinv_fresh i I Ht) as (Hc & Hj & _).
    destruct (cancel_watch_eq i Hj) as (w & Hw & ->).
    edestruct ensure_claimed as (b & w' & Hw' & ->); [|by destruct i|]; [by destruct i|].
    pose proof (Oinv_fresh i I Ht) as (_ & _ & He & Ha & Ho).
    oinv_open I. oinv_facts. destruct f_ow; try done; oinv_close.
Qed.

Lemma Oinv_spawn i : Oinv i -> Oinv (cleanup_spawn i).
Proof. intros I. unfold cleanup_spawn. destruct (iv_cleanup i) eqn:E; try done. oinv_open I. oinv_close. Qed.

Lemma Oinv_run i : Oinv i -> Oinv (cleanup_run i).
Proof.
  intros I. unfold cleanup_run. destruct (iv_cleanup i) eqn:E; try done.
  unfold stop_verdict. oinv_open I. destruct f_ow; oinv_facts; destruct f_ec; try done; oinv_close.
Qed.

Lemma Oinv_engine_ends r i : Oinv i -> Oinv (engine_cancel_ends r i).
Proof.
  intros I. unfold engine_cancel_ends. destruct (iv_engine_cancel i) eqn:E; try done.
  oinv_open I. destruct r; oinv_facts; oinv_close.
Qed.

Lemma Oinv_forces now i : Oinv i -> Oinv (engine_forces now i).
Proof.
  intros I. unfold engine_forces. destruct (iv_engine_cancel i) eqn:E; try done.
  destruct (iv_budget i) as [b|] eqn:Hb; [|done].
  assert (confirmed (Some (mark_forced now b)) = true) as Hm.
  { unfold mark_forced, confirmed. by destruct (confirmation_deadline b) eqn:Hc; cbn; rewrite ?Hc. }
  revert Hm. generalize (mark_forced now b) as b'. intros b' Hm. oinv_open I. oinv_close.
Qed.

Lemma Oinv_stop_ended i : Oinv i -> owner_done (iv_owner i) = true -> Oinv (set_iv_owner_stop (stop_verdict i) i).
Proof.
  intros I Ho. unfold stop_verdict. oinv_open I. destruct f_ow; try done; oinv_facts; oinv_close.
Qed.
Lemma Oinv_stop_late p i : Oinv i -> stopped p = false -> Oinv (set_iv_owner_stop p i).
Proof. intros I Hp. oinv_open I. oinv_facts. oinv_close. Qed.

Lemma Oinv_stop now i : Oinv i -> Oinv (stop_wakes now i).
Proof.
  intros I. unfold stop_wakes.
  destruct (iv_owner_stop i) eqn:E, (iv_budget i); try done;
    (destruct (owner_done (iv_owner i)) eqn:Ho; [by apply Oinv_stop_ended|]).
  - destruct (_ <=? _); [|done]. destruct (confirmation_deadline _); by apply Oinv_stop_late.
  - destruct (past _ _); [|done]. by apply Oinv_stop_late.
Qed.

Lemma Oinv_uncertain now u reason why i :
  Oinv i -> launched (iv_cleanup i) = true -> Oinv (uncertain_end elapsed_ms now u reason why i).
Proof.
  intros I Hl. unfold uncertain_end. oinv_retain.
  assert (unclaimed (iv_cleanup i) = false) as Hu by (by destruct (iv_cleanup i)).
  oinv_open I. destruct f_cl; try done; oinv_facts; oinv_close.
Qed.

Lemma Oinv_verdict now u reason st i :
  Oinv i -> launched (iv_cleanup i) = true -> Oinv (cleanup_verdict elapsed_ms now u reason st i).
Proof.
  intros I Hl. unfold cleanup_verdict, engine_result, stop_result.
  destruct (iv_engine_cancel i) as [| |[x|]] eqn:He, (iv_owner_stop i) as [| | | |[y|]] eqn:Hs;
    try by apply Oinv_uncertain.
  oinv_retain. assert (unclaimed (iv_cleanup i) = false) as Hu by (by destruct (iv_cleanup i)).
  oinv_open I. destruct f_cl; try done; oinv_facts; destruct f_ow; try done; oinv_facts; oinv_close.
Qed.

Lemma Oinv_cleanup now u i : Oinv i -> Oinv (cleanup_wakes elapsed_ms now u i).
Proof.
  intros I. unfold cleanup_wakes. destruct (iv_cleanup i) eqn:E; try done;
    destruct (iv_budget i) as [b|] eqn:Hb; try done.
  - destruct (both_ended i); [apply Oinv_verdict; [done|by rewrite E]|].
    destruct (_ <=? _); [|done]. destruct (confirmation_deadline b) eqn:Hd.
    + assert (confirmed (Some b) = true) as Hm by (unfold confirmed; by rewrite Hd).
      clear Hd. oinv_open I. oinv_close.
    + apply Oinv_verdict; [done|by rewrite E].
  - destruct (_ || _); [|done]. apply Oinv_verdict; [done|by rewrite E].
Qed.

Lemma Oinv_new p r run_id s : Oinv (new_invocation p r run_id s).
Proof. constructor; done. Qed.
Lemma Oinv_adopted p v st now : Oinv (adopted p v st now).
Proof. constructor; try done. intros _. unfold adopted; cbn. by destruct (sv_started v). Qed.
End segments.
