(* ===== verification/ExecutionSteps.v ===== *)
(** * execution/service.py: how invocations evolve, and the invariant of the service

    [evolves] is what no segment may break: a request and its receipt are fixed, a reservation
    can only be given up, an ended record is final, the log only grows. *)

From stdpp Require Import fin_sets gmap.
From S2P Require Import Prelude Sha256 PyJson Config Public StateRefs Effects Storage Wire Tokens Sessions Execution ExecutionInv.
Local Open Scope Z_scope.

(** What a caller of [status] or of the [started] future sees at the end. *)
Definition outcome_of (i : Invocation) :=
  (iv_state i, iv_error i, iv_result i, iv_terminal_at i, iv_started i).
(** What the admission fixed. *)
Definition identity_of (i : Invocation) :=
  (iv_request i, iv_public i, iv_catalog i, iv_run_id i, iv_received_at i).

Record evolves (i j : Invocation) : Prop := mkEvolves {
  ev_identity : identity_of j = identity_of i;
  ev_terminal : iv_terminal i = true -> iv_terminal j = true;
  ev_started : fut_done (iv_started i) = true -> iv_started j = iv_started i;
  ev_final : at_end i = true -> outcome_of j = outcome_of i;
  ev_log : exists l, iv_log j = l ++ iv_log i
}.
Definition gives_up (i j : Invocation) : Prop :=
  iv_reservation j = iv_reservation i \/ iv_reservation j = None.

#[global] Instance evolves_refl : Reflexive evolves.
Proof. intros i. constructor; auto. by exists []. Qed.
#[global] Instance evolves_trans : Transitive evolves.
Proof.
  intros i j k [H1 H2 H3 H4 [l Hl]] [K1 K2 K3 K4 [m Hm]]. constructor.
  - congruence.
  - auto.
  - intros H. rewrite K3; [auto|]. by rewrite H3.
  - intros H. pose proof (H4 H) as E. rewrite <- E. apply K4. unfold outcome_of, at_end in *.
    injection E as _ _ _ Ht _. by rewrite Ht.
  - exists (m ++ l). by rewrite Hm, Hl, app_assoc.
Qed.

Section segments.
Context (elapsed_ms : Z -> json).

Ltac ev_close :=
  match goal with i : Invocation |- _ => destruct i end; cbn in *;
  split; [constructor; cbn; try done; try by exists [] | try (by left); try (by right)].
Ltac ev := match goal with |- evolves ?i _ /\ _ => ev_close end.

(** Positions, budgets and logs are free to move. *)
Lemma ev_owner p i : evolves i (set_iv_owner p i) /\ gives_up i (set_iv_owner p i).
Proof. unfold gives_up. ev. Qed.
Lemma ev_watch p i : evolves i (set_iv_watch p i) /\ gives_up i (set_iv_watch p i).
Proof. unfold gives_up. ev. Qed.
Lemma ev_log_obs e i : evolves i (log e i) /\ gives_up i (log e i).
Proof. unfold gives_up. ev. by exists [e]. Qed.

Lemma ev_then i j k :
  evolves i j /\ gives_up i j -> evolves j k /\ gives_up j k -> evolves i k /\ gives_up i k.
Proof.
  unfold gives_up. intros [E G] [F H]. split; [by trans j|]. destruct H as [->|]; auto.
Qed.
Lemma ev_same i : evolves i i /\ gives_up i i.
Proof. split; [done|by left]. Qed.
Hint Resolve ev_same ev_owner ev_watch ev_log_obs : core.
Hint Extern 2 (evolves _ (owner_ends _) /\ _) => apply ev_owner : core.

Lemma fut_settle_same g f : fut_done f = true -> fut_settle g f = f.
Proof. intros H. unfold fut_settle. by rewrite H. Qed.

Lemma ev_finished now st err r w g release i :
  at_end i = false ->
  evolves i (finished now st err r w (fut_settle g (iv_started i)) release i)
  /\ gives_up i (finished now st err r w (fut_settle g (iv_started i)) release i).
Proof.
  intros Ha. unfold gives_up, finished. split.
  - destruct release, i; (constructor; cbn in *; [done..| |by rewrite Ha|by exists []]);
      apply fut_settle_same.
  - destruct release, i; cbn; auto.
Qed.
Lemma ev_claimed reason st b w g err i :
  at_end i = false ->
  evolves i (claimed_as reason st b w (fut_settle g (iv_started i)) err i)
  /\ gives_up i (claimed_as reason st b w (fut_settle g (iv_started i)) err i).
Proof.
  intros Ha. unfold gives_up, claimed_as, claimed. split.
  - destruct i; (constructor; cbn in *; [done..| |by rewrite Ha|by exists []]); apply fut_settle_same.
  - destruct i; cbn; auto.
Qed.

Lemma ev_fail now u x st release i :
  Oinv i -> evolves i (_fail_before_started elapsed_ms now u x st release i)
            /\ gives_up i (_fail_before_started elapsed_ms now u x st release i).
Proof.
  intros I. destruct (iv_terminal i) eqn:Ht.
  - unfold _fail_before_started. by rewrite Ht.
  - destruct (Oinv_fresh i I Ht) as (_ & Hj & _ & Ha & _).
    destruct (fail_finished elapsed_ms now u x st release i Ht Hj) as (r & w & g & _ & _ & ->).
    by apply ev_finished.
Qed.
Lemma ev_finish now u st err i :
  Oinv i -> evolves i (_finish_without_engine elapsed_ms now u st err i)
            /\ gives_up i (_finish_without_engine elapsed_ms now u st err i).
Proof.
  intros I. destruct (iv_terminal i) eqn:Ht.
  - unfold _finish_without_engine. by rewrite Ht.
  - destruct (Oinv_fresh i I Ht) as (_ & Hj & _ & Ha & _).
    destruct (finish_finished elapsed_ms now u st err i Ht Hj) as (r & w & g & _ & _ & ->).
    by apply ev_finished.
Qed.
Lemma ev_timeout now bw reason i :
  Oinv i -> evolves i (_timeout_cancel now bw reason i) /\ gives_up i (_timeout_cancel now bw reason i).
Proof.
  intros I. destruct (iv_terminal i) eqn:Ht.
  - unfold _timeout_cancel. by rewrite Ht.
  - destruct (Oinv_fresh i I Ht) as (Hc & Hj & _ & Ha & _).
    destruct (timeout_claimed now bw reason i Ht Hc Hj) as (b & w & g & _ & _ & ->). by apply ev_claimed.
Qed.
Lemma ev_cancel now reason i :
  Oinv i -> iv_terminal i = false ->
  evolves i (_claim_explicit_cancel now reason i) /\ gives_up i (_claim_explicit_cancel now reason i).
Proof.
  intros I Ht. destruct (Oinv_fresh i I Ht) as (Hc & Hj & _ & Ha & _).
  destruct (cancel_claimed now reason i Hc Hj) as (b & w & g & _ & _ & ->). by apply ev_claimed.
Qed.
Lemma ev_watch_poll now utc p i :
  Oinv i -> evolves i (watch_poll now utc p i) /\ gives_up i (watch_poll now utc p i).
Proof.
  intros I.
  assert (forall reason, evolves i (watch_fire now reason i) /\ gives_up i (watch_fire now reason i)) as Hf.
  { intros reason. unfold watch_fire. destruct (iv_terminal i); [auto|].
    eapply ev_then; [by apply ev_timeout|auto]. }
  unfold watch_poll. destruct (iv_watch i); auto.
  - destruct (_ <=? 0); auto.
  - destruct (match p with Some _ => _ | None => _ end); [auto|]. destruct (_ <=? 0); auto.
Qed.

Lemma ev_begin now utc u i :
  Oinv i -> evolves i (owner_begin elapsed_ms now utc u i) /\ gives_up i (owner_begin elapsed_ms now utc u i).
Proof.
  intros I. unfold owner_begin. destruct (iv_owner i); auto.
  destruct (iv_owner_cancel i); auto. destruct (expired utc i); auto.
  eapply ev_then; [by apply ev_fail|auto].
Qed.
Lemma ev_acquire_ends now u i :
  Oinv i -> evolves i (owner_acquire_ends elapsed_ms now u i) /\ gives_up i (owner_acquire_ends elapsed_ms now u i).
Proof.
  intros I. unfold owner_acquire_ends. destruct (iv_owner i); auto.
  destruct (iv_owner_cancel i); auto. eapply ev_then; [by apply ev_fail|auto].
Qed.

(** A state may change while the invocation is not terminal. *)
Lemma ev_state st i :
  Oinv i -> iv_terminal i = false -> evolves i (set_iv_state st i) /\ gives_up i (set_iv_state st i).
Proof.
  intros I Ht. destruct (Oinv_fresh i I Ht) as (_ & _ & _ & Ha & _). unfold gives_up.
  destruct i; cbn in *. split; [|by left]. constructor; cbn; try done; first [by rewrite Ha|by exists []].
Qed.

Lemma ev_build now u built prompt i :
  Oinv i -> iv_terminal i = false ->
  evolves i (owner_build elapsed_ms now u built prompt i) /\ gives_up i (owner_build elapsed_ms now u built prompt i).
Proof.
  intros I Ht. unfold owner_build. eapply ev_then; [by apply (ev_state Sending)|].
  destruct built as [x|]; [|auto]. destruct (is_cancelled x); [auto|].
  eapply ev_then; [by apply ev_fail, Oinv_state|auto].
Qed.
Lemma ev_gate now u gate built i :
  Oinv i ->
  evolves i (owner_gate elapsed_ms now u gate built i) /\ gives_up i (owner_gate elapsed_ms now u gate built i).
Proof.
  intros I. unfold owner_gate. destruct (iv_terminal i) eqn:Ht; [auto|].
  destruct gate as [g|]; [|by apply ev_build].
  destruct (_ =? _); [eapply ev_then; [by apply ev_finish|auto]|].
  destruct (negb _); [eapply ev_then; [by apply ev_finish|auto]|by apply ev_build].
Qed.
Lemma ev_hook now u r built i :
  Oinv i ->
  evolves i (owner_hook elapsed_ms now u r built i) /\ gives_up i (owner_hook elapsed_ms now u r built i).
Proof.
  intros I. unfold owner_hook. destruct (iv_owner i); auto. destruct r as [gate|x]; [by apply ev_gate|].
  destruct (bool_decide _); [eapply ev_then; [by apply ev_finish|auto]|].
  destruct (is_timeout x); [eapply ev_then; [by apply ev_fail|auto]|].
  destruct (is_cancelled x); [destruct (iv_owner_cancel i); auto|].
  eapply ev_then; [by apply ev_fail|auto].
Qed.
Lemma ev_probe now utc u r i :
  Oinv i ->
  evolves i (owner_probe elapsed_ms now utc u r i) /\ gives_up i (owner_probe elapsed_ms now utc u r i).
Proof.
  intros I. unfold owner_probe. destruct (iv_owner i); auto. destruct (iv_owner_cancel i); auto.
  destruct r as [x|].
  - destruct (is_cancelled x); [auto|]. eapply ev_then; [by apply ev_finish|auto].
  - destruct (expired utc i); [eapply ev_then; [by apply ev_fail|auto]|].
    eapply ev_then; [|auto]. eapply ev_then; [|apply ev_log_obs]. unfold gives_up. ev.
Qed.
Lemma ev_fail_send now u x i :
  Oinv i -> evolves i (_fail_after_possible_send elapsed_ms now u x i)
            /\ gives_up i (_fail_after_possible_send elapsed_ms now u x i).
Proof.
  intros I. unfold _fail_after_possible_send. destruct (iv_terminal i) eqn:Ht; [auto|].
  destruct (Oinv_fresh i I Ht) as (Hc & Hj & _ & Ha & _). destruct (negb _ && negb _).
  - destruct (fail_finished elapsed_ms now u x Failed true (log (ERejected x) i)) as (r & w & g & _ & _ & ->);
      [by destruct i..|]. eapply ev_then; [apply (ev_log_obs (ERejected x))|]. apply ev_finished. by destruct i.
  - destruct (ensure_claimed now false ("unconfirmed send: " +:+ x_msg x)
        (if ambiguous x then Unknown else Failed) (set_iv_error (Some (x_msg x)) i))
        as (b & w & _ & ->); [by destruct i..|].
    replace (set_iv_started _ _) with (claimed_as ("unconfirmed send: " +:+ x_msg x)
        (if ambiguous x then Unknown else Failed) b w
        (fut_settle (FutExc x) (iv_started i)) (Some (x_msg x)) i) by by destruct i.
    by apply ev_claimed.
Qed.
Lemma ev_send now u r marked i :
  Oinv i -> evolves i (owner_send elapsed_ms now u r marked i)
            /\ gives_up i (owner_send elapsed_ms now u r marked i).
Proof.
  intros I. unfold owner_send. destruct (iv_owner i); auto. destruct r as [receipt|x].
  - assert (evolves i (log EAccepted (set_iv_receipt (Some receipt) i))
            /\ gives_up i (log EAccepted (set_iv_receipt (Some receipt) i))) as Hj.
    { eapply ev_then; [|apply ev_log_obs]. unfold gives_up. ev. }
    pose proof (Oinv_accepted (Some receipt) i I) as Ij. revert Hj Ij.
    generalize (log EAccepted (set_iv_receipt (Some receipt) i)) as j. intros j Hj Ij.
    eapply ev_then; [exact Hj|]. clear i I Hj. destruct marked as [x|]; [auto|].
    destruct (iv_terminal j) eqn:Ht; [auto|]. eapply ev_then; [by apply (ev_state Running)|].
    eapply ev_then; [|auto]. set (g := FutResult _). clearbody g.
    pose proof (Oinv_state Running j Ij) as Ik.
    assert (at_end (set_iv_state Running j) = false) as Ha by (apply Oinv_fresh; [done|by destruct j]).
    revert Ha. generalize (set_iv_state Running j) as k. intros k Ha. unfold gives_up.
    destruct k; cbn in *. split; [|by left].
    constructor; cbn; [done..|apply fut_settle_same|by rewrite Ha|by exists []].
  - destruct (is_cancelled x); [destruct (iv_owner_cancel i); auto|].
    eapply ev_then; [by apply ev_fail_send|auto].
Qed.

Lemma ev_settle now u r i :
  Oinv i -> evolves i (_hold_until_settled elapsed_ms now u r i)
            /\ gives_up i (_hold_until_settled elapsed_ms now u r i).
Proof.
  intros I. unfold _hold_until_settled. destruct (iv_settle i) eqn:Hs; auto.
  destruct r as [[o text]|x].
  - assert (evolves i (set_iv_settle SeDone (log (ESettled o) i))
            /\ gives_up i (set_iv_settle SeDone (log (ESettled o) i))) as Hk.
    { eapply ev_then; [apply (ev_log_obs (ESettled o))|]. unfold gives_up. ev. }
    assert (iv_terminal (set_iv_settle SeDone (log (ESettled o) i)) = iv_terminal i) as -> by by destruct i.
    destruct (iv_terminal i) eqn:Ht; [auto|]. eapply ev_then; [exact Hk|].
    destruct (Oinv_fresh i I Ht) as (_ & Hj & _ & Ha & _).
    assert (at_end (set_iv_settle SeDone (log (ESettled o) i)) = false
            /\ joining (iv_watch (set_iv_settle SeDone (log (ESettled o) i))) = false) as [Hb Hc] by by destruct i.
    revert Hb Hc. generalize (set_iv_settle SeDone (log (ESettled o) i)) as k. clear. intros k Ha Hj.
    assert (forall st r, evolves k (_release_session_lock (cancel_watch (_retain_reporting elapsed_ms u
              (set_iv_terminal_at (Some now) (set_iv_terminal true (set_iv_result r (set_iv_state st k)))))))
            /\ gives_up k (_release_session_lock (cancel_watch (_retain_reporting elapsed_ms u
              (set_iv_terminal_at (Some now) (set_iv_terminal true (set_iv_result r (set_iv_state st k)))))))) as Hg.
    { intros st r. destruct (retain_result elapsed_ms u (set_iv_terminal_at (Some now)
        (set_iv_terminal true (set_iv_result r (set_iv_state st k))))) as [r' ->].
      edestruct cancel_watch_eq as (w & _ & ->); [by destruct k|]. unfold gives_up.
      destruct k; cbn in *. split; [|by right]. constructor; cbn; try done; first [by rewrite Ha|by exists []]. }
    assert (set_iv_state (outcome_state o) k
            = set_iv_result (iv_result k) (set_iv_state (outcome_state o) k)) as E by by destruct k.
    destruct o, text; try (rewrite E at 1 2); apply Hg.
  - destruct (iv_terminal i) eqn:Ht; [unfold gives_up; ev|].
    destruct (Oinv_fresh i I Ht) as (Hc & Hj & _ & Ha & _).
    destruct (cancel_watch_eq i Hj) as (w & Hw & ->).
    destruct (ensure_claimed now false ("settlement lost: " +:+ x_msg x) Unknown (set_iv_watch w i))
      as (b & w' & _ & ->); [by destruct i..|]. unfold gives_up, claimed.
    destruct i; cbn in *. split; [|by left]. constructor; cbn; try done; first [by rewrite Ha|by exists []].
Qed.

Lemma ev_spawn i : evolves i (cleanup_spawn i) /\ gives_up i (cleanup_spawn i).
Proof. unfold cleanup_spawn. destruct (iv_cleanup i); auto. unfold gives_up. ev. Qed.
Lemma ev_run i : evolves i (cleanup_run i) /\ gives_up i (cleanup_run i).
Proof.
  unfold cleanup_run. destruct (iv_cleanup i); auto. unfold stop_verdict, gives_up.
  destruct i; cbn. destruct iv_owner; cbn; (split; [|by left]); constructor; cbn; try done; by exists [ECancel].
Qed.
Lemma ev_engine_ends r i : evolves i (engine_cancel_ends r i) /\ gives_up i (engine_cancel_ends r i).
Proof.
  unfold engine_cancel_ends. destruct (iv_engine_cancel i); auto. unfold gives_up.
  destruct r, i; cbn; (split; [|by left]); constructor; cbn; try done; first [by exists []|by exists [EHalted]].
Qed.
Lemma ev_forces now i : evolves i (engine_forces now i) /\ gives_up i (engine_forces now i).
Proof.
  unfold engine_forces. destruct (iv_engine_cancel i); auto. destruct (iv_budget i); auto. unfold gives_up. ev.
Qed.
Lemma ev_stop_set p i : evolves i (set_iv_owner_stop p i) /\ gives_up i (set_iv_owner_stop p i).
Proof. unfold gives_up. ev. Qed.
Hint Resolve ev_stop_set : core.
Lemma ev_stop now i : evolves i (stop_wakes now i) /\ gives_up i (stop_wakes now i).
Proof.
  unfold stop_wakes. destruct (iv_owner_stop i), (iv_budget i); auto; destruct (owner_done _); auto.
  - destruct (_ <=? _); auto. destruct (confirmation_deadline _); auto.
  - destruct (past _ _); auto.
Qed.
Lemma ev_verdict now u reason st i :
  at_end i = false ->
  evolves i (cleanup_verdict elapsed_ms now u reason st i)
  /\ gives_up i (cleanup_verdict elapsed_ms now u reason st i).
Proof.
  intros Ha. assert (forall why, evolves i (uncertain_end elapsed_ms now u reason why i)
    /\ gives_up i (uncertain_end elapsed_ms now u reason why i)) as Hu.
  { intros why. unfold uncertain_end. set (err := _ +:+ _). clearbody err.
    destruct (retain_result elapsed_ms u (set_iv_terminal_at (Some now) (set_iv_error (Some err)
      (set_iv_state Unknown i)))) as [r ->]. unfold gives_up.
    destruct i; cbn in *. split; [|by left]. constructor; cbn; try done; first [by rewrite Ha|by exists []]. }
  unfold cleanup_verdict. destruct (engine_result i) as [[|]|], (stop_result i) as [[|]|]; auto.
  set (err := str_or _ _). clearbody err.
  destruct (retain_result elapsed_ms u (set_iv_terminal_at (Some now) (set_iv_error (Some err)
      (set_iv_state st i)))) as [r ->]. unfold gives_up.
  destruct i; cbn in *. split; [|by right]. constructor; cbn; try done; first [by rewrite Ha|by exists []].
Qed.
Lemma ev_cleanup now u i :
  Oinv i -> evolves i (cleanup_wakes elapsed_ms now u i) /\ gives_up i (cleanup_wakes elapsed_ms now u i).
Proof.
  intros I. unfold cleanup_wakes.
  assert (working (iv_cleanup i) = true -> at_end i = false) as Ha.
  { intros Hw. destruct (oi_claimed i I) as [Ht _]; [by destruct (iv_cleanup i)|].
    rewrite (oi_final i I Ht). by rewrite Hw. }
  destruct (iv_cleanup i); auto; destruct (iv_budget i); auto.
  - destruct (both_ended i); [by apply ev_verdict, Ha|]. destruct (_ <=? _); auto.
    destruct (confirmation_deadline _); [unfold gives_up; ev|by apply ev_verdict, Ha].
  - destruct (_ || _); auto. by apply ev_verdict, Ha.
Qed.
End segments.

(** ** The service *)

Record Inv (s : Service) : Prop := mkInvS {
  in_objs : forall o i, objs s !! o = Some i -> Oinv i;
  in_locked : forall o i l, objs s !! o = Some i -> iv_reservation i = Some l -> l ∈ locked s /\ l ∉ archiving s;
  in_excl : forall o o' i i' l, objs s !! o = Some i -> objs s !! o' = Some i' ->
    iv_reservation i = Some l -> iv_reservation i' = Some l -> o = o';
  in_arch : archiving s ⊆ locked s;
  in_next : forall o, is_Some (objs s !! o) -> (o < next_id s)%nat;
  in_dict : forall k o, In (k, o) (invocations s) ->
    exists i, objs s !! o = Some i /\ sr_invocation_id (iv_request i) = k;
  in_keys : NoDup (map fst (invocations s));
  in_ids : NoDup (map snd (invocations s))
}.

(** Objects are never dropped, and evolve. *)
Definition sevolves (s s' : Service) : Prop :=
  forall o i, objs s !! o = Some i -> exists j, objs s' !! o = Some j /\ evolves i j.
#[global] Instance sevolves_refl : Reflexive sevolves.
Proof. intros s o i H. by exists i. Qed.
#[global] Instance sevolves_trans : Transitive sevolves.
Proof.
  intros s1 s2 s3 H12 H23 o i Hi. destruct (H12 o i Hi) as (j & Hj & Eij).
  destruct (H23 o j Hj) as (k & Hk & Ejk). exists k. split; [done|]. by trans j.
Qed.

Lemma Inv_same s s' :
  objs s' = objs s -> locked s' = locked s -> archiving s' = archiving s -> next_id s' = next_id s ->
  invocations s' = invocations s -> Inv s -> Inv s' /\ sevolves s s'.
Proof.
  intros Ho Hl Ha Hn Hi [H1 H2 H3 H4 H5 H6 H7 H8].
  split; [constructor; rewrite ?Ho, ?Hl, ?Ha, ?Hn, ?Hi; done|].
  intros o i Hoi. exists i. by rewrite Ho.
Qed.

(** Writing an invocation back: it may give its reservation up, or take a free lock. *)
Lemma Inv_commit o i i' s :
  Inv s -> objs s !! o = Some i -> Oinv i' -> identity_of i' = identity_of i ->
  (gives_up i i' \/ iv_reservation i = None /\ forall l, iv_reservation i' = Some l -> l ∉ locked s) ->
  Inv (commit o i i' s).
Proof.
  intros [H1 H2 H3 H4 H5 H6 H7 H8] Hi HO Hid Hr.
  assert (forall l, l ∈ lock_change (iv_reservation i) (iv_reservation i') (locked s) <->
            (l ∈ locked s /\ (iv_reservation i = Some l -> iv_reservation i' = Some l))
            \/ iv_reservation i' = Some l) as Hlock.
  { intros l. unfold gives_up in Hr. destruct (iv_reservation i) as [k|] eqn:Ek, (iv_reservation i') as [k'|] eqn:Ek';
      cbn [lock_change].
    - destruct Hr as [[[= ->]|]|[]]; [|done..]. pose proof (H2 o i k Hi Ek) as [? _]. naive_solver.
    - rewrite elem_of_difference, elem_of_singleton. naive_solver.
    - rewrite elem_of_union, elem_of_singleton. naive_solver.
    - naive_solver. }
  assert (forall o' j l, o' <> o -> objs s !! o' = Some j -> iv_reservation j = Some l ->
            l ∈ lock_change (iv_reservation i) (iv_reservation i') (locked s) /\ iv_reservation i' <> Some l) as Hother.
  { intros o' j l Hne Hj Hl. destruct (H2 o' j l Hj Hl) as [Hin _].
    assert (iv_reservation i' <> Some l) as Hn.
    { intros Hl'. destruct Hr as [[Hr|Hr]|[Hr Hf]]; [|congruence|by apply (Hf l)].
      apply Hne. apply (H3 o' o j i l); congruence. }
    split; [|done]. apply Hlock. left. split; [done|]. intros Hl'. exfalso.
    apply Hne. by apply (H3 o' o j i l). }
  unfold commit. constructor; cbn [objs locked archiving next_id invocations put_locked put_objs].
  - intros o' j. rewrite lookup_insert_Some. intros [[_ <-]|[_ Hj]]; eauto.
  - intros o' j l. rewrite lookup_insert_Some. intros [[<- <-]|[Hne Hj]] Hl.
    + split; [apply Hlock; by right|]. destruct Hr as [[Hr|Hr]|[Hr Hf]]; [|congruence|].
      * apply (H2 o i l Hi). congruence.
      * intros Ha. apply (Hf l Hl). by apply H4.
    + split; [by apply (Hother o' j l)|by apply (H2 o' j l)].
  - intros o1 o2 j1 j2 l. rewrite !lookup_insert_Some.
    intros [[<- <-]|[Hne1 Hj1]] [[<- <-]|[Hne2 Hj2]] Hl1 Hl2; [done|..].
    + exfalso. by apply (Hother o2 j2 l).
    + exfalso. by apply (Hother o1 j1 l).
    + by apply (H3 o1 o2 j1 j2 l).
  - intros l Hl. apply Hlock. left. split; [by apply H4|]. intros Hk. exfalso.
    destruct (H2 o i l Hi Hk). done.
  - intros o'. rewrite lookup_insert_is_Some. intros [<-|[_ Ho']]; apply H5; [by exists i|done].
  - intros k o' Hin. destruct (H6 k o' Hin) as (j & Hj & Hk).
    destruct (decide (o' = o)) as [->|Hne].
    + exists i'. rewrite lookup_insert_eq. split; [done|]. rewrite Hi in Hj. injection Hj as <-.
      unfold identity_of in Hid. by injection Hid as -> _ _ _ _.
    + exists j. by rewrite lookup_insert_ne.
  - done.
  - done.
Qed.

Lemma sevolves_commit o i i' s : objs s !! o = Some i -> evolves i i' -> sevolves s (commit o i i' s).
Proof.
  intros Hi He o' j Hj. unfold commit. cbn. destruct (decide (o = o')) as [<-|Hne].
  - rewrite lookup_insert_eq. exists i'. by rewrite Hi in Hj; injection Hj as <-.
  - rewrite lookup_insert_ne by done. by exists j.
Qed.

Lemma Inv_segment o f s :
  Inv s -> (forall i, objs s !! o = Some i -> Oinv i -> Oinv (f i) /\ evolves i (f i) /\ gives_up i (f i)) ->
  Inv (segment o f s) /\ sevolves s (segment o f s).
Proof.
  intros I Hf. unfold segment. destruct (objs s !! o) as [i|] eqn:Hi; [|by split].
  destruct (Hf i eq_refl (in_objs s I o i Hi)) as (HO & He & Hg). split.
  - apply Inv_commit; try done; [by apply He|by left].
  - by apply sevolves_commit.
Qed.

Lemma Inv_add k i s :
  Inv s -> Oinv i -> iv_reservation i = None -> sr_invocation_id (iv_request i) = k ->
  assoc k (invocations s) = None -> Inv (add_invocation k i s) /\ sevolves s (add_invocation k i s).
Proof.
  intros [H1 H2 H3 H4 H5 H6 H7 H8] HO Hr Hk Hnew.
  assert (objs s !! next_id s = None) as Hfree.
  { destruct (objs s !! next_id s) eqn:E; [|done]. assert (next_id s < next_id s)%nat; [|lia]. apply H5. by eexists. }
  split; [constructor; cbn|].
  - intros o j. rewrite lookup_insert_Some. intros [[_ <-]|[_ Hj]]; eauto.
  - intros o j l. rewrite lookup_insert_Some. intros [[_ <-]|[_ Hj]] Hl; [congruence|eauto].
  - intros o o' j j' l. rewrite !lookup_insert_Some.
    intros [[_ <-]|[_ Hj]] [[_ <-]|[_ Hj']] Hl Hl'; try congruence. eauto.
  - done.
  - intros o. rewrite lookup_insert_is_Some. intros [<-|[_ Ho]]; [lia|]. apply H5 in Ho. lia.
  - intros k' o. rewrite in_app_iff. intros [Hin|[[= <- <-]|[]]].
    + destruct (H6 k' o Hin) as (j & Hj & Hkj). exists j. split; [|done].
      rewrite lookup_insert_ne; [done|]. intros <-. congruence.
    + exists i. by rewrite lookup_insert_eq.
  - rewrite map_app. cbn. apply NoDup_app. split_and!; [done| |apply NoDup_singleton].
    intros k' Hin ->%list_elem_of_singleton. apply list_elem_of_In, in_map_iff in Hin as ((k' & o) & Hk' & Hin).
    cbn in Hk'. subst k'. clear -Hnew Hin.
    induction (invocations s) as [|[k2 o2] d IH]; [done|]. cbn in *.
    destruct (String.eqb_spec k k2); [done|].
    destruct Hin as [[= <- <-]|Hin]; [done|auto].
  - rewrite map_app. cbn. apply NoDup_app. split_and!; [done| |apply NoDup_singleton].
    intros o Hin ->%list_elem_of_singleton. apply list_elem_of_In, in_map_iff in Hin as ((k' & o) & Ho & Hin).
    cbn in Ho. subst o. destruct (H6 k' _ Hin) as (j & Hj & _). congruence.
  - intros o j Hj. exists j. cbn. rewrite lookup_insert_ne; [done|]. intros <-. congruence.
Qed.

(** Dropping records from the registry. *)
Lemma Inv_drop (P : string * nat -> bool) s :
  Inv s -> Inv (put_invocations (filter (fun ko => P ko = true) (invocations s)) s)
  /\ sevolves s (put_invocations (filter (fun ko => P ko = true) (invocations s)) s).
Proof.
  intros [H1 H2 H3 H4 H5 H6 H7 H8].
  assert (forall {B} (f : string * nat -> B), NoDup (map f (invocations s)) ->
    NoDup (map f (filter (fun ko => P ko = true) (invocations s)))) as Hnd.
  { intros B f. clear. induction (invocations s) as [|x d IH]; [done|].
    rewrite filter_cons. cbn [map]. rewrite NoDup_cons. intros [Hx Hd]. destruct (decide (P x = true)); [|auto]. cbn [map]. apply NoDup_cons. split; [|auto].
    intros Hin. apply Hx. apply list_elem_of_fmap in Hin as (y & -> & Hin).
    apply list_elem_of_filter in Hin as [_ Hin]. apply list_elem_of_fmap. by exists y. }
  split; [|intros o i Hi; by exists i]. constructor; cbn; try done; [|by apply Hnd..].
  intros k o Hin. apply H6. apply list_elem_of_In, list_elem_of_filter in Hin as [_ Hin].
  by apply list_elem_of_In.
Qed.

Section steps.
Context (own_workspace_ref : option string) (elapsed_ms : Z -> json).

Abbreviation start := (start own_workspace_ref).
Abbreviation step := (step own_workspace_ref elapsed_ms).
Abbreviation reachable := (reachable own_workspace_ref elapsed_ms).

Lemma find_invocation_None k s : Inv s -> find_invocation k s = None -> assoc k (invocations s) = None.
Proof.
  unfold find_invocation. intros I. destruct (assoc k (invocations s)) as [o|] eqn:E; [|done].
  apply assoc_in in E. destruct (in_dict s I k o E) as (i & Hi & _). by rewrite Hi.
Qed.
Lemma find_invocation_Some k o i s :
  find_invocation k s = Some (o, i) -> In (k, o) (invocations s) /\ objs s !! o = Some i.
Proof.
  unfold find_invocation. destruct (assoc k (invocations s)) as [o'|] eqn:E; [|done].
  destruct (objs s !! o') as [i'|] eqn:Hi; [|done]. cbn. intros [= -> ->]. by apply assoc_in in E.
Qed.

Lemma assoc_filter_none {A} k (P : string * A -> bool) (d : list (string * A)) :
  assoc k d = None -> assoc k (filter (fun ko => P ko = true) d) = None.
Proof.
  induction d as [|[k' v] d IH]; [done|]. cbn [assoc]. rewrite filter_cons.
  destruct (String.eqb_spec k k'); [done|]. intros H.
  destruct (decide _); [|auto]. cbn [assoc]. destruct (String.eqb_spec k k'); [done|auto].
Qed.

Lemma reserve_ok s s' : _reserve_capacity s = Ok s' ->
  exists P : string * nat -> bool, s' = put_invocations (filter (fun ko => P ko = true) (invocations s)) s.
Proof.
  unfold _reserve_capacity. destruct (_ <? _)%nat.
  - intros [= <-]. exists (fun _ => true).
    assert (filter (fun _ : string * nat => true = true) (invocations s) = invocations s) as ->; [|by destruct s].
    induction (invocations s) as [|x d IH]; [done|]. rewrite filter_cons_True by done. by rewrite IH.
  - destruct (evictable_keys s) as [|k ks]; [done|]. intros [= <-].
    exists (fun ko => negb (in_strs (fst ko) (take (length (invocations s) - MAX_RETAINED_RUNS + 1) (k :: ks)))).
    f_equal. apply list_filter_iff. intros [k' o]. cbn. destruct (in_strs _ _); cbn; split; congruence.
Qed.

Lemma Inv_start r run_id s : Inv s -> Inv (fst (start r run_id s)) /\ sevolves s (fst (start r run_id s)).
Proof.
  intros I. unfold Execution.start. destruct (frozen s); [by split|].
  destruct (match own_workspace_ref with Some _ => _ | None => _ end); [by split|].
  destruct (closed s); [by split|].
  destruct (find_invocation _ s) as [[o i]|] eqn:Hf; [destruct (decide _); by split|].
  apply find_invocation_None in Hf; [|done].
  destruct (public s) as [p|]; [|by split]. destruct (negb _); [by split|].
  destruct (_reserve_capacity s) as [s'|] eqn:Hr; [|by split]. cbn.
  apply reserve_ok in Hr as (P & ->). destruct (Inv_drop P s I) as [I' E].
  destruct (Inv_add (sr_invocation_id r) (new_invocation p r run_id
    (put_invocations (filter (fun ko => P ko = true) (invocations s)) s)) _ I') as [I'' E'];
    [apply Oinv_new|done|done|by apply assoc_filter_none|]. split; [done|]. by etrans.
Qed.

Lemma Inv_cancel k reason s : Inv s -> Inv (fst (cancel k reason s)) /\ sevolves s (fst (cancel k reason s)).
Proof.
  intros I. unfold cancel. destruct (find_invocation k s) as [[o i]|] eqn:Hf; [|by split].
  apply find_invocation_Some in Hf as [_ Hi].
  destruct (iv_cleanup i); try by split. destruct (iv_terminal i) eqn:Ht; [by split|].
  destruct (expired _ i); [by apply Inv_same|]. cbn [fst]. apply Inv_segment; [done|].
  intros j Hj Ij. rewrite Hi in Hj. injection Hj as <-.
  split; [by apply Oinv_cancel|]. by apply ev_cancel.
Qed.

Lemma Inv_run_timeout o s : Inv s -> Inv (run_timeout o s) /\ sevolves s (run_timeout o s).
Proof.
  intros I. unfold run_timeout. destruct (bool_decide _); [|by split]. apply Inv_segment; [done|].
  intros i _ Ii. split; [by apply Oinv_timeout|]. by apply ev_timeout.
Qed.

Lemma Inv_close_claims s : Inv s -> Inv (close_claims s) /\ sevolves s (close_claims s).
Proof.
  unfold close_claims. intros I. generalize (invocations s) as d. induction d as [|[k o] d [IH E]]; [by split|].
  cbn [foldr]. set (s' := foldr _ s d) in *. clearbody s'.
  destruct (Inv_segment o (fun i => match iv_cleanup i with
    | ClNone => if iv_terminal i then i else _claim_explicit_cancel (mono s') "shutdown" i
    | _ => i end) s' IH) as [I' E'].
  - intros i _ Ii. pose proof (ev_same i).
    destruct (iv_cleanup i); try by split. destruct (iv_terminal i) eqn:Ht; [by split|].
    split; [by apply Oinv_cancel|]. by apply ev_cancel.
  - cbn [snd]. split; [done|]. by trans s'.
Qed.

(** The owner takes the free lock of its session, and may give it up in the same segment. *)
Lemma acquired_reservation now utc u ss built i :
  Oinv i -> iv_owner i = OwAcquire ->
  evolves i (owner_acquired elapsed_ms now utc u ss built i)
  /\ (forall l, iv_reservation (owner_acquired elapsed_ms now utc u ss built i) = Some l -> l = iv_session i).
Proof.
  intros I Ho. pose proof (Oinv_acquired elapsed_ms now utc u ss built i I Ho) as Hres.
  assert (forall j, evolves i j -> iv_session j = iv_session i) as Hsess.
  { intros j E. pose proof (ev_identity _ _ E) as Hid. unfold identity_of, iv_session in *.
    injection Hid as -> _ _ _ _. done. }
  cut (evolves i (owner_acquired elapsed_ms now utc u ss built i)).
  { intros E. split; [done|]. intros l Hl. rewrite <- (Hsess _ E). by apply (oi_session _ Hres). }
  clear Hres. set (k := set_iv_owner OwHook (set_iv_reservation (Some (iv_session i)) i)).
  assert (Oinv k) as Ik by by apply Oinv_takes_lock.
  assert (evolves i k) as Ek by (unfold k; destruct i; constructor; cbn; try done; by exists []).
  assert (forall st j, set_iv_owner OwHook (set_iv_state st j) = set_iv_state st (set_iv_owner OwHook j)) as Hcomm
    by (intros st j; by destruct j).
  unfold owner_acquired. set (k0 := set_iv_reservation _ i).
  assert (k = set_iv_owner OwHook k0) as Hk by done.
  assert (iv_terminal k0 = iv_terminal k /\ expired utc k0 = expired utc k) as [-> ->] by by destruct i.
  assert (evolves i (owner_ends k0)) as Hends.
  { trans k; [done|]. replace (owner_ends k0) with (owner_ends k) by by destruct i.
    by apply (ev_owner OwDone k). }
  destruct (iv_terminal k) eqn:Ht; [done|]. destruct (expired utc k).
  - rewrite <- (fail_owner _ _ _ _ _ _ OwHook), <- Hk. trans k; [done|].
    eapply ev_then; [by apply ev_fail|apply (ev_owner OwDone)].
  - assert (evolves i (set_iv_state Preparing k)) as Hst by (trans k; [done|]; by apply ev_state).
    assert (Oinv (set_iv_state Preparing k)) as Ist by by apply Oinv_state.
    assert (set_iv_owner OwHook (set_iv_state Preparing k0) = set_iv_state Preparing k) as Hk' by done.
    assert (evolves i (owner_gate elapsed_ms now u None built (set_iv_state Preparing k0))) as Hgate.
    { unfold owner_gate.
      assert (iv_terminal (set_iv_state Preparing k0) = false) as -> by (rewrite <- Ht; by destruct i).
      rewrite <- (build_owner _ _ _ _ _ OwHook), Hk'.
      trans (set_iv_state Preparing k); [done|].
      assert (send_prompt None (set_iv_state Preparing k0) = send_prompt None (set_iv_state Preparing k)) as -> by by destruct i.
      apply ev_build; [done|]. by destruct i. }
    destruct (session_start _); [|done]. destruct ss; [done|]. by rewrite Hk'.
Qed.

Lemma Inv_acquire o u built s :
  Inv s -> Inv (acquire_session elapsed_ms o u built s) /\ sevolves s (acquire_session elapsed_ms o u built s).
Proof.
  intros I. unfold acquire_session. destruct (objs s !! o) as [i|] eqn:Hi; [|by split].
  destruct (iv_owner i) eqn:Ho; try by split.
  destruct (iv_owner_cancel i || bool_decide (iv_session i ∈ locked s)) eqn:Hg; [by split|].
  apply orb_false_elim in Hg as [_ Hl]. apply bool_decide_eq_false in Hl.
  set (s1 := if iv_terminal i || expired (utc s) i then s else put_sessions _ s).
  assert (Inv s1 /\ sevolves s s1) as [I1 E1] by (unfold s1; destruct (_ || _); [by split|by apply Inv_same]).
  assert (objs s1 = objs s /\ locked s1 = locked s) as [Ho1 Hl1] by (unfold s1; by destruct (_ || _)).
  clearbody s1. rewrite <- Ho1 in Hi. rewrite <- Hl1 in Hl.
  pose proof (in_objs s1 I1 o i Hi) as Ii.
  destruct (acquired_reservation (mono s1) (utc s1) u (session_started (iv_session i) s1) built i Ii Ho) as [He Hr].
  split.
  - apply Inv_commit; try done; [by apply Oinv_acquired|by apply He|]. right. split; [|by intros l ->%Hr].
    pose proof (oi_early i Ii) as Hearly. rewrite Ho in Hearly. specialize (Hearly eq_refl).
    unfold reserved in Hearly. by destruct (iv_reservation i).
  - trans s1; [done|]. by apply sevolves_commit.
Qed.

Lemma Inv_send o u r touch s :
  Inv s -> Inv (send_ends elapsed_ms o u r touch s) /\ sevolves s (send_ends elapsed_ms o u r touch s).
Proof.
  intros I. unfold send_ends. destruct (objs s !! o) as [i|] eqn:Hi; [|by split].
  set (m := if session_started (iv_session i) s then None else touch). clearbody m.
  pose proof (in_objs s I o i Hi) as Ii.
  assert (Inv (commit o i (owner_send elapsed_ms (mono s) u r m i) s)
          /\ sevolves s (commit o i (owner_send elapsed_ms (mono s) u r m i) s)) as [I' E'].
  { destruct (ev_send elapsed_ms (mono s) u r m i Ii) as [He Hg]. split.
    - apply Inv_commit; try done; [by apply Oinv_send|by apply He|by left].
    - by apply sevolves_commit. }
  revert I' E'. generalize (commit o i (owner_send elapsed_ms (mono s) u r m i) s) as s'. intros s' I' E'.
  assert (forall s'', objs s'' = objs s' -> locked s'' = locked s' -> archiving s'' = archiving s' ->
    next_id s'' = next_id s' -> invocations s'' = invocations s' -> Inv s'' /\ sevolves s s'') as Hs.
  { intros s'' H1 H2 H3 H4 H5. destruct (Inv_same s' s'') as [I'' E'']; try done. split; [done|]. by trans s'. }
  destruct (iv_owner i); try by split. destruct r as [receipt|x]; [|by split].
  destruct m; [by apply Hs|]. destruct (session_started _ s); by apply Hs.
Qed.

Lemma Inv_adopt v s : Inv s -> Inv (fst (_adopt_restored_run v s)) /\ sevolves s (fst (_adopt_restored_run v s)).
Proof.
  intros I. unfold _adopt_restored_run.
  destruct (assoc _ (invocations s)) eqn:Ha; [by split|].
  destruct (sv_state v) as [st|]; [|by split]. destruct (public s) as [p|]; [|by split].
  destruct (negb (known_terminal st)); [by split|]. destruct (negb (truthy _)); [by split|].
  destruct (match sv_started v with Some _ => _ | None => _ end); [by split|].
  cbn [fst]. apply Inv_add; try done. apply Oinv_adopted.
Qed.

Lemma Inv_archive_lock l s : Inv s -> Inv (archive_lock l s) /\ sevolves s (archive_lock l s).
Proof.
  intros I. unfold archive_lock. destruct (bool_decide (l ∈ locked s)) eqn:Hl; [by split|].
  apply bool_decide_eq_false in Hl. destruct I as [H1 H2 H3 H4 H5 H6 H7 H8].
  split; [constructor; cbn; try done; [|set_solver]|by intros o i Hi; exists i].
  intros o i l' Hi Hr. destruct (H2 o i l' Hi Hr). set_solver.
Qed.
Lemma Inv_archive_unlock l s : Inv s -> Inv (archive_unlock l s) /\ sevolves s (archive_unlock l s).
Proof.
  intros I. unfold archive_unlock. destruct (bool_decide (l ∈ archiving s)) eqn:Hl; [|by split].
  apply bool_decide_eq_true in Hl. destruct I as [H1 H2 H3 H4 H5 H6 H7 H8].
  split; [constructor; cbn; try done; [|set_solver]|by intros o i Hi; exists i].
  intros o i l' Hi Hr. destruct (H2 o i l' Hi Hr). set_solver.
Qed.
Lemma Inv_retired l native engine s :
  Inv s -> Inv (fst (retire_session l native engine s)) /\ sevolves s (fst (retire_session l native engine s)).
Proof.
  intros I. unfold retire_session. destruct (sessions s !! l); [|by split].
  destruct (existsb _ _); [by split|]. destruct (session_info _ _ _) as [info|]; [|by split].
  destruct (_ || _); [by split|]. destruct engine; [|by split]. by apply Inv_same.
Qed.

Lemma Inv_step s s' : step s s' -> Inv s -> Inv s' /\ sevolves s s'.
Proof.
  intros Hs I.
  destruct Hs; try (by apply Inv_same);
    try by (apply Inv_segment; [done|intros i _ Ii; split;
      [first [by apply Oinv_begin|by apply Oinv_acquire_ends|by apply Oinv_hook|by apply Oinv_probe|by apply Oinv_watch
        |by apply Oinv_settle|by apply Oinv_spawn|by apply Oinv_run|by apply Oinv_engine_ends|by apply Oinv_forces
        |by apply Oinv_stop|by apply Oinv_cleanup]
      |first [by apply ev_begin|by apply ev_acquire_ends|by apply ev_hook|by apply ev_probe|by apply ev_watch_poll
        |by apply ev_settle|by apply ev_spawn|by apply ev_run|by apply ev_engine_ends|by apply ev_forces
        |by apply ev_stop|by apply ev_cleanup]]]).
  - unfold configure. destruct (closed s); [by split|]. by apply Inv_same.
  - by apply Inv_start.
  - by apply Inv_cancel.
  - by apply Inv_run_timeout.
  - by apply Inv_close_claims.
  - by apply Inv_acquire.
  - by apply Inv_send.
  - by apply Inv_adopt.
  - by apply Inv_archive_lock.
  - by apply Inv_archive_unlock.
  - by apply Inv_retired.
Qed.

Lemma Inv_initial m u : Inv (init m u).
Proof. constructor; cbn; try done; try set_solver; try constructor. intros o [i Hi]. done. Qed.

Lemma Inv_steps s s' : rtc step s s' -> Inv s -> Inv s' /\ sevolves s s'.
Proof.
  induction 1 as [s|s s1 s2 Hs _ IH]; intros I; [by split|].
  destruct (Inv_step s s1 Hs I) as [I1 E1]. destruct (IH I1) as [I2 E2]. split; [done|]. by trans s1.
Qed.
Lemma reachable_Inv s : reachable s -> Inv s.
Proof. intros (m & u & H). by apply (Inv_steps (init m u)), Inv_initial. Qed.
Lemma reachable_Oinv s o i : reachable s -> objs s !! o = Some i -> Oinv i.
Proof. intros R. by apply in_objs, reachable_Inv. Qed.
End steps.
