(* ===== verification/ExecutionQuiet.v ===== *)
(** * execution/service.py: what a finished invocation leaves running

    [quiet]: an invocation that is terminal is still being cleaned up, or is recorded as
    uncertain, or its owner is over and the engine does no work for it.  Every step keeps it. *)

From stdpp Require Import fin_sets gmap.
From S2P Require Import Prelude Sha256 PyJson Config Public StateRefs Effects Storage Wire Tokens Sessions Execution ExecutionInv ExecutionSteps.
Local Open Scope Z_scope.

Definition settled_down (i : Invocation) : Prop :=
  ended (iv_owner i) = true /\ live (iv_log i) = false.
Definition given_up (i : Invocation) : Prop := iv_cleanup i = ClDone /\ iv_state i = Unknown.
Definition quiet (i : Invocation) : Prop :=
  iv_terminal i = true -> working (iv_cleanup i) = true \/ given_up i \/ settled_down i.

Section segments.
Context (elapsed_ms : Z -> json).

(** A segment that leaves the verdict alone keeps [quiet]. *)
Lemma quiet_keep i j :
  quiet i -> iv_terminal j = iv_terminal i -> iv_cleanup j = iv_cleanup i ->
  (iv_terminal i = true -> iv_state j = iv_state i) ->
  (ended (iv_owner i) = true -> ended (iv_owner j) = true) ->
  (live (iv_log i) = false -> live (iv_log j) = false \/ ended (iv_owner i) = false) -> quiet j.
Proof.
  unfold quiet, given_up, settled_down. intros Q -> -> Hs Ho Hl Ht.
  destruct (Q Ht) as [?|[[? ?]|[He Hn]]]; [auto|right; left; split; [done|]; rewrite Hs; auto|].
  right; right. split; [auto|]. destruct (Hl Hn); congruence.
Qed.
Lemma quiet_open i : iv_terminal i = false -> quiet i.
Proof. intros H Ht. congruence. Qed.
Lemma quiet_working i : working (iv_cleanup i) = true -> quiet i.
Proof. intros H _. by left. Qed.
Lemma quiet_settled i : settled_down i -> quiet i.
Proof. intros H _. by right; right. Qed.
Hint Resolve quiet_open quiet_working quiet_settled : core.

Lemma quiet_owner p i : quiet i -> ended (iv_owner i) = false -> quiet (set_iv_owner p i).
Proof. intros Q H. apply (quiet_keep i); try done; by destruct i; cbn in *; rewrite ?H; auto. Qed.
Lemma quiet_ends i : quiet i -> quiet (owner_ends i).
Proof. intros Q. apply (quiet_keep i); try done; destruct i; cbn in *; auto. Qed.
Lemma quiet_watch p i : quiet i -> quiet (set_iv_watch p i).
Proof. intros Q. apply (quiet_keep i); try done; destruct i; cbn in *; auto. Qed.
Hint Resolve quiet_owner quiet_ends quiet_watch : core.

(** The owner's own ends, before anything was sent. *)
Lemma quiet_fail now u x st release i :
  Oinv i -> quiet i -> live (iv_log i) = false ->
  quiet (owner_ends (_fail_before_started elapsed_ms now u x st release i)).
Proof.
  intros I Q Hl. destruct (iv_terminal i) eqn:Ht.
  - unfold _fail_before_started. rewrite Ht. auto.
  - destruct (Oinv_fresh i I Ht) as (_ & Hj & _).
    destruct (fail_finished elapsed_ms now u x st release i Ht Hj) as (r & w & g & _ & _ & ->).
    apply quiet_settled. unfold settled_down, finished. by destruct release, i.
Qed.
Lemma quiet_finish now u st err i :
  Oinv i -> quiet i -> live (iv_log i) = false ->
  quiet (owner_ends (_finish_without_engine elapsed_ms now u st err i)).
Proof.
  intros I Q Hl. destruct (iv_terminal i) eqn:Ht.
  - unfold _finish_without_engine. rewrite Ht. auto.
  - destruct (Oinv_fresh i I Ht) as (_ & Hj & _).
    destruct (finish_finished elapsed_ms now u st err i Ht Hj) as (r & w & g & _ & _ & ->).
    apply quiet_settled. unfold settled_down, finished. by destruct i.
Qed.
(** What has not sent is not live. *)
Lemma not_live i : Oinv i -> iv_possible_send i = false -> live (iv_log i) = false.
Proof. intros I Hp. apply unsent_not_live. rewrite (oi_start i I). by rewrite Hp. Qed.
Lemma not_live_unsent i : Oinv i -> unsent (iv_owner i) = true -> live (iv_log i) = false.
Proof. intros I Hu. apply not_live; [done|]. by apply oi_unsent. Qed.

Lemma quiet_timeout now bw reason i : Oinv i -> quiet i -> quiet (_timeout_cancel now bw reason i).
Proof.
  intros I Q. destruct (iv_terminal i) eqn:Ht; [unfold _timeout_cancel; by rewrite Ht|].
  destruct (Oinv_fresh i I Ht) as (Hc & Hj & _).
  destruct (timeout_claimed now bw reason i Ht Hc Hj) as (b & w & g & _ & _ & ->). by apply quiet_working.
Qed.
Lemma quiet_cancel now reason i :
  Oinv i -> iv_terminal i = false -> quiet (_claim_explicit_cancel now reason i).
Proof.
  intros I Ht. destruct (Oinv_fresh i I Ht) as (Hc & Hj & _).
  destruct (cancel_claimed now reason i Hc Hj) as (b & w & g & _ & _ & ->). by apply quiet_working.
Qed.
Lemma quiet_watch_poll now utc p i : Oinv i -> quiet i -> quiet (watch_poll now utc p i).
Proof.
  intros I Q. assert (forall reason, quiet (watch_fire now reason i)) as Hf.
  { intros reason. unfold watch_fire. destruct (iv_terminal i); [auto|]. by apply quiet_watch, quiet_timeout. }
  unfold watch_poll. destruct (iv_watch i); auto.
  - destruct (_ <=? 0); auto.
  - destruct (match p with Some _ => _ | None => _ end); [auto|]. destruct (_ <=? 0); auto.
Qed.

(** *** The owner *)

Lemma quiet_begin now utc u i : Oinv i -> quiet i -> quiet (owner_begin elapsed_ms now utc u i).
Proof.
  intros I Q. unfold owner_begin. destruct (iv_owner i) eqn:Ho; auto.
  pose proof (not_live_unsent i I) as Hl. rewrite Ho in Hl. specialize (Hl eq_refl).
  destruct (iv_owner_cancel i); [by apply quiet_owner; rewrite ?Ho|].
  destruct (expired utc i); [by apply quiet_fail|by apply quiet_owner; rewrite ?Ho].
Qed.
Lemma quiet_acquire_ends now u i : Oinv i -> quiet i -> quiet (owner_acquire_ends elapsed_ms now u i).
Proof.
  intros I Q. unfold owner_acquire_ends. destruct (iv_owner i) eqn:Ho; auto.
  pose proof (not_live_unsent i I) as Hl. rewrite Ho in Hl. specialize (Hl eq_refl).
  destruct (iv_owner_cancel i); [by apply quiet_owner; rewrite ?Ho|by apply quiet_fail].
Qed.
Lemma quiet_build now u built prompt i :
  Oinv i -> live (iv_log i) = false -> iv_terminal i = false ->
  quiet (owner_build elapsed_ms now u built prompt i).
Proof.
  intros I Hl Ht. unfold owner_build. destruct built as [x|]; [destruct (is_cancelled x)|].
  - apply quiet_open. by destruct i.
  - apply quiet_fail; [by apply Oinv_state|apply quiet_open; by destruct i|done].
  - apply quiet_open. by destruct i.
Qed.
Lemma quiet_gate now u gate built i :
  Oinv i -> quiet i -> live (iv_log i) = false -> quiet (owner_gate elapsed_ms now u gate built i).
Proof.
  intros I Q Hl. unfold owner_gate. destruct (iv_terminal i) eqn:Ht; [auto|].
  destruct gate as [g|]; [|by apply quiet_build].
  destruct (_ =? _); [by apply quiet_finish|]. destruct (negb _); [by apply quiet_finish|by apply quiet_build].
Qed.
Lemma quiet_hook now u r built i : Oinv i -> quiet i -> quiet (owner_hook elapsed_ms now u r built i).
Proof.
  intros I Q. unfold owner_hook. destruct (iv_owner i) eqn:Ho; auto.
  pose proof (not_live_unsent i I) as Hl. rewrite Ho in Hl. specialize (Hl eq_refl).
  destruct r as [gate|x]; [by apply quiet_gate|].
  destruct (bool_decide _); [by apply quiet_finish|]. destruct (is_timeout x); [by apply quiet_fail|].
  destruct (is_cancelled x); [destruct (iv_owner_cancel i); [|done]; by apply quiet_owner; rewrite ?Ho|].
  by apply quiet_fail.
Qed.
Lemma quiet_probe now utc u r i : Oinv i -> quiet i -> quiet (owner_probe elapsed_ms now utc u r i).
Proof.
  intros I Q. unfold owner_probe. destruct (iv_owner i) eqn:Ho; auto.
  pose proof (not_live_unsent i I) as Hl. rewrite Ho in Hl. specialize (Hl eq_refl).
  destruct (iv_owner_cancel i) eqn:Hoc; [by apply quiet_owner; rewrite ?Ho|].
  destruct r as [x|]; [destruct (is_cancelled x); [done|by apply quiet_finish]|].
  destruct (expired utc i); [by apply quiet_fail|].
  unfold quiet, given_up. generalize (run_catalog i) as cat. intros cat Ht. cbn in Ht.
  destruct (Q Ht) as [Hw|[[Hc _]|[He _]]]; [by left| |by rewrite Ho in He].
  exfalso. assert (asked (iv_engine_cancel i) = true) as Ha by by rewrite <- (oi_launched i I), Hc.
  destruct (oi_cancelled i I Ha) as [H|H]; [congruence|by rewrite Ho in H].
Qed.
Lemma quiet_send now u r marked i : Oinv i -> quiet i -> quiet (owner_send elapsed_ms now u r marked i).
Proof.
  intros I Q. unfold owner_send. destruct (iv_owner i) eqn:Ho; auto. destruct r as [receipt|x].
  - assert (quiet (log EAccepted (set_iv_receipt (Some receipt) i))) as Qj
      by (apply (quiet_keep i); try done; cbn; auto).
    set (j := log EAccepted _) in *. assert (iv_owner j = OwSend) as Hj by (by destruct i). clearbody j.
    destruct marked; [by apply quiet_owner; rewrite ?Hj|].
    destruct (iv_terminal j) eqn:Ht; [auto|]. apply quiet_open. by destruct j.
  - destruct (is_cancelled x); [destruct (iv_owner_cancel i); [|done]; by apply quiet_owner; rewrite ?Ho|].
    unfold _fail_after_possible_send. destruct (iv_terminal i) eqn:Ht; [auto|].
    destruct (Oinv_fresh i I Ht) as (Hc & Hj & _). destruct (negb _ && negb _).
    + destruct (fail_finished elapsed_ms now u x Failed true (log (ERejected x) i)) as (r & w & g & _ & _ & ->);
        [by destruct i..|]. apply quiet_settled. unfold settled_down, finished. by destruct i.
    + edestruct (ensure_claimed now false ("unconfirmed send: " +:+ x_msg x)
        (if ambiguous x then Unknown else Failed) (set_iv_error (Some (x_msg x)) i))
        as (b & w & _ & ->); [by destruct i..|]. by apply quiet_working.
Qed.
Lemma quiet_acquired now utc u ss built i :
  Oinv i -> quiet i -> iv_owner i = OwAcquire -> quiet (owner_acquired elapsed_ms now utc u ss built i).
Proof.
  intros I Q Ho. pose proof (not_live_unsent i I) as Hl. rewrite Ho in Hl. specialize (Hl eq_refl).
  assert (Oinv (set_iv_owner OwHook (set_iv_reservation (Some (iv_session i)) i))) as Ik by by apply Oinv_takes_lock.
  assert (quiet (set_iv_reservation (Some (iv_session i)) i)) as Qk
    by (apply (quiet_keep i); try done; cbn; auto).
  assert (live (iv_log (set_iv_reservation (Some (iv_session i)) i)) = false) as Hlk by done.
  unfold owner_acquired. set (k := set_iv_reservation _ i) in *. clearbody k.
  destruct (iv_terminal k) eqn:Ht; [auto|]. destruct (expired utc k).
  - rewrite <- (fail_owner _ _ _ _ _ _ OwHook). apply quiet_fail; [done|apply quiet_open; by destruct k|done].
  - assert (quiet (owner_gate elapsed_ms now u None built (set_iv_state Preparing k))) as Hg.
    { unfold owner_gate. cbn [iv_terminal set_iv_state]. rewrite Ht.
      rewrite <- (build_owner _ _ _ _ _ OwHook). apply quiet_build; [|done..].
      replace (set_iv_owner OwHook (set_iv_state Preparing k))
        with (set_iv_state Preparing (set_iv_owner OwHook k)) by by destruct k. by apply Oinv_state. }
    destruct (session_start _); [|done]. destruct ss; [done|]. apply quiet_open. by destruct k.
Qed.

(** *** Settlement and cleanup *)

Lemma quiet_settle now u r i : Oinv i -> quiet i -> quiet (_hold_until_settled elapsed_ms now u r i).
Proof.
  intros I Q. unfold _hold_until_settled. destruct (iv_settle i) eqn:Hs; auto.
  destruct (oi_settling i I) as [Hd _]; [by rewrite Hs|].
  assert (ended (iv_owner i) = true) as He by (unfold ended; by rewrite Hd).
  destruct r as [[o text]|x].
  - replace (iv_terminal (set_iv_settle SeDone (log (ESettled o) i))) with (iv_terminal i) by by destruct i.
    destruct (iv_terminal i) eqn:Ht; [apply quiet_settled; by destruct i|].
    set (j := match o, text with EoCompleted, Some _ => _ | _, _ => _ end).
    assert (settled_down j) as Hj.
    { unfold j, settled_down. by destruct o, text, i. }
    clearbody j. destruct (retain_result elapsed_ms u (set_iv_terminal_at (Some now) (set_iv_terminal true j)))
      as [r ->]. apply quiet_settled. unfold settled_down, cancel_watch in *.
    destruct j; cbn in *. destruct iv_watch; try done. by destruct iv_cleanup.
  - destruct (iv_terminal i) eqn:Ht; [apply (quiet_keep i); try done; cbn; auto|].
    destruct (Oinv_fresh i I Ht) as (Hc & Hj & _). destruct (cancel_watch_eq i Hj) as (w & Hw & ->).
    edestruct ensure_claimed as (b & w' & _ & ->); [|by destruct i|by apply quiet_working]. by destruct i.
Qed.
Lemma quiet_spawn i : quiet i -> quiet (cleanup_spawn i).
Proof. intros Q. unfold cleanup_spawn. destruct (iv_cleanup i) eqn:E; auto. Qed.
Lemma quiet_run i : quiet i -> quiet (cleanup_run i).
Proof.
  intros Q. unfold cleanup_run. destruct (iv_cleanup i) eqn:E; auto. unfold stop_verdict.
  apply quiet_working. destruct i; cbn. by destruct iv_owner.
Qed.
Lemma quiet_engine_ends r i : quiet i -> quiet (engine_cancel_ends r i).
Proof.
  intros Q. unfold engine_cancel_ends. destruct (iv_engine_cancel i); auto.
  apply (quiet_keep i); try done; destruct r; cbn; auto.
Qed.
Lemma quiet_forces now i : quiet i -> quiet (engine_forces now i).
Proof.
  intros Q. unfold engine_forces. destruct (iv_engine_cancel i); auto. destruct (iv_budget i); auto.
Qed.
Lemma quiet_stop now i : quiet i -> quiet (stop_wakes now i).
Proof.
  intros Q. assert (forall p, quiet (set_iv_owner_stop p i)) as H
    by (intros p; apply (quiet_keep i); try done; cbn; auto).
  unfold stop_wakes. destruct (iv_owner_stop i), (iv_budget i); auto; destruct (owner_done _); auto.
  - destruct (_ <=? _); auto. destruct (confirmation_deadline _); auto.
  - destruct (past _ _); auto.
Qed.
Lemma quiet_verdict now u reason st i : Oinv i -> quiet (cleanup_verdict elapsed_ms now u reason st i).
Proof.
  intros I. assert (forall why, quiet (uncertain_end elapsed_ms now u reason why i)) as Hu.
  { intros why _. right. left. unfold uncertain_end. set (err := _ +:+ _). clearbody err.
    destruct (retain_result elapsed_ms u (set_iv_terminal_at (Some now) (set_iv_error (Some err)
      (set_iv_state Unknown i)))) as [r ->]. by destruct i. }
  unfold cleanup_verdict, engine_result, stop_result.
  destruct (iv_engine_cancel i) as [| |[|]] eqn:Ee, (iv_owner_stop i) as [| | | |[|]] eqn:Es; try apply Hu.
  set (err := str_or _ _). clearbody err.
  destruct (retain_result elapsed_ms u (set_iv_terminal_at (Some now) (set_iv_error (Some err)
      (set_iv_state st i)))) as [r ->]. apply quiet_settled.
  pose proof (oi_halted i I) as Hh. rewrite Ee in Hh. pose proof (oi_stopped i I) as Hs. rewrite Es in Hs.
  split; [by destruct i; apply Hs|by destruct i; apply Hh].
Qed.
Lemma quiet_cleanup now u i : Oinv i -> quiet i -> quiet (cleanup_wakes elapsed_ms now u i).
Proof.
  intros I Q. unfold cleanup_wakes. destruct (iv_cleanup i); auto; destruct (iv_budget i); auto.
  - destruct (both_ended i); [by apply quiet_verdict|]. destruct (_ <=? _); auto.
    destruct (confirmation_deadline _); [by apply quiet_working|by apply quiet_verdict].
  - destruct (_ || _); auto. by apply quiet_verdict.
Qed.
End segments.

(** ** The service *)

Definition all_quiet (s : Service) : Prop := forall o i, objs s !! o = Some i -> quiet i.

Lemma all_quiet_same s s' : objs s' = objs s -> all_quiet s -> all_quiet s'.
Proof. intros E Q o i. rewrite E. apply Q. Qed.
Lemma all_quiet_commit o i i' s : all_quiet s -> quiet i' -> all_quiet (commit o i i' s).
Proof. intros Q Qi o' j. cbn. rewrite lookup_insert_Some. intros [[_ <-]|[_ Hj]]; eauto. Qed.
Lemma all_quiet_segment o f s :
  Inv s -> all_quiet s -> (forall i, Oinv i -> quiet i -> quiet (f i)) -> all_quiet (segment o f s).
Proof.
  intros I Q Hf. unfold segment. destruct (objs s !! o) as [i|] eqn:Hi; [|done].
  apply all_quiet_commit; [done|]. apply Hf; [by apply (in_objs s I o)|by apply (Q o)].
Qed.
Lemma all_quiet_add k i s : all_quiet s -> quiet i -> all_quiet (add_invocation k i s).
Proof. intros Q Qi o j. cbn. rewrite lookup_insert_Some. intros [[_ <-]|[_ Hj]]; eauto. Qed.

Section steps.
Context (own_workspace_ref : option string) (elapsed_ms : Z -> json).

Lemma all_quiet_close s : Inv s -> all_quiet s -> all_quiet (close_claims s).
Proof.
  intros I Q. cut (Inv (close_claims s) /\ all_quiet (close_claims s)); [by intros []|].
  unfold close_claims. generalize (invocations s) as d. induction d as [|[k o] d [IH QH]]; [done|].
  cbn [foldr snd]. set (s' := foldr _ s d) in *. clearbody s'. split.
  - apply Inv_segment; [done|]. intros i _ Ii. pose proof (ev_same i).
    destruct (iv_cleanup i); try by split. destruct (iv_terminal i) eqn:Ht; [by split|].
    split; [by apply Oinv_cancel|by apply ev_cancel].
  - apply all_quiet_segment; [done..|]. intros i Ii Qi. destruct (iv_cleanup i); try done.
    destruct (iv_terminal i) eqn:Ht; [done|by apply quiet_cancel].
Qed.

Lemma all_quiet_acquire o u built s :
  Inv s -> all_quiet s -> all_quiet (acquire_session elapsed_ms o u built s).
Proof.
  intros I Q. unfold acquire_session. destruct (objs s !! o) as [i|] eqn:Hi; [|done].
  destruct (iv_owner i) eqn:Ho; try done. destruct (_ || _); [done|].
  apply all_quiet_commit; [|apply quiet_acquired; [by apply (in_objs s I o)|by apply (Q o)|done]].
  destruct (_ || _); [done|by apply (all_quiet_same s)].
Qed.

Lemma all_quiet_send o u r touch s :
  Inv s -> all_quiet s -> all_quiet (send_ends elapsed_ms o u r touch s).
Proof.
  intros I Q. unfold send_ends. destruct (objs s !! o) as [i|] eqn:Hi; [|done].
  set (m := if session_started _ s then None else touch). clearbody m.
  assert (all_quiet (commit o i (owner_send elapsed_ms (mono s) u r m i) s)) as Qc.
  { apply all_quiet_commit; [done|]. apply quiet_send; [by apply (in_objs s I o)|by apply (Q o)]. }
  destruct (iv_owner i); try done. destruct r as [receipt|x]; [|done].
  destruct m; [by eapply all_quiet_same, Qc|]. destruct (session_started _ s); by eapply all_quiet_same, Qc.
Qed.

Lemma all_quiet_step s s' :
  step own_workspace_ref elapsed_ms s s' -> Inv s -> all_quiet s -> all_quiet s'.
Proof.
  intros Hs I Q.
  destruct Hs; try (by apply (all_quiet_same s));
    try by (apply all_quiet_segment; [done|done|intros i Ii Qi;
      first [by apply quiet_begin|by apply quiet_acquire_ends|by apply quiet_hook|by apply quiet_probe
        |by apply quiet_watch_poll|by apply quiet_settle|by apply quiet_spawn|by apply quiet_run
        |by apply quiet_engine_ends|by apply quiet_forces|by apply quiet_stop|by apply quiet_cleanup]]).
  - unfold configure. destruct (closed s); [done|]. by apply (all_quiet_same s).
  - unfold start. destruct (frozen s); [done|]. destruct (match own_workspace_ref with Some _ => _ | None => _ end); [done|].
    destruct (closed s); [done|]. destruct (find_invocation _ s) as [[]|]; [by destruct (decide _)|].
    destruct (public s) as [p|]; [|done]. destruct (negb _); [done|].
    destruct (_reserve_capacity s) as [s1|] eqn:Hr; [|done]. apply reserve_ok in Hr as (P & ->).
    apply all_quiet_add; [by apply (all_quiet_same s)|by apply quiet_open].
  - unfold cancel. destruct (find_invocation k s) as [[o i]|] eqn:Hf; [|done].
    apply find_invocation_Some in Hf as [_ Hi]. destruct (iv_cleanup i); try done.
    destruct (iv_terminal i) eqn:Ht; [done|]. destruct (expired _ i); [by apply (all_quiet_same s)|].
    cbn [fst]. unfold segment. rewrite Hi. apply all_quiet_commit; [done|].
    apply quiet_cancel; [by apply (in_objs s I o)|done].
  - unfold run_timeout. destruct (bool_decide _); [|done].
    apply all_quiet_segment; [done..|]. intros i Ii Qi. by apply quiet_timeout.
  - by apply all_quiet_close.
  - by apply all_quiet_acquire.
  - by apply all_quiet_send.
  - unfold _adopt_restored_run. destruct (assoc _ _); [done|].
    destruct (sv_state v); [|done]. destruct (public s); [|done].
    destruct (negb _); [done|]. destruct (negb _); [done|].
    destruct (match sv_started v with Some _ => _ | None => _ end); [done|].
    apply all_quiet_add; [done|]. by apply quiet_settled.
  - unfold archive_lock. destruct (bool_decide _); [done|by apply (all_quiet_same s)].
  - unfold archive_unlock. destruct (bool_decide _); [by apply (all_quiet_same s)|done].
  - unfold retire_session. destruct (sessions s !! l); [|done]. destruct (existsb _ _); [done|].
    destruct (session_info _ _ _); [|done]. destruct (_ || _); [done|]. destruct engine; [|done].
    by apply (all_quiet_same s).
Qed.

Lemma reachable_quiet s : reachable own_workspace_ref elapsed_ms s -> all_quiet s.
Proof.
  intros (m & u & H). cut (Inv s /\ all_quiet s); [by intros []|].
  assert (Inv (init m u) /\ all_quiet (init m u)) as H0 by (split; [apply Inv_initial|done]).
  revert H0. induction H as [s|s s1 s2 Hs _ IH]; [done|]. intros [I Q]. apply IH.
  split; [by eapply Inv_step|by eapply all_quiet_step].
Qed.
End steps.
