(* ===== verification/ExecutionProps.v ===== *)
(** * execution/service.py: what the invocation registry promises

    Consequences of the invariant of [ExecutionSteps], over every interleaving of the
    segments: exclusive and unique sends, final records, idempotent retries, retention,
    cleanups that end by the clock, and what a close leaves behind. *)

From stdpp Require Import fin_sets gmap.
From S2P Require Import Prelude Sha256 PyJson Config ConfigFacts Public StateRefs Effects Storage Wire Tokens Sessions Execution ExecutionInv ExecutionSteps ExecutionQuiet.
Local Open Scope Z_scope.

Section props.
Context (own_workspace_ref : option string) (elapsed_ms : Z -> json).

Abbreviation start := (start own_workspace_ref).
Abbreviation step := (step own_workspace_ref elapsed_ms).
Abbreviation reachable := (reachable own_workspace_ref elapsed_ms).

(** ** The registry under one step *)

Lemma segment_invocations o f s : invocations (segment o f s) = invocations s.
Proof. unfold segment. by destruct (objs s !! o). Qed.
Lemma close_claims_invocations s : invocations (close_claims s) = invocations s.
Proof.
  unfold close_claims. generalize (invocations s) at 1 as d. induction d as [|ko d IH]; [done|].
  cbn [foldr]. by rewrite segment_invocations.
Qed.
Lemma acquire_invocations o u b s : invocations (acquire_session elapsed_ms o u b s) = invocations s.
Proof.
  unfold acquire_session. destruct (objs s !! o); [|done]. destruct (iv_owner _); try done.
  destruct (_ || _); [done|]. cbn. by destruct (_ || _).
Qed.
Lemma send_invocations o u r t s : invocations (send_ends elapsed_ms o u r t s) = invocations s.
Proof.
  unfold send_ends. destruct (objs s !! o); [|done]. destruct (iv_owner _); try done. destruct r; [|done].
  destruct (if session_started _ _ then _ else _); [done|]. by destruct (session_started _ _).
Qed.
Lemma cancel_invocations k r s : invocations (fst (cancel k r s)) = invocations s.
Proof.
  unfold cancel. destruct (find_invocation k s) as [[o i]|]; [|done]. destruct (iv_cleanup i); try done.
  destruct (iv_terminal i); [done|]. destruct (expired _ i); [done|]. cbn. by rewrite segment_invocations.
Qed.
Lemma adopt_invocations v s : exists d, invocations (fst (_adopt_restored_run v s)) = invocations s ++ d.
Proof.
  unfold _adopt_restored_run. assert (exists d, invocations s = invocations s ++ d) as H0
    by (exists []; by rewrite app_nil_r).
  destruct (assoc _ _); [exact H0|]. destruct (sv_state v); [|exact H0]. destruct (public s); [|exact H0].
  destruct (negb _); [exact H0|]. destruct (negb _); [exact H0|].
  destruct (match sv_started v with Some _ => _ | None => _ end); [exact H0|]. cbn. eauto.
Qed.
Lemma retire_invocations l n e s : invocations (fst (retire_session l n e s)) = invocations s.
Proof. unfold retire_session. repeat (case_match; try done). Qed.

Lemma NoDup_fst_inj {A B} (d : list (A * B)) k a b :
  NoDup (map fst d) -> In (k, a) d -> In (k, b) d -> a = b.
Proof.
  intros Hnd Ha Hb. induction d as [|[k' c] d IH]; [done|]. cbn in *. apply NoDup_cons in Hnd as [Hn Hnd].
  assert (forall e, In (k, e) d -> k' <> k) as Hne.
  { intros e He ->. apply Hn, list_elem_of_In, in_map_iff. by exists (k, e). }
  destruct Ha as [Ha|Ha], Hb as [Hb|Hb]; [congruence|..|by apply IH];
    exfalso; eapply Hne; try done; congruence.
Qed.

(** Only the reservation of a slot drops records, and it drops evictable ones. *)
Lemma reserve_spec s s' : _reserve_capacity s = Ok s' ->
  exists gone : list string,
    (forall k, In k gone -> In k (evictable_keys s))
    /\ s' = put_invocations (filter (fun ko => in_strs (fst ko) gone = false) (invocations s)) s.
Proof.
  unfold _reserve_capacity. destruct (_ <? _)%nat.
  - intros [= <-]. exists []. split; [by intros k []|].
    assert (filter (fun ko : string * nat => in_strs (fst ko) [] = false) (invocations s) = invocations s) as ->;
      [|by destruct s].
    induction (invocations s) as [|x d IH]; [done|]. rewrite filter_cons_True by done. by rewrite IH.
  - destruct (evictable_keys s) as [|k ks] eqn:E; [done|]. intros [= <-].
    exists (take (length (invocations s) - MAX_RETAINED_RUNS + 1) (k :: ks)). split; [|done].
    intros k' Hk. apply list_elem_of_In in Hk. apply elem_of_take in Hk as (j & Hj & _). apply list_elem_of_In. by eapply list_elem_of_lookup_2.
Qed.

Lemma evictable_key_in s k o :
  NoDup (map fst (invocations s)) -> In (k, o) (invocations s) -> In k (evictable_keys s) ->
  evictable (idempotency_window s) s o = true.
Proof.
  intros Hnd Hin Hk. unfold evictable_keys in Hk. apply in_map_iff in Hk as ((k' & o') & Heq & Hf).
  cbn in Heq. subst k'. apply list_elem_of_In, list_elem_of_filter in Hf as [Hev Hf]. cbn in Hev.
  apply list_elem_of_In in Hf. by rewrite (NoDup_fst_inj _ _ _ _ Hnd Hin Hf).
Qed.

(** A start either leaves the service alone or adds the new invocation to what the reservation
    of a slot kept. *)
Lemma start_cases r run_id s :
  fst (start r run_id s) = s
  \/ exists p s1, public s = Some p /\ frozen s = false /\ closed s = false
       /\ find_invocation (sr_invocation_id r) s = None /\ _reserve_capacity s = Ok s1
       /\ start r run_id s
          = (add_invocation (sr_invocation_id r) (new_invocation p r run_id s1) s1, Ok (next_id s1)).
Proof.
  unfold Execution.start. destruct (frozen s); [by left|].
  destruct (match own_workspace_ref with Some _ => _ | None => _ end); [by left|].
  destruct (closed s); [by left|]. destruct (find_invocation _ s) as [[]|]; [left; by destruct (decide _)|].
  destruct (public s) as [p|] eqn:Hp; [|by left]. destruct (negb _); [by left|].
  destruct (_reserve_capacity s) as [s1|] eqn:Hr; [|by left]. right. by exists p, s1.
Qed.

Lemma step_keeps s s' k o :
  Inv s -> step s s' -> In (k, o) (invocations s) ->
  In (k, o) (invocations s') \/ evictable (idempotency_window s) s o = true.
Proof.
  intros I Hs Hin. destruct Hs; rewrite ?segment_invocations, ?close_claims_invocations,
    ?acquire_invocations, ?send_invocations, ?cancel_invocations, ?retire_invocations;
    try (by left); try (left; by rewrite segment_invocations).
  - left. unfold configure. by destruct (closed s).
  - destruct (start_cases r run_id s) as [->|(p & s1 & _ & _ & _ & _ & Hr & ->)]; [by left|].
    apply reserve_spec in Hr as (gone & Hg & ->).
    cbn. destruct (in_strs k gone) eqn:Ek.
    + right. apply (evictable_key_in s k); [by apply in_keys|done|]. apply Hg. by apply in_strs_iff.
    + left. apply in_app_iff. left. apply list_elem_of_In, list_elem_of_filter. split; [done|].
      by apply list_elem_of_In.
  - left. unfold run_timeout. destruct (bool_decide _); by rewrite ?segment_invocations.
  - left. destruct (adopt_invocations v s) as [d ->]. apply in_app_iff. by left.
  - left. unfold archive_lock. by destruct (bool_decide _).
  - left. unfold archive_unlock. by destruct (bool_decide _).
Qed.

(** The monotonic clock does not go back. *)
Lemma segment_mono o f s : mono (segment o f s) = mono s.
Proof. unfold segment. by destruct (objs s !! o). Qed.
Lemma close_claims_mono s : mono (close_claims s) = mono s.
Proof.
  unfold close_claims. generalize (invocations s) as d. induction d as [|ko d IH]; [done|].
  cbn [foldr]. by rewrite segment_mono.
Qed.
Lemma step_mono s s' : step s s' -> mono s <= mono s'.
Proof.
  intros Hs. destruct Hs; rewrite ?segment_mono, ?close_claims_mono; try (cbn; lia);
    apply Z.eq_le_incl; symmetry.
  - unfold configure. by destruct (closed s).
  - destruct (start_cases r run_id s) as [->|(p & s1 & _ & _ & _ & _ & Hr & ->)]; [done|].
    by apply reserve_spec in Hr as (gone & Hg & ->).
  - unfold cancel. repeat (case_match; try done). cbn. by rewrite segment_mono.
  - unfold run_timeout. case_match; by rewrite ?segment_mono.
  - unfold acquire_session. repeat (case_match; try done).
  - unfold send_ends. repeat (case_match; try done).
  - unfold _adopt_restored_run. repeat (case_match; try done).
  - unfold archive_lock. by case_match.
  - unfold archive_unlock. by case_match.
  - unfold retire_session. repeat (case_match; try done).
Qed.

(** C14. Two invocations of one session never use the engine at the same time: if the engine
    may be working for an invocation, or its owner stands between the gate and the end of the
    send, the session's lock is its own, no archive operation holds it, and no other invocation
    of the session is in that position. *)
Theorem engine_turns_exclusive s o o' i i' :
  reachable s -> objs s !! o = Some i -> objs s !! o' = Some i' ->
  iv_session i = iv_session i' ->
  (live (iv_log i) || holding (iv_owner i)) = true ->
  iv_session i ∈ locked s /\ (iv_session i ∉ archiving s)
  /\ ((live (iv_log i') || holding (iv_owner i')) = true -> o' = o).
Proof.
  intros R%reachable_Inv Hi Hi' Hs Hb.
  assert (forall p j, objs s !! p = Some j -> (live (iv_log j) || holding (iv_owner j)) = true ->
            iv_reservation j = Some (iv_session j)) as Hres.
  { intros p j Hj Hl. pose proof (in_objs s R p j Hj) as J.
    assert (reserved j = true) as Hr.
    { apply orb_true_iff in Hl as [Hl|Hl]; [by apply (oi_live j J)|by apply (oi_holding j J)]. }
    unfold reserved in Hr. destruct (iv_reservation j) as [l|] eqn:El; [|done].
    by rewrite (oi_session j J l El). }
  pose proof (Hres o i Hi Hb) as Hr. destruct (in_locked s R o i _ Hi Hr). split_and!; [done..|].
  intros Hb'. apply (in_excl s R o' o i' i (iv_session i')); [done..|by apply (Hres o')|by rewrite <- Hs].
Qed.

(** C15. An invocation is handed to the engine at most once, whatever retries, cancellations
    and deadlines cross it, and an invocation that was never sent shows no start. *)
Theorem native_send_once s o i :
  reachable s -> objs s !! o = Some i ->
  starts (iv_log i) = (if iv_possible_send i then 1 else 0)%nat
  /\ (unsent (iv_owner i) = true -> iv_possible_send i = false).
Proof.
  intros R Hi. pose proof (reachable_Oinv _ _ s o i R Hi) as I.
  split; [apply (oi_start i I)|]. intros Hu. by apply (oi_unsent i I).
Qed.

(** Once an invocation has ended (its [terminal_at] is set), its state, error, result and
    answer never change again; and an answer given to [start] is never replaced, whether the
    invocation has ended or not. *)
Theorem ended_is_final s s' o i :
  reachable s -> rtc step s s' -> objs s !! o = Some i ->
  exists j, objs s' !! o = Some j /\ identity_of j = identity_of i
    /\ (at_end i = true -> outcome_of j = outcome_of i)
    /\ (fut_done (iv_started i) = true -> iv_started j = iv_started i).
Proof.
  intros R%reachable_Inv Hss Hi. destruct (Inv_steps _ _ s s' Hss R) as [_ E].
  destruct (E o i Hi) as (j & Hj & [H1 H2 H3 H4 H5]). by exists j.
Qed.

(** ** Retries *)

Lemma find_registered s k o i :
  Inv s -> In (k, o) (invocations s) -> objs s !! o = Some i -> find_invocation k s = Some (o, i).
Proof.
  intros I Hin Hi. unfold find_invocation. destruct (assoc k (invocations s)) as [o'|] eqn:E.
  - apply assoc_in in E. rewrite (NoDup_fst_inj _ _ _ _ (in_keys s I) E Hin). by rewrite Hi.
  - exfalso. revert E Hin. clear. induction (invocations s) as [|[k' o'] d IH]; [done|]. cbn.
    destruct (String.eqb_spec k k'); [done|]. intros E [[= <- <-]|Hin]; [done|auto].
Qed.

(** An accepted start is registered with its request. *)
Lemma start_registers r run_id s s' o :
  start r run_id s = (s', Ok o) ->
  match own_workspace_ref with Some w => rq_workspace_ref r = w | None => True end
  /\ In (sr_invocation_id r, o) (invocations s')
  /\ exists i, objs s' !! o = Some i /\ iv_request i = r.
Proof.
  unfold Execution.start. destruct (frozen s); [done|].
  destruct (match own_workspace_ref with Some _ => _ | None => _ end) eqn:Hw; [done|].
  assert (match own_workspace_ref with Some w => rq_workspace_ref r = w | None => True end) as Hw'.
  { destruct own_workspace_ref; [|done]. by apply negb_false_iff, String.eqb_eq in Hw. }
  destruct (closed s); [done|]. destruct (find_invocation _ s) as [[o' i]|] eqn:Hf.
  - apply find_invocation_Some in Hf as [Hin Hi]. destruct (decide _); [|done].
    intros [= <- <-]. split_and!; [done..|]. by exists i.
  - destruct (public s) as [p|]; [|done]. destruct (negb _); [done|].
    destruct (_reserve_capacity s) as [s1|]; [|done]. intros [= <- <-]. split_and!; [done|..].
    + cbn. apply in_app_iff. right. by left.
    + eexists. split; [apply lookup_insert_eq|done].
Qed.

(** A step under one idempotency window: the limits are not reconfigured meanwhile. *)
Definition steady (s s' : Service) : Prop := step s s' /\ idempotency_window s' = idempotency_window s.

Lemma retained_run s s' k o j :
  rtc steady s s' -> Inv s -> In (k, o) (invocations s) -> objs s' !! o = Some j ->
  (forall t, iv_terminal_at j = Some t -> mono s' - t < idempotency_window s') ->
  Inv s' /\ idempotency_window s' = idempotency_window s /\ mono s <= mono s'
  /\ sevolves s s' /\ In (k, o) (invocations s').
Proof.
  induction 1 as [s|s s1 s2 [Hs Hw] Hr IH]; intros I Hin Hj Ht; [split_and!; done|].
  destruct (Inv_step _ _ s s1 Hs I) as [I1 E1]. pose proof (step_mono s s1 Hs) as Hm.
  destruct (step_keeps s s1 k o I Hs Hin) as [Hin1|Hev].
  - destruct (IH I1 Hin1 Hj Ht) as (I2 & Hw2 & Hm2 & E2 & Hin2).
    split_and!; [done|congruence|lia|by trans s1|done].
  - exfalso. unfold evictable in Hev. destruct (objs s !! o) as [i|] eqn:Hi; [|done].
    assert (rtc step s1 s2) as Hr' by (eapply rtc_subrel; [|exact Hr]; by intros ?? []).
    destruct (Inv_steps _ _ s1 s2 Hr' I1) as [_ E2].
    assert (sevolves s s2) as E by by trans s1.
    assert (forall a b, rtc steady a b -> mono a <= mono b /\ idempotency_window b = idempotency_window a) as Hmw.
    { induction 1 as [|a b c [Hab Hw'] _ [Hm' Hw'']]; [done|]. pose proof (step_mono a b Hab). split; [lia|congruence]. }
    destruct (Hmw s1 s2 Hr) as [Hm2 Hw2].
    destruct (E o i Hi) as (j' & Hj' & [_ _ _ Hfin _]). rewrite Hj in Hj'. injection Hj' as <-.
    destruct (iv_terminal_at i) as [t|] eqn:Hti; [|by destruct (iv_terminal i)].
    assert (iv_terminal_at j = Some t) as Htj.
    { unfold at_end in Hfin. rewrite Hti in Hfin. specialize (Hfin eq_refl). unfold outcome_of in Hfin. congruence. }
    specialize (Ht t Htj). destruct (iv_terminal i); [|done].
    destruct (Z.leb_spec (idempotency_window s) (mono s - t)); [lia|done].
Qed.

(** A start is idempotent for as long as its record is kept: however the service went on
    meanwhile, until the idempotency window has passed since the end of the invocation, the
    same request again answers with the same invocation and changes nothing, and a different
    request under its id is refused and changes nothing either. *)
Theorem retry_is_idempotent r run_id s s1 s2 o i :
  reachable s -> start r run_id s = (s1, Ok o) -> rtc steady s1 s2 -> objs s2 !! o = Some i ->
  (forall t, iv_terminal_at i = Some t -> mono s2 - t < idempotency_window s2) ->
  frozen s2 = false -> closed s2 = false ->
  (forall run_id', start r run_id' s2 = (s2, Ok o))
  /\ (forall r' run_id', sr_invocation_id r' = sr_invocation_id r -> r' <> r ->
       exists e, start r' run_id' s2 = (s2, Err e) /\ (e = ConflictingStart \/ e = WorkspaceMismatch)).
Proof.
  intros R Hst Hr Hi Ht Hf Hc. pose proof (start_registers r run_id s s1 o Hst) as (Hw & Hin & i1 & Hi1 & Hreq).
  assert (Inv s1) as I1.
  { replace s1 with (fst (start r run_id s)) by by rewrite Hst. by apply Inv_start, (reachable_Inv own_workspace_ref elapsed_ms). }
  destruct (retained_run s1 s2 _ o i Hr I1 Hin Hi Ht) as (I2 & _ & _ & E & Hin2).
  destruct (E o i1 Hi1) as (j & Hj & Ev). rewrite Hi in Hj. injection Hj as <-.
  assert (iv_request i = r) as Hri.
  { pose proof (ev_identity _ _ Ev) as Hid. unfold identity_of in Hid. congruence. }
  pose proof (find_registered s2 _ o i I2 Hin2 Hi) as Hfind. split.
  - intros run_id'. unfold Execution.start. rewrite Hf, Hc, Hfind.
    assert (match own_workspace_ref with Some w => negb (String.eqb (rq_workspace_ref r) w) | None => false end = false)
      as -> by (destruct own_workspace_ref; [subst; by rewrite String.eqb_refl|done]).
    by rewrite decide_True.
  - intros r' run_id' Hk Hne. unfold Execution.start. rewrite Hf, Hc, Hk, Hfind.
    destruct (match own_workspace_ref with Some _ => _ | None => _ end); [eauto|].
    rewrite decide_False by congruence. eauto.
Qed.

(** ** Retention *)

Lemma evictable_keys_In s k :
  In k (evictable_keys s) -> exists o, In (k, o) (invocations s) /\ evictable (idempotency_window s) s o = true.
Proof.
  unfold evictable_keys. intros ((k' & o) & <- & Hf)%in_map_iff.
  apply list_elem_of_In, list_elem_of_filter in Hf as [Hev Hf]. exists o. split; [by apply list_elem_of_In|done].
Qed.

Lemma filter_drops {A} (P : A -> bool) (d : list A) x :
  In x d -> P x = true -> (length (filter (fun y => P y = false) d) < length d)%nat.
Proof.
  intros Hin Hx. induction d as [|y d IH]; [done|]. rewrite filter_cons.
  assert (length (filter (fun y => P y = false) d) <= length d)%nat as Hle by apply length_filter.
  destruct Hin as [->|Hin].
  - rewrite decide_False by congruence. cbn. lia.
  - specialize (IH Hin). destruct (decide _); cbn; lia.
Qed.

(** The registry is bounded: a start never lets it outgrow [MAX_RETAINED_RUNS] (or the size
    it had, when a restore brought it past the cap).  Every record it drops to make room ended,
    released its session, certainly, more than an idempotency window ago; and when no record
    qualifies the start is refused with the registry full. *)
Theorem start_capacity r run_id s :
  reachable s ->
  (length (invocations (fst (start r run_id s))) <= Nat.max MAX_RETAINED_RUNS (length (invocations s)))%nat
  /\ (forall k o, In (k, o) (invocations s) -> ~ In (k, o) (invocations (fst (start r run_id s))) ->
       exists i t, objs s !! o = Some i /\ iv_terminal_at i = Some t
         /\ idempotency_window s <= mono s - t /\ iv_reservation i = None
         /\ iv_state i <> Unknown /\ uncertain i = false)
  /\ (snd (start r run_id s) = Err CapacityExceeded ->
       (MAX_RETAINED_RUNS <= length (invocations s))%nat /\ evictable_keys s = []).
Proof.
  intros I%reachable_Inv. split_and!.
  - destruct (start_cases r run_id s) as [->|(p & s1 & _ & _ & _ & _ & Hr & ->)]; [lia|].
    cbn [fst]. unfold add_invocation. cbn. rewrite length_app. cbn. unfold _reserve_capacity in Hr.
    destruct (Nat.ltb_spec (length (invocations s)) MAX_RETAINED_RUNS); [injection Hr as <-; lia|].
    destruct (evictable_keys s) as [|k ks] eqn:Hev; [done|]. injection Hr as <-. cbn [invocations put_invocations].
    destruct (evictable_keys_In s k) as (o & Hin & _); [rewrite Hev; by left|].
    match goal with |- (length (filter (fun ko => in_strs ko.1 ?g = false) _) + 1 <= _)%nat =>
      pose proof (filter_drops (fun ko : string * nat => in_strs (fst ko) g) (invocations s) (k, o) Hin) as Hd end.
    rewrite Nat.add_1_r in Hd. specialize (Hd ltac:(cbn; by rewrite String.eqb_refl)).
    rewrite !Nat.add_1_r. lia.
  - intros k o Hin Hout.
    destruct (start_cases r run_id s) as [E|(p & s1 & _ & _ & _ & _ & Hr & E)]; rewrite E in Hout; [done|].
    apply reserve_spec in Hr as (gone & Hg & ->). cbn in Hout. rewrite in_app_iff in Hout.
    destruct (in_strs k gone) eqn:Ek.
    2: { exfalso. apply Hout. left. apply list_elem_of_In, list_elem_of_filter. split; [done|]. by apply list_elem_of_In. }
    apply in_strs_iff, Hg in Ek. pose proof (evictable_key_in s k o (in_keys s I) Hin Ek) as Hev.
    unfold evictable in Hev. destruct (objs s !! o) as [i|] eqn:Hi; [|done].
    apply andb_true_iff in Hev as [Hev Hstop]. apply andb_true_iff in Hev as [Hev Heng].
    apply andb_true_iff in Hev as [Hev Hst]. apply andb_true_iff in Hev as [Hev Hcl].
    apply andb_true_iff in Hev as [Hev Hres]. apply andb_true_iff in Hev as [_ Ht].
    destruct (iv_terminal_at i) as [t|] eqn:Hta; [|done]. apply negb_true_iff in Hst.
    exists i, t. split_and!; [done|done|lia|by apply bool_decide_eq_true in Hres| |].
    + by apply bool_decide_eq_false in Hst.
    + unfold uncertain. rewrite Hst. cbn. by destruct (iv_cleanup i), (iv_engine_cancel i), (iv_owner_stop i).
  - unfold Execution.start. destruct (frozen s); [done|].
    destruct (match own_workspace_ref with Some _ => _ | None => _ end); [done|].
    destruct (closed s); [done|]. destruct (find_invocation _ s) as [[]|]; [by destruct (decide _)|].
    destruct (public s); [|done]. destruct (negb _); [done|]. unfold _reserve_capacity.
    destruct (Nat.ltb_spec (length (invocations s)) MAX_RETAINED_RUNS); [done|].
    by destruct (evictable_keys s).
Qed.

(** ** Cleanups *)

Lemma verdict_done now u reason st i :
  iv_cleanup (cleanup_verdict elapsed_ms now u reason st i) = ClDone
  /\ iv_terminal_at (cleanup_verdict elapsed_ms now u reason st i) = Some now
  /\ iv_terminal (cleanup_verdict elapsed_ms now u reason st i) = iv_terminal i
  /\ iv_owner_stop (cleanup_verdict elapsed_ms now u reason st i) = iv_owner_stop i
  /\ (halted (iv_engine_cancel i) && stopped (iv_owner_stop i) = true ->
        iv_reservation (cleanup_verdict elapsed_ms now u reason st i) = None
        /\ iv_state (cleanup_verdict elapsed_ms now u reason st i) = st)
  /\ (halted (iv_engine_cancel i) && stopped (iv_owner_stop i) = false ->
        iv_reservation (cleanup_verdict elapsed_ms now u reason st i) = iv_reservation i
        /\ iv_state (cleanup_verdict elapsed_ms now u reason st i) = Unknown).
Proof.
  unfold cleanup_verdict, uncertain_end, engine_result, stop_result.
  destruct (iv_engine_cancel i) as [| |[|]], (iv_owner_stop i) as [| | | |[|]] eqn:Hs;
    try (set (err := _ +:+ _); clearbody err); try (set (err := str_or _ _); clearbody err);
    match goal with |- context [_retain_reporting elapsed_ms u ?k] =>
      destruct (retain_result elapsed_ms u k) as [res E]; rewrite E end;
    by destruct i; cbn in *; subst.
Qed.

(** The end of both observations, or of the time they are given. *)
Definition out_of_time (now : Z) (b : HaltBudget) : bool :=
  (force_deadline b <=? now) && match confirmation_deadline b with Some c => c <=? now | None => true end.

Lemma wakes_past now u u' reason st b i :
  iv_cleanup i = ClWait reason st \/ (iv_cleanup i = ClWaitForced reason st /\ confirmed (Some b) = true) ->
  iv_budget i = Some b -> out_of_time now b = true ->
  exists v, cleanup_wakes elapsed_ms now u' (cleanup_wakes elapsed_ms now u i)
            = cleanup_verdict elapsed_ms now v reason st i
          \/ cleanup_wakes elapsed_ms now u' (cleanup_wakes elapsed_ms now u i)
            = cleanup_verdict elapsed_ms now v reason st (set_iv_cleanup (ClWaitForced reason st) i).
Proof.
  intros Hc Hb [Hf Hco]%andb_true_iff.
  assert (forall v j, cleanup_wakes elapsed_ms now u' (cleanup_verdict elapsed_ms now v reason st j)
            = cleanup_verdict elapsed_ms now v reason st j) as Hidem.
  { intros v j. unfold cleanup_wakes. by destruct (verdict_done now v reason st j) as [-> _]. }
  unfold cleanup_wakes at 2 4. rewrite Hb.
  destruct Hc as [-> | [-> Hd]].
  - destruct (both_ended i) eqn:He; [exists u; left; apply Hidem|]. rewrite Hf.
    destruct (confirmation_deadline b) as [c|] eqn:Hd; [|exists u; left; apply Hidem].
    exists u'. right. unfold cleanup_wakes. cbn. rewrite Hb. unfold past. rewrite Hd, Hco.
    by rewrite orb_true_r.
  - unfold past. destruct (both_ended i) eqn:He; [exists u; left; apply Hidem|]. cbn [orb].
    unfold confirmed in Hd. destruct (confirmation_deadline b) as [c|]; [|done].
    rewrite Hco. exists u. left. apply Hidem.
Qed.

(** C16. A claimed cleanup ends by the clock alone: whatever the engine and the owner do or fail
    to do, once the deadlines of its budget are past the segments of the worker itself end it.
    It ends in one of two ways: with the engine halted and the owner stopped it releases the
    session and takes the outcome it was claimed for; otherwise it keeps the session's lock and
    the outcome is unknown. *)
Theorem cleanup_ends_by_the_clock s o i b now u u' :
  reachable s -> objs s !! o = Some i -> working (iv_cleanup i) = true ->
  iv_budget i = Some b -> out_of_time now b = true ->
  let j := cleanup_wakes elapsed_ms now u' (cleanup_wakes elapsed_ms now u (cleanup_run (cleanup_spawn i))) in
  iv_cleanup j = ClDone /\ iv_terminal j = true /\ iv_terminal_at j = Some now
  /\ (iv_reservation j = None /\ live (iv_log j) = false /\ ended (iv_owner j) = true
      \/ iv_reservation j = iv_reservation i /\ iv_state j = Unknown).
Proof.
  intros R Hi Hw Hb Ho. pose proof (reachable_Oinv _ _ s o i R Hi) as I.
  set (k := cleanup_run (cleanup_spawn i)).
  assert (exists reason st, (iv_cleanup k = ClWait reason st
             \/ (iv_cleanup k = ClWaitForced reason st /\ confirmed (Some b) = true))
          /\ iv_budget k = Some b /\ iv_terminal k = iv_terminal i /\ iv_reservation k = iv_reservation i)
    as (reason & st & Hc & Hbk & Htk & Hrk).
  { pose proof (oi_forced i I) as Hfo. rewrite Hb in Hfo. unfold k, cleanup_spawn, cleanup_run, stop_verdict.
    destruct (iv_cleanup i) as [|r st|r st|r st|r st| |] eqn:E; try done; exists r, st; rewrite ?E; cbn;
      try (destruct (iv_owner i)); cbn; auto. }
  assert (Oinv k) as Ik by by apply Oinv_run, Oinv_spawn.
  assert (iv_terminal k = true) as Ht.
  { rewrite Htk. apply (oi_claimed i I). by destruct (iv_cleanup i). }
  clearbody k. intros j.
  assert (exists v k', iv_reservation k' = iv_reservation k /\ iv_terminal k' = true /\ Oinv j
          /\ j = cleanup_verdict elapsed_ms now v reason st k') as (v & k' & Hr' & Ht' & Ij & Hj).
  { assert (Oinv j) as Ij by by apply Oinv_cleanup, Oinv_cleanup.
    destruct (wakes_past now u u' reason st b k Hc Hbk Ho) as (v & [E|E]);
      [exists v, k|exists v, (set_iv_cleanup (ClWaitForced reason st) k)]; by split_and!; try (by destruct k). }
  destruct (verdict_done now v reason st k') as (H1 & H2 & H3 & Hos & H4 & H5). rewrite <- Hj in *.
  split_and!; [done|congruence|done|]. destruct (halted (iv_engine_cancel k') && stopped (iv_owner_stop k')) eqn:E.
  - left. destruct (H4 eq_refl) as [Hres _]. split; [done|]. unfold reserved.
    pose proof (oi_live j Ij) as Hl. unfold reserved in Hl. rewrite Hres in Hl. cbn in Hl.
    destruct (live (iv_log j)); [by specialize (Hl eq_refl)|]. split; [done|].
    apply (oi_stopped j Ij). rewrite Hos. by apply andb_true_iff in E as [_ Hs].
  - right. destruct (H5 eq_refl) as [-> ->]. by rewrite Hr'.
Qed.

(** ** Close *)

Lemma closing_claims s :
  Inv s -> Inv (close_claims s)
  /\ forall k o i, In (k, o) (invocations s) -> objs (close_claims s) !! o = Some i -> iv_terminal i = true.
Proof.
  intros I. unfold close_claims. generalize (invocations s) as d. induction d as [|[k o] d [IH IHt]]; [done|].
  cbn [foldr snd]. set (s' := foldr _ s d) in *. clearbody s'.
  set (f := fun i => match iv_cleanup i with
    | ClNone => if iv_terminal i then i else _claim_explicit_cancel (mono s') "shutdown" i | _ => i end).
  assert (forall i, Oinv i -> Oinv (f i) /\ evolves i (f i) /\ gives_up i (f i) /\ iv_terminal (f i) = true) as Hf.
  { intros i Ii. unfold f. pose proof (ev_same i) as [??].
    destruct (iv_cleanup i) eqn:Hc; [|split_and!; try done; by apply (oi_claimed i Ii); rewrite Hc..].
    destruct (iv_terminal i) eqn:Ht; [done|]. destruct (ev_cancel (mono s') "shutdown" i Ii Ht) as [??].
    split_and!; [by apply Oinv_cancel|done..|]. destruct (Oinv_fresh i Ii Ht) as (_ & Hj & _).
    by destruct (cancel_claimed (mono s') "shutdown" i Hc Hj) as (? & ? & ? & _ & _ & ->). }
  destruct (Inv_segment o f s' IH) as [I' E'].
  { intros i _ Ii. by destruct (Hf i Ii) as (? & ? & ? & _). }
  split; [done|]. intros k' o' i' Hin Hi'.
  destruct Hin as [[= <- <-]|Hin].
  - unfold segment in Hi'. destruct (objs s' !! o) as [i|] eqn:Hi; [|by rewrite Hi in Hi'].
    cbn in Hi'. rewrite lookup_insert_eq in Hi'. injection Hi' as <-. apply Hf, (in_objs s' IH o i Hi).
  - destruct (objs s' !! o') as [i|] eqn:Hi.
    + destruct (E' o' i Hi) as (j & Hj & Ev). rewrite Hi' in Hj. injection Hj as <-.
      apply (ev_terminal _ _ Ev), (IHt k' o' i Hin Hi).
    + exfalso. unfold segment in Hi'. destruct (objs s' !! o) eqn:Hi2; [|congruence].
      cbn in Hi'. rewrite lookup_insert_ne in Hi'; [congruence|]. intros <-. congruence.
Qed.

(** Closed, and every registered invocation terminal. *)
Definition winding_down (s : Service) : Prop :=
  closed s = true /\ forall k o i, In (k, o) (invocations s) -> objs s !! o = Some i -> iv_terminal i = true.

Lemma winding_keep s s' :
  Inv s -> sevolves s s' -> closed s' = closed s -> invocations s' = invocations s -> winding_down s -> winding_down s'.
Proof.
  intros I E Hc Hi [W1 W2]. split; [congruence|]. intros k o j Hin Hj. rewrite Hi in Hin.
  destruct (in_dict s I k o Hin) as (i & Ho & _). destruct (E o i Ho) as (j' & Hj' & Ev).
  rewrite Hj in Hj'. injection Hj' as <-. by apply (ev_terminal _ _ Ev), (W2 k o i).
Qed.

Lemma segment_closed o f s : closed (segment o f s) = closed s.
Proof. unfold segment. by destruct (objs s !! o). Qed.
Lemma close_claims_closed s : closed (close_claims s) = closed s.
Proof.
  unfold close_claims. generalize (invocations s) as d. induction d as [|ko d IH]; [done|].
  cbn [foldr]. by rewrite segment_closed.
Qed.
Lemma acquire_closed o u b s : closed (acquire_session elapsed_ms o u b s) = closed s.
Proof.
  unfold acquire_session. destruct (objs s !! o); [|done]. destruct (iv_owner _); try done.
  destruct (_ || _); [done|]. cbn. by destruct (_ || _).
Qed.
Lemma send_closed o u r t s : closed (send_ends elapsed_ms o u r t s) = closed s.
Proof.
  unfold send_ends. destruct (objs s !! o); [|done]. destruct (iv_owner _); try done. destruct r; [|done].
  destruct (if session_started _ _ then _ else _); [done|]. by destruct (session_started _ _).
Qed.

Lemma winding_step s s' : Inv s -> step s s' -> winding_down s -> winding_down s'.
Proof.
  intros I Hs W. destruct (Inv_step _ _ s s' Hs I) as [_ E]. pose proof W as [W1 W2].
  assert (closed s' = closed s -> invocations s' = invocations s -> winding_down s') as Hk
    by (intros; by apply (winding_keep s)).
  destruct Hs; try (by apply Hk); try (apply Hk; [apply segment_closed|apply segment_invocations]).
  - revert E Hk. unfold configure. by rewrite W1.
  - destruct (start_cases r run_id s) as [->|(p & s1 & _ & _ & Hc & _)]; [done|congruence].
  - apply Hk; [|apply cancel_invocations]. unfold cancel. destruct (find_invocation k s) as [[o i]|]; [|done].
    destruct (iv_cleanup i); try done. destruct (iv_terminal i); [done|]. destruct (expired _ i); [done|].
    apply segment_closed.
  - revert E Hk. unfold run_timeout. destruct (bool_decide _); [|done]. intros E Hk.
    apply Hk; [apply segment_closed|apply segment_invocations].
  - apply Hk; [apply close_claims_closed|apply close_claims_invocations].
  - apply Hk; [apply acquire_closed|apply acquire_invocations].
  - apply Hk; [apply send_closed|apply send_invocations].
  - revert E Hk. unfold _adopt_restored_run. destruct (assoc _ _) eqn:Ha; [done|].
    destruct (sv_state v) as [st|]; [|done]. destruct (public s) as [p|]; [|done].
    destruct (negb _); [done|]. destruct (negb _); [done|].
    destruct (match sv_started v with Some _ => _ | None => _ end); [done|]. intros _ _.
    split; [done|]. intros k o i. cbn. rewrite in_app_iff, lookup_insert_Some.
    intros [Hin|[[= _ <-]|[]]] [[Ho <-]|[Hne Hi]]; try done.
    by apply (W2 k o i).
  - revert E Hk. unfold archive_lock. destruct (bool_decide _); [done|]. intros _ Hk. by apply Hk.
  - revert E Hk. unfold archive_unlock. destruct (bool_decide _); [|done]. intros _ Hk. by apply Hk.
  - revert E Hk. unfold retire_session. destruct (sessions s !! l); [|done]. destruct (existsb _ _); [done|].
    destruct (session_info _ _ _); [|done]. destruct (_ || _); [done|]. destruct engine; [|done].
    intros _ Hk. by apply Hk.
Qed.

(** C17. A close leaves nothing running: once a closed service has claimed its invocations, every
    registered invocation is terminal and stays so, and none is admitted any more; and when no
    invocation blocks the close (the state in which the engine is asked to close), each of them
    has ended, its owner is over and the engine does no work for it. *)
Theorem close_leaves_nothing_running s s' k o i :
  reachable s -> closed s = true -> rtc step (close_claims s) s' ->
  In (k, o) (invocations s') -> objs s' !! o = Some i ->
  iv_terminal i = true
  /\ (close_blockers s' = [] ->
       at_end i = true /\ iv_state i <> Unknown /\ ended (iv_owner i) = true /\ live (iv_log i) = false).
Proof.
  intros R Hc Hss Hin Hi. pose proof (reachable_Inv _ _ s R) as I.
  assert (reachable (close_claims s)) as R1.
  { destruct R as (m & u & Hr). exists m, u. eapply rtc_r; [exact Hr|]. by constructor. }
  assert (reachable s') as R2 by (destruct R1 as (m & u & Hr); exists m, u; by etrans).
  assert (winding_down s') as [_ W].
  { assert (winding_down (close_claims s)) as W0.
    { destruct (closing_claims s I) as [_ Ht]. split; [by rewrite close_claims_closed|].
      intros k' o' i'. rewrite close_claims_invocations. apply Ht. }
    clear Hin Hi R R2. apply reachable_Inv in R1. revert R1 W0. clear -Hss.
    induction Hss as [s0|s0 s1 s2 Hs _ IH]; [done|]. intros I0 W0.
    apply IH; [by eapply Inv_step|by eapply winding_step]. }
  pose proof (W k o i Hin Hi) as Ht. split; [done|]. intros Hb.
  pose proof (reachable_Oinv _ _ s' o i R2 Hi) as Oi. pose proof (reachable_quiet _ _ s' R2 o i Hi Ht) as Q.
  assert (uncertain i = false) as Hu.
  { destruct (uncertain i) eqn:Hu; [|done]. exfalso.
    assert (In k (close_blockers s')) as Hk; [|by rewrite Hb in Hk].
    unfold close_blockers. apply in_map_iff. exists (k, o). split; [done|].
    apply list_elem_of_In, list_elem_of_filter. cbn. rewrite Hi. split; [done|]. by apply list_elem_of_In. }
  unfold uncertain in Hu. apply orb_false_iff in Hu as [Hu _]. apply orb_false_iff in Hu as [Hu _].
  apply orb_false_iff in Hu as [Hst Hcl]. apply bool_decide_eq_false in Hst.
  assert (working (iv_cleanup i) = false) as Hwk by (by destruct (iv_cleanup i)).
  rewrite (oi_final i Oi Ht), Hwk. destruct Q as [?|[[_ ?]|[? ?]]]; [congruence|done|done].
Qed.
End props.

(** ** Samples *)

Definition run_request : StartRequest :=
  {| sr_invocation_id := "inv-1"; sr_channel := "mr"; rq_workspace_ref := "w"; rq_session_ref := "s";
     sr_workspace_key := "k"; sr_session_key := "k"; sr_config_version := sample_version;
     sr_prompt := "review"; sr_deadline_at := seconds 600; sr_memory_available := None;
     sr_inform_user := false |}.
Definition no_ms (_ : Z) : json := JNull.
Definition receipt : EngineReceipt := {| er_native_session_id := Some "native"; er_input_id := "in-1" |}.

(** Configured, started, up to the running engine. *)
Definition configured : Service := fst (configure sample_public None (init 0 0)).
Definition started_run : Service := fst (start None run_request "run-1" configured).
Definition acquired_run : Service :=
  acquire_session no_ms 0 None None (segment 0 (owner_begin no_ms 0 0 None) started_run).
Definition sent_run : Service := segment 0 (owner_probe no_ms 0 0 None None) acquired_run.
Definition running_run : Service := send_ends no_ms 0 None (inl receipt) None sent_run.
Definition cancelled_run : Service := fst (cancel "inv-1" "stop" running_run).
Definition the_invocation (s : Service) : Invocation :=
  default (new_invocation sample_public run_request "" s) (objs s !! 0%nat).

Lemma reach_step s s' : reachable None no_ms s -> step None no_ms s s' -> reachable None no_ms s'.
Proof. intros (m & u & H) Hs. exists m, u. by eapply rtc_r. Qed.
Lemma configured_reachable : reachable None no_ms configured.
Proof. exists 0, 0. eapply rtc_l; [|apply rtc_refl]. apply step_configure. Qed.
Lemma started_reachable : reachable None no_ms started_run.
Proof. exact (reach_step _ _ configured_reachable (step_start None no_ms configured run_request "run-1")). Qed.
Lemma acquired_reachable : reachable None no_ms acquired_run.
Proof.
  exact (reach_step _ _ (reach_step _ _ started_reachable (step_owner_begin None no_ms started_run 0 None))
    (step_acquired None no_ms (segment 0 (owner_begin no_ms 0 0 None) started_run) 0 None None)).
Qed.
Lemma sent_reachable : reachable None no_ms sent_run.
Proof. exact (reach_step _ _ acquired_reachable (step_probe None no_ms acquired_run 0 None None)). Qed.
Lemma running_reachable : reachable None no_ms running_run.
Proof. exact (reach_step _ _ sent_reachable (step_send None no_ms sent_run 0 None (inl receipt) None)). Qed.
Lemma cancelled_reachable : reachable None no_ms cancelled_run.
Proof. exact (reach_step _ _ running_reachable (step_cancel None no_ms running_run "inv-1" "stop")). Qed.

Example the_run_runs :
  iv_state (the_invocation running_run) = Running
  /\ live (iv_log (the_invocation running_run)) = true
  /\ iv_reservation (the_invocation running_run) = Some "s".
Proof. repeat split; vm_compute; reflexivity. Qed.

Lemma engine_turns_exclusive_witness :
  "s" ∈ locked sent_run /\ ("s" ∉ archiving sent_run).
Proof.
  destruct (engine_turns_exclusive None no_ms sent_run 0 0 (the_invocation sent_run) (the_invocation sent_run)
    sent_reachable ltac:(vm_compute; reflexivity) ltac:(vm_compute; reflexivity) eq_refl
    ltac:(vm_compute; reflexivity)) as (H1 & H2 & _).
  exact (conj H1 H2).
Defined.

Lemma native_send_once_witness : starts (iv_log (the_invocation running_run)) = 1%nat.
Proof.
  destruct (native_send_once None no_ms running_run 0 (the_invocation running_run) running_reachable
    ltac:(vm_compute; reflexivity))
    as [H _]. exact H.
Defined.

Lemma ended_is_final_witness :
  exists j, objs cancelled_run !! 0%nat = Some j /\ iv_started j = iv_started (the_invocation running_run).
Proof.
  destruct (ended_is_final None no_ms running_run cancelled_run 0 (the_invocation running_run) running_reachable
    (rtc_once _ _ (step_cancel None no_ms running_run "inv-1" "stop")) ltac:(vm_compute; reflexivity)) as (j & Hj & _ & _ & Hs).
  exists j. split; [exact Hj|exact (Hs ltac:(vm_compute; reflexivity))].
Defined.

Lemma retry_is_idempotent_witness :
  start None run_request "run-2" started_run = (started_run, Ok 0%nat).
Proof.
  assert (start None run_request "run-1" configured = (started_run, Ok 0%nat)) as Hs
    by (vm_compute; reflexivity).
  assert (objs started_run !! 0%nat = Some (the_invocation started_run)) as Hi by (vm_compute; reflexivity).
  assert (forall t, iv_terminal_at (the_invocation started_run) = Some t ->
    mono started_run - t < idempotency_window started_run) as Ht by (intros t H; vm_compute in H; discriminate H).
  assert (frozen started_run = false) as Hf by (vm_compute; reflexivity).
  assert (closed started_run = false) as Hc by (vm_compute; reflexivity).
  destruct (retry_is_idempotent None no_ms run_request "run-1" configured started_run started_run 0%nat
    (the_invocation started_run) configured_reachable Hs (@rtc_refl _ _ started_run) Hi Ht Hf Hc) as [H _].
  exact (H "run-2").
Defined.

Lemma start_capacity_witness :
  (length (invocations (fst (start None run_request "run-1" configured))) <= MAX_RETAINED_RUNS)%nat.
Proof. apply (proj1 (start_capacity None no_ms run_request "run-1" configured configured_reachable)). Defined.

Lemma cleanup_ends_by_the_clock_witness :
  iv_cleanup (cleanup_wakes no_ms (seconds 10) None (cleanup_wakes no_ms (seconds 10) None
    (cleanup_run (cleanup_spawn (the_invocation cancelled_run))))) = ClDone.
Proof.
  apply (proj1 (cleanup_ends_by_the_clock None no_ms cancelled_run 0 (the_invocation cancelled_run)
    {| cleanup_started_at := 0; force_deadline := seconds 10; confirmation_deadline := None |}
    (seconds 10) None None cancelled_reachable ltac:(vm_compute; reflexivity)
    ltac:(vm_compute; reflexivity) ltac:(vm_compute; reflexivity) ltac:(vm_compute; reflexivity))).
Defined.

Lemma close_leaves_nothing_running_witness :
  iv_terminal (the_invocation (close_claims (put_closed true running_run))) = true.
Proof.
  assert (reachable None no_ms (put_closed true running_run)) as R
    by (eapply reach_step; [apply running_reachable|apply step_close]).
  apply (proj1 (close_leaves_nothing_running None no_ms (put_closed true running_run) _ "inv-1" 0
    (the_invocation (close_claims (put_closed true running_run))) R eq_refl (rtc_refl _ _)
    ltac:(vm_compute; auto) ltac:(vm_compute; reflexivity))).
Defined.
