(* ===== verification/Opencode.v ===== *)
(** * engine/opencode.py: the native session's event correlation

    [_NativeSession] turns the event stream of a native process into outcomes: durable events
    build busy intervals, an invocation whose input was delivered inside a closed interval
    settles with it.  The engine's answers (status, result, usage, settlement, cancellation)
    are read from that state and from the native HTTP responses, which are arguments. *)

From stdpp Require Import fin_sets gmap.
From Stdlib Require Import Ascii.
From S2P Require Import Prelude Sha256 PyJson Config Public StateRefs Effects Storage Wire Tokens Sessions Execution.
Local Open Scope string_scope.
Local Open Scope list_scope.
Local Open Scope Z_scope.

#[export] Instance EngineOutcome_eq_dec : EqDecision EngineOutcome.
Proof. solve_decision. Defined.

(** [isinstance(v, int)], a [bool] included. *)
Definition py_int (j : json) : option Z :=
  match j with JInt z => Some z | JBool b => Some (if b then 1 else 0) | _ => None end.

(** A [durable.seq] as Python compares it: an integer, a float, or a value whose comparison
    with an integer is a [TypeError]. *)
Inductive seqv := SInt (z : Z) | SFloat (f : pyfloat) | SOther.
Definition seq_of (j : json) : seqv :=
  match py_int j, j with
  | Some z, _ => SInt z
  | None, JFloat f => SFloat f
  | None, _ => SOther
  end.

(** *** Usage totals *)

Record usage := { u_input : option json; u_output : option json; u_reasoning : option json;
  u_cache_read : option json; u_cache_write : option json; u_cost_usd : option json; u_steps : Z }.
Definition no_usage : usage :=
  {| u_input := None; u_output := None; u_reasoning := None; u_cache_read := None;
     u_cache_write := None; u_cost_usd := None; u_steps := 0 |}.
Definition add_step (u : usage) : usage :=
  {| u_input := u_input u; u_output := u_output u; u_reasoning := u_reasoning u;
     u_cache_read := u_cache_read u; u_cache_write := u_cache_write u; u_cost_usd := u_cost_usd u;
     u_steps := u_steps u + 1 |}.
(** [RunUsage(source="opencode", basis="engine_estimate", ...)] *)
Definition _usage_record (u : usage) : option usage :=
  if forallb (fun v : option json => match v with None => true | Some _ => false end)
       [u_input u; u_output u; u_reasoning u; u_cache_read u; u_cache_write u; u_cost_usd u]
     && (u_steps u =? 0)
  then None else Some u.

(** *** Busy intervals *)

Record compaction := { cp_input_id : option string; cp_data : list (string * json) }.
Record interval := mkInterval {
  b_start : seqv; b_end : option seqv; b_outcome : option EngineOutcome; b_error : option string;
  b_used : bool; b_assistant_id : option string; b_texts : list (Z * string);
  b_step_starts : gset string; b_compaction_starts : list (option string);
  b_compactions : list compaction; b_delivered : gset string; b_usage : usage; b_result : option string }.
Definition new_interval (seq : seqv) : interval :=
  mkInterval seq None None None false None [] ∅ [] [] ∅ no_usage None.
Definition is_open (b : interval) : bool := match b_end b with None => true | Some _ => false end.

Definition set_used (b : interval) : interval :=
  mkInterval (b_start b) (b_end b) (b_outcome b) (b_error b) true (b_assistant_id b) (b_texts b)
    (b_step_starts b) (b_compaction_starts b) (b_compactions b) (b_delivered b) (b_usage b) (b_result b).
Definition set_step (assistant_id : string) (b : interval) : interval :=
  mkInterval (b_start b) (b_end b) (b_outcome b) (b_error b) (b_used b) (Some assistant_id) []
    ({[assistant_id]} ∪ b_step_starts b) (b_compaction_starts b) (b_compactions b) (b_delivered b)
    (b_usage b) (b_result b).
Definition set_delivered (input_id : string) (b : interval) : interval :=
  mkInterval (b_start b) (b_end b) (b_outcome b) (b_error b) (b_used b) (b_assistant_id b) (b_texts b)
    (b_step_starts b) (b_compaction_starts b) (b_compactions b) ({[input_id]} ∪ b_delivered b)
    (b_usage b) (b_result b).
Definition set_compactions (starts : list (option string)) (cs : list compaction) (b : interval) : interval :=
  mkInterval (b_start b) (b_end b) (b_outcome b) (b_error b) (b_used b) (b_assistant_id b) (b_texts b)
    (b_step_starts b) starts cs (b_delivered b) (b_usage b) (b_result b).
Definition set_step_ended (assistant_id : string) (u : usage) (b : interval) : interval :=
  mkInterval (b_start b) (b_end b) (b_outcome b) (b_error b) (b_used b) (b_assistant_id b) (b_texts b)
    (b_step_starts b ∖ {[assistant_id]}) (b_compaction_starts b) (b_compactions b) (b_delivered b)
    u (b_result b).
(** [interval["texts"][ordinal] = text]: a dict keeps the place of a key it has. *)
Fixpoint text_put (ordinal : Z) (text : string) (l : list (Z * string)) : list (Z * string) :=
  match l with
  | [] => [(ordinal, text)]
  | (o, t) :: l => if o =? ordinal then (o, text) :: l else (o, t) :: text_put ordinal text l
  end.
Definition set_text (ordinal : Z) (text : string) (b : interval) : interval :=
  mkInterval (b_start b) (b_end b) (b_outcome b) (b_error b) (b_used b) (b_assistant_id b)
    (text_put ordinal text (b_texts b)) (b_step_starts b) (b_compaction_starts b) (b_compactions b)
    (b_delivered b) (b_usage b) (b_result b).
(** ["".join(texts[index] for index in sorted(texts))], when there are texts. *)
Fixpoint insert_text (x : Z * string) (l : list (Z * string)) : list (Z * string) :=
  match l with
  | [] => [x]
  | y :: l => if fst x <? fst y then x :: y :: l else y :: insert_text x l
  end.
Definition joined (texts : list (Z * string)) : option string :=
  match texts with
  | [] => None
  | _ => Some (concat_str (map snd (foldr insert_text [] texts)))
  end.
Definition set_closed (seq : json) (outcome : EngineOutcome) (error : option string) (b : interval) : interval :=
  mkInterval (b_start b) (match seq with JNull => None | _ => Some (seq_of seq) end) (Some outcome)
    (match error with Some e => Some e | None => b_error b end) (b_used b) (b_assistant_id b) (b_texts b)
    (b_step_starts b) (b_compaction_starts b) (b_compactions b) (b_delivered b) (b_usage b)
    (match joined (b_texts b) with Some t => Some t | None => b_result b end).

(** [next((item for item in reversed(busy) if item["end"] is None), None)]: the last open
    interval; it is updated in place. *)
Fixpoint last_open (l : list interval) : option interval :=
  match l with
  | [] => None
  | b :: l => match last_open l with Some x => Some x | None => if is_open b then Some b else None end
  end.
Fixpoint update_open (f : interval -> interval) (l : list interval) : list interval :=
  match l with
  | [] => []
  | b :: l => if existsb is_open l then b :: update_open f l else (if is_open b then f b else b) :: l
  end.

(** *** One invocation *)

Record istate := mkIstate {
  i_outcome : EngineOutcome; i_input_id : option string; i_baseline : nat;
  i_pending_delivery : bool; i_delivered : bool; i_delivered_seq : option Z;
  i_observation_lost : bool; i_error : option string; i_result : option string;
  i_settlement_confirmed : bool; i_usage : option usage; i_settled : bool; i_last_progress_at : Z }.
Definition new_istate (baseline : nat) (now : Z) : istate :=
  mkIstate EoUnknown None baseline false false None false None None false None false now.

Definition set_i_outcome (v : EngineOutcome) (s : istate) : istate :=
  mkIstate v (i_input_id s) (i_baseline s) (i_pending_delivery s) (i_delivered s) (i_delivered_seq s)
    (i_observation_lost s) (i_error s) (i_result s) (i_settlement_confirmed s) (i_usage s) (i_settled s)
    (i_last_progress_at s).
Definition set_i_input (v : string) (s : istate) : istate :=
  mkIstate (i_outcome s) (Some v) (i_baseline s) (i_pending_delivery s) (i_delivered s) (i_delivered_seq s)
    (i_observation_lost s) (i_error s) (i_result s) (i_settlement_confirmed s) (i_usage s) (i_settled s)
    (i_last_progress_at s).
Definition set_i_delivery (pending delivered : bool) (seq : option Z) (s : istate) : istate :=
  mkIstate (i_outcome s) (i_input_id s) (i_baseline s) pending delivered seq
    (i_observation_lost s) (i_error s) (i_result s) (i_settlement_confirmed s) (i_usage s) (i_settled s)
    (i_last_progress_at s).
Definition set_i_error (v : option string) (s : istate) : istate :=
  mkIstate (i_outcome s) (i_input_id s) (i_baseline s) (i_pending_delivery s) (i_delivered s)
    (i_delivered_seq s) (i_observation_lost s) v (i_result s) (i_settlement_confirmed s) (i_usage s)
    (i_settled s) (i_last_progress_at s).
Definition set_i_progress (v : Z) (s : istate) : istate :=
  mkIstate (i_outcome s) (i_input_id s) (i_baseline s) (i_pending_delivery s) (i_delivered s)
    (i_delivered_seq s) (i_observation_lost s) (i_error s) (i_result s) (i_settlement_confirmed s)
    (i_usage s) (i_settled s) v.
Definition set_i_settled (s : istate) : istate :=
  mkIstate (i_outcome s) (i_input_id s) (i_baseline s) (i_pending_delivery s) (i_delivered s)
    (i_delivered_seq s) (i_observation_lost s) (i_error s) (i_result s) (i_settlement_confirmed s)
    (i_usage s) true (i_last_progress_at s).
Definition set_i_confirmed (s : istate) : istate :=
  mkIstate (i_outcome s) (i_input_id s) (i_baseline s) (i_pending_delivery s) (i_delivered s)
    (i_delivered_seq s) (i_observation_lost s) (i_error s) (i_result s) true (i_usage s) (i_settled s)
    (i_last_progress_at s).
(** The event stream ended before the invocation settled. *)
Definition set_i_lost (s : istate) : istate :=
  mkIstate EoUnknown (i_input_id s) (i_baseline s) (i_pending_delivery s) (i_delivered s)
    (i_delivered_seq s) true (i_error s) (i_result s) (i_settlement_confirmed s) (i_usage s) true
    (i_last_progress_at s).
(** Settled with the interval that served its input, but for the usage. *)
Definition take_interval (b : interval) (s : istate) : istate :=
  mkIstate (from_option id EoUnknown (b_outcome b)) (i_input_id s) (i_baseline s) (i_pending_delivery s)
    (i_delivered s) (i_delivered_seq s) (i_observation_lost s) (b_error b) (b_result b)
    (i_settlement_confirmed s) (i_usage s) (i_settled s) (i_last_progress_at s).
Definition set_i_usage (u : option usage) (s : istate) : istate :=
  mkIstate (i_outcome s) (i_input_id s) (i_baseline s) (i_pending_delivery s) (i_delivered s)
    (i_delivered_seq s) (i_observation_lost s) (i_error s) (i_result s) (i_settlement_confirmed s) u
    (i_settled s) (i_last_progress_at s).

(** *** The session *)

Record native_session := mkNs {
  ns_sid : option string;                      (* sid *)
  ns_event_log : list (json * bool);           (* _event_log *)
  ns_invocations : list (string * istate);     (* _invocations, in insertion order *)
  ns_busy : list interval;                     (* _busy *)
  ns_last_durable_seq : Z;                     (* _last_durable_seq *)
  ns_alive : bool;                             (* alive *)
  ns_confirmed_halted : bool                   (* _confirmed_halted *)
}.
Definition put_log (v : list (json * bool)) (s : native_session) : native_session :=
  mkNs (ns_sid s) v (ns_invocations s) (ns_busy s) (ns_last_durable_seq s) (ns_alive s) (ns_confirmed_halted s).
Definition put_states (v : list (string * istate)) (s : native_session) : native_session :=
  mkNs (ns_sid s) (ns_event_log s) v (ns_busy s) (ns_last_durable_seq s) (ns_alive s) (ns_confirmed_halted s).
Definition put_busy (v : list interval) (s : native_session) : native_session :=
  mkNs (ns_sid s) (ns_event_log s) (ns_invocations s) v (ns_last_durable_seq s) (ns_alive s) (ns_confirmed_halted s).
Definition put_seq (v : Z) (s : native_session) : native_session :=
  mkNs (ns_sid s) (ns_event_log s) (ns_invocations s) (ns_busy s) v (ns_alive s) (ns_confirmed_halted s).

(** [value == None or a str]: the comparisons with [sid] and with an input id. *)
Definition eq_opt_str (j : json) (o : option string) : bool :=
  match j, o with
  | JStr s, Some t => String.eqb s t
  | JNull, None => true
  | _, _ => false
  end.
Definition kind_is (j : json) (k : string) : bool := match j with JStr s => String.eqb s k | _ => false end.
Definition get (k : string) (d : list (string * json)) : json := from_option id JNull (assoc k d).
Definition as_str (j : json) : option string := match j with JStr s => Some s | _ => None end.

Section opencode.
(** IEEE addition of two numbers one of which is a float, the comparison of a float with an
    integer ([None]: not a number), and the separators of a default [json.dumps]. *)
Context (float_add : json -> json -> json) (float_cmp : pyfloat -> Z -> option comparison)
        (dumps_default : json -> string).

(** [math.isfinite(v)] of an [int] or a [float] that is no [bool]; an integer beyond the range
    of a float is an [OverflowError]. *)
Definition isfinite (j : json) : result exn bool :=
  match j with
  | JInt z => if 2 ^ 1024 - 2 ^ 970 <=? Z.abs z then Err OverflowError else Ok true
  | JFloat f => Ok (bool_decide (is_Some (f_int f)))
  | _ => Ok false
  end.
Definition num_add (a b : json) : json :=
  match a, b with JInt x, JInt y => JInt (x + y) | _, _ => float_add a b end.
(** One total of the loop of [_accumulate_usage]. *)
Definition accumulate (target : option json) (value : json) : result exn (option json) :=
  ok ← isfinite value;
  if negb ok then Ok target
  else
    let total := num_add (match target with Some t => if json_truthy t then t else JInt 0 | None => JInt 0 end) value in
    fin ← isfinite total;
    Ok (if fin : bool then Some total else target).

Definition member (k : string) (j : json) : json := match j with JObj d => get k d | _ => JNull end.
(** The totals are updated one after the other: an exception leaves the earlier ones updated. *)
Definition _accumulate_usage (u : usage) (data : list (string * json)) : usage * result exn unit :=
  let tokens := get "tokens" data in
  let cache := member "cache" tokens in
  match accumulate (u_input u) (member "input" tokens) with Err e => (u, Err e) | Ok a =>
  let u := {| u_input := a; u_output := u_output u; u_reasoning := u_reasoning u;
    u_cache_read := u_cache_read u; u_cache_write := u_cache_write u; u_cost_usd := u_cost_usd u;
    u_steps := u_steps u |} in
  match accumulate (u_output u) (member "output" tokens) with Err e => (u, Err e) | Ok a =>
  let u := {| u_input := u_input u; u_output := a; u_reasoning := u_reasoning u;
    u_cache_read := u_cache_read u; u_cache_write := u_cache_write u; u_cost_usd := u_cost_usd u;
    u_steps := u_steps u |} in
  match accumulate (u_reasoning u) (member "reasoning" tokens) with Err e => (u, Err e) | Ok a =>
  let u := {| u_input := u_input u; u_output := u_output u; u_reasoning := a;
    u_cache_read := u_cache_read u; u_cache_write := u_cache_write u; u_cost_usd := u_cost_usd u;
    u_steps := u_steps u |} in
  match accumulate (u_cache_read u) (member "read" cache) with Err e => (u, Err e) | Ok a =>
  let u := {| u_input := u_input u; u_output := u_output u; u_reasoning := u_reasoning u;
    u_cache_read := a; u_cache_write := u_cache_write u; u_cost_usd := u_cost_usd u;
    u_steps := u_steps u |} in
  match accumulate (u_cache_write u) (member "write" cache) with Err e => (u, Err e) | Ok a =>
  let u := {| u_input := u_input u; u_output := u_output u; u_reasoning := u_reasoning u;
    u_cache_read := u_cache_read u; u_cache_write := a; u_cost_usd := u_cost_usd u;
    u_steps := u_steps u |} in
  match accumulate (u_cost_usd u) (get "cost" data) with Err e => (u, Err e) | Ok a =>
  ({| u_input := u_input u; u_output := u_output u; u_reasoning := u_reasoning u;
    u_cache_read := u_cache_read u; u_cache_write := u_cache_write u; u_cost_usd := a;
    u_steps := u_steps u |}, Ok tt)
  end end end end end end.

(** The usage of an invocation: its interval's steps and the compactions it owns. *)
Definition owns_compaction (input : option string) (b : interval) (c : compaction) : bool :=
  match cp_input_id c with
  | Some i => bool_decide (input = Some i)
  | None => bool_decide (input = None)
            || bool_decide (size (b_delivered b) = 1%nat)
               && match input with Some i => bool_decide (i ∈ b_delivered b) | None => false end
  end.
Fixpoint add_compactions (input : option string) (b : interval) (cs : list compaction) (u : usage) : result exn usage :=
  match cs with
  | [] => Ok u
  | c :: cs =>
      if owns_compaction input b c then
        match _accumulate_usage u (cp_data c) with
        | (u, Ok _) => add_compactions input b cs u
        | (_, Err e) => Err e
        end
      else add_compactions input b cs u
  end.
Definition _usage_for_interval (s : istate) (b : interval) : result exn usage :=
  add_compactions (i_input_id s) b (b_compactions b) (b_usage b).

(** ** Durable events: the busy intervals *)

(** Pop the started compaction this end belongs to. *)
Fixpoint index_of (x : option string) (l : list (option string)) : option nat :=
  match l with
  | [] => None
  | y :: l => if decide (x = y) then Some O else S <$> index_of x l
  end.
Definition compaction_match (terminal : option string) (starts : list (option string)) : option nat :=
  match terminal with
  | None => match starts with [] => None | _ => Some O end
  | Some _ => match index_of terminal starts with Some n => Some n | None => index_of None starts end
  end.
Definition end_compaction (data : list (string * json)) (b : interval) : interval :=
  let terminal := as_str (get "inputID" data) in
  match compaction_match terminal (b_compaction_starts b) with
  | None => b
  | Some n =>
      let started := mjoin (b_compaction_starts b !! n) in
      let owner := match started with Some i => if truthy i then Some i else terminal | None => terminal end in
      set_compactions (delete n (b_compaction_starts b))
        (b_compactions b ++ [{| cp_input_id := owner; cp_data := data |}]) b
  end.

Definition terminal_kinds : list (string * EngineOutcome) :=
  [("session.execution.succeeded", EoCompleted); ("session.execution.failed", EoFailed);
   ("session.execution.interrupted", EoCancelled)].
Definition slice_2000 (s : string) : string := String.substring 0 2000 s.

(** [data]: [event.get("data") or {}]; only the branches that read it need a dict. *)
Definition for_session (s : native_session) (data : json)
    (f : list (string * json) -> list interval * result exn unit) : list interval * result exn unit :=
  match data with
  | JObj d => if eq_opt_str (get "sessionID" d) (ns_sid s) then f d else (ns_busy s, Ok tt)
  | _ => (ns_busy s, Err AttributeError)
  end.
Definition _apply_durable_event (kind data seq : json) (s : native_session) : list interval * result exn unit :=
  let busy := ns_busy s in
  if kind_is kind "session.execution.started" then (busy ++ [new_interval (seq_of seq)], Ok tt)
  else if kind_is kind "session.step.started" then
    for_session s data (fun d =>
      (match as_str (get "assistantMessageID" d) with
       | Some a => update_open (set_step a) busy | None => busy end, Ok tt))
  else if kind_is kind "session.inbox.delivered" then
    for_session s data (fun d =>
      (match as_str (get "inboxID" d) with
       | Some i => update_open (set_delivered i) busy | None => busy end, Ok tt))
  else if kind_is kind "session.compaction.started" then
    for_session s data (fun d =>
      (update_open (fun b => set_compactions (b_compaction_starts b ++ [as_str (get "inputID" d)])
                               (b_compactions b) b) busy, Ok tt))
  else if kind_is kind "session.step.ended" || kind_is kind "session.step.failed" then
    for_session s data (fun d =>
      match last_open busy, as_str (get "assistantMessageID" d) with
      | Some b, Some a =>
          if bool_decide (a ∈ b_step_starts b) then
            let (u, r) := _accumulate_usage (add_step (b_usage b)) d in
            (update_open (set_step_ended a u) busy, r)
          else (busy, Ok tt)
      | _, _ => (busy, Ok tt)
      end)
  else if kind_is kind "session.compaction.ended" || kind_is kind "session.compaction.failed" then
    for_session s data (fun d => (update_open (end_compaction d) busy, Ok tt))
  else if kind_is kind "session.text.ended" then
    for_session s data (fun d =>
      (match last_open busy, py_int (get "ordinal" d), as_str (get "text" d) with
       | Some b, Some n, Some t =>
           if eq_opt_str (get "assistantMessageID" d) (b_assistant_id b)
           then update_open (set_text n t) busy else busy
       | _, _, _ => busy
       end, Ok tt))
  else match kind with
  | JStr k =>
      match assoc k terminal_kinds with
      | Some o =>
          let error := match o with EoFailed => Some (slice_2000 (dumps_default data)) | _ => None end in
          (update_open (set_closed seq o error) busy, Ok tt)
      | None => (busy, Ok tt)
      end
  | _ => (busy, Ok tt)
  end.

(** ** Settlement by a closed interval *)

Definition cmp_le (c : option comparison) : bool :=
  match c with Some Lt | Some Eq => true | _ => false end.
Definition cmp_ge (c : option comparison) : bool :=
  match c with Some Gt | Some Eq => true | _ => false end.
(** [start <= seq] and [seq <= end], for an integer [seq]. *)
Definition seq_ge (seq : Z) (v : seqv) : result exn bool :=
  match v with SInt z => Ok (z <=? seq) | SFloat f => Ok (cmp_le (float_cmp f seq)) | SOther => Err TypeError end.
Definition seq_le (seq : Z) (v : seqv) : result exn bool :=
  match v with SInt z => Ok (seq <=? z) | SFloat f => Ok (cmp_ge (float_cmp f seq)) | SOther => Err TypeError end.
Definition contains (b : interval) (seq : Z) : result exn bool :=
  ge ← seq_ge seq (b_start b);
  if ge : bool then match b_end b with Some e => seq_le seq e | None => Ok false end else Ok false.

(** The loop over the intervals for one invocation: the intervals, what became of it. *)
Fixpoint resolve_state (seq : Z) (st : istate) (busy : list interval) : list interval * istate * result exn unit :=
  match busy with
  | [] => ([], st, Ok tt)
  | b :: busy =>
      if b_used b || is_open b then
        let '(busy, st, r) := resolve_state seq st busy in (b :: busy, st, r)
      else match contains b seq with
      | Err e => (b :: busy, st, Err e)
      | Ok false => let '(busy, st, r) := resolve_state seq st busy in (b :: busy, st, r)
      | Ok true =>
          let st := take_interval b st in
          match _usage_for_interval st b with
          | Err e => (set_used b :: busy, st, Err e)
          | Ok u => (set_used b :: busy, set_i_settled (set_i_usage (_usage_record u) st), Ok tt)
          end
      end
  end.
Definition resolvable (st : istate) : option Z :=
  if negb (i_delivered st) || i_settled st then None else i_delivered_seq st.
Fixpoint resolve_states (states : list (string * istate)) (busy : list interval) :
    list (string * istate) * list interval * result exn unit :=
  match states with
  | [] => ([], busy, Ok tt)
  | (k, st) :: states =>
      match resolvable st with
      | None => let '(states, busy, r) := resolve_states states busy in ((k, st) :: states, busy, r)
      | Some seq =>
          match resolve_state seq st busy with
          | (busy, st, Err e) => ((k, st) :: states, busy, Err e)
          | (busy, st, Ok _) => let '(states, busy, r) := resolve_states states busy in ((k, st) :: states, busy, r)
          end
      end
  end.
Definition _resolve_pending (s : native_session) : native_session * result exn unit :=
  let '(states, busy, r) := resolve_states (ns_invocations s) (ns_busy s) in
  (put_busy busy (put_states states s), r).

(** ** The delivery projection: [_apply_event] *)

Definition event_data (event : json) : json := json_or (member "data" event) (JObj []).
Definition _apply_event (sid : option string) (st : istate) (event : json) : result exn istate :=
  let kind := member "type" event in
  if kind_is kind "session.inbox.enqueued" || kind_is kind "session.inbox.delivered" then
    match event_data event with
    | JObj data =>
        if eq_opt_str (get "sessionID" data) sid && eq_opt_str (get "inboxID" data) (i_input_id st) then
          let st :=
            if kind_is kind "session.inbox.delivered" then
              set_i_delivery false true
                (match py_int (member "seq" (member "durable" event)) with
                 | Some n => Some n | None => i_delivered_seq st end) st
            else set_i_delivery true (i_delivered st) (i_delivered_seq st) st in
          Ok (match i_outcome st with EoUnknown => set_i_outcome EoRunning st | _ => st end)
        else Ok st
    | _ => Err AttributeError
    end
  else Ok st.

(** ** One event: [_record_and_dispatch] *)

(** [durable]: the value of the member, [seq] its sequence number when it is an [int]. *)
Definition durable_seq (event : json) : option Z := py_int (member "seq" (member "durable" event)).
Definition accepted (event : json) (s : native_session) : bool :=
  match durable_seq event with
  | Some seq => eq_opt_str (member "aggregateID" (member "durable" event)) (ns_sid s)
                && (ns_last_durable_seq s <? seq)
  | None => true
  end.
Definition note_progress (now : Z) (event : json) (s : native_session) : native_session :=
  match member "type" event, member "data" event with
  | JStr k, JObj data =>
      if String.prefix "session." k && eq_opt_str (get "sessionID" data) (ns_sid s)
      then put_states (map (fun ks => (fst ks, set_i_progress now (snd ks))) (ns_invocations s)) s
      else s
  | _, _ => s
  end.
(** The open invocations see the event in order; an exception stops the loop. *)
Fixpoint apply_all (sid : option string) (event : json) (states : list (string * istate)) :
    list (string * istate) * result exn unit :=
  match states with
  | [] => ([], Ok tt)
  | (k, st) :: states =>
      if match i_input_id st with None => true | Some _ => i_settled st end then
        let (states, r) := apply_all sid event states in ((k, st) :: states, r)
      else match _apply_event sid st event with
      | Err e => ((k, st) :: states, Err e)
      | Ok st => let (states, r) := apply_all sid event states in ((k, st) :: states, r)
      end
  end.

Definition _record_and_dispatch (now : Z) (event : json) (s : native_session) : native_session * result exn unit :=
  match event with
  | JObj _ =>
      let ok := accepted event s in
      let s := match durable_seq event with
               | Some seq => if ok then put_seq seq s else s
               | None => s end in
      let s := put_log (ns_event_log s ++ [(event, ok)]) s in
      if negb ok then (s, Ok tt)
      else
        let durable :=
          match member "durable" event with
          | JObj d =>
              match assoc "seq" d with
              | None => (ns_busy s, Err KeyError)
              | Some seq => _apply_durable_event (member "type" event) (event_data event) seq s
              end
          | _ => (ns_busy s, Ok tt)
          end in
        let s := put_busy (fst durable) s in
        match snd durable with
        | Err e => (s, Err e)
        | Ok _ =>
            let s := note_progress now event s in
            let (states, r) := apply_all (ns_sid s) event (ns_invocations s) in
            let s := put_states states s in
            match r with
            | Err e => (s, Err e)
            | Ok _ => _resolve_pending s
            end
        end
  | _ => (s, Err AttributeError)
  end.

(** The stream ended, or an event raised: every open invocation that has its input id is lost. *)
Definition stream_ended (s : native_session) : native_session :=
  put_states (map (fun ks : string * istate =>
    (fst ks, match i_input_id (snd ks) with
             | Some _ => if i_settled (snd ks) then snd ks else set_i_lost (snd ks)
             | None => snd ks end)) (ns_invocations s)) s.
(** The frames of the stream, in order; the first exception ends it. *)
Fixpoint _consume_events (frames : list (Z * json)) (s : native_session) : native_session :=
  match frames with
  | [] => stream_ended s
  | (now, event) :: frames =>
      match _record_and_dispatch now event s with
      | (s, Ok _) => _consume_events frames s
      | (s, Err _) => stream_ended s
      end
  end.

(** ** An invocation's send: registration, receipt, replay *)

Fixpoint put_state (k : string) (st : istate) (l : list (string * istate)) : list (string * istate) :=
  match l with
  | [] => [(k, st)]
  | (k', st') :: l => if String.eqb k' k then (k, st) :: l else (k', st') :: put_state k st l
  end.
Definition upd_state (k : string) (f : istate -> istate) (s : native_session) : native_session :=
  match assoc k (ns_invocations s) with
  | Some st => put_states (put_state k (f st) (ns_invocations s)) s
  | None => s
  end.
(** [start] registers the invocation before it launches anything. *)
Definition register (k : string) (now : Z) (s : native_session) : native_session :=
  put_states (put_state k (new_istate (length (ns_event_log s)) now) (ns_invocations s)) s.

Fixpoint replay (sid : option string) (log : list (json * bool)) (st : istate) : istate * result exn unit :=
  match log with
  | [] => (st, Ok tt)
  | (event, ok) :: log =>
      if negb ok then replay sid log st
      else match _apply_event sid st event with
      | Ok st => replay sid log st
      | Err e => (st, Err e)
      end
  end.
(** [return] inside the loop when the invocation is already settled: nothing is replayed. *)
Definition reconcile_from_baseline (k : string) (s : native_session) : native_session * result exn unit :=
  match assoc k (ns_invocations s) with
  | None => (s, Ok tt)
  | Some st =>
      let log := drop (i_baseline st) (ns_event_log s) in
      if i_settled st && negb (bool_decide (log = [])) then (s, Ok tt)
      else
        let (st, r) := replay (ns_sid s) log st in
        let s := put_states (put_state k st (ns_invocations s)) s in
        match r with Err e => (s, Err e) | Ok _ => _resolve_pending s end
  end.

(** A native HTTP response: a status with its JSON body ([JNull] when it is none), or the
    message of an [httpx.HTTPError]. *)
Definition response : Type := (Z * json) + string.

Definition receipt_ok (sid : option string) (prompt : string) (status : Z) (body : json) : option string :=
  match member "data" body with
  | JObj data =>
      if (status =? 200) && eq_opt_str (get "sessionID" data) sid
         && kind_is (get "delivery" data) "queue" && kind_is (get "type" data) "user"
         && is_dict (get "payload" data) && kind_is (member "text" (get "payload" data)) prompt
      then match get "id" data with JStr i => if truthy i then Some i else None | _ => None end
      else None
  | _ => None
  end.
(** What [start] does with the response to the prompt. *)
Definition prompt_sent (k prompt : string) (r : response) (s : native_session) :
    native_session * result exn EngineReceipt :=
  match r with
  | inr _ => (upd_state k (set_i_outcome EoUnknown) s, Err (NativeLaunchFailed true))
  | inl (status, body) =>
      match receipt_ok (ns_sid s) prompt status body with
      | None =>
          if status =? 200 then (upd_state k (set_i_outcome EoUnknown) s, Err (NativeLaunchFailed true))
          else (upd_state k (fun st => set_i_settled (set_i_outcome EoFailed st)) s, Err (NativeLaunchFailed false))
      | Some input_id =>
          let s := upd_state k (fun st =>
            let st := set_i_input input_id st in
            match i_outcome st with EoUnknown => set_i_outcome EoRunning st | _ => st end) s in
          let (s, r) := reconcile_from_baseline k s in
          (s, _ ← r; Ok {| er_native_session_id := ns_sid s; er_input_id := input_id |})
      end
  end.
End opencode.
