(* ===== verification/OpencodeEngine.v ===== *)
(** * engine/opencode.py: the engine's answers and the cancellation verdict

    [OpenCodeEngine] answers from the states its native sessions keep, and trusts a settlement
    or a cancellation only on native proof. *)

From stdpp Require Import fin_sets gmap.
From Stdlib Require Import Ascii.
From S2P Require Import Prelude Sha256 PyJson Config Public StateRefs Effects Storage Wire Tokens Sessions Execution Opencode.
Local Open Scope string_scope.
Local Open Scope list_scope.
Local Open Scope Z_scope.

Definition set_i_error_of (e : option string) (st : istate) : istate :=
  match e with Some e => set_i_error (Some e) st | None => st end.

(** [for session in self._sessions.values(): state = session._invocations.get(id)]: the first
    session that knows the invocation. *)
Fixpoint find_state (k : string) (l : list (string * native_session)) : option (native_session * istate) :=
  match l with
  | [] => None
  | (_, s) :: l => match assoc k (ns_invocations s) with Some st => Some (s, st) | None => find_state k l end
  end.

Definition status (k : string) (l : list (string * native_session)) : EngineOutcome :=
  match find_state k l with Some (_, st) => i_outcome st | None => EoUnknown end.
Definition last_progress (k : string) (l : list (string * native_session)) : option Z :=
  i_last_progress_at ∘ snd <$> find_state k l.
Definition engine_result (k : string) (l : list (string * native_session)) : option string :=
  match find_state k l with
  | Some (_, st) =>
      if negb (i_settlement_confirmed st) || negb (bool_decide (i_outcome st = EoCompleted)) then None
      else i_result st
  | None => None
  end.

(** Strict validation of the native inbox. *)
Definition str_member_in (k : string) (allowed : list string) (d : list (string * json)) : bool :=
  match assoc k d with
  | None => true
  | Some (JStr v) => in_strs v allowed
  | Some _ => false
  end.
Definition inbox_item (sid : string) (item : json) : option string :=
  match item with
  | JObj d =>
      match get "id" d with
      | JStr i =>
          if truthy i && str_member_in "sessionID" [sid] d
             && str_member_in "type" ["user"; "assistant"] d
             && str_member_in "delivery" ["queue"; "steer"] d
             && match assoc "payload" d with Some p => is_dict p | None => true end
          then Some i else None
      | _ => None
      end
  | _ => None
  end.
Definition _parse_inbox_items (body : json) (sid : string) : option (list string) :=
  match member "data" body with
  | JList items => mapM (inbox_item sid) items
  | _ => None
  end.

Section engine.
Context (float_add : json -> json -> json) (float_cmp : pyfloat -> Z -> option comparison)
        (py_repr : json -> string).

(** [usage]: only after a confirmed settlement or halt. *)
Fixpoint owned_interval (seq : Z) (busy : list interval) : result exn (option interval) :=
  match busy with
  | [] => Ok None
  | b :: busy =>
      ge ← seq_ge float_cmp seq (b_start b);
      le ← (if negb ge then Ok false
            else match b_end b with None => Ok true | Some e => seq_le float_cmp seq e end);
      if le : bool then Ok (Some b) else owned_interval seq busy
  end.
Definition engine_usage (k : string) (l : list (string * native_session)) : result exn (option usage) :=
  match find_state k l with
  | None => Ok None
  | Some (s, st) =>
      let confirmed := i_settlement_confirmed st
                       || ns_confirmed_halted s && bool_decide (i_outcome st = EoCancelled) in
      if negb confirmed || negb (in_strs (run_state_str (outcome_state (i_outcome st)))
                                         ["completed"; "failed"; "cancelled"]) then Ok None
      else match i_usage st, i_delivered_seq st with
      | Some u, _ => Ok (Some u)
      | None, None => Ok None
      | None, Some seq =>
          o ← owned_interval seq (ns_busy s);
          match o with
          | Some b => u ← _usage_for_interval float_add st b; Ok (_usage_record u)
          | None => Ok None
          end
      end
  end.

(** ** Settlement: [wait_settled], once the [settled] event is set *)

Definition _confirm_settlement (s : native_session) (st : istate) (wait inbox : response) : result exn unit :=
  match ns_alive s, ns_sid s with
  | true, Some sid =>
      match i_input_id st with
      | None => Err (NativeLaunchFailed true)
      | Some input_id =>
          match wait with
          | inl (wstatus, _) =>
              if negb (wstatus =? 204) then Err (NativeLaunchFailed true)
              else match inbox with
              | inl (istatus, ibody) =>
                  if negb (istatus =? 200) then Err (NativeLaunchFailed true)
                  else match _parse_inbox_items ibody sid with
                  | None => Err (NativeLaunchFailed true)
                  | Some ids => if in_strs input_id ids then Err (NativeLaunchFailed true) else Ok tt
                  end
              | inr _ => Err (NativeLaunchFailed true)
              end
          | inr _ => Err (NativeLaunchFailed true)
          end
      end
  | _, _ => if ns_confirmed_halted s then Ok tt else Err (NativeLaunchFailed true)
  end.
Definition wait_settled (s : native_session) (st : istate) (wait inbox : response) :
    istate * result exn EngineOutcome :=
  if i_observation_lost st then (st, Err (NativeLaunchFailed true))
  else match _confirm_settlement s st wait inbox with
  | Err e => (st, Err e)
  | Ok _ => (set_i_confirmed st, Ok (i_outcome st))
  end.

(** ** Cancellation *)

Definition _confirm_no_pending_input (s : native_session) (st : istate) (inbox : response) : bool :=
  match i_input_id st, ns_alive s, ns_sid s with
  | None, _, _ => false
  | Some input_id, true, Some sid =>
      match inbox with
      | inl (200, body) =>
          match _parse_inbox_items body sid with
          | Some ids => negb (in_strs input_id ids)
          | None => false
          end
      | _ => false
      end
  | _, _, _ => ns_confirmed_halted s
  end.

Definition not_acknowledged (what : string) (status : Z) (body : json) : string :=
  what +:+ " not acknowledged: " +:+ str_of_int status +:+ " " +:+ py_repr body.
(** The acknowledgements of the graceful cancellation, each required: the first one missing. *)
Definition interrupt_ack (r : response) : option string :=
  match r with
  | inr e => Some ("interrupt request failed: " +:+ e)
  | inl (status, body) =>
      if (status =? 200) && match member "interrupted" body with JBool true => true | _ => false end
      then None else Some (not_acknowledged "interrupt" status body)
  end.
Definition delete_ack (r : response) : option string :=
  match r with
  | inr e => Some ("inbox delete failed: " +:+ e)
  | inl (status, body) => if status =? 204 then None else Some (not_acknowledged "inbox delete" status body)
  end.
Definition wait_ack (r : response) : option string :=
  match r with
  | inr e => Some ("cancel wait failed: " +:+ e)
  | inl (status, body) => if status =? 204 then None else Some (not_acknowledged "cancel wait" status body)
  end.
Definition graceful_acks (interrupt delete wait : response) : option string :=
  match interrupt_ack interrupt with
  | Some e => Some e
  | None => match delete_ack delete with Some e => Some e | None => wait_ack wait end
  end.
(** [_graceful]: [later] is the session and the state once the invocation has settled.  What it
    leaves in [state.error], and its verdict. *)
Definition _graceful (s : native_session) (st : istate) (interrupt delete wait : response)
    (later : native_session * istate) (inbox : response) : option string * bool :=
  match i_input_id st with
  | None => (None, ns_confirmed_halted s)
  | Some _ =>
      match (if ns_alive s && bool_decide (is_Some (ns_sid s)) then graceful_acks interrupt delete wait else None) with
      | Some e => (Some e, false)
      | None => (None, _confirm_no_pending_input (fst later) (snd later) inbox)
      end
  end.

(** The verdict of [cancel] on the invocation as it is at that moment: [settled_cleanly] what
    the graceful part proved in time, [force] whether the armed force confirmed a halt,
    [halt] the halt already in flight when the graceful part succeeded, and its result. *)
Definition cancelled (st : istate) : istate := set_i_settled (set_i_outcome EoCancelled st).
Definition cancel_verdict (settled_cleanly force : bool) (halt : option bool) (st : istate) :
    istate * result exn unit :=
  if negb settled_cleanly then
    if negb force then (st, Err (NativeLaunchFailed false)) else (cancelled st, Ok tt)
  else if match halt with Some true => true | _ => false end then (cancelled st, Ok tt)
  else
    let st := match i_outcome st with
              | EoCompleted | EoFailed => st
              | _ => set_i_outcome EoCancelled st
              end in
    (set_i_confirmed st, Ok tt).
(** [state.error = reason] at entry, when there is no error yet. *)
Definition cancel_reason (reason : string) (st : istate) : istate :=
  match i_error st with None => set_i_error (Some reason) st | Some _ => st end.

(** A settlement is answered exactly on native proof: the invocation's observation was not
    lost, and either the session is gone with its halt confirmed, or the native side both
    acknowledged the wait and listed a well-formed inbox without this invocation's input. *)
Theorem settlement_needs_proof s st wait inbox st' o :
  wait_settled s st wait inbox = (st', Ok o) <->
  st' = set_i_confirmed st /\ o = i_outcome st /\ i_observation_lost st = false
  /\ ((ns_alive s = false \/ ns_sid s = None) /\ ns_confirmed_halted s = true
      \/ exists sid input_id wbody ibody ids,
           ns_alive s = true /\ ns_sid s = Some sid /\ i_input_id st = Some input_id
           /\ wait = inl (204, wbody) /\ inbox = inl (200, ibody)
           /\ _parse_inbox_items ibody sid = Some ids /\ ~ In input_id ids).
Proof.
  unfold wait_settled. destruct (i_observation_lost st); [naive_solver|].
  assert (_confirm_settlement s st wait inbox = Ok tt <->
    ((ns_alive s = false \/ ns_sid s = None) /\ ns_confirmed_halted s = true
      \/ exists sid input_id wbody ibody ids,
           ns_alive s = true /\ ns_sid s = Some sid /\ i_input_id st = Some input_id
           /\ wait = inl (204, wbody) /\ inbox = inl (200, ibody)
           /\ _parse_inbox_items ibody sid = Some ids /\ ~ In input_id ids)) as Hc.
  { unfold _confirm_settlement. destruct (ns_alive s), (ns_sid s) as [sid|];
      try (destruct (ns_confirmed_halted s); naive_solver).
    destruct (i_input_id st) as [i|]; [|naive_solver]. destruct wait as [[w wb]|]; [|naive_solver].
    destruct (Z.eqb_spec w 204) as [->|]; [|naive_solver]. destruct inbox as [[n ib]|]; [|naive_solver].
    destruct (Z.eqb_spec n 200) as [->|]; [|naive_solver]. cbn [negb].
    destruct (_parse_inbox_items ib sid) as [ids|] eqn:Hp; [|naive_solver].
    destruct (in_strs i ids) eqn:Hin.
    - assert (In i ids) by (unfold in_strs in Hin; apply existsb_exists in Hin as (x & ? & ->%String.eqb_eq); done).
      naive_solver.
    - assert (~ In i ids) as Hn.
      { intros Hi. enough (in_strs i ids = true) by congruence. apply existsb_exists.
        exists i. by rewrite String.eqb_refl. }
      split; [|done]. intros _. right. by exists sid, i, wb, ib, ids. }
  destruct (_confirm_settlement s st wait inbox) as [[]|e].
  - split; [|intros (-> & -> & _); done]. intros [= <- <-]. split_and!; try done. by apply Hc.
  - split; [done|]. intros (_ & _ & _ & H). apply Hc in H. done.
Qed.

(** A cancellation that returns normally left the invocation in a terminal outcome, and it
    keeps the outcome of a run that had completed or failed only when the graceful part proved
    that no input of it is pending and no forced halt took the session down meanwhile. *)
Theorem cancel_outcomes settled_cleanly force halt st st' :
  cancel_verdict settled_cleanly force halt st = (st', Ok tt) ->
  (i_outcome st' = EoCancelled \/ i_outcome st' = EoCompleted \/ i_outcome st' = EoFailed)
  /\ (i_outcome st' <> EoCancelled ->
        settled_cleanly = true /\ halt <> Some true /\ i_outcome st' = i_outcome st)
  /\ (i_settled st' = true \/ i_settlement_confirmed st' = true)
  /\ (settled_cleanly = false -> force = true).
Proof.
  unfold cancel_verdict. destruct settled_cleanly, force, halt as [[]|]; cbn; try done; intros [= <-];
    destruct st as [[] ? ? ? ? ? ? ? ? ? ? ? ?]; cbn; naive_solver.
Qed.
End engine.
