(* ===== verification/OpencodeFacts.v ===== *)
(** * engine/opencode.py: busy intervals and settlement, lemmas

    The intervals stay bracketed, the events of an open interval never touch a closed one, the
    [used] marks never influence what events do, and a settlement takes the one unused closed
    interval that holds the delivery. *)

From stdpp Require Import fin_sets gmap.
From Stdlib Require Import Ascii.
From S2P Require Import Prelude Sha256 PyJson Config Public StateRefs Effects Storage Wire Tokens Sessions Execution Opencode.
Local Open Scope string_scope.
Local Open Scope list_scope.
Local Open Scope Z_scope.

(** ** Erasing the [used] marks *)

Definition unuse (b : interval) : interval :=
  mkInterval (b_start b) (b_end b) (b_outcome b) (b_error b) false (b_assistant_id b) (b_texts b)
    (b_step_starts b) (b_compaction_starts b) (b_compactions b) (b_delivered b) (b_usage b) (b_result b).
Definition blind (f : interval -> interval) : Prop := forall b, unuse (f b) = f (unuse b).

Lemma unuse_unuse b : unuse (unuse b) = unuse b. Proof. by destruct b. Qed.
Lemma unuse_used b : unuse (set_used b) = unuse b. Proof. by destruct b. Qed.
Lemma open_unuse b : is_open (unuse b) = is_open b. Proof. by destruct b. Qed.
Lemma existsb_open_unuse l : existsb is_open (map unuse l) = existsb is_open l.
Proof. induction l as [|b l IH]; [done|]. cbn. by rewrite IH, open_unuse. Qed.
Lemma last_open_unuse l : last_open (map unuse l) = unuse <$> last_open l.
Proof.
  induction l as [|b l IH]; [done|]. cbn [map last_open]. rewrite IH, open_unuse.
  by destruct (last_open l), (is_open b).
Qed.
Lemma update_open_unuse f l : blind f -> map unuse (update_open f l) = update_open f (map unuse l).
Proof.
  intros Hf. induction l as [|b l IH]; [done|]. cbn [map update_open]. rewrite existsb_open_unuse, open_unuse.
  destruct (existsb is_open l); cbn [map]; [by rewrite IH|]. f_equal. by destruct (is_open b).
Qed.

Lemma blind_step a : blind (set_step a). Proof. by intros []. Qed.
Lemma blind_delivered i : blind (set_delivered i). Proof. by intros []. Qed.
Lemma blind_text n t : blind (set_text n t). Proof. by intros []. Qed.
Lemma blind_step_ended a u : blind (set_step_ended a u). Proof. by intros []. Qed.
Lemma blind_closed seq o e : blind (set_closed seq o e). Proof. by intros []. Qed.
Lemma blind_compaction_started d :
  blind (fun b => set_compactions (b_compaction_starts b ++ [as_str (get "inputID" d)]) (b_compactions b) b).
Proof. by intros []. Qed.
Lemma blind_compaction_ended d : blind (end_compaction d).
Proof. intros []. unfold end_compaction. cbn. by destruct (compaction_match _ _). Qed.
Create HintDb blind.
#[export] Hint Resolve blind_step blind_delivered blind_text blind_step_ended blind_closed
  blind_compaction_started blind_compaction_ended : blind.

(** ** Closed intervals are left alone *)

Lemma update_open_closed f l n b : l !! n = Some b -> is_open b = false -> update_open f l !! n = Some b.
Proof.
  revert n. induction l as [|c l IH]; [done|]. intros n Hn Hb. cbn [update_open].
  destruct (existsb is_open l) eqn:E; [destruct n; [done|by apply IH]|].
  destruct n as [|n]; [|done]. cbn in *. injection Hn as ->. by rewrite Hb.
Qed.

(** ** Bracketed spans *)

Definition span (b : interval) : seqv * option seqv := (b_start b, b_end b).
Definition spans (l : list interval) : list (seqv * option seqv) := map span l.
Fixpoint bracketed (lo : Z) (l : list (seqv * option seqv)) (last : Z) : Prop :=
  match l with
  | [] => lo <= last
  | (SInt a, Some (SInt z)) :: l => lo < a /\ a < z /\ bracketed z l last
  | (SInt a, None) :: l => l = [] /\ lo < a /\ a <= last
  | _ => False
  end.
Definition keeps_span (f : interval -> interval) : Prop := forall b, span (f b) = span b.

Lemma spans_unuse l : spans (map unuse l) = spans l.
Proof. unfold spans. rewrite map_map. apply map_ext. by intros []. Qed.
Lemma spans_update f l : keeps_span f -> spans (update_open f l) = spans l.
Proof.
  intros Hf. unfold spans. induction l as [|b l IH]; [done|]. cbn [update_open].
  destruct (existsb is_open l); cbn [map]; [by rewrite IH|].
  destruct (is_open b); [|done]. by rewrite Hf.
Qed.
Lemma span_step a : keeps_span (set_step a). Proof. by intros []. Qed.
Lemma span_delivered i : keeps_span (set_delivered i). Proof. by intros []. Qed.
Lemma span_text n t : keeps_span (set_text n t). Proof. by intros []. Qed.
Lemma span_step_ended a u : keeps_span (set_step_ended a u). Proof. by intros []. Qed.
Lemma span_compaction_started d :
  keeps_span (fun b => set_compactions (b_compaction_starts b ++ [as_str (get "inputID" d)]) (b_compactions b) b).
Proof. by intros []. Qed.
Lemma span_compaction_ended d : keeps_span (end_compaction d).
Proof. intros []. unfold end_compaction. cbn. by destruct (compaction_match _ _). Qed.
#[export] Hint Resolve span_step span_delivered span_text span_step_ended
  span_compaction_started span_compaction_ended : blind.

Lemma bracketed_weaken lo l last last' : bracketed lo l last -> last <= last' -> bracketed lo l last'.
Proof.
  revert lo. induction l as [|[a e] l IH]; intros lo; cbn; [lia|].
  destruct a as [a| |]; try done. destruct e as [[z| |]|]; try done.
  - intros (? & ? & H) ?. split_and!; try done. by apply IH.
  - intros (? & ? & ?) ?. split_and!; [done|lia|lia].
Qed.
Lemma bracketed_started lo l last seq :
  bracketed lo (spans l) last -> existsb is_open l = false -> last < seq ->
  bracketed lo (spans (l ++ [new_interval (SInt seq)])) seq.
Proof.
  revert lo. induction l as [|b l IH]; intros lo; cbn; [intros; split_and!; [done|lia|lia]|].
  intros H [Hb Ho]%orb_false_iff Hs. destruct (b_start b); try done. unfold is_open in Hb.
  destruct (b_end b) as [[z'| |]|]; try done. destruct H as (? & ? & H). split_and!; try done. by apply IH.
Qed.
Lemma bracketed_closed lo l last seq n o e :
  bracketed lo (spans l) last -> last < seq -> py_int n = Some seq ->
  bracketed lo (spans (update_open (set_closed n o e) l)) seq
  /\ existsb is_open (update_open (set_closed n o e) l) = false.
Proof.
  intros H Hs Hn. assert (forall b, span (set_closed n o e b) = (b_start b, Some (SInt seq))) as Hc.
  { intros b. unfold span, set_closed, seq_of. cbn. rewrite Hn. by destruct n. }
  revert lo H. induction l as [|b l IH]; intros lo; [cbn; intros; split; [lia|done]|].
  unfold spans in *. cbn [update_open map bracketed]. unfold span at 1. destruct (b_start b) as [a| |] eqn:Ea; try done.
  destruct (b_end b) as [[z| |]|] eqn:Eb; try done.
  - intros (Ha & Hz & H). destruct (IH z H) as [H1 H2].
    assert (is_open b = false) as Hb by (unfold is_open; by rewrite Eb).
    destruct (existsb is_open l) eqn:E.
    + cbn [map]. unfold span at 1. rewrite Ea, Eb. split; [done|]. cbn. by rewrite Hb.
    + rewrite Hb. cbn [map]. unfold span at 1. rewrite Ea, Eb. split; [|cbn; by rewrite Hb].
      split_and!; try done. eapply bracketed_weaken; [exact H|lia].
  - intros (Hl & Ha & Hla). assert (l = []) as -> by (by destruct l).
    assert (is_open b = true) as Hb by (unfold is_open; by rewrite Eb).
    cbn [existsb]. rewrite Hb. cbn [map]. rewrite Hc, Ea. cbn [existsb bracketed].
    split; [split_and!; lia|]. pose proof (f_equal snd (Hc b)) as Hz. unfold is_open.
    change (b_end (set_closed n o e b)) with (snd (span (set_closed n o e b))). by rewrite Hz.
Qed.

(** Bracketed spans are disjoint: at most one closed interval holds a sequence number. *)
Definition holds (b : interval) (seq : Z) : Prop :=
  exists a z, b_start b = SInt a /\ b_end b = Some (SInt z) /\ a <= seq <= z.
Lemma bracketed_bounds lo l last n b a z :
  bracketed lo (spans l) last -> l !! n = Some b -> b_start b = SInt a -> b_end b = Some (SInt z) ->
  lo < a /\ a < z /\ z <= last.
Proof.
  assert (forall lo l last, bracketed lo l last -> lo <= last) as Hle.
  { clear. intros lo l. revert lo. induction l as [|[a e] l IH]; intros lo last; cbn; [done|].
    destruct a; try done. destruct e as [[z'| |]|]; try done; [intros (?&?&?%IH); lia|intros (?&?&?); lia]. }
  revert lo n. induction l as [|c l IH]; [done|]. intros lo n. cbn. unfold span at 1.
  destruct (b_start c) as [a'| |] eqn:Ea; try done. destruct (b_end c) as [[z'| |]|] eqn:Ez; try done.
  - intros (? & ? & H) Hn Hs He. destruct n as [|n].
    + cbn in Hn. injection Hn as ->. rewrite Ea in Hs. rewrite Ez in He. injection Hs as ->. injection He as ->.
      apply Hle in H. lia.
    + cbn in Hn. destruct (IH z' n H Hn Hs He). lia.
  - intros (Hl & _) Hn Hs He. assert (l = []) as -> by (by destruct l). destruct n; [|done].
    cbn in Hn. injection Hn as ->. congruence.
Qed.
Lemma bracketed_unique lo l last n m b c seq :
  bracketed lo (spans l) last -> l !! n = Some b -> l !! m = Some c -> holds b seq -> holds c seq -> n = m.
Proof.
  intros H Hn Hm Hb Hc. revert lo n m H Hn Hm. induction l as [|x l IH]; [done|]. intros lo n m H Hn Hm.
  cbn in H. unfold span at 1 in H. destruct (b_start x) as [a'| |] eqn:Ea; try done.
  destruct (b_end x) as [[z'| |]|] eqn:Ez; try done.
  - destruct H as (Ha & Hz & H). destruct n as [|n], m as [|m]; cbn in Hn, Hm; [done|..|f_equal; by apply (IH z')].
    + injection Hn as ->. destruct Hb as (a & z & Hs & He & ?), Hc as (a1 & z1 & Hs1 & He1 & ?).
      destruct (bracketed_bounds z' l last m c a1 z1 H Hm Hs1 He1). rewrite Ez in He. injection He as ->. lia.
    + injection Hm as ->. destruct Hb as (a & z & Hs & He & ?), Hc as (a1 & z1 & Hs1 & He1 & ?).
      destruct (bracketed_bounds z' l last n b a z H Hn Hs He). rewrite Ez in He1. injection He1 as ->. lia.
  - destruct H as (Hl & _). assert (l = []) as -> by (by destruct l). destruct n, m; try done.
Qed.

(** ** The [used] marks are set by settlement only *)

Definition keeps_used (f : interval -> interval) : Prop := forall b, b_used (f b) = b_used b.
Lemma used_step a : keeps_used (set_step a). Proof. by intros []. Qed.
Lemma used_delivered i : keeps_used (set_delivered i). Proof. by intros []. Qed.
Lemma used_text n t : keeps_used (set_text n t). Proof. by intros []. Qed.
Lemma used_step_ended a u : keeps_used (set_step_ended a u). Proof. by intros []. Qed.
Lemma used_closed seq o e : keeps_used (set_closed seq o e). Proof. by intros []. Qed.
Lemma used_compaction_started d :
  keeps_used (fun b => set_compactions (b_compaction_starts b ++ [as_str (get "inputID" d)]) (b_compactions b) b).
Proof. by intros []. Qed.
Lemma used_compaction_ended d : keeps_used (end_compaction d).
Proof. intros []. unfold end_compaction. cbn. by destruct (compaction_match _ _). Qed.
#[export] Hint Resolve used_step used_delivered used_text used_step_ended used_closed
  used_compaction_started used_compaction_ended : blind.
Lemma update_open_used f l n b :
  keeps_used f -> update_open f l !! n = Some b -> exists b0, l !! n = Some b0 /\ b_used b = b_used b0.
Proof.
  intros Hf. revert n. induction l as [|c l IH]; [done|]. intros n. cbn [update_open].
  destruct (existsb is_open l); destruct n as [|n]; cbn; try (intros [= <-]); eauto.
  destruct (is_open c); eauto.
Qed.

(** ** What a durable event does *)

Lemma open_spans l : existsb is_open l = existsb (fun p => match snd p with None => true | Some _ => false end) (spans l).
Proof. induction l as [|b l IH]; [done|]. cbn. by rewrite IH. Qed.

Definition starts_execution (kind : json) : bool := kind_is kind "session.execution.started".
Definition ends_execution (kind : json) : bool :=
  match kind with JStr k => bool_decide (is_Some (assoc k terminal_kinds)) | _ => false end.

Section durable.
Context (float_add : json -> json -> json) (dumps_default : json -> string).
Abbreviation durable := (_apply_durable_event float_add dumps_default).

(** An update of the last open interval, or nothing. *)
Definition open_update (busy busy' : list interval) : Prop :=
  busy' = busy \/ exists f, keeps_used f /\ keeps_span f /\ busy' = update_open f busy.
Lemma open_update_refl busy : open_update busy busy. Proof. by left. Qed.
Lemma open_update_by f busy : keeps_used f -> keeps_span f -> open_update busy (update_open f busy).
Proof. intros. right. by exists f. Qed.
Hint Resolve open_update_refl : core.

Lemma for_session_cases s data f (P : list interval * result exn unit -> Prop) :
  P (ns_busy s, Ok tt) -> P (ns_busy s, Err AttributeError) -> (forall d, P (f d)) -> P (for_session s data f).
Proof. intros H1 H2 H3. unfold for_session. destruct data; try done. by destruct (eq_opt_str _ _). Qed.

(** Every durable event but a start and an end of execution updates an open interval. *)
Lemma durable_cases kind data seq s :
  match starts_execution kind, ends_execution kind with
  | true, _ => durable kind data seq s = (ns_busy s ++ [new_interval (seq_of seq)], Ok tt)
  | false, true => exists o e, durable kind data seq s = (update_open (set_closed seq o e) (ns_busy s), Ok tt)
  | false, false => open_update (ns_busy s) (fst (durable kind data seq s))
  end.
Proof.
  unfold _apply_durable_event, starts_execution. destruct (kind_is kind "session.execution.started"); [done|].
  assert (forall k, kind_is kind k = true -> assoc k terminal_kinds = None -> ends_execution kind = false) as Hk.
  { intros k. unfold kind_is, ends_execution. destruct kind; try done. intros ->%String.eqb_eq ->. done. }
  destruct (kind_is kind "session.step.started") eqn:E1.
  { rewrite (Hk _ E1) by done. apply for_session_cases; try done. intros d. cbn [fst].
    destruct (as_str _); [|done]. apply open_update_by; auto with blind. }
  destruct (kind_is kind "session.inbox.delivered") eqn:E2.
  { rewrite (Hk _ E2) by done. apply for_session_cases; try done. intros d. cbn [fst].
    destruct (as_str _); [|done]. apply open_update_by; auto with blind. }
  destruct (kind_is kind "session.compaction.started") eqn:E3.
  { rewrite (Hk _ E3) by done. apply for_session_cases; try done. intros d. cbn [fst].
    apply open_update_by; auto with blind. }
  destruct (kind_is kind "session.step.ended" || kind_is kind "session.step.failed") eqn:E4.
  { rewrite orb_true_iff in E4. assert (ends_execution kind = false) as -> by (by destruct E4 as [E4|E4]; apply (Hk _ E4)).
    apply for_session_cases; try done. intros d.
    destruct (last_open (ns_busy s)) as [b|]; [|done]. destruct (as_str _) as [a|]; [|done].
    destruct (bool_decide _); [|done]. destruct (_accumulate_usage _ _ _). cbn [fst].
    apply open_update_by; auto with blind. }
  destruct (kind_is kind "session.compaction.ended" || kind_is kind "session.compaction.failed") eqn:E5.
  { rewrite orb_true_iff in E5. assert (ends_execution kind = false) as -> by (by destruct E5 as [E5|E5]; apply (Hk _ E5)).
    apply for_session_cases; try done. intros d. cbn [fst]. apply open_update_by; auto with blind. }
  destruct (kind_is kind "session.text.ended") eqn:E6.
  { rewrite (Hk _ E6) by done. apply for_session_cases; try done. intros d. cbn [fst].
    destruct (last_open _); [|done].
    destruct (py_int (get "ordinal" d)), (as_str (get "text" d)); try done.
    destruct (eq_opt_str _ _); [|done]. apply open_update_by; auto with blind. }
  unfold ends_execution. destruct kind as [| | | |k| |]; try done.
  destruct (assoc k terminal_kinds) as [o|].
  - rewrite bool_decide_true by eauto. eauto.
  - rewrite bool_decide_false by (by intros []). done.
Qed.

Lemma durable_closed kind data seq s n b :
  ns_busy s !! n = Some b -> is_open b = false -> fst (durable kind data seq s) !! n = Some b.
Proof.
  intros Hn Hb. pose proof (durable_cases kind data seq s) as H.
  destruct (starts_execution kind); [|destruct (ends_execution kind)].
  - rewrite H. cbn [fst]. by apply lookup_app_l_Some.
  - destruct H as (o & e & ->). by apply update_open_closed.
  - destruct H as [->|(f & _ & _ & ->)]; [done|by apply update_open_closed].
Qed.

Lemma durable_used kind data seq s n b :
  fst (durable kind data seq s) !! n = Some b -> b_used b = true ->
  exists b0, ns_busy s !! n = Some b0 /\ b_used b0 = true.
Proof.
  intros Hn Hb. pose proof (durable_cases kind data seq s) as H.
  destruct (starts_execution kind); [|destruct (ends_execution kind)].
  - rewrite H in Hn. cbn [fst] in Hn. apply lookup_app_Some in Hn as [Hn|[_ Hn]]; [eauto|].
    apply list_lookup_singleton_Some in Hn as [_ <-]. done.
  - destruct H as (o & e & H). rewrite H in Hn. cbn [fst] in Hn.
    destruct (update_open_used _ _ _ _ (used_closed seq o e) Hn) as (b0 & ? & ?). exists b0. split; congruence.
  - destruct H as [H|(f & Hf & _ & H)]; rewrite H in Hn; [eauto|].
    destruct (update_open_used _ _ _ _ Hf Hn) as (b0 & ? & ?). exists b0. split; congruence.
Qed.

Definition opens (kind : json) (open : bool) : bool :=
  if starts_execution kind then true else if ends_execution kind then false else open.
Lemma durable_bracketed kind data seq z s last :
  bracketed 0 (spans (ns_busy s)) last -> last < z -> py_int seq = Some z ->
  (starts_execution kind = true -> existsb is_open (ns_busy s) = false) ->
  bracketed 0 (spans (fst (durable kind data seq s))) z
  /\ existsb is_open (fst (durable kind data seq s)) = opens kind (existsb is_open (ns_busy s)).
Proof.
  intros H Hz Hs Ho. pose proof (durable_cases kind data seq s) as Hd. unfold opens.
  destruct (starts_execution kind); [|destruct (ends_execution kind)].
  - rewrite Hd. cbn [fst]. unfold seq_of. rewrite Hs. split.
    + eapply bracketed_started; eauto.
    + rewrite existsb_app. cbn. by rewrite orb_true_r.
  - destruct Hd as (o & e & ->). cbn [fst]. by eapply bracketed_closed.
  - assert (spans (fst (durable kind data seq s)) = spans (ns_busy s)) as E.
    { destruct Hd as [->|(f & _ & Hf & ->)]; [done|by apply spans_update]. }
    rewrite open_spans, E, <- open_spans. split; [|done]. eapply bracketed_weaken; [exact H|lia].
Qed.

Lemma last_open_by {A} (g : interval -> A) l l' :
  map unuse l = map unuse l' -> (forall b, g (unuse b) = g b) ->
  g <$> last_open l = g <$> last_open l'.
Proof.
  intros E Hg. pose proof (last_open_unuse l) as H. pose proof (last_open_unuse l') as H'. rewrite E, H' in H.
  destruct (last_open l) as [b|], (last_open l') as [b'|]; try done. apply (inj Some) in H.
  change (Some (g b) = Some (g b')). f_equal. by rewrite <- (Hg b), <- (Hg b'), H.
Qed.
Lemma update_open_blind f l l' : blind f -> map unuse l = map unuse l' -> map unuse (update_open f l) = map unuse (update_open f l').
Proof. intros Hf E. rewrite !update_open_unuse by done. by rewrite E. Qed.

(** The [used] marks do not influence it. *)
Lemma durable_blind kind data seq s s' :
  ns_sid s = ns_sid s' -> map unuse (ns_busy s) = map unuse (ns_busy s') ->
  snd (durable kind data seq s) = snd (durable kind data seq s')
  /\ map unuse (fst (durable kind data seq s)) = map unuse (fst (durable kind data seq s')).
Proof.
  intros Hsid E.
  assert (forall f f', (forall d, snd (f d) = snd (f' d) /\ map unuse (fst (f d)) = map unuse (fst (f' d))) ->
    snd (for_session s data f) = snd (for_session s' data f')
    /\ map unuse (fst (for_session s data f)) = map unuse (fst (for_session s' data f'))) as Hfs.
  { intros f f' H. unfold for_session. rewrite <- Hsid. destruct data; try done. by destruct (eq_opt_str _ _). }
  unfold _apply_durable_event.
  destruct (kind_is kind "session.execution.started"); [cbn; rewrite !map_app, E; done|].
  destruct (kind_is kind "session.step.started").
  { apply Hfs. intros d. destruct (as_str _); [|done]. split; [done|]. cbn. apply update_open_blind; auto with blind. }
  destruct (kind_is kind "session.inbox.delivered").
  { apply Hfs. intros d. destruct (as_str _); [|done]. split; [done|]. cbn. apply update_open_blind; auto with blind. }
  destruct (kind_is kind "session.compaction.started").
  { apply Hfs. intros d. split; [done|]. cbn. apply update_open_blind; auto with blind. }
  destruct (kind_is kind "session.step.ended" || kind_is kind "session.step.failed").
  { apply Hfs. intros d. pose proof (last_open_by (fun b => (b_step_starts b, b_usage b)) _ _ E ltac:(by intros [])) as Hl.
    destruct (last_open (ns_busy s)) as [b|], (last_open (ns_busy s')) as [b'|]; try done.
    destruct (as_str _) as [a|]; [|done]. cbn in Hl. injection Hl as -> ->.
    destruct (bool_decide _); [|done]. destruct (_accumulate_usage _ _ _). split; [done|]. cbn.
    apply update_open_blind; auto with blind. }
  destruct (kind_is kind "session.compaction.ended" || kind_is kind "session.compaction.failed").
  { apply Hfs. intros d. split; [done|]. cbn. apply update_open_blind; auto with blind. }
  destruct (kind_is kind "session.text.ended").
  { apply Hfs. intros d. pose proof (last_open_by b_assistant_id _ _ E ltac:(by intros [])) as Hl.
    destruct (last_open (ns_busy s)) as [b|], (last_open (ns_busy s')) as [b'|]; try done.
    destruct (py_int (get "ordinal" d)), (as_str (get "text" d)); try done. cbn in Hl. injection Hl as ->.
    destruct (eq_opt_str _ _); [|done]. split; [done|]. cbn. apply update_open_blind; auto with blind. }
  destruct kind as [| | | |k| |]; try done. destruct (assoc k terminal_kinds); [|done].
  split; [done|]. cbn. apply update_open_blind; auto with blind.
Qed.
End durable.

(** ** Settlement *)

Section settlement.
Context (float_add : json -> json -> json) (float_cmp : pyfloat -> Z -> option comparison).
Abbreviation resolve_state := (resolve_state float_add float_cmp).
Abbreviation usage_of := (_usage_for_interval float_add).
Abbreviation contains := (contains float_cmp).

(** The invocation as its interval settles it. *)
Definition settled_by (b : interval) (u : usage) (st : istate) : istate :=
  set_i_settled (set_i_usage (_usage_record u) (take_interval b st)).

Lemma resolve_state_cases seq st l l' st' r :
  resolve_state seq st l = (l', st', r) ->
  (l' = l /\ st' = st /\ (r = Ok tt -> forall n b, l !! n = Some b -> is_open b = false -> b_used b = false ->
                                     contains b seq = Ok false))
  \/ exists n b, l !! n = Some b /\ is_open b = false /\ b_used b = false /\ contains b seq = Ok true
       /\ l' = <[n := set_used b]> l
       /\ match usage_of (take_interval b st) b with
          | Err e => st' = take_interval b st /\ r = Err e
          | Ok u => st' = settled_by b u st /\ r = Ok tt
          end.
Proof.
  revert l' st' r. induction l as [|b l IH]; intros l' st' r; cbn [Opencode.resolve_state].
  - intros [= <- <- <-]. by left.
  - assert (forall (Hskip : is_open b = false -> b_used b = false -> contains b seq = Ok false),
      (let '(busy, st0, r0) := resolve_state seq st l in (b :: busy, st0, r0)) = (l', st', r) ->
      (l' = b :: l /\ st' = st /\ (r = Ok tt -> forall n b0, (b :: l) !! n = Some b0 -> is_open b0 = false ->
                                     b_used b0 = false -> contains b0 seq = Ok false))
      \/ exists n b0, (b :: l) !! n = Some b0 /\ is_open b0 = false /\ b_used b0 = false /\ contains b0 seq = Ok true
           /\ l' = <[n := set_used b0]> (b :: l)
           /\ match usage_of (take_interval b0 st) b0 with
              | Err e => st' = take_interval b0 st /\ r = Err e
              | Ok u => st' = settled_by b0 u st /\ r = Ok tt
              end) as Hrec.
    { intros Hskip. destruct (resolve_state seq st l) as [[l1 st1] r1] eqn:E. intros [= <- <- <-].
      destruct (IH _ _ _ eq_refl) as [(-> & -> & H)|(n & c & H1 & H2 & H3 & H4 & -> & H5)].
      - left. split_and!; try done. intros Hr [|n] c Hc; cbn in Hc; [injection Hc as <-; done|by apply H with n].
      - right. exists (S n), c. by split_and!. }
    destruct (b_used b || is_open b) eqn:Eb.
    { apply Hrec. intros H1 H2. by rewrite H1, H2 in Eb. }
    apply orb_false_iff in Eb as [Hu Ho]. destruct (contains b seq) as [[]|e] eqn:Ec.
    + intros H. right. exists O, b. split_and!; try done.
      * by destruct (usage_of _ _); injection H as <- <- <-.
      * by destruct (usage_of _ _); injection H as <- <- <-.
    + apply Hrec. done.
    + intros [= <- <- <-]. by left.
Qed.

Lemma bracketed_contains lo l last n b seq :
  bracketed lo (spans l) last -> l !! n = Some b -> is_open b = false ->
  exists c, contains b seq = Ok c /\ (c = true <-> holds b seq).
Proof.
  intros H Hn Ho. assert (exists a z, b_start b = SInt a /\ b_end b = Some (SInt z)) as (a & z & Ha & Hz).
  { revert lo n H Hn. unfold spans. induction l as [|c l IH]; [done|]. intros lo n. cbn. unfold span at 1.
    unfold is_open in Ho.
    destruct (b_start c) as [a| |] eqn:Ea; try done. destruct (b_end c) as [[z| |]|] eqn:Ez; try done.
    - intros (_ & _ & H) Hn. destruct n as [|n]; [injection Hn as ->; eauto|by apply (IH z n)].
    - intros (Hl & _) Hn. assert (l = []) as -> by (by destruct l). destruct n; [|done].
      cbn in Hn. injection Hn as ->. by rewrite Ez in Ho. }
  unfold Opencode.contains, holds. rewrite Ha, Hz. cbn. destruct (Z.leb_spec a seq); cbn.
  - exists (seq <=? z). split; [done|]. rewrite Z.leb_le. split; [intros ?; exists a, z; split_and!; auto; lia|].
    intros (a' & z' & [= <-] & [= <-] & ?). lia.
  - exists false. split; [done|]. split; [done|]. intros (a' & z' & [= <-] & [= <-] & ?). lia.
Qed.

(** On bracketed intervals: settled by the one interval that holds the delivery, if it is free. *)
Lemma resolve_bracketed lo l last seq st n b :
  bracketed lo (spans l) last -> l !! n = Some b -> is_open b = false -> b_used b = false -> holds b seq ->
  resolve_state seq st l =
    (<[n := set_used b]> l,
     match usage_of (take_interval b st) b with Err e => take_interval b st | Ok u => settled_by b u st end,
     match usage_of (take_interval b st) b with Err e => Err e | Ok _ => Ok tt end).
Proof.
  intros H Hn Ho Hu Hh. destruct (resolve_state seq st l) as [[l' st'] r] eqn:E.
  assert (contains b seq = Ok true) as Hc.
  { destruct (bracketed_contains lo l last n b seq H Hn Ho) as (c & -> & Hi). by rewrite (proj2 Hi Hh). }
  destruct (resolve_state_cases _ _ _ _ _ _ E) as [(-> & -> & Hno)|(m & c & H1 & H2 & H3 & H4 & -> & H5)].
  - destruct r as [[]|e].
    + specialize (Hno eq_refl n b Hn Ho Hu). congruence.
    + exfalso. clear Hno. assert (forall e', resolve_state seq st l <> (l, st, Err e')) as Hne; [|by apply (Hne e)].
      intros e' E'. revert lo n H Hn E'. clear E. unfold spans. induction l as [|x l IH]; [done|].
      intros lo n H Hn. cbn [Opencode.resolve_state].
      assert (bracketed lo (spans (x :: l)) last) as H0 by done.
      cbn in H. unfold span at 1 in H. destruct (b_start x) as [a| |] eqn:Ea; try done.
      destruct (b_end x) as [[z| |]|] eqn:Ez; try done.
      * destruct H as (_ & _ & H).
        assert (n <> O -> (let '(busy, st0, r0) := resolve_state seq st l in (x :: busy, st0, r0)) <> (x :: l, st, Err e')) as Hr.
        { intros Hn0. destruct n as [|n]; [done|]. destruct (resolve_state seq st l) as [[l1 st1] r1] eqn:E1.
          intros [= -> -> ->]. by apply (IH z n). }
        destruct (bracketed_contains lo (x :: l) last 0 x seq H0 eq_refl) as (cx & Hcx & Hi);
          [unfold is_open; by rewrite Ez|]. rewrite Hcx.
        destruct n as [|n].
        { cbn in Hn. injection Hn as ->. rewrite Hu, Ho. cbn. rewrite (proj2 Hi Hh).
          destruct (usage_of _ _); [done|]. intros [= Hb _ _]. by rewrite <- Hb in Hu. }
        destruct (b_used x || is_open x); [by apply Hr|]. destruct cx; [|by apply Hr].
        exfalso. assert (holds x seq) as Hx by by apply Hi.
        by pose proof (bracketed_unique lo (x :: l) last 0 (S n) x b seq H0 eq_refl Hn Hx Hh).
      * destruct H as (Hl & _). assert (l = []) as -> by (by destruct l). destruct n; [|done].
        cbn in Hn. injection Hn as ->. unfold is_open in Ho. by rewrite Ez in Ho.
  - assert (holds c seq) as Hhc.
    { destruct (bracketed_contains lo l last m c seq H H1 H2) as (x & Hx & Hi). apply Hi. congruence. }
    pose proof (bracketed_unique lo l last n m b c seq H Hn H1 Hh Hhc) as <-. rewrite Hn in H1. injection H1 as <-.
    by destruct (usage_of _ _); destruct H5 as [-> ->].
Qed.
Lemma resolve_idle lo l last seq st :
  bracketed lo (spans l) last ->
  (forall n b, l !! n = Some b -> is_open b = false -> b_used b = false -> ~ holds b seq) ->
  resolve_state seq st l = (l, st, Ok tt).
Proof.
  intros H Hno. revert lo H. induction l as [|x l IH]; [done|]. intros lo H. cbn [Opencode.resolve_state].
  assert (bracketed lo (spans (x :: l)) last) as H0 by done. unfold spans in H. cbn in H. unfold span at 1 in H.
  assert (forall n b, l !! n = Some b -> is_open b = false -> b_used b = false -> ~ holds b seq) as Hno'
    by (intros n b; apply (Hno (S n))).
  destruct (b_used x || is_open x) eqn:E.
  - destruct (b_start x) as [a| |] eqn:Ea; try done. destruct (b_end x) as [[z| |]|] eqn:Ez; try done.
    + destruct H as (_ & _ & H). by rewrite (IH Hno' z H).
    + destruct H as (Hl & _). assert (l = []) as -> by (by destruct l). done.
  - apply orb_false_iff in E as [Hu Ho].
    destruct (bracketed_contains lo (x :: l) last 0 x seq H0 eq_refl Ho) as (c & -> & Hi).
    destruct c; [exfalso; by apply (Hno O x eq_refl Ho Hu), Hi|].
    destruct (b_start x) as [a| |] eqn:Ea; try done. unfold is_open in Ho.
    destruct (b_end x) as [[z| |]|] eqn:Ez; try done. destruct H as (_ & _ & H). by rewrite (IH Hno' z H).
Qed.
End settlement.
