(* ===== verification/OpencodeRace.v ===== *)
(** * engine/opencode.py: a receipt that races the events of its own input

    The native events of an input may arrive before the HTTP response that names the input.
    [receipt_race]: replaying them at the receipt gives the answer they would have given with
    the receipt known first. *)

From stdpp Require Import fin_sets gmap.
From Stdlib Require Import Ascii.
From S2P Require Import Prelude Sha256 PyJson Config Public StateRefs Effects Storage Wire Tokens Sessions Execution Opencode OpencodeFacts.
Local Open Scope string_scope.
Local Open Scope list_scope.
Local Open Scope Z_scope.

(** What the engine answers from. *)
Definition answer (st : istate) :=
  (i_outcome st, i_input_id st, i_delivered st, i_delivered_seq st, i_observation_lost st,
   i_error st, i_result st, i_settlement_confirmed st, i_usage st, i_settled st).

(** An invocation events can no longer change: settled, or not sent. *)
Definition inert (st : istate) : bool :=
  i_settled st || match i_input_id st with None => negb (i_delivered st) | Some _ => false end.
Definition all_inert (l : list (string * istate)) : Prop := Forall (fun ks => inert (snd ks) = true) l.

(** The delivery of input [id] of session [sid]. *)
Definition delivers (sid : option string) (id : string) (event : json) : bool :=
  kind_is (member "type" event) "session.inbox.delivered"
  && match event_data event with
     | JObj data => eq_opt_str (get "sessionID" data) sid && eq_opt_str (get "inboxID" data) (Some id)
     | _ => false
     end.
Definition accepted_at (sid : option string) (last : Z) (event : json) : bool :=
  match durable_seq event with
  | Some seq => eq_opt_str (member "aggregateID" (member "durable" event)) sid && (last <? seq)
  | None => true
  end.
(** The frames the native side is relied on to send: data are objects, a durable sequence is
    an integer, executions do not nest, and an input is delivered once. *)
Fixpoint orderly (sid : option string) (id : string) (last : Z) (open seen : bool) (frames : list (Z * json)) : bool :=
  match frames with
  | [] => true
  | (_, event) :: frames =>
      if negb (accepted_at sid last event) then orderly sid id last open seen frames
      else
        is_dict (event_data event) && negb (delivers sid id event && seen)
        && match member "durable" event with
           | JObj d =>
               match assoc "seq" d with
               | Some j =>
                   match py_int j with
                   | Some z =>
                       negb (starts_execution (member "type" event) && open)
                       && orderly sid id z (opens (member "type" event) open) (seen || delivers sid id event) frames
                   | None => false
                   end
               | None => false
               end
           | _ => orderly sid id last open (seen || delivers sid id event) frames
           end
  end.

Section race.
Context (float_add : json -> json -> json) (float_cmp : pyfloat -> Z -> option comparison)
        (dumps_default : json -> string).
Abbreviation dispatch := (_record_and_dispatch float_add float_cmp dumps_default).
Abbreviation prompt_sent := (prompt_sent float_add float_cmp).
Abbreviation resolve_states := (resolve_states float_add float_cmp).
Abbreviation usage_of := (_usage_for_interval float_add).

Fixpoint dispatch_all (frames : list (Z * json)) (s : native_session) : native_session * result exn unit :=
  match frames with
  | [] => (s, Ok tt)
  | (now, event) :: frames =>
      match dispatch now event s with
      | (s, Ok _) => dispatch_all frames s
      | (s, Err e) => (s, Err e)
      end
  end.

(** ** Invocations that events do not change *)

Lemma inert_resolvable st : inert st = true -> resolvable st = None.
Proof.
  unfold inert, resolvable. destruct (i_settled st); [by rewrite orb_true_r|].
  destruct (i_input_id st); [done|]. cbn. by intros ->%negb_true_iff.
Qed.
Lemma inert_skipped st : inert st = true -> (match i_input_id st with None => true | Some _ => i_settled st end) = true.
Proof. unfold inert. destruct (i_settled st), (i_input_id st); done. Qed.

Lemma apply_all_inert sid e l : all_inert l -> apply_all sid e l = (l, Ok tt).
Proof. induction 1 as [|[k st] l H _ IH]; [done|]. cbn in *. by rewrite inert_skipped, IH. Qed.
Lemma apply_all_last sid e l k st :
  all_inert l -> i_settled st = false -> is_Some (i_input_id st) ->
  apply_all sid e (l ++ [(k, st)]) =
    match _apply_event sid st e with
    | Ok st' => (l ++ [(k, st')], Ok tt) | Err x => (l ++ [(k, st)], Err x) end.
Proof.
  intros Hl Hs [i Hi]. induction Hl as [|[k' st'] l H _ IH]; cbn in *.
  - rewrite Hi, Hs. by destruct (_apply_event _ _ _).
  - rewrite inert_skipped by done. rewrite IH. by destruct (_apply_event _ _ _).
Qed.
Lemma resolve_inert l busy : all_inert l -> resolve_states l busy = (l, busy, Ok tt).
Proof. induction 1 as [|[k st] l H _ IH]; [done|]. cbn in *. by rewrite inert_resolvable, IH. Qed.
Lemma resolve_last l k st busy :
  all_inert l -> resolve_states (l ++ [(k, st)]) busy =
    match resolvable st with
    | None => (l ++ [(k, st)], busy, Ok tt)
    | Some seq => let '(busy, st, r) := resolve_state float_add float_cmp seq st busy in (l ++ [(k, st)], busy, r)
    end.
Proof.
  intros Hl. induction Hl as [|[k' st'] l H _ IH]; cbn in *.
  - destruct (resolvable st); [|done]. by destruct (resolve_state _ _ _ _ _) as [[? ?] [[]|]].
  - rewrite inert_resolvable by done. rewrite IH. destruct (resolvable st); [|done].
    by destruct (resolve_state _ _ _ _ _) as [[? ?] [[]|]].
Qed.
Lemma assoc_last l k (st : istate) : assoc k l = None -> assoc k (l ++ [(k, st)]) = Some st.
Proof.
  induction l as [|[k' st'] l IH]; cbn; [by rewrite String.eqb_refl|]. by destruct (String.eqb k k').
Qed.
Lemma put_last l k (st st' : istate) : assoc k l = None -> put_state k st' (l ++ [(k, st)]) = l ++ [(k, st')].
Proof.
  induction l as [|[k' s'] l IH]; cbn; [by rewrite String.eqb_refl|]. 
  destruct (String.eqb_spec k k') as [->|Hne]; [done|]. intros H.
  rewrite (proj2 (String.eqb_neq k' k)) by congruence. by rewrite IH.
Qed.
Lemma put_new l k (st : istate) : assoc k l = None -> put_state k st l = l ++ [(k, st)].
Proof.
  induction l as [|[k' s'] l IH]; cbn; [done|]. 
  destruct (String.eqb_spec k k') as [->|Hne]; [done|]. intros H.
  rewrite (proj2 (String.eqb_neq k' k)) by congruence. by rewrite IH.
Qed.

(** ** The delivery projection *)

Definition progressed (now : option Z) (st : istate) : istate :=
  match now with Some n => set_i_progress n st | None => st end.
Lemma apply_progress sid now st e :
  _apply_event sid (progressed now st) e = progressed now <$> _apply_event sid st e.
Proof.
  destruct now as [n|]; [|by destruct (_apply_event _ _ _)]. unfold _apply_event. destruct (_ || _); [|done].
  destruct (event_data e); try done. replace (i_input_id (progressed (Some n) st)) with (i_input_id st) by by destruct st.
  destruct (_ && _); [|done]. cbn. f_equal.
  destruct st as [o ? ? ? ? ? ? ? ? ? ? ? ?]; cbn.
  by destruct (kind_is (member "type" e) "session.inbox.delivered"), o,
    (py_int (member "seq" (member "durable" e))).
Qed.
Lemma replay_progress sid now log st :
  replay sid log (progressed now st) = let (st', r) := replay sid log st in (progressed now st', r).
Proof.
  revert st. induction log as [|[e ok] log IH]; intros st; [done|]. cbn [replay]. destruct ok; cbn [negb]; [|done].
  rewrite apply_progress. destruct (_apply_event sid st e) as [st'|]; cbn; [apply IH|done].
Qed.
Lemma replay_app sid l1 l2 st :
  replay sid (l1 ++ l2) st =
    match replay sid l1 st with (st', Ok _) => replay sid l2 st' | (st', Err e) => (st', Err e) end.
Proof.
  revert st. induction l1 as [|[e ok] l1 IH]; intros st; [done|]. cbn. destruct ok; cbn; [|apply IH].
  destruct (_apply_event sid st e); [apply IH|done].
Qed.

(** On an open invocation it always succeeds, and changes the answer only at a delivery. *)
Lemma apply_open sid st id e :
  is_dict (event_data e) = true -> i_input_id st = Some id -> i_outcome st = EoRunning ->
  exists st', _apply_event sid st e = Ok st'
    /\ i_last_progress_at st' = i_last_progress_at st
    /\ answer st' = if delivers sid id e
         then answer (set_i_delivery false true
                (match durable_seq e with Some n => Some n | None => i_delivered_seq st end) st)
         else answer st.
Proof.
  intros Hd Hi Ho. unfold _apply_event, delivers. rewrite Hi.
  destruct (kind_is (member "type" e) "session.inbox.delivered") eqn:Ek.
  - rewrite orb_true_r. cbn [andb]. destruct (event_data e) as [| | | | | |data]; try done.
    destruct (eq_opt_str (get "sessionID" data) sid && eq_opt_str (get "inboxID" data) (Some id)); [|eauto].
    eexists. split; [done|]. unfold durable_seq. cbn. rewrite Ho. by destruct st.
  - rewrite orb_false_r. cbn [andb]. destruct (kind_is (member "type" e) "session.inbox.enqueued"); [|eauto].
    destruct (event_data e) as [| | | | | |data]; try done.
    destruct (_ && _); [|eauto]. eexists. split; [done|]. cbn. rewrite Ho. by destruct st.
Qed.

(** ** One accepted event, spelled out *)

Definition progress_at (sid : option string) (now : Z) (e : json) : option Z :=
  match member "type" e, member "data" e with
  | JStr k, JObj data =>
      if String.prefix "session." k && eq_opt_str (get "sessionID" data) sid then Some now else None
  | _, _ => None
  end.
Definition all_progressed (p : option Z) (l : list (string * istate)) : list (string * istate) :=
  map (fun ks => (fst ks, progressed p (snd ks))) l.
Definition durable_part (e : json) (s : native_session) : list interval * result exn unit :=
  match member "durable" e with
  | JObj d =>
      match assoc "seq" d with
      | None => (ns_busy s, Err KeyError)
      | Some seq => _apply_durable_event float_add dumps_default (member "type" e) (event_data e) seq s
      end
  | _ => (ns_busy s, Ok tt)
  end.
Definition last_after (e : json) (s : native_session) : Z :=
  from_option id (ns_last_durable_seq s) (durable_seq e).
Definition after (e : json) (ok : bool) (last : Z) (busy : list interval) (states : list (string * istate))
    (s : native_session) : native_session :=
  mkNs (ns_sid s) (ns_event_log s ++ [(e, ok)]) states busy last (ns_alive s) (ns_confirmed_halted s).

Lemma all_progressed_None l : all_progressed None l = l.
Proof. unfold all_progressed. rewrite <- (map_id l) at 2. apply map_ext. by intros []. Qed.
Lemma note_progress_eq now e s :
  note_progress now e s = put_states (all_progressed (progress_at (ns_sid s) now e) (ns_invocations s)) s.
Proof.
  unfold note_progress, progress_at.
  assert (s = put_states (all_progressed None (ns_invocations s)) s) as E
    by (rewrite all_progressed_None; by destruct s).
  destruct (member "type" e); try done. destruct (member "data" e); try done. by destruct (_ && _).
Qed.

Lemma dispatch_rejected now e s :
  is_dict e = true -> accepted e s = false ->
  dispatch now e s = (after e false (ns_last_durable_seq s) (ns_busy s) (ns_invocations s) s, Ok tt).
Proof.
  intros He Ha. destruct e; try done. unfold _record_and_dispatch. rewrite Ha.
  unfold after. by destruct (durable_seq _), s.
Qed.
Lemma dispatch_accepted now e s :
  is_dict e = true -> accepted e s = true ->
  dispatch now e s =
    match durable_part e s with
    | (busy, Err x) => (after e true (last_after e s) busy (ns_invocations s) s, Err x)
    | (busy, Ok _) =>
        match apply_all (ns_sid s) e (all_progressed (progress_at (ns_sid s) now e) (ns_invocations s)) with
        | (states, Err x) => (after e true (last_after e s) busy states s, Err x)
        | (states, Ok _) =>
            let '(states, busy, r) := resolve_states states busy in (after e true (last_after e s) busy states s, r)
        end
    end.
Proof.
  intros He Ha. destruct e as [| | | | | |ed]; try done.
  set (e := JObj ed) in *. unfold _record_and_dispatch. change (match e with JObj _ => _ | _ => _ end) with
    (let ok := accepted e s in
      let s := match durable_seq e with Some seq => if ok then put_seq seq s else s | None => s end in
      let s := put_log (ns_event_log s ++ [(e, ok)]) s in
      if negb ok then (s, Ok tt)
      else
        let durable := durable_part e s in
        let s := put_busy (fst durable) s in
        match snd durable with
        | Err e => (s, Err e)
        | Ok _ =>
            let s := note_progress now e s in
            let (states, r) := apply_all (ns_sid s) e (ns_invocations s) in
            let s := put_states states s in
            match r with Err e => (s, Err e) | Ok _ => _resolve_pending float_add float_cmp s end
        end).
  rewrite Ha. cbv zeta. cbn [negb].
  set (s1 := match durable_seq e with Some seq => put_seq seq s | None => s end).
  assert (ns_last_durable_seq s1 = last_after e s /\ ns_sid s1 = ns_sid s /\ ns_event_log s1 = ns_event_log s
    /\ ns_invocations s1 = ns_invocations s /\ ns_busy s1 = ns_busy s /\ ns_alive s1 = ns_alive s
    /\ ns_confirmed_halted s1 = ns_confirmed_halted s) as (E1 & E2 & E3 & E4 & E5 & E6 & E7)
    by (unfold s1, last_after; by destruct (durable_seq e)).
  clearbody s1. set (s2 := put_log _ s1).
  assert (durable_part e s2 = durable_part e s) as ->.
  { unfold durable_part. destruct (member "durable" e); try (cbn; by rewrite E5).
    destruct (assoc "seq" d); [|cbn; by rewrite E5]. unfold _apply_durable_event, for_session, s2. cbn.
    by rewrite E2, E5. }
  assert (forall busy states, mkNs (ns_sid s1) (ns_event_log s ++ [(e, true)]) states busy (ns_last_durable_seq s1)
            (ns_alive s1) (ns_confirmed_halted s1) = after e true (last_after e s) busy states s) as Haft.
  { intros busy states. unfold after. by rewrite E1, E2, E6, E7. }
  destruct (durable_part e s) as [busy [u|x]]; cbn [fst snd].
  - rewrite note_progress_eq. unfold s2.
    cbn [put_busy put_log put_states ns_sid ns_invocations ns_busy ns_event_log ns_last_durable_seq ns_alive ns_confirmed_halted].
    rewrite E2, E4. destruct (apply_all _ _ _) as [states [u'|x]].
    + unfold _resolve_pending.
      cbn [put_busy put_log put_states ns_sid ns_invocations ns_busy ns_event_log ns_last_durable_seq ns_alive ns_confirmed_halted].
      destruct (resolve_states states busy) as [[states' busy'] r]. rewrite <- Haft. unfold put_states, put_busy. cbn.
      by rewrite E3.
    + rewrite <- Haft. unfold put_states, put_busy. cbn. by rewrite E3.
  - rewrite <- Haft. unfold s2, put_busy, put_log. cbn. by rewrite E3, E4.
Qed.

(** ** The two runs side by side

    [L] knew the receipt first, [M] does not know it yet. *)

Definition given (id : string) (st : istate) : istate := set_i_outcome EoRunning (set_i_input id st).
Definition waiting (n0 : nat) (st : istate) : Prop := exists p, st = new_istate n0 p.
Definition free_until (last0 : Z) (busy : list interval) : Prop :=
  forall n b, busy !! n = Some b -> b_used b = true -> is_open b = false /\ forall q, holds b q -> q <= last0.
(** What [M] would replay: the delivery, and nothing else. *)
Definition projected (id : string) (last0 : Z) (seen : bool) (D : istate) : Prop :=
  answer D = (EoRunning, Some id, seen, i_delivered_seq D, false, None, None, false, None, false)
  /\ forall q, i_delivered_seq D = Some q -> last0 < q /\ seen = true.

Inductive settlement (last0 : Z) (busyL busyM : list interval) (stL D : istate) : Prop :=
  | still_open :
      stL = D -> free_until last0 busyL ->
      (forall q n b, i_delivered_seq D = Some q -> busyM !! n = Some b -> is_open b = false -> ~ holds b q) ->
      settlement last0 busyL busyM stL D
  | settled_by_interval q n b u :
      i_delivered_seq D = Some q -> busyM !! n = Some b -> is_open b = false -> holds b q ->
      usage_of D b = Ok u -> answer stL = answer (settled_by b u D) ->
      settlement last0 busyL busyM stL D.

Record paired (k id : string) (n0 : nat) (last0 last : Z) (open seen : bool) (L M : native_session) : Prop := {
  pr_sid : ns_sid L = ns_sid M;
  pr_log : ns_event_log L = ns_event_log M;
  pr_lastL : ns_last_durable_seq L = last;
  pr_lastM : ns_last_durable_seq M = last;
  pr_busy : map unuse (ns_busy L) = map unuse (ns_busy M);
  pr_bracketed : bracketed 0 (spans (ns_busy M)) last;
  pr_open : existsb is_open (ns_busy M) = open;
  pr_le : last0 <= last;
  pr_free : free_until last0 (ns_busy M);
  pr_from : (n0 <= length (ns_event_log M))%nat;
  pr_states : exists l stL stM D,
    ns_invocations L = l ++ [(k, stL)] /\ ns_invocations M = l ++ [(k, stM)]
    /\ all_inert l /\ assoc k l = None /\ waiting n0 stM
    /\ replay (ns_sid M) (drop n0 (ns_event_log M)) (given id stM) = (D, Ok tt)
    /\ projected id last0 seen D
    /\ settlement last0 (ns_busy L) (ns_busy M) stL D
}.

Lemma answer_progressed p st : answer (progressed p st) = answer st.
Proof. by destruct p. Qed.
Lemma answer_settled b u st st' :
  answer st = answer st' -> answer (settled_by b u st) = answer (settled_by b u st').
Proof. unfold answer, settled_by. destruct st, st'. cbn. intros [=]. by subst. Qed.
Lemma usage_input b st st' : i_input_id st = i_input_id st' -> usage_of st b = usage_of st' b.
Proof. unfold _usage_for_interval. by intros ->. Qed.
Lemma usage_unuse b b' st : unuse b = unuse b' -> usage_of st b = usage_of st b'.
Proof.
  intros E. unfold _usage_for_interval.
  assert (b_compactions b = b_compactions b' /\ b_usage b = b_usage b' /\ b_delivered b = b_delivered b') as (-> & -> & Hd)
    by (destruct b, b'; unfold unuse in E; cbn in E; injection E as; by subst).
  generalize (b_usage b'). induction (b_compactions b') as [|c cs IH]; [done|]. intros u. cbn.
  assert (owns_compaction (i_input_id st) b c = owns_compaction (i_input_id st) b' c) as ->
    by (unfold owns_compaction; by rewrite Hd).
  destruct (owns_compaction _ _ _); [|done]. destruct (_accumulate_usage _ _ _) as [? []]; [done|done].
Qed.
Lemma settled_unuse b b' u st : unuse b = unuse b' -> settled_by b u st = settled_by b' u st.
Proof.
  intros E. unfold settled_by, take_interval.
  assert (b_outcome b = b_outcome b' /\ b_error b = b_error b' /\ b_result b = b_result b') as (-> & -> & ->)
    by (destruct b, b'; unfold unuse in E; cbn in E; injection E as; by subst). done.
Qed.
Lemma all_inert_progressed p l : all_inert l -> all_inert (all_progressed p l).
Proof. unfold all_progressed. induction 1 as [|[k st] l H _ IH]; constructor; [by destruct p|done]. Qed.
Lemma assoc_progressed p k l : assoc k l = None -> assoc k (all_progressed p l) = None.
Proof. induction l as [|[k' st] l IH]; [done|]. cbn. destruct (String.eqb k k'); [done|auto]. Qed.
Lemma waiting_inert n0 st : waiting n0 st -> inert st = true.
Proof. by intros (p & ->). Qed.

(** A lookup carried across runs that differ in [used] marks only. *)
Lemma lookup_unuse l l' n b : map unuse l = map unuse l' -> l !! n = Some b ->
  exists b', l' !! n = Some b' /\ unuse b' = unuse b.
Proof.
  intros E Hn. assert (map unuse l !! n = Some (unuse b)) as H by (by rewrite list_lookup_fmap, Hn).
  rewrite E, list_lookup_fmap in H. destruct (l' !! n) as [b'|]; [|done]. exists b'. split; [done|].
  by apply (inj Some) in H.
Qed.
Lemma holds_unuse b b' q : unuse b = unuse b' -> holds b q -> holds b' q.
Proof.
  intros E. unfold holds. assert (b_start b = b_start b' /\ b_end b = b_end b') as [-> ->]; [|done].
  destruct b, b'. unfold unuse in E. cbn in E. by injection E as; subst.
Qed.
Lemma open_by_unuse b b' : unuse b = unuse b' -> is_open b = is_open b'.
Proof. intros E. by rewrite <- (open_unuse b), E, open_unuse. Qed.

Lemma free_until_durable last0 kind data seq s :
  free_until last0 (ns_busy s) -> free_until last0 (fst (_apply_durable_event float_add dumps_default kind data seq s)).
Proof.
  intros F n b Hn Hb. destruct (durable_used _ _ _ _ _ _ _ _ Hn Hb) as (b0 & Hn0 & Hb0).
  destruct (F n b0 Hn0 Hb0) as [Ho Hq].
  assert (b0 = b) as ->; [|done].
  pose proof (durable_closed float_add dumps_default kind data seq s n b0 Hn0 Ho) as E. congruence.
Qed.

(** ** One frame *)

(** What the frame does to the intervals of both runs. *)
Record busy_step (last0 last' : Z) (open' : bool) (e : json) (L M : native_session) (busyL busyM : list interval) : Prop := {
  bs_L : forall r, durable_part e L = (fst (durable_part e L), r) -> durable_part e M = (busyM, r);
  bs_busyL : busyL = fst (durable_part e L);
  bs_same : map unuse busyL = map unuse busyM;
  bs_bracketed : bracketed 0 (spans busyM) last';
  bs_open : existsb is_open busyM = open';
  bs_last : last_after e M = last' /\ last_after e L = last';
  bs_le : last0 <= last';
  bs_seq : forall q, durable_seq e = Some q -> last0 < q;
  bs_freeM : free_until last0 busyM;
  bs_freeL : free_until last0 (ns_busy L) -> free_until last0 busyL;
  bs_closed : forall n b, ns_busy M !! n = Some b -> is_open b = false -> busyM !! n = Some b
}.

Lemma busy_step_plain k id n0 last0 last open seen L M e :
  paired k id n0 last0 last open seen L M -> (forall d, member "durable" e <> JObj d) ->
  busy_step last0 last open e L M (ns_busy L) (ns_busy M).
Proof.
  intros P Hd. assert (durable_seq e = None) as Hs.
  { unfold durable_seq. destruct (member "durable" e); try done. by exfalso; eapply Hd. }
  assert (forall s, durable_part e s = (ns_busy s, Ok tt)) as Hp.
  { intros s. unfold durable_part. destruct (member "durable" e); try done. by exfalso; eapply Hd. }
  constructor; rewrite ?Hp; try apply P; try done.
  - by intros r [= <-].
  - unfold last_after. rewrite Hs. split; apply P.
  - intros q. by rewrite Hs.
Qed.

Lemma busy_step_durable k id n0 last0 last open seen L M e d j z :
  paired k id n0 last0 last open seen L M ->
  member "durable" e = JObj d -> assoc "seq" d = Some j -> py_int j = Some z -> last < z ->
  starts_execution (member "type" e) && open = false ->
  exists busyM, busy_step last0 z (opens (member "type" e) open) e L M (fst (durable_part e L)) busyM.
Proof.
  intros P Hd Hj Hz Hlt Hst. exists (fst (durable_part e M)).
  assert (durable_seq e = Some z) as Hs by (unfold durable_seq; rewrite Hd; cbn; unfold get; by rewrite Hj).
  assert (forall s, durable_part e s = _apply_durable_event float_add dumps_default (member "type" e) (event_data e) j s) as Hp.
  { intros s. unfold durable_part. by rewrite Hd, Hj. }
  destruct (durable_blind float_add dumps_default (member "type" e) (event_data e) j L M (pr_sid _ _ _ _ _ _ _ _ _ P)
    (pr_busy _ _ _ _ _ _ _ _ _ P)) as [Hr Hb].
  destruct (durable_bracketed float_add dumps_default (member "type" e) (event_data e) j z M last) as [Hbr Ho];
    [apply P|done|done| |].
  { intros H. rewrite H in Hst. rewrite (pr_open _ _ _ _ _ _ _ _ _ P). by destruct open. }
  pose proof (pr_le _ _ _ _ _ _ _ _ _ P) as Hle.
  constructor; rewrite ?Hp; try done.
  - intros r E. rewrite (surjective_pairing (_apply_durable_event _ _ _ _ _ M)). f_equal. rewrite <- Hr, E. done.
  - by rewrite Ho, (pr_open _ _ _ _ _ _ _ _ _ P).
  - unfold last_after. by rewrite Hs.
  - lia.
  - intros q. rewrite Hs. intros [= <-]. lia.
  - apply free_until_durable, P.
  - apply free_until_durable.
  - intros n b. apply durable_closed.
Qed.

(** The projection after an accepted frame. *)
Lemma projected_frame id last0 seen sid p e D :
  projected id last0 seen D -> is_dict (event_data e) = true -> delivers sid id e && seen = false ->
  (forall q, durable_seq e = Some q -> last0 < q) ->
  exists D', _apply_event sid (progressed p D) e = Ok D' /\ projected id last0 (seen || delivers sid id e) D'
    /\ (seen = true -> answer D' = answer D).
Proof.
  intros [Hans Hseq] Hdata Hdel Hq.
  assert (i_input_id D = Some id /\ i_outcome D = EoRunning) as (Hi & Ho)
    by (unfold answer in Hans; injection Hans as; done).
  destruct (apply_open sid (progressed p D) id e Hdata) as (D' & HD' & _ & HaD'); [by destruct p|by destruct p|].
  exists D'. split; [done|]. rewrite <- (answer_progressed p D) in Hans. unfold projected.
  destruct (delivers sid id e) eqn:Ed.
  - assert (seen = false) as -> by (by destruct seen). cbn [orb]. rewrite HaD'.
    assert (i_delivered_seq (progressed p D) = None) as Hnone.
    { replace (i_delivered_seq (progressed p D)) with (i_delivered_seq D) by (by destruct p).
      destruct (i_delivered_seq D) as [q|]; [|done]. by destruct (Hseq q eq_refl). }
    assert (i_delivered_seq D' = durable_seq e) as Eq.
    { unfold answer in HaD'. injection HaD' as. rewrite Hnone in *. by destruct (durable_seq e). }
    rewrite Eq, Hnone. split; [|done]. split; [|intros q H; split; [by apply Hq|done]].
    unfold answer in Hans |- *. cbn. injection Hans as. rewrite Hnone in *. destruct (durable_seq e); congruence.
  - rewrite orb_false_r, HaD', answer_progressed.
    assert (i_delivered_seq D' = i_delivered_seq D) as ->.
    { rewrite answer_progressed in HaD'. unfold answer in HaD'. by injection HaD' as. }
    rewrite answer_progressed in Hans. done.
Qed.

(** What the resolution does to an invocation that is still open in the run that knows its input. *)
Lemma settle_open id last0 last seen busyL busyM D :
  free_until last0 busyL -> map unuse busyL = map unuse busyM -> bracketed 0 (spans busyM) last ->
  projected id last0 seen D ->
  match resolvable D with
  | None => settlement last0 busyL busyM D D
  | Some q => forall busy st, resolve_state float_add float_cmp q D busyL = (busy, st, Ok tt) ->
                map unuse busy = map unuse busyM /\ settlement last0 busy busyM st D
  end.
Proof.
  intros Hf Hb Hbr [Hans Hseq].
  assert (i_settled D = false /\ i_delivered D = seen) as [Hs Hd] by (unfold answer in Hans; injection Hans as; done).
  unfold resolvable. rewrite Hs, Hd, orb_false_r. destruct (i_delivered_seq D) as [q|] eqn:Eq.
  2: { destruct (negb seen); apply still_open; try done; intros q n b; congruence. }
  destruct (Hseq q eq_refl) as [Hq ->]. cbn [negb]. intros busy st Hr.
  assert (spans busyL = spans busyM) as Hsp by by rewrite <- (spans_unuse busyL), Hb, spans_unuse.
  rewrite <- Hsp in Hbr.
  destruct (resolve_state_cases _ _ _ _ _ _ _ _ Hr) as [(-> & -> & Hno)|(n & b & Hn & Ho & Hu & Hc & -> & Hres)].
  - split; [done|]. apply still_open; [done..|]. intros q' n b [= <-]%(eq_trans (eq_sym Eq)) Hn Ho Hh.
    symmetry in Hb. destruct (lookup_unuse _ _ _ _ Hb Hn) as (bL & HnL & Eu). symmetry in Eu.
    rewrite (open_by_unuse _ _ Eu) in Ho. apply (holds_unuse _ _ _ Eu) in Hh.
    destruct (b_used bL) eqn:EuL; [destruct (Hf n bL HnL EuL) as [_ Hle]; specialize (Hle q Hh); lia|].
    destruct (bracketed_contains float_cmp 0 busyL last n bL q Hbr HnL Ho) as (c & Hc & Hi).
    rewrite (Hno eq_refl n bL HnL Ho EuL) in Hc. injection Hc as <-. by apply Hi in Hh.
  - split.
    { rewrite list_fmap_insert, unuse_used, <- Hb. apply list_insert_id. by rewrite list_lookup_fmap, Hn. }
    destruct (lookup_unuse _ _ _ _ Hb Hn) as (bM & HnM & Eu). symmetry in Eu.
    destruct (usage_of (take_interval b D) b) as [u|] eqn:Eus; [|by destruct Hres]. destruct Hres as [-> _].
    rewrite (usage_input b _ D) in Eus by done.
    eapply (settled_by_interval _ _ _ _ _ q n bM u); [done..| | | |].
    + by rewrite <- (open_by_unuse _ _ Eu).
    + apply (holds_unuse _ _ _ Eu).
      destruct (bracketed_contains float_cmp 0 busyL last n b q Hbr Hn Ho) as (c & Hc' & Hi). apply Hi. congruence.
    + by rewrite <- (usage_unuse _ _ _ Eu).
    + by rewrite (settled_unuse _ _ _ _ Eu).
Qed.

Lemma paired_accepted k id n0 last0 last last' open open' seen now e L M L' busyM :
  paired k id n0 last0 last open seen L M ->
  is_dict e = true -> accepted_at (ns_sid M) last e = true ->
  is_dict (event_data e) = true -> delivers (ns_sid M) id e && seen = false ->
  busy_step last0 last' open' e L M (fst (durable_part e L)) busyM ->
  dispatch now e L = (L', Ok tt) ->
  exists M', dispatch now e M = (M', Ok tt)
    /\ paired k id n0 last0 last' open' (seen || delivers (ns_sid M) id e) L' M'.
Proof.
  intros P He Ha Hdata Hdel B. pose proof P as [Hsid Hlog HlL HlM _ _ _ _ _ Hn0 (l & stL & stM & D & HL & HM & Hin & Hk & Hw & Hrep & [Hans Hseq] & Hset)].
  assert (accepted e L = true) as HaL by (unfold accepted; rewrite Hsid, HlL; done).
  assert (accepted e M = true) as HaM by (unfold accepted; rewrite HlM; done).
  rewrite (dispatch_accepted now e L) by done. rewrite (dispatch_accepted now e M) by done.
  destruct (durable_part e L) as [busyL rL] eqn:EdL.
  destruct rL as [[]|x]; [|done].
  assert (durable_part e M = (busyM, Ok tt)) as EdM by (apply B; by rewrite EdL).
  rewrite EdM. cbn [fst] in B.
  rewrite Hsid, HL, HM. set (p := progress_at (ns_sid M) now e).
  assert (forall st, all_progressed p (l ++ [(k, st)]) = all_progressed p l ++ [(k, progressed p st)]) as Hap.
  { intros st. unfold all_progressed. by rewrite map_app. }
  rewrite !Hap. set (l' := all_progressed p l).
  assert (all_inert l') as Hin' by by apply all_inert_progressed.
  assert (assoc k l' = None) as Hk' by by apply assoc_progressed.
  assert (waiting n0 (progressed p stM)) as Hw'.
  { destruct Hw as (t & ->). unfold waiting. destruct p as [u|]; cbn; eauto. }
  assert (all_inert (l' ++ [(k, progressed p stM)])) as HinM.
  { apply Forall_app. split; [done|]. constructor; [by eapply waiting_inert|constructor]. }
  rewrite (apply_all_inert _ _ _ HinM), (resolve_inert _ _ HinM).
  destruct (projected_frame id last0 seen (ns_sid M) p e D (conj Hans Hseq) Hdata Hdel (bs_seq _ _ _ _ _ _ _ _ B))
    as (D' & HD' & Hproj & Hkeep).
  assert (i_input_id D = Some id /\ i_settled D = false) as (Hi & Hs) by (unfold answer in Hans; injection Hans as; done).
  assert (replay (ns_sid M) (drop n0 (ns_event_log M ++ [(e, true)])) (given id (progressed p stM)) = (D', Ok tt)) as Hrep'.
  { rewrite drop_app_le by done. rewrite replay_app.
    replace (given id (progressed p stM)) with (progressed p (given id stM)) by (by destruct p, stM).
    rewrite replay_progress, Hrep. cbn [replay negb]. by rewrite HD'. }
  assert (forall stL' busyL', map unuse busyL' = map unuse busyM -> settlement last0 busyL' busyM stL' D' ->
    paired k id n0 last0 last' open' (seen || delivers (ns_sid M) id e)
      (after e true last' busyL' (l' ++ [(k, stL')]) L)
      (after e true last' busyM (l' ++ [(k, progressed p stM)]) M)) as Hfin.
  { intros stL' busyL' Hb Hst. constructor; cbn; try done; try apply B; [by rewrite Hlog|rewrite length_app; lia|].
    by exists l', stL', (progressed p stM), D'. }
  destruct (bs_last _ _ _ _ _ _ _ _ B) as [-> ->]. intros HL'.
  eexists. split; [done|]. destruct Hset as [-> HfL Hno|q n b u Hq Hn Hob Hh Hu HaL'].
  - rewrite apply_all_last in HL' by (done || (destruct p; cbn; rewrite ?Hi; eauto)). rewrite HD' in HL'.
    rewrite resolve_last in HL' by done.
    pose proof (settle_open id last0 last' _ busyL busyM D' (bs_freeL _ _ _ _ _ _ _ _ B HfL)
      (bs_same _ _ _ _ _ _ _ _ B) (bs_bracketed _ _ _ _ _ _ _ _ B) Hproj) as Hop.
    destruct (resolvable D') as [q|].
    + destruct (resolve_state _ _ q D' busyL) as [[busy st] [[]|]] eqn:Er; [|done]. injection HL' as <-.
      destruct (Hop busy st eq_refl) as [??]. by apply Hfin.
    + injection HL' as <-. apply Hfin; [apply B|done].
  - assert (inert (progressed p stL) = true) as HsL.
    { unfold inert. replace (i_settled (progressed p stL)) with (i_settled stL) by (by destruct p).
      assert (i_settled stL = true) as -> by exact (f_equal snd HaL'). done. }
    assert (all_inert (l' ++ [(k, progressed p stL)])) as HinL.
    { apply Forall_app. split; [done|]. constructor; [done|constructor]. }
    rewrite (apply_all_inert _ _ _ HinL), (resolve_inert _ _ HinL) in HL'. injection HL' as <-.
    destruct (Hseq q Hq) as [_ Hseen]. specialize (Hkeep Hseen).
    assert (i_delivered_seq D' = i_delivered_seq D /\ i_input_id D' = i_input_id D) as [Hq' Hi']
      by (unfold answer in Hkeep; by injection Hkeep as).
    apply Hfin; [apply B|]. apply (settled_by_interval _ _ _ _ _ q n b u); [by rewrite Hq'|by apply B|done..| |].
    + by rewrite (usage_input b D' D).
    + rewrite answer_progressed, HaL'. by apply answer_settled.
Qed.

Lemma dispatch_sid now e s : ns_sid (fst (dispatch now e s)) = ns_sid s.
Proof.
  destruct (is_dict e) eqn:He; [|by destruct e].
  destruct (accepted e s) eqn:Ha; [|by rewrite dispatch_rejected].
  rewrite dispatch_accepted by done. destruct (durable_part e s) as [busy [u|x]]; [|done].
  destruct (apply_all _ _ _) as [states [u'|x]]; [|done]. by destruct (resolve_states states busy) as [[??] ?].
Qed.
Lemma dispatch_dict now e s L : dispatch now e s = (L, Ok tt) -> is_dict e = true.
Proof. by destruct e. Qed.

Lemma paired_rejected k id n0 last0 last open seen now e L M L' :
  paired k id n0 last0 last open seen L M -> accepted_at (ns_sid M) last e = false ->
  dispatch now e L = (L', Ok tt) ->
  exists M', dispatch now e M = (M', Ok tt) /\ paired k id n0 last0 last open seen L' M'.
Proof.
  intros P Ha HL'. pose proof (dispatch_dict _ _ _ _ HL') as He. destruct P as [Hsid Hlog HlL HlM].
  rewrite dispatch_rejected in HL' by (done || unfold accepted; rewrite Hsid, HlL; done). injection HL' as <-.
  rewrite dispatch_rejected by (done || unfold accepted; rewrite HlM; done).
  eexists. split; [done|]. constructor; cbn; try done; [by rewrite Hlog|rewrite length_app; lia|].
  destruct pr_states0 as (l & stL & stM & D & HL & HM & Hin & Hk & Hw & Hrep & Hproj & Hset).
  exists l, stL, stM, D. split_and!; try done. rewrite drop_app_le by done. rewrite replay_app, Hrep. done.
Qed.

Lemma paired_all k id n0 last0 frames last open seen L M L' :
  paired k id n0 last0 last open seen L M -> orderly (ns_sid M) id last open seen frames = true ->
  dispatch_all frames L = (L', Ok tt) ->
  exists M' last' open' seen', dispatch_all frames M = (M', Ok tt) /\ ns_sid M' = ns_sid M
    /\ paired k id n0 last0 last' open' seen' L' M'.
Proof.
  revert last open seen L M. induction frames as [|[now e] frames IH]; cbn [orderly dispatch_all].
  { intros last open seen L M P _ [= <-]. by exists M, last, open, seen. }
  intros last open seen L M P Ho HL'.
  destruct (dispatch now e L) as [L1 [[]|]] eqn:E1; [|done].
  assert (forall last1 open1 seen1 M1, dispatch now e M = (M1, Ok tt) -> paired k id n0 last0 last1 open1 seen1 L1 M1 ->
    orderly (ns_sid M) id last1 open1 seen1 frames = true ->
    exists M' last' open' seen', dispatch_all ((now, e) :: frames) M = (M', Ok tt) /\ ns_sid M' = ns_sid M
      /\ paired k id n0 last0 last' open' seen' L' M') as Hrec.
  { intros last1 open1 seen1 M1 EM P1 Ho1. pose proof (dispatch_sid now e M) as Hs. rewrite EM in Hs. cbn in Hs.
    rewrite <- Hs in Ho1 |- *. cbn [dispatch_all]. rewrite EM. by eapply IH. }
  cbn [dispatch_all] in Hrec.
  destruct (accepted_at (ns_sid M) last e) eqn:Ha; cbn [negb] in Ho.
  2: { destruct (paired_rejected _ _ _ _ _ _ _ now e _ _ L1 P Ha E1) as (M1 & EM & P1). by eapply Hrec. }
  apply andb_true_iff in Ho as [[Hdata Hdel%negb_true_iff]%andb_true_iff Ho].
  pose proof (dispatch_dict _ _ _ _ E1) as He.
  destruct (member "durable" e) as [| | | | | |d] eqn:Ed.
  7: { destruct (assoc "seq" d) as [j|] eqn:Ej; [|done]. destruct (py_int j) as [z|] eqn:Ez; [|done].
    apply andb_true_iff in Ho as [Hst%negb_true_iff Ho].
    assert (last < z) as Hlt.
    { unfold accepted_at, durable_seq in Ha. rewrite Ed in Ha. cbn in Ha. unfold get in Ha. rewrite Ej in Ha. cbn in Ha.
      rewrite Ez in Ha. apply andb_true_iff in Ha as [_ ?%Z.ltb_lt]. done. }
    destruct (busy_step_durable _ _ _ _ _ _ _ _ _ _ _ _ _ P Ed Ej Ez Hlt Hst) as (busyM & B).
    destruct (paired_accepted _ _ _ _ _ _ _ _ _ now _ _ _ L1 _ P He Ha Hdata Hdel B E1) as (M1 & EM & P1).
    by eapply Hrec. }
  all: assert (forall d, member "durable" e <> JObj d) as Hd by (intros ?; congruence).
  all: pose proof (busy_step_plain _ _ _ _ _ _ _ _ _ _ P Hd) as B.
  all: assert (fst (durable_part e L) = ns_busy L) as Hb by (unfold durable_part; by rewrite Ed).
  all: rewrite <- Hb in B.
  all: destruct (paired_accepted _ _ _ _ _ _ _ _ _ now _ _ _ L1 _ P He Ha Hdata Hdel B E1) as (M1 & EM & P1).
  all: by eapply Hrec.
Qed.

(** ** The receipt *)

(** A session between invocations. *)
Record idle_session (s : native_session) : Prop := {
  is_bracketed : bracketed 0 (spans (ns_busy s)) (ns_last_durable_seq s);
  is_used : forall n b, ns_busy s !! n = Some b -> b_used b = true -> is_open b = false;
  is_inert : all_inert (ns_invocations s)
}.
Lemma idle_free s : idle_session s -> free_until (ns_last_durable_seq s) (ns_busy s).
Proof.
  intros [Hb Hu _] n b Hn Hub. split; [by eapply Hu|]. intros q (a & z & Ha & Hz & ?).
  destruct (bracketed_bounds _ _ _ _ _ _ _ Hb Hn Ha Hz). lia.
Qed.

(** The receipt of a waiting invocation: what the log holds of it, then settlement. *)
Lemma receipt_given k id prompt status body n0 p l s D :
  receipt_ok (ns_sid s) prompt status body = Some id ->
  ns_invocations s = l ++ [(k, new_istate n0 p)] -> assoc k l = None -> all_inert l ->
  replay (ns_sid s) (drop n0 (ns_event_log s)) (given id (new_istate n0 p)) = (D, Ok tt) ->
  prompt_sent k prompt (inl (status, body)) s =
    match resolvable D with
    | None => (put_states (l ++ [(k, D)]) s, Ok {| er_native_session_id := ns_sid s; er_input_id := id |})
    | Some seq =>
        let '(busy, st, r) := resolve_state float_add float_cmp seq D (ns_busy s) in
        (put_busy busy (put_states (l ++ [(k, st)]) s),
         _ ← r; Ok {| er_native_session_id := ns_sid s; er_input_id := id |})
    end.
Proof.
  intros Hr Hs Hk Hl Hrep. unfold Opencode.prompt_sent. rewrite Hr. cbv zeta. unfold upd_state.
  rewrite Hs, assoc_last by done. cbn [i_outcome new_istate set_i_input]. rewrite put_last by done.
  change (set_i_outcome EoRunning (set_i_input id (new_istate n0 p))) with (given id (new_istate n0 p)).
  unfold reconcile_from_baseline. cbn [put_states ns_invocations ns_event_log ns_sid]. rewrite assoc_last by done.
  cbn [given i_settled set_i_outcome set_i_input new_istate andb i_baseline].
  change (set_i_outcome EoRunning (set_i_input id (new_istate n0 p))) with (given id (new_istate n0 p)).
  rewrite Hrep, put_last by done. unfold _resolve_pending. cbn [put_states ns_invocations ns_busy].
  rewrite resolve_last by done.
  destruct (resolvable D) as [seq|]; [|by destruct s].
  by destruct (resolve_state _ _ seq D (ns_busy s)) as [[busy st] [[]|]].
Qed.

Lemma paired_initial k id prompt status body now0 s L r :
  idle_session s -> assoc k (ns_invocations s) = None ->
  receipt_ok (ns_sid s) prompt status body = Some id ->
  prompt_sent k prompt (inl (status, body)) (register k now0 s) = (L, r) ->
  paired k id (length (ns_event_log s)) (ns_last_durable_seq s) (ns_last_durable_seq s)
    (existsb is_open (ns_busy s)) false L (register k now0 s).
Proof.
  intros I Hk Hr. pose proof (idle_free s I) as Hf. destruct I as [Hb Hu Hin].
  set (n0 := length (ns_event_log s)).
  assert (ns_invocations (register k now0 s) = ns_invocations s ++ [(k, new_istate n0 now0)]) as Hs
    by (unfold register; cbn [put_states ns_invocations]; by rewrite put_new).
  assert (drop n0 (ns_event_log (register k now0 s)) = []) as Hd by (apply drop_ge; done).
  assert (replay (ns_sid (register k now0 s)) (drop n0 (ns_event_log (register k now0 s)))
            (given id (new_istate n0 now0)) = (given id (new_istate n0 now0), Ok tt)) as Hrep by by rewrite Hd.
  rewrite (receipt_given k id prompt status body n0 now0 _ (register k now0 s) _ Hr Hs Hk Hin Hrep).
  cbn [resolvable given i_delivered set_i_outcome set_i_input new_istate negb orb].
  intros [= <- _]. constructor; try done; [lia..|].
  exists (ns_invocations s), (given id (new_istate n0 now0)), (new_istate n0 now0), (given id (new_istate n0 now0)).
  split_and!; try done; [by exists now0|by apply still_open].
Qed.

Lemma paired_receipt k id n0 last0 last open seen L M prompt status body :
  paired k id n0 last0 last open seen L M -> receipt_ok (ns_sid M) prompt status body = Some id ->
  exists M' stL stM, prompt_sent k prompt (inl (status, body)) M
      = (M', Ok {| er_native_session_id := ns_sid M; er_input_id := id |})
    /\ assoc k (ns_invocations L) = Some stL /\ assoc k (ns_invocations M') = Some stM /\ answer stM = answer stL.
Proof.
  intros [_ _ _ _ _ Hbr _ _ Hf _ (l & stL & stM & D & HL & HM & Hin & Hk & (p & ->) & Hrep & [Hans Hseq] & Hset)] Hr.
  rewrite (receipt_given k id prompt status body n0 p l M D Hr HM Hk Hin Hrep), HL.
  assert (i_settled D = false /\ i_delivered D = seen) as [Hs Hd] by (unfold answer in Hans; injection Hans as; done).
  assert (resolvable D = if seen then i_delivered_seq D else None) as ->
    by (unfold resolvable; rewrite Hs, Hd, orb_false_r; by destruct seen).
  destruct Hset as [-> HfL Hno|q n b u Hq Hn Ho Hh Hu Ha].
  - destruct (if seen then i_delivered_seq D else None) as [q|] eqn:Eq.
    + assert (i_delivered_seq D = Some q) as Hq by by destruct seen.
      rewrite (resolve_idle _ _ 0 _ last q D Hbr) by (intros n b Hn Ho _; by eapply Hno).
      eexists _, D, D. split; [done|]. split_and!; [by apply assoc_last..|done].
    + eexists _, D, D. split; [done|]. split_and!; [by apply assoc_last..|done].
  - destruct (Hseq q Hq) as [Hlt ->]. rewrite Hq.
    assert (b_used b = false) as Hub.
    { destruct (b_used b) eqn:E; [|done]. destruct (Hf n b Hn E) as [_ Hle]. specialize (Hle q Hh). lia. }
    rewrite (resolve_bracketed _ _ 0 _ last q D n b Hbr Hn Ho Hub Hh), (usage_input b _ D), Hu by done.
    eexists _, stL, (settled_by b u D). split; [done|]. split_and!; [by apply assoc_last..|done].
Qed.

(** C20. The native events of an input may arrive before the HTTP response that names it, and
    the two are handled by different tasks.  Whatever orderly frames arrive in between, the
    receipt replays the log from the invocation's baseline and gives exactly the answer the
    invocation would have had if the receipt had been known before the first of them:
    delivery, outcome, error, result, usage and settlement. *)
Theorem receipt_race k id prompt status body now0 frames s L :
  idle_session s -> assoc k (ns_invocations s) = None ->
  receipt_ok (ns_sid s) prompt status body = Some id ->
  orderly (ns_sid s) id (ns_last_durable_seq s) (existsb is_open (ns_busy s)) false frames = true ->
  dispatch_all frames (fst (prompt_sent k prompt (inl (status, body)) (register k now0 s))) = (L, Ok tt) ->
  exists M M' stL stM,
    dispatch_all frames (register k now0 s) = (M, Ok tt)
    /\ prompt_sent k prompt (inl (status, body)) M
       = (M', Ok {| er_native_session_id := ns_sid s; er_input_id := id |})
    /\ assoc k (ns_invocations L) = Some stL /\ assoc k (ns_invocations M') = Some stM
    /\ answer stM = answer stL.
Proof.
  intros I Hk Hr Ho HL. destruct (prompt_sent _ _ _ (register k now0 s)) as [L0 r] eqn:E0. cbn [fst] in HL.
  pose proof (paired_initial _ _ _ _ _ _ _ _ _ I Hk Hr E0) as P.
  destruct (paired_all _ _ _ _ frames _ _ _ _ _ _ P Ho HL) as (M & last' & open' & seen' & HM & Hsid & P').
  change (ns_sid (register k now0 s)) with (ns_sid s) in Hsid. rewrite <- Hsid in Hr.
  destruct (paired_receipt _ _ _ _ _ _ _ _ _ prompt status body P' Hr) as (M' & stL & stM & Hp & ? & ? & ?).
  exists M, M', stL, stM. rewrite <- Hsid. by split_and!.
Qed.
End race.
