(* ===== verification/OpencodeProps.v ===== *)
(** * engine/opencode.py: one interval settles one invocation, and the sample session

    [resolve_assigns] says what a resolution pass assigns; [stream_lost_before_receipt] is what
    the end of the event stream leaves behind; the sample session runs the theorems. *)

From stdpp Require Import fin_sets gmap.
From Stdlib Require Import Ascii.
From S2P Require Import Prelude Sha256 PyJson Config Public StateRefs Effects Storage Wire Tokens Sessions Execution Opencode OpencodeEngine OpencodeFacts OpencodeRace.
Local Open Scope string_scope.
Local Open Scope list_scope.
Local Open Scope Z_scope.

Section assignment.
Context (float_add : json -> json -> json) (float_cmp : pyfloat -> Z -> option comparison).
Abbreviation resolve_states := (resolve_states float_add float_cmp).
Abbreviation usage_of := (_usage_for_interval float_add).
Abbreviation contains := (contains float_cmp).

(** The intervals at the given places, marked. *)
Fixpoint mark (ns : list nat) (busy : list interval) : list interval :=
  match ns with [] => busy | n :: ns => alter set_used n (mark ns busy) end.
(** Invocation [st] is settled by interval [n] of [busy]. *)
Definition served (busy : list interval) (n : nat) (st st' : istate) : Prop :=
  exists b u seq, busy !! n = Some b /\ is_open b = false /\ b_used b = false
    /\ resolvable st = Some seq /\ contains b seq = Ok true
    /\ usage_of st b = Ok u /\ st' = settled_by b u st.

Lemma mark_lookup ns busy n b : n ∉ ns -> mark ns busy !! n = Some b -> busy !! n = Some b.
Proof.
  intros Hn. induction ns as [|m ns IH]; [done|]. cbn. apply not_elem_of_cons in Hn as [Hne Hn].
  rewrite list_lookup_alter_ne by done. by apply IH.
Qed.
Lemma mark_alter n ns busy : mark ns (alter set_used n busy) = alter set_used n (mark ns busy).
Proof.
  induction ns as [|m ns IH]; [done|]. cbn. rewrite IH. destruct (decide (m = n)) as [->|Hne]; [done|].
  apply list_eq. intros i. rewrite !list_lookup_alter. repeat case_decide; by subst.
Qed.
Lemma served_before n busy m st st' :
  served (alter set_used n busy) m st st' -> m <> n /\ served busy m st st'.
Proof.
  intros (b & u & seq & Hb & Ho & Hu & H).
  assert (m <> n) as Hne.
  { intros ->. rewrite list_lookup_alter, decide_True in Hb by done. destruct (busy !! n); [|done].
    injection Hb as <-. by cbn in Hu. }
  rewrite list_lookup_alter_ne in Hb by done. split; [done|]. by exists b, u, seq.
Qed.

(** One native execution settles at most one invocation.  A pass of the resolution gives
    each newly settled invocation an interval of its own: closed, used by no invocation before,
    holding the sequence number of its delivery; the invocation takes outcome, error, result
    and usage from it, the interval becomes used, and every other invocation and interval is
    left as it was. *)
Theorem resolve_assigns states busy states' busy' :
  resolve_states states busy = (states', busy', Ok tt) ->
  exists f : list (option nat),
    NoDup (omap id f) /\ busy' = mark (omap id f) busy
    /\ Forall (fun n => exists st st', served busy n st st') (omap id f)
    /\ Forall3 (fun ks o ks' => fst ks' = fst ks /\
         match o with None => snd ks' = snd ks | Some n => served busy n (snd ks) (snd ks') end) states f states'.
Proof.
  revert busy states' busy'. induction states as [|[k st] states IH]; cbn [Opencode.resolve_states].
  { intros busy states' busy' [= <- <-]. exists []. cbn. split_and!; by constructor. }
  intros busy states' busy'.
  assert (forall busy1 st1, (let '(s, b, r) := resolve_states states busy1 in ((k, st1) :: s, b, r)) = (states', busy', Ok tt) ->
    exists s, states' = (k, st1) :: s /\ resolve_states states busy1 = (s, busy', Ok tt)) as Hrest.
  { intros busy1 st1. destruct (resolve_states states busy1) as [[s b] r]. intros [= <- <- ->]. by exists s. }
  assert (forall s, resolve_states states busy = (s, busy', Ok tt) -> states' = (k, st) :: s ->
    exists f : list (option nat), NoDup (omap id f) /\ busy' = mark (omap id f) busy
      /\ Forall (fun n => exists st st', served busy n st st') (omap id f)
      /\ Forall3 (fun ks o ks' => fst ks' = fst ks /\
           match o with None => snd ks' = snd ks | Some n => served busy n (snd ks) (snd ks') end)
           ((k, st) :: states) f states') as Hskip.
  { intros s Hs ->. destruct (IH _ _ _ Hs) as (f & ? & ? & ? & ?). exists (None :: f). by split_and!; [..|constructor]. }
  destruct (resolvable st) as [seq|] eqn:Eseq.
  2: { intros H. destruct (Hrest _ _ H) as (s & -> & Hs). by eapply Hskip. }
  destruct (resolve_state _ _ seq st busy) as [[busy1 st1] r] eqn:E. destruct r as [[]|]; [|done].
  intros H. destruct (Hrest _ _ H) as (s & -> & Hs).
  destruct (resolve_state_cases _ _ _ _ _ _ _ _ E) as [(-> & -> & _)|(n & b & Hn & Ho & Hu & Hc & -> & Hr)];
    [by eapply Hskip|].
  destruct (usage_of (take_interval b st) b) as [u|] eqn:Eu; [|by destruct Hr]. destruct Hr as [-> _].
  assert (served busy n st (settled_by b u st)) as Hserved.
  { exists b, u, seq. by split_and!. }
  assert (<[n:=set_used b]> busy = alter set_used n busy) as Ealt.
  { apply list_eq. intros i. rewrite list_lookup_alter. case_decide as Hi; [subst|by rewrite list_lookup_insert_ne].
    rewrite Hn. cbn. apply list_lookup_insert_eq. by eapply lookup_lt_Some. }
  rewrite Ealt in Hs. destruct (IH _ _ _ Hs) as (f & Hnd & -> & Hf & H3).
  exists (Some n :: f). cbn [omap list_omap id].
  assert (n ∉ omap id f) as Hnf.
  { intros Hin. rewrite Forall_forall in Hf. destruct (Hf n Hin) as (? & ? & Hs').
    by destruct (served_before _ _ _ _ _ Hs'). }
  split_and!.
  - by constructor.
  - cbn. apply mark_alter.
  - constructor; [by eauto|]. eapply Forall_impl; [exact Hf|]. cbn. intros m (x & y & Hs').
    exists x, y. by apply (served_before n).
  - constructor; [done|]. eapply Forall3_impl; [exact H3|]. intros [? ?] [m|] [? ?]; [|done]. cbn.
    intros [? Hs']. split; [done|]. by apply (served_before n).
Qed.
End assignment.

(** ** The stream may end before the receipt *)

Section lost.
Context (float_add : json -> json -> json) (float_cmp : pyfloat -> Z -> option comparison).

(** An invocation whose event stream ended before its receipt is registered, but has no input
    id, and the end of the stream passes it by: the receipt then reports it running, with no
    task left that could settle it or mark its observation lost. *)
Lemma stream_lost_before_receipt k id prompt status body now0 s :
  idle_session s -> assoc k (ns_invocations s) = None ->
  receipt_ok (ns_sid s) prompt status body = Some id ->
  exists M st,
    prompt_sent float_add float_cmp k prompt (inl (status, body)) (stream_ended (register k now0 s))
    = (M, Ok {| er_native_session_id := ns_sid s; er_input_id := id |})
    /\ assoc k (ns_invocations M) = Some st
    /\ i_outcome st = EoRunning /\ i_settled st = false /\ i_observation_lost st = false.
Proof.
  intros [_ _ Hin] Hk Hr. set (n0 := length (ns_event_log s)).
  assert (ns_invocations (stream_ended (register k now0 s)) = ns_invocations s ++ [(k, new_istate n0 now0)]) as Hs.
  { unfold stream_ended, register. cbn [put_states ns_invocations]. rewrite put_new by done. rewrite map_app.
    cbn [map fst snd i_input_id new_istate]. f_equal. clear -Hin.
    induction Hin as [|[k st] l H _ IH]; [done|]. cbn [map fst snd]. rewrite IH. do 2 f_equal.
    unfold inert in H. cbn in H. by destruct (i_settled st), (i_input_id st). }
  eexists _, (given id (new_istate n0 now0)). split.
  - erewrite (receipt_given _ _ k id prompt status body n0 now0 _ (stream_ended (register k now0 s))
      (given id (new_istate n0 now0)) Hr Hs Hk Hin); [done|].
    cbn [stream_ended register put_states ns_event_log ns_sid]. by rewrite drop_ge.
  - split_and!; try done. cbn [put_states ns_invocations]. by apply assoc_last.
Qed.
End lost.

(** ** A sample session *)

Definition no_float_add (a _ : json) : json := a.
Definition no_float_cmp (_ : pyfloat) (_ : Z) : option comparison := None.
Definition no_dumps (_ : json) : string := "".
Definition sample_session : native_session := mkNs (Some "ses_1") [] [] [] 0 true false.
Definition frame (kind : string) (seq : Z) (data : list (string * json)) : Z * json :=
  (seq, JObj [("type", JStr kind);
              ("durable", JObj [("aggregateID", JStr "ses_1"); ("seq", JInt seq)]);
              ("data", JObj (("sessionID", JStr "ses_1") :: data))]).
Definition sample_frames : list (Z * json) :=
  [ frame "session.execution.started" 1 [];
    frame "session.inbox.delivered" 2 [("inboxID", JStr "in-1")];
    frame "session.step.started" 3 [("assistantMessageID", JStr "msg-1")];
    frame "session.text.ended" 4 [("assistantMessageID", JStr "msg-1"); ("ordinal", JInt 0); ("text", JStr "done")];
    frame "session.step.ended" 5 [("assistantMessageID", JStr "msg-1"); ("tokens", JObj [("input", JInt 7)])];
    frame "session.execution.succeeded" 5 [];
    frame "session.execution.succeeded" 6 [] ].
Definition sample_receipt : json :=
  JObj [("data", JObj [("sessionID", JStr "ses_1"); ("delivery", JStr "queue"); ("type", JStr "user");
                       ("id", JStr "in-1"); ("payload", JObj [("text", JStr "review")])])].
Definition receipt_first : native_session :=
  fst (dispatch_all no_float_add no_float_cmp no_dumps sample_frames
        (fst (prompt_sent no_float_add no_float_cmp "inv-1" "review" (inl (200, sample_receipt))
                (register "inv-1" 0 sample_session)))).

Example the_sample_settles :
  option_map (fun st => (i_outcome st, i_result st, i_settled st)) (assoc "inv-1" (ns_invocations receipt_first))
  = Some (EoCompleted, Some "done", true).
Proof. vm_compute. reflexivity. Qed.

Lemma sample_idle : idle_session sample_session.
Proof. constructor; [done| |constructor]. intros n b H. by destruct n. Qed.

Lemma receipt_race_witness :
  exists M M' stM, dispatch_all no_float_add no_float_cmp no_dumps sample_frames (register "inv-1" 0 sample_session) = (M, Ok tt)
    /\ prompt_sent no_float_add no_float_cmp "inv-1" "review" (inl (200, sample_receipt)) M
       = (M', Ok {| er_native_session_id := Some "ses_1"; er_input_id := "in-1" |})
    /\ assoc "inv-1" (ns_invocations M') = Some stM /\ i_outcome stM = EoCompleted.
Proof.
  destruct (receipt_race no_float_add no_float_cmp no_dumps "inv-1" "in-1" "review" 200 sample_receipt 0
    sample_frames sample_session receipt_first sample_idle eq_refl ltac:(vm_compute; reflexivity)
    ltac:(vm_compute; reflexivity) ltac:(vm_compute; reflexivity)) as (M & M' & stL & stM & H1 & H2 & HL & HM & Ha).
  exists M, M', stM. split_and!; [exact H1|exact H2|exact HM|].
  assert (option_map i_outcome (assoc "inv-1" (ns_invocations receipt_first)) = Some EoCompleted) as Ho
    by (vm_compute; reflexivity).
  rewrite HL in Ho. injection Ho as Ho. unfold answer in Ha. injection Ha as Ha. congruence.
Defined.

(** The session one frame before the resolution: the interval is closed, the delivery is in it. *)
Definition sample_delivered : istate :=
  set_i_delivery false true (Some 2) (given "in-1" (new_istate 0 0)).
Definition sample_interval : interval := set_closed (JInt 6) EoCompleted None (new_interval (SInt 1)).
Lemma resolve_assigns_witness :
  exists f : list (option nat), NoDup (omap id f) /\
    Forall3 (fun ks o ks' => fst ks' = fst ks /\
         match o with None => snd ks' = snd ks
         | Some n => served no_float_add no_float_cmp [sample_interval] n (snd ks) (snd ks') end)
      [("inv-1", sample_delivered); ("inv-2", sample_delivered)] f
      [("inv-1", settled_by sample_interval no_usage sample_delivered); ("inv-2", sample_delivered)].
Proof.
  destruct (resolve_assigns no_float_add no_float_cmp
    [("inv-1", sample_delivered); ("inv-2", sample_delivered)] [sample_interval]
    [("inv-1", settled_by sample_interval no_usage sample_delivered); ("inv-2", sample_delivered)]
    [set_used sample_interval] ltac:(vm_compute; reflexivity)) as (f & H1 & _ & _ & H2).
  exists f. split; [exact H1|exact H2].
Defined.

Lemma cancel_outcomes_witness :
  i_outcome (set_i_confirmed (set_i_outcome EoCancelled sample_delivered)) = EoCancelled.
Proof.
  destruct (cancel_outcomes true false None sample_delivered
    (set_i_confirmed (set_i_outcome EoCancelled sample_delivered)) ltac:(vm_compute; reflexivity)) as ([H|[H|H]] & _);
    [exact H|discriminate H|discriminate H].
Defined.
