(* ===== verification/Traces.v ===== *)
(** * Runs of a program, checked by a monitor

    A run of a program of [Effects] is the list of its calls with their answers.  A monitor
    reads a run event by event: it moves to a new state, refuses the event ([Bad], a call the
    program must not make), or rules the run out ([Never], an answer the environment does not
    give).  [obeys]: no run of the program is refused, and every run ends in a state that fits
    its result. *)

From S2P Require Import Prelude Effects.

Inductive verdict (S : Type) := Goes (s : S) | Bad | Never.
Arguments Goes {S} s.
Arguments Bad {S}.
Arguments Never {S}.

Section traces.
Context {C : Type} {ans : C -> Type} {E : Type}.

Record event := Ev { ev_call : C; ev_ans : ans ev_call }.

(** The program may make exactly these calls, get these answers, and end with [r]. *)
Fixpoint runs {A} (p : prog ans E A) (tr : list event) (r : result E A) : Prop :=
  match p with
  | Done r' => tr = [] /\ r = r'
  | Call c k => exists a tr', tr = Ev c a :: tr' /\ runs (k a) tr' r
  end.

(** A run of a composed program is a run of its first part and one of the rest. *)
Lemma runs_run {A B} (p : prog ans E A) (f : result E A -> prog ans E B) tr r :
  runs (prog_run p f) tr r -> exists tr1 r1 tr2, tr = tr1 ++ tr2 /\ runs p tr1 r1 /\ runs (f r1) tr2 r.
Proof.
  revert tr. induction p as [r'|c k IH]; intros tr H; cbn in *; [by exists [], r', tr|].
  destruct H as (a & tr' & -> & H). destruct (IH a tr' H) as (tr1 & r1 & tr2 & -> & H1 & H2).
  exists (Ev c a :: tr1), r1, tr2. split; [done|]. split; [|done]. by exists a, tr1.
Qed.
Lemma runs_bind_ok {A B} (p : prog ans E A) (f : A -> prog ans E B) tr b :
  runs (p ≫= f) tr (Ok b) -> exists tr1 a tr2, tr = tr1 ++ tr2 /\ runs p tr1 (Ok a) /\ runs (f a) tr2 (Ok b).
Proof. intros (tr1 & [a|y] & tr2 & -> & H1 & H2)%runs_run; [by exists tr1, a, tr2|]. by destruct H2. Qed.
Lemma runs_bind {A B} (p : prog ans E A) (f : A -> prog ans E B) tr r : runs (p ≫= f) tr r ->
  (exists tr1 a tr2, tr = tr1 ++ tr2 /\ runs p tr1 (Ok a) /\ runs (f a) tr2 r) \/ (exists y, runs p tr (Err y) /\ r = Err y).
Proof.
  intros (tr1 & [a|y] & tr2 & -> & H1 & H2)%runs_run; [left; by exists tr1, a, tr2|].
  destruct H2 as [-> ->]. right. exists y. by rewrite app_nil_r.
Qed.
Lemma runs_call c tr r : runs (call c) tr r -> exists a, tr = [Ev c a] /\ r = Ok a.
Proof. intros (a & tr' & -> & -> & ->). by exists a. Qed.
Lemma runs_lift_ok {A} (p : prog ans E (result E A)) tr a : runs (p ≫= lift) tr (Ok a) -> runs p tr (Ok (Ok a)).
Proof. intros (tr1 & r & tr2 & -> & H1 & -> & <-)%runs_bind_ok. by rewrite app_nil_r. Qed.

(** The run an environment that answers by what happened before produces. *)
Fixpoint play (env : list event -> forall c, ans c) {A} (p : prog ans E A) (past : list event) : list event * result E A :=
  match p with
  | Done r => ([], r)
  | Call c k =>
      let a := env past c in
      let (tr, r) := play env (k a) (Ev c a :: past) in (Ev c a :: tr, r)
  end.
Lemma play_runs env {A} (p : prog ans E A) past : runs p (fst (play env p past)) (snd (play env p past)).
Proof.
  revert past. induction p as [r|c k IH]; intros past; cbn; [done|].
  exists (env past c). specialize (IH (env past c) (Ev c (env past c) :: past)).
  destruct (play env (k (env past c)) _) as [tr r]. by exists tr.
Qed.

Context {S : Type} (next : S -> event -> verdict S).

Fixpoint watch (s : S) (tr : list event) : verdict S :=
  match tr with
  | [] => Goes s
  | e :: tr => match next s e with Goes s => watch s tr | v => v end
  end.

Fixpoint obeys {A} (p : prog ans E A) (Q : S -> result E A -> Prop) (s : S) : Prop :=
  match p with
  | Done r => Q s r
  | Call c k => forall a, match next s (Ev c a) with Goes s => obeys (k a) Q s | Bad => False | Never => True end
  end.

Lemma obeys_runs {A} (p : prog ans E A) Q s tr r :
  obeys p Q s -> runs p tr r ->
  match watch s tr with Goes s => Q s r | Bad => False | Never => True end.
Proof.
  revert s tr. induction p as [r'|c k IH]; intros s tr Ho Hr; cbn in *.
  - destruct Hr as [-> ->]. done.
  - destruct Hr as (a & tr' & -> & Hr). cbn. specialize (Ho a).
    destruct (next s (Ev c a)); [by eapply IH|done|done].
Qed.

Lemma obeys_mono {A} (p : prog ans E A) (Q Q' : S -> result E A -> Prop) s :
  obeys p Q s -> (forall s r, Q s r -> Q' s r) -> obeys p Q' s.
Proof.
  intros H HQ. revert s H. induction p as [r|c k IH]; intros s H; cbn in *; [by apply HQ|].
  intros a. specialize (H a). destruct (next s (Ev c a)); [by apply IH|done|done].
Qed.

Lemma obeys_run {A B} (p : prog ans E A) (f : result E A -> prog ans E B) Q s :
  obeys p (fun s r => obeys (f r) Q s) s -> obeys (prog_run p f) Q s.
Proof.
  revert s. induction p as [r|c k IH]; intros s H; cbn in *; [done|].
  intros a. specialize (H a). destruct (next s (Ev c a)); [by apply IH|done|done].
Qed.
Lemma obeys_call c (Q : S -> result E (ans c) -> Prop) s :
  (forall a, match next s (Ev c a) with Goes s => Q s (Ok a) | Bad => False | Never => True end) ->
  obeys (call c) Q s.
Proof. done. Qed.
Lemma obeys_bind {A B} (p : prog ans E A) (f : A -> prog ans E B) Q s :
  obeys p (fun s r => match r with Ok a => obeys (f a) Q s | Err e => Q s (Err e) end) s ->
  obeys (p ≫= f) Q s.
Proof. intros H. apply obeys_run. eapply obeys_mono; [exact H|]. by intros s' []. Qed.
Lemma obeys_lift {A} (p : prog ans E (result E A)) (Q : S -> result E A -> Prop) s :
  obeys p (fun s r => match r with Ok r => Q s r | Err e => Q s (Err e) end) s -> obeys (p ≫= lift) Q s.
Proof. intros H. apply obeys_bind. exact H. Qed.
Lemma obeys_catch {A} (p : prog ans E A) (h : E -> prog ans E A) Q s :
  obeys p (fun s r => match r with Ok a => Q s (Ok a) | Err e => obeys (h e) Q s end) s ->
  obeys (catch p h) Q s.
Proof. intros H. apply obeys_run. eapply obeys_mono; [exact H|]. by intros s' []. Qed.
Lemma obeys_attempt {A} (p : prog ans E A) (Q : S -> result E (result E A) -> Prop) s :
  obeys p (fun s r => Q s (Ok r)) s -> obeys (attempt p) Q s.
Proof. intros H. by apply obeys_run. Qed.
End traces.

Arguments event {C} ans.
Arguments Ev {C ans} ev_call ev_ans.
Arguments runs {C ans E A} p tr r.

(** One call: its answer, and the event it leaves. *)
Ltac calls := lazymatch goal with |- obeys _ (call ?c) _ _ => refine (obeys_call _ c _ _ _) end.
