(* ===== verification/Delivery.v ===== *)
(** * harness/delivery.py: delivering a Start to a Workspace's mini-harness

    The methods of [Delivery] as programs over the calls they make: the clock, the Workspace
    manager, the preparation callback and HTTP.  Any awaited call may also end in a
    cancellation.  What the mini-harness answers is read as the wire documents. *)

From Stdlib Require Import Ascii.
From S2P Require Import Prelude Sha256 PyJson PyLoads Config Public StateRefs Effects Traces Storage Wire Tokens.
Local Open Scope Z_scope.

(** The exceptions the method tells apart.  [StartOutcomeUnknown], [GatewayUnavailable] and
    [_StartRejected] are [DeliveryError]s; [ConnectFailed] is [httpx.ConnectError] or
    [ConnectTimeout], [TransportError] every other [httpx.TransportError]. *)
Inductive derr :=
  | DeliveryError | StartOutcomeUnknown | GatewayUnavailable | StartRejected
  | ConnectFailed | TransportError | TimedOut
  | WorkspaceAssemblyUnavailable | ValidationError | OtherException | Cancelled | OutOfFuel.
#[export] Instance derr_eq_dec : EqDecision derr.
Proof. solve_decision. Defined.
Definition is_delivery_error (e : derr) : bool :=
  match e with DeliveryError | StartOutcomeUnknown | GatewayUnavailable | StartRejected => true | _ => false end.

Definition MAX_RESPONSE_BYTES : Z := 1024 * 1024.
Definition microseconds (n : Z) : Z := 1000000 * n.
Definition _CONNECT_TIMEOUT_SECONDS : Z := 10.

Record WorkspaceRef := { wr_namespace : string; wr_agent_uid : string; wr_workspace_ref : string }.
Record WorkspaceEndpoint := { we_ref : WorkspaceRef; we_name : string; we_instance_id : string; we_base_url : string }.
#[export] Instance workspace_ref_eq_dec : EqDecision WorkspaceRef.
Proof. solve_decision. Defined.
#[export] Instance workspace_endpoint_eq_dec : EqDecision WorkspaceEndpoint.
Proof. solve_decision. Defined.
(** What [start] reads of an [AdmissionTicket]. *)
Record AdmissionTicket :=
  { at_namespace : string; at_agent_uid : string; at_invocation_id : string;
    at_workspace_ref : string; at_session_ref : string; at_deadline_at : Z }.

(** One request, and one response: its status, its instance header, the chunks of its body,
    and the exception that ended them, if any. *)
Record http_request :=
  { hq_endpoint : WorkspaceEndpoint; hq_method : string; hq_path : string; hq_payload : option json;
    hq_timeout : Z }.
Record http_response :=
  { hr_status : Z; hr_instance : option string; hr_chunks : list string; hr_ends : option derr }.

Inductive dcall :=
  | CClosed                                                (* self._closed *)
  | CClock                                                 (* self.clock() *)
  | CGateway                                               (* manager.gateway_available() *)
  | CWaitGateway (timeout : Z)                             (* manager.wait_gateway(monotonic() + timeout) *)
  | CEnsure (r : WorkspaceRef) (deadline_at timeout : Z)   (* wait_for(manager.ensure(...), timeout) *)
  | CPrepare (e : WorkspaceEndpoint) (timeout : Z)         (* wait_for(prepare(ticket, e), timeout) *)
  | CHttp (q : http_request)
  | CReportLost (e : WorkspaceEndpoint)                    (* manager.report_lost(e) *)
  | CAlarm                                                 (* self.alarm(...) *)
  | CSleep (d : Z).
Definition dans (c : dcall) : Type :=
  match c with
  | CClosed => bool
  | CClock => option Z                      (* None: a naive datetime *)
  | CGateway => bool
  | CWaitGateway _ => result derr bool
  | CEnsure _ _ _ => result derr WorkspaceEndpoint
  | CPrepare _ _ => result derr (option StartRequest)  (* None: no StartRequest *)
  | CHttp _ => result derr http_response
  | CReportLost _ | CAlarm => unit
  | CSleep _ => bool                        (* cancelled *)
  end.
Abbreviation dprog := (prog dans derr).
(** An awaited call: its exception is raised here. *)
Definition await {A} (p : dprog (result derr A)) : dprog A := p ≫= lift.

Definition instance_changed (response : http_response) (e : WorkspaceEndpoint) : bool :=
  match hr_instance response with Some i => negb (String.eqb i (we_instance_id e)) | None => false end.

Fixpoint read_chunks (size : Z) (acc : string) (chunks : list string) (ends : option derr) : result derr string :=
  match chunks with
  | [] => match ends with None => Ok acc | Some e => Err e end
  | c :: chunks =>
      let size := size + Z.of_nat (String.length c) in
      if MAX_RESPONSE_BYTES <? size then Err DeliveryError else read_chunks size (acc +:+ c) chunks ends
  end.

(** What [build_request] sends for a request: [bearer] is the engine bearer of the name. *)
Definition url (q : http_request) : string := rstrip_char "/"%char (we_base_url (hq_endpoint q)) +:+ hq_path q.
Definition _headers (bearer : string -> string) (e : WorkspaceEndpoint) : list (string * string) :=
  [("Authorization", "Bearer " +:+ bearer (we_name e)); ("X-ACH-Instance-Id", we_instance_id e);
   ("Content-Type", "application/json")].
Definition connect_timeout (q : http_request) : Z := Z.min (hq_timeout q) (microseconds _CONNECT_TIMEOUT_SECONDS).

Definition _remaining (deadline_at : Z) : dprog Z :=
  now ← call CClock;
  match now with
  | None => throw DeliveryError
  | Some now => if deadline_at - now <=? 0 then throw TimedOut else mret (deadline_at - now)
  end.

(** [manager.ensure] of the ticket's reference, within [timeout]. *)
Definition _endpoint (t : AdmissionTicket) (timeout : Z) : dprog WorkspaceEndpoint :=
  await (call (CEnsure {| wr_namespace := at_namespace t; wr_agent_uid := at_agent_uid t;
                          wr_workspace_ref := at_workspace_ref t |} (at_deadline_at t) timeout)).

Definition _request (e : WorkspaceEndpoint) (method path : string) (payload : option json)
    (deadline_at : option Z) : dprog (Z * string) :=
  closed ← call CClosed;
  if closed : bool then throw DeliveryError else
  timeout ← match deadline_at with Some d => _remaining d | None => mret (microseconds 10) end;
  response ← await (call (CHttp {| hq_endpoint := e; hq_method := method; hq_path := path;
                                   hq_payload := payload; hq_timeout := timeout |}));
  if negb (bool_decide (hr_instance response = Some (we_instance_id e))) then
    _ ← (if instance_changed response e then call (CReportLost e) else mret tt);
    throw DeliveryError
  else
    raw ← lift (read_chunks 0 "" (hr_chunks response) (hr_ends response));
    mret (hr_status response, raw).

Section delivery.
Context `{DT : PyDatetime} (dump_datetime : Z -> string) (parse_float : string -> pyfloat).

Definition _json (raw : string) : result derr json := opt_or DeliveryError (json_loads parse_float raw).
(** [Model.model_validate(...)] *)
Definition validated {A} (r : result exn A) : result derr A :=
  match r with Ok a => Ok a | Err _ => Err ValidationError end.

Definition started_matches (s : Started) (r : StartRequest) : bool :=
  String.eqb (sd_invocation_id s) (sr_invocation_id r) && String.eqb (sd_session_ref s) (rq_session_ref r)
  && String.eqb (sd_config_version s) (sr_config_version r) && truthy (sd_run_id s).
(** A 202 with a receipt of exactly this request. *)
Definition receipt_of (raw : string) (r : StartRequest) : result derr Started :=
  j ← _json raw;
  match Started_validate j with
  | Err _ => Err DeliveryError
  | Ok s => if started_matches s r then Ok s else Err DeliveryError
  end.
Definition _started (e : WorkspaceEndpoint) (r : StartRequest) (deadline_at : Z) : dprog Started :=
  '(status, raw) ← _request e "POST" "/start" (Some (StartRequest_dump dump_datetime r)) (Some deadline_at);
  if negb (status =? 202) then throw StartRejected else lift (receipt_of raw r).

(** [_validate_status(result, expected)] for a [StartRequest] and for a [RunStatus]. *)
Definition _validate_status (s : RunStatus) (invocation_id channel workspace_ref session_ref config_version : string)
    (deadline_at : Z) (run_id : option string) : result derr unit :=
  require (String.eqb (rs_invocation_id s) invocation_id && String.eqb (rs_channel s) channel
           && String.eqb (rs_workspace_ref s) workspace_ref && String.eqb (rs_session_ref s) session_ref
           && String.eqb (rs_config_version s) config_version && (rs_deadline_at s =? deadline_at)
           && match run_id with Some i => bool_decide (rs_run_id s = Some i) | None => true end) DeliveryError.
Definition status_of_request (s : RunStatus) (r : StartRequest) : result derr unit :=
  _validate_status s (sr_invocation_id r) (sr_channel r) (rq_workspace_ref r) (rq_session_ref r)
    (sr_config_version r) (sr_deadline_at r) None.
Definition status_of_status (s e : RunStatus) : result derr unit :=
  _validate_status s (rs_invocation_id e) (rs_channel e) (rs_workspace_ref e) (rs_session_ref e)
    (rs_config_version e) (rs_deadline_at e) (rs_run_id e).

(** The run record of the same pod, read back: the body proves this run. *)
Definition retained_record (raw : string) (r : StartRequest) : result derr unit :=
  j ← _json raw; s ← validated (RunStatus_validate j); status_of_request s r.

(** An ambiguous send: one identical retry, only against the pod that retains the run. *)
Definition resolve_ambiguous (t : AdmissionTicket) (e : WorkspaceEndpoint) (r : StartRequest) : dprog Started :=
  remaining ← _remaining (at_deadline_at t);
  current ← _endpoint t remaining;
  if negb (String.eqb (we_instance_id current) (we_instance_id e)) then throw StartOutcomeUnknown else
  '(status, raw) ← _request current "GET" ("/status/" +:+ at_invocation_id t) None (Some (at_deadline_at t));
  if negb (status =? 200) then throw StartOutcomeUnknown else
  _ ← lift (retained_record raw r);
  remaining ← _remaining (at_deadline_at t);
  retry ← _endpoint t remaining;
  if negb (String.eqb (we_instance_id retry) (we_instance_id e)) then throw StartOutcomeUnknown else
  _started retry r (at_deadline_at t).
Definition alarmed (p : dprog Started) : dprog Started :=
  catch p (fun e => match e with
    | Cancelled => throw Cancelled
    | _ => _ ← call CAlarm; throw StartOutcomeUnknown
    end).

(** The loop of [start]: [fuel] bounds the sends the gateway refused. *)
Fixpoint send_loop (fuel : nat) (t : AdmissionTicket) (e : WorkspaceEndpoint) (r : StartRequest) (delay : Z) :
    dprog Started :=
  match fuel with
  | O => throw OutOfFuel
  | S fuel =>
      catch (_started e r (at_deadline_at t)) (fun x =>
        if bool_decide (x = StartRejected) then throw StartRejected
        else if is_delivery_error x then _ ← call CAlarm; throw StartOutcomeUnknown
        else match x with
        | ConnectFailed =>
            available ← call CGateway;
            if available : bool then alarmed (resolve_ambiguous t e r)
            else
              remaining ← _remaining (at_deadline_at t);
              if remaining <=? delay then throw GatewayUnavailable
              else
                cancelled ← call (CSleep delay);
                if cancelled : bool then throw Cancelled
                else send_loop fuel t e r (Z.min (2 * delay) (microseconds 5))
        | TransportError | TimedOut => alarmed (resolve_ambiguous t e r)
        | x => throw x
        end)
  end.

(** The prepared request belongs to the ticket and to the configuration. *)
Definition request_matches (r : StartRequest) (t : AdmissionTicket) (config_version : string) : bool :=
  String.eqb (sr_invocation_id r) (at_invocation_id t) && String.eqb (rq_session_ref r) (at_session_ref t)
  && String.eqb (rq_workspace_ref r) (at_workspace_ref t) && (sr_deadline_at r =? at_deadline_at t)
  && String.eqb (sr_config_version r) config_version.
Definition start (fuel : nat) (public : PublicConfig) (t : AdmissionTicket) : dprog Started :=
  let config_version := pc_config_version public in
  if negb (String.eqb (at_namespace t) (agent_namespace (pc_agent public)))
     || negb (String.eqb (at_agent_uid t) (agent_uid (pc_agent public))) then throw DeliveryError else
  remaining ← _remaining (at_deadline_at t);
  available ← call CGateway;
  back ← (if available : bool then mret true else await (call (CWaitGateway remaining)));
  if negb back then throw GatewayUnavailable else
  remaining ← _remaining (at_deadline_at t);
  e ← _endpoint t remaining;
  _ ← _remaining (at_deadline_at t);
  remaining ← _remaining (at_deadline_at t);
  prepared ← await (call (CPrepare e remaining));
  match prepared with
  | None => throw WorkspaceAssemblyUnavailable
  | Some r =>
      if negb (request_matches r t config_version) then throw DeliveryError
      else send_loop fuel t e r 500000
  end.

(** ** The other requests *)

Definition status (e : WorkspaceEndpoint) (invocation_id : string) : dprog RunStatus :=
  '(code, raw) ← _request e "GET" ("/status/" +:+ invocation_id) None None;
  if negb (code =? 200) then throw DeliveryError else
  j ← lift (_json raw);
  lift (opt_or DeliveryError (match RunStatus_validate j with Ok s => Some s | Err _ => None end)).
Definition list_runs (e : WorkspaceEndpoint) : dprog (list RunStatus) :=
  '(code, raw) ← _request e "GET" "/runs" None None;
  if negb (code =? 200) then throw DeliveryError else
  j ← lift (_json raw);
  match j with
  | JList items => lift (match mapM_res RunStatus_validate items with Ok l => Ok l | Err _ => Err DeliveryError end)
  | _ => throw DeliveryError
  end.
Definition cancel (e : WorkspaceEndpoint) (r : CancelRequest) : dprog unit :=
  '(code, _) ← _request e "POST" "/cancel" (Some (CancelRequest_dump r)) None;
  if negb (code =? 200) then throw DeliveryError else mret tt.
End delivery.
