(* ===== verification/DeliveryProps.v ===== *)
(** * harness/delivery.py: what a delivery promises

    [audit] watches the sends of one [Delivery.start]: whether anything can have reached the
    mini-harness, and whether the pod's retained record proved the run.  [start_sends_once]:
    no run is refused by it, and the result says what was sent. *)

From S2P Require Import Prelude Sha256 PyJson PyLoads Config Public StateRefs Effects Traces Storage StorageDocs Wire Tokens Delivery.
From Stdlib Require Import Ascii.
Local Open Scope Z_scope.

Section audit.
Context `{DT : PyDatetime} (dump_datetime : Z -> string) (parse_float : string -> pyfloat).
Abbreviation start := (start dump_datetime parse_float).
Abbreviation send_loop := (send_loop dump_datetime parse_float).
Abbreviation _started := (_started dump_datetime parse_float).
Abbreviation resolve_ambiguous := (resolve_ambiguous dump_datetime parse_float).
Abbreviation receipt_of := (receipt_of parse_float).
Abbreviation retained_record := (retained_record parse_float).

(** What a request comes to, given the answer of its send. *)
Definition request_result (e : WorkspaceEndpoint) (a : result derr http_response) : result derr (Z * string) :=
  response ← a;
  if negb (bool_decide (hr_instance response = Some (we_instance_id e))) then Err DeliveryError
  else raw ← read_chunks 0 "" (hr_chunks response) (hr_ends response); Ok (hr_status response, raw).

(** Nothing can have reached the mini; the connection was refused and the gateway not asked
    yet; something may have; the same pod's record proved the run; the one retry was made. *)
Inductive sent :=
  | Unsent | Refused
  | Ambiguous (a : result derr http_response) | Retained | Resent (a : result derr http_response).
Definition audit_state : Type := option (WorkspaceEndpoint * StartRequest) * sent.

(** What [httpx] raises: never the program's own errors, and a connection that delivered a
    response does not fail to connect. *)
Definition native_answer (a : result derr http_response) : bool :=
  match a with
  | Err x => negb (is_delivery_error x)
  | Ok response => match hr_ends response with
                   | Some x => negb (is_delivery_error x) && negb (bool_decide (x = ConnectFailed))
                   | None => true end
  end.
Definition refused (a : result derr http_response) : bool :=
  match a with Err ConnectFailed => true | _ => false end.
Definition is_start (q : http_request) : bool := String.eqb (hq_method q) "POST".
(** The send is this request, to this instance. *)
Definition same_start (e : WorkspaceEndpoint) (r : StartRequest) (q : http_request) : bool :=
  String.eqb (hq_path q) "/start" && String.eqb (we_instance_id (hq_endpoint q)) (we_instance_id e)
  && bool_decide (hq_payload q = Some (StartRequest_dump dump_datetime r)).
(** The answer is this pod's record of this run. *)
Definition proves_run (e : WorkspaceEndpoint) (r : StartRequest) (q : http_request)
    (a : result derr http_response) : bool :=
  String.eqb (we_instance_id (hq_endpoint q)) (we_instance_id e)
  && String.eqb (hq_path q) ("/status/" +:+ sr_invocation_id r)
  && match request_result (hq_endpoint q) a with
     | Ok (200, raw) => is_ok (retained_record raw r)
     | _ => false
     end.

Definition audit_http (q : http_request) (a : result derr http_response) (s : audit_state) : verdict audit_state :=
  match fst s with
  | None => Bad
  | Some (e, r) =>
      if negb (native_answer a) then Never
      else if is_start q then
        if negb (same_start e r q) then Bad
        else match snd s with
        | Unsent => Goes (fst s, if refused a then Refused else Ambiguous a)
        | Retained => Goes (fst s, Resent a)
        | _ => Bad
        end
      else match snd s with
      | Ambiguous _ => if proves_run e r q a then Goes (fst s, Retained) else Goes s
      | _ => Goes s
      end
  end.
Definition audit (s : audit_state) (ev : event dans) : verdict audit_state :=
  match ev with
  | Ev (CPrepare e _) (Ok (Some r)) => Goes (Some (e, r), snd s)
  | Ev CGateway available =>
      match snd s with
      | Refused => Goes (fst s, if available then Ambiguous (Err ConnectFailed) else Unsent)
      | _ => Goes s
      end
  | Ev (CHttp q) a => audit_http q a s
  | Ev (CEnsure _ _ _) (Err StartRejected) | Ev (CPrepare _ _) (Err StartRejected)
  | Ev (CWaitGateway _) (Err StartRejected) => Never
  | _ => Goes s
  end.

(** What the result says of the sends. *)
Definition told (t : AdmissionTicket) (config_version : string) (s : audit_state) (r : result derr Started) : Prop :=
  match r with
  | Ok started =>
      exists e q a raw, fst s = Some (e, q) /\ request_matches q t config_version = true
        /\ (snd s = Ambiguous a \/ snd s = Resent a)
        /\ request_result e a = Ok (202, raw) /\ receipt_of raw q = Ok started
  | Err GatewayUnavailable | Err DeliveryError | Err TimedOut => snd s = Unsent
  | Err StartRejected =>
      exists e q a code raw, fst s = Some (e, q) /\ snd s = Ambiguous a
        /\ request_result e a = Ok (code, raw) /\ code <> 202
  | Err _ => True
  end.

Lemma request_result_at e e' a : we_instance_id e = we_instance_id e' -> request_result e a = request_result e' a.
Proof. intros H. unfold request_result. by rewrite H. Qed.

Lemma audit_remaining d (Q : audit_state -> result derr Z -> Prop) s :
  Q s (Err DeliveryError) -> Q s (Err TimedOut) -> (forall n, 0 < n -> Q s (Ok n)) ->
  obeys audit (_remaining d) Q s.
Proof.
  intros H1 H2 H3. intros [now|]; cbn; [|done]. destruct (Z.leb_spec (d - now) 0); cbn; [done|]. apply H3. lia.
Qed.

Lemma audit_endpoint t timeout (Q : audit_state -> result derr WorkspaceEndpoint -> Prop) s :
  (forall r, r <> Err StartRejected -> Q s r) -> obeys audit (_endpoint t timeout) Q s.
Proof. intros H. apply obeys_lift. calls. intros [e|[]]; cbn [audit]; try done; by apply H. Qed.

(** A request: refused before it is sent, or sent once. *)
(** A request: refused before it is sent, or sent once. *)
Lemma audit_request e method path payload d (Q : audit_state -> result derr (Z * string) -> Prop) s :
  Q s (Err DeliveryError) -> Q s (Err TimedOut) ->
  (forall timeout a, let q := {| hq_endpoint := e; hq_method := method; hq_path := path; hq_payload := payload;
                                 hq_timeout := timeout |} in
     match audit_http q a s with Goes s' => Q s' (request_result e a) | Bad => False | Never => True end) ->
  obeys audit (_request e method path payload (Some d)) Q s.
Proof.
  intros H1 H2 H3. apply obeys_bind. calls. intros closed. cbn [audit]. destruct closed; [done|].
  apply obeys_bind, audit_remaining; [done|done|]. intros timeout _.
  apply obeys_bind, obeys_lift. calls. intros a. specialize (H3 timeout a). cbv zeta in H3. cbn [audit].
  destruct (audit_http _ a s) as [s'| |]; [|done|done]. destruct a as [resp|x]; [|done].
  unfold request_result in H3. cbn [mbind result_bind] in H3. destruct (negb (bool_decide _)).
  - destruct (instance_changed resp e); [|done]. apply obeys_bind. calls. by intros [].
  - by destruct (read_chunks 0 "" (hr_chunks resp) (hr_ends resp)).
Qed.

(** A send of the request: nothing is sent, or its answer is the outcome. *)
Definition after_start (s : audit_state) (a : result derr http_response) : audit_state :=
  (fst s, match snd s with
          | Unsent => if refused a then Refused else Ambiguous a
          | _ => Resent a
          end).
Definition start_result (e : WorkspaceEndpoint) (r : StartRequest) (a : result derr http_response) : result derr Started :=
  '(code, raw) ← request_result e a; if negb (code =? 202) then Err StartRejected else receipt_of raw r.
Lemma audit_started e0 e r d (Q : audit_state -> result derr Started -> Prop) s :
  fst s = Some (e0, r) -> we_instance_id e = we_instance_id e0 -> (snd s = Unsent \/ snd s = Retained) ->
  Q s (Err DeliveryError) -> Q s (Err TimedOut) ->
  (forall a, native_answer a = true -> Q (after_start s a) (start_result e0 r a)) ->
  obeys audit (_started e r d) Q s.
Proof.
  intros Hs He Hph H1 H2 H3. apply obeys_bind, audit_request; [done|done|]. intros timeout a q. specialize (H3 a).
  unfold audit_http. rewrite Hs. destruct (native_answer a); [|done]. specialize (H3 eq_refl).
  assert (is_start q = true) as -> by done.
  assert (same_start e0 r q = true) as ->.
  { unfold same_start, q. cbn [hq_path hq_endpoint hq_payload]. rewrite He, !String.eqb_refl, bool_decide_true by done. done. }
  cbn [negb]. unfold after_start, start_result in H3. rewrite (request_result_at e e0) by done. rewrite Hs in H3.
  destruct Hph as [Hph|Hph]; rewrite Hph in *; cbn in H3;
    (destruct (request_result e0 a) as [[code raw]|x]; [cbn in H3 |- *|done]; by destruct (negb (code =? 202))).
Qed.

(** What a send that fails raises. *)
Lemma request_result_err e a x : native_answer a = true -> request_result e a = Err x ->
  x = DeliveryError \/ (is_delivery_error x = false /\ (x = ConnectFailed -> a = Err ConnectFailed)).
Proof.
  unfold request_result, native_answer. destruct a as [resp|y].
  2: { intros Hy%negb_true_iff [= <-]. right. split; [exact Hy|by intros ->]. }
  cbn [mbind result_bind].
  destruct (negb (bool_decide (hr_instance resp = _))); [intros _ [= <-]; by left|].
  intros Hn. generalize 0, "". induction (hr_chunks resp) as [|c cs IH]; intros z acc; cbn.
  - destruct (hr_ends resp) as [y|]; [|done]. cbn. intros [= <-]. right.
    apply andb_true_iff in Hn as [?%negb_true_iff Hn%negb_true_iff]. apply bool_decide_eq_false in Hn. done.
  - destruct (MAX_RESPONSE_BYTES <? _); [cbn; intros [= <-]; by left|]. apply IH.
Qed.
Lemma start_result_cases e r a : native_answer a = true ->
  match start_result e r a with
  | Ok st => exists raw, request_result e a = Ok (202, raw) /\ receipt_of raw r = Ok st
  | Err StartRejected => exists code raw, request_result e a = Ok (code, raw) /\ code <> 202
  | Err ConnectFailed => a = Err ConnectFailed
  | Err x => x = DeliveryError \/ is_delivery_error x = false
  end.
Proof.
  intros Hn. unfold start_result. destruct (request_result e a) as [[code raw]|x] eqn:E.
  - cbn. destruct (Z.eqb_spec code 202) as [->|Hc]; cbn [negb]; [|by exists code, raw].
    assert (forall x, receipt_of raw r = Err x -> x = DeliveryError) as Hx.
    { intros x. unfold Delivery.receipt_of, _json. destruct (json_loads parse_float raw); cbn; [|by intros [= <-]].
      destruct (Started_validate _); [|by intros [= <-]]. destruct (started_matches _ _); [done|by intros [= <-]]. }
    destruct (receipt_of raw r) as [st|x] eqn:Er; [by exists raw|]. rewrite (Hx x eq_refl). by left.
  - cbn. destruct (request_result_err e a x Hn E) as [->|[H1 H2]]; [by left|]. destruct x; auto; done.
Qed.

Lemma audit_ambiguous t cv e r ph :
  request_matches r t cv = true -> (ph = Unsent \/ exists a, ph = Ambiguous a) ->
  obeys audit (alarmed (resolve_ambiguous t e r)) (told t cv) (Some (e, r), ph).
Proof.
  intros Hm Hph. apply obeys_catch.
  set (Q := fun (s : audit_state) (x : result derr Started) =>
    match x with Ok st => told t cv s (Ok st) | Err _ => True end).
  assert (obeys audit (resolve_ambiguous t e r) Q (Some (e, r), ph)) as H.
  2: { eapply obeys_mono; [exact H|]. intros s [st|x]; [done|]. intros _. by destruct x. }
  assert (forall ph', ph' = Unsent \/ ph' = Retained ->
    obeys audit (remaining ← _remaining (at_deadline_at t); retry ← _endpoint t remaining;
      if negb (String.eqb (we_instance_id retry) (we_instance_id e)) then throw StartOutcomeUnknown
      else _started retry r (at_deadline_at t)) Q (Some (e, r), ph')) as Hretry.
  { intros ph' Hph'. apply obeys_bind, audit_remaining; [done..|]. intros n' _.
    apply obeys_bind, audit_endpoint. intros [retry|x] _; [|done].
    destruct (String.eqb_spec (we_instance_id retry) (we_instance_id e)) as [Hi'|]; [|done]. cbn [negb].
    eapply (audit_started e); [done|done|done|done|done|]. intros c Hn. unfold after_start. cbn [fst snd].
    pose proof (start_result_cases e r c Hn) as Hc. destruct (start_result e r c) as [st|]; [|done].
    destruct Hc as (raw' & Hr & Hst). exists e, r, c, raw'. split_and!; [done|done| |done|done].
    destruct Hph' as [-> | ->]; [|by right]. left. assert (refused c = false) as -> by (destruct c as [|[]]; done). done. }
  apply obeys_bind, audit_remaining; [done..|]. intros n _.
  apply obeys_bind, audit_endpoint. intros [current|x] _; [|done].
  destruct (String.eqb_spec (we_instance_id current) (we_instance_id e)) as [Hi|]; [|done]. cbn [negb].
  apply obeys_bind, audit_request; [done..|]. intros timeout b q.
  assert (sr_invocation_id r = at_invocation_id t) as Hid.
  { unfold request_matches in Hm. rewrite !andb_true_iff, String.eqb_eq in Hm. tauto. }
  unfold audit_http. cbn [fst snd]. destruct (native_answer b); [|done]. assert (is_start q = false) as -> by done.
  unfold proves_run. cbn [negb q hq_endpoint hq_path]. rewrite Hi, Hid, !String.eqb_refl. cbn [andb].
  destruct (request_result current b) as [[code raw]|x]; [|by destruct Hph as [->|[? ->]]].
  destruct (Z.eqb_spec code 200) as [->|Hne]; cbn [negb].
  2: { destruct Hph as [->|[? ->]]; by repeat case_match. }
  destruct (retained_record raw r) as [[]|x]; [|by destruct Hph as [->|[? ->]]].
  cbn [is_ok]. destruct Hph as [->|[? ->]]; apply Hretry; auto.
Qed.

Lemma audit_loop fuel t cv e r delay :
  request_matches r t cv = true -> obeys audit (send_loop fuel t e r delay) (told t cv) (Some (e, r), Unsent).
Proof.
  intros Hm. revert delay. induction fuel as [|fuel IH]; intros delay; [done|]. cbn [Delivery.send_loop].
  apply obeys_catch, (audit_started e); [done|done|by left|done|apply audit_ambiguous; auto|].
  intros a Hn. pose proof (start_result_cases e r a Hn) as Hc. unfold after_start. cbn [fst snd].
  assert (start_result e r a <> Err ConnectFailed -> refused a = false) as Ha.
  { intros Hne. by destruct a as [|[]]. }
  destruct (start_result e r a) as [st|x].
  { destruct Hc as (raw & Hr & Hst). rewrite Ha by done. exists e, r, a, raw. auto. }
  destruct (decide (x = StartRejected)) as [->|Hrej].
  { destruct Hc as (code & raw & Hr & Hne). rewrite Ha by done. exists e, r, a, code, raw. auto. }
  rewrite bool_decide_false by done. destruct (decide (x = ConnectFailed)) as [->|Hcon].
  - subst a. cbn [refused]. intros [|]; cbn [audit snd fst].
    { apply audit_ambiguous; eauto. }
    apply obeys_bind, audit_remaining; [done..|]. intros n _. destruct (n <=? delay); [done|].
    apply obeys_bind. calls. intros [|]; cbn [audit]; [done|apply IH].
  - rewrite Ha by congruence. destruct x; try done; try (by intros []); try (by destruct Hc);
      apply audit_ambiguous; eauto.
Qed.

(** C21. A Start is never sent twice on a guess.  Whatever the clock, the manager and the
    network do, every send of [Delivery.start] is the same request to the same instance; a
    send is repeated only when the connection was refused while the host reported its gateway
    down, or once, after the pod's own retained record proved this run.  And the error says
    the truth: a receipt is the pod's 202 for exactly this request, [_StartRejected] a
    definite other answer, and after [GatewayUnavailable], [TimeoutError] or a plain
    [DeliveryError] nothing can have reached the mini-harness. *)
Theorem start_sends_once fuel public t tr r :
  runs (start fuel public t) tr r ->
  match watch audit (None, Unsent) tr with
  | Goes s => told t (pc_config_version public) s r
  | Bad => False
  | Never => True
  end.
Proof.
  intros Hr. refine (obeys_runs audit (start fuel public t) (told t (pc_config_version public)) _ tr r _ Hr).
  unfold Delivery.start. destruct (_ || _); [done|].
  apply obeys_bind, audit_remaining; [done..|]. intros n _.
  apply obeys_bind. calls. intros available. cbn [audit snd]. apply obeys_bind.
  assert (forall s (back : bool), s = (None, Unsent) -> obeys audit
    (if negb back then throw GatewayUnavailable else
      remaining ← _remaining (at_deadline_at t); e ← _endpoint t remaining;
      _ ← _remaining (at_deadline_at t); remaining ← _remaining (at_deadline_at t);
      prepared ← await (call (CPrepare e remaining));
      match prepared with
      | None => throw WorkspaceAssemblyUnavailable
      | Some r => if negb (request_matches r t (pc_config_version public)) then throw DeliveryError
                  else send_loop fuel t e r 500000
      end) (told t (pc_config_version public)) s) as H.
  { intros s back ->. destruct back; [|done]. cbn [negb].
    apply obeys_bind, audit_remaining; [done..|]. intros n1 _. apply obeys_bind, audit_endpoint. intros [e|x] Hx; [|by destruct x].
    apply obeys_bind, audit_remaining; [done..|]. intros n2 _. apply obeys_bind, audit_remaining; [done..|]. intros n3 _.
    apply obeys_bind, obeys_lift. calls. intros [[q|]|x]; cbn [audit fst snd]; [|done|by destruct x].
    destruct (request_matches q t (pc_config_version public)) eqn:Hm; [|done]. by apply audit_loop. }
  destruct available; [by apply H|]. apply obeys_lift. calls.
  intros [back|x]; cbn [audit]; [by apply H|by destruct x].
Qed.

(** ** Termination

    [timed]: the clock does not go back, and a sleep lasts. *)

Definition fueled (x : derr) : bool := negb (bool_decide (x = OutOfFuel)).
Definition timed (now : Z) (ev : event dans) : verdict Z :=
  match ev with
  | Ev CClock (Some t) => if t <? now then Never else Goes t
  | Ev (CSleep d) _ => Goes (now + Z.max 0 d)
  | Ev (CHttp _) (Err x) | Ev (CEnsure _ _ _) (Err x) | Ev (CPrepare _ _) (Err x) | Ev (CWaitGateway _) (Err x) =>
      if fueled x then Goes now else Never
  | Ev (CHttp _) (Ok a) => if fueled (default Cancelled (hr_ends a)) then Goes now else Never
  | _ => Goes now
  end.

Lemma timed_goes now ev : match timed now ev with Goes now' => now <= now' | Bad => False | Never => True end.
Proof.
  destruct ev as [[] a]; cbn in *; try (destruct a); cbn; try done; try lia;
    repeat case_match; simplify_eq; try done; lia.
Qed.
Lemma timed_on {A} (p : prog dans derr A) s : obeys timed p (fun s' _ => s <= s') s.
Proof.
  assert (forall s0, s0 <= s -> obeys timed p (fun s' _ => s0 <= s') s) as H; [|by apply H].
  revert s. induction p as [r|c k IH]; intros s s0 Hs; cbn [obeys]; [done|]. intros a.
  pose proof (timed_goes s (Ev c a)). destruct (timed s (Ev c a)); [apply IH; lia|done|done].
Qed.
Lemma timed_both {A} (p : prog dans derr A) (P Q : Z -> result derr A -> Prop) s :
  obeys timed p P s -> obeys timed p Q s -> obeys timed p (fun s r => P s r /\ Q s r) s.
Proof.
  revert s. induction p as [r|c k IH]; intros s; cbn [obeys]; [done|]. intros HP HQ a. specialize (HP a). specialize (HQ a).
  destruct (timed s (Ev c a)); [by apply IH|done|done].
Qed.

Definition not_out {A} (_ : Z) (r : result derr A) : Prop := r <> Err OutOfFuel.
Lemma timed_remaining d (Q : Z -> result derr Z -> Prop) s :
  (forall t r, s <= t -> r <> Err OutOfFuel -> (forall n, r = Ok n -> n = d - t) -> Q t r) -> obeys timed (_remaining d) Q s.
Proof.
  intros H. apply obeys_bind. calls. intros [t|]; cbn [timed]; [|by apply H].
  destruct (Z.ltb_spec t s); [done|]. destruct (d - t <=? 0); apply H; try done. by intros n [= <-].
Qed.
Lemma timed_endpoint t timeout s : obeys timed (_endpoint t timeout) not_out s.
Proof. apply obeys_lift. calls. intros [e|x]; cbn [timed]; [done|]. by destruct x. Qed.
Lemma timed_request e method path payload d s : obeys timed (_request e method path payload (Some d)) not_out s.
Proof.
  apply obeys_bind. calls. intros closed. cbn [timed]. destruct closed; [done|].
  apply obeys_bind, timed_remaining. intros t [n|x] _ Hx _; [|by intros [= ->]].
  apply obeys_bind, obeys_lift. calls. intros [a|x]; cbn [timed]; [|by destruct x].
  destruct (fueled (default Cancelled (hr_ends a))) eqn:Hf; [|done].
  destruct (negb (bool_decide _)).
  { destruct (instance_changed a e); [|done]. apply obeys_bind. calls. by intros []. }
  assert (forall z acc, read_chunks z acc (hr_chunks a) (hr_ends a) <> Err OutOfFuel) as Hr.
  { induction (hr_chunks a) as [|c cs IH]; intros z acc; cbn [read_chunks].
    - destruct (hr_ends a) as [x|]; [|done]. by intros [= ->].
    - destruct (MAX_RESPONSE_BYTES <? _); [done|apply IH]. }
  specialize (Hr 0 ""). destruct (read_chunks 0 "" (hr_chunks a) (hr_ends a)); [done|]. by intros [= ->].
Qed.
Lemma timed_started e r d s : obeys timed (_started e r d) not_out s.
Proof.
  apply obeys_bind. eapply obeys_mono; [apply timed_request|]. intros s' [[code raw]|x] H; [|by intros [= ->]].
  destruct (negb (code =? 202)); [done|]. unfold Delivery.receipt_of, _json.
  destruct (json_loads parse_float raw); [|done]. cbn. destruct (Started_validate _); [|done].
  by destruct (started_matches _ _).
Qed.
Lemma timed_alarmed p s : obeys timed (alarmed p) not_out s.
Proof.
  apply obeys_catch. eapply obeys_mono; [apply timed_on|]. intros s' [st|x] _; [done|]. by destruct x.
Qed.

Lemma timed_loop fuel t e r delay s :
  (0 < fuel)%nat -> 500000 <= delay -> at_deadline_at t - s < Z.of_nat fuel * 500000 ->
  obeys timed (send_loop fuel t e r delay) not_out s.
Proof.
  revert delay s. induction fuel as [|fuel IH]; intros delay s Hf Hd Hs; [lia|]. cbn [Delivery.send_loop].
  apply obeys_catch. eapply obeys_mono; [apply (timed_both _ _ _ _ (timed_on _ s) (timed_started _ _ _ s))|].
  intros s1 [st|x] [H1 H2]; [done|]. destruct (bool_decide (x = StartRejected)); [done|].
  destruct (is_delivery_error x); [by intros []|]. destruct x; try done; try apply timed_alarmed.
  apply obeys_bind. calls. intros [|]; cbn [timed]; [apply timed_alarmed|].
  apply obeys_bind, timed_remaining. intros s2 [n|x] H3 H4 H5; [|by intros [= ->]]. specialize (H5 n eq_refl).
  destruct (Z.leb_spec n delay); [done|]. apply obeys_bind. calls. intros [|]; cbn [timed]; [done|].
  apply IH; unfold microseconds; lia.
Qed.

(** A delivery ends.  On a clock that does not go back, while a sleep lasts, the loop of
    [Delivery.start] sends at most once per half second until the deadline: that much fuel is
    never used up, whatever the gateway, the manager and the network answer. *)
Theorem start_ends fuel public t tr r now :
  (0 < fuel)%nat -> at_deadline_at t - now < Z.of_nat fuel * 500000 ->
  runs (start fuel public t) tr r ->
  match watch timed now tr with Never => True | _ => r <> Err OutOfFuel end.
Proof.
  intros Hf Hn Hr. enough (obeys timed (start fuel public t) not_out now) as H.
  { pose proof (obeys_runs timed _ _ now tr r H Hr). by destruct (watch timed now tr). }
  unfold Delivery.start. destruct (_ || _); [done|].
  apply obeys_bind, timed_remaining. intros s1 [n|x] H1 H2 _; [|by intros [= ->]].
  apply obeys_bind. calls. intros available. cbn [timed]. apply obeys_bind.
  assert (forall back : bool, obeys timed
    (if negb back then throw GatewayUnavailable else
      remaining ← _remaining (at_deadline_at t); e ← _endpoint t remaining;
      _ ← _remaining (at_deadline_at t); remaining ← _remaining (at_deadline_at t);
      prepared ← await (call (CPrepare e remaining));
      match prepared with
      | None => throw WorkspaceAssemblyUnavailable
      | Some r => if negb (request_matches r t (pc_config_version public)) then throw DeliveryError
                  else send_loop fuel t e r 500000
      end) not_out s1) as Hb.
  { intros back. destruct back; [|done]. cbn [negb].
    apply obeys_bind, timed_remaining. intros s2 [m|x] H3 Hx2 _; [|by intros [= ->]].
    apply obeys_bind. eapply obeys_mono; [apply (timed_both _ _ _ _ (timed_on _ s2) (timed_endpoint _ _ s2))|].
    intros s3 [e|x] [H4 Hx3]; [|by intros [= ->]].
    apply obeys_bind, timed_remaining. intros s4 [m'|x] H5 Hx4 _; [|by intros [= ->]].
    apply obeys_bind, timed_remaining. intros s5 [m2|x] H6 Hx5 _; [|by intros [= ->]].
    apply obeys_bind, obeys_lift. calls. intros [[q|]|x]; cbn [timed]; [|done|by destruct x].
    destruct (negb _); [done|]. apply timed_loop; lia. }
  destruct available; [apply Hb|]. apply obeys_lift. calls. intros [back|x]; cbn [timed]; [apply Hb|by destruct x].
Qed.
End audit.

(** ** Samples *)

#[local] Instance sample_datetime : PyDatetime := plain_datetime.
Definition sample_dump : Z -> string := isoformat_utc.
Definition no_floats (_ : string) : pyfloat := PyFloat "" None.

Definition agent_ref : WorkspaceRef :=
  {| wr_namespace := agent_namespace (pc_agent sample_public); wr_agent_uid := agent_uid (pc_agent sample_public);
     wr_workspace_ref := "w" |}.
Definition pod : WorkspaceEndpoint :=
  {| we_ref := agent_ref; we_name := "agent-w"; we_instance_id := "i-1"; we_base_url := "http://pod/" |}.
Definition the_ticket : AdmissionTicket :=
  {| at_namespace := wr_namespace agent_ref; at_agent_uid := wr_agent_uid agent_ref; at_invocation_id := "inv-1";
     at_workspace_ref := "w"; at_session_ref := "s"; at_deadline_at := 600000000 |}.
Definition the_request : StartRequest :=
  {| sr_invocation_id := "inv-1"; sr_channel := "mr"; rq_workspace_ref := "w"; rq_session_ref := "s";
     sr_workspace_key := "wk"; sr_session_key := "sk"; sr_config_version := pc_config_version sample_public;
     sr_prompt := "review"; sr_deadline_at := 600000000; sr_memory_available := None; sr_inform_user := false |}.
Definition the_receipt : Started :=
  {| sd_invocation_id := "inv-1"; sd_session_ref := "s"; sd_run_id := "run-1";
     sd_config_version := pc_config_version sample_public |}.
Definition the_record : RunStatus :=
  {| rs_invocation_id := "inv-1"; rs_channel := "mr"; rs_workspace_ref := "w"; rs_session_ref := "s";
     rs_run_id := Some "run-1"; rs_config_version := pc_config_version sample_public;
     rs_deadline_at := 600000000; rs_state := Sending; rs_error := None; rs_result := JNull |}.
Definition answered (status : Z) (body : json) : result derr http_response :=
  Ok {| hr_status := status; hr_instance := Some "i-1"; hr_chunks := [json_dumps body]; hr_ends := None |}.

Definition posts (past : list (event dans)) : nat :=
  length (List.filter (fun ev => match ev with Ev (CHttp q) _ => is_start q | _ => false end) past).
Definition sample_env (past : list (event dans)) (c : dcall) : dans c :=
  match c with
  | CClosed => false
  | CClock => Some (Z.of_nat (length past) * 1000000)
  | CGateway => negb (Nat.eqb (posts past) 1)
  | CWaitGateway _ => Ok true
  | CEnsure _ _ _ => Ok pod
  | CPrepare _ _ => Ok (Some the_request)
  | CHttp q =>
      if is_start q then
        match posts past with
        | 0%nat => Err ConnectFailed
        | 1%nat => Err TransportError
        | _ => answered 202 (Started_dump the_receipt)
        end
      else answered 200 (RunStatus_dump sample_dump the_record)
  | CReportLost _ | CAlarm => tt
  | CSleep _ => false
  end.
Definition sample_run := play sample_env (start sample_dump no_floats 1300 sample_public the_ticket) [].

Example the_delivery_starts : snd sample_run = Ok the_receipt /\ posts (fst sample_run) = 3%nat.
Proof. vm_compute. split; reflexivity. Qed.

Lemma start_sends_once_witness :
  exists s, watch (audit sample_dump no_floats) (None, Unsent) (fst sample_run) = Goes s
    /\ told no_floats the_ticket (pc_config_version sample_public) s (Ok the_receipt).
Proof.
  pose proof (start_sends_once sample_dump no_floats 1300 sample_public the_ticket (fst sample_run) (snd sample_run)
    (play_runs sample_env _ [])) as H.
  assert (snd sample_run = Ok the_receipt) as Hr by (vm_compute; reflexivity). rewrite Hr in H.
  destruct (watch (audit sample_dump no_floats) (None, Unsent) (fst sample_run)) as [s| |] eqn:E.
  - exists s. split; [reflexivity|exact H].
  - destruct H.
  - vm_compute in E. discriminate E.
Defined.

Lemma start_ends_witness :
  match watch timed 0 (fst sample_run) with Never => True | _ => snd sample_run <> Err OutOfFuel end
  /\ match watch timed 0 (fst sample_run) with Goes _ => True | _ => False end.
Proof.
  split; [|vm_compute; exact I].
  apply (start_ends sample_dump no_floats 1300 sample_public the_ticket (fst sample_run) (snd sample_run) 0);
    [lia|reflexivity|exact (play_runs sample_env _ [])].
Defined.

(** The deadline passes while the request is prepared: nothing is sent, and the result is the
    error of a send that may have arrived. *)
Definition late_env (past : list (event dans)) (c : dcall) : dans c :=
  match c with
  | CClock => Some (if existsb (fun ev => match ev with Ev (CPrepare _ _) _ => true | _ => false end) past
                    then 600000000 else 0)
  | c => sample_env past c
  end.
Lemma expired_before_send_is_unknown :
  let late := play late_env (start sample_dump no_floats 1300 sample_public the_ticket) [] in
  snd late = Err StartOutcomeUnknown
  /\ forallb (fun ev => match ev with Ev (CHttp _) _ => false | _ => true end) (fst late) = true.
Proof.
  vm_compute. split; reflexivity.
Qed.
