(* ===== verification/Lifecycle.v ===== *)
(** * harness/lifecycle.py: saving sessions and closing idle Workspaces

    The methods of [Lifecycle] as programs over the calls they make to the mini-harness, the
    Workspace manager, admission, storage and the clocks.  The maps of the object are the state
    a program carries: one tick of a Workspace holds its lock, so the entries of that Workspace
    are its own while it runs.  Metrics and log lines are left out. *)

From stdpp Require Import fin_sets gmap.
From S2P Require Import Prelude Sha256 PyJson Config Public StateRefs Effects Traces Storage Wire Delivery.
Local Open Scope Z_scope.

(** The exceptions told apart, and the two marks the code leaves on an exception object. *)
Inductive lclass :=
  | SnapshotTransientFailure | LTimeout | LTransport | LStatus (code : Z)
  | LRuntimeError | LUnavailable | LOther | LCancelled | LFuel.
#[export] Instance lclass_eq_dec : EqDecision lclass.
Proof. solve_decision. Defined.
Record lexn := { lx_class : lclass; lx_reported : bool; lx_retire_pending : bool }.
Definition lx (c : lclass) : lexn := {| lx_class := c; lx_reported := false; lx_retire_pending := false |}.
(** [except Exception] *)
Definition is_exception (x : lexn) : bool := negb (bool_decide (lx_class x = LCancelled)).
Definition mark_reported (x : lexn) : lexn :=
  {| lx_class := lx_class x; lx_reported := true; lx_retire_pending := lx_retire_pending x |}.
Definition _mark_retire_pending (x : lexn) : lexn :=
  {| lx_class := lx_class x; lx_reported := lx_reported x; lx_retire_pending := true |}.

(** ** State *)

Abbreviation skey := (string * string * string)%type. (* workspace, session, instance *)
Record lstate := mkL {
  l_leases : gmap (string * option string * string) WriterLease;  (* _leases *)
  l_bases : gmap (string * option string) (option string);        (* _bases *)
  l_last_session : gmap (string * string) Z;                      (* _last_session *)
  l_last_workspace : gmap string Z;                               (* _last_workspace *)
  l_failed_sessions : gset skey;                                  (* _failed_session_saves *)
  l_failed_workspaces : gset (string * string);                   (* _failed_workspace_saves *)
  l_session_retry : gmap skey Z;                                  (* _failed_session_retry_at *)
  l_workspace_retry : gmap (string * string) Z;                   (* _failed_workspace_retry_at *)
  l_confirmed : gset skey;                                        (* _confirmed_session_closes *)
  l_pending_retire : gset skey;                                   (* _pending_session_retire *)
  l_saw_activity : bool                                           (* _saw_activity *)
}.
Definition set_leases v s := mkL v (l_bases s) (l_last_session s) (l_last_workspace s) (l_failed_sessions s)
  (l_failed_workspaces s) (l_session_retry s) (l_workspace_retry s) (l_confirmed s) (l_pending_retire s) (l_saw_activity s).
Definition set_bases v s := mkL (l_leases s) v (l_last_session s) (l_last_workspace s) (l_failed_sessions s)
  (l_failed_workspaces s) (l_session_retry s) (l_workspace_retry s) (l_confirmed s) (l_pending_retire s) (l_saw_activity s).
Definition set_last_session v s := mkL (l_leases s) (l_bases s) v (l_last_workspace s) (l_failed_sessions s)
  (l_failed_workspaces s) (l_session_retry s) (l_workspace_retry s) (l_confirmed s) (l_pending_retire s) (l_saw_activity s).
Definition set_last_workspace v s := mkL (l_leases s) (l_bases s) (l_last_session s) v (l_failed_sessions s)
  (l_failed_workspaces s) (l_session_retry s) (l_workspace_retry s) (l_confirmed s) (l_pending_retire s) (l_saw_activity s).
Definition set_failed_sessions v s := mkL (l_leases s) (l_bases s) (l_last_session s) (l_last_workspace s) v
  (l_failed_workspaces s) (l_session_retry s) (l_workspace_retry s) (l_confirmed s) (l_pending_retire s) (l_saw_activity s).
Definition set_failed_workspaces v s := mkL (l_leases s) (l_bases s) (l_last_session s) (l_last_workspace s)
  (l_failed_sessions s) v (l_session_retry s) (l_workspace_retry s) (l_confirmed s) (l_pending_retire s) (l_saw_activity s).
Definition set_session_retry v s := mkL (l_leases s) (l_bases s) (l_last_session s) (l_last_workspace s)
  (l_failed_sessions s) (l_failed_workspaces s) v (l_workspace_retry s) (l_confirmed s) (l_pending_retire s) (l_saw_activity s).
Definition set_workspace_retry v s := mkL (l_leases s) (l_bases s) (l_last_session s) (l_last_workspace s)
  (l_failed_sessions s) (l_failed_workspaces s) (l_session_retry s) v (l_confirmed s) (l_pending_retire s) (l_saw_activity s).
Definition set_confirmed v s := mkL (l_leases s) (l_bases s) (l_last_session s) (l_last_workspace s)
  (l_failed_sessions s) (l_failed_workspaces s) (l_session_retry s) (l_workspace_retry s) v (l_pending_retire s) (l_saw_activity s).
Definition set_pending_retire v s := mkL (l_leases s) (l_bases s) (l_last_session s) (l_last_workspace s)
  (l_failed_sessions s) (l_failed_workspaces s) (l_session_retry s) (l_workspace_retry s) (l_confirmed s) v (l_saw_activity s).
Definition set_saw_activity v s := mkL (l_leases s) (l_bases s) (l_last_session s) (l_last_workspace s)
  (l_failed_sessions s) (l_failed_workspaces s) (l_session_retry s) (l_workspace_retry s) (l_confirmed s) (l_pending_retire s) v.

(** ** Calls *)

(** The requests to the mini-harness, with what goes on the wire; the archive of the Workspace
    or of a session. *)
Inductive mini_request :=
  | Healthz | Sessions | Prune (days : option Z)
  | SessionInfo (session : string) | SessionSuspend (session : string) | SessionRetire (session : string)
  | SessionResume (session deadline_iso : string).
Definition session_path (session suffix : string) : string := "/sessions/" +:+ session +:+ suffix.
Definition mini_wire (r : mini_request) : string * string * json :=
  match r with
  | Healthz => ("GET", "/healthz", JNull)
  | Sessions => ("GET", "/sessions", JNull)
  | Prune days => ("POST", "/sessions/prune",
                   JObj [("retentionDays", match days with Some d => JInt d | None => JNull end)])
  | SessionInfo s => ("GET", session_path s "/info", JNull)
  | SessionSuspend s => ("POST", session_path s "/suspend", JNull)
  | SessionRetire s => ("POST", session_path s "/retire", JNull)
  | SessionResume s t => ("POST", session_path s "/resume", JObj [("deadlineAt", JStr t)])
  end.
Definition archive_path (session : option string) : string :=
  match session with Some s => session_path s "/archive" | None => "/workspace/archive" end.

Inductive lcall :=
  | LActive (w : string)                                    (* manager.active_endpoint(w) *)
  | LMini (e : WorkspaceEndpoint) (r : mini_request)        (* control._mini_json of mini_wire r *)
  | LGateway                                                (* manager.gateway_available() *)
  | LRecover (e : WorkspaceEndpoint)                        (* manager.recover(e.ref, e.instance_id) *)
  | LClose (e : WorkspaceEndpoint)                          (* manager.close(e.ref) *)
  | LListRuns (e : WorkspaceEndpoint)                       (* delivery.list_runs(e) *)
  | LHasWork (w : string) (session : option string)         (* admission.has_work *)
  | LMono                                                   (* time.monotonic() *)
  | LAlarm
  | LSleep (d : Z)
  | LAcquire (r : StateRef) (instance : string)             (* storage.acquire_writer *)
  | LUuid                                                   (* uuid.uuid4().hex *)
  | LNewArchive | LUnlink                                   (* the temporary file *)
  | LExport (e : WorkspaceEndpoint) (archive : option string) (timeout : option Z)
      (* get_archive of archive_path: into the file, or drained when there is no timeout *)
  | LDigest                                                 (* checksum and size of the file *)
  | LPersist (r : StateRef) (snapshot : string) (lease : WriterLease) (base : option string)
      (days : option Z) (timeout : Z)                       (* storage.persist *)
  | LHook (e : WorkspaceEndpoint) (phase : string) (restored : bool)   (* control.run_workspace_hook *)
  | LRestore (r : StateRef) (days : option Z)               (* storage.restore: the etag restored *)
  | LPut (e : WorkspaceEndpoint) (archive : option string). (* put_archive of archive_path *)
Definition lans (c : lcall) : Type :=
  match c with
  | LActive _ => option WorkspaceEndpoint
  | LMini _ _ => result lclass (Z * json)
  | LGateway => bool
  | LRecover _ | LClose _ | LNewArchive | LUnlink | LExport _ _ _ | LHook _ _ _ | LPut _ _ => result lclass unit
  | LListRuns _ => result lclass (list RunStatus)
  | LHasWork _ _ => bool
  | LMono => Z
  | LAlarm => unit
  | LSleep _ => bool                                        (* cancelled *)
  | LAcquire _ _ => result lclass WriterLease
  | LUuid => string
  | LDigest => result lclass (string * Z)
  | LPersist _ _ _ _ _ _ => result lclass PersistReceipt
  | LRestore _ _ => result lclass (option (option string))
  end.

(** Programs that carry the state, which an exception does not undo. *)
Definition lp (A : Type) : Type := lstate -> prog lans (lstate * lexn) (lstate * A).
Definition lret {A} (a : A) : lp A := fun s => Done (Ok (s, a)).
Definition lthrow {A} (x : lexn) : lp A := fun s => Done (Err (s, x)).
Definition lask (c : lcall) : lp (lans c) := fun s => Call c (fun a => Done (Ok (s, a))).
Definition lget : lp lstate := fun s => Done (Ok (s, s)).
Definition lmod (f : lstate -> lstate) : lp unit := fun s => Done (Ok (f s, tt)).
Definition lbind {A B} (p : lp A) (f : A -> lp B) : lp B := fun s =>
  prog_run (p s) (fun r => match r with Ok (s, a) => f a s | Err e => Done (Err e) end).
Definition ltry {A} (p : lp A) (h : lexn -> lp A) : lp A := fun s =>
  prog_run (p s) (fun r => match r with Ok a => Done (Ok a) | Err (s, x) => h x s end).
(** [try: p finally: q] *)
Definition lfinally {A} (p : lp A) (q : lp unit) : lp A := fun s =>
  prog_run (p s) (fun r =>
    let s := match r with Ok (s, _) | Err (s, _) => s end in
    prog_run (q s) (fun r' => match r' with
      | Err e => Done (Err e)
      | Ok (s, _) => Done (match r with Ok (_, a) => Ok (s, a) | Err (_, x) => Err (s, x) end)
      end)).
#[global] Instance lp_ret : MRet lp := @lret.
#[global] Instance lp_bind : MBind lp := fun A B f p => lbind p f.
Definition llift {A} (r : result lclass A) : lp A :=
  match r with Ok a => lret a | Err c => lthrow (lx c) end.

(** [self._alarm(reason)], and [_report_failure]: the error counts as reported. *)
Definition lalarm : lp unit := _ ← lask LAlarm; lret tt.
Definition _report_failure {A} (x : lexn) : lp A := _ ← lalarm; lthrow (mark_reported x).

Section lifecycle.
Context (config : RuntimeConfig).
(** [float(v)] of an [idleSeconds], in microseconds. *)
Context (py_seconds : json -> result lclass Z).
Let workspace := rc_workspace config.
Let persistence := per_type (ws_persistence workspace).
Abbreviation sec := (Z.mul 1000000).

Definition mini (e : WorkspaceEndpoint) (q : mini_request) : lp (Z * json) :=
  r ← lask (LMini e q); llift r.
Definition _ref (e : WorkspaceEndpoint) (domain : string) (session : option string) : lp StateRef :=
  llift (match new_StateRef (fun _ => Err ValueError) (LiveInput (rc_agent config))
                 (wr_workspace_ref (we_ref e)) domain session with
         | Ok r => Ok r | Err _ => Err LOther end).
Definition workspace_of (e : WorkspaceEndpoint) : string := wr_workspace_ref (we_ref e).

(** ** One close: capture an archive, commit it *)

Definition _retryable_archive_error (x : lexn) : bool :=
  match lx_class x with
  | LTransport | LTimeout => true
  | LStatus code => existsb (Z.eqb code) [408; 429; 500; 502; 503; 504]
  | _ => false
  end.
Definition _CLOSE_ARCHIVE_BYTES : Z := 2 * 1024 ^ 3.

(** [retry_wait]: the next delay. *)
Definition retry_wait (deadline delay : Z) : lp Z :=
  now ← lask LMono;
  let remaining := deadline - now in
  if remaining <=? 0 then lthrow (lx SnapshotTransientFailure) else
  cancelled ← lask (LSleep (Z.min delay (Z.min (sec 30) remaining)));
  if cancelled : bool then lthrow (lx LCancelled) else
  now ← lask LMono;
  if deadline - now <=? 0 then lthrow (lx SnapshotTransientFailure)
  else lret (Z.min (delay * 2) (sec 30)).

Fixpoint export_loop (fuel : nat) (e : WorkspaceEndpoint) (archive : option string) (deadline delay : Z) : lp Z :=
  match fuel with
  | O => lthrow (lx LFuel)
  | S fuel =>
      now ← lask LMono;
      let remaining := deadline - now in
      if remaining <=? 0 then lthrow (lx SnapshotTransientFailure) else
      again ← ltry (r ← lask (LExport e archive (Some remaining)); _ ← llift r; lret None)
                   (fun x => if negb (is_exception x) || negb (_retryable_archive_error x) then lthrow x
                             else delay ← retry_wait deadline delay; lret (Some delay));
      match again with None => lret delay | Some delay => export_loop fuel e archive deadline delay end
  end.

(** A receipt is accepted only for exactly this close. *)
Definition receipt_valid (receipt : PersistReceipt) (ref : StateRef) (snapshot : string) (lease : WriterLease)
    (checksum : string) (size : Z) : bool :=
  bool_decide (pr_ref receipt = ref) && String.eqb (pr_snapshot_id receipt) snapshot
  && (pr_writer_epoch receipt =? wl_epoch lease) && truthy (pr_etag receipt)
  && (0 <? pr_generation receipt) && (0 <? pr_version receipt)
  && String.eqb (pr_checksum receipt) checksum && (pr_size receipt =? size).
Fixpoint persist_loop (fuel : nat) (ref : StateRef) (snapshot : string) (lease : WriterLease)
    (base : option string) (days : option Z) (checksum : string) (size deadline delay : Z) : lp PersistReceipt :=
  match fuel with
  | O => lthrow (lx LFuel)
  | S fuel =>
      now ← lask LMono;
      let remaining := deadline - now in
      if remaining <=? 0 then lthrow (lx SnapshotTransientFailure) else
      again ← ltry (r ← lask (LPersist ref snapshot lease base days remaining);
                    receipt ← llift r;
                    if negb (receipt_valid receipt ref snapshot lease checksum size) then lthrow (lx LRuntimeError)
                    else _ ← lmod (fun s => set_bases
                               (<[(sr_workspace_ref ref, sr_session_ref ref) := Some (pr_etag receipt)]> (l_bases s)) s);
                         lret (inl receipt))
                   (fun x => match lx_class x with
                             | SnapshotTransientFailure | LTimeout =>
                                 delay ← retry_wait deadline delay; lret (inr delay)
                             | _ => lthrow x
                             end);
      match again with
      | inl receipt => lret receipt
      | inr delay => persist_loop fuel ref snapshot lease base days checksum size deadline delay
      end
  end.

(** The lease of a domain on this instance, acquired once; the base its next commit expects. *)
Definition close_lease (ref : StateRef) (instance : string) : lp WriterLease :=
  s ← lget;
  let key := (sr_workspace_ref ref, sr_session_ref ref, instance) in
  match l_leases s !! key with
  | Some lease => lret lease
  | None =>
      r ← lask (LAcquire ref instance); lease ← llift r;
      _ ← lmod (fun s => set_leases (<[key := lease]> (l_leases s)) s); lret lease
  end.
Definition close_base (ref : StateRef) (lease : WriterLease) : lp (option string) :=
  let key := (sr_workspace_ref ref, sr_session_ref ref) in
  _ ← lmod (fun s => match l_bases s !! key with
                     | Some _ => s
                     | None => set_bases (<[key := wl_base_etag lease]> (l_bases s)) s end);
  s ← lget; lret (default None (l_bases s !! key)).
Definition _persist_close (fuel : nat) (e : WorkspaceEndpoint) (ref : StateRef) (archive : option string)
    (days : option Z) : lp PersistReceipt :=
  now ← lask LMono;
  let deadline := now + sec (ws_shutdown_timeout_seconds workspace) in
  snapshot ← lask LUuid;
  lease ← close_lease ref (we_instance_id e);
  base ← close_base ref lease;
  r ← lask LNewArchive; _ ← llift r;
  lfinally
    (delay ← export_loop fuel e archive deadline (sec 1);
     r ← lask LDigest; '(checksum, size) ← llift r;
     persist_loop fuel ref snapshot lease base days checksum size deadline delay)
    (r ← lask LUnlink; llift r).

(** ** The manager's callbacks *)

(** A hook or a prune that fails is alarmed and never blocks. *)
Definition or_alarm (p : lp unit) : lp unit :=
  ltry p (fun x => if is_exception x then lalarm else lthrow x).
Definition and_alarm {A} (p : lp A) : lp A :=
  ltry p (fun x => if is_exception x then (_ ← lalarm; lthrow x) else lthrow x).
(** [isinstance(body, dict) and body.get("status") == word] *)
Definition body_is (k word : string) (body : json) : bool :=
  match body with JObj d => match assoc k d with Some (JStr v) => String.eqb v word | _ => false end | _ => false end.
Definition _prune_sessions (e : WorkspaceEndpoint) : lp unit :=
  or_alarm (
    '(status, body) ← mini e (Prune (session_retention_days workspace));
    if negb (status =? 200) || negb (body_is "status" "ok" body) then lthrow (lx LRuntimeError) else lret tt).
Definition adopt_lease (ref : StateRef) (e : WorkspaceEndpoint) : lp unit :=
  r ← lask (LAcquire ref (we_instance_id e)); lease ← llift r;
  lmod (fun s => set_bases (<[(sr_workspace_ref ref, sr_session_ref ref) := wl_base_etag lease]> (l_bases s))
          (set_leases (<[(sr_workspace_ref ref, sr_session_ref ref, we_instance_id e) := lease]> (l_leases s)) s)).
Definition _restore_workspace_archive (e : WorkspaceEndpoint) : lp bool :=
  ref ← _ref e DOMAIN_WORKSPACE None;
  and_alarm (
    r ← lask (LRestore ref (per_retention_days (ws_persistence workspace))); receipt ← llift r;
    _ ← match receipt with
        | Some etag =>
            r ← lask (LPut e None); _ ← llift r;
            lmod (fun s => set_bases (<[(sr_workspace_ref ref, None) := etag]> (l_bases s)) s)
        | None => lret tt
        end;
    _ ← adopt_lease ref e;
    lret (match receipt with Some _ => true | None => false end)).
Definition run_hook (e : WorkspaceEndpoint) (phase : string) (restored : bool) : lp unit :=
  or_alarm (r ← lask (LHook e phase restored); llift r).
Definition restore_workspace (e : WorkspaceEndpoint) : lp unit :=
  restored ← match persistence with
             | P_s3 => _restore_workspace_archive e
             | P_volume => _ ← _prune_sessions e; lret false
             | P_none => lret false
             end;
  run_hook e "start" restored.
Definition reported {A} (p : lp A) : lp A :=
  ltry p (fun x => if is_exception x then _report_failure x else lthrow x).
Definition commit_workspace (fuel : nat) (e : WorkspaceEndpoint) : lp (option PersistReceipt) :=
  _ ← run_hook e "stop" false;
  match persistence with
  | P_s3 =>
      ref ← _ref e DOMAIN_WORKSPACE None;
      receipt ← reported (_persist_close fuel e ref None (per_retention_days (ws_persistence workspace)));
      lret (Some receipt)
  | _ => lret None
  end.

(** ** Restoring a session *)

Definition dict_get (k : string) (j : json) : json := match j with JObj d => default JNull (assoc k d) | _ => JNull end.
Definition _resume_session (session deadline_iso : string) (e : WorkspaceEndpoint) : lp unit :=
  and_alarm (
    '(status, body) ← mini e (SessionResume session deadline_iso);
    if negb (status =? 200) || negb (body_is "status" "live" body || body_is "status" "fresh" body || body_is "status" "resumed" body)
    then lthrow (lx LRuntimeError) else lret tt).
Definition restore_session (session deadline_iso : string) (e : WorkspaceEndpoint) : lp unit :=
  match persistence with
  | P_volume => _resume_session session deadline_iso e
  | P_none => lret tt
  | P_s3 =>
      ref ← _ref e DOMAIN_SESSION (Some session);
      and_alarm (
        '(status, info) ← mini e (SessionInfo session);
        if (status =? 200) && is_dict info && (json_truthy (dict_get "active" info) || json_truthy (dict_get "initialized" info))
        then lret tt
        else if negb ((status =? 200) && is_dict info) && negb (status =? 404) then lthrow (lx LRuntimeError)
        else
          r ← lask (LRestore ref (session_retention_days workspace)); receipt ← llift r;
          match receipt with
          | None => lret tt
          | Some _ => r ← lask (LPut e (Some session)); _ ← llift r; adopt_lease ref e
          end)
  end.

(** ** Saving a session *)

Definition _report_suspend_hook (e : WorkspaceEndpoint) (session : string) : lp unit :=
  info ← ltry (r ← mini e (SessionInfo session); lret (Some r))
              (fun x => if is_exception x then lret None else lthrow x);
  match info with
  | Some (200, JObj d) => match assoc "suspendHookFailed" d with Some (JBool true) => lalarm | _ => lret tt end
  | _ => lret tt
  end.
Definition _suspend_session (e : WorkspaceEndpoint) (session : string) : lp unit :=
  reported (
    '(status, body) ← mini e (SessionSuspend session);
    if negb (status =? 200) || negb (body_is "status" "suspended" body) then lthrow (lx LRuntimeError) else lret tt).
Definition _retire_session (e : WorkspaceEndpoint) (session : string) : lp unit :=
  '(status, body) ← ltry (mini e (SessionRetire session))
     (fun x => if is_exception x then _report_failure (_mark_retire_pending x) else lthrow x);
  if negb (status =? 200) || negb (body_is "status" "retired" body) || negb (body_is "sessionRef" session body)
  then _report_failure (_mark_retire_pending (lx LRuntimeError)) else lret tt.
Definition _save_session (fuel : nat) (e : WorkspaceEndpoint) (session : string) : lp unit :=
  match persistence with
  | P_volume => _ ← _suspend_session e session; _report_suspend_hook e session
  | P_none =>
      _ ← _ref e DOMAIN_SESSION (Some session);
      _ ← reported (r ← lask (LExport e (Some session) None); llift r);
      _ ← _report_suspend_hook e session; _retire_session e session
  | P_s3 =>
      ref ← _ref e DOMAIN_SESSION (Some session);
      _ ← reported (_persist_close fuel e ref (Some session) (session_retention_days workspace));
      _ ← _report_suspend_hook e session; _retire_session e session
  end.

(** Whether the session is saved; a failed one is retried later, a committed one only retired. *)
Definition _attempt_session_save (fuel : nat) (e : WorkspaceEndpoint) (session : string) (key : skey) : lp bool :=
  ltry
    (s ← lget;
     _ ← (if bool_decide (key ∈ l_pending_retire s) then _retire_session e session else _save_session fuel e session);
     _ ← lmod (fun s => set_session_retry (delete key (l_session_retry s))
                 (set_failed_sessions (l_failed_sessions s ∖ {[key]})
                    (set_pending_retire (l_pending_retire s ∖ {[key]}) s)));
     lret true)
    (fun x =>
      if negb (is_exception x) then lthrow x else
      _ ← lmod (fun s => set_failed_sessions ({[key]} ∪ l_failed_sessions s) s);
      _ ← (if lx_retire_pending x then lmod (fun s => set_pending_retire ({[key]} ∪ l_pending_retire s) s) else lret tt);
      _ ← (if bool_decide (lx_class x = SnapshotTransientFailure) || lx_retire_pending x then
             now ← lask LMono;
             lmod (fun s => set_session_retry (<[key := now + sec 30]> (l_session_retry s)) s)
           else lret tt);
      _ ← (if lx_reported x then lret tt else lalarm);
      lret false).

(** ** One tick of one Workspace *)

Definition _ensure_workspace_writer (e : WorkspaceEndpoint) : lp unit :=
  match persistence with
  | P_s3 =>
      s ← lget;
      if bool_decide (is_Some (l_leases s !! (workspace_of e, None, we_instance_id e))) then lret tt
      else ref ← _ref e DOMAIN_WORKSPACE None; adopt_lease ref e
  | _ => lret tt
  end.
(** [retry_at is None or time.monotonic() < retry_at] *)
Definition cooling (retry_at : option Z) : lp bool :=
  match retry_at with None => lret true | Some t => now ← lask LMono; lret (now <? t) end.
Definition ended (s : RunState) : bool :=
  match s with Completed | Failed | Wire.Cancelled | Skipped => true | _ => false end.
Definition drop_confirmed (key : skey) : lp unit := lmod (fun s => set_confirmed (l_confirmed s ∖ {[key]}) s).
Definition confirm (key : skey) : lp unit := lmod (fun s => set_confirmed ({[key]} ∪ l_confirmed s) s).

(** What a session's tick finds: busy, uncertain, or quiet. *)
Inductive session_tick := Busy | Uncertain | Quiet.
#[global] Instance session_tick_eq_dec : EqDecision session_tick.
Proof using Type. solve_decision. Defined.

(** A session without work whose last save did not fail recently. *)
Definition save_if_due (fuel : nat) (e : WorkspaceEndpoint) (now : Z) (session : string) (info : json) : lp session_tick :=
  let w := workspace_of e in
  let key := (w, session, we_instance_id e) in
  if json_truthy (dict_get "active" info) then
    _ ← drop_confirmed key;
    idle_seconds ← llift (py_seconds (json_or (dict_get "idleSeconds" info) (JInt 0)));
    s ← lget;
    let last := default (now - idle_seconds) (l_last_session s !! (w, session)) in
    _ ← lmod (fun s => set_last_session (<[(w, session) := last]> (l_last_session s)) s);
    if sec (ses_idle_timeout_seconds (ws_session workspace)) <=? now - last then
      saved ← _attempt_session_save fuel e session key;
      if negb saved then lret Busy else
      _ ← (if bool_decide (persistence = P_s3) then confirm key else lret tt);
      _ ← lmod (fun s => set_last_session (delete (w, session) (l_last_session s)) s);
      lret Busy
    else lret Busy
  else
    _ ← lmod (fun s => set_last_session (delete (w, session) (l_last_session s)) s);
    s ← lget;
    let due := match persistence with
               | P_volume => json_truthy (dict_get "needsSuspend" info)
               | P_s3 => (json_truthy (dict_get "initialized" info) || json_truthy (dict_get "nativeSessionId" info))
                         && negb (bool_decide (key ∈ l_confirmed s))
               | P_none => false
               end in
    if due then
      saved ← _attempt_session_save fuel e session key;
      if negb saved then lret Busy else _ ← confirm key; lret Quiet
    else lret Quiet.

Definition tick_session (fuel : nat) (e : WorkspaceEndpoint) (now : Z) (runs : list RunStatus) (item : json) :
    lp session_tick :=
  match item with
  | JObj d =>
      match assoc "sessionRef" d with
      | Some (JStr session) =>
          let w := workspace_of e in
          '(info_status, info) ← mini e (SessionInfo session);
          if negb (info_status =? 200) || negb (is_dict info) then lthrow (lx LRuntimeError) else
          let key := (w, session, we_instance_id e) in
          if json_truthy (dict_get "uncertain" info) then _ ← drop_confirmed key; lret Uncertain else
          has_work ← lask (LHasWork w (Some session));
          let has_run := existsb (fun r => String.eqb (rs_session_ref r) session && negb (ended (rs_state r))) runs in
          if (has_work : bool) || has_run then
            _ ← lmod (set_saw_activity true);
            _ ← drop_confirmed key;
            _ ← lmod (fun s => set_last_session (<[(w, session) := now]> (l_last_session s)) s);
            lret Busy
          else
            s ← lget;
            if bool_decide (key ∈ l_failed_sessions s) then
              cool ← cooling (l_session_retry s !! key);
              if cool : bool then lret Busy
              else
                _ ← lmod (fun s => set_session_retry (delete key (l_session_retry s))
                            (set_failed_sessions (l_failed_sessions s ∖ {[key]}) s));
                save_if_due fuel e now session info
            else save_if_due fuel e now session info
      | _ => lthrow (lx LRuntimeError)
      end
  | _ => lthrow (lx LRuntimeError)
  end.
Fixpoint tick_sessions (fuel : nat) (e : WorkspaceEndpoint) (now : Z) (runs : list RunStatus) (items : list json) :
    lp (list session_tick) :=
  match items with
  | [] => lret []
  | item :: items => t ← tick_session fuel e now runs item; ts ← tick_sessions fuel e now runs items; lret (t :: ts)
  end.

(** The Workspace has no busy session: it is closed after its idle time. *)
Definition close_if_idle (e : WorkspaceEndpoint) (now : Z) : lp unit :=
  let w := workspace_of e in
  let key := (w, we_instance_id e) in
  s ← lget;
  let last := default now (l_last_workspace s !! w) in
  _ ← lmod (fun s => set_last_workspace (<[w := last]> (l_last_workspace s)) s);
  if negb (sec (ws_idle_timeout_seconds workspace) <=? now - last) then lret tt else
  closed ← ltry (r ← lask (LClose e); _ ← llift r; lret true)
    (fun x =>
      if negb (is_exception x) then lthrow x else
      _ ← lmod (fun s => set_failed_workspaces ({[key]} ∪ l_failed_workspaces s) s);
      _ ← (if bool_decide (lx_class x = SnapshotTransientFailure) then
             now ← lask LMono;
             lmod (fun s => set_workspace_retry (<[key := now + sec 30]> (l_workspace_retry s)) s)
           else lret tt);
      _ ← (if lx_reported x then lret tt else lalarm);
      lret false);
  if negb closed then lret tt
  else lmod (fun s => set_last_workspace (delete w (l_last_workspace s))
               (set_workspace_retry (delete key (l_workspace_retry s))
                  (set_failed_workspaces (l_failed_workspaces s ∖ {[key]}) s))).

(** The inventory of the sessions, each handled in turn, then the Workspace itself. *)
Definition tick_inventory (fuel : nat) (e : WorkspaceEndpoint) (now : Z) : lp unit :=
  '(status, sessions) ← mini e Sessions;
  match sessions with
  | JList items =>
      if negb (status =? 200) then lthrow (lx LRuntimeError) else
      r ← lask (LListRuns e); runs ← llift r;
      ticks ← tick_sessions fuel e now runs items;
      queued ← lask (LHasWork (workspace_of e) None);
      let uncertain := existsb (fun t => bool_decide (t = Uncertain)) ticks in
      if existsb (fun t => bool_decide (t = Busy)) ticks || uncertain || (queued : bool) then
        lmod (fun s => set_last_workspace (delete (workspace_of e) (l_last_workspace s))
                (set_saw_activity (l_saw_activity s || uncertain || queued) s))
      else close_if_idle e now
  | _ => lthrow (lx LRuntimeError)
  end.
(** The pod answered: nothing is done while a failed close cools down, or without the writer. *)
Definition tick_healthy (fuel : nat) (w : string) (e : WorkspaceEndpoint) (now : Z) : lp unit :=
  s ← lget;
  let key := (w, we_instance_id e) in
  cool ← (if bool_decide (key ∈ l_failed_workspaces s) then cooling (l_workspace_retry s !! key) else lret false);
  if cool : bool then lret tt else
  writer ← ltry (_ ← _ensure_workspace_writer e; lret true)
                (fun x => if is_exception x then _ ← lalarm; lret false else lthrow x);
  if negb writer then lret tt else tick_inventory fuel e now.
Definition _tick_workspace (fuel : nat) (w : string) (e : WorkspaceEndpoint) (now : Z) : lp unit :=
  active ← lask (LActive w);
  if negb (bool_decide (active = Some e)) then lret tt else
  health ← ltry ('(status, _) ← mini e Healthz; lret (Some status))
                (fun x => if is_exception x then lret None else lthrow x);
  if negb (bool_decide (health = Some 200)) then
    gateway ← lask LGateway;
    if negb gateway then lret tt
    else _ ← lmod (set_saw_activity true); r ← lask (LRecover e); llift r
  else tick_healthy fuel w e now.
End lifecycle.
