(* ===== verification/LifecycleProps.v ===== *)
(** * harness/lifecycle.py: a Workspace is closed only when nothing is left to save

    [patrol] watches the calls of one tick of a Workspace: which sessions were seen idle, whose
    archive the temporary file holds, which sessions were committed the way the persistence of
    the Workspace asks for, which were confirmed retired or suspended.  [tick_guards]: no run of
    a tick exports or suspends a busy session, retires one that is not committed, or closes a
    Workspace with a session that is busy or still has something to save. *)

From stdpp Require Import fin_sets gmap.
From S2P Require Import Prelude Sha256 PyJson Config ConfigFacts Public StateRefs Effects Traces Storage Wire Delivery Lifecycle.
Local Open Scope Z_scope.

(** ** Rules for programs that carry the state *)

Section rules.
Context {M : Type} (next : M -> event lans -> verdict M).
Definition lobeys {A} (p : lp A) (Q : M -> lstate -> result lexn A -> Prop) (m : M) (s : lstate) : Prop :=
  obeys next (p s) (fun m r => match r with Ok (s, a) => Q m s (Ok a) | Err (s, x) => Q m s (Err x) end) m.

Lemma lobeys_bind {A B} (p : lp A) (f : A -> lp B) Q m s :
  lobeys p (fun m s r => match r with Ok a => lobeys (f a) Q m s | Err x => Q m s (Err x) end) m s ->
  lobeys (p ≫= f) Q m s.
Proof. intros H. apply obeys_run. eapply obeys_mono; [exact H|]. by intros m' [[s' a]|[s' x]]. Qed.
Lemma lobeys_try {A} (p : lp A) (h : lexn -> lp A) Q m s :
  lobeys p (fun m s r => match r with Ok a => Q m s (Ok a) | Err x => lobeys (h x) Q m s end) m s ->
  lobeys (ltry p h) Q m s.
Proof. intros H. apply obeys_run. eapply obeys_mono; [exact H|]. by intros m' [[s' a]|[s' x]]. Qed.
Lemma lobeys_finally {A} (p : lp A) (q : lp unit) Q m s :
  lobeys p (fun m s r => lobeys q (fun m s r' => Q m s (match r' with Ok _ => r | Err x => Err x end)) m s) m s ->
  lobeys (lfinally p q) Q m s.
Proof.
  intros H. apply obeys_run. eapply obeys_mono; [exact H|].
  intros m' [[s' a]|[s' x]] H'; apply obeys_run; (eapply obeys_mono; [exact H'|]); by intros m2 [[s2 []]|[s2 y]].
Qed.
Lemma lobeys_mono {A} (p : lp A) (Q Q' : M -> lstate -> result lexn A -> Prop) m s :
  lobeys p Q m s -> (forall m s r, Q m s r -> Q' m s r) -> lobeys p Q' m s.
Proof. intros H HQ. eapply obeys_mono; [exact H|]. intros m' [[s' a]|[s' x]]; apply HQ. Qed.
Lemma lobeys_ret {A} (a : A) (Q : M -> lstate -> result lexn A -> Prop) m s : Q m s (Ok a) -> lobeys (lret a) Q m s.
Proof. done. Qed.
Lemma lobeys_throw {A} x (Q : M -> lstate -> result lexn A -> Prop) m s : Q m s (Err x) -> lobeys (lthrow x) Q m s.
Proof. done. Qed.
Lemma lobeys_lift {A} (r : result lclass A) (Q : M -> lstate -> result lexn A -> Prop) m s :
  (forall a, r = Ok a -> Q m s (Ok a)) -> (forall c, r = Err c -> Q m s (Err (lx c))) -> lobeys (llift r) Q m s.
Proof. destruct r; intros H1 H2; [by apply H1|by apply H2]. Qed.
Lemma lobeys_mod f (Q : M -> lstate -> result lexn unit -> Prop) m s : Q m (f s) (Ok tt) -> lobeys (lmod f) Q m s.
Proof. done. Qed.
Lemma lobeys_get (Q : M -> lstate -> result lexn lstate -> Prop) m s : Q m s (Ok s) -> lobeys lget Q m s.
Proof. done. Qed.
Lemma lobeys_ask c (Q : M -> lstate -> result lexn (lans c) -> Prop) m s :
  (forall a, match next m (Ev c a) with Goes m => Q m s (Ok a) | Bad => False | Never => True end) ->
  lobeys (lask c) Q m s.
Proof. done. Qed.
End rules.

(** One call whose event the monitor lets pass. *)
Ltac asks := lazymatch goal with |- lobeys _ (lask ?c) _ _ _ => refine (lobeys_ask _ c _ _ _ _) end.

Section patrol.
Context (config : RuntimeConfig) (py_seconds : json -> result lclass Z).
Let workspace := rc_workspace config.
Let persistence := per_type (ws_persistence workspace).

Record patrol_state := mkP {
  k_refs : option (list string);   (* the inventory *)
  k_runs : list RunStatus;
  k_free : gset string;            (* no admitted work and no unfinished run *)
  k_clean : gset string;           (* the last information: nothing to save *)
  k_held : option string;          (* the session whose archive the temporary file holds *)
  k_digest : option (string * string * Z);   (* that session, the checksum and the size of the file *)
  k_committed : gset string;       (* where S3 keeps it: its archive committed; where nothing does: drained *)
  k_saved : gset string;           (* retired or suspended, confirmed *)
  k_unqueued : bool                (* no admitted work of the Workspace *)
}.
Definition patrol_start : patrol_state := mkP None [] ∅ ∅ None None ∅ ∅ false.

(** The tick: of which endpoint, when, and from which state of the [Lifecycle]. *)
Context (e : WorkspaceEndpoint) (now : Z) (s0 : lstate).
Definition key_of (session : string) : skey := (workspace_of e, session, we_instance_id e).

Definition session_of (item : json) : option string :=
  match item with JObj d => match assoc "sessionRef" d with Some (JStr s) => Some s | _ => None end | _ => None end.
(** The information says the session has nothing to save: not uncertain, not live, and
    suspended, empty, or closed by an earlier tick. *)
Definition nothing_to_save (session : string) (info : json) : bool :=
  negb (json_truthy (dict_get "uncertain" info)) && negb (json_truthy (dict_get "active" info))
  && match persistence with
     | P_none => true
     | P_volume => negb (json_truthy (dict_get "needsSuspend" info))
     | P_s3 => negb (json_truthy (dict_get "initialized" info) || json_truthy (dict_get "nativeSessionId" info))
               || bool_decide (key_of session ∈ l_confirmed s0)
     end.
Definition is_over (s : RunState) : bool :=
  match s with
  | Completed | Failed | Wire.Cancelled | Skipped => true
  | Queued | Preparing | Sending | Running | Unknown => false
  end.
Definition unfinished (session : string) (runs : list RunStatus) : bool :=
  existsb (fun r => String.eqb (rs_session_ref r) session && negb (is_over (rs_state r))) runs.
(** The receipt is of this very commit: its owner, snapshot and writer, and of the archive measured. *)
Definition receipt_fits (receipt : PersistReceipt) (ref : StateRef) (snapshot : string) (lease : WriterLease)
    (checksum : string) (size : Z) : Prop :=
  pr_ref receipt = ref /\ pr_snapshot_id receipt = snapshot /\ pr_writer_epoch receipt = wl_epoch lease
  /\ pr_etag receipt <> "" /\ 0 < pr_generation receipt /\ 0 < pr_version receipt
  /\ pr_checksum receipt = checksum /\ pr_size receipt = size.
#[export] Instance receipt_fits_dec receipt ref snapshot lease checksum size :
  Decision (receipt_fits receipt ref snapshot lease checksum size).
Proof. unfold receipt_fits. apply _. Defined.
(** The tick may leave the session as it is. *)
Definition left_alone (m : patrol_state) (session : string) : bool :=
  bool_decide (session ∈ k_free m) && (bool_decide (session ∈ k_saved m) || bool_decide (session ∈ k_clean m)).
Definition may_retire (m : patrol_state) (session : string) : bool :=
  bool_decide (session ∈ k_free m)
  && (bool_decide (session ∈ k_committed m) || bool_decide (key_of session ∈ l_pending_retire s0)).
Definition idle_long : bool :=
  1000000 * ws_idle_timeout_seconds workspace <=? now - default now (l_last_workspace s0 !! workspace_of e).

Definition toggle (b : bool) (x : string) (g : gset string) : gset string := if b then {[x]} ∪ g else g ∖ {[x]}.
Definition ok_if (b : bool) (m : patrol_state) : verdict patrol_state := if b then Goes m else Bad.
Definition seen_info (session : string) (info : json) (m : patrol_state) : patrol_state :=
  mkP (k_refs m) (k_runs m) (k_free m) (toggle (nothing_to_save session info) session (k_clean m))
    (k_held m) (k_digest m) (k_committed m) (k_saved m) (k_unqueued m).
Definition seen_work (session : string) (work : bool) (m : patrol_state) : patrol_state :=
  mkP (k_refs m) (k_runs m) (toggle (negb (work || unfinished session (k_runs m))) session (k_free m)) (k_clean m)
    (k_held m) (k_digest m) (k_committed m) (k_saved m) (k_unqueued m).
Definition holds (held : option string) (digest : option (string * string * Z)) (m : patrol_state) : patrol_state :=
  mkP (k_refs m) (k_runs m) (k_free m) (k_clean m) held digest (k_committed m) (k_saved m) (k_unqueued m).
Definition add_committed (session : string) (m : patrol_state) : patrol_state :=
  mkP (k_refs m) (k_runs m) (k_free m) (k_clean m) (k_held m) (k_digest m) ({[session]} ∪ k_committed m) (k_saved m) (k_unqueued m).
Definition add_saved (session : string) (m : patrol_state) : patrol_state :=
  mkP (k_refs m) (k_runs m) (k_free m) (k_clean m) (k_held m) (k_digest m) (k_committed m) ({[session]} ∪ k_saved m) (k_unqueued m).
Definition patrol_mini (q : mini_request) (a : result lclass (Z * json)) (m : patrol_state) : verdict patrol_state :=
  match q with
  | Sessions =>
      Goes (mkP (match a with Ok (200, JList items) => mapM session_of items | _ => None end)
              (k_runs m) (k_free m) (k_clean m) (k_held m) (k_digest m) (k_committed m) (k_saved m) (k_unqueued m))
  | SessionInfo s => Goes (match a with Ok (200, JObj d) => seen_info s (JObj d) m | _ => m end)
  | SessionSuspend s =>
      ok_if (bool_decide (s ∈ k_free m) && bool_decide (persistence = P_volume))
        (match a with Ok (200, body) => if body_is "status" "suspended" body then add_saved s m else m | _ => m end)
  | SessionRetire s =>
      ok_if (may_retire m s)
        (match a with
         | Ok (200, body) => if body_is "status" "retired" body && body_is "sessionRef" s body then add_saved s m else m
         | _ => m end)
  | SessionResume _ _ | Prune _ => Bad
  | Healthz => Goes m
  end.
Definition patrol (m : patrol_state) (ev : event lans) : verdict patrol_state :=
  match ev with
  | Ev (LMini e' q) a => if bool_decide (e' = e) then patrol_mini q a m else Bad
  | Ev (LListRuns _) (Ok runs) =>
      Goes (mkP (k_refs m) runs (k_free m) (k_clean m) (k_held m) (k_digest m) (k_committed m) (k_saved m) (k_unqueued m))
  | Ev (LHasWork _ (Some session)) work => Goes (seen_work session work m)
  | Ev (LHasWork _ None) work =>
      Goes (mkP (k_refs m) (k_runs m) (k_free m) (k_clean m) (k_held m) (k_digest m) (k_committed m) (k_saved m) (negb work))
  | Ev LNewArchive _ => Goes (holds None None m)
  | Ev (LExport e' (Some session) (Some _)) a =>
      ok_if (bool_decide (e' = e) && bool_decide (session ∈ k_free m) && bool_decide (persistence = P_s3))
        (match a with Ok _ => holds (Some session) None m | Err _ => m end)
  | Ev (LExport e' (Some session) None) a =>
      ok_if (bool_decide (e' = e) && bool_decide (session ∈ k_free m) && bool_decide (persistence = P_none))
        (match a with Ok _ => add_committed session m | Err _ => m end)
  | Ev LDigest (Ok (checksum, size)) =>
      Goes (holds (k_held m) (option_map (fun session => (session, checksum, size)) (k_held m)) m)
  | Ev (LPersist ref snapshot lease _ _ _) a =>
      match sr_session_ref ref, k_digest m with
      | Some session, Some (held, checksum, size) =>
          ok_if (bool_decide (session ∈ k_free m) && bool_decide (persistence = P_s3)
                 && String.eqb session held && String.eqb (sr_workspace_ref ref) (workspace_of e))
            (match a with
             | Ok receipt => if bool_decide (receipt_fits receipt ref snapshot lease checksum size) then add_committed session m else m
             | Err _ => m end)
      | _, _ => Bad
      end
  | Ev (LClose e') _ =>
      ok_if (bool_decide (e' = e) && idle_long && k_unqueued m
             && match k_refs m with Some refs => forallb (left_alone m) refs | None => false end) m
  | Ev (LRecover e') _ => ok_if (bool_decide (e' = e)) m
  | Ev (LExport _ None _) _ | Ev (LHook _ _ _) _ | Ev (LRestore _ _) _ | Ev (LPut _ _) _ => Bad
  | _ => Goes m
  end.

(** ** What the parts of a tick keep *)

Abbreviation obeyed := (lobeys patrol).
(** The maps a save does not touch. *)
Definition same_maps (s s' : lstate) : Prop :=
  l_confirmed s' = l_confirmed s /\ l_pending_retire s' = l_pending_retire s /\ l_last_workspace s' = l_last_workspace s.
(** How the calls of a save of session [x] move the monitor. *)
Record saves (x : string) (m m' : patrol_state) : Prop := {
  sv_refs : k_refs m' = k_refs m; sv_runs : k_runs m' = k_runs m; sv_free : k_free m' = k_free m;
  sv_clean : forall z, z <> x -> z ∈ k_clean m' <-> z ∈ k_clean m;
  sv_committed : k_committed m ⊆ k_committed m'; sv_saved : k_saved m ⊆ k_saved m'
}.
#[global] Instance saves_preorder x : PreOrder (saves x).
Proof.
  split; [by intros m; constructor|]. intros m1 m2 m3 [] []. constructor; try congruence; set_solver.
Qed.
Lemma same_maps_refl s : same_maps s s. Proof. by split_and!. Qed.
Lemma saves_refl x m : saves x m m. Proof. reflexivity. Qed.
Hint Resolve same_maps_refl saves_refl : core.
Definition Inv (m : patrol_state) (s : lstate) : Prop :=
  (forall x, key_of x ∈ l_confirmed s -> key_of x ∈ l_confirmed s0 \/ x ∈ k_saved m)
  /\ (forall x, key_of x ∈ l_pending_retire s -> key_of x ∈ l_pending_retire s0 \/ x ∈ k_committed m)
  /\ l_last_workspace s !! workspace_of e = l_last_workspace s0 !! workspace_of e.
Lemma patrol_saves m m' s s' x : Inv m s -> saves x m m' -> same_maps s s' -> Inv m' s'.
Proof.
  intros (H1 & H2 & H3) [] (E1 & E2 & E3). unfold Inv. rewrite E1, E2, E3.
  split_and!; [intros y Hy; destruct (H1 y Hy); set_solver|intros y Hy; destruct (H2 y Hy); set_solver|done].
Qed.

Definition unmarked {A} (r : result lexn A) : Prop := forall x, r = Err x -> lx_retire_pending x = false.
Lemma unmarked_lx {A} c : unmarked (Err (lx c) : result lexn A). Proof. by intros x [= <-]. Qed.
Lemma unmarked_ok {A} (a : A) : unmarked (Ok a). Proof. done. Qed.
Lemma unmarked_err {A B} x : unmarked (Err x : result lexn A) -> unmarked (Err x : result lexn B).
Proof. intros H y [= <-]. by apply (H x). Qed.
Hint Resolve unmarked_lx unmarked_ok : core.
Hint Immediate unmarked_err : core.

Lemma ok_if_true b m : b = true -> ok_if b m = Goes m. Proof. by intros ->. Qed.

(** The retry window: no event the monitor reads. *)
Lemma obeyed_retry deadline delay m s (Q : patrol_state -> lstate -> result lexn Z -> Prop) :
  (forall r, unmarked r -> Q m s r) -> obeyed (retry_wait deadline delay) Q m s.
Proof.
  intros H. apply lobeys_bind. asks. intros t. cbn [patrol]. destruct (_ <=? 0); [by apply H|].
  apply lobeys_bind. asks. intros [|]; cbn [patrol]; [by apply H|].
  apply lobeys_bind. asks. intros t'. cbn [patrol]. destruct (_ <=? 0); by apply H.
Qed.

Lemma holds_saves x held digest m : saves x m (holds held digest m).
Proof. by constructor. Qed.
Lemma add_committed_saves x m : saves x m (add_committed x m).
Proof. constructor; cbn; try done; set_solver. Qed.
Hint Resolve holds_saves add_committed_saves : core.

(** What a save of session [x] achieves. *)
Definition saving {A} (x : string) (m : patrol_state) (s : lstate) (done : patrol_state -> A -> Prop)
    (m' : patrol_state) (s' : lstate) (r : result lexn A) : Prop :=
  saves x m m' /\ same_maps s s' /\ unmarked r /\ match r with Ok a => done m' a | Err _ => True end.
Lemma saving_here {A} x m s d (r : result lexn A) :
  unmarked r -> match r with Ok a => d m a | Err _ => True end -> saving x m s d m s r.
Proof. intros H1 H2. unfold saving. split_and!; auto. Qed.
Lemma saving_err {A} x m s (d : patrol_state -> A -> Prop) c : saving x m s d m s (Err (lx c)).
Proof. apply saving_here; auto. Qed.
Hint Resolve saving_err : core.
Ltac saved := unfold saving; split_and!; eauto; try (by unfold same_maps).
Lemma saving_trans {A B} x m s m1 s1 (d : patrol_state -> A -> Prop) (d' : patrol_state -> B -> Prop) m' s' r a :
  saving x m s d m1 s1 (Ok a) -> saving x m1 s1 d' m' s' r -> saving x m s d' m' s' r.
Proof.
  intros (H1 & (E1 & E2 & E3) & _) (H2 & (F1 & F2 & F3) & H3 & H4).
  unfold saving, same_maps. split_and!; [by etrans|congruence..|done|done].
Qed.

Lemma obeyed_export fuel x deadline delay m s :
  x ∈ k_free m -> persistence = P_s3 ->
  obeyed (export_loop fuel e (Some x) deadline delay) (saving x m s (fun m' _ => k_held m' = Some x)) m s.
Proof.
  intros Hx Hp. revert delay. induction fuel as [|fuel IH]; intros delay; [apply lobeys_throw; auto|].
  cbn [export_loop]. apply lobeys_bind. asks. intros t. cbn [patrol]. destruct (_ <=? 0); [apply lobeys_throw; auto|].
  apply lobeys_bind, lobeys_try, lobeys_bind. asks. intros r. cbn [patrol].
  rewrite ok_if_true by by rewrite !bool_decide_true.
  apply lobeys_bind. destruct r as [[]|c]; [apply lobeys_ret, lobeys_ret, lobeys_ret; saved|apply lobeys_throw].
  destruct (negb _ || negb _); [apply lobeys_throw; auto|].
  apply lobeys_bind, obeyed_retry. intros [d|y] Hu; [apply lobeys_ret, IH|apply saving_here; eauto].
Qed.

Lemma valid_fits receipt ref snapshot lease checksum size :
  receipt_valid receipt ref snapshot lease checksum size = true -> receipt_fits receipt ref snapshot lease checksum size.
Proof.
  unfold receipt_valid, receipt_fits. rewrite !andb_true_iff, bool_decide_eq_true, !String.eqb_eq, !Z.eqb_eq, !Z.ltb_lt, truthy_true. tauto.
Qed.
Lemma obeyed_persist fuel x ref snapshot lease base days checksum size deadline delay m s :
  x ∈ k_free m -> persistence = P_s3 -> sr_session_ref ref = Some x -> sr_workspace_ref ref = workspace_of e ->
  k_digest m = Some (x, checksum, size) ->
  obeyed (persist_loop fuel ref snapshot lease base days checksum size deadline delay)
    (saving x m s (fun m' _ => x ∈ k_committed m')) m s.
Proof.
  intros Hx Hp Href Hw Hd. revert delay. induction fuel as [|fuel IH]; intros delay; [apply lobeys_throw; auto|].
  cbn [persist_loop]. apply lobeys_bind. asks. intros t. cbn [patrol]. destruct (_ <=? 0); [apply lobeys_throw; auto|].
  apply lobeys_bind, lobeys_try, lobeys_bind. asks. intros r. cbn [patrol]. rewrite Href, Hd.
  rewrite ok_if_true by by rewrite !bool_decide_true, Hw, !String.eqb_refl. apply lobeys_bind.
  destruct r as [receipt|c]; cbn [llift].
  - apply lobeys_ret. destruct (receipt_valid receipt ref snapshot lease checksum size) eqn:Ev; cbn [negb].
    + rewrite bool_decide_true by by apply valid_fits.
      apply lobeys_bind, lobeys_mod, lobeys_ret, lobeys_ret. saved. cbn. set_solver.
    + apply lobeys_throw. cbn [lx_class lx]. apply lobeys_throw. saved. case_bool_decide; auto.
  - apply lobeys_throw. destruct c; cbn [lx_class lx]; try (apply lobeys_throw; by auto);
      (apply lobeys_bind, obeyed_retry; intros [d|y] Hu; [apply lobeys_ret, IH|apply saving_here; eauto]).
Qed.

Lemma obeyed_lease x ref instance m s : obeyed (close_lease ref instance) (saving x m s (fun m' _ => m' = m)) m s.
Proof.
  apply lobeys_bind, lobeys_get. cbv zeta. destruct (l_leases s !! (sr_workspace_ref ref, sr_session_ref ref, instance)) as [lease|]; [apply lobeys_ret; by apply saving_here|].
  apply lobeys_bind. asks. intros r. cbn [patrol]. apply lobeys_bind, lobeys_lift; [|auto].
  intros lease _. apply lobeys_bind, lobeys_mod, lobeys_ret. saved.
Qed.
Lemma obeyed_base x ref lease m s : obeyed (close_base ref lease) (saving x m s (fun m' _ => m' = m)) m s.
Proof.
  apply lobeys_bind, lobeys_mod, lobeys_bind, lobeys_get, lobeys_ret.
  saved. unfold same_maps. by destruct (l_bases s !! (sr_workspace_ref ref, sr_session_ref ref)).
Qed.
(** The archive taken, measured and committed. *)
Lemma obeyed_capture fuel x ref snapshot lease base days deadline m s :
  x ∈ k_free m -> persistence = P_s3 -> sr_session_ref ref = Some x -> sr_workspace_ref ref = workspace_of e ->
  obeyed (delay ← export_loop fuel e (Some x) deadline (1000000 * 1);
          r ← lask LDigest; '(checksum, size) ← llift r;
          persist_loop fuel ref snapshot lease base days checksum size deadline delay)
    (saving x m s (fun m' _ => x ∈ k_committed m')) m s.
Proof.
  intros Hx Hp Href Hw. apply lobeys_bind. eapply lobeys_mono; [by apply obeyed_export|].
  intros m3 s3 [delay|y] H3; [|destruct H3 as (?&?&?&_); saved].
  apply lobeys_bind. asks. intros [[checksum size]|c]; cbn [patrol].
  - assert (k_held m3 = Some x) as Hh by apply H3. rewrite Hh. cbn [option_map].
    set (m4 := holds _ _ m3). assert (saving x m s (fun _ _ => True) m4 s3 (Ok tt)) as H4.
    { destruct H3 as (H3 & ? & _). saved. by etrans; [exact H3|]. }
    apply lobeys_bind, lobeys_ret. eapply lobeys_mono.
    + apply (obeyed_persist fuel x); [|done..]. rewrite (sv_free _ _ _ (proj1 H4)). done.
    + intros m5 s5 r5 H5. by apply (saving_trans _ _ _ _ _ _ _ _ _ _ _ H4).
  - apply lobeys_bind, lobeys_throw. by apply (saving_trans _ _ _ _ _ _ _ _ _ _ _ H3).
Qed.
Lemma obeyed_close fuel x ref days m s :
  x ∈ k_free m -> persistence = P_s3 -> sr_session_ref ref = Some x -> sr_workspace_ref ref = workspace_of e ->
  obeyed (_persist_close config fuel e ref (Some x) days) (saving x m s (fun m' _ => x ∈ k_committed m')) m s.
Proof.
  intros Hx Hp Href Hw. apply lobeys_bind. asks. intros t. cbn [patrol]. apply lobeys_bind. asks. intros snapshot. cbn [patrol].
  apply lobeys_bind. eapply lobeys_mono; [apply (obeyed_lease x)|].
  intros m1 s1 [lease|y] H1; [|destruct H1 as (?&?&?&_); saved].
  assert (m1 = m) as -> by apply H1.
  apply lobeys_bind. eapply lobeys_mono; [apply (obeyed_base x)|].
  intros m2 s2 [base|y] H2; [|apply (saving_trans _ _ _ _ _ _ _ _ _ _ _ H1); destruct H2 as (?&?&?&_); saved].
  assert (m2 = m) as -> by apply H2. pose proof (saving_trans _ _ _ _ _ _ _ _ _ _ _ H1 H2) as H12.
  apply lobeys_bind. asks. intros r. cbn [patrol]. set (m0 := holds None None m).
  assert (saving x m s (fun _ _ => True) m0 s2 (Ok tt)) as H0.
  { destruct H12 as (_ & ? & _). saved. }
  apply lobeys_bind, lobeys_lift; [intros [] _|intros c _; by apply (saving_trans _ _ _ _ _ _ _ _ _ _ _ H0)].
  apply lobeys_finally. eapply lobeys_mono; [by apply (obeyed_capture fuel x)|].
  intros m3 s3 r3 H3. apply lobeys_bind. asks. intros u. cbn [patrol].
  apply lobeys_lift; [intros [] _; by apply (saving_trans _ _ _ _ _ _ _ _ _ _ _ H0)|].
  intros c _. apply (saving_trans _ _ _ _ _ _ _ _ _ _ _ H0). destruct H3 as (?&?&_&_). saved.
Qed.

(** ** Saving a session *)

Lemma obeyed_ref x domain session m s :
  obeyed (_ref config e domain session) (saving x m s (fun m' ref => m' = m /\ sr_session_ref ref = session /\ sr_workspace_ref ref = workspace_of e)) m s.
Proof.
  apply lobeys_lift; [|auto]. intros ref. destruct (new_StateRef _ _ _ _ _) as [r|] eqn:E; [|done]. intros [= <-].
  unfold new_StateRef in E. repeat (apply bind_ok in E as (? & _ & E)). injection E as <-. by saved.
Qed.
Lemma obeyed_reported {A} (p : lp A) x m s d m0 s0' :
  obeyed p (saving x m s d) m0 s0' -> obeyed (reported p) (saving x m s d) m0 s0'.
Proof.
  intros H. apply lobeys_try. eapply lobeys_mono; [exact H|]. intros m' s' [a|y] Hr; [done|].
  destruct Hr as (?&?&Hu&_). destruct (is_exception y); [|apply lobeys_throw; saved].
  apply lobeys_bind, lobeys_bind. asks. intros []. cbn [patrol]. apply lobeys_ret, lobeys_throw.
  saved. intros z [= <-]. by apply (Hu y).
Qed.
Lemma seen_info_saves x info m : saves x m (seen_info x info m).
Proof. constructor; cbn; try done. intros z Hz. unfold toggle. destruct (nothing_to_save _ _); set_solver. Qed.
Lemma add_saved_saves x m : saves x m (add_saved x m).
Proof. constructor; cbn; try done; set_solver. Qed.
Hint Resolve seen_info_saves add_saved_saves : core.

(** Reading the information of the session again. *)
Lemma obeyed_suspend_hook x m s :
  obeyed (_report_suspend_hook e x) (saving x m s (fun _ _ => True)) m s.
Proof.
  apply lobeys_bind, lobeys_try, lobeys_bind, lobeys_bind. asks. intros r. cbn [patrol].
  rewrite bool_decide_true by done. cbn [patrol_mini].
  set (m1 := match r with Ok (200, JObj d) => seen_info x (JObj d) m | _ => m end).
  assert (saves x m m1) as H1 by (unfold m1; repeat case_match; auto).
  apply lobeys_lift.
  - intros [status body] _. apply lobeys_ret.
    assert (obeyed lalarm (saving x m s (fun _ _ => True)) m1 s) as Ha
      by (apply lobeys_bind; asks; intros []; cbn [patrol]; apply lobeys_ret; saved).
    assert (obeyed (lret tt) (saving x m s (fun _ _ => True)) m1 s) as Hr by (apply lobeys_ret; saved).
    by repeat case_match.
  - intros c _. destruct (is_exception _); [apply lobeys_ret|]; apply lobeys_ret || apply lobeys_throw; saved.
Qed.

(** What a retire achieves: confirmed, or an error marked pending only for a committed session. *)
Definition retiring {A} (x : string) (m : patrol_state) (s : lstate) (m' : patrol_state) (s' : lstate)
    (r : result lexn A) : Prop :=
  saves x m m' /\ same_maps s s'
  /\ match r with
     | Ok _ => x ∈ k_saved m'
     | Err y => lx_retire_pending y = true -> x ∈ k_committed m' \/ key_of x ∈ l_pending_retire s0
     end.
Lemma retiring_err {A B} x m s m' s' (d : patrol_state -> A -> Prop) y :
  saving x m s d m' s' (Err y) -> retiring x m s m' s' (Err y : result lexn B).
Proof. intros (H1 & H2 & H3 & _). split_and!; [done|apply H2..|]. by rewrite (H3 y eq_refl). Qed.
Lemma retiring_trans {A B} x m s m1 s1 (d : patrol_state -> A -> Prop) m' s' (r : result lexn B) a :
  saving x m s d m1 s1 (Ok a) -> retiring x m1 s1 m' s' r -> retiring x m s m' s' r.
Proof.
  intros (H1 & (E1 & E2 & E3) & _) (H2 & (F1 & F2 & F3) & H). unfold retiring, same_maps.
  split_and!; [by etrans|congruence..|done].
Qed.

Lemma obeyed_retire x m s :
  x ∈ k_free m -> x ∈ k_committed m \/ key_of x ∈ l_pending_retire s0 ->
  obeyed (_retire_session e x) (retiring x m s) m s.
Proof.
  intros Hx Hc. assert (may_retire m x = true) as Hm.
  { unfold may_retire. rewrite andb_true_iff, orb_true_iff, !bool_decide_eq_true. done. }
  assert (forall (m' : patrol_state) y, saves x m m' -> obeyed (_report_failure (A := unit) y) (retiring x m s) m' s) as Hf.
  { intros m' y H1. apply lobeys_bind, lobeys_bind. asks. intros []. cbn [patrol]. apply lobeys_ret, lobeys_throw.
    split_and!; [done..|]. intros _. destruct Hc as [Hc|Hc]; [left; by apply (sv_committed _ _ _ H1)|by right]. }
  assert (forall (m' : patrol_state) y, saves x m m' ->
    obeyed (_report_failure (A := Z * json) y) (fun m' s' r => match r with Ok _ => False | Err x0 => retiring x m s m' s' (Err x0 : result lexn unit) end) m' s) as Hf'.
  { intros m' y H1. apply lobeys_bind, lobeys_bind. asks. intros []. cbn [patrol]. apply lobeys_ret, lobeys_throw.
    split_and!; [done..|]. intros _. destruct Hc as [Hc|Hc]; [left; by apply (sv_committed _ _ _ H1)|by right]. }
  apply lobeys_bind, lobeys_try, lobeys_bind. asks. intros r. cbn [patrol].
  rewrite bool_decide_true by done. cbn [patrol_mini]. rewrite ok_if_true by done.
  destruct r as [[status body]|c]; cbn [llift].
  - apply lobeys_ret. destruct (Z.eqb_spec status 200) as [->|Hne]; cbn [negb orb].
    + destruct (body_is "status" "retired" body), (body_is "sessionRef" x body); cbn [negb orb andb]; try by apply Hf.
      apply lobeys_ret. split_and!; [auto|done..|cbn; set_solver].
    + apply Hf. by repeat case_match.
  - apply lobeys_throw. destruct (is_exception _).
    + eapply lobeys_mono; [by apply Hf'|]. by intros m' s' [a|y].
    + apply lobeys_throw. by split_and!.
Qed.

Lemma obeyed_suspend x m s :
  x ∈ k_free m -> persistence = P_volume -> obeyed (_suspend_session e x) (saving x m s (fun m' _ => x ∈ k_saved m')) m s.
Proof.
  intros Hx Hp. apply obeyed_reported, lobeys_bind, lobeys_bind. asks. intros r. cbn [patrol].
  rewrite bool_decide_true by done. cbn [patrol_mini]. rewrite ok_if_true by by rewrite !bool_decide_true.
  destruct r as [[status body]|c]; cbn [llift]; [apply lobeys_ret|apply lobeys_throw; saved].
  destruct (Z.eqb_spec status 200) as [->|Hne]; cbn [negb orb].
  - destruct (body_is "status" "suspended" body); cbn [negb]; [|apply lobeys_throw; saved].
    apply lobeys_ret. saved. cbn. set_solver.
  - apply lobeys_throw. assert ((match status with 200 => if body_is "status" "suspended" body then add_saved x m else m | _ => m end) = m) as E
      by by repeat case_match. saved. by repeat case_match.
Qed.

Lemma obeyed_save fuel x m s :
  x ∈ k_free m -> obeyed (_save_session config fuel e x) (retiring x m s) m s.
Proof.
  intros Hx. unfold _save_session.
  assert (forall m1 s1, saves x m m1 -> same_maps s s1 -> x ∈ k_committed m1 ->
    obeyed (_ ← _report_suspend_hook e x; _retire_session e x) (retiring x m s) m1 s1) as Htail.
  { intros m1 s1 Hs Hm Hc. assert (saving x m s (fun _ _ => True) m1 s1 (Ok tt)) as H1 by saved.
    apply lobeys_bind. eapply lobeys_mono; [apply obeyed_suspend_hook|].
    intros m2 s2 [[]|y] H2.
    - pose proof (saving_trans _ _ _ _ _ _ _ _ _ _ _ H1 H2) as H12.
      eapply lobeys_mono; [apply obeyed_retire|].
      + rewrite (sv_free _ _ _ (proj1 H12)). done.
      + left. by apply (sv_committed _ _ _ (proj1 H2)).
      + intros m3 s3 r3 H3. by apply (retiring_trans _ _ _ _ _ _ _ _ _ _ H12).
    - eapply retiring_trans; [exact H1|]. by eapply retiring_err. }
  destruct (per_type (ws_persistence (rc_workspace config))) eqn:Hp.
  - apply lobeys_bind. eapply lobeys_mono; [apply (obeyed_ref x)|].
    intros m1 s1 [ref|y] H1; [|by eapply retiring_err]. assert (m1 = m) as -> by apply H1.
    assert (obeyed (r ← lask (LExport e (Some x) None); llift r) (saving x m s1 (fun m' _ => x ∈ k_committed m')) m s1) as He.
    { apply lobeys_bind. asks. intros r. cbn [patrol]. rewrite ok_if_true by by rewrite !bool_decide_true.
      destruct r as [[]|c]; [apply lobeys_ret; saved; cbn; set_solver|apply lobeys_throw; auto]. }
    apply lobeys_bind. eapply lobeys_mono; [apply obeyed_reported, He|].
    intros m2 s2 [[]|y] H2.
    + pose proof (saving_trans _ _ _ _ _ _ _ _ _ _ _ H1 H2) as H12. apply Htail; [apply H12|apply H12|apply H2].
    + eapply retiring_trans; [exact H1|]. by eapply retiring_err.
  - apply lobeys_bind. eapply lobeys_mono; [apply (obeyed_ref x)|].
    intros m1 s1 [ref|y] H1; [|by eapply retiring_err]. assert (m1 = m) as -> by apply H1.
    assert (sr_session_ref ref = Some x /\ sr_workspace_ref ref = workspace_of e) as [Href Hw] by apply H1.
    apply lobeys_bind. eapply lobeys_mono; [apply obeyed_reported, (obeyed_close fuel x ref); done|].
    intros m2 s2 [receipt|y] H2.
    + pose proof (saving_trans _ _ _ _ _ _ _ _ _ _ _ H1 H2) as H12. apply Htail; [apply H12|apply H12|apply H2].
    + eapply retiring_trans; [exact H1|]. by eapply retiring_err.
  - apply lobeys_bind. eapply lobeys_mono; [by apply obeyed_suspend|].
    intros m1 s1 [[]|y] H1; [|by eapply retiring_err].
    eapply lobeys_mono; [apply obeyed_suspend_hook|]. intros m2 s2 [[]|y] H2.
    + pose proof (saving_trans _ _ _ _ _ _ _ _ _ _ _ H1 H2) as H12.
      split; [apply H12|]. split; [apply H12|]. apply (sv_saved _ _ _ (proj1 H2)), H1.
    + eapply retiring_trans; [exact H1|]. by eapply retiring_err.
Qed.

(** ** One session, all sessions, the Workspace *)

Definition attempted (x : string) (m : patrol_state) (m' : patrol_state) (s' : lstate) (r : result lexn bool) : Prop :=
  saves x m m' /\ Inv m' s' /\ (r = Ok true -> x ∈ k_saved m').
Lemma key_of_inj x y : key_of x = key_of y -> x = y.
Proof. unfold key_of. congruence. Qed.

Lemma obeyed_attempt fuel x m s :
  Inv m s -> x ∈ k_free m -> obeyed (_attempt_session_save config fuel e x (key_of x)) (attempted x m) m s.
Proof.
  intros HI Hx. apply lobeys_try, lobeys_bind, lobeys_get.
  assert (obeyed (if bool_decide (key_of x ∈ l_pending_retire s) then _retire_session e x else _save_session config fuel e x)
    (retiring x m s) m s) as Hr.
  { case_bool_decide as Hp; [|by apply obeyed_save]. apply obeyed_retire; [done|]. destruct HI as (_ & HI & _).
    destruct (HI x Hp); auto. }
  apply lobeys_bind. eapply lobeys_mono; [exact Hr|]. intros m1 s1 [[]|y] (H1 & H2 & H3).
  - apply lobeys_bind, lobeys_mod, lobeys_ret. split_and!; [done| |done].
    destruct (patrol_saves _ _ _ _ _ HI H1 H2) as (I1 & I2 & I3). split_and!; try done.
    intros z Hz. cbn in Hz. apply I2. set_solver.
  - pose proof (patrol_saves _ _ _ _ _ HI H1 H2) as HI1.
    destruct (is_exception y) eqn:Ey; cbn [negb]; [|by apply lobeys_throw; split_and!].
    apply lobeys_bind, lobeys_mod. set (s2 := set_failed_sessions _ s1). assert (Inv m1 s2) as HI2 by done.
    set (done_if (p : lp unit) := forall s', Inv m1 s' -> obeyed p (fun m' s' r => m' = m1 /\ Inv m' s' /\ r = Ok tt) m1 s').
    assert (done_if (if lx_retire_pending y then lmod (fun s => set_pending_retire ({[key_of x]} ∪ l_pending_retire s) s) else lret tt)) as D1.
    { intros s' (I1 & I2 & I3). destruct (lx_retire_pending y) eqn:Ep; [|by apply lobeys_ret].
      apply lobeys_mod. split; [done|]. split; [|done]. split_and!; try done. intros z Hz. cbn in Hz.
      apply elem_of_union in Hz as [Hz|Hz]; [|by apply I2]. apply elem_of_singleton, key_of_inj in Hz as ->.
      destruct (H3 eq_refl); auto. }
    assert (done_if (if bool_decide (lx_class y = SnapshotTransientFailure) || lx_retire_pending y then
              now ← lask LMono; lmod (fun s => set_session_retry (<[key_of x := now + 1000000 * 30]> (l_session_retry s)) s)
            else lret tt)) as D2.
    { intros s' HI'. destruct (_ || _); [|by apply lobeys_ret]. apply lobeys_bind. asks. intros t. cbn [patrol].
      by apply lobeys_mod. }
    assert (done_if (if lx_reported y then lret tt else lalarm)) as D3.
    { intros s' HI'. destruct (lx_reported y); [by apply lobeys_ret|]. apply lobeys_bind. asks. intros []. cbn [patrol]. by apply lobeys_ret. }
    apply lobeys_bind. eapply lobeys_mono; [by apply D1|]. intros m3 s3 r3 (-> & HI3 & ->).
    apply lobeys_bind. eapply lobeys_mono; [by apply D2|]. intros m4 s4 r4 (-> & HI4 & ->).
    apply lobeys_bind. eapply lobeys_mono; [by apply D3|]. intros m5 s5 r5 (-> & HI5 & ->).
    apply lobeys_ret. by split_and!.
Qed.

Definition ticked (x : string) (m : patrol_state) (m' : patrol_state) (s' : lstate) (r : result lexn session_tick) : Prop :=
  saves x m m' /\ Inv m' s' /\ (r = Ok Quiet -> left_alone m' x = true).
Lemma patrol_drop m s k : Inv m s -> Inv m (set_confirmed (l_confirmed s ∖ {[k]}) s).
Proof. intros (H1 & H2 & H3). split_and!; try done. intros x Hx. cbn in Hx. apply H1. set_solver. Qed.
Lemma Inv_confirm m s x : Inv m s -> x ∈ k_saved m -> Inv m (set_confirmed ({[key_of x]} ∪ l_confirmed s) s).
Proof.
  intros (H1 & H2 & H3) Hx. split_and!; try done. intros z Hz. cbn in Hz. apply elem_of_union in Hz as [Hz|Hz]; [|by apply H1].
  apply elem_of_singleton, key_of_inj in Hz as ->. by right.
Qed.

Lemma obeyed_due fuel x info m s :
  Inv m s -> x ∈ k_free m -> (x ∈ k_clean m <-> nothing_to_save x info = true) ->
  json_truthy (dict_get "uncertain" info) = false ->
  obeyed (save_if_due config py_seconds fuel e now x info) (ticked x m) m s.
Proof.
  intros HI Hx Hcl Hun. unfold save_if_due. change (workspace_of e, x, we_instance_id e) with (key_of x).
  assert (forall s', Inv m s' -> forall f : bool -> lp session_tick,
    (forall m' s', saves x m m' -> Inv m' s' -> obeyed (f false) (ticked x m) m' s') ->
    (forall m' s', saves x m m' -> Inv m' s' -> x ∈ k_saved m' -> obeyed (f true) (ticked x m) m' s') ->
    obeyed (saved ← _attempt_session_save config fuel e x (key_of x); f saved) (ticked x m) m s') as Hatt.
  { intros s' HI' f Hf Ht. apply lobeys_bind. eapply lobeys_mono; [by apply obeyed_attempt|].
    intros m1 s1 [[]|y] (H1 & H2 & H3); [apply Ht; auto|by apply Hf|by split_and!]. }
  destruct (json_truthy (dict_get "active" info)) eqn:Eact.
  - apply lobeys_bind, lobeys_mod. apply lobeys_bind, lobeys_lift.
    2: { intros c _. split_and!; [done|by apply patrol_drop|done]. }
    intros secs _. apply lobeys_bind, lobeys_get. cbv zeta. apply lobeys_bind, lobeys_mod.
    assert (forall m' s', saves x m m' -> Inv m' s' -> ticked x m m' s' (Ok Busy)) as Hbusy by (intros; by split_and!).
    destruct (_ <=? _); [|apply lobeys_ret, Hbusy; [done|by apply patrol_drop]].
    apply Hatt; [by apply patrol_drop|intros m' s' H1 H2; apply lobeys_ret; by apply Hbusy|].
    intros m' s' H1 H2 H3. cbn [negb]. apply lobeys_bind.
    case_bool_decide; [apply lobeys_mod|apply lobeys_ret]; apply lobeys_bind, lobeys_mod, lobeys_ret, Hbusy; try done.
    by apply Inv_confirm.
  - apply lobeys_bind, lobeys_mod, lobeys_bind, lobeys_get. cbv zeta.
    set (due := match per_type _ with P_none => _ | P_s3 => _ | P_volume => _ end).
    destruct due eqn:Edue.
    + apply Hatt; [done|intros m' s' H1 H2; apply lobeys_ret; by split_and!|].
      intros m' s' H1 H2 H3. cbn [negb]. apply lobeys_bind, lobeys_mod, lobeys_ret.
      split_and!; [done|by apply Inv_confirm|]. intros _. unfold left_alone. rewrite (sv_free _ _ _ H1), !bool_decide_true by done. done.
    + apply lobeys_ret. split_and!; [done..|]. intros _. unfold left_alone. rewrite bool_decide_true by done. cbn [andb].
      apply orb_true_iff. rewrite !bool_decide_eq_true, Hcl. unfold nothing_to_save. rewrite Hun, Eact. cbn [negb andb].
      revert Edue. unfold due, persistence, workspace. generalize (per_type (ws_persistence (rc_workspace config))).
      intros [] Edue; [by right| |right; by rewrite Edue].
      apply andb_false_iff in Edue as [->|Hc%negb_false_iff%bool_decide_eq_true]; [by right|].
      destruct HI as (HI & _). destruct (HI x Hc) as [Hc0|Hs]; [|by left]. right.
      rewrite (bool_decide_true _ Hc0). by rewrite orb_true_r.
Qed.

Lemma left_saves x z m m' : saves x m m' -> z <> x -> left_alone m z = true -> left_alone m' z = true.
Proof.
  intros [] Hz. unfold left_alone. rewrite !andb_true_iff, !orb_true_iff, !bool_decide_eq_true, sv_free0, (sv_clean0 z Hz).
  set_solver.
Qed.
Lemma left_work x z work m : z <> x -> left_alone m z = true -> left_alone (seen_work x work m) z = true.
Proof.
  intros Hz. unfold left_alone, seen_work. cbn. rewrite !andb_true_iff, !bool_decide_eq_true. intros [Hf Hs].
  split; [|done]. unfold toggle. destruct (negb _); set_solver.
Qed.
Definition stepped (item : json) (m m' : patrol_state) (s' : lstate) (r : result lexn session_tick) : Prop :=
  Inv m' s' /\ k_refs m' = k_refs m /\ k_runs m' = k_runs m
  /\ match r with
     | Ok t => exists x, session_of item = Some x
                 /\ (forall z, z <> x -> left_alone m z = true -> left_alone m' z = true)
                 /\ (t = Quiet -> left_alone m' x = true)
     | Err _ => True
     end.

Lemma unfinished_ended x runs :
  existsb (fun r => String.eqb (rs_session_ref r) x && negb (ended (rs_state r))) runs = unfinished x runs.
Proof. unfold unfinished. induction runs as [|r l IH]; [done|]. cbn [existsb]. rewrite IH. by destruct (rs_state r). Qed.
Lemma obeyed_session fuel item m s :
  Inv m s -> obeyed (tick_session config py_seconds fuel e now (k_runs m) item) (stepped item m) m s.
Proof.
  intros HI. assert (forall x, obeyed (lthrow (A := session_tick) (lx x)) (stepped item m) m s) as Hthrow by (intros x; by split_and!).
  unfold tick_session. destruct item as [| | | | | |d]; try apply Hthrow.
  destruct (assoc "sessionRef" d) as [[| | | |x| |]|] eqn:Ed; try apply Hthrow.
  assert (session_of (JObj d) = Some x) as Hx by (cbn; by rewrite Ed). clear Hthrow.
  apply lobeys_bind, lobeys_bind. asks. intros r. cbn [patrol]. rewrite bool_decide_true by done. cbn [patrol_mini].
  set (m1 := match r with Ok (200, JObj d) => seen_info x (JObj d) m | _ => m end).
  assert (saves x m m1) as H1 by (unfold m1; repeat case_match; auto).
  assert (Inv m1 s) as HI1 by by eapply patrol_saves.
  assert (forall m' s' y, saves x m m' -> Inv m' s' -> stepped (JObj d) m m' s' (Err y)) as Herr.
  { intros m' s' y [] HI'. by split_and!. }
  apply lobeys_lift; [|intros c _; by apply Herr]. intros [status info] Hr.
  destruct (Z.eqb_spec status 200) as [->|]; [|apply lobeys_throw; by apply Herr].
  destruct info as [| | | | | |d']; try (apply lobeys_throw; by apply Herr). cbn [negb orb is_dict].
  subst r. cbn [patrol_mini] in m1. change (workspace_of e, x, we_instance_id e) with (key_of x).
  assert (forall m' s' t, saves x m m' -> Inv m' s' -> t <> Quiet -> stepped (JObj d) m m' s' (Ok t)) as Hbusy.
  { intros m' s' t Hs HI' Ht. split_and!; [done|apply Hs..|]. exists x. split_and!; [done| |done].
    intros z Hz. by apply (left_saves x). }
  destruct (json_truthy (dict_get "uncertain" (JObj d'))) eqn:Eun.
  { apply lobeys_bind, lobeys_mod, lobeys_ret, Hbusy; [done|by apply patrol_drop|done]. }
  apply lobeys_bind. asks. intros work. cbn [patrol]. set (m2 := seen_work x work m1).
  assert (Inv m2 s) as HI2 by done.
  assert (unfinished x (k_runs m1) = unfinished x (k_runs m)) as Erun by by rewrite (sv_runs _ _ _ H1).
  rewrite unfinished_ended.
  assert (forall m' s' t, saves x m2 m' -> Inv m' s' -> (t = Quiet -> left_alone m' x = true) -> stepped (JObj d) m m' s' (Ok t)) as Hdone.
  { intros m' s' t Hs HI' Ht. split_and!; [done|rewrite (sv_refs _ _ _ Hs); apply H1|rewrite (sv_runs _ _ _ Hs); apply H1|].
    exists x. split_and!; [done| |done]. intros z Hz Hl. apply (left_saves x z m2); [done|done|].
    by apply left_work, (left_saves x z m). }
  destruct (work || unfinished x (k_runs m)) eqn:Ework.
  { apply lobeys_bind, lobeys_mod, lobeys_bind, lobeys_mod, lobeys_bind, lobeys_mod, lobeys_ret, Hdone; [done| |done].
    by apply (patrol_drop m2 s). }
  assert (x ∈ k_free m2) as Hfree by (unfold m2, seen_work; cbn [k_free]; rewrite Erun, Ework; cbn; set_solver).
  assert (x ∈ k_clean m2 <-> nothing_to_save x (JObj d') = true) as Hcl.
  { unfold m2, m1. cbn [k_clean seen_work seen_info]. unfold toggle. destruct (nothing_to_save _ _); set_solver. }
  assert (forall s', Inv m2 s' -> obeyed (save_if_due config py_seconds fuel e now x (JObj d')) (stepped (JObj d) m) m2 s') as Hdue.
  { intros s' HI'. eapply lobeys_mono; [by apply obeyed_due|]. intros m3 s3 [t|y] (H3 & HI3 & Hq).
    - apply Hdone; [done|done|]. intros ->. by apply Hq.
    - split_and!; [done|rewrite (sv_refs _ _ _ H3); apply H1|rewrite (sv_runs _ _ _ H3); apply H1|done]. }
  apply lobeys_bind, lobeys_get. case_bool_decide; [|by apply Hdue].
  apply lobeys_bind. unfold cooling. destruct (l_session_retry s !! key_of x) as [t|].
  - apply lobeys_bind. asks. intros t'. cbn [patrol]. apply lobeys_ret. destruct (t' <? t).
    + apply lobeys_ret. by apply Hdone.
    + apply lobeys_bind, lobeys_mod. by apply Hdue.
  - apply lobeys_ret, lobeys_ret. by apply Hdone.
Qed.

Definition swept (items : list json) (m m' : patrol_state) (s' : lstate) (r : result lexn (list session_tick)) : Prop :=
  Inv m' s' /\ k_refs m' = k_refs m
  /\ match r with
     | Ok ts => (forall t, t ∈ ts -> t = Quiet) -> exists l, mapM session_of items = Some l
                  /\ (forall x, x ∈ l -> left_alone m' x = true)
                  /\ (forall z, z ∉ l -> left_alone m z = true -> left_alone m' z = true)
     | Err _ => True
     end.
Lemma obeyed_sessions fuel runs items m s :
  Inv m s -> k_runs m = runs -> obeyed (tick_sessions config py_seconds fuel e now runs items) (swept items m) m s.
Proof.
  revert m s. induction items as [|item items IH]; intros m s HI Hruns.
  { apply lobeys_ret. split_and!; [done..|]. intros _. exists []. split_and!; [done|by intros x ?%elem_of_nil|done]. }
  cbn [tick_sessions]. apply lobeys_bind.
  eapply lobeys_mono; [rewrite <- Hruns; by apply obeyed_session|].
  intros m1 s1 [t|y] (HI1 & Hr1 & Hn1 & Ht); [|by split_and!]. destruct Ht as (x & Hx & Hother & Hself).
  apply lobeys_bind. eapply lobeys_mono; [apply IH; [done|congruence]|]. intros m2 s2 [ts|y] (HI2 & Hr2 & Hts); [|by split_and!; [|congruence|]].
  apply lobeys_ret. split_and!; [done|congruence|]. intros Hq.
  destruct Hts as (l & Hl & Hin & Hout); [intros u Hu; apply Hq; by right|].
  exists (x :: l). split_and!.
  - cbn. by rewrite Hx, Hl.
  - intros z Hz. destruct (decide (z ∈ l)); [by apply Hin|]. apply elem_of_cons in Hz as [->|]; [|done].
    apply Hout; [done|]. apply Hself, Hq. by left.
  - intros z Hz Hlz. apply not_elem_of_cons in Hz as [Hz1 Hz2]. apply Hout; [done|]. by apply Hother.
Qed.

Definition Kept {A} (m' : patrol_state) (s' : lstate) (r : result lexn A) : Prop :=
  forall x, key_of x ∈ l_pending_retire s' -> key_of x ∈ l_pending_retire s0 \/ x ∈ k_committed m'.
Lemma Kept_Inv {A} m s (r : result lexn A) : Inv m s -> Kept m s r.
Proof. by intros (_ & H & _). Qed.

Lemma obeyed_close_idle m s refs :
  Inv m s -> k_refs m = Some refs -> (forall x, x ∈ refs -> left_alone m x = true) -> k_unqueued m = true ->
  obeyed (close_if_idle config e now) Kept m s.
Proof.
  intros HI Hrefs Hleft Hq. apply lobeys_bind, lobeys_get. cbv zeta. apply lobeys_bind, lobeys_mod.
  destruct HI as (I1 & I2 & I3).
  destruct (_ <=? _) eqn:Eidle; cbn [negb]; [|apply lobeys_ret; exact I2].
  apply lobeys_bind, lobeys_try, lobeys_bind. asks. intros r. cbn [patrol].
  rewrite ok_if_true.
  2: { rewrite Hrefs, bool_decide_true, Hq by done. unfold idle_long. rewrite <- I3. unfold workspace. rewrite Eidle. cbn [andb].
       apply forallb_forall. intros x Hx. apply Hleft. by apply list_elem_of_In. }
  apply lobeys_bind, lobeys_lift; [intros [] _; apply lobeys_ret; exact I2|]. intros c _.
  destruct (is_exception (lx c)); cbn [negb]; [|apply lobeys_throw; exact I2].
  apply lobeys_bind, lobeys_mod. cbn [lx_class lx lx_reported]. apply lobeys_bind.
  assert (forall s', (forall x, key_of x ∈ l_pending_retire s' -> key_of x ∈ l_pending_retire s0 \/ x ∈ k_committed m) ->
    obeyed (_ ← lalarm; lret false) (fun m s r => match r with Ok a => obeyed (if negb a then lret tt else
       lmod (fun s => set_last_workspace (delete (workspace_of e) (l_last_workspace s))
               (set_workspace_retry (delete (workspace_of e, we_instance_id e) (l_workspace_retry s))
                  (set_failed_workspaces (l_failed_workspaces s ∖ {[(workspace_of e, we_instance_id e)]}) s)))) Kept m s
      | Err x => Kept m s (Err x : result lexn unit) end) m s') as Hend.
  { intros s' Hs'. apply lobeys_bind, lobeys_bind. asks. intros []. cbn [patrol]. apply lobeys_ret, lobeys_ret, lobeys_ret. exact Hs'. }
  case_bool_decide.
  - apply lobeys_bind. asks. intros t. cbn [patrol]. apply lobeys_mod. by apply Hend.
  - apply lobeys_ret. by apply Hend.
Qed.

Lemma obeyed_inventory fuel m s : Inv m s -> obeyed (tick_inventory config py_seconds fuel e now) Kept m s.
Proof.
  intros HI. apply lobeys_bind, lobeys_bind. asks. intros r. cbn [patrol]. rewrite bool_decide_true by done. cbn [patrol_mini].
  set (m1 := mkP _ _ _ _ _ _ _ _ _). assert (Inv m1 s) as HI1 by done.
  apply lobeys_lift; [|intros c _; by apply Kept_Inv]. intros [status body] Hr.
  destruct body as [| | | | |items|]; try (apply lobeys_throw; by apply Kept_Inv).
  destruct (Z.eqb_spec status 200) as [->|]; cbn [negb]; [|apply lobeys_throw; by apply Kept_Inv]. subst r.
  apply lobeys_bind. asks. intros [runs|c]; cbn [patrol]; apply lobeys_bind;
    [apply lobeys_ret|apply lobeys_throw; by apply Kept_Inv].
  set (m2 := mkP _ _ _ _ _ _ _ _ _). assert (Inv m2 s) as HI2 by done.
  apply lobeys_bind. eapply lobeys_mono; [by apply obeyed_sessions|].
  intros m3 s3 [ts|y] (HI3 & Hr3 & Hts); [|by apply Kept_Inv].
  apply lobeys_bind. asks. intros queued. cbn [patrol]. set (m4 := mkP _ _ _ _ _ _ _ _ _). assert (Inv m4 s3) as HI4 by done.
  cbv zeta. destruct (existsb (fun t => bool_decide (t = Busy)) ts) eqn:Eb; [apply lobeys_mod; exact (Kept_Inv _ _ (Ok tt) HI4)|].
  destruct (existsb (fun t => bool_decide (t = Uncertain)) ts) eqn:Eu; [apply lobeys_mod; exact (Kept_Inv _ _ (Ok tt) HI4)|].
  destruct queued; cbn [orb]; [apply lobeys_mod; exact (Kept_Inv _ _ (Ok tt) HI4)|].
  destruct Hts as (l & Hl & Hin & _).
  { intros t Ht. apply list_elem_of_In in Ht. destruct t; [| |done].
    - assert (existsb (fun t => bool_decide (t = Busy)) ts = true) by (apply existsb_exists; exists Busy; by rewrite bool_decide_true).
      congruence.
    - assert (existsb (fun t => bool_decide (t = Uncertain)) ts = true) by (apply existsb_exists; exists Uncertain; by rewrite bool_decide_true).
      congruence. }
  apply (obeyed_close_idle m4 s3 l HI4); [|exact Hin|done]. cbn. rewrite Hr3. cbn. exact Hl.
Qed.

Lemma obeyed_writer :
  obeyed (_ensure_workspace_writer config e) (saving "" patrol_start s0 (fun m' _ => m' = patrol_start)) patrol_start s0.
Proof.
  assert (obeyed (lret tt) (saving "" patrol_start s0 (fun m' _ => m' = patrol_start)) patrol_start s0) as Hr0
    by (apply lobeys_ret; saved).
  unfold _ensure_workspace_writer. generalize (per_type (ws_persistence (rc_workspace config))). intros []; try exact Hr0.
  apply lobeys_bind, lobeys_get. case_bool_decide; [exact Hr0|].
  apply lobeys_bind. eapply lobeys_mono; [apply (obeyed_ref "")|]. intros m1 s1 [ref|y] H1; [|destruct H1 as (?&?&?&_); saved].
  assert (m1 = patrol_start) as -> by apply H1. apply lobeys_bind. asks. intros a. cbn [patrol].
  apply lobeys_bind, lobeys_lift; [intros lease _; apply lobeys_mod|intros c _];
    (apply (saving_trans _ _ _ _ _ _ _ _ _ _ _ H1); saved).
Qed.
Lemma patrol_start_inv : Inv patrol_start s0.
Proof. split_and!; auto. Qed.
Lemma obeyed_healthy fuel :
  obeyed (tick_healthy config py_seconds fuel (workspace_of e) e now) Kept patrol_start s0.
Proof.
  apply lobeys_bind, lobeys_get. cbv zeta. apply lobeys_bind.
  assert (forall cool : bool, obeyed (if cool then lret tt else
    writer ← ltry (_ ← _ensure_workspace_writer config e; lret true)
              (fun x => if is_exception x then _ ← lalarm; lret false else lthrow x);
    if negb writer then lret tt else tick_inventory config py_seconds fuel e now) Kept patrol_start s0) as Hw.
  { intros [|]; [apply lobeys_ret; apply Kept_Inv, patrol_start_inv|].
    apply lobeys_bind, lobeys_try, lobeys_bind. eapply lobeys_mono; [apply obeyed_writer|].
    intros m1 s1 [[]|y] H1; pose proof (patrol_saves _ _ _ _ _ patrol_start_inv (proj1 H1) (proj1 (proj2 H1))) as HI1.
    - apply lobeys_ret. cbn [negb]. by apply obeyed_inventory.
    - destruct (is_exception y); [|apply lobeys_throw; by apply Kept_Inv].
      apply lobeys_bind, lobeys_bind. asks. intros []. cbn [patrol]. apply lobeys_ret, lobeys_ret, lobeys_ret. by apply Kept_Inv. }
  unfold cooling. case_bool_decide; [|apply lobeys_ret; exact (Hw false)].
  destruct (l_workspace_retry s0 !! (workspace_of e, we_instance_id e)) as [t|]; [|apply lobeys_ret; exact (Hw true)].
  apply lobeys_bind. asks. intros t'. cbn [patrol]. apply lobeys_ret. exact (Hw (t' <? t)).
Qed.
Lemma obeyed_tick fuel : obeyed (_tick_workspace config py_seconds fuel (workspace_of e) e now) Kept patrol_start s0.
Proof.
  apply lobeys_bind. asks. intros active. cbn [patrol]. destruct (negb _); [apply lobeys_ret; apply Kept_Inv, patrol_start_inv|].
  apply lobeys_bind.
  assert (forall health, obeyed (if negb (bool_decide (health = Some 200)) then
    gateway ← lask LGateway;
    if negb gateway then lret tt
    else _ ← lmod (set_saw_activity true); r ← lask (LRecover e); llift r
  else tick_healthy config py_seconds fuel (workspace_of e) e now) Kept patrol_start s0) as Hbody.
  { intros health. destruct (negb _); [|apply obeyed_healthy].
    apply lobeys_bind. asks. intros gateway. cbn [patrol]. destruct (negb gateway); [apply lobeys_ret; apply Kept_Inv, patrol_start_inv|].
    apply lobeys_bind, lobeys_mod, lobeys_bind. asks. intros r'. cbn [patrol]. rewrite ok_if_true by by apply bool_decide_eq_true.
    apply lobeys_lift; intros; apply Kept_Inv; exact patrol_start_inv. }
  apply lobeys_try, lobeys_bind, lobeys_bind. asks. intros r'. cbn [patrol]. rewrite bool_decide_true by done. cbn [patrol_mini].
  apply lobeys_lift; [intros [status ?] _; apply lobeys_ret; exact (Hbody (Some status))|]. intros c _.
  destruct (is_exception (lx c)); [apply lobeys_ret; exact (Hbody None)|apply lobeys_throw; apply Kept_Inv, patrol_start_inv].
Qed.

End patrol.

(** ** Samples *)

Definition the_session : string := sha256_hex "s".
Definition the_pod : WorkspaceEndpoint :=
  {| we_ref := {| wr_namespace := "ach"; wr_agent_uid := agent_uid (rc_agent sample_config); wr_workspace_ref := sha256_hex "w" |};
     we_name := "agent-w"; we_instance_id := "i-1"; we_base_url := "http://pod" |}.
(** Idle since the beginning of time. *)
Definition idle_state : lstate := mkL ∅ ∅ ∅ {[workspace_of the_pod := 0]} ∅ ∅ ∅ ∅ ∅ ∅ false.
Definition tick_time : Z := 1000000 * 1000000.

Definition lease_of (r : StateRef) (instance : string) : WriterLease :=
  {| wl_ref := r; wl_writer_instance_id := instance; wl_epoch := 1; wl_base_etag := None |}.
Definition tick_env (past : list (event lans)) (c : lcall) : lans c :=
  match c with
  | LActive _ => Some the_pod
  | LMini _ q =>
      match q with
      | Sessions => Ok (200, JList [JObj [("sessionRef", JStr the_session)]])
      | SessionInfo _ => Ok (200, JObj [("active", JBool false); ("initialized", JBool true)])
      | SessionRetire s => Ok (200, JObj [("status", JStr "retired"); ("sessionRef", JStr s)])
      | _ => Ok (200, JNull)
      end
  | LGateway => true
  | LRecover _ | LClose _ | LNewArchive | LUnlink | LExport _ _ _ | LHook _ _ _ | LPut _ _ => Ok tt
  | LListRuns _ => Ok []
  | LHasWork _ _ => false
  | LMono => Z.of_nat (length past)
  | LAlarm => tt
  | LSleep _ => false
  | LAcquire r i => Ok (lease_of r i)
  | LUuid => "snap"
  | LDigest => Ok ("sum", 7)
  | LPersist r snapshot lease _ _ _ =>
      Ok {| pr_ref := r; pr_snapshot_id := snapshot; pr_writer_epoch := wl_epoch lease; pr_generation := 1;
            pr_etag := "etag"; pr_checksum := "sum"; pr_size := 7; pr_version := 1;
            pr_committed_at := None; pr_expires_at := None |}
  | LRestore _ _ => Ok None
  end.
Definition no_seconds (_ : json) : result lclass Z := Ok 0.
Definition tick_run :=
  play tick_env (_tick_workspace sample_config no_seconds 100 (workspace_of the_pod) the_pod tick_time idle_state) [].

Definition closes (tr : list (event lans)) : nat :=
  length (List.filter (fun ev => match ev with Ev (LClose _) _ => true | _ => false end) tr).
Definition retires (tr : list (event lans)) : nat :=
  length (List.filter (fun ev => match ev with Ev (LMini _ (SessionRetire _)) _ => true | _ => false end) tr).
Example the_tick_closes :
  is_ok (snd tick_run) = true /\ closes (fst tick_run) = 1%nat /\ retires (fst tick_run) = 1%nat.
Proof. vm_compute. repeat split. Qed.

