(* ===== verification/Manager.v ===== *)
(** * harness/workspaces.py: the Workspace manager

    Every coroutine of [WorkspaceManager] is cut into the segments it runs between two awaits.
    The tasks of one Workspace stand in the order of its lock, so the head of the queue is the
    task that holds it (or is about to take it), and [_run] adds to a queue what it cannot
    coalesce.  The source, the probe and the callbacks are the environment: a segment records
    what it calls, and the answer comes back as another step.  Callers wait on tasks (shielded:
    a cancelled caller detaches), on the adoption, or for a slot. *)

From stdpp Require Import fin_sets gmap.
From S2P Require Import Prelude Sha256 PyJson Refs Config StateRefs Effects Storage Wire Delivery.
Local Open Scope Z_scope.

(** ** Data *)

(** The exceptions the manager tells apart; [ReleaseMismatch] is a
    [WorkspaceAssemblyUnavailable], and a [WorkspaceRetireTimeout] is compared by identity. *)
Inductive mexn :=
  | WorkspaceUnhosted | AssemblyUnavailable | ReleaseMismatch (instance_id : string)
  | WorkspaceConflict | InstanceMismatch | WorkspaceRetireTimeout (object : nat)
  | WorkspaceCapacityExceeded | TransientFailure | TimeoutErr | CancelledErr | ValueErr | OtherErr.
#[export] Instance mexn_eq_dec : EqDecision mexn.
Proof. solve_decision. Defined.
Definition is_assembly (x : mexn) : bool :=
  match x with AssemblyUnavailable | ReleaseMismatch _ => true | _ => false end.
(** The failures of [place] after which the source provably holds nothing. *)
Definition holds_nothing (x : mexn) : bool :=
  is_assembly x || bool_decide (x = WorkspaceUnhosted) || bool_decide (x = CancelledErr).

Record Placement := { p_name : string; p_base_url : string; p_registration : Z }.
#[export] Instance placement_eq_dec : EqDecision Placement.
Proof. solve_decision. Defined.

(** What a task runs under the lock, and the kind it is registered as. *)
Inductive work :=
  | WActivate (deadline_at : option Z)
  | WClose (name : string) (unpublished : option WorkspaceEndpoint)
  | WRecover (lost_instance_id : string)
  | WRetire (name : string)
  | WAdopt (p : Placement)
  | WDeferred (p : Placement).
Inductive kind := KClose | KRecover | KRetire | KAdopt | KActivate.
#[export] Instance kind_eq_dec : EqDecision kind.
Proof. solve_decision. Defined.
Definition kind_of (w : work) : kind :=
  match w with
  | WActivate _ => KActivate | WClose _ _ => KClose | WRecover _ => KRecover | WRetire _ => KRetire
  | WAdopt _ | WDeferred _ => KAdopt
  end.

(** What the task does once [_retire] is over. *)
Inductive retire_then := ThenRaise (x : mexn) | ThenReturn | ThenRecover.
(** The await a task stands at. *)
Inductive phase :=
  | Waiting                                              (* for the lock *)
  | Placing (name : string) (deadline : Z)               (* _start *)
  | Probing (name : string) (p : Placement)
  | Restoring (name : string) (p : Placement) (e : WorkspaceEndpoint)
  | Reconnecting (name : string) (p : Placement) (e : WorkspaceEndpoint)
  | Committing (name : string) (e : WorkspaceEndpoint)   (* _do_close *)
  | Retiring (name : string) (k : retire_then)           (* _retire *)
  | AProbing (p : Placement)                             (* _adopt_one *)
  | AReconnecting (p : Placement) (e : WorkspaceEndpoint)
  | Yielding                                             (* sleep(0) *)
  | AwaitingGateway (p : Placement).                     (* wait_gateway(...) *)
Record task := mkT { t_id : nat; t_ref : WorkspaceRef; t_work : work; t_phase : phase }.

Inductive adoption :=
  | Inventoried                          (* source.adopt() *)
  | Gathering (tasks : list nat)
  | Adopted (r : result mexn unit).      (* done *)

(** A coroutine of a caller, and what it waits for. *)
Inductive api :=
  | EnsureCall (ref : WorkspaceRef) (deadline_at : option Z)
  | TaskCall                             (* close, recover: the result of the task *)
  | AdoptCall                            (* adopt: raises what the adoption raised *)
  | WaitAdopted.
Inductive wait := OnTask (t : nat) | OnAdoption | OnSlot (generation : nat).
Record caller := { c_api : api; c_wait : wait }.

(** What a segment calls, and what it delivers to a caller. *)
Inductive mcall :=
  | CPlace (key name : string) (deadline : Z)
  | CProbe (key base_url name : string) (deadline : Z)
  | CRestore (e : WorkspaceEndpoint) | CReconnect (e : WorkspaceEndpoint)
  | CCommit (e : WorkspaceEndpoint) | CRetire (key name : string)
  | CAdopt | CWaitGateway (deadline : Z)
  | CAlarm (anomaly key : string)
  | CReturn (c : nat) (e : option WorkspaceEndpoint) | CRaise (c : nat) (x : mexn).

(** ** State *)

Record mstate := mkM {
  m_occupied : gset string;   (* _occupied *)
  m_active : gmap string WorkspaceEndpoint;   (* _active *)
  m_errors : gmap string mexn;   (* _errors *)
  m_lost : gset string;   (* _lost_instances *)
  m_adoption : option adoption;   (* _adoption *)
  m_queue : gmap string (list task);   (* _owners: per Workspace, the tasks in the order of the lock *)
  m_results : gmap nat (result mexn (option WorkspaceEndpoint));   (* the tasks that are done *)
  m_callers : gmap nat caller;   (* the coroutines that wait *)
  m_next : nat;   (* the next task or exception object *)
  m_late : list (nat * string);   (* _retired_late callbacks: exception, key *)
  m_released : nat;   (* generation of _slot_released *)
  m_loss : list WorkspaceEndpoint;   (* _loss_tasks that have not run *)
  m_calls : list mcall    (* what this step calls or returns, last first *)
}.
Definition set_m_occupied v s := mkM v (m_active s) (m_errors s) (m_lost s) (m_adoption s) (m_queue s)
  (m_results s) (m_callers s) (m_next s) (m_late s) (m_released s) (m_loss s) (m_calls s).
Definition set_m_active v s := mkM (m_occupied s) v (m_errors s) (m_lost s) (m_adoption s) (m_queue s)
  (m_results s) (m_callers s) (m_next s) (m_late s) (m_released s) (m_loss s) (m_calls s).
Definition set_m_errors v s := mkM (m_occupied s) (m_active s) v (m_lost s) (m_adoption s) (m_queue s)
  (m_results s) (m_callers s) (m_next s) (m_late s) (m_released s) (m_loss s) (m_calls s).
Definition set_m_lost v s := mkM (m_occupied s) (m_active s) (m_errors s) v (m_adoption s) (m_queue s)
  (m_results s) (m_callers s) (m_next s) (m_late s) (m_released s) (m_loss s) (m_calls s).
Definition set_m_adoption v s := mkM (m_occupied s) (m_active s) (m_errors s) (m_lost s) v (m_queue s)
  (m_results s) (m_callers s) (m_next s) (m_late s) (m_released s) (m_loss s) (m_calls s).
Definition set_m_queue v s := mkM (m_occupied s) (m_active s) (m_errors s) (m_lost s) (m_adoption s) v
  (m_results s) (m_callers s) (m_next s) (m_late s) (m_released s) (m_loss s) (m_calls s).
Definition set_m_results v s := mkM (m_occupied s) (m_active s) (m_errors s) (m_lost s) (m_adoption s) (m_queue
  s) v (m_callers s) (m_next s) (m_late s) (m_released s) (m_loss s) (m_calls s).
Definition set_m_callers v s := mkM (m_occupied s) (m_active s) (m_errors s) (m_lost s) (m_adoption s) (m_queue
  s) (m_results s) v (m_next s) (m_late s) (m_released s) (m_loss s) (m_calls s).
Definition set_m_next v s := mkM (m_occupied s) (m_active s) (m_errors s) (m_lost s) (m_adoption s) (m_queue s)
  (m_results s) (m_callers s) v (m_late s) (m_released s) (m_loss s) (m_calls s).
Definition set_m_late v s := mkM (m_occupied s) (m_active s) (m_errors s) (m_lost s) (m_adoption s) (m_queue s)
  (m_results s) (m_callers s) (m_next s) v (m_released s) (m_loss s) (m_calls s).
Definition set_m_released v s := mkM (m_occupied s) (m_active s) (m_errors s) (m_lost s) (m_adoption s) (m_queue
  s) (m_results s) (m_callers s) (m_next s) (m_late s) v (m_loss s) (m_calls s).
Definition set_m_loss v s := mkM (m_occupied s) (m_active s) (m_errors s) (m_lost s) (m_adoption s) (m_queue s)
  (m_results s) (m_callers s) (m_next s) (m_late s) (m_released s) v (m_calls s).
Definition set_m_calls v s := mkM (m_occupied s) (m_active s) (m_errors s) (m_lost s) (m_adoption s) (m_queue s)
  (m_results s) (m_callers s) (m_next s) (m_late s) (m_released s) (m_loss s) v.

(** What the segments read of the world while they run: the clocks, the answers of
    [source.observed], [source.serving] and [source.gateway_available]. *)
Record view := { v_now : Z; v_mono : Z; v_observed : bool; v_serving : bool; v_gateway : bool }.
(** The answer the head of a queue was waiting for. *)
Inductive answer :=
  | Placed (r : result mexn Placement)
  | Probed (r : result mexn string)
  | Restored (r : result mexn unit)
  | Reconnected (r : result mexn unit)
  | Committed (r : result mexn (option PersistReceipt))
  | Retired (r : result mexn unit)
  | RetireTimedOut                       (* shutdownTimeoutSeconds passed *)
  | GatewayAnswered (r : result mexn unit)
  | Slept.

Definition start_state : mstate := mkM ∅ ∅ ∅ ∅ None ∅ ∅ ∅ 0 [] 0 [] [].

Section manager.
Context (config : RuntimeConfig).
(** The callbacks the manager was given. *)
Context (has_restore has_commit has_health : bool).
Let agent := rc_agent config.
Let workspace := rc_workspace config.
Definition capacity : Z := max_active_workspaces (rc_limits config).
Definition name_of (key : string) : result exn string := workspace_name (agent_name agent) key.

Definition say (c : mcall) (s : mstate) : mstate := set_m_calls (c :: m_calls s) s.
Definition _validate_ref (ref : WorkspaceRef) : bool :=
  String.eqb (wr_namespace ref) (agent_namespace agent) && String.eqb (wr_agent_uid ref) (agent_uid agent).

(** ** Slots *)

Definition _has_slot (key : string) (s : mstate) : bool :=
  bool_decide (key ∈ m_occupied s) || (Z.of_nat (size (m_occupied s)) <? capacity).
Definition _reserve (key : string) (s : mstate) : result mexn mstate :=
  if bool_decide (key ∈ m_occupied s) then Ok s
  else if negb (_has_slot key s) then Err WorkspaceCapacityExceeded
  else Ok (set_m_occupied ({[key]} ∪ m_occupied s) s).
Definition _reserve_known (key : string) (s : mstate) : mstate := set_m_occupied ({[key]} ∪ m_occupied s) s.
Definition _wake_slot_waiters (s : mstate) : mstate := set_m_released (S (m_released s)) s.
Definition _release (key : string) (s : mstate) : mstate :=
  _wake_slot_waiters (set_m_errors (delete key (m_errors s)) (set_m_occupied (m_occupied s ∖ {[key]}) s)).
Definition _startup_deadline (v : view) (deadline_at : option Z) : Z :=
  let bound := microseconds (ws_ready_timeout_seconds workspace) in
  v_mono v + match deadline_at with
             | Some d => Z.max 0 (Z.min bound (d - v_now v))
             | None => bound
             end.

(** ** The tasks of a Workspace *)

Definition tasks_of (key : string) (s : mstate) : list task := default [] (m_queue s !! key).
Definition find_kind (k : kind) (key : string) (s : mstate) : option task :=
  List.find (fun t => bool_decide (kind_of (t_work t) = k)) (tasks_of key s).
(** [_run]: the task of this kind that is not done, or a new one. *)
Definition spawn (ref : WorkspaceRef) (w : work) (s : mstate) : nat * mstate :=
  let key := wr_workspace_ref ref in
  (m_next s, set_m_next (S (m_next s))
               (set_m_queue (<[key := tasks_of key s ++ [mkT (m_next s) ref w Waiting]]> (m_queue s)) s)).
Definition _run (ref : WorkspaceRef) (w : work) (s : mstate) : nat * mstate :=
  match find_kind (kind_of w) (wr_workspace_ref ref) s with
  | Some t => (t_id t, s)
  | None => spawn ref w s
  end.
(** The head of the queue goes to its next await, or is done and releases the lock. *)
Definition at_phase (p : phase) (key : string) (s : mstate) : mstate :=
  match tasks_of key s with
  | t :: ts => set_m_queue (<[key := mkT (t_id t) (t_ref t) (t_work t) p :: ts]> (m_queue s)) s
  | [] => s
  end.
Definition finish (r : result mexn (option WorkspaceEndpoint)) (key : string) (s : mstate) : mstate :=
  match tasks_of key s with
  | t :: ts => set_m_results (<[t_id t := r]> (m_results s)) (set_m_queue (<[key := ts]> (m_queue s)) s)
  | [] => s
  end.

(** ** [_retire] *)

Definition _retire (key name : string) (k : retire_then) (s : mstate) : mstate :=
  at_phase (Retiring name k) key (say (CRetire key name) s).
Definition publish (key : string) (e : WorkspaceEndpoint) (s : mstate) : mstate :=
  set_m_active (<[key := e]> (m_active s)) s.
Definition unpublish (key : string) (s : mstate) : mstate := set_m_active (delete key (m_active s)) s.
Definition record_error (key : string) (x : mexn) (s : mstate) : mstate :=
  set_m_errors (<[key := x]> (m_errors s)) s.

(** ** [_start], from one await to the next *)

Definition _start (v : view) (deadline_at : option Z) (key : string) (s : mstate) : mstate :=
  match name_of key with
  | Err _ => finish (Err ValueErr) key s
  | Ok name =>
      let deadline := _startup_deadline v deadline_at in
      at_phase (Placing name deadline) key (say (CPlace key name deadline) s)
  end.
(** A failure after [place]: the unit is retired before the exception is raised. *)
Definition start_fails (x : mexn) (key name : string) (s : mstate) : mstate := _retire key name (ThenRaise x) s.
Definition start_reconnects (p : Placement) (e : WorkspaceEndpoint) (key name : string) (s : mstate) : mstate :=
  at_phase (Reconnecting name p e) key (say (CReconnect e) s).
Definition start_observed (v : view) (p : Placement) (e : WorkspaceEndpoint) (key name : string) (s : mstate) : mstate :=
  if negb (v_observed v) then start_fails WorkspaceConflict key name s
  else if has_restore then at_phase (Restoring name p e) key (say (CRestore e) s)
  else start_reconnects p e key name s.
Definition start_probes (p : Placement) (deadline : Z) (key name : string) (s : mstate) : mstate :=
  if negb has_health then start_fails AssemblyUnavailable key name s
  else at_phase (Probing name p) key (say (CProbe key (p_base_url p) (p_name p) deadline) s).
Definition start_serves (v : view) (p : Placement) (e : WorkspaceEndpoint) (key name : string) (s : mstate) : mstate :=
  if negb (v_serving v) then start_fails WorkspaceConflict key name s
  else finish (Ok (Some e)) key (publish key e s).
Definition endpoint_of (ref : WorkspaceRef) (p : Placement) (instance_id : string) : WorkspaceEndpoint :=
  {| we_ref := ref; we_name := p_name p; we_instance_id := instance_id; we_base_url := p_base_url p |}.

(** [_start] at the answer of its first awaits. *)
Definition place_answered (r : result mexn Placement) (deadline : Z) (key name : string) (s : mstate) : mstate :=
  match r with
  | Ok p => start_probes p deadline key name s
  | Err x => finish (Err x) key (if holds_nothing x then _release key s else s)
  end.
Definition probe_answered (v : view) (r : result mexn string) (ref : WorkspaceRef) (p : Placement) (key name : string)
    (s : mstate) : mstate :=
  match r with
  | Ok i | Err (ReleaseMismatch i) => start_observed v p (endpoint_of ref p i) key name s
  | Err x => start_fails x key name s
  end.

(** ** [_activate], [_do_close], [_do_recover] *)

Definition _activate (v : view) (deadline_at : option Z) (key : string) (s : mstate) : mstate :=
  match m_errors s !! key with
  | Some x => finish (Err x) key s
  | None =>
      match m_active s !! key with
      | Some e => finish (Ok (Some e)) key s
      | None =>
          match _reserve key s with
          | Err x => finish (Err x) key s
          | Ok s => _start v deadline_at key s
          end
      end
  end.

Definition _validate_receipt (receipt : option PersistReceipt) (ref : WorkspaceRef) : bool :=
  match receipt with
  | None => negb (bool_decide (per_type (ws_persistence workspace) = P_s3))
  | Some r =>
      let state_ref := pr_ref r in
      String.eqb (sr_domain state_ref) "workspace"
      && String.eqb (sr_workspace_ref state_ref) (wr_workspace_ref ref)
      && bool_decide (sr_session_ref state_ref = None)
      && String.eqb (fi_name (sr_agent state_ref)) (agent_name agent)
      && String.eqb (fi_namespace (sr_agent state_ref)) (agent_namespace agent)
      && String.eqb (fi_uid (sr_agent state_ref)) (agent_uid agent)
  end.
(** [_do_close] once the commit is known. *)
Definition commit_answered (r : result mexn (option PersistReceipt)) (e : WorkspaceEndpoint) (ref : WorkspaceRef)
    (key name : string) (s : mstate) : mstate :=
  let persistence_failed (x : mexn) (s : mstate) := finish (Err x) key (record_error key x s) in
  match r with
  | Ok receipt =>
      if _validate_receipt receipt ref then _retire key name ThenReturn s
      else persistence_failed AssemblyUnavailable s
  | Err TransientFailure => persistence_failed TransientFailure (publish key e s)
  | Err InstanceMismatch =>
      let s := set_m_lost ({[we_instance_id e]} ∪ m_lost s) s in
      _retire key name ThenReturn (say (CAlarm "pod_unhealthy" key) s)
  | Err x => persistence_failed x s
  end.
Definition _do_close (unpublished : option WorkspaceEndpoint) (ref : WorkspaceRef) (key name : string) (s : mstate) :
    mstate :=
  let endpoint := match m_active s !! key with Some e => Some e | None => unpublished end in
  let s := unpublish key s in
  match endpoint with
  | None => finish (Ok None) key s
  | Some e =>
      if bool_decide (key ∉ m_occupied s) then finish (Ok None) key s
      else if has_commit then at_phase (Committing name e) key (say (CCommit e) s)
      else commit_answered (Ok None) e ref key name s
  end.
Definition _do_recover (lost_instance_id : string) (key : string) (s : mstate) : mstate :=
  match m_active s !! key with
  | None => finish (Ok None) key s
  | Some e =>
      if negb (String.eqb (we_instance_id e) lost_instance_id) then finish (Ok None) key s
      else
        let s := say (CAlarm "pod_unhealthy" key) (set_m_lost ({[lost_instance_id]} ∪ m_lost s) (unpublish key s)) in
        match name_of key with
        | Err _ => finish (Err ValueErr) key s
        | Ok name => _retire key name ThenRecover s
        end
  end.

(** ** Adoption of one unit *)

Definition adopt_probes (p : Placement) (v : view) (key : string) (s : mstate) : mstate :=
  at_phase (AProbing p) key (say (CProbe key (p_base_url p) (p_name p) (_startup_deadline v None)) s).
(** [_defer_adoption]: the adoption becomes another task of the Workspace. *)
Definition _defer_adoption (ref : WorkspaceRef) (p : Placement) (s : mstate) : mstate := snd (spawn ref (WDeferred p) s).
Definition adopt_fails (v : view) (x : mexn) (ref : WorkspaceRef) (p : Placement) (key : string) (s : mstate) : mstate :=
  if bool_decide (x = CancelledErr) then finish (Err x) key s
  else if negb (v_gateway v) then finish (Ok None) key (_defer_adoption ref p s)
  else at_phase Yielding key (snd (_run ref (WRetire (p_name p)) s)).
Definition _adopt_one (v : view) (ref : WorkspaceRef) (p : Placement) (key : string) (s : mstate) : mstate :=
  if negb has_health then adopt_fails v AssemblyUnavailable ref p key s else adopt_probes p v key s.
Definition adopt_probed (v : view) (r : result mexn string) (ref : WorkspaceRef) (p : Placement) (key : string)
    (s : mstate) : mstate :=
  match r with
  | Err x => adopt_fails v x ref p key s
  | Ok i =>
      if negb (v_observed v) then adopt_fails v WorkspaceConflict ref p key s
      else let e := endpoint_of ref p i in at_phase (AReconnecting p e) key (say (CReconnect e) s)
  end.
Definition adopt_reconnected (v : view) (r : result mexn unit) (ref : WorkspaceRef) (p : Placement)
    (e : WorkspaceEndpoint) (key : string) (s : mstate) : mstate :=
  match r with
  | Err x => adopt_fails v x ref p key s
  | Ok tt =>
      if negb (v_serving v) then adopt_fails v WorkspaceConflict ref p key s
      else finish (Ok None) key (publish key e s)
  end.
Definition _adopt_when_gateway_returns (v : view) (ref : WorkspaceRef) (p : Placement) (key : string) (s : mstate) :
    mstate :=
  if v_gateway v then _adopt_one v ref p key s
  else at_phase (AwaitingGateway p) key (say (CWaitGateway (v_mono v + microseconds 30)) s).

(** ** The end of [_retire] *)

Definition retire_times_out (key : string) (s : mstate) : mstate :=
  let x := WorkspaceRetireTimeout (m_next s) in
  record_error key x
    (set_m_late (m_late s ++ [(m_next s, key)])
       (set_m_next (S (m_next s)) (say (CAlarm "workspace_retire_timeout" key) s))).
Definition retire_answered (v : view) (r : option (result mexn unit)) (k : retire_then) (key : string) (s : mstate) : mstate :=
  match r with
  | Some (Ok tt) =>
      let s := _release key s in
      match k with
      | ThenRaise x => finish (Err x) key s
      | ThenReturn => finish (Ok None) key s
      | ThenRecover =>
          match _reserve key s with
          | Err x => finish (Err x) key s
          | Ok s => _start v None key s
          end
      end
  | None | Some (Err TimeoutErr) =>
      let s := retire_times_out key s in
      match k with
      | ThenRaise x => finish (Err x) key s
      | ThenReturn | ThenRecover => finish (Ok None) key s
      end
  | Some (Err x) => finish (Err x) key s
  end.
(** [_retired_late]: the callback of a retire that outlived its wait, whether the retire
    returned or raised. *)
Definition _retired_late (key : string) (x : mexn) (cancelled : bool) (s : mstate) : mstate :=
  if cancelled || negb (bool_decide (m_errors s !! key = Some x)) then s else _release key s.

(** ** One segment of the task that holds the lock *)

Definition begin (v : view) (t : task) (s : mstate) : mstate :=
  let ref := t_ref t in
  let key := wr_workspace_ref ref in
  match t_work t with
  | WActivate deadline_at => _activate v deadline_at key s
  | WClose name unpublished => _do_close unpublished ref key name s
  | WRecover lost => _do_recover lost key s
  | WRetire name => _retire key name ThenReturn s
  | WAdopt p => _adopt_one v ref p key s
  | WDeferred p => _adopt_when_gateway_returns v ref p key s
  end.
Definition resume (v : view) (t : task) (a : answer) (s : mstate) : option mstate :=
  let ref := t_ref t in
  let key := wr_workspace_ref ref in
  match t_phase t, a with
  | AProbing p, Probed r => Some (adopt_probed v r ref p key s)
  | AReconnecting p e, Reconnected r => Some (adopt_reconnected v r ref p e key s)
  | Yielding, Slept => Some (finish (Ok None) key s)
  | AwaitingGateway p, GatewayAnswered (Ok tt) => Some (_adopt_when_gateway_returns v ref p key s)
  | AwaitingGateway p, GatewayAnswered (Err x) => Some (finish (Err x) key s)
  | Retiring name k, Retired r => Some (retire_answered v (Some r) k key s)
  | Retiring name k, RetireTimedOut => Some (retire_answered v None k key s)
  | Placing name deadline, Placed r => Some (place_answered r deadline key name s)
  | Probing name p, Probed r => Some (probe_answered v r ref p key name s)
  | Restoring name p e, Restored (Ok tt) => Some (start_reconnects p e key name s)
  | Reconnecting name p e, Reconnected (Ok tt) => Some (start_serves v p e key name s)
  | Restoring name _ _, Restored (Err x) | Reconnecting name _ _, Reconnected (Err x) => Some (start_fails x key name s)
  | Committing name e, Committed r => Some (commit_answered r e ref key name s)
  | _, _ => None
  end.

(** ** Callers *)

Definition wait_on (c : nat) (a : api) (w : wait) (s : mstate) : mstate :=
  set_m_callers (<[c := {| c_api := a; c_wait := w |}]> (m_callers s)) s.
Definition return_to (c : nat) (e : option WorkspaceEndpoint) (s : mstate) : mstate :=
  set_m_callers (delete c (m_callers s)) (say (CReturn c e) s).
Definition raise_to (c : nat) (x : mexn) (s : mstate) : mstate :=
  set_m_callers (delete c (m_callers s)) (say (CRaise c x) s).

(** The first use of the adoption starts it. *)
Definition begin_adoption (s : mstate) : mstate :=
  match m_adoption s with
  | None => set_m_adoption (Some Inventoried) (say CAdopt s)
  | Some _ => s
  end.
Definition adoption_done (s : mstate) : bool := match m_adoption s with Some (Adopted _) => true | _ => false end.

Fixpoint first_kind (ks : list kind) (key : string) (s : mstate) : option task :=
  match ks with
  | [] => None
  | k :: ks => match find_kind k key s with Some t => Some t | None => first_kind ks key s end
  end.
Definition lifecycle_kinds : list kind := [KClose; KRecover; KRetire; KAdopt].
(** One turn of the loop of [ensure]. *)
Definition ensure_turn (v : view) (c : nat) (ref : WorkspaceRef) (deadline_at : option Z) (s : mstate) : mstate :=
  let key := wr_workspace_ref ref in
  let self := EnsureCall ref deadline_at in
  match first_kind lifecycle_kinds key s with
  | Some t => wait_on c self (OnTask (t_id t)) s
  | None =>
      match m_errors s !! key with
      | Some x => raise_to c x s
      | None =>
          if negb (adoption_done s) then wait_on c self OnAdoption (begin_adoption s) else
          match m_active s !! key with
          | Some e => return_to c (Some e) s
          | None =>
              if negb (_has_slot key s) then
                (* _wait_for_slot *)
                let remaining := match deadline_at with Some d => d - v_now v | None => 0 end in
                if remaining <=? 0 then raise_to c WorkspaceCapacityExceeded s
                else wait_on c self (OnSlot (m_released s)) s
              else
                match _reserve key s with
                | Err x => raise_to c x s
                | Ok s => let '(t, s) := _run ref (WActivate deadline_at) s in wait_on c self (OnTask t) s
                end
          end
      end
  end.
Definition ensure (v : view) (c : nat) (ref : WorkspaceRef) (deadline_at : option Z) (s : mstate) : mstate :=
  if negb (_validate_ref ref) then raise_to c ValueErr s else ensure_turn v c ref deadline_at s.
Definition close (c : nat) (ref : WorkspaceRef) (s : mstate) : mstate :=
  let key := wr_workspace_ref ref in
  if negb (_validate_ref ref) then raise_to c ValueErr s
  else if bool_decide (key ∉ m_occupied s) then return_to c None s
  else
    let unpublished := m_active s !! key in
    let s := unpublish key s in
    match name_of key with
    | Err _ => raise_to c ValueErr s
    | Ok name => let '(t, s) := _run ref (WClose name unpublished) s in wait_on c TaskCall (OnTask t) s
    end.
Definition recover (c : nat) (ref : WorkspaceRef) (lost_instance_id : string) (s : mstate) : mstate :=
  if negb (_validate_ref ref) then raise_to c ValueErr s
  else let '(t, s) := _run ref (WRecover lost_instance_id) s in wait_on c TaskCall (OnTask t) s.
Definition adopt (c : nat) (a : api) (s : mstate) : mstate :=
  if adoption_done s then
    match a, m_adoption s with
    | AdoptCall, Some (Adopted (Err x)) => raise_to c x s
    | _, _ => return_to c None s
    end
  else wait_on c a OnAdoption (begin_adoption s).
(** [report_lost] schedules the recovery; it runs later, with nobody waiting. *)
Definition report_lost (e : WorkspaceEndpoint) (s : mstate) : mstate := set_m_loss (m_loss s ++ [e]) s.
Definition run_loss (e : WorkspaceEndpoint) (s : mstate) : mstate :=
  if negb (_validate_ref (we_ref e)) then s else snd (_run (we_ref e) (WRecover (we_instance_id e)) s).
Definition _source_lost (name : string) (instance_id : option string) (s : mstate) : mstate :=
  match List.find (fun e => String.eqb (we_name e) name) (map_to_list (m_active s)).*2 with
  | Some e => if bool_decide (instance_id = Some (we_instance_id e)) then report_lost e s else s
  | None => s
  end.

(** What the await of a caller raised; [None] when it goes on. *)
Definition awaited (w : wait) (s : mstate) : option (result mexn (option WorkspaceEndpoint)) :=
  match w with
  | OnTask t => m_results s !! t
  | OnAdoption => match m_adoption s with Some (Adopted r) => Some (_ ← r; Ok None) | _ => None end
  | OnSlot generation => if (generation <? m_released s)%nat then Some (Ok None) else None
  end.
Definition wake (v : view) (c : nat) (cl : caller) (r : result mexn (option WorkspaceEndpoint)) (s : mstate) : mstate :=
  match c_api cl, r with
  | WaitAdopted, _ => return_to c None s
  | _, Err x => raise_to c x s
  | EnsureCall ref deadline_at, Ok _ => ensure_turn v c ref deadline_at s
  | _, Ok e => return_to c e s
  end.
(** The deadline of a caller passes: of [_wait_for_slot], or of [wait_adopted]. *)
Definition time_out (c : nat) (cl : caller) (s : mstate) : option mstate :=
  match c_api cl, c_wait cl with
  | EnsureCall _ _, OnSlot _ => Some (raise_to c WorkspaceCapacityExceeded s)
  | WaitAdopted, _ => Some (return_to c None s)
  | _, _ => None
  end.

(** ** Adoption *)

Fixpoint adopt_units (units : list (WorkspaceRef * Placement)) (s : mstate) : list nat * mstate :=
  match units with
  | [] => ([], s)
  | (ref, p) :: units =>
      let '(t, s) := _run ref (WAdopt p) s in
      let '(ts, s) := adopt_units units s in
      (t :: ts, s)
  end.
Definition inventory (r : result mexn (list (WorkspaceRef * Placement))) (s : mstate) : mstate :=
  match r with
  | Err x => set_m_adoption (Some (Adopted (Err x))) s
  | Ok units =>
      let s := foldl (fun s u => _reserve_known (wr_workspace_ref u.1) s) s units in
      let '(ts, s) := adopt_units units s in
      set_m_adoption (Some (Gathering ts)) s
  end.
(** [gather]: the first exception, or the end of all. *)
Definition gathered (ts : list nat) (s : mstate) : option (result mexn unit) :=
  match List.find (fun r => match r with Some (Err _) => true | _ => false end) (map (fun t => m_results s !! t) ts) with
  | Some (Some (Err x)) => Some (Err x)
  | _ => if forallb (fun t => bool_decide (is_Some (m_results s !! t))) ts then Some (Ok tt) else None
  end.
Definition adoption_ends (r : result mexn unit) (s : mstate) : mstate :=
  let s := set_m_adoption (Some (Adopted r)) s in
  if is_ok r then _wake_slot_waiters s else s.
Definition is_deferred (t : task) : bool := match t_work t with WDeferred _ => true | _ => false end.
Definition cancel_adoption (s : mstate) : mstate :=
  let s := match m_adoption s with
           | Some (Inventoried | Gathering _) => set_m_adoption (Some (Adopted (Err CancelledErr))) s
           | _ => s
           end in
  let cancelled := filter (fun t => is_deferred t = true) (concat (map_to_list (m_queue s)).*2) in
  set_m_queue ((fun ts => filter (fun t => is_deferred t = false) ts) <$> m_queue s)
    (set_m_results (foldr (fun t r => <[t_id t := Err CancelledErr]> r) (m_results s) cancelled) s).

(** ** Steps *)

Inductive event :=
  | Ensure (c : nat) (ref : WorkspaceRef) (deadline_at : option Z)
  | Close (c : nat) (ref : WorkspaceRef)
  | Recover (c : nat) (ref : WorkspaceRef) (lost_instance_id : string)
  | Adopt (c : nat) (a : api)
  | ReportLost (e : WorkspaceEndpoint) | SourceLost (name : string) (instance_id : option string)
  | RunLoss
  | Wake (c : nat) | TimeOut (c : nat) | CancelCaller (c : nat)
  | Acquire (key : string)                       (* the head takes the lock and runs *)
  | Answer (key : string) (a : answer)
  | RetiredLate (object : nat) (cancelled confirmed : bool)
  | Inventory (r : result mexn (list (WorkspaceRef * Placement)))
  | Gathered
  | CancelAdoption.

Definition step (v : view) (ev : event) (s : mstate) : option mstate :=
  let s := set_m_calls [] s in
  match ev with
  | Ensure c ref deadline_at => if bool_decide (m_callers s !! c = None) then Some (ensure v c ref deadline_at s) else None
  | Close c ref => if bool_decide (m_callers s !! c = None) then Some (close c ref s) else None
  | Recover c ref lost => if bool_decide (m_callers s !! c = None) then Some (recover c ref lost s) else None
  | Adopt c a =>
      match a with
      | AdoptCall | WaitAdopted => if bool_decide (m_callers s !! c = None) then Some (adopt c a s) else None
      | _ => None
      end
  | ReportLost e => Some (report_lost e s)
  | SourceLost name instance_id => Some (_source_lost name instance_id s)
  | RunLoss => match m_loss s with e :: es => Some (run_loss e (set_m_loss es s)) | [] => None end
  | Wake c =>
      match m_callers s !! c with
      | Some cl => match awaited (c_wait cl) s with Some r => Some (wake v c cl r s) | None => None end
      | None => None
      end
  | TimeOut c => match m_callers s !! c with Some cl => time_out c cl s | None => None end
  | CancelCaller c => Some (set_m_callers (delete c (m_callers s)) s)
  | Acquire key =>
      match tasks_of key s with
      | t :: _ => match t_phase t with Waiting => Some (begin v t s) | _ => None end
      | [] => None
      end
  | Answer key a => match tasks_of key s with t :: _ => resume v t a s | [] => None end
  | RetiredLate object cancelled _ =>
      match List.find (fun l => (l.1 =? object)%nat) (m_late s) with
      | Some (_, key) =>
          Some (_retired_late key (WorkspaceRetireTimeout object) cancelled
                  (set_m_late (filter (fun l => l.1 <> object) (m_late s)) s))
      | None => None
      end
  | Inventory r => match m_adoption s with Some Inventoried => Some (inventory r s) | _ => None end
  | Gathered =>
      match m_adoption s with
      | Some (Gathering ts) => match gathered ts s with Some r => Some (adoption_ends r s) | None => None end
      | _ => None
      end
  | CancelAdoption => Some (cancel_adoption s)
  end.
End manager.
