(* ===== verification/ManagerInv.v ===== *)
(** * The invariant of one Workspace of the manager

    Every segment of the manager moves one Workspace, so the invariant is stated per Workspace
    on its published endpoint, its tasks, its error and its slot ([kview]).  Whoever may still
    act on the unit of a Workspace carries one claim: the publication, the task that works on
    it, or the task that will ([claim]); there is never more than one, and a unit the source
    has not confirmed gone is held by a claim or by a recorded error. *)

From stdpp Require Import fin_sets gmap.
From S2P Require Import Prelude Sha256 PyJson Refs Config StateRefs Effects Storage Wire Delivery Manager.
Local Open Scope Z_scope.

(** ** One Workspace *)

Record kview := mkK { ka : option WorkspaceEndpoint; kq : list task; kx : option mexn; ko : bool }.
Definition kv (k : string) (s : mstate) : kview :=
  mkK (m_active s !! k) (tasks_of k s) (m_errors s !! k) (bool_decide (k ∈ m_occupied s)).

(** What the parts of a segment do to it. *)
Definition Kactive v K := mkK v (kq K) (kx K) (ko K).
Definition Kerror v K := mkK (ka K) (kq K) v (ko K).
Definition Kslot v K := mkK (ka K) (kq K) (kx K) v.
Definition Kphase p K :=
  mkK (ka K) (match kq K with t :: ts => mkT (t_id t) (t_ref t) (t_work t) p :: ts | [] => [] end) (kx K) (ko K).
Definition Kdone K := mkK (ka K) (tail (kq K)) (kx K) (ko K).
Definition Kpush t K := mkK (ka K) (kq K ++ [t]) (kx K) (ko K).

(** The claims on the unit of a Workspace, and the claims that hold a unit. *)
Definition claim (t : task) : nat :=
  match t_phase t, t_work t with
  | Waiting, (WRecover _ | WClose _ None) | Yielding, _ => 0
  | _, _ => 1
  end.
Definition hold (t : task) : nat :=
  match t_phase t, t_work t with
  | Waiting, WActivate _ | Placing _ _, _ => 0
  | _, _ => claim t
  end.
Definition pub (a : option WorkspaceEndpoint) : nat := match a with Some _ => 1 | None => 0 end.
Definition claims (K : kview) : nat := pub (ka K) + sum_list_with claim (kq K).
Definition holds (K : kview) : nat := pub (ka K) + sum_list_with hold (kq K).
Definition placing (t : task) : bool := match t_phase t with Placing _ _ => true | _ => false end.
(** The claims that hold a unit or wait for [place]. *)
Definition act (t : task) : nat := if placing t then 1 else hold t.
Definition acts (K : kview) : nat := pub (ka K) + sum_list_with act (kq K).
(** Only an adoption stands at the awaits of [_adopt_one], and it never places. *)
Definition fits (t : task) : bool :=
  match t_phase t with
  | AProbing _ | AReconnecting _ _ | Yielding | AwaitingGateway _ => bool_decide (kind_of (t_work t) = KAdopt)
  | Placing _ _ | Retiring _ ThenRecover => bool_decide (kind_of (t_work t) <> KAdopt)
  | _ => true
  end.
(** [unit] says whether a unit was handed over and not confirmed gone. *)
Record sound (k : string) (K : kview) (unit : Prop) : Prop := {
  so_claims : (claims K <= 1)%nat;
  so_holds : unit -> kx K <> None \/ (1 <= holds K)%nat;
  so_slot : unit -> ko K = true;
  so_place : unit -> Forall (fun t => placing t = false) (kq K);
  so_room : ko K = false -> Forall (fun t => placing t = false) (kq K);
  so_late : forall o, kx K = Some (WorkspaceRetireTimeout o) -> acts K = 0%nat;
  so_ref : Forall (fun t => wr_workspace_ref (t_ref t) = k) (kq K);
  so_fits : Forall (fun t => fits t = true) (kq K)
}.

Lemma hold_claim t : (hold t <= claim t)%nat.
Proof. unfold hold, claim. destruct (t_phase t), (t_work t) as [|? []| | | |]; lia. Qed.
Lemma holds_claims K : (holds K <= claims K)%nat.
Proof.
  unfold holds, claims. enough (sum_list_with hold (kq K) <= sum_list_with claim (kq K))%nat by lia.
  induction (kq K) as [|t ts IH]; [done|]. cbn. pose proof (hold_claim t). lia.
Qed.

Lemma act_hold t : (hold t <= act t <= claim t)%nat.
Proof. unfold act, placing, hold, claim. destruct (t_phase t), (t_work t) as [|? []| | | |]; lia. Qed.
Lemma sum_act_claim ts : (sum_list_with act ts <= sum_list_with claim ts)%nat.
Proof. induction ts as [|t ts IH]; [done|]. cbn. pose proof (act_hold t). lia. Qed.

(** ** The parts of a segment, on one Workspace *)

Ltac fields :=
  cbn [m_occupied m_active m_errors m_lost m_adoption m_queue m_results m_callers m_next m_late m_released m_loss m_calls
       set_m_occupied set_m_active set_m_errors set_m_lost set_m_adoption set_m_queue set_m_results set_m_callers
       set_m_next set_m_late set_m_released set_m_loss set_m_calls
       publish unpublish record_error _release _wake_slot_waiters say spawn snd fst].

Section parts.
Implicit Types (s : mstate) (k key : string).
Lemma kv_say k c s : kv k (say c s) = kv k s. Proof. done. Qed.
Lemma kv_calls k v s : kv k (set_m_calls v s) = kv k s. Proof. done. Qed.
Lemma kv_lost k v s : kv k (set_m_lost v s) = kv k s. Proof. done. Qed.
Lemma kv_late k v s : kv k (set_m_late v s) = kv k s. Proof. done. Qed.
Lemma kv_next k v s : kv k (set_m_next v s) = kv k s. Proof. done. Qed.
Lemma kv_loss k v s : kv k (set_m_loss v s) = kv k s. Proof. done. Qed.
Lemma kv_adoption k v s : kv k (set_m_adoption v s) = kv k s. Proof. done. Qed.
Lemma kv_callers k v s : kv k (set_m_callers v s) = kv k s. Proof. done. Qed.
Lemma kv_wake k s : kv k (_wake_slot_waiters s) = kv k s. Proof. done. Qed.
Lemma kv_publish k e s : kv k (publish k e s) = Kactive (Some e) (kv k s).
Proof. unfold kv, Kactive. fields. by rewrite lookup_insert_eq. Qed.
Lemma kv_unpublish k s : kv k (unpublish k s) = Kactive None (kv k s).
Proof. unfold kv, Kactive. fields. by rewrite lookup_delete_eq. Qed.
Lemma kv_error k x s : kv k (record_error k x s) = Kerror (Some x) (kv k s).
Proof. unfold kv, Kerror. fields. by rewrite lookup_insert_eq. Qed.
Lemma kv_release k s : kv k (_release k s) = Kslot false (Kerror None (kv k s)).
Proof. unfold kv, Kslot, Kerror. fields. rewrite lookup_delete_eq, bool_decide_false by set_solver. done. Qed.
Lemma kv_occupy k s : kv k (set_m_occupied ({[k]} ∪ m_occupied s) s) = Kslot true (kv k s).
Proof. unfold kv, Kslot. fields. rewrite bool_decide_true by set_solver. done. Qed.
Lemma kv_phase k p s : kv k (at_phase p k s) = Kphase p (kv k s).
Proof.
  unfold kv, at_phase, Kphase. destruct (tasks_of k s) as [|t ts] eqn:E; cbn [kq]; [by rewrite E|].
  unfold tasks_of at 1. fields. by rewrite lookup_insert_eq.
Qed.
Lemma kv_finish k r s : kv k (finish r k s) = Kdone (kv k s).
Proof.
  unfold kv, finish, Kdone. destruct (tasks_of k s) as [|t ts] eqn:E; cbn [kq]; [by rewrite E|].
  unfold tasks_of at 1. fields. by rewrite lookup_insert_eq.
Qed.
Lemma kv_spawn ref w s :
  kv (wr_workspace_ref ref) (snd (spawn ref w s)) = Kpush (mkT (m_next s) ref w Waiting) (kv (wr_workspace_ref ref) s).
Proof. unfold kv, tasks_of at 1. fields. by rewrite lookup_insert_eq. Qed.

(** The other Workspaces. *)
Lemma other_publish k key e s : k <> key -> kv k (publish key e s) = kv k s.
Proof. intros. unfold kv. fields. by rewrite lookup_insert_ne. Qed.
Lemma other_unpublish k key s : k <> key -> kv k (unpublish key s) = kv k s.
Proof. intros. unfold kv. fields. by rewrite lookup_delete_ne. Qed.
Lemma other_error k key x s : k <> key -> kv k (record_error key x s) = kv k s.
Proof. intros. unfold kv. fields. by rewrite lookup_insert_ne. Qed.
Lemma other_release k key s : k <> key -> kv k (_release key s) = kv k s.
Proof.
  intros. unfold kv. fields. rewrite lookup_delete_ne by done.
  f_equal. apply bool_decide_ext. set_solver.
Qed.
Lemma other_occupy k key s : k <> key -> kv k (set_m_occupied ({[key]} ∪ m_occupied s) s) = kv k s.
Proof. intros. unfold kv. fields. f_equal. apply bool_decide_ext. set_solver. Qed.
Lemma other_queue k key ts s : k <> key -> kv k (set_m_queue (<[key := ts]> (m_queue s)) s) = kv k s.
Proof. intros. unfold kv, tasks_of. fields. by rewrite lookup_insert_ne. Qed.
Lemma other_phase k key p s : k <> key -> kv k (at_phase p key s) = kv k s.
Proof. intros. unfold at_phase. destruct (tasks_of key s); [done|]. by apply other_queue. Qed.
Lemma other_finish k key r s : k <> key -> kv k (finish r key s) = kv k s.
Proof.
  intros. unfold finish. destruct (tasks_of key s); [done|].
  change (kv k (set_m_queue (<[key := l]> (m_queue s)) s) = kv k s). by apply other_queue.
Qed.
Lemma other_spawn k ref w s : k <> wr_workspace_ref ref -> kv k (snd (spawn ref w s)) = kv k s.
Proof. intros. unfold spawn. cbn [snd]. rewrite kv_next. by apply other_queue. Qed.
End parts.
Create Rewrite HintDb kv.
#[global] Hint Rewrite kv_say kv_calls kv_lost kv_late kv_next kv_loss kv_adoption kv_callers kv_wake
  kv_publish kv_unpublish kv_error kv_release kv_occupy kv_phase kv_finish : kv.
#[global] Hint Rewrite other_publish other_unpublish other_error other_release other_occupy other_phase other_finish
  other_spawn using assumption : kv.

Ltac kvs := autorewrite with kv.
(** A segment on one Workspace leaves the others as they are. *)
Ltac frame := repeat case_match; kvs; done.

Section frames.
Context (config : RuntimeConfig) (has_restore has_commit has_health : bool).
Context (k : string).

Lemma other_run ref w s : k <> wr_workspace_ref ref -> kv k (snd (_run ref w s)) = kv k s.
Proof. intros. unfold _run. destruct (find_kind _ _ _); [done|]. by apply other_spawn. Qed.
Lemma other_reserve key s s' : k <> key -> _reserve config key s = Ok s' -> kv k s' = kv k s.
Proof.
  intros Hk. unfold _reserve. case_bool_decide; [by intros [= <-]|].
  destruct (negb _); intros [= <-]. by kvs.
Qed.
Lemma other_retire key name x s : k <> key -> kv k (_retire key name x s) = kv k s.
Proof. intros. unfold _retire. by kvs. Qed.
Lemma other_start v d key s : k <> key -> kv k (_start config v d key s) = kv k s.
Proof. intros. unfold _start. frame. Qed.
Lemma other_activate v d key s : k <> key -> kv k (_activate config v d key s) = kv k s.
Proof.
  intros Hk. unfold _activate. destruct (m_errors s !! key); [by kvs|]. destruct (m_active s !! key); [by kvs|].
  destruct (_reserve config key s) eqn:E; [|by kvs]. rewrite other_start by done. by eapply other_reserve.
Qed.
Lemma other_observed v p e key name s : k <> key -> kv k (start_observed has_restore v p e key name s) = kv k s.
Proof. intros. unfold start_observed, start_fails, start_reconnects, _retire. frame. Qed.
Lemma other_placed r d key name s : k <> key -> kv k (place_answered has_health r d key name s) = kv k s.
Proof. intros. unfold place_answered, start_probes, start_fails, _retire. frame. Qed.
Lemma other_probed v r ref p key name s : k <> key -> kv k (probe_answered has_restore v r ref p key name s) = kv k s.
Proof.
  intros. unfold probe_answered, start_fails, _retire. repeat case_match; kvs; try done; by apply other_observed.
Qed.
Lemma other_commit r e ref key name s : k <> key -> kv k (commit_answered config r e ref key name s) = kv k s.
Proof. intros. unfold commit_answered, _retire. frame. Qed.
Lemma other_close u ref key name s : k <> key -> kv k (_do_close config has_commit u ref key name s) = kv k s.
Proof.
  intros. unfold _do_close. repeat case_match; kvs; try done; rewrite other_commit by done; by kvs.
Qed.
Lemma other_recover lost key s : k <> key -> kv k (_do_recover config lost key s) = kv k s.
Proof. intros. unfold _do_recover, _retire. frame. Qed.
Lemma other_adopt_fails v x ref p s :
  k <> wr_workspace_ref ref -> kv k (adopt_fails v x ref p (wr_workspace_ref ref) s) = kv k s.
Proof.
  intros. unfold adopt_fails, _defer_adoption. repeat case_match; kvs; try done. by apply other_run.
Qed.
Lemma other_adopt_one v ref p s :
  k <> wr_workspace_ref ref -> kv k (_adopt_one config has_health v ref p (wr_workspace_ref ref) s) = kv k s.
Proof. intros. unfold _adopt_one, adopt_probes. case_match; [by apply other_adopt_fails|by kvs]. Qed.
Lemma other_gateway v ref p s :
  k <> wr_workspace_ref ref ->
  kv k (_adopt_when_gateway_returns config has_health v ref p (wr_workspace_ref ref) s) = kv k s.
Proof. intros. unfold _adopt_when_gateway_returns. case_match; [by apply other_adopt_one|by kvs]. Qed.
Lemma other_times_out key s : k <> key -> kv k (retire_times_out key s) = kv k s.
Proof. intros. unfold retire_times_out. by kvs. Qed.
Lemma other_retired v r x key s : k <> key -> kv k (retire_answered config v r x key s) = kv k s.
Proof.
  intros Hk. unfold retire_answered. destruct r as [[[]|[]]|], x; cbv zeta; try (by kvs);
    try (kvs; by apply other_times_out).
  destruct (_reserve config key (_release key s)) eqn:E; [|by kvs].
  rewrite other_start by done. erewrite other_reserve by done. by kvs.
Qed.

Lemma other_begin v t s : k <> wr_workspace_ref (t_ref t) -> kv k (begin config has_commit has_health v t s) = kv k s.
Proof.
  intros. unfold begin. destruct (t_work t); auto using other_activate, other_close, other_recover, other_retire, other_adopt_one, other_gateway.
Qed.
Lemma other_resume v t a s s' :
  k <> wr_workspace_ref (t_ref t) -> resume config has_restore has_health v t a s = Some s' -> kv k s' = kv k s.
Proof.
  intros Hk. unfold resume, adopt_probed, adopt_reconnected, start_reconnects, start_serves, start_fails.
  repeat case_match; intros E; try discriminate; apply (inj Some) in E; subst s'; kvs; try done;
    auto using other_placed, other_probed, other_commit, other_adopt_fails, other_gateway, other_retired, other_retire.
Qed.
End frames.

(** ** A segment keeps the Workspace sound *)

Lemma sum_hold_claim ts : (sum_list_with hold ts <= sum_list_with claim ts)%nat.
Proof. induction ts as [|t ts IH]; [done|]. cbn. pose proof (hold_claim t). lia. Qed.

Ltac claims_tac :=
  lazymatch goal with H : sound _ ?K _ |- sound _ _ _ =>
    destruct H as [Hc Hh Hs Hp Hro Hl Hr Hf]; constructor; unfold claims, holds, acts in *; cbn [Kactive Kerror Kslot Kphase Kdone Kpush ka kq kx ko tail] in *
  end.

(** The goals about every task: from the same fact about the tasks before. *)
Ltac tasks :=
  solve
    [intros;
     repeat match goal with
            | H : ?P -> Forall _ _, U : ?P |- _ => specialize (H U)
            | H : Forall _ (_ :: _) |- _ => apply Forall_cons in H as [? H]
            end;
     repeat first [done | apply Forall_cons; split | apply Forall_app; split | apply Forall_nil]].

Section sound.
Context (config : RuntimeConfig) (has_restore has_commit has_health : bool).
Hypothesis names : forall key, exists n, name_of config key = Ok n.
Context (k : string).

Lemma kv_active s a q x o : kv k s = mkK a q x o -> m_active s !! k = a. Proof. by intros [= ?]. Qed.
Lemma kv_tasks s a q x o : kv k s = mkK a q x o -> tasks_of k s = q. Proof. by intros [= ?]. Qed.
Lemma kv_errors s a q x o : kv k s = mkK a q x o -> m_errors s !! k = x. Proof. by intros [= ?]. Qed.
Lemma kv_occupied s a q x o : kv k s = mkK a q x o -> bool_decide (k ∈ m_occupied s) = o. Proof. by intros [= ?]. Qed.
Lemma kv_reserve s s' : _reserve config k s = Ok s' -> kv k s' = Kslot true (kv k s).
Proof.
  unfold _reserve. case_bool_decide as E; [intros [= <-]|destruct (negb _); intros [= <-]; by kvs].
  unfold kv, Kslot. cbn. by rewrite (bool_decide_true _ E).
Qed.

(** The head goes on, and keeps what it holds. *)
Lemma sound_phase K t ts p u :
  sound k K u -> kq K = t :: ts ->
  placing (mkT (t_id t) (t_ref t) (t_work t) p) = false -> fits (mkT (t_id t) (t_ref t) (t_work t) p) = true ->
  (claim (mkT (t_id t) (t_ref t) (t_work t) p) <= claim t)%nat ->
  (hold t <= hold (mkT (t_id t) (t_ref t) (t_work t) p))%nat ->
  (act (mkT (t_id t) (t_ref t) (t_work t) p) <= act t)%nat ->
  sound k (Kphase p K) u.
Proof.
  destruct K as [a q x o]. cbn [kq]. intros H -> Hpl Hfit Hc1 Hh1 Ha1. claims_tac; cbn [sum_list_with] in *.
  - lia.
  - intros U. destruct (Hh U); [by left|right; lia].
  - done.
  - intros U. specialize (Hp U). inversion Hp; subst. by constructor.
  - intros U. specialize (Hro U). inversion Hro; subst. by constructor.
  - intros i U. specialize (Hl i U). lia.
  - inversion Hr; subst. by constructor.
  - inversion Hf; subst. by constructor.
Qed.
Lemma sound_done K t ts u :
  sound k K u -> kq K = t :: ts -> (u -> kx K <> None \/ hold t = 0%nat) -> sound k (Kdone K) u.
Proof.
  destruct K as [a q x o]. cbn [kq kx]. intros H -> Hu. claims_tac; cbn [sum_list_with] in *.
  - lia.
  - intros U. destruct (Hh U); [by left|]. destruct (Hu U); [by left|right; lia].
  - done.
  - intros U. specialize (Hp U). by inversion Hp.
  - intros U. specialize (Hro U). by inversion Hro.
  - intros i U. specialize (Hl i U). lia.
  - by inversion Hr.
  - by inversion Hf.
Qed.
Lemma sound_push K t u :
  sound k K u -> claim t = 0%nat -> placing t = false -> fits t = true -> wr_workspace_ref (t_ref t) = k -> sound k (Kpush t K) u.
Proof.
  destruct K as [a q x o]. intros H Hc1 Hpl Hfit Href. claims_tac; rewrite ?sum_list_with_app; cbn [sum_list_with].
  - lia.
  - intros U. destruct (Hh U); [by left|right; lia].
  - done.
  - intros U. apply Forall_app. split; [by apply Hp|by constructor].
  - intros U. apply Forall_app. split; [by apply Hro|by constructor].
  - intros i U. specialize (Hl i U). pose proof (act_hold t). lia.
  - apply Forall_app. split; [done|by constructor].
  - apply Forall_app. split; [done|by constructor].
Qed.

Lemma claim_le t : (claim t <= 1)%nat.
Proof. unfold claim. destruct (t_phase t), (t_work t) as [|? []| | | |]; lia. Qed.
Lemma sound_dead K u : ~ u -> (claims K <= 1)%nat -> Forall (fun t => wr_workspace_ref (t_ref t) = k) (kq K) ->
  Forall (fun t => fits t = true) (kq K) -> ko K = true -> (forall o, kx K <> Some (WorkspaceRetireTimeout o)) ->
  sound k K u.
Proof. intros Hu Hc Hr Hf Ho Hx. constructor; try done; [congruence|]. intros o E. by destruct (Hx o). Qed.
Lemma sound_slot K u : sound k K u -> sound k (Kslot true K) u.
Proof. intros []. by constructor. Qed.
Lemma sound_weaken K (u u' : Prop) : sound k K u -> (u' -> u) -> sound k K u'.
Proof. intros []. constructor; auto. Qed.

Section head.
Context (s : mstate) (t : task) (ts : list task) (u : Prop).
Hypothesis Hs : sound k (kv k s) u.
Hypothesis Hq : tasks_of k s = t :: ts.

Lemma head_ref : wr_workspace_ref (t_ref t) = k.
Proof. pose proof (so_ref _ _ _ Hs) as H. cbn in H. rewrite Hq in H. by inversion H. Qed.
Lemma head_fits : fits t = true.
Proof. pose proof (so_fits _ _ _ Hs) as H. cbn in H. rewrite Hq in H. by inversion H. Qed.
Lemma to_phase p :
  (forall n d, p <> Placing n d) -> fits (mkT (t_id t) (t_ref t) (t_work t) p) = true ->
  hold t = 1%nat -> p <> Waiting -> p <> Yielding -> sound k (kv k (at_phase p k s)) u.
Proof.
  intros Hp Hf Hc Hw Hy. kvs. pose proof (act_hold t) as Ht.
  assert (hold (mkT (t_id t) (t_ref t) (t_work t) p) = 1%nat) as E by (destruct p; try done; by destruct (Hp name deadline)).
  assert (placing (mkT (t_id t) (t_ref t) (t_work t) p) = false) as Ep by (destruct p; try done; by destruct (Hp name deadline)).
  pose proof (claim_le (mkT (t_id t) (t_ref t) (t_work t) p)).
  apply (sound_phase _ _ ts p u Hs Hq); try done; [lia..|]. unfold act at 1. rewrite Ep, E. lia.
Qed.
Lemma to_done r : (u -> m_errors s !! k <> None \/ hold t = 0%nat) -> sound k (kv k (finish r k s)) u.
Proof. intros H. kvs. by apply (sound_done _ _ ts u Hs Hq). Qed.
End head.

Lemma to_retire s t ts u name x :
  sound k (kv k s) u -> tasks_of k s = t :: ts -> hold t = 1%nat -> x <> ThenRecover -> sound k (kv k (_retire k name x s)) u.
Proof. intros Hs Hq Hc Hx. apply (to_phase (say (CRetire k name) s) t ts); try done. by destruct x.
Qed.
(** [place] is called while no unit is left. *)
Lemma to_start s t ts u v d :
  sound k (kv k s) u -> tasks_of k s = t :: ts -> claim t = 1%nat -> ~ u ->
  bool_decide (k ∈ m_occupied s) = true -> m_errors s !! k = None -> kind_of (t_work t) <> KAdopt -> sound k (kv k (_start config v d k s)) u.
Proof.
  intros Hs Hq Hc Hu Ho Hx Hk. unfold _start. destruct (names k) as [n ->]. cbv zeta. kvs. apply sound_dead; [done|..].
  - pose proof (so_claims _ _ _ Hs) as H. unfold claims in *. cbn in *. rewrite Hq in *. cbn in *. rewrite Hc in H. exact H.
  - pose proof (so_ref _ _ _ Hs) as H. cbn in *. rewrite Hq in *. inversion H; subst. by constructor.
  - pose proof (so_fits _ _ _ Hs) as H. cbn in *. rewrite Hq in *. inversion H; subst.
    constructor; [|done]. unfold fits. cbn. by apply bool_decide_eq_true.
  - done.
  - intros o. cbn. by rewrite Hx.
Qed.

(** ** The first segment of a task *)

Lemma find_kind_none kd s : find_kind kd k s = None -> Forall (fun t => kind_of (t_work t) <> kd) (tasks_of k s).
Proof.
  unfold find_kind. intros H. apply Forall_forall. intros t Ht E. pose proof (find_none _ _ H t) as Hn.
  cbn in Hn. rewrite bool_decide_true in Hn by done. by discriminate Hn; apply list_elem_of_In.
Qed.
Lemma find_kind_some kd s t : find_kind kd k s = Some t -> t ∈ tasks_of k s /\ kind_of (t_work t) = kd.
Proof.
  unfold find_kind. intros [H1 H2]%find_some. split; [by apply list_elem_of_In|]. by apply bool_decide_eq_true in H2.
Qed.
Lemma claim_sum t ts : t ∈ ts -> (claim t <= sum_list_with claim ts)%nat.
Proof. induction 1 as [|???? IH]; cbn; lia. Qed.

Lemma claim_adopt t : kind_of (t_work t) = KAdopt -> t_phase t <> Yielding -> claim t = 1%nat.
Proof. unfold claim. destruct (t_work t), (t_phase t); done. Qed.
Lemma hold_adopt t : kind_of (t_work t) = KAdopt -> t_phase t <> Yielding -> fits t = true -> hold t = 1%nat.
Proof. unfold hold, claim, fits. destruct (t_work t), (t_phase t); done. Qed.
Lemma claim_retire t : kind_of (t_work t) = KRetire -> fits t = true -> claim t = 1%nat.
Proof. unfold claim, fits. destruct (t_work t), (t_phase t); try done. Qed.

Lemma to_adopt_fails s t ts u v x p :
  sound k (kv k s) u -> tasks_of k s = t :: ts -> kind_of (t_work t) = KAdopt -> t_phase t <> Yielding ->
  x <> CancelledErr -> sound k (kv k (adopt_fails v x (t_ref t) p k s)) u.
Proof.
  intros Hs Hq Hk Hy Hx. pose proof (claim_adopt t Hk Hy) as Hc1. pose proof (hold_adopt t Hk Hy (head_fits s t ts u Hs Hq)) as Hh1. pose proof (head_ref s t ts u Hs Hq) as Href.
  unfold adopt_fails. rewrite bool_decide_false by done. destruct (negb (v_gateway v)).
  - unfold _defer_adoption. kvs. pose proof (kv_spawn (t_ref t) (WDeferred p) s) as E. rewrite Href in E. rewrite E.
    set (d := mkT _ _ _ _). assert (wr_workspace_ref (t_ref d) = k) as Hd by done.
    revert Hs. unfold kv. rewrite Hq. intros Hs. claims_tac; cbn [sum_list_with app tail] in *; rewrite ?sum_list_with_app; cbn [sum_list_with].
    + rewrite Hc1 in Hc. change (claim d) with 1%nat. lia.
    + intros U. right. change (hold d) with 1%nat. lia.
    + done.
    + tasks.
    + tasks.
    + intros i U. specialize (Hl i U). pose proof (act_hold t). lia.
    + tasks.
    + tasks.
  - unfold _run. cbn [kind_of]. rewrite Href. destruct (find_kind KRetire k s) as [t'|] eqn:Ef.
    { apply find_kind_some in Ef as [Hin Hk']. exfalso. pose proof (so_claims _ _ _ Hs) as H. unfold claims in H. cbn in H.
      pose proof (so_fits _ _ _ Hs) as Hf. cbn in Hf. rewrite Hq in *. cbn in H. apply elem_of_cons in Hin as [->|Hin]; [congruence|].
      rewrite Forall_forall in Hf. pose proof (claim_retire t' Hk' (Hf t' ltac:(by right))). pose proof (claim_sum t' ts Hin). lia. }
    kvs. pose proof (kv_spawn (t_ref t) (WRetire (p_name p)) s) as E. rewrite Href in E. rewrite E.
    set (d := mkT _ _ _ _). assert (wr_workspace_ref (t_ref d) = k) as Hd by done.
    revert Hs. unfold kv. rewrite Hq. intros Hs.
    claims_tac; cbn [sum_list_with app tail] in *; rewrite ?sum_list_with_app; cbn [sum_list_with];
      change (claim (mkT (t_id t) (t_ref t) (t_work t) Yielding)) with 0%nat;
      change (hold (mkT (t_id t) (t_ref t) (t_work t) Yielding)) with 0%nat.
    + change (claim d) with 1%nat. lia.
    + intros U. right. change (hold d) with 1%nat. lia.
    + done.
    + tasks.
    + tasks.
    + intros i U. specialize (Hl i U). pose proof (act_hold t). lia.
    + tasks.
    + assert (fits (mkT (t_id t) (t_ref t) (t_work t) Yielding) = true) by (unfold fits; cbn; by apply bool_decide_eq_true).
      tasks.
Qed.
Lemma to_adopt_one s t ts u v p :
  sound k (kv k s) u -> tasks_of k s = t :: ts -> kind_of (t_work t) = KAdopt -> t_phase t <> Yielding ->
  sound k (kv k (_adopt_one config has_health v (t_ref t) p k s)) u.
Proof.
  intros Hs Hq Hk Hy. unfold _adopt_one. destruct (negb has_health); [by eapply to_adopt_fails|].
  unfold adopt_probes. apply (to_phase (say _ s) t ts); try done; [unfold fits; cbn; by rewrite bool_decide_true|by eapply hold_adopt, head_fits].
Qed.
Lemma to_gateway s t ts u v p :
  sound k (kv k s) u -> tasks_of k s = t :: ts -> kind_of (t_work t) = KAdopt -> t_phase t <> Yielding ->
  sound k (kv k (_adopt_when_gateway_returns config has_health v (t_ref t) p k s)) u.
Proof.
  intros Hs Hq Hk Hy. unfold _adopt_when_gateway_returns. destruct (v_gateway v); [by eapply to_adopt_one|].
  apply (to_phase (say _ s) t ts); try done; [unfold fits; cbn; by rewrite bool_decide_true|by eapply hold_adopt, head_fits].
Qed.
(** [_activate] places only when no unit is left. *)
Lemma to_activate s t ts u v d :
  sound k (kv k s) u -> tasks_of k s = t :: ts -> t_work t = WActivate d -> t_phase t = Waiting ->
  sound k (kv k (_activate config v d k s)) u.
Proof.
  intros Hs Hq Hw Hp. assert (hold t = 0%nat) as Hh0 by (unfold hold; by rewrite Hp, Hw).
  assert (claim t = 1%nat) as Hc1 by (unfold claim; by rewrite Hp, Hw).
  unfold _activate. destruct (m_errors s !! k) as [x|] eqn:Ex; [eapply to_done; [done|done|by right]|].
  destruct (m_active s !! k) as [e|] eqn:Ea; [eapply to_done; [done|done|by right]|].
  destruct (_reserve config k s) as [s'|x] eqn:Er; [|eapply to_done; [done|done|by right]].
  pose proof (kv_reserve s s' Er) as E.
  assert (~ u) as Hu.
  { intros U. destruct (so_holds _ _ _ Hs U) as [?|Hh]; [by cbn in *; rewrite Ex in *|].
    pose proof (so_claims _ _ _ Hs) as Hc. unfold claims, holds in *. cbn in *. rewrite Ea, Hq in *. cbn in *.
    pose proof (sum_hold_claim ts). lia. }
  apply (to_start s' t ts); [rewrite E; by apply sound_slot|change (kq (kv k s') = t :: ts); by rewrite E|done|done|..].
  - change (ko (kv k s') = true). by rewrite E.
  - change (kx (kv k s') = None). rewrite E. exact Ex.
  - by rewrite Hw.
Qed.

(** [_do_close] takes the publication, or the one it was created with. *)
Lemma to_commit s t ts u r e name :
  sound k (kv k s) u -> tasks_of k s = t :: ts -> hold t = 1%nat -> m_active s !! k = None ->
  (forall o, r <> Err (WorkspaceRetireTimeout o)) -> sound k (kv k (commit_answered config r e (t_ref t) k name s)) u.
Proof.
  intros Hs Hq Hh1 Ha Hrt. unfold commit_answered.
  assert (forall s' x, (forall o, x <> WorkspaceRetireTimeout o) -> kv k s' = kv k s ->
    sound k (kv k (finish (Err x) k (record_error k x s'))) u) as Hfail.
  { intros s' x Hx E. kvs. rewrite E. eapply sound_done; [|exact Hq|by left].
    destruct Hs. constructor; try done; [by left|]. intros o [= ->]. by destruct (Hx o). }
  destruct r as [receipt|x].
  - destruct (_validate_receipt _ _ _); [by eapply to_retire|by apply Hfail].
  - destruct x; try (by apply Hfail).
    + apply (to_retire (say _ (set_m_lost _ s)) t ts); done.
    + by destruct (Hrt object).
    + kvs. pose proof (act_hold t). revert Hs. unfold kv. rewrite Hq, Ha. intros Hs.
      claims_tac; cbn [sum_list_with] in *; change (pub (Some e)) with 1%nat; change (pub None) with 0%nat in *;
        [lia|by left|done|tasks..|done|tasks|tasks].
Qed.
Lemma to_close s t ts u n up name :
  sound k (kv k s) u -> tasks_of k s = t :: ts -> t_work t = WClose n up -> t_phase t = Waiting ->
  sound k (kv k (_do_close config has_commit up (t_ref t) k name s)) u.
Proof.
  intros Hs Hq Hw Hph0. unfold _do_close.
  set (endpoint := match m_active s !! k with Some e => Some e | None => up end).
  assert (claim t = pub up) as Hct by (unfold claim; rewrite Hph0, Hw; by destruct up).
  (* the publication, or what [close] took, becomes the claim of this task *)
  assert (forall e p, endpoint = Some e -> (exists n e, p = Committing n e) \/ (exists n, p = Retiring n ThenReturn) ->
    sound k (Kphase p (Kactive None (kv k s))) u) as Htake.
  { intros e p He Hph. revert Hs. unfold kv. rewrite Hq. intros Hs.
    assert (forall i r w, claim (mkT i r w p) = 1%nat /\ hold (mkT i r w p) = 1%nat /\ fits (mkT i r w p) = true
      /\ placing (mkT i r w p) = false) as Hph' by (by intros; destruct Hph as [(?&?&->)|(?&->)]).
    destruct (Hph' (t_id t) (t_ref t) (t_work t)) as (Ep1 & Ep2 & Ep3 & Ep4).
    claims_tac; cbn [sum_list_with] in *; rewrite ?Ep1, ?Ep2; change (pub None) with 0%nat.
    - subst endpoint. destruct (m_active s !! k); cbn in *; [lia|]. subst up. cbn in *. lia.
    - intros U. right. lia.
    - done.
    - tasks.
    - tasks.
    - intros o U. specialize (Hl o U). exfalso. subst endpoint.
      assert (act t = pub up) by (unfold act, placing, hold, claim; rewrite Hph0, Hw; by destruct up).
      destruct (m_active s !! k); cbn in *; [lia|]. subst up. cbn in *. lia.
    - tasks.
    - tasks. }
  assert (forall x, (forall o, x <> WorkspaceRetireTimeout o) ->
    sound k (Kdone (Kerror (Some x) (Kactive None (kv k s)))) u) as Hfail.
  { intros x Hx. revert Hs. unfold kv. rewrite Hq. intros Hs.
    claims_tac; cbn [sum_list_with] in *; change (pub None) with 0%nat; [lia|by left|done|tasks..|intros o [= E]; by destruct (Hx o)|tasks|tasks]. }
  cbv zeta. destruct endpoint as [e|] eqn:He; subst endpoint.
  - case_bool_decide as Ho.
    + kvs. assert (~ u) as Hu.
      { intros U. pose proof (so_slot _ _ _ Hs U) as H. cbn in H. apply bool_decide_eq_true in H. by apply Ho in H. }
      clear Hfail Htake. revert Hs. unfold kv. rewrite Hq. intros Hs. assert (act t <= claim t)%nat by apply act_hold.
      claims_tac; cbn [sum_list_with] in *; change (pub None) with 0%nat; [lia|done|done|tasks..| |tasks|tasks].
      intros o U. specialize (Hl o U). lia.
    + destruct has_commit; [kvs; eapply Htake; eauto|].
      unfold commit_answered, _retire. destruct (_validate_receipt _ _ _); kvs; [eapply Htake; eauto|by apply Hfail].
  - assert (m_active s !! k = None /\ up = None) as [Ha ->] by (by destruct (m_active s !! k)).
    kvs. assert (Kactive None (kv k s) = kv k s) as -> by (unfold Kactive, kv; cbn; by rewrite Ha).
    eapply sound_done; [done|exact Hq|]. intros _. right. unfold hold, claim. by rewrite Hph0, Hw.
Qed.
(** [_do_recover] takes the publication of the instance that was lost. *)
Lemma to_recover s t ts u lost :
  sound k (kv k s) u -> tasks_of k s = t :: ts -> t_work t = WRecover lost -> t_phase t = Waiting ->
  sound k (kv k (_do_recover config lost k s)) u.
Proof.
  intros Hs Hq Hw Hph0. assert (hold t = 0 /\ claim t = 0)%nat as [Hh0 Hc0] by (unfold hold, claim; by rewrite Hph0, Hw).
  unfold _do_recover. destruct (m_active s !! k) as [e|] eqn:Ha; [|eapply to_done; [done|done|by right]].
  destruct (negb _); [eapply to_done; [done|done|by right]|]. destruct (names k) as [name ->]. unfold _retire. kvs.
  revert Hs. unfold kv. rewrite Hq, Ha. intros Hs. claims_tac; cbn [sum_list_with] in *; change (pub None) with 0%nat;
    try change (claim (mkT _ _ _ (Retiring name ThenRecover))) with 1%nat;
    try change (hold (mkT _ _ _ (Retiring name ThenRecover))) with 1%nat.
  - cbn in *. lia.
  - intros _. right. lia.
  - done.
  - tasks.
  - tasks.
  - intros o U. specialize (Hl o U). cbn in Hl. lia.
  - tasks.
  - assert (fits (mkT (t_id t) (t_ref t) (t_work t) (Retiring name ThenRecover)) = true) by (unfold fits; cbn; by rewrite Hw).
    tasks.
Qed.

Lemma begin_sound s t ts u v :
  sound k (kv k s) u -> tasks_of k s = t :: ts -> t_phase t = Waiting ->
  sound k (kv k (begin config has_commit has_health v t s)) u.
Proof.
  intros Hs Hq Hp. pose proof (head_ref s t ts u Hs Hq) as Href. unfold begin. rewrite Href.
  destruct (t_work t) as [d|n up|lost|name|p|p] eqn:Hw.
  - by eapply to_activate.
  - by eapply to_close.
  - by eapply to_recover.
  - eapply to_retire; [done|done| |done]. unfold hold, claim. by rewrite Hp, Hw.
  - eapply to_adopt_one; [done|done|by rewrite Hw|by rewrite Hp].
  - eapply to_gateway; [done|done|by rewrite Hw|by rewrite Hp].
Qed.

(** ** The segments after an answer *)

(** Whether a unit is left once the answer is known. *)
Definition unit_after (a : answer) (u : Prop) : Prop :=
  match a with Placed (Ok _) => True | Retired (Ok tt) => False | _ => u end.
(** What the environment answers: a retire and [wait_gateway] return, the tasks are never
    cancelled, and no callback raises the manager's own exceptions. *)
Definition lawful_answer (a : answer) : bool :=
  match a with
  | Retired (Err _) | GatewayAnswered (Err _) | Probed (Err CancelledErr) | Reconnected (Err CancelledErr)
  | Committed (Err (WorkspaceRetireTimeout _)) => false
  | _ => true
  end.

Lemma no_claims ts : sum_list_with claim ts = 0%nat -> Forall (fun t => placing t = false) ts.
Proof.
  induction ts as [|t ts IH]; [done|]. cbn. intros H. constructor; [|apply IH; lia].
  pose proof (act_hold t). unfold act in *. destruct (placing t); lia.
Qed.

Section resume.
Context (s : mstate) (t : task) (ts : list task) (u : Prop).
Hypothesis Hs : sound k (kv k s) u.
Hypothesis Hq : tasks_of k s = t :: ts.
Hypothesis Hc1 : claim t = 1%nat.

Lemma rest_claims : (pub (m_active s !! k) = 0 /\ sum_list_with claim ts = 0)%nat.
Proof. pose proof (so_claims _ _ _ Hs) as H. unfold claims in H. cbn in H. rewrite Hq in H. cbn in H. lia. Qed.
Lemma not_active : m_active s !! k = None.
Proof. destruct rest_claims as [H _]. by destruct (m_active s !! k). Qed.
Lemma to_placed p :
  placing t = true -> (exists n q, p = Probing n q) \/ (exists n x, p = Retiring n (ThenRaise x)) ->
  sound k (kv k (at_phase p k s)) True.
Proof.
  intros Hpl Hph. kvs. destruct rest_claims as [Ha Hr0]. revert Hs. unfold kv. rewrite Hq. intros Hs'.
  assert (claim (mkT (t_id t) (t_ref t) (t_work t) p) = 1 /\ hold (mkT (t_id t) (t_ref t) (t_work t) p) = 1
    /\ fits (mkT (t_id t) (t_ref t) (t_work t) p) = true /\ placing (mkT (t_id t) (t_ref t) (t_work t) p) = false)%nat
    as (E1 & E2 & E3 & E4) by (by destruct Hph as [(?&?&->)|(?&?&->)]).
  assert (act t = 1%nat) as Et by (unfold act; by rewrite Hpl).
  claims_tac; cbn [sum_list_with] in *.
  - lia.
  - intros _. right. lia.
  - intros _. destruct (bool_decide _); [done|]. specialize (Hro eq_refl). inversion Hro. congruence.
  - intros _. constructor; [done|by apply no_claims].
  - tasks.
  - intros i U. specialize (Hl i U). lia.
  - tasks.
  - tasks.
Qed.
(** The task ends after the source holds nothing any more. *)
Lemma to_released r : sound k (kv k (finish r k (_release k s))) False.
Proof.
  kvs. destruct rest_claims as [Ha Hr0]. revert Hs. unfold kv. rewrite Hq. intros Hs'.
  claims_tac; cbn [sum_list_with] in *; try done; try tasks; [lia|]. intros _. by apply no_claims.
Qed.
Lemma to_published e r : hold t = 1%nat -> sound k (kv k (finish r k (publish k e s))) u.
Proof.
  intros Hh1. kvs. destruct rest_claims as [Ha Hr0]. revert Hs. unfold kv. rewrite Hq. intros Hs'. pose proof (act_hold t).
  claims_tac; cbn [sum_list_with] in *; change (pub (Some e)) with 1%nat; try done; try tasks; [lia|right; lia|].
  intros i U. specialize (Hl i U). lia.
Qed.
Lemma to_timed_out r : sound k (kv k (finish r k (retire_times_out k s))) u.
Proof.
  unfold retire_times_out. kvs. destruct rest_claims as [Ha Hr0]. revert Hs. unfold kv. rewrite Hq. intros Hs'.
  pose proof (sum_act_claim ts). claims_tac; cbn [sum_list_with] in *; try done; try tasks; [lia|by left|lia].
Qed.
End resume.

(** The answers in [_start]. *)
Lemma placed_sound s t ts u r n d :
  sound k (kv k s) u -> tasks_of k s = t :: ts -> t_phase t = Placing n d ->
  sound k (kv k (place_answered has_health r d k n s)) (unit_after (Placed r) u).
Proof.
  intros Hs Hq Hp. assert (claim t = 1%nat) as Hc by (unfold claim; by rewrite Hp).
  assert (placing t = true) as Hpl by (unfold placing; by rewrite Hp).
  unfold place_answered, unit_after. destruct r as [p|x].
  - unfold start_probes, start_fails, _retire. destruct (negb has_health).
    + apply (to_placed (say _ s) t ts u); try done. right. eauto.
    + apply (to_placed (say _ s) t ts u); try done. left. eauto.
  - assert (~ u) as Hu.
    { intros U. pose proof (so_place _ _ _ Hs U) as H. cbn in H. rewrite Hq in H. inversion H. congruence. }
    destruct (holds_nothing x).
    + eapply sound_weaken; [by eapply to_released|done].
    + eapply to_done; [done|done|done].
Qed.
Lemma observed_sound s t ts u v p e n :
  sound k (kv k s) u -> tasks_of k s = t :: ts -> hold t = 1%nat ->
  sound k (kv k (start_observed has_restore v p e k n s)) u.
Proof.
  intros Hs Hq Hh. unfold start_observed, start_fails, start_reconnects.
  destruct (negb _); [by eapply to_retire|]. destruct has_restore; apply (to_phase (say _ s) t ts); done.
Qed.
Lemma probed_sound s t ts u v r p n :
  sound k (kv k s) u -> tasks_of k s = t :: ts -> hold t = 1%nat ->
  sound k (kv k (probe_answered has_restore v r (t_ref t) p k n s)) u.
Proof.
  intros Hs Hq Hh. unfold probe_answered, start_fails.
  destruct r as [i|[]]; try (by eapply observed_sound); by eapply to_retire.
Qed.
Lemma adopt_probed_sound s t ts u v r p :
  sound k (kv k s) u -> tasks_of k s = t :: ts -> t_phase t = AProbing p -> r <> Err CancelledErr ->
  sound k (kv k (adopt_probed v r (t_ref t) p k s)) u.
Proof.
  intros Hs Hq Hp Hr. pose proof (head_fits s t ts u Hs Hq) as Hfit. unfold fits in Hfit. rewrite Hp in Hfit.
  apply bool_decide_eq_true in Hfit. assert (t_phase t <> Yielding) as Hy by by rewrite Hp.
  unfold adopt_probed. destruct r as [i|x]; [|eapply to_adopt_fails; try done; congruence].
  destruct (negb _); [by eapply to_adopt_fails|].
  apply (to_phase (say _ s) t ts); try done; [unfold fits; cbn; by apply bool_decide_eq_true|by eapply hold_adopt, head_fits].
Qed.
Lemma adopt_reconnected_sound s t ts u v r p e :
  sound k (kv k s) u -> tasks_of k s = t :: ts -> t_phase t = AReconnecting p e -> r <> Err CancelledErr ->
  sound k (kv k (adopt_reconnected v r (t_ref t) p e k s)) u.
Proof.
  intros Hs Hq Hp Hr. pose proof (head_fits s t ts u Hs Hq) as Hfit. unfold fits in Hfit. rewrite Hp in Hfit.
  apply bool_decide_eq_true in Hfit. assert (t_phase t <> Yielding) as Hy by by rewrite Hp.
  unfold adopt_reconnected. destruct r as [[]|x]; [|eapply to_adopt_fails; try done; congruence].
  destruct (negb _); [by eapply to_adopt_fails|].
  eapply to_published; [done|done|by apply claim_adopt|by eapply hold_adopt, head_fits].
Qed.
Lemma retired_sound s t ts u v n x :
  sound k (kv k s) u -> tasks_of k s = t :: ts -> t_phase t = Retiring n x ->
  sound k (kv k (retire_answered config v (Some (Ok tt)) x k s)) False.
Proof.
  intros Hs Hq Hp. assert (claim t = 1%nat) as Hc by (unfold claim; by rewrite Hp).
  unfold retire_answered. destruct x; try (by eapply to_released).
  destruct (_reserve config k (_release k s)) as [s'|x] eqn:Er; [|by eapply to_released].
  pose proof (kv_reserve _ _ Er) as E. rewrite kv_release in E.
  assert (tasks_of k s' = t :: ts) as Hq' by (change (kq (kv k s') = t :: ts); by rewrite E).
  apply (to_start s' t ts); [|done|done|tauto|..].
  - rewrite E. destruct Hs. constructor; try done.
  - change (ko (kv k s') = true). by rewrite E.
  - change (kx (kv k s') = None). by rewrite E.
  - pose proof (head_fits s t ts u Hs Hq) as Hfit. unfold fits in Hfit. rewrite Hp in Hfit. by apply bool_decide_eq_true in Hfit.
Qed.

Lemma resume_sound s t ts u v a s' :
  sound k (kv k s) u -> tasks_of k s = t :: ts -> lawful_answer a = true ->
  resume config has_restore has_health v t a s = Some s' -> sound k (kv k s') (unit_after a u).
Proof.
  intros Hs Hq Hlaw. pose proof (head_ref s t ts u Hs Hq) as Href. pose proof (head_fits s t ts u Hs Hq) as Hfit.
  unfold resume. rewrite Href.
  destruct (t_phase t) as [|n d|n p|n p e|n p e|n e|n x|p|p e| |p] eqn:Hp, a as [r|r|r|r|r|r| |r|]; try discriminate;
    try (assert (hold t = 1%nat /\ claim t = 1%nat) as [Hh Hc] by (unfold hold, claim; by rewrite Hp));
    intros E; try (apply (inj Some) in E; subst s'); cbn [unit_after].
  - by eapply placed_sound.
  - by eapply probed_sound.
  - destruct r as [[]|x]; apply (inj Some) in E; subst s'.
    + apply (to_phase (say _ s) t ts); done.
    + by eapply to_retire.
  - destruct r as [[]|x]; apply (inj Some) in E; subst s'; unfold start_serves, start_fails; [|by eapply to_retire].
    destruct (negb _); [by eapply to_retire|]. by eapply to_published.
  - eapply to_commit; try done; [by eapply not_active|]. intros o ->. done.
  - destruct r as [[]|y]; [|done]. by eapply retired_sound.
  - unfold retire_answered. destruct x; by eapply to_timed_out.
  - eapply adopt_probed_sound; try done. intros ->. done.
  - eapply adopt_reconnected_sound; try done. intros ->. done.
  - eapply to_done; [done|done|]. intros _. right. unfold hold, claim. by rewrite Hp.
  - destruct r as [[]|x]; [|done]. apply (inj Some) in E; subst s'.
    unfold fits in Hfit. rewrite Hp in Hfit. apply bool_decide_eq_true in Hfit. eapply to_gateway; try done. by rewrite Hp.
Qed.
End sound.
