(* ===== verification/ManagerSteps.v ===== *)
(** * The steps of the Workspace manager

    [lawful] says what the source and the callbacks owe; [units_after] follows the units the
    source handed over and has not confirmed gone.  Every lawful step keeps every Workspace
    sound, the slots within the capacity or the adopted inventory, and calls [place] only for
    a Workspace without such a unit. *)

From stdpp Require Import fin_sets gmap.
From S2P Require Import Prelude Sha256 PyJson Refs Config StateRefs Effects Storage Wire Delivery Manager ManagerInv.
Local Open Scope Z_scope.

Definition keys_of (units : list (WorkspaceRef * Placement)) : list string := map (fun u => wr_workspace_ref u.1) units.

(** The environment keeps the contract of the source: answers are lawful, the inventory names
    each Workspace once, a retire that outlives its wait still ends with the unit gone.  A
    Workspace is closed by one caller at a time, as the lifecycle loop does, and the adoption
    is not cancelled, which only the shutdown does. *)
Definition lawful (ev : event) (s : mstate) : bool :=
  match ev with
  | Answer _ a => lawful_answer a
  | Close _ ref => bool_decide (Forall (fun t => kind_of (t_work t) <> KClose) (tasks_of (wr_workspace_ref ref) s))
  | RetiredLate _ cancelled confirmed => negb cancelled && confirmed
  | Inventory (Ok units) => bool_decide (NoDup (keys_of units))
  | CancelAdoption => false
  | _ => true
  end.
(** The Workspaces with a unit that may run: handed over by [place] or by the inventory, until
    the source confirms that it is gone. *)
Definition units_after (ev : event) (s : mstate) (g : gset string) : gset string :=
  match ev with
  | Answer key (Placed (Ok _)) => {[key]} ∪ g
  | Answer key (Retired (Ok tt)) => g ∖ {[key]}
  | RetiredLate object _ true =>
      match List.find (fun l => (l.1 =? object)%nat) (m_late s) with
      | Some (_, key) => if bool_decide (m_errors s !! key = Some (WorkspaceRetireTimeout object)) then g ∖ {[key]} else g
      | None => g
      end
  | Inventory (Ok units) => list_to_set (keys_of units) ∪ g
  | _ => g
  end.
Definition inventory_after (ev : event) (n : nat) : nat :=
  match ev with Inventory (Ok units) => length units | _ => n end.

Section steps.
Context (config : RuntimeConfig) (has_restore has_commit has_health : bool).
Abbreviation mstep := (step config has_restore has_commit has_health).
Inductive reach : mstate -> gset string -> nat -> Prop :=
  | reach_start : reach start_state ∅ 0
  | reach_step v ev s s' g n :
      reach s g n -> lawful ev s = true -> mstep v ev s = Some s' ->
      reach s' (units_after ev s g) (inventory_after ev n).

(** ** The invariant *)

Definition before_inventory (s : mstate) : bool :=
  match m_adoption s with None | Some Inventoried => true | _ => false end.
Definition recovery (t : task) : Prop := t_phase t = Waiting /\ exists l, t_work t = WRecover l.
Record Inv (s : mstate) (g : gset string) (n : nat) : Prop := {
  iv_sound : forall k, sound k (kv k s) (k ∈ g);
  iv_before : before_inventory s = true ->
    m_occupied s = ∅ /\ m_active s = ∅ /\ m_errors s = ∅ /\ m_late s = [] /\ forall k, Forall recovery (tasks_of k s);
  iv_room : Z.of_nat (size (m_occupied s)) <= Z.max (capacity config) (Z.of_nat n)
}.

Lemma Inv_start_state : Inv start_state ∅ 0.
Proof.
  split.
  - intros k. constructor; cbn; try constructor; try done.
  - intros _. split_and!; try done.
  - cbn. rewrite size_empty. lia.
Qed.

(** Steps that leave every Workspace as it is. *)
Definition quiet (s s' : mstate) : Prop :=
  (forall k, kv k s' = kv k s) /\ m_occupied s' = m_occupied s /\ m_active s' = m_active s /\ m_errors s' = m_errors s
  /\ m_late s' = m_late s /\ m_queue s' = m_queue s /\ (before_inventory s' = before_inventory s).
Lemma quiet_refl s : quiet s s. Proof. by split_and!. Qed.
Lemma quiet_trans s1 s2 s3 : quiet s1 s2 -> quiet s2 s3 -> quiet s1 s3.
Proof. intros (A1&A2&A3&A4&A5&A6&A7) (B1&B2&B3&B4&B5&B6&B7). split_and!; try congruence. Qed.
Lemma Inv_quiet s s' g n : quiet s s' -> Inv s g n -> Inv s' g n.
Proof.
  intros (Hk & Ho & Ha & Hx & Hl & Hq & Hb) [I1 I2 I3]. split.
  - intros k. by rewrite Hk.
  - rewrite Hb, Ho, Ha, Hx, Hl. intros H. destruct (I2 H) as (?&?&?&?&Hr). split_and!; try done.
    intros k. unfold tasks_of. rewrite Hq. apply Hr.
  - by rewrite Ho.
Qed.
Lemma quiet_wait c a w s : quiet s (wait_on c a w s). Proof. by split_and!. Qed.
Lemma quiet_return c e s : quiet s (return_to c e s). Proof. by split_and!. Qed.
Lemma quiet_raise c x s : quiet s (raise_to c x s). Proof. by split_and!. Qed.
Lemma quiet_calls l s : quiet s (set_m_calls l s). Proof. by split_and!. Qed.
Lemma quiet_adoption s : quiet s (begin_adoption s).
Proof.
  unfold begin_adoption. destruct (m_adoption s) eqn:E; [apply quiet_refl|].
  split_and!; try done. unfold before_inventory. fields. by rewrite E.
Qed.

(** ** The slots *)

Definition roomy (s s' : mstate) : Prop :=
  Z.of_nat (size (m_occupied s')) <= Z.max (capacity config) (Z.of_nat (size (m_occupied s))).
Lemma roomy_refl s : roomy s s. Proof. unfold roomy. lia. Qed.
Lemma roomy_trans s1 s2 s3 : roomy s1 s2 -> roomy s2 s3 -> roomy s1 s3.
Proof. unfold roomy. lia. Qed.
Lemma roomy_same s s' s'' : m_occupied s' = m_occupied s -> roomy s s'' -> roomy s' s''.
Proof. unfold roomy. by intros ->. Qed.
Lemma occupied_phase p k s : m_occupied (at_phase p k s) = m_occupied s.
Proof. unfold at_phase. by destruct (tasks_of k s). Qed.
Lemma occupied_finish r k s : m_occupied (finish r k s) = m_occupied s.
Proof. unfold finish. by destruct (tasks_of k s). Qed.
Lemma occupied_retire k n x s : m_occupied (_retire k n x s) = m_occupied s.
Proof. unfold _retire. by rewrite occupied_phase. Qed.
Lemma occupied_run ref w s : m_occupied (snd (_run ref w s)) = m_occupied s.
Proof. unfold _run. by destruct (find_kind _ _ _). Qed.
Lemma occupied_spawn ref w s : m_occupied (snd (spawn ref w s)) = m_occupied s. Proof. done. Qed.
Lemma roomy_reserve k s s' : _reserve config k s = Ok s' -> roomy s s'.
Proof.
  unfold _reserve, _has_slot, roomy. case_bool_decide as E; [intros [= <-]; lia|]. cbn [orb].
  destruct (Z.ltb_spec (Z.of_nat (size (m_occupied s))) (capacity config)); cbn [negb]; intros [= <-]. fields.
  rewrite size_union by set_solver. rewrite size_singleton. lia.
Qed.
Lemma roomy_release k s : roomy s (_release k s).
Proof. unfold roomy. fields. pose proof (subseteq_size (m_occupied s ∖ {[k]}) (m_occupied s) ltac:(set_solver)). lia. Qed.
End steps.
Create Rewrite HintDb occupied.
#[global] Hint Rewrite occupied_phase occupied_finish occupied_retire occupied_run occupied_spawn : occupied.
Ltac same_slots :=
  first [apply roomy_refl | unfold roomy; cbv zeta; repeat case_match; repeat (autorewrite with occupied; fields); lia].

Section slots.
Context (config : RuntimeConfig) (has_restore has_commit has_health : bool).
Lemma roomy_start v d k s : roomy config s (_start config v d k s).
Proof. unfold _start. same_slots. Qed.
Lemma roomy_activate v d k s : roomy config s (_activate config v d k s).
Proof.
  unfold _activate. destruct (m_errors s !! k); [same_slots|]. destruct (m_active s !! k); [same_slots|].
  destruct (_reserve config k s) eqn:E; [|same_slots].
  eapply roomy_trans; [exact (roomy_reserve _ _ _ _ E)|apply roomy_start].
Qed.
Lemma roomy_close u ref k n s : roomy config s (_do_close config has_commit u ref k n s).
Proof. unfold _do_close, commit_answered. same_slots. Qed.
Lemma roomy_recover l k s : roomy config s (_do_recover config l k s).
Proof. unfold _do_recover. same_slots. Qed.
Lemma roomy_adopt_fails v x ref p k s : roomy config s (adopt_fails v x ref p k s).
Proof. unfold adopt_fails, _defer_adoption. same_slots. Qed.
Lemma roomy_adopt_one v ref p k s : roomy config s (_adopt_one config has_health v ref p k s).
Proof. unfold _adopt_one, adopt_probes. case_match; [apply roomy_adopt_fails|same_slots]. Qed.
Lemma roomy_gateway v ref p k s : roomy config s (_adopt_when_gateway_returns config has_health v ref p k s).
Proof. unfold _adopt_when_gateway_returns. case_match; [apply roomy_adopt_one|same_slots]. Qed.
Lemma roomy_begin v t s : roomy config s (begin config has_commit has_health v t s).
Proof.
  unfold begin. destruct (t_work t);
    auto using roomy_activate, roomy_close, roomy_recover, roomy_adopt_one, roomy_gateway. same_slots.
Qed.
Lemma roomy_observed v p e k n s : roomy config s (start_observed has_restore v p e k n s).
Proof. unfold start_observed, start_fails, start_reconnects. same_slots. Qed.
Lemma roomy_placed r d k n s : roomy config s (place_answered has_health r d k n s).
Proof.
  unfold place_answered, start_probes, start_fails. destruct r as [?|x]; [same_slots|].
  destruct (holds_nothing x); [|same_slots]. eapply roomy_trans; [apply (roomy_release _ k)|same_slots].
Qed.
Lemma roomy_retired v r x k s : roomy config s (retire_answered config v r x k s).
Proof.
  unfold retire_answered, retire_times_out. destruct r as [[[]|[]]|]; try same_slots.
  destruct x; try (eapply roomy_trans; [apply (roomy_release _ k)|same_slots]).
  destruct (_reserve config k (_release k s)) eqn:E.
  - eapply roomy_trans; [apply (roomy_release _ k)|]. eapply roomy_trans; [exact (roomy_reserve _ _ _ _ E)|apply roomy_start].
  - eapply roomy_trans; [apply (roomy_release _ k)|same_slots].
Qed.
Lemma roomy_probed v r ref p k n s : roomy config s (probe_answered has_restore v r ref p k n s).
Proof. unfold probe_answered, start_fails. destruct r as [?|[]]; try apply roomy_observed; same_slots. Qed.
Lemma roomy_adopt_probed v r ref p k s : roomy config s (adopt_probed v r ref p k s).
Proof. unfold adopt_probed. destruct r; [|apply roomy_adopt_fails]. destruct (negb _); [apply roomy_adopt_fails|same_slots]. Qed.
Lemma roomy_adopt_reconnected v r ref p e k s : roomy config s (adopt_reconnected v r ref p e k s).
Proof. unfold adopt_reconnected. destruct r as [[]|]; [|apply roomy_adopt_fails]. destruct (negb _); [apply roomy_adopt_fails|same_slots]. Qed.
Lemma roomy_resume v t a s s' : resume config has_restore has_health v t a s = Some s' -> roomy config s s'.
Proof.
  unfold resume. repeat case_match; intros E; try discriminate; apply (inj Some) in E; subst s';
    first [apply roomy_placed | apply roomy_retired | apply roomy_gateway | apply roomy_probed | apply roomy_adopt_probed
          | apply roomy_adopt_reconnected | unfold start_reconnects, start_serves, start_fails, commit_answered; same_slots].
Qed.
End slots.

(** ** Who calls [place] *)

Definition is_place (c : mcall) : bool := match c with CPlace _ _ _ => true | _ => false end.
Definition places (s : mstate) : list mcall := List.filter is_place (m_calls s).
(** A segment calls [place] at most once, and its task then waits for it. *)
Definition started (k : string) (s : mstate) : Prop := exists t ts, tasks_of k s = t :: ts /\ placing t = true.
Definition starts (k : string) (s s' : mstate) : Prop :=
  m_adoption s' = m_adoption s
  /\ (places s' = places s \/ exists n d, places s' = CPlace k n d :: places s /\ started k s').

Lemma places_phase p k s : places (at_phase p k s) = places s.
Proof. unfold at_phase. by destruct (tasks_of k s). Qed.
Lemma places_finish r k s : places (finish r k s) = places s.
Proof. unfold finish. by destruct (tasks_of k s). Qed.
Lemma places_retire k n x s : places (_retire k n x s) = places s.
Proof. unfold _retire. by rewrite places_phase. Qed.
Lemma places_run ref w s : places (snd (_run ref w s)) = places s.
Proof. unfold _run. by destruct (find_kind _ _ _). Qed.
Lemma places_say c s : is_place c = false -> places (say c s) = places s.
Proof. unfold places. cbn. by intros ->. Qed.
Lemma adoption_phase p k s : m_adoption (at_phase p k s) = m_adoption s.
Proof. unfold at_phase. by destruct (tasks_of k s). Qed.
Lemma adoption_finish r k s : m_adoption (finish r k s) = m_adoption s.
Proof. unfold finish. by destruct (tasks_of k s). Qed.
Lemma adoption_retire k n x s : m_adoption (_retire k n x s) = m_adoption s.
Proof. unfold _retire. by rewrite adoption_phase. Qed.
Lemma adoption_run ref w s : m_adoption (snd (_run ref w s)) = m_adoption s.
Proof. unfold _run. by destruct (find_kind _ _ _). Qed.
Create Rewrite HintDb places.
#[global] Hint Rewrite places_phase places_finish places_retire places_run adoption_phase adoption_finish
  adoption_retire adoption_run : places.
#[global] Hint Rewrite places_say using reflexivity : places.
Ltac no_place := split; [|left]; cbv zeta; repeat case_match; autorewrite with places; try reflexivity; done.

Section place.
Context (config : RuntimeConfig) (has_restore has_commit has_health : bool).
Lemma starts_refl k s : starts k s s. Proof. split; [done|by left]. Qed.
Lemma starts_same k s1 s2 s3 : m_adoption s2 = m_adoption s1 -> places s2 = places s1 -> starts k s2 s3 -> starts k s1 s3.
Proof. intros E1 E2 [H1 H2]. rewrite E1, E2 in *. by split. Qed.
Lemma starts_start v d k s : tasks_of k s <> [] -> starts k s (_start config v d k s).
Proof.
  intros Hq. unfold _start. destruct (name_of config k) as [n|]; [|no_place]. cbv zeta.
  split; [by autorewrite with places|]. right. exists n. eexists. split; [by autorewrite with places|].
  unfold started, at_phase. change (tasks_of k (say _ s)) with (tasks_of k s).
  destruct (tasks_of k s) as [|t ts]; [done|]. eexists _, ts. unfold tasks_of. fields. rewrite lookup_insert_eq. done.
Qed.
Lemma reserve_same k s s' : _reserve config k s = Ok s' ->
  m_adoption s' = m_adoption s /\ places s' = places s /\ tasks_of k s' = tasks_of k s.
Proof. unfold _reserve. case_bool_decide; [by intros [= <-]|]. destruct (negb _); by intros [= <-]. Qed.
Lemma starts_activate v d k s : tasks_of k s <> [] -> starts k s (_activate config v d k s).
Proof.
  intros Hq. unfold _activate. destruct (m_errors s !! k); [no_place|]. destruct (m_active s !! k); [no_place|].
  destruct (_reserve config k s) eqn:E; [|no_place]. destruct (reserve_same _ _ _ E) as (E1 & E2 & E3).
  eapply starts_same; [exact E1|exact E2|]. apply starts_start. by rewrite E3.
Qed.
Lemma starts_close u ref k n s : starts k s (_do_close config has_commit u ref k n s).
Proof. unfold _do_close, commit_answered. no_place. Qed.
Lemma starts_recover l k s : starts k s (_do_recover config l k s).
Proof. unfold _do_recover. no_place. Qed.
Lemma starts_adopt_fails v x ref p k s : starts k s (adopt_fails v x ref p k s).
Proof. unfold adopt_fails, _defer_adoption. no_place. Qed.
Lemma starts_adopt_one v ref p k s : starts k s (_adopt_one config has_health v ref p k s).
Proof. unfold _adopt_one, adopt_probes. destruct (negb _); [apply starts_adopt_fails|no_place]. Qed.
Lemma starts_gateway v ref p k s : starts k s (_adopt_when_gateway_returns config has_health v ref p k s).
Proof. unfold _adopt_when_gateway_returns. destruct (v_gateway v); [apply starts_adopt_one|no_place]. Qed.
Lemma starts_begin v t k s :
  tasks_of k s <> [] -> wr_workspace_ref (t_ref t) = k -> starts k s (begin config has_commit has_health v t s).
Proof.
  intros Hq <-. unfold begin. destruct (t_work t);
    [by apply starts_activate|apply starts_close|apply starts_recover|no_place|apply starts_adopt_one|apply starts_gateway].
Qed.
Lemma starts_observed v p e k n s : starts k s (start_observed has_restore v p e k n s).
Proof. unfold start_observed, start_fails, start_reconnects. no_place. Qed.
Lemma starts_retired v r x k s : tasks_of k s <> [] -> starts k s (retire_answered config v r x k s).
Proof.
  intros Hq. unfold retire_answered, retire_times_out. destruct r as [[[]|[]]|]; try no_place.
  destruct x; try no_place. destruct (_reserve config k (_release k s)) eqn:E; [|no_place].
  destruct (reserve_same _ _ _ E) as (E1 & E2 & E3). eapply starts_same; [exact E1|exact E2|]. apply starts_start. by rewrite E3.
Qed.
Lemma starts_resume v t a k s s' :
  tasks_of k s <> [] -> wr_workspace_ref (t_ref t) = k -> resume config has_restore has_health v t a s = Some s' ->
  starts k s s'.
Proof.
  intros Hq <-. unfold resume. repeat case_match; intros E; try discriminate; apply (inj Some) in E; subst s';
    first [by apply starts_retired | apply starts_gateway
          | unfold place_answered, start_probes, start_reconnects, start_serves, start_fails, commit_answered; no_place
          | unfold probe_answered, start_fails; repeat case_match; (apply starts_observed || no_place)
          | unfold adopt_probed, adopt_reconnected; repeat case_match; (apply starts_adopt_fails || no_place)].
Qed.
End place.
