(* ===== verification/ManagerProps.v ===== *)
(** * What the Workspace manager promises

    [one_unit]: the manager asks the source for a unit of a Workspace only when no unit of it
    may still run, and every unit that may run holds one of the slots, which stay within
    [limits.maxActiveWorkspaces] or the inventory adopted at startup. *)

From stdpp Require Import fin_sets gmap.
From S2P Require Import Prelude Sha256 PyJson Refs Config StateRefs Effects Storage Wire Delivery Manager ManagerInv ManagerSteps.
Local Open Scope Z_scope.

Section promises.
Context (config : RuntimeConfig) (has_restore has_commit has_health : bool).
Hypothesis names : forall key, exists n, name_of config key = Ok n.
Abbreviation mstep := (step config has_restore has_commit has_health).
Abbreviation Inv := (Inv config).

(** ** A segment of one task *)

Lemma segment_inv s s' g g' n key :
  Inv s g n -> before_inventory s = false -> (forall k, k <> key -> kv k s' = kv k s) ->
  sound key (kv key s') (key ∈ g') -> (forall k, k <> key -> k ∈ g' -> k ∈ g) -> roomy config s s' ->
  m_adoption s' = m_adoption s -> Inv s' g' n.
Proof.
  intros [I1 I2 I3] Hb Hk Hs Hg Hr Ha. split.
  - intros k. destruct (decide (k = key)) as [->|]; [done|]. rewrite Hk by done. eapply sound_weaken; [apply I1|by apply Hg].
  - unfold before_inventory in *. rewrite Ha. congruence.
  - unfold roomy in Hr. lia.
Qed.
(** What a task spawned or ended before the inventory leaves behind. *)
Lemma early_inv s s' g n key :
  Inv s g n -> (forall k, k <> key -> kv k s' = kv k s) -> sound key (kv key s') (key ∈ g) ->
  (before_inventory s' = true -> Forall recovery (tasks_of key s')) ->
  m_occupied s' = m_occupied s -> m_active s' = m_active s -> m_errors s' = m_errors s -> m_late s' = m_late s ->
  m_adoption s' = m_adoption s -> Inv s' g n.
Proof.
  intros [I1 I2 I3] Hk Hs Hr Ho Ha Hx Hl Had. split.
  - intros k. destruct (decide (k = key)) as [->|]; [done|]. by rewrite Hk.
  - intros Hb. assert (before_inventory s = true) as Hb' by (unfold before_inventory in *; by rewrite <- Had).
    destruct (I2 Hb') as (?&?&?&?&Hf). split_and!; try congruence.
    intros k. destruct (decide (k = key)) as [->|Hn]; [by apply Hr|]. change (Forall recovery (kq (kv k s'))).
    rewrite Hk by done. apply Hf.
  - by rewrite Ho.
Qed.

Lemma acquire_inv v s g n key t ts :
  Inv s g n -> tasks_of key s = t :: ts -> t_phase t = Waiting ->
  Inv (begin config has_commit has_health v t s) g n.
Proof.
  intros HI Hq Hp. pose proof (iv_sound _ _ _ _ HI key) as Hs.
  pose proof (head_ref key s t ts _ Hs Hq) as Href.
  pose proof (begin_sound config has_commit has_health names key s t ts _ v Hs Hq Hp) as Hs'.
  destruct (before_inventory s) eqn:Hb.
  - destruct (iv_before _ _ _ _ HI Hb) as (Ho & Ha & Hx & Hl & Hf).
    assert (recovery t) as [_ [l Hw]] by (specialize (Hf key); rewrite Hq in Hf; by inversion Hf).
    unfold begin in *. rewrite Href, Hw in *. unfold _do_recover in *. rewrite Ha, lookup_empty in *.
    apply (early_inv s _ g n key HI); try done.
    + intros k Hk. by apply other_finish.
    + intros _. change (Forall recovery (kq (kv key (finish (Ok None) key s)))). rewrite kv_finish. cbn. rewrite Hq. cbn.
      specialize (Hf key). rewrite Hq in Hf. by inversion Hf.
    + unfold finish. by rewrite Hq.
    + unfold finish. by rewrite Hq.
    + unfold finish. by rewrite Hq.
    + unfold finish. by rewrite Hq.
    + unfold finish. by rewrite Hq.
  - eapply (segment_inv s _ g g n key HI Hb); try done.
    + intros k Hk. apply other_begin. by rewrite Href.
    + apply roomy_begin.
    + eapply starts_begin; [by rewrite Hq|done].
Qed.
Lemma answer_inv v s s' g n key t ts a :
  Inv s g n -> tasks_of key s = t :: ts -> lawful_answer a = true ->
  resume config has_restore has_health v t a s = Some s' -> Inv s' (units_after (Answer key a) s g) n.
Proof.
  intros HI Hq Ha Hr. pose proof (iv_sound _ _ _ _ HI key) as Hs.
  pose proof (head_ref key s t ts _ Hs Hq) as Href.
  pose proof (resume_sound config has_restore has_health names key s t ts _ v a s' Hs Hq Ha Hr) as Hs'.
  destruct (before_inventory s) eqn:Hb.
  { destruct (iv_before _ _ _ _ HI Hb) as (_ & _ & _ & _ & Hf). specialize (Hf key). rewrite Hq in Hf.
    inversion Hf as [|?? [Hp _] _]. unfold resume in Hr. rewrite Hp in Hr. by destruct a. }
  eapply (segment_inv s s' g _ n key HI Hb).
  - intros k Hk. eapply other_resume; [|done]. by rewrite Href.
  - eapply sound_weaken; [exact Hs'|]. destruct a as [[]| | | | |[[]|]| | |]; cbn; set_solver.
  - intros k Hk. destruct a as [[]| | | | |[[]|]| | |]; cbn; set_solver.
  - by eapply roomy_resume.
  - eapply starts_resume; [by rewrite Hq|done|done].
Qed.

(** ** Callers *)

Lemma queue_other ref w s k : k <> wr_workspace_ref ref -> tasks_of k (snd (_run ref w s)) = tasks_of k s.
Proof. intros H. change (kq (kv k (snd (_run ref w s))) = kq (kv k s)). by rewrite other_run. Qed.
Lemma recover_run_inv ref l s g n : Inv s g n -> Inv (snd (_run ref (WRecover l) s)) g n.
Proof.
  intros HI. set (key := wr_workspace_ref ref).
  unfold _run. destruct (find_kind _ _ s) as [t|] eqn:Ef; [done|]. cbn [snd].
  apply (early_inv s _ g n key HI); try done.
  - intros k Hk. by apply other_spawn.
  - unfold key. rewrite kv_spawn. apply sound_push; try done. apply HI.
  - intros Hb. destruct (iv_before _ _ _ _ HI Hb) as (_&_&_&_&Hf).
    change (Forall recovery (kq (kv key (snd (spawn ref (WRecover l) s))))). unfold key. rewrite kv_spawn.
    apply Forall_app. split; [apply Hf|]. constructor; [|constructor]. split; [done|by exists l].
Qed.
Lemma no_close_kind ref s :
  Forall (fun t => kind_of (t_work t) <> KClose) (tasks_of (wr_workspace_ref ref) s) ->
  find_kind KClose (wr_workspace_ref ref) s = None.
Proof.
  intros Hf. destruct (find_kind _ _ s) as [t|] eqn:E; [|done]. apply find_kind_some in E as [Hin Hk].
  rewrite Forall_forall in Hf. by destruct (Hf t Hin).
Qed.
(** [close] takes the publication into the task it creates. *)
Lemma close_inv c ref s g n :
  Inv s g n -> Forall (fun t => kind_of (t_work t) <> KClose) (tasks_of (wr_workspace_ref ref) s) ->
  Inv (close config c ref s) g n.
Proof.
  intros HI Hf. unfold close. set (key := wr_workspace_ref ref) in *.
  destruct (negb _); [eapply Inv_quiet; [apply quiet_raise|done]|].
  case_bool_decide as Ho; [eapply Inv_quiet; [apply quiet_return|done]|].
  destruct (names key) as [name ->].
  assert (before_inventory s = false) as Hb.
  { destruct (before_inventory s) eqn:Hb; [|done]. destruct (iv_before _ _ _ _ HI Hb) as (H0 & _). set_solver. }
  unfold _run. cbn [kind_of]. assert (find_kind KClose key (unpublish key s) = None) as Ef by by apply no_close_kind.
  fold key. rewrite Ef. set (w := WClose name _).
  apply (Inv_quiet config (snd (spawn ref w (unpublish key s))) _ g n (quiet_wait c _ _ _)).
  eapply (segment_inv s _ g g n key HI Hb); try done.
  - intros k Hk. rewrite other_spawn by done. by apply other_unpublish.
  - unfold key. rewrite kv_spawn. fold key. rewrite kv_unpublish. pose proof (iv_sound _ _ _ _ HI key) as Hs.
    revert Hs. unfold kv. set (d := mkT _ _ _ _). intros Hs. rewrite (bool_decide_true (key ∈ m_occupied s)) in * by (by destruct (decide (key ∈ m_occupied s))).
    assert (claim d = pub (m_active s !! key) /\ hold d = pub (m_active s !! key) /\ act d = pub (m_active s !! key))
      as (E1 & E2 & E3) by (unfold act, hold, claim; cbn; by destruct (m_active s !! key)).
    assert (placing d = false /\ fits d = true /\ wr_workspace_ref (t_ref d) = key) as (E4 & E5 & E6) by done.
    clear Hf. claims_tac; rewrite ?sum_list_with_app; cbn [sum_list_with]; rewrite ?E1, ?E2, ?E3; change (pub None) with 0%nat; try done; try tasks.
    + lia.
    + intros U. destruct (Hh U); [by left|right; lia].
    + intros i U. specialize (Hl i U). lia.
  - apply (roomy_refl config s).
Qed.
Lemma late_inv object key cancelled l s g n :
  Inv s g n -> cancelled = false -> m_late s <> [] ->
  Inv (_retired_late key (WorkspaceRetireTimeout object) cancelled (set_m_late l s))
    (if bool_decide (m_errors s !! key = Some (WorkspaceRetireTimeout object)) then g ∖ {[key]} else g) n.
Proof.
  intros HI -> Hl. assert (before_inventory s = false) as Hb.
  { destruct (before_inventory s) eqn:Hb; [|done]. destruct (iv_before _ _ _ _ HI Hb) as (_&_&_&?&_). done. }
  unfold _retired_late. cbn [orb set_m_late m_errors]. case_bool_decide as Hx; cbn [negb].
  - eapply (segment_inv s _ g _ n key HI Hb).
    + intros k Hk. rewrite other_release by done. done.
    + rewrite kv_release. pose proof (iv_sound _ _ _ _ HI key) as Hs. pose proof (so_late _ _ _ Hs _ Hx) as Hz.
      assert (~ key ∈ g ∖ {[key]}) as Hg by set_solver.
      assert (Forall (fun t => placing t = false) (tasks_of key s)) as Hnp.
      { unfold acts in Hz. cbn in Hz. clear -Hz. induction (tasks_of key s) as [|t ts IH]; [done|].
        cbn in Hz. constructor; [|apply IH; lia]. unfold act in Hz. destruct (placing t); [lia|done]. }
      destruct Hs as [Hc _ _ _ _ _ Hr Hf]. by constructor.
    + set_solver.
    + exact (roomy_release config key s).
    + done.
  - eapply (segment_inv s _ g g n key HI Hb); try done; [apply HI|exact (roomy_refl config s)].
Qed.

Lemma first_kind_none ks key s : first_kind ks key s = None -> Forall (fun kd => find_kind kd key s = None) ks.
Proof. induction ks as [|kd ks IH]; cbn; [by constructor|]. destruct (find_kind kd key s) eqn:E; [done|]. intros H. constructor; auto. Qed.
(** No lifecycle task, no error, nothing published: the only task can be an activation. *)
Lemma no_tasks key s :
  first_kind lifecycle_kinds key s = None -> find_kind KActivate key s = None -> tasks_of key s = [].
Proof.
  intros H Hact. apply first_kind_none in H. destruct (tasks_of key s) as [|t ts] eqn:Eq; [done|]. exfalso.
  assert (forall kd, find_kind kd key s = None -> kind_of (t_work t) <> kd) as Hn.
  { intros kd Hk. apply find_kind_none in Hk. rewrite Eq in Hk. by inversion Hk. }
  repeat (apply Forall_cons in H as [?%Hn H]). apply Hn in Hact. by destruct (kind_of (t_work t)).
Qed.
Lemma activate_inv ref d s s1 g n :
  Inv s g n -> first_kind lifecycle_kinds (wr_workspace_ref ref) s = None ->
  m_errors s !! wr_workspace_ref ref = None -> adoption_done s = true -> m_active s !! wr_workspace_ref ref = None ->
  _reserve config (wr_workspace_ref ref) s = Ok s1 ->
  Inv (snd (_run ref (WActivate d) s1)) g n.
Proof.
  set (key := wr_workspace_ref ref). intros HI Hlc Hx Had Ha Hr.
  assert (before_inventory s = false) as Hb.
  { unfold before_inventory, adoption_done in *. by destruct (m_adoption s) as [[]|]. }
  pose proof (kv_reserve config key s s1 Hr) as Ek. destruct (reserve_same config key s s1 Hr) as (E1 & E2 & E3).
  pose proof (iv_sound _ _ _ _ HI key) as Hs.
  assert (find_kind KActivate key s1 = find_kind KActivate key s) as Efk by (unfold find_kind; by rewrite E3).
  assert (forall k, k <> key -> kv k s1 = kv k s) as Hother by (intros; by eapply other_reserve).
  unfold _run. cbn [kind_of]. fold key. rewrite Efk. destruct (find_kind KActivate key s) as [t|] eqn:Ef; cbn [snd].
  - eapply (segment_inv s s1 g g n key HI Hb); try done; [rewrite Ek; by apply sound_slot|exact (roomy_reserve _ _ _ _ Hr)].
  - pose proof (no_tasks key s Hlc Ef) as Hq.
    eapply (segment_inv s _ g g n key HI Hb); try done.
    + intros k Hk. rewrite other_spawn by done. by apply Hother.
    + unfold key. rewrite kv_spawn. fold key. rewrite Ek. revert Hs. unfold kv. rewrite Hq, Hx, Ha. intros Hs.
      assert (key ∉ g) as Hu.
      { intros U. destruct (so_holds _ _ _ Hs U) as [?|H]; [done|]. unfold holds in H. cbn in H. lia. }
      apply sound_dead; [done|unfold claims; cbn; lia|by repeat constructor|by repeat constructor|done|done].
    + exact (roomy_reserve _ _ _ _ Hr).
Qed.
Lemma ensure_turn_inv v c ref d s g n : Inv s g n -> Inv (ensure_turn config v c ref d s) g n.
Proof.
  intros HI. unfold ensure_turn. destruct (first_kind _ _ s) as [t|] eqn:Ef; [eapply Inv_quiet; [apply quiet_wait|done]|].
  destruct (m_errors s !! _) as [x|] eqn:Ex; [eapply Inv_quiet; [apply quiet_raise|done]|].
  destruct (adoption_done s) eqn:Ead; cbn [negb].
  2: { eapply Inv_quiet; [eapply quiet_trans; [apply quiet_adoption|apply quiet_wait]|done]. }
  destruct (m_active s !! _) as [e|] eqn:Ea; [eapply Inv_quiet; [apply quiet_return|done]|].
  destruct (negb (_has_slot _ _ _)).
  { destruct (_ <=? 0); eapply Inv_quiet; [apply quiet_raise|done|apply quiet_wait|done]. }
  destruct (_reserve _ _ s) as [s1|x] eqn:Er; [|eapply Inv_quiet; [apply quiet_raise|done]].
  pose proof (activate_inv ref d s s1 g n HI Ef Ex Ead Ea Er) as H. destruct (_run ref (WActivate d) s1) as [tid s2].
  eapply Inv_quiet; [apply quiet_wait|exact H].
Qed.

(** ** Adoption *)

Lemma reserve_known_all units s :
  let s' := foldl (fun s u => _reserve_known (wr_workspace_ref u.1) s) s units in
  m_occupied s' = list_to_set (keys_of units) ∪ m_occupied s
  /\ (forall k, kv k s' = if bool_decide (k ∈ keys_of units) then Kslot true (kv k s) else kv k s).
Proof.
  revert s. induction units as [|u units IH]; intros s; cbn [foldl keys_of map list_to_set].
  { split; [set_solver|]. intros k. by rewrite bool_decide_false by set_solver. }
  destruct (IH (_reserve_known (wr_workspace_ref u.1) s)) as [E1 E2]. split.
  - rewrite E1. unfold _reserve_known. fields. set_solver.
  - intros k. rewrite E2. unfold _reserve_known. destruct (decide (k = wr_workspace_ref u.1)) as [->|Hk].
    + rewrite kv_occupy. rewrite (bool_decide_true (_ ∈ _ :: _)) by by left. by case_bool_decide.
    + rewrite other_occupy by done. case_bool_decide as H1; case_bool_decide as H2; try done.
      * by destruct H2; right.
      * apply elem_of_cons in H2 as [|]; [done|]. by destruct H1.
Qed.
Lemma adopt_units_kv units s :
  NoDup (keys_of units) ->
  (forall k, k ∈ keys_of units -> Forall (fun t => kind_of (t_work t) <> KAdopt) (tasks_of k s)) ->
  let s' := snd (adopt_units units s) in
  m_occupied s' = m_occupied s
  /\ (forall k, k ∉ keys_of units -> kv k s' = kv k s)
  /\ (forall k, k ∈ keys_of units -> exists i ref p, wr_workspace_ref ref = k
       /\ kv k s' = Kpush (mkT i ref (WAdopt p) Waiting) (kv k s)).
Proof.
  revert s. induction units as [|[ref p] units IH]; intros s Hnd Hk; cbn [adopt_units keys_of map].
  { cbn. split_and!; try done. intros k H. by apply elem_of_nil in H. }
  cbn [keys_of map fst] in Hnd, Hk. apply NoDup_cons in Hnd as [Hn Hnd]. set (key := wr_workspace_ref ref) in *.
  unfold _run. assert (find_kind (kind_of (WAdopt p)) (wr_workspace_ref ref) s = None) as ->.
  { cbn [kind_of]. fold key. destruct (find_kind KAdopt key s) as [t|] eqn:E; [|done].
    apply find_kind_some in E as [Hin Ht]. specialize (Hk key ltac:(by left)). rewrite Forall_forall in Hk. by destruct (Hk t Hin). }
  change (spawn ref (WAdopt p) s) with (fst (spawn ref (WAdopt p) s), snd (spawn ref (WAdopt p) s)).
  set (s1 := snd (spawn ref (WAdopt p) s)).
  destruct (IH s1 Hnd) as (E1 & E2 & E3).
  { intros k Hin. assert (k <> key) by (by intros ->). change (Forall (fun t => kind_of (t_work t) <> KAdopt) (kq (kv k s1))).
    unfold s1. rewrite other_spawn by done. apply Hk. by right. }
  destruct (adopt_units units s1) as [ts s2] eqn:Eu. cbn [snd fst] in *. split_and!.
  - rewrite E1. done.
  - intros k Hin. rewrite E2 by (intros ?; apply Hin; by right). unfold s1. apply other_spawn. intros ->. apply Hin. by left.
  - intros k Hin. destruct (decide (k = key)) as [->|Hne].
    + exists (m_next s), ref, p. split; [done|]. rewrite E2 by done. unfold s1, key. by rewrite kv_spawn.
    + apply elem_of_cons in Hin as [|Hin]; [done|]. destruct (E3 k Hin) as (i & r & q & Hr & E). exists i, r, q. split; [done|].
      rewrite E. unfold s1. by rewrite other_spawn.
Qed.
Lemma recoveries_free ts : Forall recovery ts -> sum_list_with claim ts = 0%nat.
Proof.
  induction 1 as [|t ts [Hp [l Hw]] _ IH]; [done|]. cbn. rewrite IH. unfold claim. by rewrite Hp, Hw.
Qed.
Lemma inventory_inv units s g n :
  Inv s g n -> before_inventory s = true -> NoDup (keys_of units) ->
  Inv (inventory (Ok units) s) (list_to_set (keys_of units) ∪ g) (length units).
Proof.
  intros HI Hb Hnd. destruct (iv_before _ _ _ _ HI Hb) as (Ho & Ha & Hx & Hl & Hf). unfold inventory.
  destruct (reserve_known_all units s) as [E1 E2]. set (s1 := foldl _ s units) in *.
  assert (forall k, tasks_of k s1 = tasks_of k s) as Eq.
  { intros k. change (kq (kv k s1) = kq (kv k s)). rewrite E2. by case_bool_decide. }
  destruct (adopt_units_kv units s1 Hnd) as (E3 & E4 & E5).
  { intros k _. rewrite Eq. eapply Forall_impl; [apply Hf|]. intros t [_ [l E]] Hk. by rewrite E in Hk. }
  destruct (adopt_units units s1) as [ts s2]. cbn [snd] in *. split.
  - intros k. rewrite kv_adoption. pose proof (iv_sound _ _ _ _ HI k) as Hs.
    destruct (decide (k ∈ keys_of units)) as [Hin|Hin].
    + destruct (E5 k Hin) as (i & ref & p & Href & ->). rewrite E2, bool_decide_true by done.
      pose proof (recoveries_free _ (Hf k)) as Hz. pose proof (sum_act_claim (tasks_of k s)).
      revert Hs. unfold kv. rewrite Ha, Hx, !lookup_empty. set (d := mkT _ _ _ _). intros Hs.
      assert (placing d = false /\ fits d = true /\ wr_workspace_ref (t_ref d) = k) as (D1 & D2 & D3) by done.
      assert (Forall (fun t => placing t = false) (tasks_of k s)) as Hnp by by apply no_claims.
      clear Hf Hl. claims_tac; rewrite ?sum_list_with_app; cbn [sum_list_with pub];
        try change (claim d) with 1%nat; try change (hold d) with 1%nat; try done; try tasks; [|right]; lia.
    + rewrite E4 by done. rewrite E2, bool_decide_false by done. eapply sound_weaken; [exact Hs|]. set_solver.
  - done.
  - rewrite Ho in E1. cbn [set_m_adoption m_occupied]. rewrite E3, E1. rewrite union_empty_r_L.
    rewrite (size_list_to_set (keys_of units) Hnd). unfold keys_of in *. rewrite length_map in *. lia.
Qed.

(** ** Every lawful step *)

Lemma quiet_wake c cl r v s g n :
  Inv s g n -> Inv (wake config v c cl r s) g n.
Proof.
  intros HI. unfold wake.
  destruct (c_api cl), r; first [by apply ensure_turn_inv | eapply Inv_quiet; [apply quiet_raise|done]
                                | eapply Inv_quiet; [apply quiet_return|done]].
Qed.
Lemma late_find object s o key :
  List.find (fun l => (l.1 =? object)%nat) (m_late s) = Some (o, key) -> m_late s <> [].
Proof. by destruct (m_late s). Qed.
Lemma step_inv v ev s s' g n :
  Inv s g n -> lawful ev s = true -> mstep v ev s = Some s' -> Inv s' (units_after ev s g) (inventory_after ev n).
Proof.
  intros HI Hl. unfold step. set (s0 := set_m_calls [] s).
  assert (Inv s0 g n) as HI0 by (eapply Inv_quiet; [apply quiet_calls|done]).
  destruct ev as [c ref d|c ref|c ref l|c a|e|name i| |c|c|c|key|key a|object cancelled confirmed|r| |];
    cbn [units_after inventory_after lawful] in *.
  - case_bool_decide; [|done]. intros E. apply (inj Some) in E. subst s'. unfold ensure.
    destruct (negb _); [eapply Inv_quiet; [apply quiet_raise|done]|by apply ensure_turn_inv].
  - apply bool_decide_eq_true in Hl. case_bool_decide; [|done]. intros E. apply (inj Some) in E. subst s'. by apply close_inv.
  - case_bool_decide; [|done]. intros E. apply (inj Some) in E. subst s'. unfold recover.
    destruct (negb _); [eapply Inv_quiet; [apply quiet_raise|done]|].
    pose proof (recover_run_inv ref l s0 g n HI0) as H1. destruct (_run ref (WRecover l) s0) as [tid s1].
    eapply Inv_quiet; [apply quiet_wait|exact H1].
  - assert (Inv (adopt c a s0) g n) as Ha.
    { unfold adopt. destruct (adoption_done s0).
      - destruct a, (m_adoption s0) as [[| |[]]|]; eapply Inv_quiet; first [apply quiet_raise | apply quiet_return | done].
      - eapply Inv_quiet; [eapply quiet_trans; [apply quiet_adoption|apply quiet_wait]|done]. }
    destruct a; try done; case_bool_decide; try done; intros E; apply (inj Some) in E; by subst s'.
  - intros E. apply (inj Some) in E. subst s'. eapply Inv_quiet; [|exact HI0]. by split_and!.
  - intros E. apply (inj Some) in E. subst s'. unfold _source_lost. destruct (List.find _ _); [|done].
    case_bool_decide; [|done]. eapply Inv_quiet; [|exact HI0]. by split_and!.
  - destruct (m_loss s0) as [|e es]; [done|]. intros E. apply (inj Some) in E. subst s'. unfold run_loss.
    assert (Inv (set_m_loss es s0) g n) as HI1 by (eapply Inv_quiet; [|exact HI0]; by split_and!).
    destruct (negb _); [done|]. by apply recover_run_inv.
  - destruct (m_callers s0 !! c) as [cl|]; [|done]. destruct (awaited _ s0) as [r|]; [|done].
    intros E. apply (inj Some) in E. subst s'. by apply quiet_wake.
  - destruct (m_callers s0 !! c) as [cl|]; [|done]. unfold time_out. destruct (c_api cl), (c_wait cl); intros E;
      try discriminate; apply (inj Some) in E; subst s'; eapply Inv_quiet; first [apply quiet_raise | apply quiet_return | done].
  - intros E. apply (inj Some) in E. subst s'. eapply Inv_quiet; [|exact HI0]. by split_and!.
  - destruct (tasks_of key s0) as [|t ts] eqn:Hq; [done|]. destruct (t_phase t) eqn:Hp; try done.
    intros E. apply (inj Some) in E. subst s'. by eapply acquire_inv.
  - destruct (tasks_of key s0) as [|t ts] eqn:Hq; [done|]. intros E.
    exact (answer_inv v s0 s' g n key t ts a HI0 Hq Hl E).
  - apply andb_true_iff in Hl as [Hc ->]. apply negb_true_iff in Hc. change (m_late s0) with (m_late s).
    destruct (List.find _ _) as [[o key]|] eqn:Ef; [|done]. intros E. apply (inj Some) in E. subst s'.
    change (m_errors s) with (m_errors s0). apply late_inv; [done|done|]. by eapply (late_find object s).
  - destruct (m_adoption s0) as [[]|] eqn:Ead; try done. intros E. apply (inj Some) in E. subst s'.
    assert (before_inventory s0 = true) as Hb by (unfold before_inventory; by rewrite Ead).
    destruct r as [units|x]; [by apply (inventory_inv units s0 g n); [..|by apply bool_decide_eq_true in Hl]|].
    destruct HI0 as [I1 I2 I3]. split; [done|done|done].
  - destruct (m_adoption s0) as [[|ts|]|] eqn:Ead; try done. destruct (gathered ts s0) as [r|]; [|done].
    intros E. apply (inj Some) in E. subst s'. unfold adoption_ends. destruct HI0 as [I1 I2 I3].
    destruct (is_ok r); (split; [done|done|done]).
  - done.
Qed.
Lemma reach_inv s g n : reach config has_restore has_commit has_health s g n -> Inv s g n.
Proof. induction 1 as [|v ev s s' g n _ IH Hl Hs]; [apply Inv_start_state|by eapply step_inv]. Qed.

(** ** Who calls [place] *)

Lemma places_wait c a w s : places (wait_on c a w s) = places s. Proof. done. Qed.
Lemma places_return c e s : places (return_to c e s) = places s. Proof. done. Qed.
Lemma places_raise c x s : places (raise_to c x s) = places s. Proof. done. Qed.
Lemma places_begin s : places (begin_adoption s) = places s.
Proof. unfold begin_adoption. by destruct (m_adoption s). Qed.
Lemma places_ensure v c ref d s : places (ensure_turn config v c ref d s) = places s.
Proof.
  unfold ensure_turn. destruct (first_kind _ _ s); [done|]. destruct (m_errors s !! _); [done|].
  destruct (negb (adoption_done s)); [apply places_begin|]. destruct (m_active s !! _); [done|].
  destruct (negb (_has_slot _ _ _)); [by destruct (_ <=? 0)|].
  destruct (_reserve _ _ s) as [s1|] eqn:Er; [|done]. destruct (reserve_same _ _ _ _ Er) as (_ & E & _).
  pose proof (places_run ref (WActivate d) s1) as H. destruct (_run ref (WActivate d) s1). cbn in H. rewrite places_wait. congruence.
Qed.
Lemma places_adopt_units units s : places (snd (adopt_units units s)) = places s.
Proof.
  revert s. induction units as [|[ref p] units IH]; intros s; [done|]. cbn [adopt_units].
  pose proof (places_run ref (WAdopt p) s) as H. destruct (_run ref (WAdopt p) s) as [i s1]. cbn in H.
  specialize (IH s1). destruct (adopt_units units s1) as [ts s2]. cbn in *. congruence.
Qed.
Lemma places_inventory r s : places (inventory r s) = places s.
Proof.
  unfold inventory. destruct r as [units|]; [|done]. set (s1 := foldl _ s units).
  assert (places s1 = places s) as E1.
  { unfold s1. clear. revert s. induction units as [|u units IH]; intros s; [done|]. cbn. by rewrite IH. }
  pose proof (places_adopt_units units s1) as H. destruct (adopt_units units s1). cbn in H. change (places m = places s). congruence.
Qed.
Lemma step_places v ev s s' k name d :
  (forall k t, t ∈ tasks_of k s -> wr_workspace_ref (t_ref t) = k) ->
  mstep v ev s = Some s' -> CPlace k name d ∈ m_calls s' -> started k s'.
Proof.
  intros Href Hstep Hin. unfold step in Hstep. set (s0 := set_m_calls [] s) in *.
  assert (CPlace k name d ∈ places s') as Hp
    by (unfold places; apply list_elem_of_In, filter_In; split; [by apply list_elem_of_In|done]).
  assert (places s0 = []) as H0 by done.
  assert (forall k t ts, tasks_of k s0 = t :: ts -> wr_workspace_ref (t_ref t) = k) as Hr.
  { intros key t ts E. apply Href. change (tasks_of key s) with (tasks_of key s0). rewrite E. by left. }
  clearbody s0.
  enough (places s' = places s0 \/ exists key, starts key s0 s') as [E|[key [_ [E|(n' & d' & E & Hs)]]]].
  - rewrite E, H0 in Hp. by apply elem_of_nil in Hp.
  - rewrite E, H0 in Hp. by apply elem_of_nil in Hp.
  - rewrite E, H0 in Hp. apply list_elem_of_singleton in Hp. by injection Hp as -> _ _.
  - clear Hp Hin H0. destruct ev as [c ref dl|c ref|c ref l|c a|e|nm i| |c|c|c|key|key a|object cancelled confirmed|r| |].
    + left. destruct (bool_decide _); [|done]. injection Hstep as <-. unfold ensure.
      destruct (negb _); [done|apply places_ensure].
    + left. destruct (bool_decide _); [|done]. injection Hstep as <-. unfold close.
      destruct (negb _); [done|]. destruct (bool_decide _); [done|]. destruct (name_of _ _) as [nm|]; [|done].
      pose proof (places_run ref (WClose nm (m_active s0 !! wr_workspace_ref ref)) (unpublish (wr_workspace_ref ref) s0)) as H.
      destruct (_run _ _ _). exact H.
    + left. destruct (bool_decide _); [|done]. injection Hstep as <-. unfold recover.
      destruct (negb _); [done|]. pose proof (places_run ref (WRecover l) s0) as H. destruct (_run _ _ _). exact H.
    + left. assert (places (adopt c a s0) = places s0) as H.
      { unfold adopt. destruct (adoption_done s0); [|apply places_begin]. by destruct a, (m_adoption s0) as [[| |[]]|]. }
      destruct a; try done; destruct (bool_decide _); try done; by injection Hstep as <-.
    + left. by injection Hstep as <-.
    + left. injection Hstep as <-. unfold _source_lost. destruct (List.find _ _); [|done]. by destruct (bool_decide _).
    + left. destruct (m_loss s0) as [|e es]; [done|]. injection Hstep as <-. unfold run_loss. destruct (negb _); [done|].
      by rewrite places_run.
    + left. destruct (m_callers s0 !! c) as [cl|]; [|done]. destruct (awaited _ s0) as [r|]; [|done]. injection Hstep as <-.
      unfold wake. destruct (c_api cl), r; try done; apply places_ensure.
    + left. destruct (m_callers s0 !! c) as [cl|]; [|done]. unfold time_out in Hstep.
      destruct (c_api cl), (c_wait cl); try discriminate; by injection Hstep as <-.
    + left. by injection Hstep as <-.
    + right. exists key. destruct (tasks_of key s0) as [|t ts] eqn:Hq; [done|]. destruct (t_phase t); try done.
      apply (inj Some) in Hstep. subst s'. apply starts_begin; [by rewrite Hq|by eapply Hr].
    + right. exists key. destruct (tasks_of key s0) as [|t ts] eqn:Hq; [done|].
      eapply starts_resume; [by rewrite Hq|by eapply Hr|exact Hstep].
    + left. destruct (List.find _ _) as [[o key]|]; [|done]. injection Hstep as <-. unfold _retired_late. by destruct (_ || _).
    + left. destruct (m_adoption s0) as [[]|]; try done. injection Hstep as <-. apply places_inventory.
    + left. destruct (m_adoption s0) as [[|ts|]|]; try done. destruct (gathered ts s0); [|done]. injection Hstep as <-.
      unfold adoption_ends. by destruct (is_ok _).
    + left. injection Hstep as <-. unfold cancel_adoption. by destruct (m_adoption s0) as [[]|].
Qed.

(** C23. One unit per Workspace, one slot per unit.  The manager asks the source to place a
    Workspace only when every unit of it that was handed over, by an earlier placement or by
    the inventory of the host, has been confirmed gone: while one may still run it is
    published, held by a task that works on it, or blocked by a recorded error.  Every such
    unit holds its slot, and the slots in use never exceed the configured capacity, or the
    size of the adopted inventory where that is larger. *)
Theorem one_unit v ev s s' g n :
  reach config has_restore has_commit has_health s g n -> lawful ev s = true -> mstep v ev s = Some s' ->
  (forall k name d, CPlace k name d ∈ m_calls s' -> k ∉ units_after ev s g)
  /\ g ⊆ m_occupied s
  /\ Z.of_nat (size (m_occupied s)) <= Z.max (capacity config) (Z.of_nat n).
Proof.
  intros Hr Hl Hs. pose proof (reach_inv s g n Hr) as HI. split_and!.
  - intros k name d Hc Hu.
    assert (started k s') as (t & ts & Hq & Hp).
    { eapply step_places; [|exact Hs|exact Hc]. intros key t Ht. pose proof (so_ref _ _ _ (iv_sound _ _ _ _ HI key)) as Hf.
      rewrite Forall_forall in Hf. by apply Hf. }
    pose proof (so_place _ _ _ (iv_sound _ _ _ _ (step_inv v ev s s' g n HI Hl Hs) k) Hu) as Hf. cbn in Hf. rewrite Hq in Hf.
    inversion Hf. congruence.
  - intros k Hk. pose proof (so_slot _ _ _ (iv_sound _ _ _ _ HI k) Hk) as H. by apply bool_decide_eq_true in H.
  - apply HI.
Qed.
End promises.
