(* ===== verification/ManagerLive.v ===== *)
(** * No caller of the Workspace manager waits for nothing

    Every answer and every lock taken brings the tasks of a Workspace closer to their end
    ([weight]), one of them is always possible while a task is left, and whoever waits for a
    task is woken by its result. *)

From stdpp Require Import fin_sets gmap.
From S2P Require Import Prelude Sha256 PyJson Refs Config ConfigFacts StateRefs Effects Storage Wire Delivery Manager ManagerInv ManagerSteps ManagerProps.
Local Open Scope Z_scope.

(** ** The work a task has left, while the gateway is up *)

Definition rank (t : task) : nat :=
  match t_phase t, t_work t with
  | Waiting, WActivate _ => 6
  | Waiting, WClose _ _ => 3
  | Waiting, WRecover _ => 7
  | Waiting, WRetire _ => 2
  | Waiting, WAdopt _ => 6
  | Waiting, WDeferred _ => 7
  | Placing _ _, _ => 5
  | Probing _ _, _ => 4
  | Restoring _ _ _, _ => 3
  | Reconnecting _ _ _, _ => 2
  | Committing _ _, _ => 2
  | Retiring _ ThenRecover, _ => 6
  | Retiring _ _, _ => 1
  | AProbing _, _ => 5
  | AReconnecting _ _, _ => 4
  | Yielding, _ => 1
  | AwaitingGateway _, _ => 6
  end.
Definition weight (key : string) (s : mstate) : nat := sum_list_with rank (tasks_of key s).
Definition ids (key : string) (s : mstate) : list nat := map t_id (tasks_of key s).

(** What a segment does to the tasks of its Workspace: the head goes on or ends, and one task
    may be added; who was there is still there or has a result. *)
Definition known (key : string) (s : mstate) (i : nat) : Prop := i ∈ ids key s \/ is_Some (m_results s !! i).
Record works (key : string) (gateway : bool) (s s' : mstate) : Prop := {
  wk_weight : gateway = true -> (weight key s' < weight key s)%nat;
  wk_done : forall i, is_Some (m_results s !! i) -> is_Some (m_results s' !! i);
  wk_known : forall i, known key s i -> known key s' i;
  wk_callers : m_callers s' = m_callers s
}.

(** The same, with what the head of the queue may still cost. *)
Record leaves (key : string) (cost : nat) (ts : list task) (s s' : mstate) : Prop := {
  lv_weight : (weight key s' <= cost + sum_list_with rank ts)%nat;
  lv_done : forall i, is_Some (m_results s !! i) -> is_Some (m_results s' !! i);
  lv_known : forall i, known key s i -> known key s' i;
  lv_callers : m_callers s' = m_callers s
}.

Section leaves.
Context (config : RuntimeConfig) (has_restore has_commit has_health : bool).
Context (key : string).

Lemma leaves_phase p s t ts cost :
  tasks_of key s = t :: ts -> (rank (mkT (t_id t) (t_ref t) (t_work t) p) <= cost)%nat ->
  leaves key cost ts s (at_phase p key s).
Proof.
  intros Hq Hc. unfold at_phase. rewrite Hq. split; [|done| |done].
  - unfold weight, tasks_of. fields. rewrite lookup_insert_eq. cbn. lia.
  - intros i. unfold known, ids, tasks_of at 2. fields. rewrite lookup_insert_eq, Hq. done.
Qed.
Lemma leaves_finish r s t ts cost : tasks_of key s = t :: ts -> leaves key cost ts s (finish r key s).
Proof.
  intros Hq. unfold finish. rewrite Hq. split; [| | |done].
  - unfold weight, tasks_of. fields. rewrite lookup_insert_eq. cbn. lia.
  - intros i. fields. destruct (decide (i = t_id t)) as [->|]; [by rewrite lookup_insert_eq|by rewrite lookup_insert_ne].
  - intros i. unfold known, ids, tasks_of at 2. fields. rewrite lookup_insert_eq, Hq. cbn.
    destruct (decide (i = t_id t)) as [->|Hn].
    + intros _. right. by rewrite lookup_insert_eq.
    + rewrite lookup_insert_ne by done. intros [Hi|]; [|by right]. apply elem_of_cons in Hi as [|]; [done|by left].
Qed.
Lemma leaves_same s1 s2 s3 cost ts :
  tasks_of key s2 = tasks_of key s1 -> m_results s2 = m_results s1 -> m_callers s2 = m_callers s1 ->
  leaves key cost ts s2 s3 -> leaves key cost ts s1 s3.
Proof. intros E1 E2 E3 [H1 H0 H2 H3]. rewrite E2 in H0. split; [done|done|unfold known, ids in *; by rewrite E1, E2 in H2|congruence]. Qed.

(** The last part of a segment, after parts that leave the tasks alone. *)
Ltac leave Hq :=
  lazymatch goal with
  | |- leaves ?k ?c ?ts ?s (finish _ ?k ?s') =>
      apply (leaves_same s s'); [reflexivity..|]; eapply leaves_finish; exact Hq
  | |- leaves ?k ?c ?ts ?s (at_phase _ ?k ?s') =>
      apply (leaves_same s s'); [reflexivity..|]; eapply leaves_phase; [exact Hq|cbn; lia]
  | |- leaves ?k ?c ?ts ?s (_retire ?k _ _ _) => unfold _retire; leave Hq
  end.

Section head.
Context (s : mstate) (t : task) (ts : list task).
Hypothesis Hq : tasks_of key s = t :: ts.

Lemma leaves_start v d : leaves key 5 ts s (_start config v d key s).
Proof. unfold _start. destruct (name_of config key); [|leave Hq]. cbv zeta. leave Hq. Qed.
Lemma leaves_close u ref n : leaves key 2 ts s (_do_close config has_commit u ref key n s).
Proof.
  unfold _do_close, commit_answered. cbv zeta. repeat case_match; leave Hq.
Qed.
Lemma leaves_recover l : leaves key 6 ts s (_do_recover config l key s).
Proof. unfold _do_recover. cbv zeta. repeat case_match; leave Hq. Qed.
Lemma leaves_commit r e ref n : leaves key 1 ts s (commit_answered config r e ref key n s).
Proof. unfold commit_answered. cbv zeta. repeat case_match; leave Hq. Qed.
Lemma leaves_observed v p e n : leaves key 3 ts s (start_observed has_restore v p e key n s).
Proof. unfold start_observed, start_fails, start_reconnects. repeat case_match; leave Hq. Qed.
Lemma leaves_placed r d n : leaves key 4 ts s (place_answered has_health r d key n s).
Proof. unfold place_answered, start_probes, start_fails. repeat case_match; leave Hq. Qed.
Lemma leaves_probed v r ref p n : leaves key 3 ts s (probe_answered has_restore v r ref p key n s).
Proof. unfold probe_answered, start_fails. destruct r as [?|[]]; try apply leaves_observed; leave Hq. Qed.
End head.
Lemma leaves_activate s t ts v d : tasks_of key s = t :: ts -> leaves key 5 ts s (_activate config v d key s).
Proof.
  intros Hq. unfold _activate. destruct (m_errors s !! key); [leave Hq|]. destruct (m_active s !! key); [leave Hq|].
  destruct (_reserve config key s) as [s1|] eqn:E; [|leave Hq].
  assert (tasks_of key s1 = tasks_of key s /\ m_results s1 = m_results s /\ m_callers s1 = m_callers s) as (E1 & E2 & E3).
  { unfold _reserve in E. destruct (bool_decide _); [by injection E as <-|]. destruct (negb _); [done|by injection E as <-]. }
  eapply (leaves_same s s1); try done. eapply leaves_start. by rewrite E1.
Qed.
Lemma leaves_more cost cost' ts s s' : leaves key cost ts s s' -> (cost <= cost')%nat -> leaves key cost' ts s s'.
Proof. intros [] H. split; [lia|done..]. Qed.
Lemma tasks_spawn ref w s :
  wr_workspace_ref ref = key -> tasks_of key (snd (spawn ref w s)) = tasks_of key s ++ [mkT (m_next s) ref w Waiting].
Proof. intros <-. unfold tasks_of at 1. fields. by rewrite lookup_insert_eq. Qed.
(** A task is added, and the head goes on or ends. *)
Lemma leaves_spawn s t ts ref w s' cost :
  tasks_of key s = t :: ts -> wr_workspace_ref ref = key ->
  leaves key cost (ts ++ [mkT (m_next s) ref w Waiting]) (snd (spawn ref w s)) s' ->
  leaves key (cost + rank (mkT (m_next s) ref w Waiting)) ts s s'.
Proof.
  intros Hq Href [H1 H0 H2 H3]. split; [|done| |done].
  - rewrite sum_list_with_app in H1. cbn [sum_list_with] in H1. lia.
  - intros i Hi. apply H2. destruct Hi as [Hi|]; [left|by right]. unfold ids in *. rewrite tasks_spawn by done.
    rewrite map_app. apply elem_of_app. by left.
Qed.
Lemma leaves_adopt_fails s t ts v x ref p :
  tasks_of key s = t :: ts -> wr_workspace_ref ref = key ->
  leaves key (if v_gateway v then 3 else 7) ts s (adopt_fails v x ref p key s).
Proof.
  intros Hq Href. unfold adopt_fails, _defer_adoption. destruct (bool_decide _); [leave Hq|]. destruct (v_gateway v); cbn [negb].
  - unfold _run. destruct (find_kind _ _ s); [leave Hq|].
    apply (leaves_spawn s t ts ref (WRetire (p_name p)) _ 1 Hq Href). eapply leaves_phase; [|done].
    rewrite tasks_spawn by done. by rewrite Hq.
  - apply (leaves_spawn s t ts ref (WDeferred p) _ 0 Hq Href). eapply leaves_finish. rewrite tasks_spawn by done. by rewrite Hq.
Qed.
Lemma leaves_adopt_one s t ts v ref p :
  tasks_of key s = t :: ts -> wr_workspace_ref ref = key ->
  leaves key (if v_gateway v then 5 else 7) ts s (_adopt_one config has_health v ref p key s).
Proof.
  intros Hq Href. unfold _adopt_one, adopt_probes. destruct (negb _); [|destruct (v_gateway v); leave Hq].
  eapply leaves_more; [by eapply leaves_adopt_fails|]. destruct (v_gateway v); lia.
Qed.
Lemma leaves_gateway s t ts v ref p :
  tasks_of key s = t :: ts -> wr_workspace_ref ref = key ->
  leaves key (if v_gateway v then 5 else 7) ts s (_adopt_when_gateway_returns config has_health v ref p key s).
Proof.
  intros Hq Href. unfold _adopt_when_gateway_returns. pose proof (leaves_adopt_one s t ts v ref p Hq Href) as H.
  destruct (v_gateway v); [exact H|leave Hq].
Qed.
Lemma leaves_retired s t ts v r x :
  tasks_of key s = t :: ts ->
  leaves key (match x with ThenRecover => 5 | _ => 0 end) ts s (retire_answered config v r x key s).
Proof.
  intros Hq. unfold retire_answered, retire_times_out. destruct r as [[[]|[]]|], x; try leave Hq.
  destruct (_reserve config key (_release key s)) as [s1|] eqn:E; [|leave Hq].
  assert (tasks_of key s1 = tasks_of key s /\ m_results s1 = m_results s /\ m_callers s1 = m_callers s) as (E1 & E2 & E3).
  { unfold _reserve in E. destruct (bool_decide _); [by injection E as <-|]. destruct (negb _); [done|by injection E as <-]. }
  eapply (leaves_same s s1); try done. eapply leaves_start. by rewrite E1.
Qed.

Lemma leaves_works s t ts s' cost :
  tasks_of key s = t :: ts -> leaves key cost ts s s' -> forall gateway, (gateway = true -> (cost < rank t)%nat) ->
  works key gateway s s'.
Proof. intros Hq [H1 H0 H2 H3] gw Hc. split; try done. intros Hg. specialize (Hc Hg). unfold weight at 2. rewrite Hq. cbn. lia. Qed.
Lemma begin_works s t ts v :
  tasks_of key s = t :: ts -> t_phase t = Waiting -> wr_workspace_ref (t_ref t) = key ->
  works key (v_gateway v) s (begin config has_commit has_health v t s).
Proof.
  intros Hq Hp Href. unfold begin. rewrite Href. destruct (t_work t) as [d|n u|l|n|p|p] eqn:Hw;
    eapply leaves_works; try exact Hq.
  1: by eapply leaves_activate. 2: by eapply leaves_close. 3: by eapply leaves_recover.
  4: instantiate (1 := 1%nat); leave Hq. 5: by eapply leaves_adopt_one. 6: by eapply leaves_gateway.
  all: intros Hv; unfold rank; rewrite Hp, Hw, ?Hv; lia.
Qed.
Lemma resume_works s t ts v a s' :
  tasks_of key s = t :: ts -> wr_workspace_ref (t_ref t) = key ->
  resume config has_restore has_health v t a s = Some s' -> works key (v_gateway v) s s'.
Proof.
  intros Hq Href. unfold resume. rewrite Href.
  assert (forall cost s', leaves key cost ts s s' -> (v_gateway v = true -> (cost < rank t)%nat) ->
    works key (v_gateway v) s s') as Hw by (intros; by eapply leaves_works).
  destruct (t_phase t) as [|n d|n p|n p e|n p e|n e|n x|p|p e| |p] eqn:Hp, a as [r|r|r|r|r|r| |r|]; try discriminate;
    intros E; try (apply (inj Some) in E; subst s').
  - eapply Hw; [by eapply leaves_placed|]. intros Hv. unfold rank. rewrite Hp, ?Hv. lia.
  - eapply Hw; [by eapply leaves_probed|]. intros Hv. unfold rank. rewrite Hp, ?Hv. lia.
  - unfold start_reconnects, start_fails in E. destruct r as [[]|x]; apply (inj Some) in E; subst s';
      (apply (Hw 2%nat); [leave Hq|intros Hv; unfold rank; rewrite Hp; lia]).
  - unfold start_serves, start_fails in E. destruct r as [[]|x]; apply (inj Some) in E; subst s'; [destruct (negb _)|];
      (apply (Hw 1%nat); [leave Hq|intros Hv; unfold rank; rewrite Hp; lia]).
  - eapply Hw; [by eapply leaves_commit|]. intros Hv. unfold rank. rewrite Hp, ?Hv. lia.
  - eapply Hw; [by eapply leaves_retired|]. intros Hv. unfold rank. rewrite Hp. destruct x; lia.
  - eapply Hw; [by eapply leaves_retired|]. intros Hv. unfold rank. rewrite Hp. destruct x; lia.
  - unfold adopt_probed. destruct r as [i|x]; [destruct (negb _)|].
    + eapply Hw; [by eapply leaves_adopt_fails|]. intros Hv. unfold rank. rewrite Hp, ?Hv. lia.
    + apply (Hw 4%nat); [leave Hq|intros Hv; unfold rank; rewrite Hp; lia].
    + eapply Hw; [by eapply leaves_adopt_fails|]. intros Hv. unfold rank. rewrite Hp, ?Hv. lia.
  - unfold adopt_reconnected. destruct r as [[]|x]; [destruct (negb _)|].
    + eapply Hw; [by eapply leaves_adopt_fails|]. intros Hv. unfold rank. rewrite Hp, ?Hv. lia.
    + apply (Hw 1%nat); [leave Hq|intros Hv; unfold rank; rewrite Hp; lia].
    + eapply Hw; [by eapply leaves_adopt_fails|]. intros Hv. unfold rank. rewrite Hp, ?Hv. lia.
  - apply (Hw 0%nat); [leave Hq|intros Hv; unfold rank; rewrite Hp; lia].
  - destruct r as [[]|x]; apply (inj Some) in E; subst s'.
    + eapply Hw; [by eapply leaves_gateway|]. intros Hv. unfold rank. rewrite Hp, ?Hv. lia.
    + apply (Hw 1%nat); [leave Hq|intros Hv; unfold rank; rewrite Hp; lia].
Qed.
End leaves.

(** ** Who waits, waits for something *)

(** No known task is forgotten. *)
Definition remembers (s s' : mstate) : Prop := forall i, (exists key, known key s i) -> exists key, known key s' i.
(** Every caller that waits for a task waits for a task that is there, or whose result is. *)
Definition wait_ok (s : mstate) : Prop :=
  forall c cl i, m_callers s !! c = Some cl -> c_wait cl = OnTask i -> exists key, known key s i.
#[global] Instance remembers_preorder : PreOrder remembers.
Proof. split; [by intros s i|]. intros s1 s2 s3 H1 H2 i Hi. by apply H2, H1. Qed.

Lemma remembers_same s s' : m_queue s' = m_queue s -> m_results s' = m_results s -> remembers s s'.
Proof. intros E1 E2 i [k Hk]. exists k. unfold known, ids, tasks_of in *. by rewrite E1, E2. Qed.
Lemma remembers_spawn ref w s : remembers s (snd (spawn ref w s)).
Proof.
  intros i [k [Hk|Hk]]; exists k; [left|by right]. unfold ids in *. destruct (decide (k = wr_workspace_ref ref)) as [->|Hn].
  - rewrite tasks_spawn by done. rewrite map_app. apply elem_of_app. by left.
  - change (i ∈ map t_id (kq (kv k (snd (spawn ref w s))))). by rewrite other_spawn.
Qed.
Lemma run_known ref w s :
  remembers s (snd (_run ref w s)) /\ (exists key, known key (snd (_run ref w s)) (fst (_run ref w s)))
  /\ m_callers (snd (_run ref w s)) = m_callers s.
Proof.
  unfold _run. destruct (find_kind _ _ s) as [t|] eqn:E; cbn [fst snd].
  - split_and!; [reflexivity| |done]. exists (wr_workspace_ref ref). left. apply find_kind_some in E as [Hin _].
    unfold ids. apply list_elem_of_In, in_map, list_elem_of_In. exact Hin.
  - split_and!; [apply remembers_spawn| |done]. exists (wr_workspace_ref ref). left. unfold ids.
    change (m_next s ∈ map t_id (tasks_of (wr_workspace_ref ref) (snd (spawn ref w s)))). rewrite tasks_spawn by done.
    rewrite map_app. apply elem_of_app. right. by left.
Qed.
Lemma wait_ok_same s s' : remembers s s' -> m_callers s' = m_callers s -> wait_ok s -> wait_ok s'.
Proof. intros Hr E Hw c cl i H1 H2. rewrite E in H1. apply Hr. by eapply Hw. Qed.
Lemma wait_ok_drop s s' c : remembers s s' -> m_callers s' = delete c (m_callers s) -> wait_ok s -> wait_ok s'.
Proof.
  intros Hr E Hw c' cl i H1 H2. rewrite E in H1. apply lookup_delete_Some in H1 as [_ H1]. apply Hr. by eapply Hw.
Qed.
Lemma wait_ok_on c a w s :
  wait_ok s -> (forall i, w = OnTask i -> exists key, known key s i) -> wait_ok (wait_on c a w s).
Proof.
  intros Hw Hi c' cl i H1 H2. change (exists key, known key s i). cbn in H1. destruct (decide (c' = c)) as [->|].
  - rewrite lookup_insert_eq in H1. injection H1 as <-. by apply Hi.
  - rewrite lookup_insert_ne in H1 by done. by eapply Hw.
Qed.
Lemma wait_ok_run c a ref w s : wait_ok s -> wait_ok (wait_on c a (OnTask (fst (_run ref w s))) (snd (_run ref w s))).
Proof.
  intros Hw. destruct (run_known ref w s) as (H1 & H2 & H3). apply wait_ok_on; [by eapply wait_ok_same|].
  by intros i [= <-].
Qed.
Lemma works_wait_ok key gw s s' :
  works key gw s s' -> (forall k, k <> key -> kv k s' = kv k s) -> wait_ok s -> wait_ok s'.
Proof.
  intros [_ Hd Hk Hc] Hother. apply wait_ok_same; [|done]. intros i [k Hi]. destruct (decide (k = key)) as [->|Hn].
  - exists key. by apply Hk.
  - exists k. destruct Hi as [Hi|Hi]; [left|right; by apply Hd]. change (i ∈ map t_id (kq (kv k s'))). by rewrite Hother.
Qed.

Section live.
Context (config : RuntimeConfig) (has_restore has_commit has_health : bool).
Hypothesis names : forall key, exists n, name_of config key = Ok n.
Abbreviation mstep := (step config has_restore has_commit has_health).
Abbreviation reach := (reach config has_restore has_commit has_health).

Lemma wait_ok_return c e s : wait_ok s -> wait_ok (return_to c e s).
Proof. by apply wait_ok_drop with c; [apply remembers_same|]. Qed.
Lemma wait_ok_raise c x s : wait_ok s -> wait_ok (raise_to c x s).
Proof. by apply wait_ok_drop with c; [apply remembers_same|]. Qed.
Lemma wait_ok_begin s : wait_ok s -> wait_ok (begin_adoption s).
Proof. unfold begin_adoption. destruct (m_adoption s); [done|]. by apply wait_ok_same; [apply remembers_same|]. Qed.
Lemma wait_ok_ensure v c ref d s : wait_ok s -> wait_ok (ensure_turn config v c ref d s).
Proof.
  intros Hw. unfold ensure_turn. destruct (first_kind _ _ s) as [t|] eqn:Ef.
  { apply wait_ok_on; [done|]. intros i [= <-]. exists (wr_workspace_ref ref). left. unfold ids.
    apply list_elem_of_In, in_map, list_elem_of_In. clear -Ef. revert Ef. generalize lifecycle_kinds as ks.
    induction ks as [|kd ks IH]; cbn; [done|]. destruct (find_kind kd _ s) eqn:E; [|done].
    intros [= ->]. by apply find_kind_some in E as []. }
  destruct (m_errors s !! _); [by apply wait_ok_raise|].
  destruct (negb (adoption_done s)); [apply wait_ok_on; [by apply wait_ok_begin|done]|].
  destruct (m_active s !! _); [by apply wait_ok_return|].
  destruct (negb (_has_slot _ _ _)); [destruct (_ <=? 0); [by apply wait_ok_raise|by apply wait_ok_on]|].
  destruct (_reserve _ _ s) as [s1|] eqn:Er; [|by apply wait_ok_raise].
  assert (wait_ok s1) as Hw1.
  { unfold _reserve in Er. destruct (bool_decide _); [by injection Er as <-|]. destruct (negb _); [done|].
    injection Er as <-. by apply (wait_ok_same s); [apply remembers_same|..]. }
  pose proof (wait_ok_run c (EnsureCall ref d) ref (WActivate d) s1 Hw1) as H. by destruct (_run ref (WActivate d) s1).
Qed.
Lemma adopt_units_known units s :
  remembers s (snd (adopt_units units s)) /\ m_callers (snd (adopt_units units s)) = m_callers s.
Proof.
  revert s. induction units as [|[ref p] units IH]; intros s; [by split|]. cbn [adopt_units].
  destruct (run_known ref (WAdopt p) s) as (H1 & _ & H3). destruct (_run ref (WAdopt p) s) as [i s1]. cbn [fst snd] in *.
  destruct (IH s1) as [H4 H5]. destruct (adopt_units units s1) as [ts s2]. cbn [snd] in *. split; [by etrans|congruence].
Qed.
Lemma wait_ok_inventory r s : wait_ok s -> wait_ok (inventory r s).
Proof.
  intros Hw. unfold inventory. destruct r as [units|x]; [|by apply (wait_ok_same s); [apply remembers_same|..]].
  set (s1 := foldl _ s units). assert (m_queue s1 = m_queue s /\ m_results s1 = m_results s /\ m_callers s1 = m_callers s) as (E1 & E2 & E3).
  { unfold s1. clear. revert s. induction units as [|u units IH]; intros s; [done|]. exact (IH (_reserve_known (wr_workspace_ref u.1) s)). }
  destruct (adopt_units_known units s1) as [H1 H2]. destruct (adopt_units units s1) as [ts s2]. cbn [snd] in *.
  apply (wait_ok_same s); [|change (m_callers s2 = m_callers s); congruence|done].
  etrans; [apply (remembers_same s s1 E1 E2)|]. etrans; [exact H1|by apply remembers_same].
Qed.

(** The head of a queue, in a reachable state. *)
Lemma reach_ref s g n key t ts : reach s g n -> tasks_of key s = t :: ts -> wr_workspace_ref (t_ref t) = key.
Proof.
  intros Hr Hq. pose proof (so_ref _ _ _ (iv_sound _ _ _ _ (reach_inv config has_restore has_commit has_health names s g n Hr) key)) as H.
  cbn in H. rewrite Hq in H. by inversion H.
Qed.
Lemma acquire_works s g n v key s' :
  reach s g n -> mstep v (Acquire key) s = Some s' ->
  works key (v_gateway v) s s' /\ forall k, k <> key -> kv k s' = kv k s.
Proof.
  intros Hr. unfold step. set (s0 := set_m_calls [] s). destruct (tasks_of key s0) as [|t ts] eqn:Hq; [done|].
  destruct (t_phase t) eqn:Hp; try done. intros E. apply (inj Some) in E. subst s'.
  pose proof (reach_ref s g n key t ts Hr Hq) as Href. split.
  - destruct (begin_works config has_commit has_health key s0 t ts v Hq Hp Href). by split.
  - intros k Hk. rewrite other_begin by by rewrite Href. done.
Qed.
Lemma answer_works s g n v key a s' :
  reach s g n -> mstep v (Answer key a) s = Some s' ->
  works key (v_gateway v) s s' /\ forall k, k <> key -> kv k s' = kv k s.
Proof.
  intros Hr. unfold step. set (s0 := set_m_calls [] s). destruct (tasks_of key s0) as [|t ts] eqn:Hq; [done|]. intros E.
  pose proof (reach_ref s g n key t ts Hr Hq) as Href. split.
  - destruct (resume_works config has_restore has_health key s0 t ts v a s' Hq Href E). by split.
  - intros k Hk. rewrite (other_resume config has_restore has_health k v t a s0 s'); [done|by rewrite Href|done].
Qed.

Lemma step_wait_ok v ev s s' g n :
  reach s g n -> lawful ev s = true -> mstep v ev s = Some s' -> wait_ok s -> wait_ok s'.
Proof.
  intros Hr Hl Hstep Hw. pose proof Hstep as Hstep0. unfold step in Hstep. set (s0 := set_m_calls [] s) in *.
  assert (wait_ok s0) as Hw0 by (by apply (wait_ok_same s); [apply remembers_same|..]).
  destruct ev as [c ref dl|c ref|c ref l|c a|e|nm i| |c|c|c|key|key a|object cancelled confirmed|r| |].
  - destruct (bool_decide _); [|done]. apply (inj Some) in Hstep. subst s'. unfold ensure.
    destruct (negb _); [by apply wait_ok_raise|by apply wait_ok_ensure].
  - destruct (bool_decide _); [|done]. apply (inj Some) in Hstep. subst s'. unfold close.
    destruct (negb _); [by apply wait_ok_raise|]. destruct (bool_decide _); [by apply wait_ok_return|].
    assert (wait_ok (unpublish (wr_workspace_ref ref) s0)) as Hw1 by (by apply (wait_ok_same s0); [apply remembers_same|..]).
    destruct (name_of _ _) as [nm|]; [|by apply wait_ok_raise].
    pose proof (wait_ok_run c TaskCall ref (WClose nm (m_active s0 !! wr_workspace_ref ref)) _ Hw1) as H. by destruct (_run _ _ _).
  - destruct (bool_decide _); [|done]. apply (inj Some) in Hstep. subst s'. unfold recover.
    destruct (negb _); [by apply wait_ok_raise|].
    pose proof (wait_ok_run c TaskCall ref (WRecover l) s0 Hw0) as H. by destruct (_run _ _ _).
  - assert (wait_ok (adopt c a s0)) as H.
    { unfold adopt. destruct (adoption_done s0); [|apply wait_ok_on; [by apply wait_ok_begin|done]].
      destruct a, (m_adoption s0) as [[| |[]]|]; first [by apply wait_ok_return | by apply wait_ok_raise]. }
    destruct a; try done; destruct (bool_decide _); try done; apply (inj Some) in Hstep; by subst s'.
  - apply (inj Some) in Hstep. subst s'. by apply (wait_ok_same s0); [apply remembers_same|..].
  - apply (inj Some) in Hstep. subst s'. unfold _source_lost. destruct (List.find _ _); [|done]. destruct (bool_decide _); [|done].
    by apply (wait_ok_same s0); [apply remembers_same|..].
  - destruct (m_loss s0) as [|e es]; [done|]. apply (inj Some) in Hstep. subst s'. unfold run_loss.
    assert (wait_ok (set_m_loss es s0)) as Hw1 by (by apply (wait_ok_same s0); [apply remembers_same|..]).
    destruct (negb _); [done|]. destruct (run_known (we_ref e) (WRecover (we_instance_id e)) (set_m_loss es s0)) as (H1 & _ & H3).
    by eapply wait_ok_same.
  - destruct (m_callers s0 !! c) as [cl|]; [|done]. destruct (awaited _ s0) as [r|]; [|done].
    apply (inj Some) in Hstep. subst s'. unfold wake.
    destruct (c_api cl), r; first [by apply wait_ok_ensure | by apply wait_ok_raise | by apply wait_ok_return].
  - destruct (m_callers s0 !! c) as [cl|]; [|done]. unfold time_out in Hstep.
    destruct (c_api cl), (c_wait cl); try discriminate; apply (inj Some) in Hstep; subst s';
      first [by apply wait_ok_raise | by apply wait_ok_return].
  - apply (inj Some) in Hstep. subst s'. by apply (wait_ok_drop s0 _ c); [apply remembers_same|..].
  - destruct (acquire_works s g n v key s' Hr Hstep0). by eapply works_wait_ok.
  - destruct (answer_works s g n v key a s' Hr Hstep0). by eapply works_wait_ok.
  - destruct (List.find _ _) as [[o key]|]; [|done]. apply (inj Some) in Hstep. subst s'. unfold _retired_late.
    destruct (_ || _); by apply (wait_ok_same s0); [apply remembers_same|..].
  - destruct (m_adoption s0) as [[]|]; try done. apply (inj Some) in Hstep. subst s'. by apply wait_ok_inventory.
  - destruct (m_adoption s0) as [[|ts|]|]; try done. destruct (gathered ts s0); [|done]. apply (inj Some) in Hstep. subst s'.
    unfold adoption_ends. destruct (is_ok _); by apply (wait_ok_same s0); [apply remembers_same|..].
  - done.
Qed.
Lemma reach_wait_ok s g n : reach s g n -> wait_ok s.
Proof.
  induction 1 as [|v ev s s' g n Hr IH Hl Hs]; [|by eapply step_wait_ok].
  intros c cl i H. cbn in H. by rewrite lookup_empty in H.
Qed.

(** ** The work of a Workspace ends *)

(** One answer, or one lock taken, with the gateway up. *)
Definition work_step (key : string) (s s' : mstate) : Prop :=
  exists v ev, v_gateway v = true /\ (ev = Acquire key \/ exists a, ev = Answer key a) /\ lawful ev s = true
    /\ mstep v ev s = Some s'.
Definition up : view := {| v_now := 0; v_mono := 0; v_observed := true; v_serving := true; v_gateway := true |}.
Definition some_answer (p : phase) : answer :=
  match p with
  | Placing _ _ => Placed (Err WorkspaceUnhosted)
  | Probing _ _ | AProbing _ => Probed (Ok "")
  | Restoring _ _ _ => Restored (Ok tt)
  | Reconnecting _ _ _ | AReconnecting _ _ => Reconnected (Ok tt)
  | Committing _ _ => Committed (Ok None)
  | Retiring _ _ => Retired (Ok tt)
  | AwaitingGateway _ => GatewayAnswered (Ok tt)
  | Waiting | Yielding => Slept
  end.
Lemma work_possible key s : tasks_of key s <> [] -> exists s', work_step key s s'.
Proof.
  intros Hq. destruct (tasks_of key s) as [|t ts] eqn:E; [done|].
  assert (tasks_of key (set_m_calls [] s) = t :: ts) as E0 by done.
  assert ({t_phase t = Waiting} + {t_phase t <> Waiting}) as [Hp|Hp] by (destruct (t_phase t); by (left + right)).
  - eexists. exists up, (Acquire key). split_and!; [done|by left|done|]. unfold step. rewrite E0, Hp. done.
  - assert (exists s', resume config has_restore has_health up t (some_answer (t_phase t)) (set_m_calls [] s) = Some s') as [s' Hs']
      by (unfold resume; destruct (t_phase t); try done; by eexists).
    exists s', up, (Answer key (some_answer (t_phase t))). split_and!; [done|right; by eexists|by destruct (t_phase t)|].
    unfold step. rewrite E0. exact Hs'.
Qed.
Lemma work_step_works key s s' g n :
  reach s g n -> work_step key s s' -> works key true s s' /\ exists g' n', reach s' g' n'.
Proof.
  intros Hr (v & ev & Hv & Hev & Hl & Hs). split.
  - destruct Hev as [->|[a ->]]; rewrite <- Hv; [by eapply acquire_works|by eapply answer_works].
  - eexists _, _. by eapply reach_step.
Qed.

(** C24. No caller of the manager waits for nothing.  Whoever waits for a task of a Workspace
    waits for a task that is in its queue or whose result is already there; while a task is
    left, some answer or lock step is possible; and as long as the gateway is up every such
    step brings the queue closer to its end, so at most [weight] of them follow each other and
    after the last one the queue is empty and everyone who waited for one of its tasks can be
    woken with its result. *)
Theorem waiters_are_woken s g n key :
  reach s g n ->
  (forall c cl i, m_callers s !! c = Some cl -> c_wait cl = OnTask i -> exists key, known key s i)
  /\ (forall m s', nsteps (work_step key) m s s' -> (m + weight key s' <= weight key s)%nat)
  /\ (forall s', rtc (work_step key) s s' -> nf (work_step key) s' ->
       tasks_of key s' = []
       /\ forall c cl i, m_callers s !! c = Some cl -> c_wait cl = OnTask i -> known key s i ->
          m_callers s' !! c = Some cl /\ is_Some (awaited (c_wait cl) s')).
Proof.
  intros Hr. split_and!.
  - exact (reach_wait_ok s g n Hr).
  - intros m s' Hn. revert g n Hr. induction Hn as [s|m s s1 s2 H1 _ IH]; intros g n Hr; [lia|].
    destruct (work_step_works key s s1 g n Hr H1) as [[Hw _ _ _] (g' & n' & Hr')]. specialize (Hw eq_refl).
    specialize (IH g' n' Hr'). lia.
  - intros s' Hsteps Hnf.
    assert (tasks_of key s' = []) as Hend.
    { destruct (tasks_of key s') eqn:E; [done|]. destruct Hnf. apply work_possible. by rewrite E. }
    split; [done|]. intros c cl i Hc Hi Hk. rewrite Hi.
    assert (m_callers s' = m_callers s /\ known key s' i) as [Ec Hk'].
    { clear -Hsteps Hr Hk names. revert g n Hr. induction Hsteps as [s|s s1 s2 H1 _ IH]; intros g n Hr; [done|].
      destruct (work_step_works key s s1 g n Hr H1) as [[_ _ Hkn Hcl] (g' & n' & Hr')].
      destruct (IH (Hkn i Hk) g' n' Hr') as [E Hk']. split; [congruence|done]. }
    split; [by rewrite Ec|]. destruct Hk' as [Hin|Hres]; [|exact Hres].
    unfold ids in Hin. rewrite Hend in Hin. by apply elem_of_nil in Hin.
Qed.
End live.

(** ** Samples *)

(** Running a list of lawful steps. *)
Fixpoint drive (config : RuntimeConfig) (evs : list event) (w : mstate * gset string * nat) : option (mstate * gset string * nat) :=
  match evs with
  | [] => Some w
  | ev :: evs =>
      let '(s, g, n) := w in
      if lawful ev s then
        match step config true true true up ev s with
        | Some s' => drive config evs (s', units_after ev s g, inventory_after ev n)
        | None => None
        end
      else None
  end.
Lemma drive_reach config evs s g n s' g' n' :
  reach config true true true s g n -> drive config evs (s, g, n) = Some (s', g', n') -> reach config true true true s' g' n'.
Proof.
  revert s g n. induction evs as [|ev evs IH]; intros s g n Hr; cbn [drive]; [by intros [= <- <- <-]|].
  destruct (lawful ev s) eqn:Hl; [|done]. destruct (step config true true true up ev s) as [s1|] eqn:Hs; [|done].
  apply IH. by eapply reach_step.
Qed.

Definition a_ref : WorkspaceRef :=
  {| wr_namespace := agent_namespace (rc_agent sample_config); wr_agent_uid := agent_uid (rc_agent sample_config);
     wr_workspace_ref := sha256_hex "w" |}.
Definition a_key : string := wr_workspace_ref a_ref.
Definition a_placement : Placement := {| p_name := "agent-w"; p_base_url := "http://w"; p_registration := 1 |}.
Definition a_receipt : PersistReceipt :=
  {| pr_ref := {| sr_agent := {| fi_name := agent_name (rc_agent sample_config);
                                 fi_namespace := agent_namespace (rc_agent sample_config);
                                 fi_uid := agent_uid (rc_agent sample_config) |};
                  sr_workspace_ref := a_key; sr_domain := "workspace"; sr_session_ref := None |};
     pr_snapshot_id := "snap"; pr_writer_epoch := 1; pr_generation := 1; pr_etag := "etag"; pr_checksum := "sum";
     pr_size := 7; pr_version := 1; pr_committed_at := None; pr_expires_at := None |}.

(** Two demands, the adoption of an empty inventory, one activation. *)
Definition activated : list event :=
  [Ensure 0 a_ref None; Inventory (Ok []); Gathered; Wake 0; Ensure 1 a_ref None; Acquire a_key;
   Answer a_key (Placed (Ok a_placement)); Answer a_key (Probed (Ok "i-1")); Answer a_key (Restored (Ok tt));
   Answer a_key (Reconnected (Ok tt)); Wake 0; Wake 1].
(** The unit is lost; its replacement is being placed once the host confirmed the stop. *)
Definition lost : list event := activated ++ [SourceLost "agent-w" (Some "i-1"); RunLoss; Acquire a_key].
Definition recovered : list event :=
  lost ++ [Answer a_key (Retired (Ok tt)); Answer a_key (Placed (Ok a_placement)); Answer a_key (Probed (Ok "i-2"));
           Answer a_key (Restored (Ok tt)); Answer a_key (Reconnected (Ok tt))].
Definition closed : list event :=
  recovered ++ [Close 2 a_ref; Acquire a_key; Answer a_key (Committed (Ok (Some a_receipt))); Answer a_key (Retired (Ok tt)); Wake 2].
Definition run (evs : list event) := drive sample_config evs (start_state, ∅, 0%nat).
Definition shape (w : option (mstate * gset string * nat)) :=
  match w with
  | Some (s, g, n) => Some (option_map we_instance_id (m_active s !! a_key), bool_decide (a_key ∈ m_occupied s), bool_decide (a_key ∈ g),
                            length (tasks_of a_key s), m_calls s)
  | None => None
  end.
Example the_unit_is_replaced :
  map (fun evs => match shape (run evs) with Some (i, o, u, q, _) => Some (i, o, u, q) | None => None end) [activated; lost; recovered; closed]
  = [Some (Some "i-1", true, true, 0%nat); Some (None, true, true, 1%nat); Some (Some "i-2", true, true, 0%nat);
     Some (None, false, false, 0%nat)].
Proof. vm_compute. reflexivity. Qed.

Lemma sample_names key : exists n, name_of sample_config key = Ok n.
Proof.
  unfold name_of, workspace_name, _dns_name.
  destruct ((253 <? String.length (agent_name (rc_agent sample_config)))%nat
            || negb (_AGENT_NAME_RE (agent_name (rc_agent sample_config)))) eqn:E; [vm_compute in E; discriminate|].
  by eexists.
Qed.
Lemma run_reach evs s g n : run evs = Some (s, g, n) -> reach sample_config true true true s g n.
Proof. intros E. eapply drive_reach; [apply reach_start|exact E]. Qed.

(** The replacement is placed when, and only when, the stop of the lost unit is confirmed. *)
Lemma one_unit_witness :
  exists s g n s', run lost = Some (s, g, n) /\ a_key ∈ g
  /\ step sample_config true true true up (Answer a_key (Retired (Ok tt))) s = Some s'
  /\ existsb is_place (m_calls s') = true
  /\ (forall k name d, CPlace k name d ∈ m_calls s' -> k ∉ units_after (Answer a_key (Retired (Ok tt))) s g)
  /\ g ⊆ m_occupied s.
Proof.
  destruct (run lost) as [[[s g] n]|] eqn:E; [|vm_compute in E; discriminate].
  assert (bool_decide (a_key ∈ g) = true /\ match step sample_config true true true up (Answer a_key (Retired (Ok tt))) s with
          | Some s' => existsb is_place (m_calls s') = true | None => False end) as [Hg Hs].
  { assert (match run lost with
            | Some (s, g, n) => bool_decide (a_key ∈ g) = true
                /\ match step sample_config true true true up (Answer a_key (Retired (Ok tt))) s with
                   | Some s' => existsb is_place (m_calls s') = true | None => False end
            | None => False end) as H by (vm_compute; split; reflexivity).
    rewrite E in H. exact H. }
  destruct (step _ _ _ _ up (Answer a_key (Retired (Ok tt))) s) as [s'|] eqn:Es; [|destruct Hs].
  exists s, g, n, s'. split; [reflexivity|]. split; [exact (bool_decide_eq_true_1 _ Hg)|]. split; [exact Es|]. split; [exact Hs|].
  destruct (one_unit sample_config true true true sample_names up (Answer a_key (Retired (Ok tt))) s s' g n
    (run_reach lost s g n E) eq_refl Es) as (H1 & H2 & _).
  split; [exact H1|exact H2].
Defined.

(** Two callers wait for the same activation. *)
Lemma waiters_are_woken_witness :
  exists s g n, run (take 6 activated) = Some (s, g, n) /\ size (m_callers s) = 2%nat
  /\ (forall c cl i, m_callers s !! c = Some cl -> c_wait cl = OnTask i -> exists key, known key s i)
  /\ (forall m s', nsteps (work_step sample_config true true true a_key) m s s' -> (m + weight a_key s' <= weight a_key s)%nat).
Proof.
  destruct (run (take 6 activated)) as [[[s g] n]|] eqn:E; [|vm_compute in E; discriminate].
  exists s, g, n. split; [reflexivity|]. split.
  { assert (match run (take 6 activated) with Some (s, _, _) => size (m_callers s) = 2%nat | None => False end) as H
      by (vm_compute; reflexivity). rewrite E in H. exact H. }
  destruct (waiters_are_woken sample_config true true true sample_names s g n a_key (run_reach _ s g n E)) as (H1 & H2 & _).
  split; [exact H1|exact H2].
Defined.

(** The Workspace is said to keep serving after a transient failure of its close, and its
    endpoint stays published; every later demand is refused with the recorded error. *)
Lemma transient_close_refuses_demand :
  match run (activated ++ [Close 2 a_ref; Acquire a_key; Answer a_key (Committed (Err TransientFailure)); Wake 2; Ensure 3 a_ref None]) with
  | Some (s, g, n) => is_Some (m_active s !! a_key) /\ m_calls s = [CRaise 3 TransientFailure]
  | None => False
  end.
Proof. vm_compute. split; [by eexists|reflexivity]. Qed.

(** Why a Workspace must be closed by one caller at a time: a close that finds the publication
    of a recovery coalesces onto the close that waits behind it, which closes nothing, and the
    next demand places the Workspace again while its unit still runs. *)
Definition closed_twice : list event :=
  [Answer a_key (Retired (Ok tt)); Answer a_key (Placed (Ok a_placement)); Answer a_key (Probed (Ok "i-2"));
   Answer a_key (Restored (Ok tt)); Close 2 a_ref; Answer a_key (Reconnected (Ok tt)); Close 3 a_ref; Acquire a_key;
   Ensure 4 a_ref None; Acquire a_key].
Fixpoint drive_any (evs : list event) (s : mstate) (g : gset string) : option (mstate * gset string) :=
  match evs with
  | [] => Some (s, g)
  | ev :: evs =>
      match step sample_config true true true up ev s with
      | Some s' => drive_any evs s' (units_after ev s g)
      | None => None
      end
  end.
Example two_closers_lose_the_unit :
  match drive_any (lost ++ closed_twice) start_state ∅ with
  | Some (s, g) => a_key ∈ g /\ existsb is_place (m_calls s) = true
  | None => False
  end.
Proof. vm_compute. split; [reflexivity|reflexivity]. Qed.
