(* ===== verification/Hosted.v ===== *)
(** * harness/hosted.py, harness/launch.py: the host's side of the Workspaces

    [HostedSource] publishes which Workspaces should run and records what the host registered
    for them.  A [Hosted] entry is an object: the coroutine of [place] and the one of [retire]
    keep the entry they started with while the dictionary may hold another under its name, so
    entries live in a store and the dictionary maps names to them.  Every mutation wakes every
    waiter, so a waiting coroutine is a turn of its loop that may run at any time. *)

From stdpp Require Import fin_sets gmap.
From S2P Require Import Prelude Sha256 PyJson PyLoads Refs Config StateRefs Effects Storage Wire Delivery Manager.
Local Open Scope Z_scope.

(** ** The launch environment *)

Definition ENV_VALUE_MAX : nat := 8 * 1024.
Definition env_value_ok (value : string) : bool :=
  negb (contains newline value) && negb (ENV_VALUE_MAX <? String.length value)%nat.
Definition launch_env (bootstrap_json verify_key : string) (ref : WorkspaceRef) (name : string) :
    result mexn (list (string * string)) :=
  let env := [("ACH_SANDBOX_VERIFY_KEY", verify_key); ("ACH_WORKSPACE_NAME", name);
              ("ACH_WORKSPACE_REF", wr_workspace_ref ref); ("ACH_BOOTSTRAP_JSON", bootstrap_json)] in
  if forallb (fun kv => env_value_ok kv.2) env then Ok env else Err AssemblyUnavailable.

(** ** State *)

Inductive desired := Running | Released.
#[export] Instance desired_eq_dec : EqDecision desired.
Proof. solve_decision. Defined.
Inductive unit_state := UProbing | UServing.
Record hosted := mkH {
  h_ref : WorkspaceRef; h_name : string; h_desired : desired; h_launch : list (string * string);
  h_placement : option Placement; h_observed : option string; h_state : option unit_state
}.
Record hsource := mkS {
  s_revision : Z; s_adopting : bool; s_stopping : bool;
  s_objects : list hosted;                       (* every entry that was created, by its number *)
  s_entries : list (string * nat);               (* _entries, in the order of the dictionary *)
  s_inventory : list (WorkspaceRef * Placement);
  s_registrations : Z;                           (* the next of _registrations *)
  s_gateway : bool;
  s_lost : list (string * option string)         (* the _lost tasks that were created *)
}.
Definition new_source : hsource := mkS 0 true false [] [] [] 1 true [].

Definition set_entries v s := mkS (s_revision s) (s_adopting s) (s_stopping s) (s_objects s) v (s_inventory s) (s_registrations s) (s_gateway s) (s_lost s).
Definition set_objects v s := mkS (s_revision s) (s_adopting s) (s_stopping s) v (s_entries s) (s_inventory s) (s_registrations s) (s_gateway s) (s_lost s).
Definition set_registrations v s := mkS (s_revision s) (s_adopting s) (s_stopping s) (s_objects s) (s_entries s) (s_inventory s) v (s_gateway s) (s_lost s).
Definition set_gateway (v : bool) s := mkS (s_revision s) (s_adopting s) (s_stopping s) (s_objects s) (s_entries s) (s_inventory s) (s_registrations s) v (s_lost s).
Definition set_lost v s := mkS (s_revision s) (s_adopting s) (s_stopping s) (s_objects s) (s_entries s) (s_inventory s) (s_registrations s) (s_gateway s) v.
Definition set_stopping v s := mkS (s_revision s) (s_adopting s) v (s_objects s) (s_entries s) (s_inventory s) (s_registrations s) (s_gateway s) (s_lost s).
Definition adopted units s := mkS (s_revision s) false (s_stopping s) (s_objects s) (s_entries s) units (s_registrations s) (s_gateway s) (s_lost s).
Definition _touch s := mkS (s_revision s + 1) (s_adopting s) (s_stopping s) (s_objects s) (s_entries s) (s_inventory s) (s_registrations s) (s_gateway s) (s_lost s).

(** The dictionary: a new name goes to the end, a known one keeps its place. *)
Fixpoint dict_set (name : string) (i : nat) (d : list (string * nat)) : list (string * nat) :=
  match d with
  | [] => [(name, i)]
  | (n, j) :: d => if String.eqb n name then (n, i) :: d else (n, j) :: dict_set name i d
  end.
Definition dict_del (name : string) (d : list (string * nat)) : list (string * nat) :=
  List.filter (fun e => negb (String.eqb e.1 name)) d.
Definition entry (name : string) (s : hsource) : option nat := assoc name (s_entries s).
(** The dictionary still holds this very entry. *)
Definition is_entry (name : string) (i : nat) (s : hsource) : bool := bool_decide (entry name s = Some i).
Definition new_entry (h : hosted) (s : hsource) : hsource :=
  set_entries (dict_set (h_name h) (length (s_objects s)) (s_entries s)) (set_objects (s_objects s ++ [h]) s).
Definition del_entry (name : string) (s : hsource) : hsource := set_entries (dict_del name (s_entries s)) s.
Definition set_object (i : nat) (h : hosted) (s : hsource) : hsource := set_objects (<[i := h]> (s_objects s)) s.
Definition with_placement (p : Placement) (h : hosted) : hosted :=
  mkH (h_ref h) (h_name h) (h_desired h) (h_launch h) (Some p) (h_observed h) (Some UProbing).
Definition with_observed (i : string) (h : hosted) : hosted :=
  mkH (h_ref h) (h_name h) (h_desired h) (h_launch h) (h_placement h) (Some i) (h_state h).
Definition serving_ (h : hosted) : hosted :=
  mkH (h_ref h) (h_name h) (h_desired h) (h_launch h) (h_placement h) (h_observed h) (Some UServing).
Definition released_ (h : hosted) : hosted :=
  mkH (h_ref h) (h_name h) Released (h_launch h) (h_placement h) (h_observed h) (h_state h).

Section source.
(** The agent, the verify key and the bootstrap document of the process. *)
Context (agent : AgentIdentity) (verify_key bootstrap_json : string).
Definition _launch (ref : WorkspaceRef) (name : string) : result mexn (list (string * string)) :=
  launch_env bootstrap_json verify_key ref name.

(** ** What the manager calls *)

(** [place] up to its loop: the entry it waits for. *)
Definition place (ref : WorkspaceRef) (name : string) (s : hsource) : result mexn (nat * hsource) :=
  match entry name s with
  | Some _ => Err WorkspaceConflict
  | None =>
      launch ← _launch ref name;
      Ok (length (s_objects s), _touch (new_entry (mkH ref name Running launch None None None) s))
  end.
(** One turn of its loop; [None] waits on. *)
Definition place_fails (i : nat) (name : string) (s : hsource) : hsource :=
  match h_placement <$> s_objects s !! i with
  | Some None => if is_entry name i s then _touch (del_entry name s) else s
  | _ => s
  end.
Definition place_turn (i : nat) (name : string) (deadline now : Z) (s : hsource) :
    option (result mexn Placement) * hsource :=
  match s_objects s !! i with
  | Some h =>
      match h_placement h with
      | Some p => (Some (Ok p), s)
      | None =>
          if deadline - now <=? 0 then (Some (Err WorkspaceUnhosted), place_fails i name s) else (None, s)
      end
  | None => (None, s)
  end.
Definition place_cancelled (i : nat) (name : string) (s : hsource) : result mexn Placement * hsource :=
  (Err CancelledErr, place_fails i name s).

(** [retire] up to its loop: the entry it waits for, [None] when there is none. *)
Definition retire (name : string) (s : hsource) : option nat * hsource :=
  match entry name s with
  | None => (None, s)
  | Some i =>
      match s_objects s !! i with
      | Some h => (Some i, _touch (set_object i (released_ h) s))
      | None => (None, s)
      end
  end.
Definition retire_turn (i : nat) (name : string) (s : hsource) : option (result mexn unit) :=
  if is_entry name i s then None else Some (Ok tt).
Definition adopt_turn (s : hsource) : option (result mexn (list (WorkspaceRef * Placement))) :=
  if s_adopting s then None else Some (Ok (s_inventory s)).

Definition _current (p : Placement) (s : hsource) : option (nat * hosted) :=
  match entry (p_name p) s with
  | Some i =>
      match s_objects s !! i with
      | Some h => if bool_decide (h_desired h = Running) && bool_decide (h_placement h = Some p) then Some (i, h) else None
      | None => None
      end
  | None => None
  end.
Definition observed (p : Placement) (instance_id : string) (s : hsource) : bool * hsource :=
  match _current p s with
  | None => (false, s)
  | Some (i, h) => (true, _touch (set_object i (with_observed instance_id h) s))
  end.
Definition serving (p : Placement) (instance_id : string) (s : hsource) : bool * hsource :=
  match _current p s with
  | None => (false, s)
  | Some (i, h) => (true, _touch (set_object i (serving_ h) s))
  end.
Definition close (s : hsource) : hsource := _touch (set_stopping true s).

(** ** What the host calls *)

Definition register (name base_url : string) (s : hsource) : Z * option string * hsource :=
  match entry name s with
  | None => (409, Some "not_desired", s)
  | Some i =>
      match s_objects s !! i with
      | None => (409, Some "not_desired", s)
      | Some h =>
          if negb (bool_decide (h_desired h = Running)) then (409, Some "not_desired", s)
          else match h_placement h with
               | Some p => if String.eqb (p_base_url p) base_url then (200, None, s) else (409, Some "registered", s)
               | None =>
                   let p := {| p_name := name; p_base_url := base_url; p_registration := s_registrations s |} in
                   (202, None, _touch (set_object i (with_placement p h) (set_registrations (s_registrations s + 1) s)))
               end
      end
  end.
Definition unregister (name : string) (instance_id : option string) (s : hsource) : hsource :=
  match entry name s with
  | None => s
  | Some i =>
      match s_objects s !! i with
      | None => s
      | Some h =>
          if bool_decide (h_placement h = None) then s
          else if bool_decide (h_observed h <> None) && negb (bool_decide (instance_id = h_observed h)) then s
          else
            let s := _touch (del_entry name s) in
            if bool_decide (h_desired h = Running) then set_lost (s_lost s ++ [(name, h_observed h)]) s else s
      end
  end.

(** A unit of the inventory: its name, its Workspace and its URL; [None] for a missing field. *)
Record unit_doc := { u_name : string; u_workspace_ref : string; u_base_url : string }.
(** The parse of the inventory: the units, or the status that refuses it. *)
Fixpoint parse_units (units : list unit_doc) (registration : Z) : result Z (list (WorkspaceRef * Placement)) * Z :=
  match units with
  | [] => (Ok [], registration)
  | u :: units =>
      if negb (hex64 (u_workspace_ref u)) then (Err 422, registration) else
      match workspace_name (agent_name agent) (u_workspace_ref u) with
      | Err _ => (Err 422, registration)
      | Ok name =>
          if negb (String.eqb (u_name u) name) then (Err 422, registration) else
          let ref := {| wr_namespace := agent_namespace agent; wr_agent_uid := agent_uid agent;
                        wr_workspace_ref := u_workspace_ref u |} in
          let p := {| p_name := u_name u; p_base_url := u_base_url u; p_registration := registration |} in
          let '(rest, registration) := parse_units units (registration + 1) in
          (rest ← rest; Ok ((ref, p) :: rest), registration)
      end
  end.
(** The parsed units become entries one by one; a launch environment that cannot be built
    raises, and leaves the entries before it. *)
Fixpoint add_units (units : list (WorkspaceRef * Placement)) (s : hsource) : result mexn unit * hsource :=
  match units with
  | [] => (Ok tt, s)
  | (ref, p) :: units =>
      match _launch ref (p_name p) with
      | Err x => (Err x, s)
      | Ok launch => add_units units (new_entry (mkH ref (p_name p) Running launch (Some p) None (Some UProbing)) s)
      end
  end.
Definition accept_inventory (epoch our_epoch : string) (units : list unit_doc) (s : hsource) : result mexn Z * hsource :=
  if negb (String.eqb epoch our_epoch) then (Ok 409, s)
  else if negb (s_adopting s) then (Ok 200, s)
  else
    let '(parsed, registration) := parse_units units (s_registrations s) in
    let s := set_registrations registration s in
    match parsed with
    | Err status => (Ok status, s)
    | Ok parsed =>
        if negb (bool_decide (NoDup (map (fun u => p_name u.2) parsed))) then (Ok 422, s)
        else match add_units parsed s with
             | (Err x, s) => (Err x, s)
             | (Ok tt, s) => (Ok 202, _touch (adopted parsed s))
             end
    end.

(** ** The long poll *)

Record instance_doc := { i_instance_id : option string; i_base_url : string; i_state : option unit_state }.
Record workspace_doc := {
  d_name : string; d_workspace_ref : string; d_desired : desired; d_launch : list (string * string);
  d_instance : option instance_doc
}.
Definition workspace_doc_of (h : hosted) : workspace_doc :=
  {| d_name := h_name h; d_workspace_ref := wr_workspace_ref (h_ref h); d_desired := h_desired h; d_launch := h_launch h;
     d_instance := (fun p => {| i_instance_id := h_observed h; i_base_url := p_base_url p; i_state := h_state h |}) <$> h_placement h |}.
Record snapshot_doc := { sn_revision : Z; sn_adopting : bool; sn_workspaces : list workspace_doc }.
Definition workspaces_of (s : hsource) : list workspace_doc :=
  if s_adopting s then []
  else omap (fun e => workspace_doc_of <$> s_objects s !! e.2) (s_entries s).
Definition snapshot (s : hsource) : snapshot_doc :=
  {| sn_revision := s_revision s; sn_adopting := s_adopting s; sn_workspaces := workspaces_of s |}.
(** [listing] waits while the host's cursor is the current one; otherwise it answers, or says
    that the process is stopping.  A cursor is [epoch.revision]; [after] is its revision when
    the epoch is this process's. *)
Definition listing_waits (after : option Z) (wait_seconds : Z) (s : hsource) : bool :=
  bool_decide (after = Some (s_revision s)) && (0 <? wait_seconds) && negb (s_stopping s).
Definition listing (s : hsource) : option snapshot_doc := if s_stopping s then None else Some (snapshot s).
End source.

(** ** The routes *)

Section routes.
Context (agent : AgentIdentity) (verify_key bootstrap_json epoch token : string).
(** [json.loads] of floating point numbers. *)
Context (parse_float : string -> pyfloat).

Inductive route :=
  | ListWorkspaces
  | PutInstance (name : string) | DeleteInstance (name : string) (instance_id : option string)
  | PutInventory | PutGateway.
Record host_request := { q_authorization : string; q_route : route; q_body : string }.

Definition _MAX_BODY : nat := 1024 * 1024.
Definition body (raw : string) : option (list (string * json)) :=
  if (_MAX_BODY <? String.length raw)%nat then None
  else match json_loads parse_float raw with Some (JObj d) => Some d | _ => None end.
Definition json_str (j : option json) : option string := match j with Some (JStr v) => Some v | _ => None end.
Definition valid_url (j : option json) : option string :=
  match json_str j with Some v => if _ENDPOINT_PATTERN v then Some v else None | None => None end.
Definition unit_doc_of (j : json) : option unit_doc :=
  match j with
  | JObj d =>
      match json_str (assoc "name" d), json_str (assoc "workspaceRef" d), valid_url (assoc "baseUrl" d) with
      | Some n, Some w, Some u => Some {| u_name := n; u_workspace_ref := w; u_base_url := u |}
      | _, _, _ => None
      end
  | _ => None
  end.
(** The status of a response; an exception of the handler is the server's 500. *)
Definition handle (q : host_request) (s : hsource) : Z * hsource :=
  if negb (String.eqb (q_authorization q) ("Bearer " +:+ token)) then (401, s)
  else if s_stopping s then (503, s)
  else match q_route q with
       | ListWorkspaces => (200, s)
       | PutInstance name =>
           match body (q_body q) with
           | None => (422, s)
           | Some d =>
               match valid_url (assoc "baseUrl" d) with
               | None => (422, s)
               | Some url => let '(status, _, s) := register name url s in (status, s)
               end
           end
       | DeleteInstance name instance_id => (204, unregister name instance_id s)
       | PutInventory =>
           match body (q_body q) with
           | None => (422, s)
           | Some d =>
               match json_str (assoc "runtimeEpoch" d), assoc "units" d with
               | Some e, Some (JList units) =>
                   match mapM unit_doc_of units with
                   | None => (422, s)
                   | Some docs =>
                       let '(r, s) := accept_inventory agent verify_key bootstrap_json e epoch docs s in
                       (match r with Ok status => status | Err _ => 500 end, s)
                   end
               | _, _ => (422, s)
               end
           end
       | PutGateway =>
           match body (q_body q) with
           | None => (422, s)
           | Some d =>
               match assoc "available" d with
               | Some (JBool available) => (204, set_gateway available s)
               | _ => (422, s)
               end
           end
       end.
End routes.
