(* ===== verification/HostedProps.v ===== *)
(** * What the hosted source promises the manager and the host

    [hosted_keeps_contract]: what [HostedSource] answers is what [ManagerSteps.lawful] asks of
    a source.  [registration_is_current]: an answer about a registration is about that very
    registration.  [cursor_tells_changes]: a host that polls with the current cursor misses no
    change. *)

From stdpp Require Import fin_sets gmap.
From S2P Require Import Prelude Sha256 PyJson PyLoads Refs Config ConfigFacts StateRefs Effects Storage Wire Delivery Manager ManagerInv ManagerSteps Hosted.
Local Open Scope Z_scope.

(** ** Reachable states *)

Section reach.
Context (agent : AgentIdentity) (verify_key bootstrap_json epoch token : string) (parse_float : string -> pyfloat).

(** One operation of the manager or of the host. *)
Inductive hstep (s : hsource) : hsource -> Prop :=
  | step_place ref name i s' : place verify_key bootstrap_json ref name s = Ok (i, s') -> hstep s s'
  | step_place_turn i name deadline now : hstep s (snd (place_turn i name deadline now s))
  | step_place_cancelled i name : hstep s (snd (place_cancelled i name s))
  | step_retire name : hstep s (snd (retire name s))
  | step_observed p i : hstep s (snd (observed p i s))
  | step_serving p i : hstep s (snd (serving p i s))
  | step_close : hstep s (close s)
  | step_host q : hstep s (snd (handle agent verify_key bootstrap_json epoch token parse_float q s)).
Definition hreach : hsource -> Prop := rtc hstep new_source.

(** ** The dictionary *)

Definition names (d : list (string * nat)) : list string := map fst d.
Lemma assoc_dict_set n i d m : assoc m (dict_set n i d) = if String.eqb m n then Some i else assoc m d.
Proof.
  induction d as [|[k j] d IH]; cbn; [done|].
  destruct (String.eqb_spec k n) as [->|Hn]; cbn.
  - by destruct (String.eqb m n).
  - rewrite IH. destruct (String.eqb_spec m k) as [->|]; [|done]. by destruct (String.eqb_spec k n).
Qed.
Lemma assoc_dict_del n d m : assoc m (dict_del n d) = if String.eqb m n then None else assoc m d.
Proof.
  unfold dict_del. induction d as [|[k j] d IH]; cbn; [by destruct (String.eqb m n)|].
  destruct (String.eqb_spec k n) as [->|Hn]; cbn; rewrite IH; [by destruct (String.eqb m n)|].
  destruct (String.eqb_spec m k) as [->|]; [|done]. by destruct (String.eqb_spec k n).
Qed.
(** The operations of the host, as the route runs them. *)
Inductive host_op (s : hsource) : hsource -> Prop :=
  | op_none : host_op s s
  | op_register name url : host_op s (snd (register name url s))
  | op_unregister name i : host_op s (unregister name i s)
  | op_inventory e docs : host_op s (snd (accept_inventory agent verify_key bootstrap_json e epoch docs s))
  | op_gateway b : host_op s (set_gateway b s).
Lemma handle_op q s : host_op s (snd (handle agent verify_key bootstrap_json epoch token parse_float q s)).
Proof.
  unfold handle. destruct (negb _); [constructor|]. destruct (s_stopping s); [constructor|].
  destruct (q_route q) as [|name|name i| |]; cbn; try constructor.
  - destruct (body _ _) as [d|]; [|constructor]. destruct (valid_url _) as [u|]; [|constructor].
    pose proof (op_register s name u) as H. by destruct (register name u s) as [[? ?] ?].
  - destruct (body _ _) as [d|]; [|constructor]. destruct (json_str _) as [e|]; [|constructor].
    destruct (assoc "units" d) as [[]|]; try constructor. destruct (mapM _ _) as [docs|]; [|constructor].
    pose proof (op_inventory s e docs) as H. by destruct (accept_inventory _ _ _ _ _ _ _).
  - destruct (body _ _) as [d|]; [|constructor]. destruct (assoc "available" d) as [[]|]; constructor.
Qed.

(** ** The invariant *)

Definition from_agent (u : WorkspaceRef * Placement) : Prop :=
  workspace_name (agent_name agent) (wr_workspace_ref u.1) = Ok (p_name u.2).
Record HInv (s : hsource) : Prop := {
  hi_entry : forall n i, entry n s = Some i -> exists h, s_objects s !! i = Some h /\ h_name h = n;
  hi_reg : forall i h p, s_objects s !! i = Some h -> h_placement h = Some p ->
    p_registration p < s_registrations s /\ p_name p = h_name h;
  hi_unique : forall i j h h' p p', s_objects s !! i = Some h -> s_objects s !! j = Some h' ->
    h_placement h = Some p -> h_placement h' = Some p' -> p_registration p = p_registration p' -> i = j;
  hi_inventory : NoDup (map (fun u => p_name u.2) (s_inventory s)) /\ Forall from_agent (s_inventory s)
}.
(** What no step undoes: entries only end, registrations stay, a release is final. *)
Record hmono (s s' : hsource) : Prop := {
  hm_length : (length (s_objects s) <= length (s_objects s'))%nat;
  hm_object : forall i h, s_objects s !! i = Some h -> exists h', s_objects s' !! i = Some h' /\ h_name h' = h_name h
    /\ (h_desired h = Released -> h_desired h' = Released) /\ (forall p, h_placement h = Some p -> h_placement h' = Some p);
  hm_entry : forall n i, (i < length (s_objects s))%nat -> entry n s' = Some i -> entry n s = Some i
}.
#[global] Instance hmono_preorder : PreOrder hmono.
Proof.
  split; [intros s; split; [done|eauto|done]|].
  intros s1 s2 s3 [L1 O1 E1] [L2 O2 E2]. split; [lia| |intros n i H1 H2; apply E1, E2; [done|lia|done]].
  intros i h Hi. destruct (O1 i h Hi) as (h' & Hi' & Hn & Hd & Hp). destruct (O2 i h' Hi') as (h2 & Hi2 & Hn2 & Hd2 & Hp2).
  exists h2. split_and!; eauto. congruence.
Qed.
(** A step that keeps the invariant and undoes nothing. *)
Definition keeps (s s' : hsource) : Prop := HInv s -> HInv s' /\ hmono s s'.
Lemma keeps_refl s : keeps s s. Proof. intros H. by split. Qed.
Lemma keeps_trans s1 s2 s3 : keeps s1 s2 -> keeps s2 s3 -> keeps s1 s3.
Proof. intros H1 H2 HI. destruct (H1 HI) as [HI2 M1]. destruct (H2 HI2) as [HI3 M2]. split; [done|by etrans]. Qed.
Lemma keeps_same s s' :
  s_objects s' = s_objects s -> s_entries s' = s_entries s -> s_registrations s <= s_registrations s' ->
  s_inventory s' = s_inventory s -> keeps s s'.
Proof.
  intros Eo Ee Er Ei [H1 H2 H3 H4]. unfold entry in *. split; split; unfold entry; rewrite ?Eo, ?Ee, ?Ei; try done; eauto.
  intros i h p Hi Hp. destruct (H2 i h p Hi Hp). split; [lia|done].
Qed.
Lemma keeps_del n s : keeps s (del_entry n s).
Proof.
  intros [H1 H2 H3 H4]. split; split; try done; eauto; unfold entry in *; cbn; intros m i; rewrite assoc_dict_del;
    destruct (String.eqb m n); eauto; done.
Qed.
(** A new entry with a fresh registration, or with none yet. *)
Lemma keeps_new h s :
  match h_placement h with Some p => p_name p = h_name h /\ p_registration p < s_registrations s
    /\ (forall i h' p', s_objects s !! i = Some h' -> h_placement h' = Some p' -> p_registration p' <> p_registration p) | None => True end ->
  keeps s (new_entry h s).
Proof.
  intros Hh [H1 H2 H3 H4]. unfold new_entry. split; split; unfold entry in *; cbn in *.
  - intros n i. rewrite assoc_dict_set. destruct (String.eqb_spec n (h_name h)) as [->|].
    + intros [= <-]. exists h. split; [|done]. by rewrite list_lookup_middle.
    + intros Hi. destruct (H1 n i Hi) as (h' & Hi' & Hn). exists h'. split; [|done]. by apply lookup_app_l_Some.
  - intros i h' p Hi Hp. apply lookup_app_Some in Hi as [Hi|[_ Hi]]; [eauto|].
    apply list_lookup_singleton_Some in Hi as [_ <-]. rewrite Hp in Hh. naive_solver.
  - intros i j h1 h2 p p' Hi Hj Hp Hp' E.
    apply lookup_app_Some in Hi as [Hi|[Li Hi]]; apply lookup_app_Some in Hj as [Hj|[Lj Hj]]; [by eapply H3|..].
    + apply list_lookup_singleton_Some in Hj as [_ <-]. rewrite Hp' in Hh. destruct Hh as (_ & _ & Hh). by destruct (Hh _ _ _ Hi Hp).
    + apply list_lookup_singleton_Some in Hi as [_ <-]. rewrite Hp in Hh. destruct Hh as (_ & _ & Hh). by destruct (Hh _ _ _ Hj Hp').
    + apply list_lookup_singleton_Some in Hi as [Hi _]. apply list_lookup_singleton_Some in Hj as [Hj _]. lia.
  - done.
  - rewrite length_app. lia.
  - intros i h' Hi. exists h'. split; [by apply lookup_app_l_Some|done].
  - intros n i Hi. rewrite assoc_dict_set. destruct (String.eqb n (h_name h)); [intros [= <-]; lia|done].
Qed.
(** An entry changes, and keeps its name and what is final about it. *)
Lemma keeps_object i h h' s :
  s_objects s !! i = Some h -> h_name h' = h_name h -> (h_desired h = Released -> h_desired h' = Released) ->
  h_placement h' = h_placement h -> keeps s (set_object i h' s).
Proof.
  intros Hi Hn Hd Hp [H1 H2 H3 H4]. pose proof (lookup_lt_Some _ _ _ Hi) as Hlt.
  assert (forall j k, <[i := h']> (s_objects s) !! j = Some k -> exists k0, s_objects s !! j = Some k0
    /\ h_name k = h_name k0 /\ h_placement k = h_placement k0) as Hback.
  { intros j k. destruct (decide (i = j)) as [<-|].
    - rewrite list_lookup_insert_eq by done. intros [= <-]. eauto.
    - rewrite list_lookup_insert_ne by done. eauto. }
  unfold set_object. split; split; unfold entry in *; cbn in *.
  - intros n j Hj. destruct (H1 n j Hj) as (k & Hk & Hkn). destruct (decide (i = j)) as [<-|].
    + exists h'. rewrite list_lookup_insert_eq by done. split; [done|]. congruence.
    + exists k. by rewrite list_lookup_insert_ne.
  - intros j k p Hj Hkp. destruct (Hback j k Hj) as (k0 & Hk0 & -> & E). rewrite E in Hkp. eauto.
  - intros j1 j2 k1 k2 p1 p2 Hj1 Hj2 Hp1 Hp2 E. destruct (Hback _ _ Hj1) as (a & Ha & _ & Ea). destruct (Hback _ _ Hj2) as (b & Hb & _ & Eb).
    rewrite Ea in Hp1. rewrite Eb in Hp2. by eapply H3.
  - done.
  - by rewrite length_insert.
  - intros j k Hj. destruct (decide (i = j)) as [<-|].
    + exists h'. rewrite list_lookup_insert_eq by done. assert (k = h) as -> by congruence. split_and!; try done. intros p. by rewrite Hp.
    + exists k. rewrite list_lookup_insert_ne by done. done.
  - done.
Qed.

Lemma keeps_touch s : keeps s (_touch s). Proof. by apply keeps_same. Qed.
Lemma keeps_place ref name i s s' : place verify_key bootstrap_json ref name s = Ok (i, s') -> keeps s s'.
Proof.
  unfold place. destruct (entry name s); [done|]. destruct (_launch _ _ ref name) as [l|x]; [|done]. intros [= <- <-].
  eapply keeps_trans; [|apply keeps_touch]. by apply keeps_new.
Qed.
Lemma keeps_place_fails i name s : keeps s (place_fails i name s).
Proof.
  unfold place_fails. destruct (h_placement <$> _) as [[p|]|]; [apply keeps_refl| |apply keeps_refl].
  destruct (is_entry name i s); [|apply keeps_refl]. eapply keeps_trans; [apply keeps_del|apply keeps_touch].
Qed.
Lemma keeps_retire name s : keeps s (snd (retire name s)).
Proof.
  unfold retire. destruct (entry name s) as [i|]; [|apply keeps_refl]. destruct (s_objects s !! i) as [h|] eqn:E; [|apply keeps_refl].
  eapply keeps_trans; [|apply keeps_touch]. by eapply keeps_object.
Qed.
Lemma current_some p s i h : _current p s = Some (i, h) ->
  entry (p_name p) s = Some i /\ s_objects s !! i = Some h /\ h_desired h = Running /\ h_placement h = Some p.
Proof.
  unfold _current. destruct (entry _ s) as [j|]; [|done]. destruct (s_objects s !! j) as [k|] eqn:E; [|done].
  destruct (bool_decide (h_desired k = Running)) eqn:E1, (bool_decide (h_placement k = Some p)) eqn:E2; try done.
  intros [= <- <-]. apply bool_decide_eq_true in E1, E2. by split_and!.
Qed.
Lemma keeps_observed p i s : keeps s (snd (observed p i s)).
Proof.
  unfold observed. destruct (_current p s) as [[j h]|] eqn:E; [|apply keeps_refl].
  apply current_some in E as (_ & E & _). eapply keeps_trans; [|apply keeps_touch]. by eapply keeps_object.
Qed.
Lemma keeps_serving p i s : keeps s (snd (serving p i s)).
Proof.
  unfold serving. destruct (_current p s) as [[j h]|] eqn:E; [|apply keeps_refl].
  apply current_some in E as (_ & E & _). eapply keeps_trans; [|apply keeps_touch]. by eapply keeps_object.
Qed.
Lemma keeps_register name url s : keeps s (snd (register name url s)).
Proof.
  unfold register. destruct (entry name s) as [i|] eqn:En; [|apply keeps_refl].
  destruct (s_objects s !! i) as [h|] eqn:Eh; [|apply keeps_refl]. destruct (negb _); [apply keeps_refl|].
  destruct (h_placement h) as [p|] eqn:Ep; [by destruct (String.eqb _ _); apply keeps_refl|]. cbn [snd].
  set (p := {| p_name := name; p_base_url := url; p_registration := s_registrations s |}).
  eapply keeps_trans; [|apply keeps_touch]. intros [H1 H2 H3 H4]. pose proof (lookup_lt_Some _ _ _ Eh) as Hlt.
  assert (h_name h = name) as Hname by (destruct (H1 name i En) as (k & Hk & <-); congruence).
  assert (forall j k, <[i := with_placement p h]> (s_objects s) !! j = Some k ->
    (j = i /\ k = with_placement p h) \/ (j <> i /\ s_objects s !! j = Some k)) as Hback.
  { intros j k. destruct (decide (i = j)) as [<-|]; [rewrite list_lookup_insert_eq by done; intros [= <-]; by left|].
    rewrite list_lookup_insert_ne by done. intros ?. right. by split; [|]. }
  unfold set_object. split; split; unfold entry in *; cbn in *.
  - intros n j Hj. destruct (H1 n j Hj) as (k & Hk & Hn). destruct (decide (i = j)) as [<-|].
    + eexists. rewrite list_lookup_insert_eq by done. split; [done|]. cbn. congruence.
    + exists k. by rewrite list_lookup_insert_ne.
  - intros j k q Hj Hq. destruct (Hback j k Hj) as [[-> ->]|[_ Hj']].
    + injection Hq as <-. cbn. split; [lia|done].
    + destruct (H2 j k q Hj' Hq). split; [lia|done].
  - intros j1 j2 k1 k2 p1 p2 Hj1 Hj2 Hp1 Hp2 E.
    destruct (Hback _ _ Hj1) as [[-> ->]|[_ G1]], (Hback _ _ Hj2) as [[-> ->]|[_ G2]]; [done| | |by eapply H3].
    + injection Hp1 as <-. destruct (H2 _ _ _ G2 Hp2). cbn in E. lia.
    + injection Hp2 as <-. destruct (H2 _ _ _ G1 Hp1). cbn in E. lia.
  - done.
  - by rewrite length_insert.
  - intros j k Hj. destruct (decide (i = j)) as [<-|].
    + eexists. rewrite list_lookup_insert_eq by done. assert (k = h) as -> by congruence. split; [reflexivity|]. split; [done|]. split; [by intros|]. intros q Hq. congruence.
    + exists k. rewrite list_lookup_insert_ne by done. done.
  - done.
Qed.
Lemma keeps_unregister name i s : keeps s (unregister name i s).
Proof.
  unfold unregister. destruct (entry name s) as [j|]; [|apply keeps_refl].
  destruct (s_objects s !! j) as [h|]; [|apply keeps_refl]. destruct (bool_decide _); [apply keeps_refl|].
  destruct (_ && _); [apply keeps_refl|]. cbv zeta.
  assert (keeps s (_touch (del_entry name s))) as H by (eapply keeps_trans; [apply keeps_del|apply keeps_touch]).
  destruct (bool_decide _); [|exact H]. eapply keeps_trans; [exact H|]. by apply keeps_same.
Qed.
Lemma parse_units_spec units r us r' :
  parse_units agent units r = (us, r') ->
  r <= r' /\ match us with
             | Ok us => r' = r + Z.of_nat (length us) /\ Forall from_agent us
                 /\ forall k u, us !! k = Some u -> p_registration u.2 = r + Z.of_nat k
             | Err _ => True
             end.
Proof.
  revert r us r'. induction units as [|u units IH]; intros r us r'; cbn [parse_units].
  { intros [= <- <-]. split; [lia|]. split_and!; [cbn; lia|constructor|by intros []]. }
  destruct (negb _); [intros [= <- <-]; split; [lia|done]|].
  destruct (workspace_name _ _) as [name|] eqn:En; [|intros [= <- <-]; split; [lia|done]].
  destruct (String.eqb_spec (u_name u) name) as [->|]; cbn [negb]; [|intros [= <- <-]; split; [lia|done]].
  destruct (parse_units agent units (r + 1)) as [rest r2] eqn:E. intros [= <- <-].
  destruct (IH _ _ _ E) as [Hle Hrest]. split; [lia|]. destruct rest as [rest|]; [|done]. cbn.
  destruct Hrest as (-> & Hf & Hk). split_and!; [lia|by constructor|].
  intros [|k] v; cbn; [intros [= <-]; cbn; lia|]. intros Hv. rewrite (Hk _ _ Hv). lia.
Qed.
Lemma keeps_add_units us s r :
  (forall k u, us !! k = Some u -> p_registration u.2 = r + Z.of_nat k) ->
  r + Z.of_nat (length us) <= s_registrations s ->
  (forall i h p, s_objects s !! i = Some h -> h_placement h = Some p -> p_registration p < r) ->
  keeps s (snd (add_units verify_key bootstrap_json us s)).
Proof.
  revert s r. induction us as [|[ref p] us IH]; intros s r Hk Hle Hold; [apply keeps_refl|]. cbn [add_units].
  destruct (_launch _ _ ref (p_name p)) as [l|]; [|apply keeps_refl].
  pose proof (Hk 0%nat _ eq_refl) as Hp. cbn in Hp, Hle. eapply keeps_trans; [apply keeps_new|apply (IH _ (r + 1))]; cbn.
  - split_and!; [done|lia|]. intros i h' p' Hi Hp'. pose proof (Hold _ _ _ Hi Hp'). lia.
  - intros k u Hu. rewrite (Hk (S k) u Hu). lia.
  - lia.
  - intros i h q Hi Hq. apply lookup_app_Some in Hi as [Hi|[_ Hi]].
    + pose proof (Hold _ _ _ Hi Hq). lia.
    + apply list_lookup_singleton_Some in Hi as [_ <-]. injection Hq as <-. lia.
Qed.
Lemma keeps_inventory e docs s : keeps s (snd (accept_inventory agent verify_key bootstrap_json e epoch docs s)).
Proof.
  unfold accept_inventory. destruct (negb _); [apply keeps_refl|]. destruct (negb (s_adopting s)); [apply keeps_refl|].
  destruct (parse_units agent docs (s_registrations s)) as [us r] eqn:E. destruct (parse_units_spec _ _ _ _ E) as [Hle Hus].
  cbv zeta. assert (keeps s (set_registrations r s)) as K1 by (by apply keeps_same).
  destruct us as [us|]; [|exact K1]. destruct (bool_decide (NoDup _)) eqn:End; cbn [negb]; [|exact K1].
  apply bool_decide_eq_true in End. destruct Hus as (-> & Hf & Hk). intros HI.
  assert (keeps (set_registrations (s_registrations s + Z.of_nat (length us)) s)
    (snd (add_units verify_key bootstrap_json us (set_registrations (s_registrations s + Z.of_nat (length us)) s)))) as K2.
  { apply (keeps_add_units us _ (s_registrations s) Hk); [cbn; lia|]. intros i h p Hi Hp. by apply (hi_reg _ HI i h p). }
  pose proof (keeps_trans _ _ _ K1 K2 HI) as [HI2 HM2].
  destruct (add_units _ _ us _) as [[[]|x] s2]; cbn [snd] in *; [|done].
  destruct HI2 as [J1 J2 J3 J4]. split.
  - split; unfold entry in *; cbn in *; try done; try (split; done).
  - destruct HM2. split; unfold entry in *; cbn in *; try done.
Qed.

Lemma step_keeps_contract s s' : hstep s s' -> keeps s s'.
Proof.
  intros [ref name i s1 H|i name d now|i name|name|p i|p i| |q].
  - by eapply keeps_place.
  - unfold place_turn. destruct (s_objects s !! i) as [h|]; [|apply keeps_refl]. destruct (h_placement h); [apply keeps_refl|].
    destruct (_ <=? 0); [apply keeps_place_fails|apply keeps_refl].
  - apply keeps_place_fails.
  - apply keeps_retire.
  - apply keeps_observed.
  - apply keeps_serving.
  - by apply keeps_same.
  - destruct (handle_op q s); [apply keeps_refl|apply keeps_register|apply keeps_unregister|apply keeps_inventory|by apply keeps_same].
Qed.
Lemma HInv_new : HInv new_source.
Proof. split; try done. split; [constructor|constructor]. Qed.
Lemma steps_keep s s' : rtc hstep s s' -> keeps s s'.
Proof. induction 1 as [|s1 s2 s3 H _ IH]; [apply keeps_refl|]. eapply keeps_trans; [by apply step_keeps_contract|done]. Qed.
Lemma reach_HInv s : hreach s -> HInv s.
Proof. intros H. apply (steps_keep _ _ H HInv_new). Qed.

(** ** The contract the manager relies on *)

(** C25. The hosted source keeps the contract the manager's theorems assume.  A [place] that
    ends with its registration returns that of its own entry; one that fails is answered with
    an exception after which the source holds nothing for it: the entry it created is no longer
    listed.  A [retire] never fails, and returns only once the entry it released has left the
    dictionary.  The inventory [adopt] returns names every Workspace at most once, and every
    unit by the name of its Workspace. *)
Theorem hosted_keeps_contract s :
  hreach s ->
  (forall i name deadline now r s', place_turn i name deadline now s = (Some r, s') ->
     match r with
     | Ok p => exists h, s_objects s !! i = Some h /\ h_placement h = Some p /\ p_name p = h_name h
     | Err x => holds_nothing x = true /\ is_entry name i s' = false
     end)
  /\ (forall i name r, retire_turn i name s = Some r -> lawful_answer (Retired r) = true /\ entry name s <> Some i)
  /\ (forall r ms, adopt_turn s = Some r ->
       lawful (Inventory r) ms = true /\ match r with Ok units => Forall from_agent units | Err _ => False end).
Proof.
  intros Hr. pose proof (reach_HInv s Hr) as HI. split_and!.
  - intros i name deadline now r s'. unfold place_turn. destruct (s_objects s !! i) as [h|] eqn:Eh; [|done].
    destruct (h_placement h) as [p|] eqn:Ep.
    + intros [= <- <-]. exists h. split_and!; [done..|]. by apply (hi_reg _ HI i h p).
    + destruct (deadline - now <=? 0); [|done]. intros [= <- <-]. split; [done|]. unfold place_fails. rewrite Eh. cbn. rewrite Ep.
      destruct (is_entry name i s) eqn:Ee; [|done]. unfold is_entry, entry. cbn. rewrite assoc_dict_del, String.eqb_refl. done.
  - intros i name r. unfold retire_turn, is_entry. case_bool_decide; [done|]. intros [= <-]. by split.
  - intros r ms. unfold adopt_turn. destruct (s_adopting s); [done|]. intros [= <-].
    destruct (hi_inventory _ HI) as [Hnd Hf]. split; [|done]. apply bool_decide_eq_true.
    revert Hnd Hf. generalize (s_inventory s) as units. induction units as [|u units IH]; cbn; [constructor|].
    intros [Hn Hnd]%NoDup_cons [Hu Hf]%Forall_cons. constructor; [|by apply IH].
    intros Hin. apply Hn. apply list_elem_of_fmap in Hin as (w & Hw & Hin). apply list_elem_of_fmap. exists w. split; [|done].
    rewrite Forall_forall in Hf. specialize (Hf w Hin). unfold from_agent in *. rewrite Hw in Hu. congruence.
Qed.

(** ** Registrations *)

Lemma observed_current p x s : fst (observed p x s) = bool_decide (is_Some (_current p s)).
Proof. unfold observed. destruct (_current p s) as [[i h]|]; by rewrite ?bool_decide_true, ?bool_decide_false by (done || by intros []). Qed.
Lemma current_iff p s i h :
  HInv s -> s_objects s !! i = Some h -> h_placement h = Some p ->
  is_Some (_current p s) <-> entry (h_name h) s = Some i /\ h_desired h = Running.
Proof.
  intros HI Hi Hp. destruct (hi_reg _ HI i h p Hi Hp) as [_ Hn]. split.
  - intros [[j k] E]. apply current_some in E as (Ee & Ej & Ed & Ek).
    assert (i = j) as <- by by apply (hi_unique _ HI i j h k p p). assert (k = h) as -> by congruence. by rewrite <- Hn.
  - intros [Ee Ed]. unfold _current. rewrite Hn, Ee, Hi, !bool_decide_true by done. by eexists.
Qed.

(** A registration stands for one unit.  The source answers that a registration is
    current, to [observed] and [serving] alike, exactly while the entry that was registered
    with it is still listed and wanted; the same URL registered again is another registration.
    Once it is no longer current, because the host deleted the unit, the manager released it,
    or its name was registered anew, no later message makes it current again. *)
Theorem registration_is_current s i h p x :
  hreach s -> s_objects s !! i = Some h -> h_placement h = Some p ->
  (fst (observed p x s) = true <-> entry (h_name h) s = Some i /\ h_desired h = Running)
  /\ fst (serving p x s) = fst (observed p x s)
  /\ forall s' y, rtc hstep s s' -> fst (observed p x s) = false -> fst (observed p y s') = false.
Proof.
  intros Hr Hi Hp. pose proof (reach_HInv s Hr) as HI. split_and!.
  - rewrite observed_current, bool_decide_eq_true. by apply current_iff.
  - unfold serving, observed. by destruct (_current p s) as [[]|].
  - intros s' y Hs. rewrite !observed_current, !bool_decide_eq_false. intros Hn Hc. apply Hn.
    destruct (steps_keep _ _ Hs HI) as [HI' [Hl Ho He]].
    destruct (Ho i h Hi) as (h' & Hi' & Hname & Hd & Hpl). specialize (Hpl p Hp).
    apply (current_iff p s' i h' HI' Hi' Hpl) in Hc as [Hc1 Hc2]. apply (current_iff p s i h HI Hi Hp). rewrite Hname in Hc1. split.
    + apply He; [|done]. by apply lookup_lt_Some in Hi.
    + destruct (h_desired h) eqn:E; [done|]. rewrite Hd in Hc2 by done. done.
Qed.

(** ** The long poll *)

(** What the host sees of a state besides its cursor. *)
Definition seen (s : hsource) := (s_adopting s, workspaces_of s).
(** The cursor moves, or nothing the host sees does. *)
Definition tells (s s' : hsource) : Prop :=
  s_revision s <= s_revision s' /\ (s_revision s' = s_revision s -> seen s' = seen s).
Lemma tells_refl s : tells s s. Proof. by split. Qed.
Lemma tells_moved s s' : s_revision s' = s_revision s + 1 -> tells s s'. Proof. split; lia. Qed.
Lemma tells_trans s1 s2 s3 : tells s1 s2 -> tells s2 s3 -> tells s1 s3.
Proof. intros [L1 H1] [L2 H2]. split; [lia|]. intros E. rewrite H2 by lia. apply H1. lia. Qed.
Lemma add_units_same us s s' r :
  add_units verify_key bootstrap_json us s = (r, s') -> s_adopting s' = s_adopting s /\ s_revision s' = s_revision s.
Proof.
  revert s. induction us as [|[ref p] us IH]; intros s; cbn [add_units]; [by intros [= <- <-]|].
  destruct (_launch _ _ ref (p_name p)); [|by intros [= <- <-]]. intros E. by apply IH in E.
Qed.
Lemma inventory_tells e docs s : tells s (snd (accept_inventory agent verify_key bootstrap_json e epoch docs s)).
Proof.
  unfold accept_inventory. destruct (negb _); [apply tells_refl|]. destruct (s_adopting s) eqn:Ea; cbn [negb]; [|apply tells_refl].
  destruct (parse_units agent docs (s_registrations s)) as [us r]. cbv zeta.
  assert (tells s (set_registrations r s)) as T1 by (split; [done|]; unfold seen, workspaces_of; cbn; by rewrite Ea).
  destruct us as [us|]; [|exact T1]. destruct (negb _); [exact T1|].
  destruct (add_units _ _ us _) as [[[]|x] s2] eqn:E; apply add_units_same in E as [E1 E2]; cbn [snd].
  - apply tells_moved. cbn. by rewrite E2.
  - split; [by rewrite E2|]. intros _. unfold seen, workspaces_of. rewrite E1. cbn. by rewrite Ea.
Qed.
Lemma step_tells s s' : hstep s s' -> tells s s'.
Proof.
  intros [ref name i s1 H|i name d now|i name|name|p i|p i| |q].
  - revert H. unfold place. destruct (entry name s); [done|]. destruct (_launch _ _ ref name); [|done]. intros [= _ <-]. by apply tells_moved.
  - unfold place_turn. destruct (s_objects s !! i) as [h|]; [|apply tells_refl]. destruct (h_placement h); [apply tells_refl|].
    destruct (_ <=? 0); [|apply tells_refl]. unfold place_fails. cbn [snd]. destruct (_ <$> _) as [[]|]; try apply tells_refl.
    destruct (is_entry _ _ _); [by apply tells_moved|apply tells_refl].
  - unfold place_cancelled, place_fails. cbn [snd]. destruct (_ <$> _) as [[]|]; try apply tells_refl.
    destruct (is_entry _ _ _); [by apply tells_moved|apply tells_refl].
  - unfold retire. destruct (entry name s); [|apply tells_refl]. destruct (s_objects s !! _); [by apply tells_moved|apply tells_refl].
  - unfold observed. destruct (_current p s) as [[]|]; [by apply tells_moved|apply tells_refl].
  - unfold serving. destruct (_current p s) as [[]|]; [by apply tells_moved|apply tells_refl].
  - by apply tells_moved.
  - destruct (handle_op q s); [apply tells_refl| | |apply inventory_tells|by split].
    + unfold register. destruct (entry name s); [|apply tells_refl]. destruct (s_objects s !! _) as [h|]; [|apply tells_refl].
      destruct (negb _); [apply tells_refl|]. destruct (h_placement h); [by destruct (String.eqb _ _); apply tells_refl|by apply tells_moved].
    + unfold unregister. destruct (entry name s); [|apply tells_refl]. destruct (s_objects s !! _) as [h|]; [|apply tells_refl].
      destruct (bool_decide _); [apply tells_refl|]. destruct (_ && _); [apply tells_refl|]. destruct (bool_decide _); by apply tells_moved.
Qed.

(** A host that long-polls misses nothing.  The revision in the cursor never goes back,
    and while it has not moved, neither the list of Workspaces nor the adoption has: so a poll
    with the current cursor may wait, and one with an older cursor is answered at once with
    the current list, unless the process is stopping. *)
Theorem cursor_tells_changes s s' after wait_seconds :
  rtc hstep s s' ->
  s_revision s <= s_revision s'
  /\ (listing_waits after wait_seconds s' = true -> after = Some (s_revision s) -> seen s' = seen s)
  /\ (listing_waits after wait_seconds s' = false -> 0 < wait_seconds -> s_stopping s' = false -> after <> Some (s_revision s')).
Proof.
  intros Hs. assert (tells s s') as [Hle Hsame].
  { induction Hs as [|s1 s2 s3 H _ IH]; [apply tells_refl|]. eapply tells_trans; [by apply step_tells|done]. }
  unfold listing_waits. split_and!.
  - done.
  - intros [[Ha _]%andb_true_iff _]%andb_true_iff ->. apply bool_decide_eq_true in Ha. apply Hsame. congruence.
  - intros H Hw Hst ->. rewrite bool_decide_true, Hst in H by done. destruct (Z.ltb_spec 0 wait_seconds); [done|lia].
Qed.
End reach.

(** ** Samples *)

Definition the_agent : AgentIdentity := rc_agent sample_config.
Definition no_float (s : string) : pyfloat := PyFloat s None.
Abbreviation sample_step := (hstep the_agent "verify" "{}" "epoch" "token" no_float).
Abbreviation sample_reach := (hreach the_agent "verify" "{}" "epoch" "token" no_float).
Definition ask (r : route) (b : json) : host_request :=
  {| q_authorization := "Bearer token"; q_route := r; q_body := json_dumps b |}.
Definition answer_host (q : host_request) (s : hsource) : Z * hsource :=
  handle the_agent "verify" "{}" "epoch" "token" no_float q s.

Definition ref_of (w : string) : WorkspaceRef :=
  {| wr_namespace := agent_namespace the_agent; wr_agent_uid := agent_uid the_agent; wr_workspace_ref := sha256_hex w |}.
Definition name_for (w : string) : string :=
  match workspace_name (agent_name the_agent) (sha256_hex w) with Ok n => n | Err _ => "" end.
Definition url_doc (url : string) : json := JObj [("baseUrl", JStr url)].
Definition inventory_doc : json :=
  JObj [("runtimeEpoch", JStr "epoch");
        ("units", JList [JObj [("name", JStr (name_for "a")); ("workspaceRef", JStr (sha256_hex "a")); ("baseUrl", JStr "http://a")]])].

(** The inventory holds Workspace a; b is placed and registered, and found at instance i-1. *)
Definition adopted_one : hsource := snd (answer_host (ask PutInventory inventory_doc) new_source).
Definition placed_b : hsource :=
  match place "verify" "{}" (ref_of "b") (name_for "b") adopted_one with Ok (_, s) => s | Err _ => new_source end.
Definition registered_b : hsource := snd (answer_host (ask (PutInstance (name_for "b")) (url_doc "http://b")) placed_b).
Definition b_placement : Placement := {| p_name := name_for "b"; p_base_url := "http://b"; p_registration := 2 |}.
Definition found_b : hsource := snd (observed b_placement "i-1" registered_b).
(** The host deletes another instance, then this one. *)
Definition other_deleted : hsource := snd (answer_host (ask (DeleteInstance (name_for "b") (Some "i-0")) JNull) found_b).
Definition deleted_b : hsource := snd (answer_host (ask (DeleteInstance (name_for "b") (Some "i-1")) JNull) other_deleted).

Example the_host_is_heard :
  (length (s_entries adopted_one), s_adopting adopted_one, length (s_entries placed_b),
   fst (observed b_placement "i-1" registered_b), fst (observed b_placement "i-1" other_deleted),
   fst (observed b_placement "i-1" deleted_b), s_lost deleted_b)
  = (1%nat, false, 2%nat, true, true, false, [(name_for "b", Some "i-1")]).
Proof. vm_compute. reflexivity. Qed.
Example refused_messages :
  map (fun q => fst (answer_host q found_b))
    [{| q_authorization := "Bearer other"; q_route := PutGateway; q_body := "{}" |};
     ask (PutInstance "unknown") (url_doc "http://b"); ask (PutInstance (name_for "b")) (url_doc "ftp://b");
     ask (PutInstance (name_for "b")) (url_doc "http://c"); ask (PutInstance (name_for "b")) (url_doc "http://b");
     ask PutGateway (JObj [("available", JNull)]); ask PutInventory inventory_doc]
  = [401; 409; 422; 409; 200; 422; 200].
Proof. vm_compute. reflexivity. Qed.

Lemma reach_placed : sample_reach placed_b.
Proof.
  apply (rtc_l _ _ adopted_one); [apply step_host|]. apply rtc_once. apply (step_place _ _ _ _ _ _ _ (ref_of "b") (name_for "b") 1%nat).
  vm_compute. reflexivity.
Qed.
Lemma reach_found : sample_reach found_b.
Proof.
  apply (rtc_trans new_source placed_b); [exact reach_placed|]. apply (rtc_l _ _ registered_b); [apply step_host|]. apply rtc_once, step_observed.
Qed.
Lemma found_deleted : rtc sample_step found_b deleted_b.
Proof. apply (rtc_l _ _ other_deleted); [apply step_host|]. apply rtc_once, step_host. Qed.

(** The placement of b times out: nothing is listed for it any more. *)
Lemma hosted_keeps_contract_witness :
  let turn := place_turn 1 (name_for "b") 5 5 placed_b in
  fst turn = Some (Err WorkspaceUnhosted) /\ is_entry (name_for "b") 1 (snd turn) = false.
Proof.
  assert (place_turn 1 (name_for "b") 5 5 placed_b
          = (Some (Err WorkspaceUnhosted), snd (place_turn 1 (name_for "b") 5 5 placed_b))) as E by (vm_compute; reflexivity).
  cbv zeta. split; [rewrite E; reflexivity|].
  exact (proj2 (proj1 (hosted_keeps_contract the_agent "verify" "{}" "epoch" "token" no_float placed_b reach_placed)
    1%nat (name_for "b") 5 5 (Err WorkspaceUnhosted) _ E)).
Defined.
Lemma registration_is_current_witness :
  fst (observed b_placement "i-1" deleted_b) = false
  /\ forall s' y, rtc sample_step deleted_b s' -> fst (observed b_placement y s') = false.
Proof.
  assert (fst (observed b_placement "i-1" deleted_b) = false) as E by (vm_compute; reflexivity). split; [exact E|].
  assert (sample_reach deleted_b) as Hr by (apply (rtc_trans new_source found_b); [exact reach_found|exact found_deleted]).
  destruct (s_objects deleted_b !! 1%nat) as [h|] eqn:Eh; [|vm_compute in Eh; discriminate].
  assert (h_placement h = Some b_placement) as Ep.
  { assert ((s_objects deleted_b !! 1%nat) ≫= h_placement = Some b_placement) as H by (vm_compute; reflexivity).
    rewrite Eh in H. exact H. }
  intros s' y Hs.
  exact (proj2 (proj2 (registration_is_current the_agent "verify" "{}" "epoch" "token" no_float deleted_b 1%nat h b_placement "i-1" Hr Eh Ep)) s' y Hs E).
Defined.
Lemma cursor_tells_changes_witness :
  s_revision found_b <= s_revision deleted_b /\ listing_waits (Some (s_revision found_b)) 10 deleted_b = false.
Proof.
  split; [|vm_compute; reflexivity].
  exact (proj1 (cursor_tells_changes the_agent "verify" "{}" "epoch" "token" no_float found_b deleted_b (Some (s_revision found_b)) 10 found_deleted)).
Defined.
