(* ===== verification/Facade.v ===== *)
(** * facades/_proxy.py, model.py, mcp.py: what leaves through the facades

    The engine reaches the model and the MCP servers only through these proxies.  Each handler
    is the decision it takes on one request: the refusal it answers, or the request it sends
    upstream, header by header.  The bytes of a body are read in the encoding [json.loads]
    detects ([decode]); streaming and connection handling are left out. *)

From Stdlib Require Import Ascii.
From S2P Require Import Prelude Sha256 PyJson PyLoads Config Tokens.

Abbreviation headers := (list (string * string)) (only parsing).

(** ** _proxy.py *)

Definition _IDENTITY_HEADER_NAMES : list string := ["x-ach-agent"; "x-ach-environment"].
Record ProcessIdentity := { pi_agent : string; pi_environment : string }.
Definition with_identity_headers (h : headers) (identity : ProcessIdentity) : headers :=
  let result := filter (fun kv => negb (in_strs (lower (fst kv)) _IDENTITY_HEADER_NAMES) = true) h in
  dict_set "x-ach-environment" (pi_environment identity)
    (dict_set "x-ach-agent" (pi_agent identity) result).

Definition _LITELLM_SESSION_HEADER : string := "x-litellm-session-id".
Definition _LITELLM_TRACE_HEADER : string := "x-litellm-trace-id".
Definition is_correlation_header (name : string) : bool :=
  let lowered := lower name in
  starts_with "langfuse_" lowered || in_strs lowered ["traceparent"; "tracestate"]
  || in_strs lowered [_LITELLM_SESSION_HEADER; _LITELLM_TRACE_HEADER].

Definition DROP_REQUEST_HEADERS : list string :=
  ["host"; "content-length"; "accept-encoding"; "transfer-encoding"; "authorization"; "x-ach-key";
   "x-goog-api-key"; "x-api-key"; "x-ach-agent"; "x-ach-environment"; FACADE_TOKEN_HEADER].
Definition HOP_BY_HOP_HEADERS : list string :=
  ["connection"; "keep-alive"; "proxy-authenticate"; "proxy-authorization"; "proxy-connection";
   "te"; "trailer"; "upgrade"].
Definition DROP_RESPONSE_HEADERS : list string := ["content-length"; "transfer-encoding"; "content-encoding"].

(** [headers.update(over)] on a dict. *)
Definition dict_update {A} (base over : list (string * A)) : list (string * A) :=
  foldl (fun d kv => dict_set (fst kv) (snd kv) d) base over.

(** The headers of the upstream request; [inbound]: [request.headers.items()]. *)
Definition keeps_inbound (inject : headers) (name : string) : bool :=
  negb (in_strs (lower name) DROP_REQUEST_HEADERS) && negb (in_strs (lower name) HOP_BY_HOP_HEADERS)
  && negb (in_strs (lower name) (map (fun kv => lower (fst kv)) inject))
  && negb (is_correlation_header name).
Definition forward_headers (inbound inject : headers) (identity : ProcessIdentity) (correlation : headers) : headers :=
  let h := dict_of_pairs (filter (fun kv => keeps_inbound inject (fst kv) = true) inbound) in
  let h := with_identity_headers (dict_update h inject) identity in
  dict_update h correlation.
Definition forward_response_headers (upstream : headers) : headers :=
  dict_of_pairs (filter (fun kv => in_strs (lower (fst kv)) DROP_RESPONSE_HEADERS = false) upstream).

(** [values]: every [Content-Encoding] field. *)
Definition has_encoded_body (values : list string) : bool :=
  existsb (fun value => existsb (fun token => negb (in_strs (lower (strip token)) [""; "identity"]))
                          (split_on "," value)) values.

(** One request as the server hands it over, and what a handler does with it. *)
Record request :=
  { q_method : string; q_token : string; q_tail : string; q_raw_path : string;
    q_query : list (string * string); q_headers : headers; q_content_encoding : list string; q_body : string }.
(** The credential of [auth] is set last, over any header of that name: [credentialled]. *)
Record upstream_request :=
  { u_target : string; u_method : string; u_headers : headers; u_query : list (string * string);
    u_body : string; u_credentialled : bool }.
Inductive decision := Refused (status : Z) (detail : string) | Forwarded (u : upstream_request) | Raised (e : exn).

(** What [json.loads] with [_no_duplicate_keys] comes to. *)
Inductive strict (A : Type) := Read (a : A) | DuplicateKey | NotJson.
Arguments Read {A} a.
Arguments DuplicateKey {A}.
Arguments NotJson {A}.
Definition strict_bind {A B} (m : strict A) (f : A -> strict B) : strict B :=
  match m with Read a => f a | DuplicateKey => DuplicateKey | NotJson => NotJson end.
Definition or_not_json {A} (m : option A) : strict A := match m with Some a => Read a | None => NotJson end.
Definition _no_duplicate_keys (pairs : list (string * json)) : strict json :=
  if keys_distinct pairs then Read (JObj pairs) else DuplicateKey.

Section facade.
(** [httpx.URL(url).path], after its normalization. *)
Context (url_path : string -> string).
Context (parse_float : string -> pyfloat).
(** The text of a body in the encoding [json] detects; [None]: not decodable. *)
Context (decode : string -> option string).

Definition join_tail (base tail : string) : option string :=
  let target := if truthy tail then base +:+ "/" +:+ tail else base in
  let base_path := rstrip_char "/" (url_path base) in
  let path := url_path target in
  if existsb (fun segment => in_strs segment ["."; ".."]) (split_on "/" path) then None
  else if String.eqb path base_path || starts_with (base_path +:+ "/") path then Some target else None.

(** [json.loads(body)]: [None] is the [ValueError] the callers catch. *)
Definition loads_body (body : string) : option json := text ← decode body; json_loads parse_float text.

(** [meta.update(carrier)] in the [params._meta] of a JSON-RPC request. *)
Definition meta_of (carrier : headers) (params : list (string * json)) : list (string * json) :=
  let meta := match assoc "_meta" params with Some (JObj m) => m | _ => [] end in
  dict_set "_meta" (JObj (dict_update meta (map (fun kv => (fst kv, JStr (snd kv))) carrier))) params.
Definition inject_meta (body : string) (carrier : headers) : string :=
  if negb (truthy body) || bool_decide (carrier = []) then body else
  match loads_body body with
  | Some (JObj message) =>
      match assoc "method" message with
      | None => body
      | Some _ =>
          let params := match assoc "params" message with Some (JObj p) => p | _ => [] end in
          json_dumps (JObj (dict_set "params" (JObj (meta_of carrier params)) message))
      end
  | _ => body
  end.

(** [forward]: the request that is sent. *)
Definition forward (target : string) (q : request) (inject : headers) (identity : ProcessIdentity)
    (correlation : headers) (mcp credentialled : bool) (body : string) : decision :=
  Forwarded {| u_target := target; u_method := q_method q;
               u_headers := forward_headers (q_headers q) inject identity correlation;
               u_query := q_query q;
               u_body := if mcp then inject_meta body correlation else body;
               u_credentialled := credentialled |}.

(** ** model.py *)

Definition _BODY_MODEL_PATHS (api : string) : option (list string) :=
  if String.eqb api "openai" then Some ["chat/completions"; "responses"]
  else if String.eqb api "anthropic" then Some ["messages"; "messages/count_tokens"] else None.
Definition _ROUTING_FIELDS : list string := ["fallbacks"; "user_config"; "api_base"; "base_url"; "api_key"].
(** [_GEMINI_PATH.fullmatch(tail)]: its first group. *)
Definition _GEMINI_PATH (tail : string) : option string :=
  rest ← strip_prefix "models/" tail;
  '(name, op) ← find_sub ":" rest;
  if truthy name && in_strs op ["generateContent"; "streamGenerateContent"; "countTokens"] then Some name else None.

(** [json.loads(body, object_pairs_hook=_no_duplicate_keys)]. *)
Fixpoint scan_strict (fuel : nat) (s : string) {struct fuel} : strict (json * string) :=
  match fuel with
  | O => NotJson
  | S fuel =>
      match s with
      | EmptyString => NotJson
      | String a s' =>
          if Ascii.eqb a "{" then
            match strip_prefix "}" (skip_ws s') with
            | Some r => Read (JObj [], r)
            | None => strict_bind (members_strict fuel (skip_ws s')) (fun '(d, r) =>
                      strict_bind (_no_duplicate_keys d) (fun v => Read (v, r)))
            end
          else if Ascii.eqb a "[" then
            match strip_prefix "]" (skip_ws s') with
            | Some r => Read (JList [], r)
            | None => strict_bind (elements_strict fuel (skip_ws s')) (fun '(l, r) => Read (JList l, r))
            end
          else or_not_json (scan_value parse_float 1 s)
      end
  end
with members_strict (fuel : nat) (s : string) {struct fuel} : strict (list (string * json) * string) :=
  match fuel with
  | O => NotJson
  | S fuel =>
      strict_bind (or_not_json (strip_prefix quote s)) (fun s =>
      strict_bind (or_not_json (scan_string (S (String.length s)) s)) (fun '(cs, s) =>
      strict_bind (or_not_json (strip_prefix ":" (skip_ws s))) (fun s =>
      strict_bind (scan_strict fuel (skip_ws s)) (fun '(v, s) =>
      let s := skip_ws s in
      match strip_prefix "}" s with
      | Some r => Read ([(str_of_bytes cs, v)], r)
      | None =>
          strict_bind (or_not_json (strip_prefix "," s)) (fun s =>
          strict_bind (members_strict fuel (skip_ws s)) (fun '(d, r) => Read ((str_of_bytes cs, v) :: d, r)))
      end))))
  end
with elements_strict (fuel : nat) (s : string) {struct fuel} : strict (list json * string) :=
  match fuel with
  | O => NotJson
  | S fuel =>
      strict_bind (scan_strict fuel s) (fun '(v, s) =>
      let s := skip_ws s in
      match strip_prefix "]" s with
      | Some r => Read ([v], r)
      | None =>
          strict_bind (or_not_json (strip_prefix "," s)) (fun s =>
          strict_bind (elements_strict fuel (skip_ws s)) (fun '(l, r) => Read (v :: l, r)))
      end)
  end.
Definition loads_strict (body : string) : strict json :=
  strict_bind (or_not_json (decode body)) (fun text =>
  let s := skip_ws text in
  strict_bind (scan_strict (S (String.length s)) s) (fun '(v, r) =>
  if String.eqb (skip_ws r) "" then Read v else NotJson)).

(** The path and the query of the request, for the configured API. *)
Definition check_path (api model tail : string) (query : list (string * string)) : result exn (option (Z * string)) :=
  if String.eqb api "gemini" then
    match _GEMINI_PATH tail with
    | None => Ok (Some (404%Z, "path not allowed"))
    | Some name =>
        if negb (String.eqb name model) || existsb (fun s => in_strs s [""; "."; ".."]) (split_on "/" name)
        then Ok (Some (400%Z, "model not allowed"))
        else if negb (forallb (fun kv => String.eqb (fst kv) "alt") query)
                || negb (String.eqb (from_option id "sse" (assoc "alt" query)) "sse")
        then Ok (Some (400%Z, "query not allowed"))
        else Ok None
    end
  else
    match _BODY_MODEL_PATHS api with
    | None => Err KeyError
    | Some paths =>
        if negb (in_strs tail paths) then Ok (Some (404%Z, "path not allowed"))
        else if bool_decide (query = []) then Ok None else Ok (Some (400%Z, "query not allowed"))
    end.
Definition check_document (api model body : string) : option (Z * string) :=
  match loads_strict body with
  | DuplicateKey => Some (400%Z, "duplicate key")
  | NotJson => Some (400%Z, "body is not JSON")
  | Read (JObj d) =>
      if negb (String.eqb api "gemini") && negb (json_eqb (from_option id JNull (assoc "model" d)) (JStr model))
      then Some (400%Z, "model not allowed")
      else if existsb (fun kv => in_strs (fst kv) _ROUTING_FIELDS) d then Some (400%Z, "routing field not allowed")
      else None
  | Read _ => Some (400%Z, "body is not an object")
  end.
(** [None]: the request may leave. *)
Definition check_model_request (api model method tail raw_path : string) (query : list (string * string))
    (encoded_body : bool) (body : string) : result exn (option (Z * string)) :=
  if negb (String.eqb method "POST") then Ok (Some (405%Z, "method not allowed"))
  else if contains "%" raw_path then Ok (Some (400%Z, "encoded path not allowed"))
  else if encoded_body then Ok (Some (400%Z, "encoded body not allowed"))
  else
    path ← check_path api model tail query;
    match path with
    | Some refusal => Ok (Some refusal)
    | None => Ok (check_document api model body)
    end.

(** The model facade's handler. *)
Record model_facade :=
  { mf_endpoint : string; mf_headers : headers; mf_api : string; mf_model : string;
    mf_correlation : headers; mf_auth : bool }.
Context (key : string) (owned_workspace : string -> result exn bool) (identity : ProcessIdentity).
(** What a request whose token does not authenticate is answered. *)
Definition unauthenticated (q : request) : option decision :=
  match authenticate_facade owned_workspace key (q_token q) with
  | Ok _ => None
  | Err WorkspaceAuthenticationFailed => Some (Refused 403 "forbidden")
  | Err e => Some (Raised e)
  end.
Definition model_handle (f : model_facade) (q : request) : decision :=
  match unauthenticated q with
  | Some answer => answer
  | None =>
    match check_model_request (mf_api f) (mf_model f) (q_method q) (q_tail q) (q_raw_path q) (q_query q)
             (has_encoded_body (q_content_encoding q)) (q_body q) with
     | Err e => Raised e
     | Ok (Some (status, detail)) => Refused status detail
     | Ok None =>
         match join_tail (rstrip_char "/" (mf_endpoint f)) (q_tail q) with
         | None => Refused 400 "path escapes the model endpoint"
         | Some target => forward target q (mf_headers f) identity (mf_correlation f) false (mf_auth f) (q_body q)
         end
    end
  end.

(** ** mcp.py *)

Definition _jsonrpc_method (body : string) : json * json :=
  match loads_body body with
  | Some (JObj d) => (from_option id JNull (assoc "method" d), from_option id JNull (assoc "params" d))
  | _ => (JNull, JNull)
  end.
(** The [params] of a [tools/call] message, and of every one in a body or batch. *)
Definition tool_call (message : json) : option (list (string * json)) :=
  match message with
  | JObj d =>
      if json_eqb (from_option id JNull (assoc "method" d)) (JStr "tools/call")
      then match assoc "params" d with Some (JObj p) => Some p | _ => None end else None
  | _ => None
  end.
Definition messages (parsed : json) : list json := match parsed with JList l => l | _ => [parsed] end.
Definition _tool_calls (parsed : json) : list (list (string * json)) := omap tool_call (messages parsed).

(** [params["name"] = upstream[params["name"]]], in place in the parsed body. *)
Definition rename_call (upstream : list (string * string)) (message : json) : json :=
  match message, tool_call message with
  | JObj d, Some p =>
      match assoc "name" p with
      | Some (JStr name) =>
          match assoc name upstream with
          | Some up => JObj (dict_set "params" (JObj (dict_set "name" (JStr up) p)) d)
          | None => message
          end
      | _ => message
      end
  | _, _ => message
  end.
Definition names_advertised (upstream : list (string * string)) (p : list (string * json)) : bool :=
  match assoc "name" p with Some (JStr name) => present (assoc name upstream) | _ => false end.
Definition rename_body (upstream : list (string * string)) (parsed : json) : json :=
  match parsed with JList l => JList (map (rename_call upstream) l) | _ => rename_call upstream parsed end.
Definition _upstream_tool_names (body : string) (upstream : list (string * string)) : string :=
  if bool_decide (upstream = []) || negb (truthy body) then body else
  match loads_body body with
  | None => body
  | Some parsed =>
      if existsb (names_advertised upstream) (_tool_calls parsed) then dumps true (rename_body upstream parsed)
      else body
  end.

Definition excluded_params (exclude_tools : list string) (prefix : string) (p : list (string * json)) : bool :=
  match assoc "name" p with
  | Some (JStr name) => in_strs name exclude_tools || in_strs (prefix +:+ name) exclude_tools
  | _ => true
  end.
Definition _excluded_tool_call (body : string) (exclude_tools : list string) (prefix : string) : bool :=
  if bool_decide (exclude_tools = []) || negb (truthy body) then false else
  match loads_body body with
  | None => false
  | Some parsed => existsb (excluded_params exclude_tools prefix) (_tool_calls parsed)
  end.

(** A [tools/list] reply: what is kept of it, and the names it teaches. *)
Definition listed_name (tool : json) : json :=
  match tool with JObj d => from_option id JNull (assoc "name" d) | _ => JNull end.
Definition tool_excluded (exclude_tools : list string) (tool : json) : bool :=
  match tool, listed_name tool with JObj _, JStr n => in_strs n exclude_tools | _, _ => false end.
Definition bare_name (prefix : string) (tool : json) : option string :=
  match listed_name tool with
  | JStr name => bare ← strip_prefix prefix name; if truthy bare then Some bare else None
  | _ => None
  end.
Definition advertise (prefix : string) (tool : json) : json :=
  match tool, bare_name prefix tool with
  | JObj d, Some bare => JObj (dict_set "name" (JStr bare) d)
  | _, _ => tool
  end.
Definition learn (prefix : string) (upstream : list (string * string)) (tool : json) : list (string * string) :=
  match bare_name prefix tool with Some bare => dict_set bare (prefix +:+ bare) upstream | None => upstream end.
Definition kept_tools (exclude_tools : list string) (tools : list json) : list json :=
  filter (fun t => tool_excluded exclude_tools t = false) tools.
(** A list or a dict is no member of a set: asking raises, and the reply is left as it is. *)
Definition unhashable (tool : json) : bool :=
  match listed_name tool with JList _ | JObj _ => true | _ => false end.
(** [drop(message)]: the message sent on, and [upstream] after it. *)
Definition drop (exclude_tools : list string) (prefix : string) (upstream : list (string * string)) (message : string) :
    string * list (string * string) :=
  match loads_body message with
  | Some (JObj d) =>
      match assoc "result" d with
      | Some (JObj r) =>
          match assoc "tools" r with
          | Some (JList tools) =>
              if existsb unhashable tools then (message, upstream) else
              let kept := kept_tools exclude_tools tools in
              (dumps true (JObj (dict_set "result" (JObj (dict_set "tools" (JList (map (advertise prefix) kept)) r)) d)),
               foldl (learn prefix) upstream kept)
          | _ => (message, upstream)
          end
      | _ => (message, upstream)
      end
  | _ => (message, upstream)
  end.

(** Lines of bytes with their ends; [bytes.strip] and [bytes.rstrip(b"\r\n")]. *)
Definition CR : ascii := "013".
Definition LF : ascii := "010".
Fixpoint splitlines (line s : string) : list string :=
  match s with
  | EmptyString => if truthy line then [line] else []
  | String a s' =>
      if Ascii.eqb a LF then (line +:+ String LF "") :: splitlines "" s'
      else if Ascii.eqb a CR then
        match s' with
        | String "010" s'' => (line +:+ String CR (String LF "")) :: splitlines "" s''
        | _ => (line +:+ String CR "") :: splitlines "" s'
        end
      else splitlines (line +:+ String a "") s'
  end.
Definition byte_space (a : ascii) : bool :=
  let n := ascii_code a in ((9 <=? n)%N && (n <=? 13)%N) || (n =? 32)%N.
Fixpoint lstrip_bytes (s : string) : string :=
  match s with String a s' => if byte_space a then lstrip_bytes s' else s | EmptyString => "" end.
Fixpoint rstrip_set (p : ascii -> bool) (s : string) : string :=
  match s with
  | EmptyString => ""
  | String a s => match rstrip_set p s with "" => if p a then "" else String a "" | r => String a r end
  end.
Definition line_end (a : ascii) : bool := Ascii.eqb a LF || Ascii.eqb a CR.
Definition sse_line (exclude_tools : list string) (prefix : string) (upstream : list (string * string)) (line : string) :
    string * list (string * string) :=
  match strip_prefix "data:" line with
  | None => (line, upstream)
  | Some rest =>
      let content := rstrip_set line_end rest in
      let '(message, upstream) := drop exclude_tools prefix upstream (rstrip_set byte_space (lstrip_bytes content)) in
      ("data: " +:+ message +:+ String.substring (String.length content) (String.length rest) rest, upstream)
  end.
Fixpoint sse_lines (exclude_tools : list string) (prefix : string) (upstream : list (string * string)) (lines : list string) :
    string * list (string * string) :=
  match lines with
  | [] => ("", upstream)
  | line :: lines =>
      let '(text, upstream) := sse_line exclude_tools prefix upstream line in
      let '(rest, upstream) := sse_lines exclude_tools prefix upstream lines in (text +:+ rest, upstream)
  end.
(** [_listed_tools(...)]: the body sent on, and the names it taught. *)
Definition _listed_tools (exclude_tools : list string) (prefix : string) (upstream : list (string * string))
    (body : string) : string * list (string * string) :=
  if existsb (fun p => starts_with p (lstrip_bytes body)) ["event:"; "data:"; "id:"; ":"]
  then sse_lines exclude_tools prefix upstream (splitlines "" body)
  else drop exclude_tools prefix upstream body.

(** The MCP facade: its servers, and per server the names its replies taught. *)
Record mcp_facade :=
  { mp_servers : list (string * string); mp_server_headers : list (string * headers);
    mp_exclude : list string; mp_exclude_tools : list string; mp_correlation : headers;
    mp_auth : bool; mp_own_servers : list string }.
Definition endpoint_of (f : mcp_facade) (server_id : string) : option string :=
  if in_strs server_id (mp_exclude f) then None else rstrip_char "/" <$> assoc server_id (mp_servers f).
Definition names := string -> list (string * string).
Definition server_prefix (server_id : string) : string := server_id +:+ ".".
(** The decision, and whether the reply is filtered as a [tools/list]. *)
Definition mcp_handle (f : mcp_facade) (upstream_names : names) (server_id : string) (q : request) : decision * bool :=
  let refused status detail := (Refused status detail, false) in
  match unauthenticated q with
  | Some answer => (answer, false)
  | None =>
      match endpoint_of f server_id with
      | None => refused 404%Z "unknown or excluded mcp server"
      | Some endpoint =>
          if negb (bool_decide (mp_exclude_tools f = [])) && has_encoded_body (q_content_encoding q)
          then refused 415%Z "encoded request body not accepted"
          else
            let prefix := server_prefix server_id in
            let body := _upstream_tool_names (q_body q) (upstream_names server_id) in
            if _excluded_tool_call body (mp_exclude_tools f) prefix
            then refused 403%Z "tool excluded by capability filter"
            else match join_tail endpoint (q_tail q) with
            | None => refused 400%Z "path escapes the mcp server"
            | Some target =>
                (forward target q (from_option id [] (assoc server_id (mp_server_headers f))) identity
                   (mp_correlation f) true (mp_auth f && negb (in_strs server_id (mp_own_servers f))) body,
                 json_eqb (fst (_jsonrpc_method body)) (JStr "tools/list"))
            end
      end
  end.
(** The reply to a [tools/list]: what the engine receives, and the names after it. *)
Definition mcp_reply (f : mcp_facade) (upstream_names : names) (server_id body : string) : string * names :=
  let '(text, learnt) :=
    _listed_tools (mp_exclude_tools f) (server_prefix server_id) (upstream_names server_id) body in
  (text, fun s => if String.eqb s server_id then learnt else upstream_names s).
End facade.
