(* ===== verification/FacadeProps.v ===== *)
(** * facades/_proxy.py, model.py, mcp.py: what the facades let through

    [forwarded_headers]: the headers of an upstream request, name by name.
    [model_request_confined]: what a request that leaves through the model facade is.
    [excluded_tools_never_called]: no request that leaves through the MCP facade reaches an
    excluded server or calls an excluded tool, whatever the upstream replies taught. *)

From S2P Require Import Prelude Sha256 PyJson PyLoads Config ConfigFacts Tokens Facade.
From Stdlib Require Import Ascii.

(** ** Dicts *)

(** The value of the last pair of a name: what a dict built from pairs holds. *)
Definition last_value {A} (n : string) (l : list (string * A)) : option A := assoc n (rev l).

Lemma assoc_app {A} n (l1 l2 : list (string * A)) :
  assoc n (l1 ++ l2) = match assoc n l1 with Some v => Some v | None => assoc n l2 end.
Proof. induction l1 as [|[k v] l1 IH]; [done|]. simpl. by destruct (String.eqb n k). Qed.
Lemma assoc_set_key {A} n k (v : A) d : assoc n (dict_set k v d) = if String.eqb n k then Some v else assoc n d.
Proof.
  induction d as [|[k' v'] d IH]; simpl; [done|].
  destruct (String.eqb_spec k k') as [<-|Hk]; simpl; [by destruct (String.eqb n k)|].
  rewrite IH. destruct (String.eqb_spec n k') as [->|]; [|done]. by destruct (String.eqb_spec k' k).
Qed.
Lemma assoc_dict_update {A} n (over base : list (string * A)) :
  assoc n (dict_update base over) = match last_value n over with Some v => Some v | None => assoc n base end.
Proof.
  unfold dict_update, last_value. revert base. induction over as [|[k v] over IH]; intros base; [done|].
  cbn [foldl rev fst snd]. rewrite IH, assoc_app, assoc_set_key. cbn [assoc]. by destruct (assoc n (rev over)), (String.eqb n k).
Qed.
Lemma assoc_dict_of_pairs {A} n (l : list (string * A)) : assoc n (dict_of_pairs l) = last_value n l.
Proof.
  change (dict_of_pairs l) with (dict_update [] l). rewrite assoc_dict_update. by destruct (last_value n l).
Qed.
Lemma assoc_filter {A} (p : string -> bool) n (l : list (string * A)) :
  assoc n (filter (fun kv => p (fst kv) = true) l) = if p n then assoc n l else None.
Proof.
  induction l as [|[k v] l IH]; [by destruct (p n)|]. rewrite filter_cons. cbn [fst].
  destruct (String.eqb_spec n k) as [<-|Hn%String.eqb_neq].
  - destruct (p n) eqn:E; [rewrite decide_True by done|rewrite decide_False by done; exact IH].
    simpl. by rewrite String.eqb_refl.
  - case_decide; simpl; rewrite ?Hn; exact IH.
Qed.
Lemma last_value_filter {A} (p : string -> bool) n (l : list (string * A)) :
  last_value n (filter (fun kv => p (fst kv) = true) l) = if p n then last_value n l else None.
Proof.
  unfold last_value. rewrite <- assoc_filter. f_equal.
  induction l as [|[k v] l IH]; [done|]. cbn [rev]. rewrite filter_app, !filter_cons. cbn [fst].
  case_decide; simpl; rewrite IH; [done|by rewrite app_nil_r].
Qed.

Lemma in_dict_set {A} k0 k (v : A) d : k0 ∈ map fst (dict_set k v d) -> k0 = k \/ k0 ∈ map fst d.
Proof.
  induction d as [|[k1 v1] d IH]; simpl; [set_solver|].
  destruct (String.eqb_spec k k1) as [->|]; simpl; set_solver.
Qed.
Lemma keys_dict_set {A} k (v : A) d : NoDup (map fst d) -> NoDup (map fst (dict_set k v d)).
Proof.
  induction d as [|[k0 v0] d IH]; simpl; [intros _; apply NoDup_singleton|].
  intros [Hk Hd]%NoDup_cons. destruct (String.eqb_spec k k0) as [->|Hne]; simpl; apply NoDup_cons; [done|].
  split; [|by apply IH]. by intros [->|?]%in_dict_set.
Qed.
Lemma keys_dict_update {A} (over base : list (string * A)) : NoDup (map fst base) -> NoDup (map fst (dict_update base over)).
Proof. unfold dict_update. revert base. induction over as [|[k v] over IH]; intros base H; [done|]. by apply IH, keys_dict_set. Qed.
Lemma keys_filter {A} (p : string * A -> Prop) `{forall kv, Decision (p kv)} (l : list (string * A)) :
  NoDup (map fst l) -> NoDup (map fst (filter p l)).
Proof.
  intros Hn. eapply sublist_NoDup; [exact Hn|]. apply (fmap_sublist fst), sublist_filter.
Qed.

Lemma in_set_key {A} k (v : A) k0 v0 d : In (k0, v0) (dict_set k v d) -> (k0 = k /\ v0 = v) \/ In (k0, v0) d.
Proof.
  induction d as [|[k1 v1] d IH]; cbn [dict_set].
  - intros [[= -> ->]|[]]. by left.
  - destruct (String.eqb_spec k k1) as [->|]; cbn [In]; [intros [[= -> ->]|]; auto|].
    intros [|H]; [auto|]. destruct (IH H); auto.
Qed.
Lemma in_update {A} k0 v0 (over base : list (string * A)) :
  In (k0, v0) (dict_update base over) -> In (k0, v0) over \/ In (k0, v0) base.
Proof.
  unfold dict_update. revert base. induction over as [|[k v] over IH]; intros base H; [by right|].
  cbn [foldl fst snd] in H. apply IH in H as [H|H]; [left; by right|].
  apply in_set_key in H as [[-> ->]|H]; [left; by left|by right].
Qed.
Lemma in_of_pairs {A} k0 v0 (l : list (string * A)) : In (k0, v0) (dict_of_pairs l) -> In (k0, v0) l.
Proof. change (dict_of_pairs l) with (dict_update [] l). by intros [|[]]%in_update. Qed.

(** ** Headers *)

(** The value a name has upstream: the trusted correlation, the identity, the credentials of
    the facade, and last a header of the client that no rule removes. *)
Definition sent_header (inbound inject : list (string * string)) (identity : ProcessIdentity)
    (correlation : list (string * string)) (n : string) : option string :=
  match last_value n correlation with
  | Some v => Some v
  | None =>
      if in_strs (lower n) _IDENTITY_HEADER_NAMES
      then assoc n [("x-ach-agent", pi_agent identity); ("x-ach-environment", pi_environment identity)]
      else match last_value n inject with
           | Some v => Some v
           | None => if keeps_inbound inject n then last_value n inbound else None
           end
  end.

(** The headers of a request that leaves a facade, name by name: the trusted correlation,
    the identity of the process (and under no other spelling), the credentials of the facade,
    and then only what the client sent under a name that is neither a credential, nor an
    identity, nor a correlation, nor a hop-by-hop header, nor one the facade injects, compared
    without case.  Each name is sent once, with the last value it was given. *)
Theorem forwarded_headers inbound inject identity correlation :
  (forall n, assoc n (forward_headers inbound inject identity correlation)
             = sent_header inbound inject identity correlation n)
  /\ NoDup (map fst (forward_headers inbound inject identity correlation)).
Proof.
  split.
  - intros n. unfold forward_headers, sent_header. rewrite assoc_dict_update.
    destruct (last_value n correlation); [done|]. unfold with_identity_headers.
    rewrite !assoc_set_key.
    rewrite (assoc_filter (fun k => negb (in_strs (lower k) _IDENTITY_HEADER_NAMES))).
    destruct (String.eqb_spec n "x-ach-environment") as [->|He]; [done|].
    destruct (String.eqb_spec n "x-ach-agent") as [->|Ha]; [done|].
    destruct (in_strs (lower n) _IDENTITY_HEADER_NAMES); cbn [negb].
    + cbn [assoc]. by rewrite (proj2 (String.eqb_neq _ _) He), (proj2 (String.eqb_neq _ _) Ha).
    + rewrite assoc_dict_update. destruct (last_value n inject); [done|].
      by rewrite assoc_dict_of_pairs, (last_value_filter (keeps_inbound inject)).
  - apply keys_dict_update. unfold with_identity_headers. do 2 apply keys_dict_set.
    apply keys_filter, keys_dict_update. change (dict_of_pairs ?l) with (dict_update [] l).
    apply keys_dict_update, NoDup_nil_2.
Qed.

(** ** Bodies without a repeated key *)

(** No object of the value repeats a key. *)
Fixpoint keys_once (j : json) : bool :=
  match j with
  | JList l => forallb keys_once l
  | JObj d => keys_distinct d && forallb (fun kv => keys_once (snd kv)) d
  | _ => true
  end.

Section facade.
Context (url_path : string -> string) (parse_float : string -> pyfloat) (decode : string -> option string).

(** The reading of a JSON text that keeps every pair of every object, repeated or not:
    [json.loads(text, object_pairs_hook=list)], as an object again. *)
Fixpoint pairs_value (fuel : nat) (s : string) {struct fuel} : option (json * string) :=
  match fuel, s with
  | S fuel, String "{" s =>
      match strip_prefix "}" (skip_ws s) with
      | Some r => Some (JObj [], r)
      | None => '(d, r) ← pairs_members fuel (skip_ws s); Some (JObj d, r)
      end
  | S fuel, String "[" s =>
      match strip_prefix "]" (skip_ws s) with
      | Some r => Some (JList [], r)
      | None => '(l, r) ← pairs_elements fuel (skip_ws s); Some (JList l, r)
      end
  | S _, String _ _ => scan_value parse_float 1 s
  | _, _ => None
  end
with pairs_members (fuel : nat) (s : string) {struct fuel} : option (list (string * json) * string) :=
  match fuel with
  | O => None
  | S fuel =>
      s ← strip_prefix quote s; '(cs, s) ← scan_string (S (String.length s)) s;
      s ← strip_prefix ":" (skip_ws s); '(v, s) ← pairs_value fuel (skip_ws s);
      match strip_prefix "}" (skip_ws s) with
      | Some r => Some ([(str_of_bytes cs, v)], r)
      | None => s ← strip_prefix "," (skip_ws s); '(d, r) ← pairs_members fuel (skip_ws s);
                Some ((str_of_bytes cs, v) :: d, r)
      end
  end
with pairs_elements (fuel : nat) (s : string) {struct fuel} : option (list json * string) :=
  match fuel with
  | O => None
  | S fuel =>
      '(v, s) ← pairs_value fuel s;
      match strip_prefix "]" (skip_ws s) with
      | Some r => Some ([v], r)
      | None => s ← strip_prefix "," (skip_ws s); '(l, r) ← pairs_elements fuel (skip_ws s); Some (v :: l, r)
      end
  end.
Definition loads_pairs (body : string) : option json :=
  text ← decode body;
  '(v, r) ← pairs_value (S (String.length (skip_ws text))) (skip_ws text);
  if String.eqb (skip_ws r) "" then Some v else None.
Lemma pairs_scalar fuel a s :
  Ascii.eqb a "{" = false -> Ascii.eqb a "[" = false ->
  pairs_value (S fuel) (String a s) = scan_value parse_float 1 (String a s).
Proof. destruct a as [[] [] [] [] [] [] [] []]; done. Qed.

Lemma scan_scalar_fuel fuel a s :
  Ascii.eqb a "{" = false -> Ascii.eqb a "[" = false ->
  scan_value parse_float (S fuel) (String a s) = scan_value parse_float 1 (String a s).
Proof. intros H1 H2. cbn [scan_value]. by rewrite H1, H2. Qed.
Lemma scan_number_once s v r : scan_number parse_float s = Some (v, r) -> keys_once v = true.
Proof.
  unfold scan_number. lazymatch goal with |- (let '(_, _) := ?x in _) = _ -> _ => destruct x as [neg s0] end.
  destruct (scan_int_part s0) as [[ip s1]|]; [|done]. cbn [mbind option_bind].
  destruct (scan_frac s1) as [fr s2], (scan_exp s2) as [ex s3]. destruct (_ || _); by intros [= <- _].
Qed.
Lemma scan_scalar_once a s v r :
  Ascii.eqb a "{" = false -> Ascii.eqb a "[" = false ->
  scan_value parse_float 1 (String a s) = Some (v, r) -> keys_once v = true.
Proof.
  intros H1 H2. cbn [scan_value]. rewrite H1, H2.
  destruct (strip_prefix quote _).
  { destruct (scan_string _ _) as [[cs r']|]; [|done]. cbn. by intros [= <- _]. }
  repeat (case_match; [by intros [= <- _]|]). apply scan_number_once.
Qed.

Lemma scan_strict_reads fuel :
  (forall s v r, scan_strict parse_float fuel s = Read (v, r) ->
     pairs_value fuel s = Some (v, r) /\ scan_value parse_float fuel s = Some (v, r) /\ keys_once v = true)
  /\ (forall s d r, members_strict parse_float fuel s = Read (d, r) ->
     pairs_members fuel s = Some (d, r) /\ scan_members parse_float fuel s = Some (d, r) /\ forallb (fun kv => keys_once (snd kv)) d = true)
  /\ (forall s l r, elements_strict parse_float fuel s = Read (l, r) ->
     pairs_elements fuel s = Some (l, r) /\ scan_elements parse_float fuel s = Some (l, r) /\ forallb keys_once l = true).
Proof.
  induction fuel as [|fuel (IHv & IHm & IHe)]; [done|]. split_and!.
  - intros [|a s] v r; [done|]. cbn [scan_strict].
    destruct (Ascii.eqb_spec a "{") as [->|Eo%Ascii.eqb_neq]; [|destruct (Ascii.eqb_spec a "[") as [->|Ea%Ascii.eqb_neq]].
    + cbn [scan_value pairs_value Ascii.eqb Bool.eqb]. destruct (strip_prefix "}" _); [by intros [= <- <-]|].
      destruct (members_strict _ _ _) as [[d r']| |] eqn:E; [|done..]. cbn [strict_bind].
      unfold _no_duplicate_keys. destruct (keys_distinct d) eqn:Ed; [|done]. cbn [strict_bind]. intros [= <- <-].
      apply IHm in E as (-> & -> & Hd). cbn. by rewrite dict_of_pairs_distinct, Ed, Hd.
    + cbn [scan_value pairs_value Ascii.eqb Bool.eqb]. destruct (strip_prefix "]" _); [by intros [= <- <-]|].
      destruct (elements_strict _ _ _) as [[l r']| |] eqn:E; [|done..]. cbn [strict_bind]. intros [= <- <-].
      apply IHe in E as (-> & -> & Hl). done.
    + rewrite (scan_scalar_fuel fuel a s), (pairs_scalar fuel a s) by done. destruct (scan_value _ 1 _) as [[v' r']|] eqn:E; [|done].
      cbn [or_not_json]. intros [= <- <-]. split_and!; [done..|]. by eapply scan_scalar_once.
  - intros s d r. cbn [members_strict scan_members pairs_members].
    destruct (strip_prefix quote s) as [s1|]; [|done]. cbn [or_not_json strict_bind mbind option_bind].
    destruct (scan_string _ s1) as [[cs s2]|]; [|done]. cbn [or_not_json strict_bind mbind option_bind].
    destruct (strip_prefix ":" _) as [s3|]; [|done]. cbn [or_not_json strict_bind mbind option_bind].
    destruct (scan_strict _ _ _) as [[v s4]| |] eqn:E; [|done..]. cbn [strict_bind]. apply IHv in E as (-> & -> & Hv).
    cbn [mbind option_bind]. destruct (strip_prefix "}" _); [intros [= <- <-]; cbn; by rewrite Hv|].
    destruct (strip_prefix "," _) as [s5|]; [|done]. cbn [or_not_json strict_bind mbind option_bind].
    destruct (members_strict _ _ _) as [[d' r']| |] eqn:E; [|done..]. apply IHm in E as (-> & -> & Hd).
    cbn [strict_bind mbind option_bind]. intros [= <- <-]. cbn. by rewrite Hv, Hd.
  - intros s l r. cbn [elements_strict scan_elements pairs_elements].
    destruct (scan_strict _ _ _) as [[v s4]| |] eqn:E; [|done..]. cbn [strict_bind]. apply IHv in E as (-> & -> & Hv).
    cbn [mbind option_bind]. destruct (strip_prefix "]" _); [intros [= <- <-]; cbn; by rewrite Hv|].
    destruct (strip_prefix "," _) as [s5|]; [|done]. cbn [or_not_json strict_bind mbind option_bind].
    destruct (elements_strict _ _ _) as [[d' r']| |] eqn:E; [|done..]. apply IHe in E as (-> & -> & Hd).
    cbn [strict_bind mbind option_bind]. intros [= <- <-]. cbn. by rewrite Hv, Hd.
Qed.
Lemma loads_strict_reads body v :
  loads_strict parse_float decode body = Read v ->
  loads_pairs body = Some v /\ loads_body parse_float decode body = Some v /\ keys_once v = true.
Proof.
  unfold loads_strict, loads_body, loads_pairs. destruct (decode body) as [text|]; [|done]. cbn [or_not_json strict_bind mbind option_bind].
  unfold json_loads. destruct (scan_strict _ _ _) as [[v' r]| |] eqn:E; [|done..]. cbn [strict_bind].
  apply scan_strict_reads in E as (-> & -> & Hv). cbn [mbind option_bind]. destruct (String.eqb _ _); [|done]. by intros [= <-].
Qed.

Context (key : string) (owned_workspace : string -> result exn bool) (identity : ProcessIdentity).

(** The token is the facade token of a Workspace this process owns. *)
Definition token_owned (q : request) : Prop :=
  exists claim, verify_facade_token key (q_token q) = Some claim /\ owned_workspace claim = Ok true.
Lemma unauthenticated_none q : unauthenticated key owned_workspace q = None -> token_owned q.
Proof.
  unfold unauthenticated, authenticate_facade, token_owned.
  destruct (verify_facade_token key (q_token q)) as [claim|]; [|done].
  destruct (owned_workspace claim) as [[]|e] eqn:E; cbn [mbind result_bind]; [by exists claim|done|by destruct e].
Qed.

(** A target below the base, with no segment left to climb by. *)
Definition below (base tail target : string) : Prop :=
  target = (if truthy tail then base +:+ "/" +:+ tail else base)
  /\ (forall segment, In segment (split_on "/" (url_path target)) -> segment <> "." /\ segment <> "..")
  /\ let base_path := rstrip_char "/" (url_path base) in
     url_path target = base_path \/ exists rest, url_path target = base_path +:+ "/" +:+ rest.
Lemma starts_with_prefix p s : starts_with p s = true -> exists rest, s = p +:+ rest.
Proof.
  unfold starts_with. destruct (strip_prefix p s) as [rest|] eqn:E; [|done]. intros _. exists rest. by apply strip_prefix_eq.
Qed.
Lemma join_tail_below base tail target : join_tail url_path base tail = Some target -> below base tail target.
Proof.
  unfold join_tail, below. set (t := if truthy tail then _ else _).
  destruct (existsb _ _) eqn:Ed; [done|].
  assert (forall segment, In segment (split_on "/" (url_path t)) -> segment <> "." /\ segment <> "..") as Hs.
  { intros seg Hin. rewrite <- not_true_iff_false, existsb_exists in Ed.
    split; intros ->; apply Ed; eexists; (split; [exact Hin|done]). }
  destruct (String.eqb_spec (url_path t) (rstrip_char "/" (url_path base))) as [Hp|_]; cbn [orb].
  { intros [= <-]. split_and!; auto. }
  destruct (starts_with _ _) eqn:Ep; [|done]. intros [= <-]. split_and!; [done..|]. right.
  apply starts_with_prefix in Ep as [rest Hr]. exists rest. by rewrite Hr, str_app_assoc.
Qed.

(** What the checks let through: the operations of the one model, and nothing a gateway routes on. *)
Definition allowed_path (api model tail : string) (query : list (string * string)) : Prop :=
  if String.eqb api "gemini" then
    (exists op, tail = "models/" +:+ model +:+ ":" +:+ op /\ In op ["generateContent"; "streamGenerateContent"; "countTokens"])
    /\ (forall s, In s (split_on "/" model) -> s <> "" /\ s <> "." /\ s <> "..")
    /\ (forall k v, In (k, v) query -> k = "alt") /\ (assoc "alt" query = None \/ assoc "alt" query = Some "sse")
  else exists paths, In (api, paths) [("openai", ["chat/completions"; "responses"]); ("anthropic", ["messages"; "messages/count_tokens"])]
    /\ In tail paths /\ query = [].
Definition allowed_document (api model : string) (d : list (string * json)) : Prop :=
  keys_once (JObj d) = true
  /\ (api <> "gemini" -> assoc "model" d = Some (JStr model))
  /\ forall k v, In (k, v) d -> ~ In k ["fallbacks"; "user_config"; "api_base"; "base_url"; "api_key"].

Lemma check_path_allows api model tail query : check_path api model tail query = Ok None -> allowed_path api model tail query.
Proof.
  unfold check_path, allowed_path. destruct (String.eqb api "gemini").
  - destruct (_GEMINI_PATH tail) as [name|] eqn:Eg; [|done].
    destruct (String.eqb_spec name model) as [->|]; [|done]. cbn [negb orb].
    destruct (existsb _ (split_on _ _)) eqn:Es; [done|]. destruct (forallb _ query) eqn:Eq; [|done]. cbn [negb orb].
    case_match; [done|]. intros _. split_and!.
    + unfold _GEMINI_PATH in Eg. destruct (strip_prefix "models/" tail) as [rest|] eqn:E1; [|done]. cbn in Eg.
      destruct (find_sub ":" rest) as [[n op]|] eqn:E2; [|done]. cbn in Eg.
      destruct (truthy n && _) eqn:E3; [|done]. injection Eg as ->. apply andb_prop in E3 as [_ Hop].
      exists op. apply strip_prefix_eq in E1 as ->. apply find_sub_eq in E2 as ->. split; [done|]. by apply in_strs_iff.
    + intros s Hin. rewrite <- not_true_iff_false, existsb_exists in Es.
      split_and!; intros ->; apply Es; eexists; (split; [exact Hin|done]).
    + intros k v Hin. rewrite forallb_forall in Eq. apply Eq in Hin.
      by apply String.eqb_eq in Hin.
    + destruct (assoc "alt" query) as [v|]; [right|by left].
      match goal with H : negb (String.eqb _ "sse") = false |- _ => cbn in H; apply negb_false_iff, String.eqb_eq in H end. congruence.
  - destruct (_BODY_MODEL_PATHS api) as [paths|] eqn:Ep; [|done]. destruct (in_strs tail paths) eqn:E; [|done]. cbn [negb].
    case_bool_decide; [|done]. intros _. exists paths. split_and!; [|by apply in_strs_iff|done].
    unfold _BODY_MODEL_PATHS in Ep. destruct (String.eqb_spec api "openai") as [->|]; [injection Ep as <-; by left|].
    destruct (String.eqb_spec api "anthropic") as [->|]; [|done]. injection Ep as <-. right. by left.
Qed.
Lemma check_document_allows api model body :
  check_document parse_float decode api model body = None ->
  exists d, loads_pairs body = Some (JObj d) /\ loads_body parse_float decode body = Some (JObj d)
    /\ allowed_document api model d.
Proof.
  unfold check_document. destruct (loads_strict parse_float decode body) as [v| |] eqn:El; [|done..].
  apply loads_strict_reads in El as (Ep & El & Hk). destruct v as [| | | | | |d]; try done.
  destruct (negb (String.eqb api "gemini") && _) eqn:Em; [done|]. destruct (existsb _ d) eqn:Er; [done|]. intros _. exists d.
  split; [done|]. split; [done|]. split_and!; [done| |].
  - intros Ha%String.eqb_neq. rewrite Ha in Em. apply negb_false_iff, json_eqb_eq in Em.
    destruct (assoc "model" d); [by f_equal|done].
  - intros k v Hin Hr. rewrite <- not_true_iff_false, existsb_exists in Er. apply Er. exists (k, v).
    split; [done|]. by apply in_strs_iff.
Qed.

(** C26. A request leaves the model facade only as the one model's.  It carries the token of a
    Workspace this process owns; it is a POST to an allowed operation below the endpoint, with
    no encoded path or body; its body, sent as it was checked, is the text of one JSON object in
    which no object, at any depth, repeats a key (read with every pair kept, the text gives the
    very object that [json.loads] builds, and its keys are distinct), that names exactly the configured model (for Gemini the path does)
    and holds no field a gateway routes or authenticates on; and its headers are those
    [forward_headers] makes of it. *)
Theorem model_request_confined f q u :
  model_handle url_path parse_float decode key owned_workspace identity f q = Forwarded u ->
  token_owned q
  /\ q_method q = "POST" /\ u_method u = "POST" /\ contains "%" (q_raw_path q) = false
  /\ has_encoded_body (q_content_encoding q) = false
  /\ below (rstrip_char "/" (mf_endpoint f)) (q_tail q) (u_target u)
  /\ allowed_path (mf_api f) (mf_model f) (q_tail q) (u_query u)
  /\ u_body u = q_body q
  /\ (exists d, loads_pairs (u_body u) = Some (JObj d) /\ loads_body parse_float decode (u_body u) = Some (JObj d)
        /\ allowed_document (mf_api f) (mf_model f) d)
  /\ u_headers u = forward_headers (q_headers q) (mf_headers f) identity (mf_correlation f).
Proof.
  unfold model_handle. destruct (unauthenticated _ _ q) eqn:Ea.
  { intros ->. unfold unauthenticated in Ea. by repeat case_match. }
  apply unauthenticated_none in Ea. unfold check_model_request.
  destruct (String.eqb_spec (q_method q) "POST") as [Hm|]; [|done]. cbn [negb].
  destruct (contains "%" _) eqn:Ep; [done|]. destruct (has_encoded_body _) eqn:Ee; [done|].
  destruct (check_path _ _ _ _) as [[[]|]|] eqn:Ec; [done| |done]. cbn [mbind result_bind].
  destruct (check_document _ _ _ _) as [[]|] eqn:Ed; [done|]. destruct (join_tail _ _ _) as [target|] eqn:Et; [|done].
  unfold forward. intros [= <-]. cbn [u_target u_method u_query u_body u_headers].
  split_and!; [done|done|done|done|done|by apply join_tail_below|by apply check_path_allows|done| |done].
  by apply check_document_allows.
Qed.

(** ** The MCP facade *)

(** An empty body is an empty text. *)
Hypothesis decode_empty : decode "" = Some "".

(** The names the replies so far have taught. *)
Inductive taught (f : mcp_facade) : names -> Prop :=
  | taught_none : taught f (fun _ => [])
  | taught_reply n server_id body :
      taught f n -> taught f (snd (mcp_reply parse_float decode f n server_id body)).
(** Every name maps back to the same name under its server's prefix. *)
Definition prefixed (prefix : string) (upstream : list (string * string)) : Prop :=
  forall bare up, assoc bare upstream = Some up -> up = prefix +:+ bare.

Lemma learn_prefixed prefix upstream tool : prefixed prefix upstream -> prefixed prefix (learn prefix upstream tool).
Proof.
  intros H bare up. unfold learn. destruct (bare_name prefix tool) as [b|]; [|apply H].
  rewrite assoc_set_key. destruct (String.eqb_spec bare b) as [->|]; [by intros [= <-]|apply H].
Qed.
Lemma drop_prefixed tools prefix upstream message :
  prefixed prefix upstream -> prefixed prefix (snd (drop parse_float decode tools prefix upstream message)).
Proof.
  intros H. unfold drop. repeat (case_match; try exact H). cbn [snd].
  generalize (kept_tools tools l). intros l'. revert upstream H.
  induction l' as [|t l' IH]; intros upstream H; [done|]. by apply IH, learn_prefixed.
Qed.
Lemma sse_line_prefixed tools prefix upstream line :
  prefixed prefix upstream -> prefixed prefix (snd (sse_line parse_float decode tools prefix upstream line)).
Proof.
  intros H. unfold sse_line. destruct (strip_prefix _ line); [|done].
  pose proof (drop_prefixed tools prefix upstream) as Hd. destruct (drop _ _ _ _ _ _) eqn:E.
  specialize (Hd (rstrip_set byte_space (lstrip_bytes (rstrip_set line_end s))) H). by rewrite E in Hd.
Qed.
Lemma sse_lines_prefixed tools prefix lines upstream :
  prefixed prefix upstream -> prefixed prefix (snd (sse_lines parse_float decode tools prefix upstream lines)).
Proof.
  revert upstream. induction lines as [|line lines IH]; intros upstream H; [done|]. cbn [sse_lines].
  pose proof (sse_line_prefixed tools prefix upstream line H) as H1. destruct (sse_line _ _ _ _ _ _) as [t u1].
  pose proof (IH u1 H1) as H2. by destruct (sse_lines _ _ _ _ _ _).
Qed.
Lemma taught_prefixed f n : taught f n -> forall server_id, prefixed (server_prefix server_id) (n server_id).
Proof.
  induction 1 as [|n sid body _ IH]; intros server_id; [by intros bare up|].
  unfold mcp_reply. destruct (_listed_tools _ _ _ _ _ _) as [text learnt] eqn:E. cbn [snd].
  destruct (String.eqb_spec server_id sid) as [->|]; [|apply IH].
  replace learnt with (snd (_listed_tools parse_float decode (mp_exclude_tools f) (server_prefix sid) (n sid) body)) by by rewrite E.
  unfold _listed_tools. destruct (existsb _ _); [apply sse_lines_prefixed|apply drop_prefixed]; apply IH.
Qed.

(** The messages of a body: the body itself, or each member of a batch; and the tool one calls. *)
Definition message_in (parsed message : json) : Prop :=
  match parsed with JList batch => In message batch | _ => message = parsed end.
Definition call_params (message : json) (p : list (string * json)) : Prop :=
  exists d, message = JObj d /\ assoc "method" d = Some (JStr "tools/call") /\ assoc "params" d = Some (JObj p).
(** A message with an advertised name replaced by the name under the prefix of its server. *)
Definition renamed_message (prefix : string) (upstream : list (string * string)) (m m' : json) : Prop :=
  (exists d p name, m = JObj d /\ call_params m p /\ assoc "name" p = Some (JStr name) /\ is_Some (assoc name upstream)
     /\ m' = JObj (dict_set "params" (JObj (dict_set "name" (JStr (prefix +:+ name)) p)) d))
  \/ (m' = m /\ forall p name, call_params m p -> assoc "name" p = Some (JStr name) -> assoc name upstream = None).
Definition renamed (prefix : string) (upstream : list (string * string)) (parsed parsed' : json) : Prop :=
  match parsed with
  | JList batch => exists batch', parsed' = JList batch' /\ Forall2 (renamed_message prefix upstream) batch batch'
  | _ => renamed_message prefix upstream parsed parsed'
  end.

Lemma tool_call_iff m p : tool_call m = Some p <-> call_params m p.
Proof.
  unfold tool_call, call_params. split.
  - destruct m as [| | | | | |d]; try done. destruct (json_eqb _ _) eqn:E; [|done]. apply json_eqb_eq in E.
    destruct (assoc "method" d) as [v|] eqn:Em; cbn in E; [|done]. subst v.
    destruct (assoc "params" d) as [[]|] eqn:Ep; try done. intros [= <-]. by exists d.
  - intros (d & -> & Hm & Hp). rewrite Hm, Hp. cbn [from_option id]. by rewrite (proj2 (json_eqb_eq _ _) eq_refl).
Qed.
Lemma tool_calls_in parsed m p : message_in parsed m -> call_params m p -> In p (_tool_calls parsed).
Proof.
  intros Hm Hp%tool_call_iff. unfold _tool_calls. apply list_elem_of_In, list_elem_of_omap. exists m. split; [|done].
  apply list_elem_of_In. unfold message_in, messages in *. destruct parsed; try by left. done.
Qed.
Lemma rename_call_renamed prefix upstream m : prefixed prefix upstream -> renamed_message prefix upstream m (rename_call upstream m).
Proof.
  intros Hpre. destruct (tool_call m) as [p|] eqn:Et.
  2: { right. split; [destruct m as [| | | | | |d]; try done; unfold rename_call; by rewrite Et|].
       intros p name Hc%(proj2 (tool_call_iff _ _)). congruence. }
  pose proof (proj1 (tool_call_iff m p) Et) as Hc. destruct Hc as (d & -> & Hm & Hp). unfold rename_call. rewrite Et.
  assert (forall p' name, call_params (JObj d) p' -> assoc "name" p' = Some (JStr name) -> assoc "name" p = Some (JStr name)) as Hone.
  { intros p' name Hc%(proj2 (tool_call_iff _ _)). congruence. }
  destruct (assoc "name" p) as [[| | | |name| |]|] eqn:En;
    try (right; split; [done|]; intros p' n' Hc Hn; specialize (Hone p' n' Hc Hn); done).
  destruct (assoc name upstream) as [up|] eqn:Eu.
  - left. exists d, p, name. rewrite (Hpre _ _ Eu). split_and!; [done|by apply tool_call_iff|done|by eexists|done].
  - right. split; [done|]. intros p' n' Hc Hn. specialize (Hone p' n' Hc Hn). congruence.
Qed.
Lemma rename_body_renamed prefix upstream parsed : prefixed prefix upstream -> renamed prefix upstream parsed (rename_body upstream parsed).
Proof.
  intros H. unfold renamed, rename_body. destruct parsed as [| | | | |batch|d]; try by apply rename_call_renamed.
  exists (map (rename_call upstream) batch). split; [done|]. induction batch; cbn; constructor; [by apply rename_call_renamed|done].
Qed.

(** The calls of a body that passes the check name no excluded tool. *)
Lemma passed_calls body tools prefix parsed m p :
  _excluded_tool_call parse_float decode body tools prefix = false ->
  loads_body parse_float decode body = Some parsed -> message_in parsed m -> call_params m p ->
  tools = [] \/ exists name, assoc "name" p = Some (JStr name) /\ ~ In name tools /\ ~ In (prefix +:+ name) tools.
Proof.
  unfold _excluded_tool_call. intros He Hl Hm Hp. case_bool_decide as Ht; [by left|right]. cbn [orb] in He.
  destruct (truthy body) eqn:Hb; cbn [negb] in He.
  2: { apply truthy_false in Hb as ->. unfold loads_body in Hl. by rewrite decode_empty in Hl. }
  rewrite Hl in He. rewrite <- not_true_iff_false, existsb_exists in He.
  pose proof (tool_calls_in _ _ _ Hm Hp) as Hin.
  assert (excluded_params tools prefix p = false) as Hx.
  { apply not_true_iff_false. intros Hx. apply He. by exists p. }
  unfold excluded_params in Hx. destruct (assoc "name" p) as [[| | | |name| |]|]; try done.
  exists name. apply orb_false_iff in Hx. by rewrite <- !in_strs_iff, !not_true_iff_false.
Qed.

(** C27. What the capability filter excludes is not reached through the MCP facade, whatever the
    upstream servers answered before.  A request that leaves it carries the token of an owned
    Workspace, goes below the endpoint of a granted server that is not excluded, and carries the
    platform's credential only to a server without headers of its own; and, when tools
    are excluded, every [tools/call] of its body, the one message or any member of a batch, names
    a tool that is not excluded by the upstream's name or by the bare name the facade advertises.
    Its body is the engine's, or the engine's with every advertised name, and nothing else,
    replaced by the one the server listed under its prefix.  (For a facade that injects no
    correlation headers into the message; [decode] reads no bytes as no text.) *)
Theorem excluded_tools_never_called f n server_id q u listing :
  taught f n -> mp_correlation f = [] ->
  mcp_handle url_path parse_float decode key owned_workspace identity f n server_id q = (Forwarded u, listing) ->
  let prefix := server_prefix server_id in
  token_owned q
  /\ (exists endpoint, assoc server_id (mp_servers f) = Some endpoint /\ ~ In server_id (mp_exclude f)
      /\ below (rstrip_char "/" endpoint) (q_tail q) (u_target u))
  /\ (u_credentialled u = true -> ~ In server_id (mp_own_servers f))
  /\ (mp_exclude_tools f <> [] -> has_encoded_body (q_content_encoding q) = false)
  /\ (forall parsed m p, loads_body parse_float decode (u_body u) = Some parsed -> message_in parsed m -> call_params m p ->
       mp_exclude_tools f = [] \/ exists name, assoc "name" p = Some (JStr name)
         /\ ~ In name (mp_exclude_tools f) /\ ~ In (prefix +:+ name) (mp_exclude_tools f))
  /\ (u_body u = q_body q
      \/ exists parsed, loads_body parse_float decode (q_body q) = Some parsed
           /\ exists parsed', renamed prefix (n server_id) parsed parsed' /\ u_body u = dumps true parsed')
  /\ prefixed prefix (n server_id).
Proof.
  intros Ht Hc. unfold mcp_handle. destruct (unauthenticated _ _ q) eqn:Ea.
  { intros [= -> _]. unfold unauthenticated in Ea. by repeat case_match. }
  apply unauthenticated_none in Ea. unfold endpoint_of.
  destruct (in_strs server_id (mp_exclude f)) eqn:Ex; [done|].
  destruct (assoc server_id (mp_servers f)) as [ep|] eqn:Es; [|done]. cbn [fmap option_fmap option_map].
  destruct (_ && has_encoded_body _) eqn:Ee; [done|].
  set (body := _upstream_tool_names parse_float decode (q_body q) (n server_id)).
  destruct (_excluded_tool_call parse_float decode body _ _) eqn:Ec; [done|].
  destruct (join_tail _ _ _) as [target|] eqn:Ej; [|done]. unfold forward. rewrite Hc. intros [= <- _].
  assert (inject_meta parse_float decode body [] = body) as Hb.
  { unfold inject_meta. rewrite bool_decide_true by done. by rewrite orb_true_r. }
  cbn [u_target u_body u_credentialled]. rewrite Hb. split_and!.
  - done.
  - exists ep. split_and!; [done| |by apply join_tail_below]. by rewrite <- in_strs_iff, Ex.
  - intros [_ H]%andb_prop. rewrite <- in_strs_iff. by apply negb_true_iff, not_true_iff_false in H.
  - intros Hne. by rewrite bool_decide_false in Ee.
  - intros parsed m p. by apply passed_calls.
  - unfold body, _upstream_tool_names. destruct (_ || _); [by left|].
    destruct (loads_body _ _ (q_body q)) as [parsed|]; [|by left]. destruct (existsb _ _); [|by left].
    right. exists parsed. split; [done|]. eexists. split; [|done]. by apply rename_body_renamed, (taught_prefixed f).
  - by apply (taught_prefixed f).
Qed.
End facade.

(** ** Samples *)

Definition plain_path (url : string) : string :=
  match find_sub "://" url with
  | Some (_, rest) => match find_sub "/" rest with Some (_, p) => "/" +:+ p | None => "" end
  | None => ""
  end.
Definition no_floats (_ : string) : pyfloat := PyFloat "" None.
Definition owns (claim : string) : result exn bool := Ok (String.eqb claim "agent-w").
Definition me : ProcessIdentity := {| pi_agent := "agent"; pi_environment := "prod" |}.
Definition post (tail : string) (body : json) : request :=
  {| q_method := "POST"; q_token := facade_token "k" "agent-w"; q_tail := tail; q_raw_path := "/" +:+ tail;
     q_query := []; q_headers := [("Authorization", "dummy"); ("X-ACH-Agent", "other"); ("accept", "text/event-stream")];
     q_content_encoding := []; q_body := json_dumps body |}.

Definition chat : model_facade :=
  {| mf_endpoint := "https://ach.example/v1/"; mf_headers := []; mf_api := "openai"; mf_model := "gpt";
     mf_correlation := []; mf_auth := true |}.
Definition chat_request : request :=
  post "chat/completions" (JObj [("model", JStr "gpt"); ("messages", JList [])]).
Definition chat_upstream : upstream_request :=
  {| u_target := "https://ach.example/v1/chat/completions"; u_method := "POST";
     u_headers := [("accept", "text/event-stream"); ("x-ach-agent", "agent"); ("x-ach-environment", "prod")];
     u_query := []; u_body := q_body chat_request; u_credentialled := true |}.
Lemma chat_leaves :
  model_handle plain_path no_floats Some "k" owns me chat chat_request = Forwarded chat_upstream.
Proof. vm_compute. reflexivity. Qed.
Lemma model_request_confined_witness :
  contains "%" (q_raw_path chat_request) = false
  /\ allowed_path "openai" "gpt" "chat/completions" []
  /\ exists d, loads_pairs no_floats Some (u_body chat_upstream) = Some (JObj d)
       /\ loads_body no_floats Some (u_body chat_upstream) = Some (JObj d) /\ allowed_document "openai" "gpt" d.
Proof.
  destruct (model_request_confined plain_path no_floats Some "k" owns me chat chat_request chat_upstream
              ltac:(vm_compute; reflexivity)) as (_ & _ & _ & H1 & _ & _ & H2 & _ & H3 & _).
  split; [exact H1|]. split; [exact H2|exact H3].
Defined.

(** Another model, and a body that names the model twice. *)
Example other_model_refused :
  model_handle plain_path no_floats Some "k" owns me chat
    (post "chat/completions" (JObj [("model", JStr "gpt-large")])) = Refused 400 "model not allowed"
  /\ model_handle plain_path no_floats Some "k" owns me chat
       (post "chat/completions" (JObj [("model", JStr "gpt"); ("model", JStr "gpt-large")])) = Refused 400 "duplicate key".
Proof. split; vm_compute; reflexivity. Qed.

(** ** MCP *)

Definition tools_facade : mcp_facade :=
  {| mp_servers := [("git", "https://ach.example/mcp/git/")]; mp_server_headers := []; mp_exclude := ["raw"];
     mp_exclude_tools := ["git.delete"]; mp_correlation := []; mp_auth := true; mp_own_servers := [] |}.
Definition tool (name : string) : json := JObj [("name", JStr name)].
Definition listing : json := JObj [("result", JObj [("tools", JList [tool "git.log"; tool "git.delete"; tool "ping"])])].
Definition after_listing : names := snd (mcp_reply no_floats Some tools_facade (fun _ => []) "git" (json_dumps listing)).
Definition call_of (name : string) : json :=
  JObj [("method", JStr "tools/call"); ("params", JObj [("name", JStr name)])].
Definition batch : request := post "" (JList [call_of "log"; call_of "ping"]).
Definition batch_upstream : upstream_request :=
  {| u_target := "https://ach.example/mcp/git"; u_method := "POST";
     u_headers := [("accept", "text/event-stream"); ("x-ach-agent", "agent"); ("x-ach-environment", "prod")];
     u_query := []; u_body := dumps true (JList [call_of "git.log"; call_of "ping"]); u_credentialled := true |}.

(** The excluded tool is not listed, and the others lose their prefix. *)
Example listing_filtered :
  fst (mcp_reply no_floats Some tools_facade (fun _ => []) "git" (json_dumps listing))
  = dumps true (JObj [("result", JObj [("tools", JList [tool "log"; tool "ping"])])]).
Proof. vm_compute. reflexivity. Qed.
Example excluded_call_refused :
  mcp_handle plain_path no_floats Some "k" owns me tools_facade after_listing "git"
    (post "" (JList [call_of "ping"; call_of "delete"])) = (Refused 403 "tool excluded by capability filter", false).
Proof. vm_compute. reflexivity. Qed.

Lemma excluded_tools_never_called_witness :
  u_body batch_upstream <> q_body batch
  /\ (forall parsed m p, loads_body no_floats Some (u_body batch_upstream) = Some parsed ->
        message_in parsed m -> call_params m p -> assoc "name" p <> Some (JStr "git.delete")).
Proof.
  assert (mcp_handle plain_path no_floats Some "k" owns me tools_facade after_listing "git" batch
          = (Forwarded batch_upstream, false)) as Hh by (vm_compute; reflexivity).
  destruct (excluded_tools_never_called plain_path no_floats Some "k" owns me eq_refl tools_facade after_listing "git"
              batch batch_upstream false (taught_reply _ _ _ _ _ _ (taught_none _ _ _)) eq_refl Hh)
    as (_ & _ & _ & _ & H & _).
  split; [vm_compute; discriminate|]. intros parsed m p H1 H2 H3 Hn.
  destruct (H parsed m p H1 H2 H3) as [Hx|(name & Hx & Hy & _)]; [discriminate Hx|].
  rewrite Hn in Hx. injection Hx as Hx. apply Hy. left. exact Hx.
Defined.

(** One malformed entry of a reply disables the filter: the excluded tool is listed. *)
Definition malformed_listing : json :=
  JObj [("result", JObj [("tools", JList [tool "git.delete"; JObj [("name", JList [])]])])].
Lemma malformed_entry_disables_filter :
  fst (mcp_reply no_floats Some tools_facade (fun _ => []) "git" (json_dumps malformed_listing))
  = json_dumps malformed_listing.
Proof. vm_compute. reflexivity. Qed.
