(* ===== verification/Catalog.v ===== *)
(** * harness/hydrate.py, facades/model.py, facades/_memory_client.py: what the engine is told

    The catalog the platform grants, the one the engine receives, the memory server and the
    prompt: harness/control.py builds the last two of each from the first.  The documents of
    the platform are read by Pydantic ([pyd_int], [pyd_str]); float arithmetic is a parameter. *)

From Stdlib Require Import Ascii.
From S2P Require Import Prelude Sha256 PyJson PyLoads Config Public Templating Tokens Facade.
Local Open Scope Z_scope.

(** ** hydrate.py *)

Record ModelLimitsEntry := { le_context : option Z; le_output : option Z }.
Record ModelEntry := { me_id : string; me_endpoint : string; me_limits : option ModelLimitsEntry }.
Record ServerEntry := { se_id : string; se_endpoint : string }.
Record ContextItem := { ci_name : string; ci_id : string; ci_download_url : string }.
Record HydrationManifest :=
  { hm_environment : string; hm_models : list ModelEntry; hm_mcp_servers : list ServerEntry;
    hm_a2a_agents : list ServerEntry; hm_skills : list ContextItem; hm_prompts : list ContextItem;
    hm_artifacts : list ContextItem }.
(** Costs are the numbers upstream sent. *)
Record ModelMetadata :=
  { md_context_limit : option Z; md_output_limit : option Z; md_vision : option bool; md_pdf : option bool;
    md_audio : option bool; md_video : option bool; md_mode : option string;
    md_function_calling : option bool; md_reasoning : option bool;
    md_input_cost : option json; md_output_cost : option json; md_cache_read_cost : option json }.
Definition no_metadata : ModelMetadata :=
  {| md_context_limit := None; md_output_limit := None; md_vision := None; md_pdf := None; md_audio := None;
     md_video := None; md_mode := None; md_function_calling := None; md_reasoning := None;
     md_input_cost := None; md_output_cost := None; md_cache_read_cost := None |}.
Record HydratedModel := { hy_id : string; hy_endpoint : string; hy_metadata : option ModelMetadata }.
Record HydratedCatalog :=
  { hc_environment : string; hc_model : HydratedModel; hc_mcp_servers : list ServerEntry;
    hc_skills : list ContextItem; hc_prompts : list ContextItem; hc_artifacts : list ContextItem;
    hc_a2a_agents : list ServerEntry }.
(** [HydrationError] and the exceptions that escape. *)
Inductive herr := HydrationError | Escaped (e : exn).

(** [math.isfinite(n)] of an integer converts it to a float, which overflows from here on. *)
Definition FLOAT_OVERFLOW : Z := 2 ^ 1024 - 2 ^ 970.
Definition isfinite (v : json) : result exn bool :=
  match v with
  | JInt z => if FLOAT_OVERFLOW <=? Z.abs z then Err OverflowError else Ok true
  | JFloat f => Ok (bool_decide (is_Some (f_int f)))
  | _ => Ok false
  end.
Definition _is_finite_number (raw : json) : result exn bool :=
  match raw with JInt _ | JFloat _ => isfinite raw | _ => Ok false end.
Definition _optional_bool (model_info : list (string * json)) (key : string) : option bool :=
  match assoc key model_info with Some (JBool b) => Some b | _ => None end.
Definition _NUMERIC_METADATA_FIELDS : list string :=
  ["max_input_tokens"; "max_output_tokens"; "input_cost_per_token"; "output_cost_per_token"; "cache_read_input_token_cost"].
Definition is_named (key name : string) (entry : json) : bool :=
  match entry with JObj d => json_eqb (from_option id JNull (assoc key d)) (JStr name) | _ => false end.
Definition params_named (name : string) (entry : json) : bool :=
  match entry with
  | JObj d => match assoc "litellm_params" d with Some p => is_named "model" name p | None => false end
  | _ => false
  end.
Definition _match_entry (data : list json) (model_name : string) : option json :=
  match List.find (is_named "model_name" model_name) data with
  | Some e => Some e
  | None => List.find (params_named model_name) data
  end.

Section hydrate.
(** Pydantic's [int | None] and [str | None] of a JSON value: [None] is its [ValidationError]. *)
Context (pyd_int : json -> option (option Z)) (pyd_str : json -> option (option string)).
Definition number_of (d : list (string * json)) (key : string) : option json :=
  match assoc key d with Some JNull | None => None | Some v => Some v end.
Fixpoint all_numbers (d : list (string * json)) (keys : list string) : result exn bool :=
  match keys with
  | [] => Ok true
  | k :: keys =>
      match number_of d k with
      | None => all_numbers d keys
      | Some v => ok ← _is_finite_number v; if (ok : bool) then all_numbers d keys else Ok false
      end
  end.
Definition member (d : list (string * json)) (key : string) : json := from_option id JNull (assoc key d).
Definition _parse_model_info (d : list (string * json)) : result exn (option ModelMetadata) :=
  ok ← all_numbers d _NUMERIC_METADATA_FIELDS;
  if negb ok then Ok None else
  Ok (context ← pyd_int (member d "max_input_tokens");
      output ← pyd_int (member d "max_output_tokens");
      mode ← pyd_str (member d "mode");
      Some {| md_context_limit := context; md_output_limit := output;
              md_vision := _optional_bool d "supports_vision"; md_pdf := _optional_bool d "supports_pdf_input";
              md_audio := _optional_bool d "supports_audio_input"; md_video := _optional_bool d "supports_video_input";
              md_mode := mode; md_function_calling := _optional_bool d "supports_function_calling";
              md_reasoning := _optional_bool d "supports_reasoning";
              md_input_cost := number_of d "input_cost_per_token";
              md_output_cost := number_of d "output_cost_per_token";
              md_cache_read_cost := number_of d "cache_read_input_token_cost" |}).

(** [None]: no answer, or one that is no document; else the status and the document. *)
Definition fetch_model_metadata (answer : option (Z * option json)) (model_id : string) : result exn (option ModelMetadata) :=
  match answer with
  | Some (status, Some (JObj body)) =>
      if 400 <=? status then Ok None else
      match assoc "data" body with
      | Some (JList data) =>
          match _match_entry data model_id with
          | Some (JObj entry) =>
              match assoc "model_info" entry with Some (JObj info) => _parse_model_info info | _ => Ok None end
          | _ => Ok None
          end
      | _ => Ok None
      end
  | _ => Ok None
  end.
(** [manifest]: the answer of the request, validated; [None] is every failure of it. *)
Definition fetch_hydration_manifest (manifest : option HydrationManifest) (environment : string) : result herr HydrationManifest :=
  match manifest with
  | None => Err HydrationError
  | Some m =>
      if truthy environment && negb (String.eqb (hm_environment m) environment) then Err HydrationError else Ok m
  end.
Definition resolve_model (m : HydrationManifest) (model_id : string) : result herr ModelEntry :=
  match List.find (fun e => String.eqb (me_id e) model_id) (hm_models m) with
  | Some e => if truthy (me_endpoint e) then Ok e else Err HydrationError
  | None => Err HydrationError
  end.

Record HydrationInput :=
  { hi_agent : string; hi_base_url : string; hi_environment : string; hi_model : string; hi_limits : option (Z * Z) }.
Definition from_config (c : RuntimeConfig) : result herr HydrationInput :=
  match cap_ach (rc_capability c) with
  | None => Err HydrationError
  | Some ach =>
      Ok {| hi_agent := agent_name (rc_agent c); hi_base_url := as_base_url ach; hi_environment := as_environment ach;
            hi_model := m_name (am_block (as_model ach));
            hi_limits := (fun l => (ml_context l, ml_output l)) <$> am_limits (as_model ach) |}
  end.
Definition with_limits (context output : option Z) (m : ModelMetadata) : ModelMetadata :=
  {| md_context_limit := from_option Some (md_context_limit m) context;
     md_output_limit := from_option Some (md_output_limit m) output;
     md_vision := md_vision m; md_pdf := md_pdf m; md_audio := md_audio m; md_video := md_video m; md_mode := md_mode m;
     md_function_calling := md_function_calling m; md_reasoning := md_reasoning m;
     md_input_cost := md_input_cost m; md_output_cost := md_output_cost m; md_cache_read_cost := md_cache_read_cost m |}.
Definition known_limits (e : ModelEntry) (metadata : option ModelMetadata) : option ModelMetadata :=
  match me_limits e with
  | Some l => match le_context l, le_output l with
              | None, None => metadata
              | c, o => Some (with_limits c o (from_option id no_metadata metadata))
              end
  | None => metadata
  end.
(** [Hydrator.load]: configured limits win over hydrated ones, those over the model info. *)
Definition load (source : HydrationInput) (manifest : option HydrationManifest) (info : option (Z * option json)) :
    result herr HydratedCatalog :=
  m ← fetch_hydration_manifest manifest (hi_environment source);
  entry ← resolve_model m (hi_model source);
  metadata ← match fetch_model_metadata info (hi_model source) with Ok v => Ok v | Err e => Err (Escaped e) end;
  let metadata := known_limits entry metadata in
  let metadata := match hi_limits source with
                  | Some (context, output) => Some (with_limits (Some context) (Some output) (from_option id no_metadata metadata))
                  | None => metadata
                  end in
  Ok {| hc_environment := hm_environment m;
        hc_model := {| hy_id := me_id entry; hy_endpoint := me_endpoint entry; hy_metadata := metadata |};
        hc_mcp_servers := hm_mcp_servers m; hc_skills := hm_skills m; hc_prompts := hm_prompts m;
        hc_artifacts := hm_artifacts m; hc_a2a_agents := hm_a2a_agents m |}.
End hydrate.

Definition standalone_catalog (c : RuntimeConfig) (server : StandaloneServer) : HydratedCatalog :=
  let model := ss_model server in
  {| hc_environment := identity_environment c;
     hc_model := {| hy_id := m_name (sm_block model); hy_endpoint := sm_base_url model;
                    hy_metadata := (fun l => with_limits (Some (ml_context l)) (Some (ml_output l)) no_metadata) <$> sm_limits model |};
     hc_mcp_servers := map (fun item => {| se_id := mcp_name item; se_endpoint := mcp_url item |}) (ss_mcp_servers server);
     hc_skills := []; hc_prompts := []; hc_artifacts := []; hc_a2a_agents := [] |}.

(** ** model.py: the projection the engine receives *)

Section catalog.
(** [round(x * 1_000_000, 6)] *)
Context (per_million : json -> json).
Definition optional (key : string) (o : option json) : list (string * json) :=
  match o with Some v => [(key, v)] | None => [] end.
Definition block (key : string) (d : list (string * json)) : list (string * json) :=
  match d with [] => [] | _ => [(key, JObj d)] end.
Definition flagged (name : string) (flag : option bool) : list json :=
  match flag with Some true => [JStr name] | _ => [] end.
Definition present_metadata (metadata : option ModelMetadata) : list (string * json) :=
  match metadata with
  | None => []
  | Some m =>
      block "limit" (optional "context" (JInt <$> md_context_limit m) ++ optional "output" (JInt <$> md_output_limit m))
      ++ block "cost" (optional "input" (per_million <$> md_input_cost m) ++ optional "output" (per_million <$> md_output_cost m)
                       ++ optional "cache_read" (per_million <$> md_cache_read_cost m))
      ++ optional "tool_call" (JBool <$> md_function_calling m) ++ optional "reasoning" (JBool <$> md_reasoning m)
      ++ (if present (md_vision m) || present (md_audio m) || present (md_pdf m) || present (md_video m)
          then [("modalities", JObj [("input", JList (JStr "text" :: flagged "image" (md_vision m) ++ flagged "audio" (md_audio m)
                                                      ++ flagged "pdf" (md_pdf m) ++ flagged "video" (md_video m)));
                                     ("output", JList [JStr "text"])]);
                ("attachment", JBool (existsb (fun f => bool_decide (f = Some true)) [md_vision m; md_audio m; md_pdf m; md_video m]))]
          else [])
  end.
Definition facade_headers (token : string) : json := JObj [(FACADE_TOKEN_HEADER, JStr token)].
Definition mcp_entry (token url : string) : json := JObj [("url", JStr url); ("headers", facade_headers token)].
Definition public_catalog (catalog : HydratedCatalog) (provider_id model_url token : string)
    (mcp_urls : list (string * string)) (memory_url artifact_url : option string) : list (string * json) :=
  let mcp := map (fun kv => (fst kv, mcp_entry token (snd kv))) mcp_urls in
  let mcp := match memory_url with Some u => if truthy u then dict_set "memory" (mcp_entry token u) mcp else mcp | None => mcp end in
  let mcp := match artifact_url with Some u => if truthy u then dict_set "artifacts" (mcp_entry token u) mcp else mcp | None => mcp end in
  [("providers", JObj [(provider_id, JObj [("baseURL", JStr model_url); ("apiKey", JStr "local-proxy");
      ("headers", facade_headers token);
      ("models", JObj [(hy_id (hc_model catalog), JObj (present_metadata (hy_metadata (hc_model catalog))))])])]);
   ("mcp", JObj mcp)].
End catalog.

(** ** _memory_client.py *)

Definition slug_char (a : ascii) : bool := is_lower a || is_digit a || Ascii.eqb a "." || Ascii.eqb a "-".
(** [_NON_SLUG.sub("-", s)]: every run of other characters becomes one dash. *)
Fixpoint sub_non_slug (in_run : bool) (s : string) : string :=
  match s with
  | EmptyString => ""
  | String a s =>
      if slug_char a then String a (sub_non_slug false s)
      else if in_run then sub_non_slug true s else String "-" (sub_non_slug true s)
  end.
Definition edge (a : ascii) : bool := Ascii.eqb a "-" || Ascii.eqb a ".".
Fixpoint lstrip_set (p : ascii -> bool) (s : string) : string :=
  match s with String a s' => if p a then lstrip_set p s' else s | EmptyString => "" end.
Definition MAX_SLUG_LENGTH : nat := 128.
Definition normalize_slug (raw : string) : string :=
  let slug := String.substring 0 MAX_SLUG_LENGTH
                (rstrip_set edge (lstrip_set edge (sub_non_slug false (lower (strip raw))))) in
  if negb (str_forallb (fun a => negb (is_alnum a)) slug) then slug else "".
Definition resolve_project (params : AchMemoryParams) (agent namespace : string) : string :=
  if truthy (mem_project params) then normalize_slug (mem_project params)
  else normalize_slug (if truthy namespace then namespace +:+ "-" +:+ agent else agent).
Definition resolve_endpoint (endpoint mcp_server_id : string) (mcp_servers : list (string * string)) : string :=
  if truthy endpoint then endpoint else from_option id "" (assoc mcp_server_id mcp_servers).
Definition _endpoints_equivalent (a b : string) : bool :=
  truthy a && truthy b && String.eqb (rstrip_char "/" a) (rstrip_char "/" b).
Definition equivalent_ids (endpoint : string) (mcp_servers : list (string * string)) : list string :=
  map fst (filter (fun kv => _endpoints_equivalent (snd kv) endpoint = true) mcp_servers).
(** A set, as the list of its members. *)
Definition excluded_mcp_server_ids (mcp_server_id endpoint : string) (mcp_servers : list (string * string)) : list string :=
  if truthy mcp_server_id then
    let resolved := from_option id "" (assoc mcp_server_id mcp_servers) in
    mcp_server_id :: (if truthy resolved then equivalent_ids resolved mcp_servers else [])
  else if truthy endpoint then equivalent_ids endpoint mcp_servers else [].
(** [resolve_secret] reads the environment; an unset or empty alias resolves to nothing. *)
Definition resolve_ach_memory_auth (auth : option AchMemoryAuth) (ek : option string) (resolve_secret : string -> option string) :
    bool * list (string * string) :=
  match auth with
  | None => (true, [])
  | Some AuthAch =>
      match ek with
      | Some ek => if truthy ek then (true, [("x-ach-key", ek)]) else (false, [])
      | None => (false, [])
      end
  | Some (AuthBearer env header) =>
      match (if truthy env then resolve_secret env else None) with
      | Some secret =>
          if truthy secret
          then (true, [(header, if String.eqb (lower header) "authorization" then "Bearer " +:+ secret else secret)])
          else (false, [])
      | None => (false, [])
      end
  end.
(** [^.+[.\-/](?P<tool>[a-z_]+)$]: the text after the last separator, when it is such a name. *)
Definition tool_char (a : ascii) : bool := is_lower a || Ascii.eqb a "_".
Definition separator (a : ascii) : bool := Ascii.eqb a "." || Ascii.eqb a "-" || Ascii.eqb a "/".
Fixpoint after_separator (s : string) : option (string * string) :=
  match s with
  | EmptyString => None
  | String a s =>
      match after_separator s with
      | Some (p, r) => Some (String a p, r)
      | None => if separator a then Some ("", s) else None
      end
  end.
Definition prefixed_tool (name : string) : option string :=
  '(prefix, tool) ← after_separator (chop_newline name);
  if truthy prefix && str_forallb (fun a => negb (ascii_code a =? 10)%N) prefix && truthy tool && str_forallb tool_char tool
  then Some tool else None.
(** [advertised]: a set, as the list of its members. *)
Definition advertised_name (advertised : list string) (tool : string) : string :=
  if in_strs tool advertised then tool else
  match filter (fun n => bool_decide (prefixed_tool n = Some tool) = true) advertised with
  | [n] => n
  | _ => tool
  end.
(** [AchMemoryFacade._invoke]: the arguments that are sent. *)
Definition memory_payload (project : string) (args : list (string * json)) : list (string * json) :=
  dict_set "project_slug" (JStr project)
    (dict_set "scope" (JStr "project") (filter (fun kv => json_eqb (snd kv) JNull = false) args)).

(** ** control.py *)

Definition getenv (env : list (string * string)) (name : string) : string := from_option id "" (assoc name env).
(** All headers, and the values among them that came from the environment. *)
Fixpoint resolve_headers (h : list (string * HeaderValue)) (env : list (string * string)) :
    result exn (list (string * string) * list string) :=
  match h with
  | [] => Ok ([], [])
  | (name, HeaderLiteral value) :: h =>
      '(resolved, secrets) ← resolve_headers h env; Ok ((name, value) :: resolved, secrets)
  | (name, HeaderAlias alias) :: h =>
      let value := getenv env (secret_env_name alias) in
      if negb (truthy value) then Err WorkspaceAssemblyUnavailable else
      '(resolved, secrets) ← resolve_headers h env; Ok ((name, value) :: resolved, value :: secrets)
  end.
Definition merge_headers (base over : list (string * string)) : list (string * string) :=
  dict_update (filter (fun kv => negb (in_strs (lower (fst kv)) (map (fun kv => lower (fst kv)) over)) = true) base) over.

(** [_render_prompt].  The leftmost placeholder that matches [_TEMPLATE] at its position. *)
Inductive fallback := NoFallback | Default (text : string) | AsJson.
Fixpoint span (p : ascii -> bool) (s : string) : string * string :=
  match s with
  | String a s' => if p a then let '(x, r) := span p s' in (String a x, r) else ("", s)
  | EmptyString => ("", "")
  end.
Definition close_braces (s : string) : option string := strip_prefix "}}" (lstrip s).
Definition match_placeholder (s : string) : option (string * fallback * string) :=
  s ← strip_prefix "{{" s;
  let '(path, s) := span path_char (lstrip s) in
  if negb (truthy path) then None else
  match strip_prefix "|" (lstrip s) with
  | None => r ← close_braces s; Some (path, NoFallback, r)
  | Some s =>
      match strip_prefix "default(" (lstrip s) with
      | Some s =>
          s ← strip_prefix quote (lstrip s);
          let '(text, s) := span (fun a => negb (ascii_code a =? 34)%N) s in
          s ← strip_prefix quote s; s ← strip_prefix ")" (lstrip s);
          r ← close_braces s; Some (path, Default text, r)
      | None => s ← strip_prefix "json" (lstrip s); r ← close_braces s; Some (path, AsJson, r)
      end
  end.
Fixpoint next_placeholder (s : string) : option (string * (string * fallback) * string) :=
  match match_placeholder s with
  | Some (path, f, r) => Some ("", (path, f), r)
  | None => match s with
            | EmptyString => None
            | String a s => '(literal, m, r) ← next_placeholder s; Some (String a literal, m, r)
            end
  end.
(** [json.dumps(value, ensure_ascii=False, sort_keys=True)]. *)
Fixpoint insert_key (kv : string * json) (d : list (string * json)) : list (string * json) :=
  match d with
  | [] => [kv]
  | kv' :: d' => if String.ltb (fst kv') (fst kv) then kv' :: insert_key kv d' else kv :: d
  end.
Fixpoint sort_keys (j : json) : json :=
  match j with
  | JList l => JList (map sort_keys l)
  | JObj d => JObj (foldr insert_key [] (map (fun kv => (fst kv, sort_keys (snd kv))) d))
  | j => j
  end.
Fixpoint dumps_spaced (j : json) : string :=
  match j with
  | JList l => "[" +:+ join ", " (map dumps_spaced l) +:+ "]"
  | JObj d => "{" +:+ join ", " (map (fun kv => dumps_str false (fst kv) +:+ ": " +:+ dumps_spaced (snd kv)) d) +:+ "}"
  | j => dumps false j
  end.
Definition prompt_value (raw : option json) (f : fallback) : string :=
  match raw, f with
  | None, Default text => text
  | None, _ => ""
  | Some v, AsJson => dumps_spaced (sort_keys v)
  | Some v, f => match scalar_str v with
                 | Some s => s
                 | None => match f with Default text => text | _ => "" end
                 end
  end.
Definition stray (literal : string) : bool := contains "{{" literal || contains "}}" literal.
Fixpoint render_prompt_loop (fuel : nat) (context : json) (template : string) : result exn string :=
  match fuel with
  | O => Err OutOfFuel
  | S fuel =>
      match next_placeholder template with
      | None => if stray template then Err WorkspaceAssemblyUnavailable else Ok template
      | Some (literal, (path, f), rest) =>
          if stray literal then Err WorkspaceAssemblyUnavailable else
          out ← render_prompt_loop fuel context rest;
          Ok (literal +:+ prompt_value (resolve_path context path) f +:+ out)
      end
  end.
Definition _render_prompt (template : string) (context : json) : result exn string :=
  render_prompt_loop (S (String.length template)) context template.

(** [_public_wire]: [model_dump] is Pydantic's; [stall_set]: the limit was given explicitly. *)
Definition dict_del {A} (k : string) (d : list (string * A)) : list (string * A) :=
  filter (fun kv => negb (String.eqb (fst kv) k) = true) d.
Definition _ADDED_HOOK_KEYS : list string := ["workspaceStart"; "workspaceStop"].
Definition drop_unset (hooks : list (string * json)) (key : string) : list (string * json) :=
  if json_eqb (from_option id JNull (assoc key hooks)) JNull then dict_del key hooks else hooks.
Definition in_block (key : string) (f : list (string * json) -> list (string * json)) (wire : list (string * json)) :
    list (string * json) :=
  match assoc key wire with Some (JObj d) => dict_set key (JObj (f d)) wire | _ => wire end.
Definition _public_wire (model_dump : PublicConfig -> list (string * json)) (stall_set : bool) (public : PublicConfig) : json :=
  let wire := in_block "hooks" (fun hooks => foldl drop_unset hooks _ADDED_HOOK_KEYS) (model_dump public) in
  let wire := if stall_set then wire else in_block "limits" (dict_del "maxStallSeconds") wire in
  let wire := if bool_decide (pe_deny_tools (pc_engine public) = []) then in_block "engine" (dict_del "denyTools") wire else wire in
  JObj wire.

(** What [assemble] decides that the catalog and the MCP facade read of [Control]. *)
Record control_parts :=
  { cp_config : RuntimeConfig; cp_key : string; cp_catalog : HydratedCatalog; cp_facade_endpoint : string;
    cp_provider : string; cp_memory_facade : bool; cp_artifact_facade : bool; cp_a2a_facade : bool;
    cp_progress_facade : bool; cp_memory_configured : bool }.
Definition servers_of (catalog : HydratedCatalog) : list (string * string) :=
  dict_of_pairs (map (fun item => (se_id item, se_endpoint item)) (hc_mcp_servers catalog)).
Definition memory_excluded (c : RuntimeConfig) (catalog : HydratedCatalog) : list string :=
  match rc_memory c with
  | Some params => excluded_mcp_server_ids (mem_mcp_server_id params) (mem_endpoint params) (servers_of catalog)
  | None => []
  end.
Definition excluded_servers (c : RuntimeConfig) (catalog : HydratedCatalog) : list string :=
  ex_mcp_servers (cap_exclude (rc_capability c)) ++ memory_excluded c catalog.
Definition server_url (facade id : string) : string := facade +:+ "/mcp/mcp/" +:+ id.
Definition mcp_urls (p : control_parts) : list (string * string) :=
  let facade := rstrip_char "/" (cp_facade_endpoint p) in
  let urls := dict_of_pairs (map (fun item => (se_id item, server_url facade (se_id item)))
                (filter (fun item => in_strs (se_id item) (excluded_servers (cp_config p) (cp_catalog p)) = false)
                   (hc_mcp_servers (cp_catalog p)))) in
  let urls := if cp_a2a_facade p then dict_set "a2a" (facade +:+ "/a2a/a2a/") urls else urls in
  if cp_progress_facade p then dict_set "progress" (facade +:+ "/progress") urls else urls.
(** [tools_spec]: the text of [TOOLS_SPEC]. *)
Definition _catalog_for (per_million : json -> json) (tools_spec : string) (p : control_parts) (name : string) :
    list (string * json) :=
  let facade := rstrip_char "/" (cp_facade_endpoint p) in
  let result := public_catalog per_million (cp_catalog p) (cp_provider p) (facade +:+ "/model") (facade_token (cp_key p) name)
    (mcp_urls p) (if cp_memory_facade p then Some (facade +:+ "/memory/memory/") else None)
    (if cp_artifact_facade p then Some (facade +:+ "/artifacts") else None) in
  if cp_memory_configured p then dict_set "memoryToolsSpec" (JStr tools_spec) result else result.
(** The MCP facade [assemble] builds; [own]: the servers with headers of their own. *)
Definition assembled_mcp (c : RuntimeConfig) (catalog : HydratedCatalog) (headers : list (string * list (string * string)))
    (ach : bool) (own : list string) : mcp_facade :=
  {| mp_servers := servers_of catalog; mp_server_headers := headers; mp_exclude := excluded_servers c catalog;
     mp_exclude_tools := ex_tools (cap_exclude (rc_capability c)); mp_correlation := []; mp_auth := ach;
     mp_own_servers := own |}.
