(* ===== verification/CatalogProps.v ===== *)
(** * What the engine is told: only facades

    [withheld] says, from the configuration and the grant alone, which MCP servers the engine
    must not have: the ones its capability filter excludes, and the ones the memory server of
    the configuration is.  [catalog_names_only_facades]: the engine's catalog holds exactly the
    facade addresses of the others under the facade token of its Workspace, and the MCP facade
    routes exactly those. *)

From Stdlib Require Import Ascii.
From S2P Require Import Prelude Sha256 PyJson PyLoads Config ConfigFacts Public Templating Tokens Facade FacadeProps Catalog.
Local Open Scope Z_scope.

(** ** Lookups in a dict *)

Lemma assoc_map_snd {A B} (g : A -> B) n (d : list (string * A)) :
  assoc n (map (fun kv => (fst kv, g (snd kv))) d) = g <$> assoc n d.
Proof. induction d as [|[k v] d IH]; cbn; [done|]. by destruct (String.eqb n k). Qed.
Lemma keys_of_pairs {A} (l : list (string * A)) : NoDup (map fst (dict_of_pairs l)).
Proof. change (dict_of_pairs l) with (dict_update [] l). apply keys_dict_update. constructor. Qed.
Lemma assoc_None {A} n (l : list (string * A)) : assoc n l = None <-> ~ In n (map fst l).
Proof.
  induction l as [|[k v] l IH]; cbn; [naive_solver|]. destruct (String.eqb_spec n k) as [->|Hne]; naive_solver.
Qed.
Lemma in_assoc {A} n (v : A) (l : list (string * A)) : NoDup (map fst l) -> In (n, v) l -> assoc n l = Some v.
Proof.
  induction l as [|[k w] l IH]; [done|]. cbn [map fst]. intros [Hk Hl]%NoDup_cons [[= -> ->]|H]; cbn [assoc].
  - by rewrite String.eqb_refl.
  - destruct (String.eqb_spec n k) as [->|]; [|by apply IH]. destruct Hk. apply list_elem_of_In, in_map_iff. by exists (k, v).
Qed.
(** A dict whose values follow from their keys. *)
Lemma last_value_keyed {A B} (g : A -> string) (f : string -> B) n (l : list A) v :
  last_value n (map (fun x => (g x, f (g x))) l) = Some v <-> v = f n /\ exists x, In x l /\ g x = n.
Proof.
  unfold last_value. split.
  - intros H%assoc_in. apply in_rev, in_map_iff in H as (x & [= <- <-] & Hx). split; [done|]. by exists x.
  - intros (-> & x & Hx & <-).
    destruct (assoc (g x) (rev (map (fun x => (g x, f (g x))) l))) as [v|] eqn:E.
    + apply assoc_in, in_rev, in_map_iff in E as (y & [= Hy <-] & _). by rewrite Hy.
    + apply assoc_None in E as []. rewrite map_rev. apply in_rev. rewrite rev_involutive.
      apply in_map_iff. exists (g x, f (g x)). split; [done|]. apply in_map_iff. by exists x.
Qed.

(** ** What the engine must not have *)

(** The endpoint the platform granted under an id; of a repeated id, the last. *)
Definition granted (catalog : HydratedCatalog) (id : string) : option string :=
  last_value id (map (fun item => (se_id item, se_endpoint item)) (hc_mcp_servers catalog)).
(** The endpoint the memory facade calls: a granted server, or its own. *)
Definition memory_endpoint (params : AchMemoryParams) (catalog : HydratedCatalog) : string :=
  if String.eqb (mem_mcp_server_id params) "" then mem_endpoint params
  else default "" (granted catalog (mem_mcp_server_id params)).
(** The memory server, by its id or by its endpoint up to trailing slashes. *)
Definition is_memory (params : AchMemoryParams) (catalog : HydratedCatalog) (id : string) : Prop :=
  (mem_mcp_server_id params <> "" /\ id = mem_mcp_server_id params)
  \/ exists endpoint, granted catalog id = Some endpoint /\ endpoint <> "" /\ memory_endpoint params catalog <> ""
       /\ rstrip_char "/" endpoint = rstrip_char "/" (memory_endpoint params catalog).
Definition withheld (c : RuntimeConfig) (catalog : HydratedCatalog) (id : string) : Prop :=
  In id (ex_mcp_servers (cap_exclude (rc_capability c)))
  \/ exists params, rc_memory c = Some params /\ is_memory params catalog id.

Lemma servers_granted catalog id : assoc id (servers_of catalog) = granted catalog id.
Proof. apply assoc_dict_of_pairs. Qed.
Lemma equivalent_iff catalog id e :
  In id (equivalent_ids e (servers_of catalog))
  <-> exists endpoint, granted catalog id = Some endpoint /\ endpoint <> "" /\ e <> ""
        /\ rstrip_char "/" endpoint = rstrip_char "/" e.
Proof.
  unfold equivalent_ids. rewrite in_map_iff. setoid_rewrite <- list_elem_of_In. setoid_rewrite list_elem_of_filter.
  unfold _endpoints_equivalent. setoid_rewrite andb_true_iff. setoid_rewrite andb_true_iff. setoid_rewrite truthy_true.
  setoid_rewrite String.eqb_eq. rewrite <- servers_granted. split.
  - intros ([k v] & <- & ((Hv & He) & Heq) & Hin%list_elem_of_In). exists v.
    split_and!; [apply in_assoc; [apply keys_of_pairs|done]|done..].
  - intros (v & Hin & Hv & He & Heq). exists (id, v). split_and!; [done..|]. apply list_elem_of_In. by apply assoc_in.
Qed.
Lemma excluded_iff c catalog id : In id (excluded_servers c catalog) <-> withheld c catalog id.
Proof.
  unfold excluded_servers, withheld, memory_excluded. rewrite in_app_iff.
  destruct (rc_memory c) as [params|]; [|naive_solver].
  assert (In id (excluded_mcp_server_ids (mem_mcp_server_id params) (mem_endpoint params) (servers_of catalog))
          <-> is_memory params catalog id) as ->; [|naive_solver].
  unfold excluded_mcp_server_ids, is_memory, memory_endpoint. rewrite servers_granted.
  destruct (String.eqb_spec (mem_mcp_server_id params) "") as [->|Hne].
  - change (truthy "") with false. cbv iota. destruct (truthy (mem_endpoint params)) eqn:Et.
    + rewrite equivalent_iff. naive_solver.
    + apply truthy_false in Et as ->. naive_solver.
  - rewrite (proj2 (truthy_true _) Hne). cbn [In]. destruct (truthy (default "" _)) eqn:Et.
    + rewrite equivalent_iff. naive_solver.
    + apply truthy_false in Et as ->. naive_solver.
Qed.

Section catalog.
Context (per_million : json -> json) (tools_spec : string).
Abbreviation catalog_for := (_catalog_for per_million tools_spec).
Abbreviation facade_of p := (rstrip_char "/" (cp_facade_endpoint p)).

(** The facades of the Agent itself, under their fixed names. *)
Definition fixed_facades (p : control_parts) : list (string * string) :=
  (if cp_artifact_facade p then [("artifacts", facade_of p +:+ "/artifacts")] else [])
  ++ (if cp_memory_facade p then [("memory", facade_of p +:+ "/memory/memory/")] else [])
  ++ (if cp_progress_facade p then [("progress", facade_of p +:+ "/progress")] else [])
  ++ (if cp_a2a_facade p then [("a2a", facade_of p +:+ "/a2a/a2a/")] else []).
(** The address of a facade: a fixed one, or that of a granted server that is not withheld. *)
Definition facade_entry (p : control_parts) (id url : string) : Prop :=
  assoc id (fixed_facades p) = Some url
  \/ (assoc id (fixed_facades p) = None /\ url = facade_of p +:+ "/mcp/mcp/" +:+ id
      /\ is_Some (granted (cp_catalog p) id) /\ ~ withheld (cp_config p) (cp_catalog p) id).
(** An MCP server as the engine's configuration has it. *)
Definition entry_under (token url : string) : json :=
  JObj [("url", JStr url); ("headers", JObj [(FACADE_TOKEN_HEADER, JStr token)])].

Lemma granted_listed catalog id : is_Some (granted catalog id) <-> exists item, In item (hc_mcp_servers catalog) /\ se_id item = id.
Proof.
  unfold granted, last_value. split.
  - intros [v H%assoc_in]. apply in_rev, in_map_iff in H as (x & [= <- <-] & Hx). by exists x.
  - intros (x & Hx & <-). destruct (assoc _ _) as [v|] eqn:E; [by eexists|]. apply assoc_None in E as [].
    rewrite map_rev. apply in_rev. rewrite rev_involutive. apply in_map_iff. exists (se_id x, se_endpoint x).
    split; [done|]. apply in_map_iff. by exists x.
Qed.
Lemma passed_iff p id url :
  last_value id (map (fun item => (se_id item, server_url (facade_of p) (se_id item)))
    (filter (fun item => in_strs (se_id item) (excluded_servers (cp_config p) (cp_catalog p)) = false) (hc_mcp_servers (cp_catalog p))))
  = Some url
  <-> url = facade_of p +:+ "/mcp/mcp/" +:+ id /\ is_Some (granted (cp_catalog p) id) /\ ~ withheld (cp_config p) (cp_catalog p) id.
Proof.
  rewrite (last_value_keyed se_id (server_url (facade_of p))), granted_listed, <- excluded_iff, <- in_strs_iff, not_true_iff_false.
  setoid_rewrite <- list_elem_of_In. setoid_rewrite list_elem_of_filter. unfold server_url. naive_solver.
Qed.

(** The dict of the servers, entry by entry. *)
Lemma served_iff p token memory_url artifact_url id e :
  memory_url = (if cp_memory_facade p then Some (facade_of p +:+ "/memory/memory/") else None) ->
  artifact_url = (if cp_artifact_facade p then Some (facade_of p +:+ "/artifacts") else None) ->
  forall mcp, assoc "mcp" (public_catalog per_million (cp_catalog p) (cp_provider p) (facade_of p +:+ "/model") token
                 (mcp_urls p) memory_url artifact_url) = Some (JObj mcp) ->
  NoDup (map fst mcp) /\ (assoc id mcp = Some e <-> exists url, e = entry_under token url /\ facade_entry p id url).
Proof.
  intros -> -> mcp. unfold public_catalog.
  set (base := map (fun kv => (fst kv, mcp_entry token (snd kv))) (mcp_urls p)). cbn [assoc String.eqb Ascii.eqb Bool.eqb].
  assert (forall s, truthy (facade_of p +:+ "/" +:+ s) = true) as Ht by (intros s; by destruct (facade_of p)).
  pose proof (Ht "memory/memory/" : truthy (facade_of p +:+ "/memory/memory/") = true) as Ht1.
  pose proof (Ht "artifacts" : truthy (facade_of p +:+ "/artifacts") = true) as Ht2.
  assert (NoDup (map fst base)) as Hk.
  { unfold base. rewrite map_map. cbn [fst]. unfold mcp_urls. cbv zeta.
    destruct (cp_progress_facade p), (cp_a2a_facade p); repeat apply keys_dict_set; apply keys_of_pairs. }
  intros [= <-]. split.
  { destruct (cp_artifact_facade p), (cp_memory_facade p); rewrite ?Ht1, ?Ht2; repeat apply keys_dict_set; exact Hk. }
  unfold facade_entry. setoid_rewrite <- passed_iff. rewrite <- assoc_dict_of_pairs.
  assert (assoc id base = mcp_entry token <$> assoc id (mcp_urls p)) as Hb by apply assoc_map_snd. revert Hb.
  unfold mcp_urls, fixed_facades. cbv zeta.
  destruct (cp_artifact_facade p), (cp_memory_facade p), (cp_progress_facade p), (cp_a2a_facade p);
    rewrite ?Ht1, ?Ht2, ?assoc_set_key; intros Hb; rewrite ?Hb; cbn [app assoc fst snd];
    repeat match goal with |- context [String.eqb id ?k] => destruct (String.eqb_spec id k) as [->|?] end;
    unfold entry_under; fold (facade_headers token); change (JObj [("url", JStr ?u); ("headers", facade_headers token)]) with (mcp_entry token u);
    destruct (assoc _ (dict_of_pairs _)); naive_solver.
Qed.

(** C28. The engine is told facades only.  Its catalog has one provider, at the model facade,
    with no key but the facade token of its own Workspace.  Its MCP servers are, one entry per
    id, exactly the fixed facades that are on and the facade addresses of the servers the
    platform granted and nothing withholds, each under the same token; a server is withheld
    when the capability filter of the configuration excludes its id, when it is the memory
    server, or when its endpoint is the memory server's up to trailing slashes.  And the MCP
    facade routes exactly the granted servers that are not withheld, to their endpoints. *)
Theorem catalog_names_only_facades p name headers ach own :
  let token := facade_token (cp_key p) name in
  let c := catalog_for p name in
  assoc "providers" c = Some (JObj [(cp_provider p, JObj
    [("baseURL", JStr (facade_of p +:+ "/model")); ("apiKey", JStr "local-proxy");
     ("headers", JObj [(FACADE_TOKEN_HEADER, JStr token)]);
     ("models", JObj [(hy_id (hc_model (cp_catalog p)), JObj (present_metadata per_million (hy_metadata (hc_model (cp_catalog p)))))])])])
  /\ (exists mcp, assoc "mcp" c = Some (JObj mcp) /\ NoDup (map fst mcp)
      /\ forall id e, assoc id mcp = Some e <-> exists url, e = entry_under token url /\ facade_entry p id url)
  /\ (forall id url, endpoint_of (assembled_mcp (cp_config p) (cp_catalog p) headers ach own) id = Some url
       <-> ~ withheld (cp_config p) (cp_catalog p) id
           /\ exists endpoint, granted (cp_catalog p) id = Some endpoint /\ url = rstrip_char "/" endpoint).
Proof.
  cbv zeta. split_and!.
  - unfold _catalog_for. by destruct (cp_memory_configured p).
  - pose proof (served_iff p (facade_token (cp_key p) name) _ _ "" JNull eq_refl eq_refl) as Hk.
    pose proof (fun id e => served_iff p (facade_token (cp_key p) name) _ _ id e eq_refl eq_refl) as Hs.
    unfold _catalog_for. eexists. split; [by destruct (cp_memory_configured p)|].
    split; [by apply Hk|]. intros id e. by apply Hs.
  - intros id url. unfold endpoint_of, assembled_mcp. cbn [mp_exclude mp_servers].
    rewrite servers_granted, <- excluded_iff, <- in_strs_iff. destruct (in_strs _ _); [naive_solver|].
    destruct (granted _ id); cbn; naive_solver.
Qed.
End catalog.

(** ** Samples *)

Definition git_server : ServerEntry := {| se_id := "git"; se_endpoint := "https://ach.example/mcp/git" |}.
Definition memory_server : ServerEntry := {| se_id := "mem"; se_endpoint := "https://ach.example/mcp/memory" |}.
Definition memory_alias : ServerEntry := {| se_id := "notes"; se_endpoint := "https://ach.example/mcp/memory/" |}.
Definition sample_catalog : HydratedCatalog :=
  {| hc_environment := "prod"; hc_model := {| hy_id := "gpt"; hy_endpoint := "https://model"; hy_metadata := None |};
     hc_mcp_servers := [git_server; memory_server; memory_alias]; hc_skills := []; hc_prompts := []; hc_artifacts := [];
     hc_a2a_agents := [] |}.
Definition memory_params : AchMemoryParams :=
  {| mem_endpoint := ""; mem_mcp_server_id := "mem"; mem_auth := Some AuthAch; mem_project := "" |}.
Definition remembering : RuntimeConfig :=
  let c := sample_config in
  {| rc_agent := rc_agent c; rc_config_version := rc_config_version c; rc_capability := rc_capability c;
     rc_engine := rc_engine c; rc_limits := rc_limits c; rc_workspace := rc_workspace c;
     rc_artifacts := rc_artifacts c; rc_channels := rc_channels c; rc_prompt := rc_prompt c;
     rc_hooks := rc_hooks c; rc_memory := Some memory_params; rc_facade_endpoint := rc_facade_endpoint c |}.
Definition sample_parts : control_parts :=
  {| cp_config := remembering; cp_key := "k"; cp_catalog := sample_catalog; cp_facade_endpoint := "http://agent:8081/facades";
     cp_provider := "openai"; cp_memory_facade := true; cp_artifact_facade := false; cp_a2a_facade := false;
     cp_progress_facade := false; cp_memory_configured := true |}.

(** Neither the memory server nor its alias with a slash is told to the engine. *)
Example only_git_is_named : mcp_urls sample_parts = [("git", "http://agent:8081/facades/mcp/mcp/git")].
Proof. vm_compute. reflexivity. Qed.
(** The alias of the memory server, with a trailing slash, is withheld with it. *)
Example alias_withheld :
  withheld remembering sample_catalog "notes" /\ ~ withheld remembering sample_catalog "git".
Proof.
  split.
  - right. exists memory_params. split; [done|]. right. exists "https://ach.example/mcp/memory/". by vm_compute.
  - intros [[]|(params & [= <-] & [[_ H]|(endpoint & [= <-] & _ & _ & H)])]; vm_compute in H; done.
Qed.

(** Values are inserted as they are; a placeholder inside one is not expanded. *)
Example prompt_ex :
  _render_prompt "{{ payload.text }}/{{payload.none|default( )}}{{ event | json }}" (JObj []) = Err WorkspaceAssemblyUnavailable
  /\ _render_prompt "{{ payload.text }} {{ payload.list | json }}"
       (JObj [("payload", JObj [("text", JStr "{{ secret }}"); ("list", JList [JInt 1; JNull])])])
     = Ok "{{ secret }} [1, null]".
Proof. split; vm_compute; reflexivity. Qed.
Example slug_ex : normalize_slug " Group/My Repo!" = "group-my-repo" /\ normalize_slug "--" = "".
Proof. split; vm_compute; reflexivity. Qed.
Example advertised_ex :
  advertised_name ["ach-memory.recall"; "ach-memory.sync_retain"] "recall" = "ach-memory.recall"
  /\ advertised_name ["ach-memory.recall"; "ach-memory.sync_retain"] "retain" = "retain".
Proof. split; vm_compute; reflexivity. Qed.

(** A number of the model info that no float holds escapes as an exception. *)
Lemma huge_limit_escapes :
  fetch_model_metadata (fun _ => Some None) (fun _ => Some None)
    (Some (200, Some (JObj [("data", JList [JObj [("model_name", JStr "gpt");
       ("model_info", JObj [("max_input_tokens", JInt (10 ^ 400))])]])]))) "gpt" = Err OverflowError.
Proof. vm_compute. reflexivity. Qed.
