(* ===== verification/Control.v ===== *)
(** * harness/control.py: running an invocation, and whose artifacts it may touch

    The methods of [Control] as programs over the calls they make: the clock, the Workspace
    manager, the delivery, the lifecycle, admission, the maps of the object and HTTP.  The
    record of a finished run (observability/runs.py, metrics.py) and the archive upload
    (harness/transfer.py) are here too.  Log lines and the start-up histogram are left out. *)

From Stdlib Require Import Ascii.
From S2P Require Import Prelude Sha256 PyJson PyLoads Config Public StateRefs Effects Traces Storage Channels Wire Templating Tokens Delivery Facade Catalog.
Local Open Scope Z_scope.

(** The exceptions told apart; [Raised] is what delivery and its callees raise. *)
Inductive cexn :=
  | Raised (x : derr) | WorkspaceOwnerLost | AuthFailed | CValueError | CRuntimeError | InstanceMismatch
  | CReleaseMismatch (instance_id : string).
#[export] Instance cexn_eq_dec : EqDecision cexn.
Proof. solve_decision. Defined.
Abbreviation Unavailable := (Raised Delivery.WorkspaceAssemblyUnavailable).
Abbreviation Cancel := (Raised Delivery.Cancelled).
Definition is_exception (x : cexn) : bool := negb (bool_decide (x = Cancel)).
Definition of_exn (e : exn) : cexn :=
  match e with
  | ValueError => CValueError | RuntimeError => CRuntimeError
  | Prelude.WorkspaceAssemblyUnavailable => Unavailable
  | _ => Raised OtherException
  end.
Definition or_raise {A} (r : result exn A) : result cexn A := match r with Ok a => Ok a | Err e => Err (of_exn e) end.
Definition or_derr {A} (r : result derr A) : result cexn A := match r with Ok a => Ok a | Err e => Err (Raised e) end.

(** ** observability: the record of a run *)

Record RunUsage :=
  { us_source : json; us_input : json; us_output : json; us_reasoning : json; us_cache_read : json;
    us_cache_write : json; us_cost_usd : json; us_steps : json }.
Record RunRecord :=
  { rr_agent : string; rr_environment : string; rr_invocation_id : string; rr_run_id : option string;
    rr_actor : option string; rr_event_id : option string; rr_channel : string; rr_workspace_ref : string;
    rr_session_ref : string; rr_config_version : string; rr_model : string; rr_duration_ms : json;
    rr_outcome : string; rr_usage : option RunUsage }.

Section observe.
(** [value < 0] of a finite or infinite float. *)
Context (float_negative : pyfloat -> bool).
Definition negative (v : json) : bool :=
  match v with JInt z => z <? 0 | JFloat f => float_negative f | _ => false end.
Definition _valid_nonnegative (v : json) : result exn bool :=
  match v with
  | JInt _ | JFloat _ => finite ← isfinite v; Ok (finite && negb (negative v))
  | _ => Ok false
  end.
Fixpoint any_invalid (amounts : list json) : result exn bool :=
  match amounts with
  | [] => Ok false
  | JNull :: amounts => any_invalid amounts
  | v :: amounts => ok ← _valid_nonnegative v; bad ← any_invalid amounts; Ok (negb ok || bad)
  end.
Definition steps_invalid (v : json) : bool :=
  match v with JNull | JBool _ => false | JInt z => z <? 0 | _ => true end.
(** [observe(record)]: whether it alarms [usage_invalid]. *)
Definition observe (r : RunRecord) : result exn bool :=
  if String.eqb (rr_outcome r) "skipped" then Ok false else
  bad_usage ← match rr_usage r with
              | None => Ok false
              | Some u =>
                  bad ← any_invalid [us_input u; us_output u; us_reasoning u; us_cache_read u; us_cache_write u; us_cost_usd u];
                  Ok (bad || steps_invalid (us_steps u))
              end;
  bad_duration ← any_invalid [rr_duration_ms r];
  Ok (bad_usage || bad_duration).
End observe.

(** ** Calls *)

(** What alarms and records name. *)
Record subject := { sub_invocation : string; sub_workspace : option string; sub_session : option string }.
Record recovered_run :=
  { rv_invocation_id : string; rv_workspace_ref : string; rv_session_ref : string; rv_instance_id : string;
    rv_deadline_at : Z }.
(** An answer of the mini-harness: its status, its instance header, its body unless invalid. *)
Record mini_response := { mr_status : Z; mr_instance : option string; mr_body : option json }.

Inductive ccall :=
  | KClock                                                     (* _clock() *)
  | KMono                                                      (* time.monotonic() *)
  | KSleep (d : Z)
  | KAlarm (kind : string) (about : subject)
  | KRecord (r : RunRecord)                                    (* the log line and counters of record_run *)
  | KActive (w : string)                                       (* manager.active_endpoint(w) *)
  | KActives                                                   (* manager.active_endpoints().values() *)
  | KHooks                                                     (* _hook_endpoints.values() *)
  | KLost (instance_id : string)                               (* manager.is_lost(i) *)
  | KReportLost (e : WorkspaceEndpoint)
  | KWaitAdopted (timeout : Z)
  | KDeliver (t : AdmissionTicket)                             (* delivery.start(t) *)
  | KStatus (e : WorkspaceEndpoint) (invocation_id : string)   (* wait_for(delivery.status, 5) *)
  | KCancel (e : WorkspaceEndpoint) (r : CancelRequest)
  | KListRuns (e : WorkspaceEndpoint)
  | KMarkStarted (invocation_id : string)                      (* ticket.mark_started() *)
  | KScript (s : ScriptBlock) (ev : Event) (deadline_at : Z)   (* run_webhook_script *)
  | KPrepared (invocation_id : string)                         (* _prepared.get *)
  | KSetPrepared (invocation_id : string) (e : WorkspaceEndpoint) (r : StartRequest)
  | KPopPrepared (invocation_id : string) | KPopStarted (invocation_id : string)
  | KSetStarted (invocation_id run_id : string)
  | KRecovered (invocation_id : string)                        (* admission.recovered_run *)
  | KRecover (s : RunStatus) (instance_id : string)            (* admission.recover, observed by _observe_run *)
  | KEmitters (invocation_id : string)                         (* how many emitters of progress *)
  | KEmit (invocation_id : string) (n : nat) (message : string)
  | KMini (e : WorkspaceEndpoint) (method path : string) (payload : option json) (timeout : Z)
  | KHealth (base_url name : string) (timeout : Z)
  | KHookSet (key : string) (e : WorkspaceEndpoint) | KHookPop (key : string)
  | KCurrentWriter (r : StateRef) | KRestoreWorkspace (e : WorkspaceEndpoint)
  | KRestoreSession (t : AdmissionTicket) (e : WorkspaceEndpoint)
  | KStageContext                                              (* stage_context and pack *)
  | KRunHandoff (h : HandoffBlock)                             (* run_handoff and pack *)
  | KPut (e : WorkspaceEndpoint) (path : string) (params : list (string * string))
  | KMemory                                                    (* prepare_ach_memory *)
  | KClose (part : string).
Definition cans (c : ccall) : Type :=
  match c with
  | KClock | KMono => Z
  | KSleep _ => bool                                           (* cancelled *)
  | KAlarm _ _ | KRecord _ | KReportLost _ | KMarkStarted _ | KSetPrepared _ _ _ | KPopPrepared _ | KPopStarted _
  | KSetStarted _ _ | KHookSet _ _ | KHookPop _ => unit
  | KActive _ => option WorkspaceEndpoint
  | KActives | KHooks => list WorkspaceEndpoint
  | KLost _ => bool
  | KDeliver _ => result derr Started
  | KStatus _ _ => result derr RunStatus
  | KListRuns _ => result derr (list RunStatus)
  | KCancel _ _ => result derr unit
  | KScript _ _ _ | KWaitAdopted _ | KRecover _ _ | KEmit _ _ _ | KRestoreWorkspace _ | KRestoreSession _ _
  | KStageContext | KRunHandoff _ | KClose _ => result cexn unit
  | KPrepared _ => option (WorkspaceEndpoint * option StartRequest)  (* None inside: no StartRequest *)
  | KRecovered _ => option recovered_run
  | KEmitters _ => nat
  | KMini _ _ _ _ _ | KHealth _ _ _ | KPut _ _ _ => result derr mini_response
  | KCurrentWriter _ => result cexn (option string)
  | KMemory => bool * string
  end.
Abbreviation cprog := (prog cans cexn).
Definition raised {A} (p : cprog (result cexn A)) : cprog A := p ≫= lift.
Definition ask_derr {A} (p : cprog (result derr A)) : cprog A := p ≫= (fun r => lift (or_derr r)).
(** [await asyncio.sleep(d)] *)
Definition sleep (d : Z) : cprog unit := cancelled ← call (KSleep d); if cancelled : bool then throw Cancel else mret tt.

Definition known_reasons : list (string * string) :=
  [("admission queue capacity rejected", "limit_reached"); ("rate limit rejected", "limit_reached");
   ("deadline exceeded while queued", "limit_reached"); ("deadline exceeded before permit wait", "limit_reached");
   ("deadline exceeded while waiting for script permits", "limit_reached");
   ("deadline exceeded immediately before script spawn", "limit_reached");
   ("deadline exceeded while waiting for permits", "limit_reached");
   ("deadline exceeded immediately before delivery", "limit_reached");
   ("invocation deadline exceeded", "limit_reached"); ("deadline cancellation was not confirmed", "limit_reached");
   ("recovered Started outcome is unknown", "start_outcome_unknown"); ("run start failed", "start_failed");
   ("webhook script runner failed", "start_failed");
   ("Workspace owner is not published; run ownership remains held", "run_outcome_unknown");
   ("Workspace owner was lost; run outcome is unknown", "run_outcome_unknown");
   ("run observation is unavailable; ownership remains held", "run_outcome_unknown");
   ("gateway_unavailable", "gateway_unavailable"); ("Harness lifecycle tick failed", "lifecycle_tick_failed");
   ("Harness Workspace persistence failed", "persistence_failed");
   ("Harness session persistence failed", "persistence_failed"); ("Harness suspend hook failed", "suspend_hook_failed")].
Definition alarm_kind (reason : string) : string :=
  if starts_with "recovered run observation failed:" reason then "run_outcome_unknown"
  else from_option id "run_outcome_unknown" (assoc reason known_reasons).
Definition _alarm (reason : string) (about : subject) : cprog unit := call (KAlarm (alarm_kind reason) about).

Section control.
Context (parts : control_parts) (public : PublicConfig) (model : string) (priced : bool) (environment : string).
Abbreviation config := (cp_config parts).
Abbreviation key := (cp_key parts).
Context (float_negative : pyfloat -> bool).

(** ** Observing a run *)

(** What is observed: the request that started it here, or the run another process started. *)
Inductive observed := OfRequest (r : StartRequest) | OfStatus (s : RunStatus).
Definition ob_invocation_id (x : observed) : string := match x with OfRequest r => sr_invocation_id r | OfStatus s => rs_invocation_id s end.
Definition ob_channel (x : observed) : string := match x with OfRequest r => sr_channel r | OfStatus s => rs_channel s end.
Definition ob_workspace_ref (x : observed) : string := match x with OfRequest r => rq_workspace_ref r | OfStatus s => rs_workspace_ref s end.
Definition ob_session_ref (x : observed) : string := match x with OfRequest r => rq_session_ref r | OfStatus s => rs_session_ref s end.
Definition ob_config_version (x : observed) : string := match x with OfRequest r => sr_config_version r | OfStatus s => rs_config_version s end.
Definition ob_deadline_at (x : observed) : Z := match x with OfRequest r => sr_deadline_at r | OfStatus s => rs_deadline_at s end.
Definition ob_run_id (x : observed) : option string := match x with OfRequest _ => None | OfStatus s => rs_run_id s end.
Definition _validate_status (status : RunStatus) (expected : observed) : result derr unit :=
  match expected with OfRequest r => status_of_request status r | OfStatus s => status_of_status status s end.
Definition terminal (s : RunState) : bool := match s with Wire.Completed | Wire.Failed | Wire.Cancelled | Wire.Skipped => true | _ => false end.
Definition about (x : observed) : subject :=
  {| sub_invocation := ob_invocation_id x; sub_workspace := Some (ob_workspace_ref x); sub_session := Some (ob_session_ref x) |}.

(** [_record_run]: what is reported of the run. *)
Definition member_of (j : json) (k : string) : json := match j with JObj d => from_option id JNull (assoc k d) | _ => JNull end.
Definition duration_of (reporting : json) : json :=
  match member_of reporting "duration_ms" with
  | JInt z => if z <? 0 then JNull else JInt z
  | JFloat f => if float_negative f then JNull else JFloat f
  | _ => JNull
  end.
Definition usage_of (reporting : json) : option RunUsage :=
  match member_of reporting "usage" with
  | JObj u =>
      let get := member_of (JObj u) in
      if (json_eqb (get "source") (JStr "opencode") || json_eqb (get "source") (JStr "pi"))
         && json_eqb (get "basis") (JStr "engine_estimate")
      then Some {| us_source := get "source"; us_input := get "input"; us_output := get "output";
                   us_reasoning := get "reasoning"; us_cache_read := get "cache_read"; us_cache_write := get "cache_write";
                   us_cost_usd := if priced then get "cost_usd" else JNull; us_steps := get "steps" |}
      else None
  | _ => None
  end.
Definition run_record (x : observed) (status : option RunStatus) (started : option string) (ev : option Event)
    (outcome : option string) : RunRecord :=
  let reporting := match status with Some s => member_of (rs_result s) "reporting" | None => JNull end in
  {| rr_agent := agent_name (rc_agent config); rr_environment := environment;
     rr_invocation_id := ob_invocation_id x;
     rr_run_id := match status with
                  | Some s => rs_run_id s
                  | None => match started with
                            | Some i => if truthy i then Some i else ob_run_id x
                            | None => ob_run_id x
                            end
                  end;
     rr_actor := ev_actor <$> ev; rr_event_id := ev_id <$> ev; rr_channel := ob_channel x;
     rr_workspace_ref := ob_workspace_ref x; rr_session_ref := ob_session_ref x;
     rr_config_version := ob_config_version x; rr_model := model;
     rr_duration_ms := duration_of reporting;
     rr_outcome := match outcome, status with
                   | Some o, _ => o
                   | None, Some s => run_state_str (rs_state s)
                   | None, None => "unknown"
                   end;
     rr_usage := usage_of reporting |}.
Definition record_run (r : RunRecord) (sub : subject) : cprog unit :=
  _ ← call (KRecord r);
  invalid ← lift (or_raise (observe float_negative r));
  if (invalid : bool) then call (KAlarm "usage_invalid" sub) else mret tt.
Definition _record_run (x : observed) (status : option RunStatus) (started : option string) (ev : option Event)
    (outcome : option string) : cprog unit :=
  record_run (run_record x status started ev outcome) (about x).

Definition _WATCH_FAST_SECONDS : Z := 5000000.
Record watch_state :=
  { w_cancel_sent : bool; w_warned : bool; w_warned_owner : bool; w_delay : Z; w_last : option RunState }.
Definition watch_start : watch_state :=
  {| w_cancel_sent := false; w_warned := false; w_warned_owner := false; w_delay := 250000; w_last := None |}.
Definition set_cancel_sent s := {| w_cancel_sent := true; w_warned := w_warned s; w_warned_owner := w_warned_owner s;
  w_delay := w_delay s; w_last := w_last s |}.
Definition set_warned s := {| w_cancel_sent := w_cancel_sent s; w_warned := true; w_warned_owner := w_warned_owner s;
  w_delay := w_delay s; w_last := w_last s |}.
Definition set_warned_owner s := {| w_cancel_sent := w_cancel_sent s; w_warned := w_warned s; w_warned_owner := true;
  w_delay := w_delay s; w_last := w_last s |}.
Definition set_pace d l s := {| w_cancel_sent := w_cancel_sent s; w_warned := w_warned s; w_warned_owner := w_warned_owner s;
  w_delay := d; w_last := l |}.

Section observing.
Context (e : WorkspaceEndpoint) (x : observed) (started : option string) (ev : option Event).
Let id := ob_invocation_id x.
Definition forget_run : cprog unit := _ ← call (KPopPrepared id); call (KPopStarted id).
(** [check_published_owner()], with the flag it keeps. *)
Definition check_published_owner (s : watch_state) : cprog (bool * watch_state) :=
  current ← call (KActive (wr_workspace_ref (we_ref e)));
  lost ← call (KLost (we_instance_id e));
  if lost || match current with Some c => negb (String.eqb (we_instance_id c) (we_instance_id e)) | None => false end then
    _ ← forget_run;
    _ ← _alarm "Workspace owner was lost; run outcome is unknown" (about x);
    _ ← _record_run x None started ev (Some "unknown");
    throw WorkspaceOwnerLost
  else match current with
  | Some _ => mret (true, s)
  | None =>
      if w_warned_owner s then mret (false, s) else
      _ ← _alarm "Workspace owner is not published; run ownership remains held" (about x);
      mret (false, set_warned_owner s)
  end.
Definition cancel_if_due (s : watch_state) : cprog watch_state :=
  now ← call KClock;
  if (ob_deadline_at x <=? now) && negb (w_cancel_sent s) then
    _ ← _alarm "invocation deadline exceeded" (about x);
    r ← call (KCancel e {| cq_invocation_id := id; cq_reason := "invocation deadline exceeded" |});
    match r with
    | Err Delivery.Cancelled => throw Cancel
    | _ => mret (set_cancel_sent s)
    end
  else mret s.
(** How one look at the run ends: it finished, its owner is not published, or it goes on. *)
Inductive look := Finished (r : RunStatus) | Unpublished (s : watch_state) | GoesOn (s : watch_state).
Definition next_pace (fast_until : Z) (state : RunState) (s : watch_state) : cprog watch_state :=
  if bool_decide (w_last s = Some state) then
    now ← call KClock;
    mret (if fast_until <=? now then set_pace (Z.min (w_delay s * 2) 1000000) (w_last s) s else s)
  else mret (set_pace 250000 (Some state) s).
Definition look_at_run (fast_until : Z) (s : watch_state) : cprog look :=
  status ← ask_derr (call (KStatus e id));
  _ ← lift (or_derr (_validate_status status x));
  if match started with Some i => negb (bool_decide (rs_run_id status = Some i)) | None => false end
  then throw (Raised Delivery.DeliveryError)
  else if terminal (rs_state status) then
    _ ← forget_run;
    _ ← _record_run x (Some status) started ev None;
    mret (Finished status)
  else
    '(published, s) ← check_published_owner s;
    if negb published then _ ← sleep 250000; mret (Unpublished s)
    else if bool_decide (rs_state status = Wire.Unknown) then throw (Raised Delivery.DeliveryError)
    else s ← next_pace fast_until (rs_state status) s; mret (GoesOn s).
Definition guarded_look (fast_until : Z) (s : watch_state) : cprog look :=
  catch (look_at_run fast_until s) (fun y =>
    if bool_decide (y = WorkspaceOwnerLost) || negb (is_exception y) then throw y else
    if w_warned s then mret (GoesOn s) else
    _ ← _alarm "run observation is unavailable; ownership remains held" (about x);
    mret (GoesOn (set_warned s))).
Definition pause_of (s : watch_state) : cprog Z :=
  if w_cancel_sent s then mret (w_delay s) else
  now ← call KClock; mret (Z.max 0 (Z.min (w_delay s) (ob_deadline_at x - now))).
(** The loop; [fuel] bounds its iterations. *)
Fixpoint observe_loop (fuel : nat) (fast_until : Z) (s : watch_state) : cprog RunStatus :=
  match fuel with
  | O => throw (Raised Delivery.OutOfFuel)
  | S fuel =>
      s ← cancel_if_due s;
      '(published, s) ← check_published_owner s;
      if negb published then _ ← sleep 250000; observe_loop fuel fast_until s else
      l ← guarded_look fast_until s;
      match l with
      | Finished status => mret status
      | Unpublished s => observe_loop fuel fast_until s
      | GoesOn s => pause ← pause_of s; _ ← sleep pause; observe_loop fuel fast_until s
      end
  end.
Definition _observe_run (fuel : nat) : cprog RunStatus :=
  now ← call KClock; observe_loop fuel (now + _WATCH_FAST_SECONDS) watch_start.
End observing.

(** ** Running an admitted invocation *)

(** The ticket of an agent invocation or of a script's, with the event admission retained. *)
Inductive ticket :=
  | AgentTicket (t : AdmissionTicket)
  | ScriptTicket (invocation_id : string) (deadline_at : Z).
Inductive retained := RoutedRetained (r : RoutedEvent) | EventRetained (v : Event).
Definition ticket_subject (t : AdmissionTicket) : subject :=
  {| sub_invocation := at_invocation_id t; sub_workspace := Some (at_workspace_ref t); sub_session := Some (at_session_ref t) |}.
Definition channel_named (name : string) : option ChannelConfig :=
  List.find (fun c => String.eqb (ch_name c) name) (rc_channels config).
(** [Delivery.start] and what [run] makes of its failures; [None]: sent, outcome unknown. *)
Definition run_start (t : AdmissionTicket) : cprog (option Started) :=
  let failed (x : derr) : cprog (option Started) := _ ← call (KPopPrepared (at_invocation_id t)); throw (Raised x) in
  r ← call (KDeliver t);
  match r with
  | Ok started => mret (Some started)
  | Err StartOutcomeUnknown => mret None
  | Err Delivery.Cancelled => throw Cancel
  | Err GatewayUnavailable => _ ← _alarm "gateway_unavailable" (ticket_subject t); failed GatewayUnavailable
  | Err x =>
      now ← (if bool_decide (x = TimedOut) then Some <$> call KClock else mret None);
      _ ← _alarm (if (match now with Some n => at_deadline_at t <=? n | None => false end)
                  then "invocation deadline exceeded" else "run start failed") (ticket_subject t);
      failed x
  end.
Definition run_agent (fuel : nat) (r : RoutedEvent) (t : AdmissionTicket) : cprog RunStatus :=
  started ← run_start t;
  prepared ← call (KPrepared (at_invocation_id t));
  match prepared with
  | None => throw Unavailable
  | Some (e, request) =>
      _ ← match started with
          | Some s => _ ← call (KMarkStarted (at_invocation_id t)); call (KSetStarted (at_invocation_id t) (sd_run_id s))
          | None => mret tt
          end;
      match request with
      | None => throw Unavailable
      | Some request => _observe_run e (OfRequest request) (sd_run_id <$> started) (Some (re_event r)) fuel
      end
  end.
Definition run_script (v : Event) (invocation_id : string) (deadline_at : Z) : cprog unit :=
  match channel_named (ev_channel v) with
  | Some c =>
      match ch_type c, ch_script c with
      | CT_webhook_script, Some script => raised (call (KScript script v deadline_at))
      | _, _ => throw Unavailable
      end
  | None => throw Unavailable
  end.
Definition run (fuel : nat) (v : retained) (t : ticket) : cprog (option RunStatus) :=
  match t, v with
  | ScriptTicket id deadline, EventRetained v => _ ← run_script v id deadline; mret None
  | ScriptTicket _ _, _ => throw Unavailable
  | AgentTicket t, RoutedRetained r => Some <$> run_agent fuel r t
  | AgentTicket _, _ => throw Unavailable
  end.

(** ** Ownership of facade calls *)

Fixpoint owned_among (claim : string) (endpoints : list WorkspaceEndpoint) : cprog bool :=
  match endpoints with
  | [] => mret false
  | e :: endpoints =>
      if negb (String.eqb (we_name e) claim) then owned_among claim endpoints else
      lost ← call (KLost (we_instance_id e));
      if (lost : bool) then owned_among claim endpoints else mret true
  end.
Definition _owned_now (claim : string) : cprog bool :=
  actives ← call KActives; hooks ← call KHooks; owned_among claim (actives ++ hooks).
Definition _ADOPTION_WAIT_SECONDS : Z := 30000000.
Definition _owned_live (claim : string) : cprog bool :=
  owned ← _owned_now claim;
  if (owned : bool) then mret true else
  _ ← raised (call (KWaitAdopted _ADOPTION_WAIT_SECONDS)); _owned_now claim.
(** [authenticate_facade(self.key, token, owned_workspace=self._owned_live)] *)
Definition authenticate (token : string) : cprog string :=
  match verify_facade_token key token with
  | None => throw AuthFailed
  | Some claim => owned ← _owned_live claim; if (owned : bool) then mret claim else throw AuthFailed
  end.

Record ArtifactGrant :=
  { ag_owner : StateRef; ag_session_ref : string; ag_invocation_id : string; ag_workspace_name : string }.
(** The run is this Workspace's, prepared here for this very pod, and its time is not over. *)
Definition prepared_matches (id : string) (e pe : WorkspaceEndpoint) (r : StartRequest) : bool :=
  String.eqb (sr_invocation_id r) id && String.eqb (rq_workspace_ref r) (wr_workspace_ref (we_ref e))
  && bool_decide (we_ref pe = we_ref e) && String.eqb (we_name pe) (we_name e)
  && String.eqb (we_instance_id pe) (we_instance_id e).
Definition recovered_matches (id : string) (e : WorkspaceEndpoint) (r : recovered_run) : bool :=
  String.eqb (rv_invocation_id r) id && String.eqb (rv_workspace_ref r) (wr_workspace_ref (we_ref e))
  && String.eqb (rv_instance_id r) (we_instance_id e).
Definition in_time (matches : bool) (deadline_at : Z) : cprog unit :=
  if negb matches then throw AuthFailed else
  now ← call KClock; if deadline_at <=? now then throw AuthFailed else mret tt.
Definition run_session (id : string) (e : WorkspaceEndpoint) : cprog string :=
  prepared ← call (KPrepared id);
  match prepared with
  | Some (pe, Some r) => _ ← in_time (prepared_matches id e pe r) (sr_deadline_at r); mret (rq_session_ref r)
  | Some (_, None) => throw (Raised OtherException)
  | None =>
      recovered ← call (KRecovered id);
      match recovered with
      | None => throw AuthFailed
      | Some r => _ ← in_time (recovered_matches id e r) (rv_deadline_at r); mret (rv_session_ref r)
      end
  end.
Definition artifact_operations (token id : string) : cprog ArtifactGrant :=
  claim ← authenticate token;
  actives ← call KActives;
  match List.find (fun e => String.eqb (we_name e) claim) actives with
  | None => throw AuthFailed
  | Some e =>
      session ← run_session id e;
      owner ← lift (or_raise (new_StateRef (fun _ => Err ValueError) (LiveInput (rc_agent config))
                                (wr_workspace_ref (we_ref e)) DOMAIN_WORKSPACE None));
      mret {| ag_owner := owner; ag_session_ref := session; ag_invocation_id := id; ag_workspace_name := claim |}
  end.
(** [inform_user]: every emitter of the run, in order. *)
Fixpoint emit_all (id : string) (n total : nat) (message : string) : cprog unit :=
  match total with
  | O => mret tt
  | S total => _ ← raised (call (KEmit id n message)); emit_all id (S n) total message
  end.
Definition inform_user (token id message : string) : cprog bool :=
  claim ← authenticate token;
  prepared ← call (KPrepared id);
  match prepared with
  | None => mret false
  | Some (e, _) =>
      if negb (String.eqb (we_name e) claim) then throw AuthFailed else
      total ← call (KEmitters id);
      _ ← emit_all id 0 total message;
      mret (negb (Nat.eqb total 0))
  end.

(** ** Requests to the mini-harness *)

Definition instance_is (r : mini_response) (e : WorkspaceEndpoint) : bool :=
  bool_decide (mr_instance r = Some (we_instance_id e)).
Definition instance_moved (r : mini_response) (e : WorkspaceEndpoint) : bool :=
  match mr_instance r with Some i => negb (String.eqb i (we_instance_id e)) | None => false end.
Definition report_moved (r : mini_response) (e : WorkspaceEndpoint) : cprog unit :=
  if instance_moved r e then call (KReportLost e) else mret tt.
(** [httpx.HTTPError] or [TimeoutError]. *)
Definition http_failed (x : derr) : bool := match x with ConnectFailed | TransportError | TimedOut => true | _ => false end.
Definition _mini_json (e : WorkspaceEndpoint) (method path : string) (payload : option json) (timeout : Z) : cprog (Z * json) :=
  r ← call (KMini e method path payload timeout);
  match r with
  | Err x => throw (if http_failed x then Unavailable else Raised x)
  | Ok r =>
      if negb (instance_is r e) then _ ← report_moved r e; throw Unavailable else
      match mr_body r with None => throw Unavailable | Some body => mret (mr_status r, body) end
  end.
(** [put_archive] (harness/transfer.py), its body streamed. *)
Definition put_archive (e : WorkspaceEndpoint) (path : string) (params : list (string * string)) : cprog (list (string * json)) :=
  r ← ask_derr (call (KPut e path params));
  if instance_moved r e then _ ← call (KReportLost e); throw InstanceMismatch
  else match mr_instance r with
  | None => throw CRuntimeError
  | Some _ =>
      if negb ((200 <=? mr_status r) && (mr_status r <=? 299)) then throw (Raised OtherException) else
      match mr_body r with Some (JObj d) => mret d | _ => throw CRuntimeError end
  end.

Definition _HEALTH_POLL_INTERVAL : Z := 100000.
Definition _HEALTH_RETRYABLE_STATUSES : list Z := [408; 429; 500; 502; 503; 504].
Definition retryable (r : result derr mini_response) : bool :=
  match r with
  | Err x => http_failed x
  | Ok r => existsb (Z.eqb (mr_status r)) _HEALTH_RETRYABLE_STATUSES
  end.
Definition check_health (version : string) (r : mini_response) : result cexn string :=
  let instance_id := from_option id "" (mr_instance r) in
  if negb (mr_status r =? 200) || negb (truthy instance_id) then Err Unavailable else
  let release := match mr_body r with Some (JObj d) => from_option id JNull (assoc "release" d) | _ => JNull end in
  if json_eqb release (JStr version) then Ok instance_id else Err (CReleaseMismatch instance_id).
Fixpoint wait_mini_health (fuel : nat) (version base_url name : string) (deadline : Z) : cprog string :=
  match fuel with
  | O => throw (Raised Delivery.OutOfFuel)
  | S fuel =>
      now ← call KMono;
      if deadline - now <=? 0 then throw Unavailable else
      r ← call (KHealth base_url name (Z.min 10000000 (deadline - now)));
      if retryable r then
        now ← call KMono;
        _ ← sleep (Z.min _HEALTH_POLL_INTERVAL (Z.max 0 (deadline - now)));
        wait_mini_health fuel version base_url name deadline
      else r ← lift (or_derr r); lift (check_health version r)
  end.

(** ** Preparing a Workspace and a run *)

Section preparing.
(** [model_dump], the rounding of costs, and the texts. *)
Context (model_dump : PublicConfig -> list (string * json)) (stall_set : bool) (per_million : json -> json)
        (tools_spec output_text progress_text : string).
Context (container_repr : json -> string).

Definition configure_payload (e : WorkspaceEndpoint) : json :=
  JObj [("public", _public_wire model_dump stall_set public);
        ("catalog", JObj (_catalog_for per_million tools_spec parts (we_name e)))].
Definition configure_workspace (e : WorkspaceEndpoint) : cprog unit :=
  '(status, body) ← _mini_json e "POST" "/configure" (Some (configure_payload e)) 10000000;
  if negb (status =? 200) || negb (json_eqb body (JObj [("configVersion", JStr (pc_config_version public))]))
  then throw Unavailable else
  '(status, _) ← _mini_json e "GET" "/readyz" None 10000000;
  if negb (status =? 200) then throw Unavailable else mret tt.
(** [try: p finally: q] *)
Definition finally {A} (p : cprog A) (q : cprog unit) : cprog A :=
  r ← attempt p; _ ← q; lift r.
(** [phase]: [true] is the start hook. *)
Definition run_workspace_hook (start : bool) (restored : bool) (e : WorkspaceEndpoint) : cprog unit :=
  match (if start then workspace_start (rc_hooks config) else workspace_stop (rc_hooks config)) with
  | None => mret tt
  | Some hook =>
      let k := wr_workspace_ref (we_ref e) in
      _ ← call (KHookSet k e);
      '(status, _) ← finally
        (_ ← (if start then configure_workspace e else mret tt);
         _mini_json e "POST" ("/workspace/hooks/" +:+ (if start then "start" else "stop"))
           (if start then Some (JObj [("restored", JBool restored)]) else None)
           ((hook_timeout_seconds hook + 10) * 1000000))
        (call (KHookPop k));
      if negb (status =? 200) then throw Unavailable else mret tt
  end.

(** The records of the inventory are this Workspace's, each run once. *)
Fixpoint inventory_ok (e : WorkspaceEndpoint) (seen : list string) (records : list RunStatus) : bool :=
  match records with
  | [] => true
  | r :: records =>
      String.eqb (rs_workspace_ref r) (wr_workspace_ref (we_ref e)) && negb (in_strs (rs_invocation_id r) seen)
      && inventory_ok e (rs_invocation_id r :: seen) records
  end.
Fixpoint recover_all (e : WorkspaceEndpoint) (records : list RunStatus) : cprog unit :=
  match records with
  | [] => mret tt
  | r :: records =>
      if terminal (rs_state r) then recover_all e records else
      got ← call (KRecover r (we_instance_id e));
      match got with
      | Ok _ => recover_all e records
      | Err y => throw (if bool_decide (y = CValueError \/ y = CRuntimeError) then Unavailable else y)
      end
  end.
(** A pod recreated while nobody watched is restored as a fresh one. *)
Definition restore_if_moved (e : WorkspaceEndpoint) : cprog unit :=
  match per_type (ws_persistence (rc_workspace config)) with
  | P_s3 =>
      owner ← lift (or_raise (new_StateRef (fun _ => Err ValueError) (LiveInput (rc_agent config))
                                (wr_workspace_ref (we_ref e)) DOMAIN_WORKSPACE None));
      writer ← raised (call (KCurrentWriter owner));
      match writer with
      | Some w => if String.eqb w (we_instance_id e) then mret tt else raised (call (KRestoreWorkspace e))
      | None => mret tt
      end
  | _ => mret tt
  end.
Definition reconnect_workspace (e : WorkspaceEndpoint) : cprog unit :=
  _ ← restore_if_moved e;
  _ ← configure_workspace e;
  records ← call (KListRuns e);
  match records with
  | Err x => throw (if bool_decide (x = Delivery.Cancelled) then Cancel else Unavailable)
  | Ok records =>
      if negb (inventory_ok e [] records) then throw Unavailable else recover_all e records
  end.

(** [stage_context], [run_handoff] and [pack] are calls; what they pack is streamed. *)
Definition imported (answer : list (string * json)) : bool :=
  json_eqb (from_option id JNull (assoc "status" answer)) (JStr "imported").
Definition _transfer_context (t : AdmissionTicket) (e : WorkspaceEndpoint) : cprog unit :=
  _ ← raised (call KStageContext);
  answer ← put_archive e "/execution/v1/sandbox/archive/hydration" [("session_ref", at_session_ref t)];
  if imported answer && json_eqb (from_option id JNull (assoc "sessionRef" answer)) (JStr (at_session_ref t))
  then mret tt else throw Unavailable.
Definition _run_handoff (h : HandoffBlock) (e : WorkspaceEndpoint) : cprog unit :=
  _ ← raised (call (KRunHandoff h));
  answer ← put_archive e "/execution/v1/workspace/handoff" [("destination", ho_destination h)];
  if imported answer then mret tt else throw Unavailable.

Definition channel_type_str (t : channel_type) : string :=
  match t with
  | CT_webhook => "webhook" | CT_webhook_script => "webhook-script" | CT_cron => "cron" | CT_queue => "queue" | CT_a2a => "a2a"
  end.
Definition webhook_source_str (s : webhook_source) : string :=
  match s with WS_gitlab => "gitlab" | WS_github => "github" | WS_generic => "generic" end.
Definition prompt_context (c : ChannelConfig) (r : RoutedEvent) : json :=
  let ev := re_event r in
  JObj [("payload", JObj (ev_payload ev));
        ("event", JObj (dict_update [("id", JStr (ev_id ev)); ("channel", JStr (ev_channel ev)); ("type", JStr (ev_type ev))]
                          (ev_context ev)));
        ("internal", JObj
          [("channel", JObj [("name", JStr (ch_name c)); ("type", JStr (channel_type_str (ch_type c)));
                             ("source", JStr (from_option webhook_source_str "" (ch_source c)))]);
           ("agent", JObj [("name", JStr (agent_name (rc_agent config)))]);
           ("event", JObj [("id", JStr (ev_id ev))]);
           ("session", JObj [("key", JStr (re_session_key r))]);
           ("memory", JObj [("bank", JStr "")])])].
Definition default_prompt (payload : list (string * json)) : string :=
  let text := pget payload "text" in
  if json_truthy text then py_str container_repr text else dumps_spaced (sort_keys (JObj payload)).
Definition user_prompt (c : ChannelConfig) (r : RoutedEvent) : result exn string :=
  let payload := ev_payload (re_event r) in
  match ch_prompt c with
  | Some template => if truthy template then _render_prompt template (prompt_context c r) else Ok (default_prompt payload)
  | None => Ok (default_prompt payload)
  end.
Definition is_a2a (c : ChannelConfig) : bool := bool_decide (ch_type c = CT_a2a).
Definition paragraph (prompt section : string) : string := prompt +:+ newline +:+ newline +:+ section.
Definition _prepare (r : RoutedEvent) (t : AdmissionTicket) (e : WorkspaceEndpoint) : cprog StartRequest :=
  _ ← raised (call (KRestoreSession t e));
  _ ← configure_workspace e;
  match channel_named (re_channel r) with
  | None => throw Unavailable
  | Some c =>
      let catalog := cp_catalog parts in
      _ ← (if existsb (fun item => truthy (ci_download_url item)) (hc_skills catalog ++ hc_prompts catalog ++ hc_artifacts catalog)
           then _transfer_context t e else mret tt);
      _ ← match ch_handoff c with Some h => _run_handoff h e | None => mret tt end;
      prompt ← lift (or_raise (user_prompt c r));
      '(memory_available, prompt) ←
        (if cp_memory_configured parts
         then '(available, section) ← call KMemory; mret (Some available, paragraph prompt section)
         else mret (None, prompt));
      let prompt := if is_a2a c && cp_progress_facade parts then paragraph prompt progress_text else prompt in
      let prompt := if is_a2a c then paragraph prompt output_text else prompt in
      let request := {| sr_invocation_id := at_invocation_id t; sr_channel := re_channel r;
                        rq_workspace_ref := at_workspace_ref t; rq_session_ref := at_session_ref t;
                        sr_workspace_key := re_workspace_key r; sr_session_key := re_session_key r;
                        sr_config_version := pc_config_version public; sr_prompt := prompt;
                        sr_deadline_at := at_deadline_at t; sr_memory_available := memory_available;
                        sr_inform_user := is_a2a c && cp_progress_facade parts |} in
      if negb (StartRequest_ok request) then throw CValueError else
      _ ← call (KSetPrepared (at_invocation_id t) e request);
      mret request
  end.
End preparing.

(** ** Closing *)

(** Every closer runs; the first error is raised. *)
Fixpoint close_all (closers : list string) (error : option cexn) : cprog unit :=
  match closers with
  | [] => match error with Some y => throw y | None => mret tt end
  | c :: closers =>
      r ← call (KClose c);
      close_all closers (match error, r with None, Err y => Some y | _, _ => error end)
  end.
Definition close (has_ach_key : bool) (facade_clients : list string) : cprog unit :=
  close_all (["admission"; "lifecycle"] ++ (if cp_a2a_facade parts then ["a2a_facade"] else [])
             ++ ["delivery"; "mini_client"] ++ (if has_ach_key then ["ach_key"] else []) ++ facade_clients) None.
End control.
