(* ===== verification/ControlProps.v ===== *)
(** * harness/control.py: an admitted run is watched to its end and cancelled in time

    [watching] reads the calls of [_observe_run]: who is asked for the status of the run, when
    it is cancelled, and what is done when it ends.  Time is bounded by the clock readings, the
    sleeps and the five seconds a status request may take. *)

From S2P Require Import Prelude PyJson PyLoads Effects Traces Public StateRefs Storage Channels Wire Delivery Catalog Control.
Local Open Scope Z_scope.

Section watching.
Context (parts : control_parts) (model : string) (priced : bool) (environment : string) (float_negative : pyfloat -> bool).
Context (e : WorkspaceEndpoint) (x : observed) (started : option string) (ev : option Event).
Let id := ob_invocation_id x.
Abbreviation observe_run := (_observe_run parts model priced environment float_negative e x started ev).

(** A status that ends the run: of this run, started as reported, and terminal. *)
Definition ends_run (st : RunStatus) : bool :=
  match _validate_status st x with Ok _ => true | Err _ => false end
  && match started with Some i => bool_decide (rs_run_id st = Some i) | None => true end
  && terminal (rs_state st).
(** Its record raises nothing. *)
Definition recordable (st : RunStatus) : bool :=
  match observe float_negative (run_record parts model priced environment float_negative x (Some st) started ev None) with
  | Ok _ => true
  | Err _ => false
  end.

(** What is known of the run: nothing new; the published endpoint; that the endpoint asked for
    is published, is not published, or lost the run; the status that ended it.  The last two
    count the steps of forgetting and recording the run. *)
Inductive standing :=
  | Open | Asked (c : option WorkspaceEndpoint) | Published | Lost (step : nat) | Ended (st : RunStatus) (step : nat)
  | Unrecorded.
Record watching := mkW { o_lo : Z; o_hi : Z; o_sent : bool; o_standing : standing }.
(** How long a run may go uncancelled past its deadline. *)
Definition GRACE : Z := 5250000.
Definition in_grace (m : watching) (d : Z) : bool := o_sent m || (o_hi m + d <=? ob_deadline_at x + GRACE).
Definition stand st m := mkW (o_lo m) (o_hi m) (o_sent m) st.
Definition pass d m := mkW (o_lo m) (o_hi m + d) (o_sent m) (o_standing m).

(** Forgetting the run and recording its outcome, in this order, nothing twice. *)
Definition closing (outcome : string) (step : nat) (c : ccall) : option nat :=
  match step, c with
  | 0%nat, KPopPrepared i => if String.eqb i id then Some 1%nat else None
  | 1%nat, KPopStarted i => if String.eqb i id then Some 2%nat else None
  | 2%nat, KRecord r => if String.eqb (rr_invocation_id r) id && String.eqb (rr_outcome r) outcome then Some 3%nat else None
  | (2 | 3)%nat, KAlarm _ _ => Some step
  | _, _ => None
  end.
Definition watch_next (m : watching) (event : event cans) : verdict watching :=
  match o_standing m, event with
  | Lost n, Ev c _ => match closing "unknown" n c with Some n => Goes (stand (Lost n) m) | None => Bad end
  | Ended st n, Ev c _ =>
      match closing (run_state_str (rs_state st)) n c with Some n => Goes (stand (Ended st n) m) | None => Bad end
  | _, Ev (KAlarm _ _) _ => Goes m
  | _, Ev KClock now =>
      if (now <? o_lo m) || negb (o_sent m) && (o_hi m <? now) then Never else Goes (mkW now now (o_sent m) (o_standing m))
  | _, Ev (KActive w) c => if String.eqb w (wr_workspace_ref (we_ref e)) then Goes (stand (Asked c) m) else Bad
  | Asked c, Ev (KLost i) lost =>
      if negb (String.eqb i (we_instance_id e)) then Bad else
      Goes (stand (if lost || match c with Some c => negb (String.eqb (we_instance_id c) i) | None => false end then Lost 0
                   else match c with Some _ => Published | None => Open end) m)
  | Published, Ev (KStatus e' i) answer =>
      if bool_decide (e' = e) && String.eqb i id && in_grace m 5000000 then
        Goes (stand (match answer with
                     | Ok st => if ends_run st then if recordable st then Ended st 0 else Unrecorded else Open
                     | Err _ => Open
                     end) (pass 5000000 m))
      else Bad
  | _, Ev (KCancel e' r) _ =>
      if bool_decide (e' = e) && String.eqb (cq_invocation_id r) id && negb (o_sent m) && (ob_deadline_at x <=? o_lo m)
      then Goes (mkW (o_lo m) (o_hi m) true (o_standing m)) else Bad
  | _, Ev (KSleep d) _ => if (0 <=? d) && (d <=? 1000000) && in_grace m d then Goes (pass d m) else Bad
  | Unrecorded, Ev (KPopPrepared _ | KPopStarted _ | KRecord _) _ => Goes m
  | _, _ => Bad
  end.
(** The result fits what was seen; a watch that goes on forever is one that ran out of fuel. *)
Definition watched (m : watching) (r : result cexn RunStatus) : Prop :=
  match r with
  | Ok st => o_standing m = Ended st 3
  | Err WorkspaceOwnerLost => o_standing m = Lost 3
  | Err y => (y = Cancel \/ y = Raised Delivery.OutOfFuel)
             /\ match o_standing m with Lost _ | Ended _ _ => False | _ => True end
  end.

(** ** Its proof *)

Definition live (m : watching) : Prop := match o_standing m with Lost _ | Ended _ _ => False | _ => True end.
Definition agrees (m : watching) (s : watch_state) : Prop :=
  o_sent m = w_cancel_sent s /\ o_lo m <= o_hi m /\ 250000 <= w_delay s <= 1000000.
(** Uncancelled, it is at most [d] past the deadline. *)
Definition late (d : Z) (m : watching) : Prop := o_sent m = true \/ o_hi m <= ob_deadline_at x + d.
Abbreviation obeys_w := (obeys watch_next).

Lemma late_mono d d' m : late d m -> d <= d' -> late d' m.
Proof. intros [H|H] ?; [by left|right; lia]. Qed.
Lemma late_grace d m k : late d m -> d + k <= GRACE -> in_grace m k = true.
Proof. unfold in_grace. intros [->|H] ?; [done|]. apply orb_true_iff. right. lia. Qed.

Lemma o_alarm reason (Q : watching -> result cexn unit -> Prop) m :
  live m -> Q m (Ok tt) -> obeys_w (_alarm reason (about x)) Q m.
Proof. unfold _alarm, live. intros Hl HQ. calls. intros []. unfold watch_next. by destruct (o_standing m). Qed.
Lemma o_clock (Q : watching -> result cexn Z -> Prop) m :
  live m -> o_lo m <= o_hi m ->
  (forall now, o_lo m <= now -> (o_sent m = true \/ now <= o_hi m) -> Q (mkW now now (o_sent m) (o_standing m)) (Ok now)) ->
  obeys_w (call KClock) Q m.
Proof.
  intros Hl Hle HQ. calls. intros now. unfold live in Hl.
  assert (match (if (now <? o_lo m) || negb (o_sent m) && (o_hi m <? now) then Never
                 else Goes (mkW now now (o_sent m) (o_standing m))) with
          | Goes s => Q s (Ok now) | Bad => False | Never => True end).
  { destruct (_ || _) eqn:E; [done|]. apply HQ; [lia|]. destruct (o_sent m); [by left|right; simpl in *; lia]. }
  unfold watch_next. by destruct (o_standing m).
Qed.
Lemma o_sleep d k (Q : watching -> result cexn unit -> Prop) m :
  live m -> 0 <= d <= 1000000 -> late k m -> k + d <= GRACE ->
  Q (pass d m) (Ok tt) -> Q (pass d m) (Err Cancel) -> obeys_w (sleep d) Q m.
Proof.
  unfold sleep. intros Hl Hd Hlate Hk HQ HC. apply obeys_bind. calls. intros c.
  pose proof (late_grace _ _ _ Hlate Hk) as Hg. unfold live in Hl.
  assert (obeys_w (if c then throw Cancel else mret tt) Q (pass d m)) by (by destruct c).
  unfold watch_next.
  destruct (o_standing m); try done; (rewrite Hg; replace ((0 <=? d) && (d <=? 1000000) && true) with true by lia; done).
Qed.

(** Forgetting and recording, from either way of ending. *)
Definition over (m : watching) (n : nat) : Prop :=
  match o_standing m with Lost k | Ended _ k => k = n | _ => False end.
Definition outcome_of (m : watching) : string :=
  match o_standing m with Ended st _ => run_state_str (rs_state st) | _ => "unknown" end.
Definition at_step (n : nat) (m : watching) : watching :=
  stand (match o_standing m with Lost _ => Lost n | Ended st _ => Ended st n | s => s end) m.
Lemma over_next m n c a :
  over m n -> watch_next m (Ev c a) = match closing (outcome_of m) n c with Some k => Goes (at_step k m) | None => Bad end.
Proof. unfold over, watch_next, outcome_of, at_step. by destruct (o_standing m); intros; subst. Qed.
Lemma over_step m n k : over m n -> over (at_step k m) k.
Proof. unfold over, at_step. by destruct (o_standing m). Qed.
Lemma outcome_step m k : outcome_of (at_step k m) = outcome_of m.
Proof. unfold outcome_of, at_step. by destruct (o_standing m). Qed.
Lemma step_step m k n : at_step k (at_step n m) = at_step k m.
Proof. unfold at_step, stand. by destruct (o_standing m). Qed.

Lemma o_forget (Q : watching -> result cexn unit -> Prop) m :
  over m 0 -> Q (at_step 2 m) (Ok tt) -> obeys_w (forget_run x) Q m.
Proof.
  intros Ho HQ. unfold forget_run. apply obeys_bind. calls. intros []. rewrite (over_next _ _ _ _ Ho).
  cbn [closing]. rewrite String.eqb_refl. calls. intros []. rewrite (over_next _ 1) by (by eapply over_step).
  cbn [closing]. by rewrite String.eqb_refl, step_step.
Qed.
Lemma o_record r sub (Q : watching -> result cexn unit -> Prop) m :
  over m 2 -> rr_invocation_id r = id -> rr_outcome r = outcome_of m ->
  (exists b, observe float_negative r = Ok b) -> Q (at_step 3 m) (Ok tt) -> obeys_w (record_run float_negative r sub) Q m.
Proof.
  intros Ho Hi Hr [b Hb] HQ. unfold record_run. apply obeys_bind. calls. intros []. rewrite (over_next _ _ _ _ Ho).
  cbn [closing]. rewrite Hi, Hr, !String.eqb_refl, Hb. apply obeys_bind. cbn -[call]. destruct b; [|done].
  calls. intros []. rewrite (over_next _ 3) by (by eapply over_step). cbn. by rewrite step_step.
Qed.

Abbreviation check := (check_published_owner parts model priced environment float_negative e x started ev).
Lemma o_check s (Q : watching -> result cexn (bool * watch_state) -> Prop) m :
  live m -> Q (stand Published m) (Ok (true, s)) ->
  Q (stand Open m) (Ok (false, s)) -> Q (stand Open m) (Ok (false, set_warned_owner s)) ->
  Q (stand (Lost 3) m) (Err WorkspaceOwnerLost) -> obeys_w (check s) Q m.
Proof.
  intros Hl H1 H2 H3 H4. unfold check_published_owner. apply obeys_bind. calls. intros c.
  replace (watch_next _ _) with (Goes (stand (Asked c) m))
    by (unfold watch_next, live in *; rewrite String.eqb_refl; by destruct (o_standing m)).
  apply obeys_bind. calls. intros lost. unfold watch_next at 1. cbn [o_standing stand]. rewrite String.eqb_refl. cbn [negb].
  change (stand ?a (stand _ m)) with (stand a m).
  destruct (lost || _) eqn:El.
  - apply obeys_bind, o_forget; [done|]. apply obeys_bind. unfold _alarm. calls. intros []. cbn [watch_next at_step stand o_standing closing].
    apply obeys_bind. apply o_record; [done..|by exists false|]. exact H4.
  - destruct c as [c|]; [exact H1|]. destruct (w_warned_owner s); [exact H2|].
    apply obeys_bind, o_alarm; [done|]. exact H3.
Qed.

Definition looked (s : watch_state) (m : watching) (r : result cexn look) : Prop :=
  match r with
  | Ok (Finished st) => o_standing m = Ended st 3
  | Ok (Unpublished s') => live m /\ agrees m s'
  | Ok (GoesOn s') => live m /\ agrees m s' /\ late 5000000 m
  | Err WorkspaceOwnerLost => o_standing m = Lost 3
  | Err y => live m /\ (y = Cancel \/ agrees m s /\ late 5000000 m)
  end.

Lemma late_pass d m : late 0 m -> late d (pass d m).
Proof. unfold late. cbn. intros [H|H]; [by left|right; lia]. Qed.
Abbreviation finish st k := (_ ← forget_run x; _ ← _record_run parts model priced environment float_negative x (Some st) started ev None; k).
Lemma o_unrecorded {A} (st : RunStatus) (k : cprog A) Q m :
  o_standing m = Unrecorded -> recordable st = false -> (forall y, Q m (Err (of_exn y))) ->
  obeys_w (finish st k) Q m.
Proof.
  intros Hs Hr HQ. assert (Hn : forall c a, watch_next m (Ev c a) = match c with
    KPopPrepared _ | KPopStarted _ | KRecord _ => Goes m | _ => watch_next m (Ev c a) end).
  { intros c a. unfold watch_next. rewrite Hs. by destruct c. }
  unfold forget_run. do 2 (apply obeys_bind). calls. intros []. rewrite Hn. calls. intros []. rewrite Hn.
  unfold _record_run, record_run. do 2 (apply obeys_bind). calls. intros []. rewrite Hn. apply obeys_bind.
  unfold recordable in Hr. destruct (observe _ _) as [b|y]; [done|]. apply HQ.
Qed.
Lemma o_ended {A} (st : RunStatus) (k : cprog A) Q m :
  o_standing m = Ended st 0 -> recordable st = true -> obeys_w k Q (stand (Ended st 3) m) ->
  obeys_w (finish st k) Q m.
Proof.
  intros Hs Hr HQ. unfold recordable in Hr. destruct (observe _ _) as [b|] eqn:Eb; [|done].
  apply obeys_bind, o_forget; [by unfold over; rewrite Hs|]. apply obeys_bind, o_record; [by unfold over, at_step; rewrite Hs|done| |by exists b|].
  - cbn. unfold outcome_of, at_step. by rewrite Hs.
  - unfold at_step, stand. cbn. rewrite Hs. exact HQ.
Qed.

Lemma next_pace_agrees ft st s m :
  live m -> agrees m s -> late 5000000 m ->
  obeys_w (next_pace ft st s) (fun m' r => match r with Ok s' => live m' /\ agrees m' s' /\ late 5000000 m' | Err _ => False end) m.
Proof.
  intros Hl (Hs & Hle & Hd) Hlate. unfold next_pace. case_bool_decide; [|by repeat split].
  apply obeys_bind, o_clock; [done|done|]. intros now Hlo Hhi.
  assert (late 5000000 (mkW now now (o_sent m) (o_standing m))) by (destruct Hlate, Hhi; [by left..|right; cbn; lia]).
  destruct (ft <=? now); (repeat split; cbn; [done|done|lia|lia|lia|done]).
Qed.

Lemma looked_err s m y : live m -> agrees m s -> late 5000000 m -> looked s m (Err (Raised y)).
Proof. intros. split; [done|by right]. Qed.
Lemma o_look ft s m :
  o_standing m = Published -> agrees m s -> late 0 m ->
  obeys_w (look_at_run parts model priced environment float_negative e x started ev ft s) (looked s) m.
Proof.
  intros Hp Ha Hlate. unfold look_at_run, ask_derr. apply obeys_bind, obeys_bind. calls. intros answer.
  unfold watch_next at 1. rewrite Hp, bool_decide_eq_true_2, String.eqb_refl, (late_grace 0) by done. cbn [andb].
  pose proof (late_pass 5000000 m Hlate) as Hl5. set (m1 := pass 5000000 m) in *.
  assert (Hag : forall st, agrees (stand st m1) s) by (destruct Ha as (?&?&?); intros; repeat split; cbn; [done|lia..]).
  destruct answer as [st|y]; [|by apply looked_err].
  unfold ends_run. cbn [or_derr lift]. apply obeys_bind.
  destruct (_validate_status st x) as [[]|y]; [|by apply looked_err]. cbn [or_derr lift obeys andb].
  assert (Hgo : forall b, b = (match started with Some i => bool_decide (rs_run_id st = Some i) | None => true end) ->
    negb b = match started with Some i => negb (bool_decide (rs_run_id st = Some i)) | None => false end)
    by (intros b ->; by destruct started).
  rewrite <- (Hgo _ eq_refl). destruct (match started with Some i => _ | None => _ end); [|by apply looked_err]. cbn [negb andb].
  destruct (terminal (rs_state st)) eqn:Et.
  { destruct (recordable st) eqn:Er.
    - apply o_ended; [done..|]. done.
    - apply o_unrecorded; [done..|]. intros y. by destruct y; (split; [|right]). }
  apply obeys_bind, o_check; [done| | | |done].
  - case_bool_decide; [apply looked_err; [done|apply (Hag Published)|exact Hl5]|].
    apply obeys_bind. eapply obeys_mono; [apply next_pace_agrees; [done|apply (Hag Published)|exact Hl5]|]. by intros m' [s'|y].
  - apply obeys_bind, (o_sleep _ 5000000); [done|lia|done|done| |].
    + destruct Ha as (?&?&?). repeat split; cbn; [done|lia..].
    + split; [done|by left].
  - apply obeys_bind, (o_sleep _ 5000000); [done|lia|done|done| |].
    + destruct Ha as (?&?&?). repeat split; cbn; [done|lia..].
    + split; [done|by left].
Qed.
Lemma o_guarded_look ft s m :
  o_standing m = Published -> agrees m s -> late 0 m ->
  obeys_w (guarded_look parts model priced environment float_negative e x started ev ft s)
    (fun m r => looked s m r /\ match r with Err y => y = WorkspaceOwnerLost \/ y = Cancel | Ok _ => True end) m.
Proof.
  intros Hp Ha Hlate. unfold guarded_look. apply obeys_catch. eapply obeys_mono; [by apply o_look|].
  intros m' [l|y] H; [done|]. case_bool_decide as Ey; [subst; cbn; by split; [|left]|]. cbn [orb].
  unfold is_exception. case_bool_decide as Ec; cbn [negb]; [by subst; split; [|right]|].
  assert (live m' /\ agrees m' s /\ late 5000000 m') as (Hl & Ha' & Hlate') by (destruct y; naive_solver).
  destruct (w_warned s); [done|]. apply obeys_bind, o_alarm; [done|]. done.
Qed.

Lemma o_pause s (Q : watching -> result cexn Z -> Prop) m :
  live m -> agrees m s -> late 5000000 m ->
  (forall m' d, live m' -> agrees m' s -> 0 <= d <= 1000000 -> late (GRACE - d) m' -> Q m' (Ok d)) ->
  obeys_w (pause_of x s) Q m.
Proof.
  intros Hl (Hs & Hle & Hd) Hlate HQ. unfold pause_of. rewrite <- Hs. destruct (o_sent m) eqn:E.
  { apply HQ; [done|by repeat split; try congruence; lia|lia|by left]. }
  apply obeys_bind, o_clock; [done|done|]. intros now Hlo Hhi.
  destruct Hlate as [?|Hlate]; [congruence|]. destruct Hhi as [?|Hhi]; [congruence|].
  apply HQ; [done| |lia|].
  - repeat split; cbn; [congruence|lia..].
  - right. cbn. unfold GRACE. lia.
Qed.
Lemma o_cancel_if_due s (Q : watching -> result cexn watch_state -> Prop) m :
  live m -> agrees m s ->
  (forall m' s', live m' -> agrees m' s' -> late 0 m' -> Q m' (Ok s')) ->
  (forall m', live m' -> Q m' (Err Cancel)) ->
  obeys_w (cancel_if_due e x s) Q m.
Proof.
  intros Hl (Hs & Hle & Hd) HQ HC. unfold cancel_if_due. apply obeys_bind, o_clock; [done|done|]. intros now Hlo Hhi.
  rewrite <- Hs. destruct (o_sent m) eqn:E; cbn [negb]; [rewrite andb_false_r|rewrite andb_true_r].
  { apply HQ; [done| |by left]. repeat split; cbn; [congruence|lia..]. }
  destruct (ob_deadline_at x <=? now) eqn:En.
  - apply obeys_bind, o_alarm; [done|]. apply obeys_bind. calls. intros r.
    replace (watch_next _ _) with (Goes (mkW now now true (o_standing m))).
    2: { unfold watch_next, live in *. cbn. rewrite bool_decide_eq_true_2, String.eqb_refl, En by done. by destruct (o_standing m). }
    assert (Hag : agrees (mkW now now true (o_standing m)) (set_cancel_sent s)) by (repeat split; cbn; lia).
    destruct r as [[]|[]]; by (apply HQ; [done|done|left]) || by apply HC.
  - apply HQ; [done| |right; cbn; lia]. repeat split; cbn; [congruence|lia..].
Qed.

Lemma o_loop fuel ft s m : live m -> agrees m s ->
  obeys_w (observe_loop parts model priced environment float_negative e x started ev fuel ft s) watched m.
Proof.
  revert s m. induction fuel as [|fuel IH]; intros s m Hl Ha; cbn [observe_loop].
  { split; [by right|]. exact Hl. }
  assert (Hcancel : forall m, live m -> watched m (Err Cancel)) by (intros; split; [by left|done]).
  apply obeys_bind, o_cancel_if_due; [done|done| |done]. clear s m Hl Ha. intros m s Hl Ha Hlate.
  assert (Hstand : forall st, agrees (stand st m) s /\ agrees (stand st m) (set_warned_owner s))
    by (intros; by destruct Ha).
  assert (Hwait : forall s', agrees (stand Open m) s' ->
    obeys_w (_ ← sleep 250000; observe_loop parts model priced environment float_negative e x started ev fuel ft s') watched (stand Open m)).
  { intros s' (?&?&?). apply obeys_bind, (o_sleep _ 0); [done|lia|done|done| |by apply Hcancel].
    apply IH; [done|]. cbn in *. repeat split; cbn; [done|lia..]. }
  apply obeys_bind, o_check; [done| |by apply Hwait, Hstand|by apply Hwait, Hstand|done].
  cbn [negb]. apply obeys_bind. eapply obeys_mono; [apply o_guarded_look; [done|apply Hstand|exact Hlate]|].
  intros m' [[st|s'|s']|y] [H Hy]; [done|by apply IH, H; apply H| |by destruct Hy; subst; [|destruct H; apply Hcancel]].
  destruct H as (Hl' & Ha' & Hlate'). apply obeys_bind, o_pause; [done..|].
  intros m2 d Hl2 (?&?&?) Hd Hlate2. apply obeys_bind, (o_sleep _ (GRACE - d)); [done|done|done|lia| |by apply Hcancel].
  apply IH; [done|]. repeat split; cbn; [done|lia..].
Qed.

(** C29. An admitted run is watched to its end.  Whatever the Workspace and the clock answer:
    its status is only asked of its own endpoint, each time just after the manager published
    that very instance as not lost; it is cancelled at most once, by the clock past its
    deadline, and no sleep or request begins that could leave it uncancelled more than 5.25
    seconds past the deadline; sleeps are at most a second; the run is forgotten and recorded
    only once it ended, once and in this order, with the outcome seen; a terminal status of
    this run ends the watch with that status unless its record raises; the watch fails only by
    the loss of the owner or its own cancellation. *)
Theorem watched_to_its_end fuel t : obeys_w (observe_run fuel) watched (mkW t t false Open).
Proof.
  unfold _observe_run. apply obeys_bind, o_clock; [done|done|]. intros now Hlo Hhi.
  apply o_loop; [done|]. by repeat split; cbn.
Qed.
End watching.
