(* ===== verification/ControlCalls.v ===== *)
(** * harness/control.py: whose artifacts a call may touch, what reconnecting recovers

    Facts of every run of the other methods of [Control], by inversion of the run. *)

From S2P Require Import Prelude Sha256 PyJson PyLoads Config ConfigFacts Public StateRefs Effects Traces Storage Channels Wire Tokens Delivery Catalog CatalogProps Control ControlProps.
Local Open Scope Z_scope.

(** A run that succeeded, taken apart: its first part, its call, its result. *)
Ltac unbind H tr a Ha := apply runs_bind_ok in H as (tr & a & ? & -> & Ha & H).
Ltac uncall H a :=
  lazymatch type of H with runs (call ?c) ?tr ?r =>
    let E := fresh "E" in destruct (runs_call c tr r H) as (a & -> & E); injection E as E; subst a; clear H
  end.
Ltac unret H := destruct H as [-> H]; first [injection H as -> | injection H as <- | clear H]; rewrite ?app_nil_r.

Lemma new_StateRef_fields d a w domain session r :
  new_StateRef d a w domain session = Ok r -> sr_workspace_ref r = w /\ sr_domain r = domain.
Proof.
  unfold new_StateRef. intros (i & _ & H)%bind_ok. do 4 (apply bind_ok in H as (? & _ & H)). by injection H as <-.
Qed.

Section calls.
Context (parts : control_parts) (public : PublicConfig).

Lemma owned_among_run claim endpoints tr :
  runs (owned_among claim endpoints) tr (Ok true) ->
  exists e, In e endpoints /\ we_name e = claim /\ In (Ev (KLost (we_instance_id e)) false) tr.
Proof.
  revert tr. induction endpoints as [|e endpoints IH]; intros tr H; cbn [owned_among] in H; [by destruct H|].
  destruct (String.eqb_spec (we_name e) claim) as [<-|]; cbn [negb] in H.
  - unbind H tr1 lost Hl. uncall Hl lost'. destruct lost.
    + destruct (IH _ H) as (e' & ? & ? & ?). exists e'. split; [by right|]. split; [done|]. by right.
    + unret H. exists e. split; [by left|]. split; [done|]. by left.
  - destruct (IH _ H) as (e' & ? & ? & ?). exists e'. split; [by right|done].
Qed.

(** The token is one of a Workspace that is live here: some endpoint of that name, active or
    running its hook, was just seen not lost. *)
Definition live_claim (token claim : string) (tr : list (event cans)) : Prop :=
  verify_facade_token (cp_key parts) token = Some claim
  /\ exists e es, In e es /\ we_name e = claim /\ (In (Ev KActives es) tr \/ In (Ev KHooks es) tr)
                  /\ In (Ev (KLost (we_instance_id e)) false) tr.
Lemma owned_now_run claim tr :
  runs (_owned_now claim) tr (Ok true) ->
  exists e es, In e es /\ we_name e = claim /\ (In (Ev KActives es) tr \/ In (Ev KHooks es) tr)
               /\ In (Ev (KLost (we_instance_id e)) false) tr.
Proof.
  intros H. unfold _owned_now in H. unbind H tr1 actives Ha. uncall Ha a. unbind H tr2 hooks Hh. uncall Hh h.
  apply owned_among_run in H as (e & Hin & <- & Hl). apply in_app_or in Hin as [Hin|Hin].
  - exists e, actives. split; [done|]. split; [done|]. split; [by left; left|]. by right; right.
  - exists e, hooks. split; [done|]. split; [done|]. split; [by right; right; left|]. by right; right.
Qed.
Lemma authenticate_run token claim tr :
  runs (authenticate parts token) tr (Ok claim) -> live_claim token claim tr.
Proof.
  intros H. unfold authenticate in H. destruct (verify_facade_token _ _) as [c|] eqn:Ev; [|by destruct H].
  unbind H tr1 owned Ho. destruct owned; [|by destruct H]. unret H. split; [done|].
  unfold _owned_live in Ho. unbind Ho tr2 now Hn. destruct now.
  - unret Ho. by apply owned_now_run.
  - unbind Ho tr3 u Hu. destruct (owned_now_run _ _ Ho) as (e & es & ? & ? & H & ?).
    exists e, es. split; [done|]. split; [done|]. split; [destruct H; [left|right]|]; by repeat (apply in_or_app; right).
Qed.
Lemma live_claim_more token claim tr tr' : live_claim token claim tr -> live_claim token claim (tr ++ tr').
Proof.
  intros (Hv & e & es & ? & ? & H & ?). split; [done|]. exists e, es. split; [done|]. split; [done|].
  split; [destruct H; [left|right]|]; by apply in_or_app; left.
Qed.

(** The invocation runs in this very pod: prepared on it here, or recovered from it, with
    time left; and its session. *)
Definition runs_here (id : string) (e : WorkspaceEndpoint) (session : string) (tr : list (event cans)) : Prop :=
  exists now, In (Ev KClock now) tr
  /\ ((exists pe r, In (Ev (KPrepared id) (Some (pe, Some r))) tr /\ sr_invocation_id r = id
         /\ rq_workspace_ref r = wr_workspace_ref (we_ref e) /\ we_ref pe = we_ref e /\ we_name pe = we_name e
         /\ we_instance_id pe = we_instance_id e /\ now < sr_deadline_at r /\ session = rq_session_ref r)
      \/ (exists v, In (Ev (KPrepared id) None) tr /\ In (Ev (KRecovered id) (Some v)) tr
           /\ rv_invocation_id v = id /\ rv_workspace_ref v = wr_workspace_ref (we_ref e)
           /\ rv_instance_id v = we_instance_id e /\ now < rv_deadline_at v /\ session = rv_session_ref v)).
Lemma in_time_run b d tr : runs (in_time b d) tr (Ok tt) -> b = true /\ exists now, tr = [Ev KClock now] /\ now < d.
Proof.
  unfold in_time. destruct b; cbn [negb]; intros H; [|by destruct H]. unbind H tr1 now Hn. uncall Hn n.
  destruct (d <=? now) eqn:E; [by destruct H|]. unret H. split; [done|]. exists now. split; [done|lia].
Qed.
Lemma run_session_run id e session tr : runs (run_session id e) tr (Ok session) -> runs_here id e session tr.
Proof.
  intros H. unfold run_session in H. unbind H tr1 prepared Hp. uncall Hp p. destruct prepared as [[pe [r|]]|]; [|by destruct H|].
  - unbind H tr2 u Hi. destruct u. apply in_time_run in Hi as [Hm (now & -> & Hd)]. unret H.
    unfold prepared_matches in Hm. rewrite !andb_true_iff, !String.eqb_eq, bool_decide_eq_true in Hm.
    exists now. split; [by right; left|]. left. exists pe, r. split; [by left|]. naive_solver.
  - unbind H tr2 recovered Hr. uncall Hr rv. destruct recovered as [v|]; [|by destruct H].
    unbind H tr3 u Hi. destruct u. apply in_time_run in Hi as [Hm (now & -> & Hd)]. unret H.
    unfold recovered_matches in Hm. rewrite !andb_true_iff, !String.eqb_eq in Hm.
    exists now. split; [by right; right; left|]. right. exists v. split; [by left|]. split; [by right; left|]. naive_solver.
Qed.
Lemma runs_here_more id e session tr tr1 tr2 : runs_here id e session tr -> runs_here id e session (tr1 ++ tr ++ tr2).
Proof.
  assert (Hin : forall ev : event cans, In ev tr -> In ev (tr1 ++ tr ++ tr2))
    by (intros; apply in_or_app; right; by apply in_or_app; left).
  intros (now & Hn & H). exists now. split; [by apply Hin|].
  destruct H as [(pe & r & Hp & H)|(v & Hp & Hr & H)]; [left; exists pe, r; split; [by apply Hin|done]|right].
  exists v. split; [by apply Hin|]. split; [by apply Hin|done].
Qed.

(** C30. A facade call gets artifact operations only for a run of its own Workspace: the token
    verifies and names a Workspace that is live here, the invocation is one prepared here on
    that very pod or recovered from it, its deadline is not over by the clock just read, and
    what it may write is owned by that Workspace and produced by the session of that run. *)
Theorem artifacts_of_own_runs token id g tr :
  runs (artifact_operations parts token id) tr (Ok g) ->
  live_claim token (ag_workspace_name g) tr /\ ag_invocation_id g = id
  /\ exists e actives, In (Ev KActives actives) tr /\ In e actives /\ we_name e = ag_workspace_name g
     /\ runs_here id e (ag_session_ref g) tr
     /\ sr_workspace_ref (ag_owner g) = wr_workspace_ref (we_ref e) /\ sr_domain (ag_owner g) = DOMAIN_WORKSPACE.
Proof.
  intros H. unfold artifact_operations in H. unbind H tr1 claim Hc. unbind H tr2 actives Ha. uncall Ha a.
  destruct (List.find _ actives) as [e|] eqn:Ef; [|by destruct H]. apply find_some in Ef as [Hin Hn%String.eqb_eq].
  unbind H tr3 session Hs. unbind H tr4 owner Ho. unret H. cbn.
  destruct Ho as [-> Ho]. destruct (new_StateRef _ _ _ _ _) as [owner'|] eqn:En; [|done]. injection Ho as <-.
  split; [by apply live_claim_more, authenticate_run|]. split; [done|]. exists e, actives.
  split; [apply in_or_app; right; by left|]. split; [done|]. split; [done|]. split.
  - pose proof (runs_here_more id e session _ (tr1 ++ [Ev KActives actives]) [] (run_session_run _ _ _ _ Hs)) as Hr.
    rewrite app_nil_r, <- app_assoc in Hr. cbn. by rewrite app_nil_r.
  - by apply new_StateRef_fields in En as [-> ->].
Qed.

(** ** Reconnecting *)

(** The runs admission was asked to take over, and what it answered. *)
Fixpoint asked (tr : list (event cans)) : list (RunStatus * string * result cexn unit) :=
  match tr with
  | [] => []
  | Ev (KRecover r i) a :: tr => (r, i, a) :: asked tr
  | _ :: tr => asked tr
  end.
(** The runs it took over, each for an instance. *)
Definition recovered (tr : list (event cans)) : list (RunStatus * string) :=
  map fst (filter (fun q => is_ok (snd q) = true) (asked tr)).
Definition has_ended (r : RunStatus) : Prop := In (rs_state r) [Completed; Failed; Wire.Cancelled; Skipped].
#[export] Instance has_ended_dec r : Decision (has_ended r).
Proof. unfold has_ended. destruct (rs_state r); cbn; solve [left; tauto|right; intuition discriminate]. Defined.
Definition unfinished (records : list RunStatus) : list RunStatus := filter (fun r => ~ has_ended r) records.
Lemma asked_app tr tr' : asked (tr ++ tr') = asked tr ++ asked tr'.
Proof. induction tr as [|[[] a] tr IH]; cbn; rewrite ?IH; done. Qed.
Lemma terminal_ended r : terminal (rs_state r) = true <-> has_ended r.
Proof. unfold has_ended, terminal. destruct (rs_state r); cbn; intuition discriminate. Qed.

Lemma inventory_ok_spec e seen records : inventory_ok e seen records = true ->
  (forall r, In r records -> rs_workspace_ref r = wr_workspace_ref (we_ref e) /\ in_strs (rs_invocation_id r) seen = false)
  /\ NoDup (map rs_invocation_id records).
Proof.
  revert seen. induction records as [|r records IH]; intros seen H; cbn in *; [split; [done|constructor]|].
  rewrite !andb_true_iff, negb_true_iff, String.eqb_eq in H. destruct H as [[Hw Hs] H].
  apply IH in H as [Hall Hd]. split.
  - intros r' [<-|Hin]; [done|]. destruct (Hall r' Hin) as [? Hs']. split; [done|].
    cbn in Hs'. by apply orb_false_iff in Hs' as [_ ?].
  - constructor; [|done]. intros (r' & Hi & Hin)%list_elem_of_fmap. apply list_elem_of_In in Hin.
    destruct (Hall r' Hin) as [_ Hs']. cbn in Hs'. by rewrite Hi, String.eqb_refl in Hs'.
Qed.
(** Every run before the one that is refused is taken over, and a refusal ends it all. *)
Definition takes_over (i : string) (runs : list RunStatus) (q : list (RunStatus * string * result cexn unit)) (r : result cexn unit) : Prop :=
  (r = Ok tt /\ q = map (fun s => (s, i, Ok tt)) runs)
  \/ exists before s after y, runs = before ++ s :: after /\ r <> Ok tt
       /\ q = map (fun s => (s, i, Ok tt)) before ++ [(s, i, Err y)].
Lemma recover_all_run e records tr r : runs (recover_all e records) tr r ->
  takes_over (we_instance_id e) (unfinished records) (asked tr) r.
Proof.
  revert tr. unfold unfinished. induction records as [|s records IH]; intros tr H; cbn [recover_all] in H.
  { destruct H as [-> ->]. by left. }
  destruct (terminal (rs_state s)) eqn:Et.
  - rewrite filter_cons_False by (intros []; by apply terminal_ended). by apply IH.
  - destruct H as (got & tr' & -> & H). rewrite filter_cons_True by (rewrite <- terminal_ended; congruence).
    destruct got as [[]|y]; cbn [asked].
    + destruct (IH _ H) as [[-> ->]|(before & s' & after & y & -> & Hr & ->)]; [by left|].
      right. by exists (s :: before), s', after, y.
    + destruct H as [-> ->]. right. by exists [], s, (filter (fun r => ~ has_ended r) records), y.
Qed.
Lemma takes_over_recovered i l tr r : takes_over i l (asked tr) r ->
  exists k, recovered tr = map (fun s => (s, i)) (take k l) /\ (r = Ok tt -> recovered tr = map (fun s => (s, i)) l).
Proof.
  assert (forall l', map fst (filter (fun q : RunStatus * string * result cexn unit => is_ok (snd q) = true) (map (fun s => (s, i, Ok tt)) l'))
                     = map (fun s => (s, i)) l') as Hall.
  { induction l' as [|s l' IH]; [done|]. cbn [map]. rewrite filter_cons_True by done. cbn. by rewrite IH. }
  unfold recovered. intros [[-> ->]|(before & s & after & y & -> & Hr & ->)].
  - exists (length l). by rewrite firstn_all, Hall.
  - exists (length before). rewrite filter_app, map_app, Hall, filter_cons_False by done. cbn. by rewrite app_nil_r, take_app_length.
Qed.

(** A program that recovers nothing. *)
Definition quiet {A} (p : cprog A) : Prop := forall tr r, runs p tr r -> asked tr = [].
Lemma quiet_bind {A B} (p : cprog A) (f : A -> cprog B) : quiet p -> (forall a, quiet (f a)) -> quiet (p ≫= f).
Proof.
  intros Hp Hf tr r [(tr1 & a & tr2 & -> & H1 & H2)|(y & H & _)]%runs_bind; [|by eapply Hp].
  by rewrite asked_app, (Hp _ _ H1), (Hf _ _ _ H2).
Qed.
Lemma quiet_done {A} (r : result cexn A) : quiet (Done r).
Proof. by intros tr r' [-> _]. Qed.
Lemma quiet_call c : (forall s i, c <> KRecover s i) -> quiet (call c).
Proof. intros Hc tr r (a & tr' & -> & [-> _]). destruct c; try done. by destruct (Hc s instance_id). Qed.
Ltac quiet_step := first
  [ apply quiet_done | lazymatch goal with |- quiet (call ?c) => refine (quiet_call c _); done end | apply quiet_bind; [|intros ?] | case_match ].
Ltac quiets := repeat quiet_step.

Context (model_dump : PublicConfig -> list (string * json)) (stall_set : bool) (per_million : json -> json) (tools_spec : string).
Abbreviation configure := (configure_workspace parts public model_dump stall_set per_million tools_spec).
Lemma quiet_mini e method path payload timeout : quiet (_mini_json e method path payload timeout).
Proof. unfold _mini_json, report_moved. quiets. Qed.
Lemma quiet_configure e : quiet (configure e).
Proof. unfold configure_workspace. repeat first [apply quiet_mini | quiet_step]. Qed.

(** The pod answered the configuration of this very version, on its own instance. *)
Definition configured (e : WorkspaceEndpoint) (tr : list (event cans)) : Prop :=
  exists a, In (Ev (KMini e "POST" "/configure"
                      (Some (configure_payload parts public model_dump stall_set per_million tools_spec e)) 10000000) (Ok a)) tr
  /\ mr_instance a = Some (we_instance_id e) /\ mr_status a = 200
  /\ exists body, mr_body a = Some body /\ json_eqb body (JObj [("configVersion", JStr (pc_config_version public))]) = true.
Lemma mini_run e method path payload timeout tr status body :
  runs (_mini_json e method path payload timeout) tr (Ok (status, body)) ->
  exists a, tr = [Ev (KMini e method path payload timeout) (Ok a)] /\ mr_instance a = Some (we_instance_id e)
            /\ mr_status a = status /\ mr_body a = Some body.
Proof.
  intros H. unfold _mini_json in H. unbind H tr1 r Hr. uncall Hr r'. destruct r as [a|y]; [|by destruct H].
  unfold instance_is in H. case_bool_decide as Ei; cbn [negb] in H.
  - destruct (mr_body a) as [b|] eqn:Eb; [|by destruct H]. destruct H as [-> H]. injection H as -> ->. by exists a.
  - unbind H tr2 u Hu. by destruct H.
Qed.
Lemma configure_run e tr : runs (configure e) tr (Ok tt) -> configured e tr.
Proof.
  intros H. unfold configure_workspace in H. unbind H tr1 sb Hs. destruct sb as [status body].
  apply mini_run in Hs as (a & -> & Hi & Hst & Hb). destruct (_ || _) eqn:E; [by destruct H|].
  apply orb_false_iff in E as [E1%negb_false_iff%Z.eqb_eq E2%negb_false_iff].
  exists a. split; [by left|]. split; [done|]. split; [congruence|]. by exists body.
Qed.

(** A persistent Workspace's last writer is unknown or this instance, or it was restored. *)
Definition restored (e : WorkspaceEndpoint) (tr : list (event cans)) : Prop :=
  per_type (ws_persistence (rc_workspace (cp_config parts))) = P_s3 ->
  exists owner w, In (Ev (KCurrentWriter owner) (Ok w)) tr
  /\ (w = None \/ w = Some (we_instance_id e) \/ In (Ev (KRestoreWorkspace e) (Ok tt)) tr).
Lemma quiet_restore e : quiet (restore_if_moved parts e).
Proof. unfold restore_if_moved, raised. quiets. Qed.
Lemma restored_run e tr : runs (restore_if_moved parts e) tr (Ok tt) -> restored e tr.
Proof.
  intros H Hs. unfold restore_if_moved in H. rewrite Hs in H. unbind H tr1 owner Ho. unbind H tr2 w Hw.
  apply runs_lift_ok in Hw. uncall Hw w'. exists owner, w. destruct Ho as [-> _]. split; [by left|].
  destruct w as [w|]; [|by left]. right. destruct (String.eqb_spec w (we_instance_id e)) as [->|]; [by left|right].
  apply runs_lift_ok in H. uncall H u. by right; left.
Qed.
Lemma configured_more e tr tr1 tr2 : configured e tr -> configured e (tr1 ++ tr ++ tr2).
Proof. intros (a & Hin & H). exists a. split; [|done]. apply in_or_app. right. by apply in_or_app; left. Qed.

(** C31. Reconnecting a Workspace takes over exactly the runs its pod still has: whatever is
    answered, admission is asked only for unfinished runs, for this instance, in the order of an
    inventory that names this Workspace alone and no run twice, after the pod confirmed the
    configuration, and after a persistent Workspace whose last writer was another instance was
    restored.  It succeeds exactly when admission took over every one of them; the first refusal
    is the last question, and makes it fail with every run before it taken over. *)
Theorem reconnect_recovers e tr r :
  runs (reconnect_workspace parts public model_dump stall_set per_million tools_spec e) tr r ->
  (asked tr = [] /\ r <> Ok tt)
  \/ exists records, In (Ev (KListRuns e) (Ok records)) tr /\ configured e tr
     /\ (forall s, In s records -> rs_workspace_ref s = wr_workspace_ref (we_ref e))
     /\ NoDup (map rs_invocation_id records)
     /\ takes_over (we_instance_id e) (unfinished records) (asked tr) r
     /\ (exists k, recovered tr = map (fun s => (s, we_instance_id e)) (take k (unfinished records)))
     /\ (r = Ok tt -> recovered tr = map (fun s => (s, we_instance_id e)) (unfinished records))
     /\ restored e tr.
Proof.
  intros H. unfold reconnect_workspace in H.
  apply runs_bind in H as [(tr0 & [] & tr1 & -> & H0 & H)|(y & H & ->)]; [|left; split; [|done]; eapply quiet_restore, H].
  apply runs_bind in H as [(tr2 & [] & tr3 & -> & H2 & H)|(y & H & ->)].
  2: { left. split; [|done]. by rewrite asked_app, (quiet_restore _ _ _ H0), (quiet_configure _ _ _ H). }
  apply runs_bind in H as [(tr4 & got & tr5 & -> & H4 & H)|(y & (?&?&?&?&?) & _)]; [|done].
  uncall H4 got'.
  assert (asked (tr0 ++ tr2 ++ [Ev (KListRuns e) got] ++ tr5) = asked tr5) as Ha.
  { by rewrite !asked_app, (quiet_restore _ _ _ H0), (quiet_configure _ _ _ H2). }
  rewrite Ha. destruct got as [records|y]; [|by destruct H as [-> ->]; left].
  destruct (inventory_ok e [] records) eqn:Ei; cbn [negb] in H; [|by destruct H as [-> ->]; left].
  apply inventory_ok_spec in Ei as [Hw Hd]. apply recover_all_run in H as Ht.
  right. exists records. rewrite <- Ha in Ht. destruct (takes_over_recovered _ _ _ _ Ht) as (k & Hk & Hall). rewrite Ha in Ht.
  split; [do 2 (apply in_or_app; right); by left|].
  split; [apply configured_more; by apply configure_run|].
  split; [intros s Hs; by apply Hw|]. split; [done|]. split; [done|]. split; [by exists k|]. split; [done|].
  intros Hs. destruct (restored_run e tr0 H0 Hs) as (owner & w & ? & Hw').
  exists owner, w. split; [by apply in_or_app; left|].
  destruct Hw' as [?|[?|?]]; [by left|by right; left|right; right; by apply in_or_app; left].
Qed.

(** ** Preparing a run *)

Context (output_text progress_text : string) (container_repr : json -> string).
(** The archive a pod confirmed, on its own instance. *)
Definition confirmed (e : WorkspaceEndpoint) (path : string) (params : list (string * string)) (tr : list (event cans)) : Prop :=
  exists a answer, In (Ev (KPut e path params) (Ok a)) tr /\ mr_instance a = Some (we_instance_id e)
  /\ mr_body a = Some (JObj answer) /\ imported answer = true.
Lemma put_run e path params tr answer : runs (put_archive e path params) tr (Ok answer) ->
  exists a, tr = [Ev (KPut e path params) (Ok a)] /\ mr_instance a = Some (we_instance_id e) /\ mr_body a = Some (JObj answer).
Proof.
  intros H. unfold put_archive, ask_derr in H. unbind H tr1 b Ha. unbind Ha tr2 a' Hc. uncall Hc c.
  destruct Ha as [-> Ha]. destruct a' as [a'|]; [|done]. injection Ha as ->.
  unfold instance_moved in H. destruct (mr_instance a') as [i|] eqn:Ei; [|by destruct H].
  destruct (String.eqb_spec i (we_instance_id e)) as [->|]; cbn [negb] in H; [|unbind H tr3 u Hu; by destruct H].
  destruct (_ && _); cbn [negb] in H; [|by destruct H]. destruct (mr_body a') as [[]|] eqn:Eb; try by destruct H.
  destruct H as [-> H]. injection H as ->. by exists a'.
Qed.
Lemma handoff_run h e tr : runs (_run_handoff h e) tr (Ok tt) ->
  In (Ev (KRunHandoff h) (Ok tt)) tr /\ confirmed e "/execution/v1/workspace/handoff" [("destination", ho_destination h)] tr.
Proof.
  intros H. unfold _run_handoff in H. unbind H tr1 u Hu. apply runs_lift_ok in Hu. uncall Hu v. destruct u.
  unbind H tr2 d Ha. apply put_run in Ha as (a & -> & Hi & Hb). destruct (imported d) eqn:Em; [|by destruct H].
  split; [by left|]. exists a, d. split; [by right; left|done].
Qed.

(** A prepared run is the admitted one: its request carries the invocation, the keys and
    the deadline of the ticket unchanged and this configuration version, and is retained for
    this very pod, as the last step; before it the session was restored, the pod confirmed
    the configuration, and the hand-off of the channel ran and was imported. *)
Theorem prepared_is_admitted r t e tr q :
  runs (_prepare parts public model_dump stall_set per_million tools_spec output_text progress_text container_repr r t e) tr (Ok q) ->
  sr_invocation_id q = at_invocation_id t /\ rq_workspace_ref q = at_workspace_ref t /\ rq_session_ref q = at_session_ref t
  /\ sr_deadline_at q = at_deadline_at t /\ sr_channel q = re_channel r /\ sr_workspace_key q = re_workspace_key r
  /\ sr_session_key q = re_session_key r /\ sr_config_version q = pc_config_version public /\ StartRequest_ok q = true
  /\ (sr_memory_available q = None <-> cp_memory_configured parts = false)
  /\ (exists tr', tr = Ev (KRestoreSession t e) (Ok tt) :: tr' ++ [Ev (KSetPrepared (at_invocation_id t) e q) tt])
  /\ configured e tr
  /\ exists c, channel_named parts (re_channel r) = Some c
     /\ (forall h, ch_handoff c = Some h ->
          In (Ev (KRunHandoff h) (Ok tt)) tr
          /\ confirmed e "/execution/v1/workspace/handoff" [("destination", ho_destination h)] tr)
     /\ sr_inform_user q = is_a2a c && cp_progress_facade parts.
Proof.
  intros H. unfold _prepare in H. unbind H tr1 u1 H1. apply runs_lift_ok in H1. uncall H1 v1. destruct u1.
  unbind H tr2 u2 H2. destruct u2. destruct (channel_named parts (re_channel r)) as [c|] eqn:Ec; [|by destruct H].
  unbind H tr3 u3 H3. unbind H tr4 u4 H4. unbind H tr5 prompt H5. destruct H5 as [-> _].
  unbind H tr6 mp H6. destruct mp as [memory prompt']. destruct (StartRequest_ok _) eqn:Eok; [|by destruct H]. cbn [negb] in H.
  unbind H tr7 u7 H7. uncall H7 v7. destruct H as [-> H]. injection H as Hq. rewrite ?app_nil_r. destruct u7. subst q.
  do 8 (split; [done|]). split; [done|]. cbn. split.
  { destruct (cp_memory_configured parts).
    - unbind H6 tr8 m Hm. destruct m as [available text]. destruct H6 as [_ H6]. by injection H6 as -> _.
    - destruct H6 as [_ H6]. by injection H6 as -> _. }
  split; [exists (tr2 ++ tr3 ++ tr4 ++ tr6); by rewrite <- !app_assoc|].
  split. { apply (configured_more e tr2 [Ev (KRestoreSession t e) (Ok tt)]). by apply configure_run. }
  exists c. split; [done|]. split; [|done]. intros h Eh. rewrite Eh in H4. destruct u4. apply handoff_run in H4 as [Hin Hc].
  split; [right; rewrite !in_app_iff; tauto|].
  destruct Hc as (a & d & Hd & Hc). exists a, d. split; [right; rewrite !in_app_iff; tauto|done].
Qed.
End calls.

(** ** Waiting for a unit *)

Section health.
Context (version base_url name : string) (deadline : Z).

(** The time is at least [q_lo]; [q_final] is an answer that must not be retried. *)
Record waiting := mkQ { q_lo : Z; q_final : option (result derr mini_response) }.
Definition health_next (m : waiting) (event : event cans) : verdict waiting :=
  match q_final m, event with
  | Some _, _ => Bad
  | None, Ev KMono now => if now <? q_lo m then Never else Goes (mkQ now None)
  | None, Ev (KSleep d) _ => if (0 <=? d) && (d <=? _HEALTH_POLL_INTERVAL) then Goes (mkQ (q_lo m + d) None) else Bad
  | None, Ev (KHealth base n timeout) a =>
      if String.eqb base base_url && String.eqb n name && (0 <? timeout) && (timeout <=? 10000000)
         && (q_lo m + timeout <=? deadline)
      then Goes (mkQ (q_lo m) (if retryable a then None else Some a)) else Bad
  | _, _ => Bad
  end.
(** The unit's answer decides, or the deadline passed, or the wait was cancelled. *)
Definition waited (m : waiting) (r : result cexn string) : Prop :=
  match q_final m with
  | Some (Ok a) => r = check_health version a
  | Some (Err y) => r = Err (Raised y)
  | None => r = Err Cancel \/ (r = Err Unavailable /\ deadline <= q_lo m)
  end.

(** C32. Waiting for the mini-harness of a unit ends: enough fuel is one round for each tenth of
    a second that is left, for every clock that does not run backwards and counts the sleeps.
    Each request is made before the deadline and may not outlast it; only a failed connection
    or a retryable status is asked again, and the first other answer decides. *)
Theorem health_wait_ends fuel t :
  deadline - t <= Z.of_nat fuel * _HEALTH_POLL_INTERVAL ->
  obeys health_next (wait_mini_health (S fuel) version base_url name deadline) waited (mkQ t None).
Proof.
  unfold _HEALTH_POLL_INTERVAL. revert t. induction fuel as [|fuel IH]; intros t Ht.
  all: cbn [wait_mini_health]; apply obeys_bind; calls; intros now; cbn [health_next q_final q_lo].
  all: destruct (now <? t) eqn:En; [done|]; destruct (deadline - now <=? 0) eqn:Ed; [by right; split; [|cbn; lia]|].
  { lia. }
  apply obeys_bind. calls. intros a. cbn [health_next q_final q_lo]. rewrite !String.eqb_refl.
  replace (true && true && _ && _ && _) with true by lia.
  destruct (retryable a) eqn:Er.
  - apply obeys_bind. calls. intros now2. cbn [health_next q_final q_lo]. destruct (now2 <? now) eqn:En2; [done|].
    unfold _HEALTH_POLL_INTERVAL. set (d := Z.min 100000 (Z.max 0 (deadline - now2))).
    unfold sleep. do 2 (apply obeys_bind). calls. intros c. cbn [health_next q_final q_lo].
    unfold _HEALTH_POLL_INTERVAL. replace ((0 <=? d) && (d <=? 100000)) with true by lia.
    destruct c; [by left|]. apply IH. lia.
  - destruct a as [a|y]; [done|]. done.
Qed.
End health.

(** ** Samples *)

Definition home : WorkspaceEndpoint :=
  {| we_ref := {| wr_namespace := "ach"; wr_agent_uid := agent_uid (rc_agent sample_config); wr_workspace_ref := sha256_hex "w" |};
     we_name := "agent-w"; we_instance_id := "i-1"; we_base_url := "http://pod/" |}.
Definition home_ticket : AdmissionTicket :=
  {| at_namespace := "ach"; at_agent_uid := agent_uid (rc_agent sample_config); at_invocation_id := "inv-1";
     at_workspace_ref := wr_workspace_ref (we_ref home); at_session_ref := "s"; at_deadline_at := 1000000 |}.
Definition home_request : StartRequest :=
  {| sr_invocation_id := "inv-1"; sr_channel := "mr"; rq_workspace_ref := wr_workspace_ref (we_ref home); rq_session_ref := "s";
     sr_workspace_key := "wk"; sr_session_key := "sk"; sr_config_version := pc_config_version sample_public;
     sr_prompt := "review"; sr_deadline_at := 1000000; sr_memory_available := None; sr_inform_user := false |}.
Definition home_status (state : RunState) (result : json) : RunStatus :=
  {| rs_invocation_id := "inv-1"; rs_channel := "mr"; rs_workspace_ref := wr_workspace_ref (we_ref home); rs_session_ref := "s";
     rs_run_id := Some "run-1"; rs_config_version := pc_config_version sample_public;
     rs_deadline_at := 1000000; rs_state := state; rs_error := None; rs_result := result |}.
Definition other_status (id : string) : RunStatus :=
  {| rs_invocation_id := id; rs_channel := "mr"; rs_workspace_ref := wr_workspace_ref (we_ref home); rs_session_ref := "s";
     rs_run_id := Some "run-2"; rs_config_version := pc_config_version sample_public;
     rs_deadline_at := 1000000; rs_state := Wire.Running; rs_error := None; rs_result := JNull |}.
Definition mini_ok (body : json) : mini_response :=
  {| mr_status := 200; mr_instance := Some "i-1"; mr_body := Some body |}.

(** The pod at home: what it answers, for a run in some state, at a time. *)
Section home.
Context (now : list (event cans) -> Z) (status : list (event cans) -> RunStatus) (published : bool).
Definition home_env (past : list (event cans)) (c : ccall) : cans c :=
  match c with
  | KClock | KMono => now past
  | KSleep _ => false
  | KAlarm _ _ | KRecord _ | KReportLost _ | KMarkStarted _ | KSetPrepared _ _ _ | KPopPrepared _ | KPopStarted _
  | KSetStarted _ _ | KHookSet _ _ | KHookPop _ => tt
  | KActive _ => if published then Some home else None
  | KActives | KHooks => [home]
  | KLost _ => false
  | KDeliver _ => Err StartOutcomeUnknown
  | KStatus _ _ => Ok (status past)
  | KListRuns _ => Ok [home_status Wire.Completed JNull; other_status "inv-2"; other_status "inv-3"]
  | KCancel _ _ => Ok tt
  | KScript _ _ _ | KWaitAdopted _ | KRecover _ _ | KEmit _ _ _ | KRestoreWorkspace _ | KRestoreSession _ _
  | KStageContext | KRunHandoff _ | KClose _ => Ok tt
  | KPrepared _ => Some (home, Some home_request)
  | KRecovered _ => None
  | KEmitters _ => 0%nat
  | KMini _ _ path _ _ => Ok (mini_ok (JObj [("configVersion", JStr (pc_config_version sample_public))]))
  | KHealth _ _ _ =>
      if (1 <? length past)%nat then Ok (mini_ok (JObj [("release", JStr "1.0")])) else Err ConnectFailed
  | KPut _ _ _ => Ok (mini_ok (JObj [("status", JStr "imported"); ("sessionRef", JStr "s")]))
  | KCurrentWriter _ => Ok (Some "i-0")
  | KMemory => (true, "## Memory")
  end.
End home.
Definition slept (past : list (event cans)) : Z :=
  foldr (fun ev t => match ev with Ev (KSleep d) _ => d + t | _ => t end) 0 past.
Definition no_negative (_ : pyfloat) : bool := false.
Definition observe_home (fuel : nat) : cprog RunStatus :=
  _observe_run sample_parts "openai/gpt" true "prod" no_negative home (OfRequest home_request) (Some "run-1") None fuel.
Definition cancels (tr : list (event cans)) : nat :=
  length (List.filter (fun ev => match ev with Ev (KCancel _ _) _ => true | _ => false end) tr).

(** Running for 1.5 s past a deadline of 1 s: cancelled once, and watched to its end. *)
Definition running_then past := home_status (if 2500000 <=? slept past then Wire.Cancelled else Wire.Running) JNull.
Definition cancelled_run := play (home_env slept running_then true) (observe_home 20) [].
Example the_run_is_cancelled :
  snd cancelled_run = Ok (home_status Wire.Cancelled JNull) /\ cancels (fst cancelled_run) = 1%nat
  /\ watch (watch_next sample_parts "openai/gpt" true "prod" no_negative home (OfRequest home_request) (Some "run-1") None)
       (mkW 0 0 false Open) (fst cancelled_run)
     = Goes (mkW 2500000 (2500000 + 5000000) true (Ended (home_status Wire.Cancelled JNull) 3)).
Proof. vm_compute. auto. Qed.

(** While its owner is not published a sleep may cross the deadline. *)
Example unpublished_sleep_crosses :
  fst (play (home_env (fun _ => 999999) running_then false) (observe_home 1) [])
  = [Ev KClock 999999; Ev KClock 999999; Ev (KActive (wr_workspace_ref (we_ref home))) None; Ev (KLost "i-1") false;
     Ev (KAlarm "run_outcome_unknown" (about (OfRequest home_request))) tt; Ev (KSleep 250000) false].
Proof. vm_compute. reflexivity. Qed.

(** A completed run whose usage holds an integer no float can represent: writing its record
    raises, so the run is watched on whatever the fuel, and its permits stay held. *)
Definition huge_usage : json :=
  JObj [("reporting", JObj [("usage", JObj [("source", JStr "opencode"); ("basis", JStr "engine_estimate");
                                             ("input", JInt (10 ^ 309))])])].
Definition finished_huge := home_status Wire.Completed huge_usage.
Definition huge_env (c : ccall) : cans c := home_env (fun _ => 0) (fun _ => finished_huge) true [] c.
(** The result of a program under answers that do not change. *)
Fixpoint outcome {A} (p : cprog A) : result cexn A :=
  match p with Done r => r | Call c k => outcome (k (huge_env c)) end.
Lemma outcome_play {A} (p : cprog A) past : snd (play (fun _ => huge_env) p past) = outcome p.
Proof.
  revert past. induction p as [r|c k IH]; intros past; [done|]. cbn [play outcome]. rewrite <- (IH (huge_env c) (Ev c (huge_env c) :: past)).
  by destruct (play _ _ _).
Qed.
Lemma outcome_bind {A B} (p : cprog A) (f : A -> cprog B) :
  outcome (p ≫= f) = match outcome p with Ok a => outcome (f a) | Err y => Err y end.
Proof. induction p as [[]|c k IH]; [done..|]. apply IH. Qed.
Lemma huge_loop fuel s : s = watch_start \/ s = set_warned watch_start ->
  outcome (observe_loop sample_parts "openai/gpt" true "prod" no_negative home (OfRequest home_request) (Some "run-1") None fuel
             5000000 s) = Err (Raised Delivery.OutOfFuel).
Proof.
  revert s. induction fuel as [|fuel IH]; intros s Hs; [done|]. cbn [observe_loop].
  rewrite outcome_bind. replace (outcome (cancel_if_due _ _ _)) with (@Ok cexn _ s) by (by destruct Hs; subst; vm_compute).
  rewrite outcome_bind. replace (outcome (check_published_owner _ _ _ _ _ _ _ _ _ _)) with (@Ok cexn _ (true, s))
    by (by destruct Hs; subst; vm_compute).
  cbn [negb]. rewrite outcome_bind.
  replace (outcome (guarded_look _ _ _ _ _ _ _ _ _ _ _)) with (@Ok cexn _ (GoesOn (set_warned watch_start)))
    by (by destruct Hs; subst; vm_compute).
  rewrite !outcome_bind.
  replace (outcome (pause_of _ _)) with (@Ok cexn _ 250000) by (by vm_compute).
  rewrite outcome_bind. apply IH. by right.
Qed.
Lemma unrecordable_run_never_ends fuel :
  ends_run (OfRequest home_request) (Some "run-1") finished_huge = true
  /\ snd (play (fun _ => huge_env) (observe_home fuel) []) = Err (Raised Delivery.OutOfFuel).
Proof. split; [vm_compute; reflexivity|]. rewrite outcome_play. unfold observe_home, _observe_run. rewrite outcome_bind. by apply huge_loop; left. Qed.

(** ** The other methods *)

Definition calm := home_env (fun _ => 0) (fun _ => finished_huge) true.
Definition artifact_call : cprog ArtifactGrant := artifact_operations sample_parts (facade_token "k" "agent-w") "inv-1".
Definition home_owner : StateRef :=
  {| sr_agent := {| fi_name := agent_name (rc_agent sample_config); fi_namespace := agent_namespace (rc_agent sample_config);
                    fi_uid := agent_uid (rc_agent sample_config) |};
     sr_workspace_ref := sha256_hex "w"; sr_domain := "workspace"; sr_session_ref := None |}.
Definition home_grant : ArtifactGrant :=
  {| ag_owner := home_owner; ag_session_ref := "s"; ag_invocation_id := "inv-1"; ag_workspace_name := "agent-w" |}.
Lemma artifacts_of_own_runs_witness :
  snd (play calm artifact_call []) = Ok home_grant
  /\ live_claim sample_parts (facade_token "k" "agent-w") "agent-w" (fst (play calm artifact_call [])).
Proof.
  assert (E : snd (play calm artifact_call []) = Ok home_grant) by (vm_compute; reflexivity).
  split; [exact E|].
  apply (artifacts_of_own_runs sample_parts (facade_token "k" "agent-w") "inv-1" home_grant (fst (play calm artifact_call []))).
  rewrite <- E. apply play_runs.
Defined.
(** A token of another key, and one of a Workspace that is not here. *)
Example foreign_tokens :
  snd (play calm (artifact_operations sample_parts (facade_token "x" "agent-w") "inv-1") []) = Err AuthFailed
  /\ snd (play calm (artifact_operations sample_parts (facade_token "k" "agent-v") "inv-1") []) = Err AuthFailed
  /\ snd (play calm (artifact_operations sample_parts (facade_token "k" "agent-w") "inv-2") []) = Err AuthFailed.
Proof. vm_compute. auto. Qed.

Definition home_dump (_ : PublicConfig) : list (string * json) := [].
Definition reconnection : cprog unit := reconnect_workspace sample_parts sample_public home_dump true id "" home.
Lemma reconnect_recovers_witness :
  snd (play calm reconnection []) = Ok tt
  /\ recovered (fst (play calm reconnection [])) = [(other_status "inv-2", "i-1"); (other_status "inv-3", "i-1")]
  /\ restored sample_parts home (fst (play calm reconnection [])).
Proof.
  assert (E : snd (play calm reconnection []) = Ok tt) by (vm_compute; reflexivity).
  split; [exact E|]. split; [vm_compute; reflexivity|].
  destruct (reconnect_recovers sample_parts sample_public home_dump true id "" home (fst (play calm reconnection [])) (Ok tt))
    as [[_ H]|(records & H)]; [rewrite <- E; apply play_runs|by destruct H|apply H].
Defined.

Definition preparation : cprog StartRequest :=
  _prepare sample_parts sample_public home_dump true id "" "" "" (fun _ => "")
    {| re_event := {| ev_id := "e"; ev_channel := "mr"; ev_type := "note"; ev_source := "gitlab"; ev_payload := [("text", JStr "review")];
                      ev_context := []; ev_actor := "" |};
       re_workspace_key := "wk"; re_session_key := "sk"; re_rate_keys := [] |} home_ticket home.
Lemma prepared_is_admitted_witness :
  exists q, snd (play calm preparation []) = Ok q
  /\ sr_prompt q = paragraph "review" "## Memory" /\ sr_deadline_at q = 1000000 /\ sr_memory_available q = Some true.
Proof.
  assert (E : exists q, snd (play calm preparation []) = Ok q /\ sr_prompt q = paragraph "review" "## Memory"
                        /\ sr_memory_available q = Some true) by (eexists; vm_compute; repeat split).
  destruct E as (q & E & Ep & Em). exists q. split; [exact E|]. split; [exact Ep|]. split; [|exact Em].
  destruct (prepared_is_admitted _ _ _ _ _ _ _ _ _ _ _ _ (fst (play calm preparation [])) q
              ltac:(rewrite <- E; apply play_runs)) as (_ & _ & _ & H & _). exact H.
Defined.

Definition tenths (past : list (event cans)) : Z := slept past.
Lemma health_wait_ends_witness :
  0 <= 10 * _HEALTH_POLL_INTERVAL - 1000000
  /\ snd (play (home_env tenths (fun _ => finished_huge) true) (wait_mini_health 11 "1.0" "http://pod" "agent-w" 1000000) []) = Ok "i-1"
  /\ obeys (health_next "http://pod" "agent-w" 1000000) (wait_mini_health 11 "1.0" "http://pod" "agent-w" 1000000)
       (waited "1.0" 1000000) (mkQ 0 None).
Proof.
  split; [vm_compute; discriminate|]. split; [vm_compute; reflexivity|].
  apply (health_wait_ends "1.0" "http://pod" "agent-w" 1000000 10 0). vm_compute. discriminate.
Defined.
