(* ===== verification/Keys.v ===== *)
(** * harness/keys.py: the ACH credential

    [KeySource] exchanges the pod's token for a credential, rotates it, and exchanges it again
    when ACH rejects it; [KeyAuth] resends a rejected request once.  Its tasks run as the steps
    of one state: the rotation, the shared re-exchanges and the requests, around one lock.
    Time is in microseconds. *)

From Stdlib Require Import Ascii.
From S2P Require Import Prelude PyJson Config Templating Tokens.
Local Open Scope Z_scope.

(** ** Exchanging *)

(** A float: a time or a duration.  The comparisons with a NaN are all false. *)
Inductive instant := Fin (t : Z) | PosInf | NegInf | NaN.
#[export] Instance instant_eq_dec : EqDecision instant.
Proof. solve_decision. Defined.
(** [now < i], [i <= 0], [now + i], [i - now] and [REFRESH_AT * i]. *)
Definition before (now : Z) (i : instant) : bool :=
  match i with Fin t => now <? t | PosInf => true | NegInf | NaN => false end.
Definition not_positive (i : instant) : bool :=
  match i with Fin t => t <=? 0 | NegInf => true | PosInf | NaN => false end.
Definition shift (d : Z) (i : instant) : instant := match i with Fin t => Fin (t + d) | i => i end.
Definition REFRESH_AT (i : instant) : instant := match i with Fin t => Fin (4 * t / 5) | i => i end.
Definition MIN_BACKOFF_SECONDS : Z := 1000000.
Definition MAX_BACKOFF_SECONDS : Z := 60000000.
Definition REJECTED_CODE : string := "expired_or_revoked".
Definition REJECTION_COOLDOWN_SECONDS : Z := 10000000.

Inductive kexn := ExchangeRefused (code : string) (retry_after : option Z) | OtherError (e : exn).
Record Exchange := { ex_base_url : string; ex_identity : string; ex_environment : string; ex_token_path : string }.
(** A response: its status, its [Retry-After], its media type, its document if it is one. *)
Record kresponse := { kr_status : Z; kr_retry_after : string; kr_content_type : string; kr_body : option json }.

Definition exchange_url (x : Exchange) : string := rstrip_char "/"%char (ex_base_url x) +:+ "/platform/keys/exchange".
Definition exchange_body (x : Exchange) : json :=
  JObj [("identity", JStr (ex_identity x)); ("environment", JStr (ex_environment x))].
Fixpoint number (acc : Z) (s : string) : Z :=
  match s with EmptyString => acc | String a s => number (10 * acc + Z.of_N (ascii_code a - 48)) s end.
Definition seconds (s : string) : Z := number 0 s * 1000000.
Definition _retry_after (r : kresponse) : option Z :=
  if negb (kr_status r =? 429) then None else
  let value := strip (kr_retry_after r) in if isdigit value then Some (seconds value) else None.
Definition error_code (r : kresponse) : string :=
  let error := match kr_body r with Some (JObj d) => assoc "error" d | _ => None end in
  match (match error with Some (JObj d) => assoc "code" d | _ => None end) with
  | Some (JStr c) => if truthy c then c else "http_" +:+ str_of_int (kr_status r)
  | _ => "http_" +:+ str_of_int (kr_status r)
  end.

Section exchange.
(** [float(value)]; its [TypeError] and [ValueError] are refusals. *)
Context (py_float : json -> result exn instant).
Definition lifetime_of (v : json) : result kexn instant :=
  match py_float v with
  | Ok i => Ok i
  | Err (ValueError | TypeError | KeyError) => Err (ExchangeRefused "invalid_response" None)
  | Err y => Err (OtherError y)
  end.
(** What follows the answer of the exchange. *)
Definition _exchange (answer : result exn kresponse) : result kexn (string * instant) :=
  match answer with
  | Err y => Err (OtherError y)
  | Ok r =>
      if negb (kr_status r =? 200) then Err (ExchangeRefused (error_code r) (_retry_after r)) else
      match kr_body r with
      | Some (JObj d) =>
          match assoc "token" d, assoc "expires_in" d with
          | Some token, Some expires =>
              expires_in ← lifetime_of expires;
              match token with
              | JStr jwt => if negb (truthy jwt) || not_positive expires_in then Err (ExchangeRefused "invalid_response" None)
                            else Ok (jwt, expires_in)
              | _ => Err (ExchangeRefused "invalid_response" None)
              end
          | _, _ => Err (ExchangeRefused "invalid_response" None)
          end
      | _ => Err (ExchangeRefused "invalid_response" None)
      end
  end.
End exchange.

(** ** The credential *)

Record keys :=
  { k_value : string; k_generation : Z; k_attempts : Z; k_obtained_at : instant; k_expires_at : instant;
    k_refresh_at : instant; k_backoff : Z }.
Definition new_keys (value : string) : keys :=
  {| k_value := value; k_generation := 0; k_attempts := 0; k_obtained_at := NegInf; k_expires_at := PosInf;
     k_refresh_at := PosInf; k_backoff := MIN_BACKOFF_SECONDS |}.
Definition ready (now : Z) (k : keys) : bool := truthy (k_value k) && before now (k_expires_at k).
(** [_renew], at its end: the attempt counts whatever its outcome. *)
Definition renew (now : Z) (outcome : result kexn (string * instant)) (k : keys) : keys :=
  match outcome with
  | Ok (jwt, expires_in) =>
      {| k_value := jwt; k_generation := k_generation k + 1; k_attempts := k_attempts k + 1; k_obtained_at := Fin now;
         k_expires_at := shift now expires_in; k_refresh_at := shift now (REFRESH_AT expires_in);
         k_backoff := MIN_BACKOFF_SECONDS |}
  | Err _ =>
      {| k_value := k_value k; k_generation := k_generation k; k_attempts := k_attempts k + 1; k_obtained_at := k_obtained_at k;
         k_expires_at := k_expires_at k; k_refresh_at := k_refresh_at k; k_backoff := k_backoff k |}
  end.
Definition double_backoff (k : keys) : keys :=
  {| k_value := k_value k; k_generation := k_generation k; k_attempts := k_attempts k; k_obtained_at := k_obtained_at k;
     k_expires_at := k_expires_at k; k_refresh_at := k_refresh_at k; k_backoff := Z.min (k_backoff k * 2) MAX_BACKOFF_SECONDS |}.
(** [getattr(exc, "retry_after", None) or self._backoff], bounded. *)
Definition wanted (k : keys) (y : kexn) : Z :=
  let asked := match y with ExchangeRefused _ (Some d) => if d =? 0 then k_backoff k else d | _ => k_backoff k end in
  Z.min asked MAX_BACKOFF_SECONDS.
(** The sleep after a failed rotation.  An infinite [remaining] bounds nothing. *)
Definition retry_delay (now : Z) (k : keys) (y : kexn) : Z :=
  match k_expires_at k with
  | Fin t => if 0 <? t - now then Z.min (wanted k y) (Z.max ((t - now) / 2) MIN_BACKOFF_SECONDS) else wanted k y
  | _ => wanted k y
  end.
(** The wait of the rotation loop: [None] exchanges at once. *)
Definition rotate_wait (now : Z) (k : keys) : option instant :=
  match k_refresh_at k with
  | Fin t => if 0 <? t - now then Some (Fin (t - now)) else None
  | PosInf => Some PosInf
  | NegInf | NaN => None
  end.

(** ** Its tasks *)

Inductive task_phase := TWaiting | TExchanging | TDone.
#[export] Instance task_phase_eq_dec : EqDecision task_phase.
Proof. solve_decision. Defined.
(** A [_reexchange(generation, seen)]. *)
Record task := mkTask { t_generation : Z; t_seen : Z; t_phase : task_phase }.
(** [RSleep t]: until [t]. *)
Inductive rotation := RLoop | RSleep (t : instant) | RWaiting | RExchanging | ROff.
#[export] Instance rotation_eq_dec : EqDecision rotation.
Proof. solve_decision. Defined.
Inductive holder := ByRotation | ByTask (i : nat).
#[export] Instance holder_eq_dec : EqDecision holder.
Proof. solve_decision. Defined.
(** A request under [KeyAuth]: sent with a generation, waiting for a task, sent again with a
    newer one, or ended. *)
Inductive flow := Sent (generation : Z) (key : string) | Waiting (generation : Z) (i : nat)
  | Resent (old : Z) (generation : Z) (key : string) | Ended.
Record keyring :=
  mkRing { y_keys : keys; y_tasks : list task; y_shared : option (nat * Z); y_lock : option holder;
           y_rotation : rotation; y_flows : list flow }.
Definition with_keys k y := mkRing k (y_tasks y) (y_shared y) (y_lock y) (y_rotation y) (y_flows y).
Definition with_task i t y := mkRing (y_keys y) (<[i := t]> (y_tasks y)) (y_shared y) (y_lock y) (y_rotation y) (y_flows y).
Definition with_lock l y := mkRing (y_keys y) (y_tasks y) (y_shared y) l (y_rotation y) (y_flows y).
Definition with_rotation r y := mkRing (y_keys y) (y_tasks y) (y_shared y) (y_lock y) r (y_flows y).
Definition with_flow i f y := mkRing (y_keys y) (y_tasks y) (y_shared y) (y_lock y) (y_rotation y) (<[i := f]> (y_flows y)).
Definition in_phase p t := mkTask (t_generation t) (t_seen t) p.

(** [refresh_rejected(generation)] up to its wait: the task it waits for. *)
Definition share_task (generation : Z) (y : keyring) : nat * keyring :=
  let fresh :=
    let i := length (y_tasks y) in
    (i, mkRing (y_keys y) (y_tasks y ++ [mkTask generation (k_attempts (y_keys y)) TWaiting]) (Some (i, generation))
               (y_lock y) (y_rotation y) (y_flows y)) in
  match y_shared y with
  | Some (i, g) =>
      match y_tasks y !! i with
      | Some t => if bool_decide (t_phase t = TDone) || negb (g =? generation) then fresh else (i, y)
      | None => fresh
      end
  | None => fresh
  end.
(** ACH itself rejected the credential. *)
Definition rejected (r : kresponse) : bool :=
  (kr_status r =? 401) && contains "json" (kr_content_type r) && String.eqb (error_code r) REJECTED_CODE.
(** A task that got the lock: the rejected credential is current, nothing was tried since the
    task was made, and it is not a fresh one. *)
Definition must_exchange (now : Z) (k : keys) (t : task) : bool :=
  (k_generation k =? t_generation t) && (k_attempts k =? t_seen t)
  && match k_obtained_at k with Fin o => REJECTION_COOLDOWN_SECONDS <=? now - o | _ => true end.

Inductive label :=
  | FlowStart | FlowAnswer (i : nat) (r : kresponse) | FlowWake (i : nat) | FlowEnd (i : nat)
  | TaskLock (i : nat) | TaskEnd (i : nat) (outcome : result kexn (string * instant))
  | RotateLoop | RotateWake | RotateLock | RotateEnd (outcome : result kexn (string * instant)) | Close.
(** One step at the time [now]; [FlowEnd] is also a request cancelled at any point. *)
Definition kstep (now : Z) (l : label) (y : keyring) : option keyring :=
  let k := y_keys y in
  match l with
  | FlowStart =>
      Some (mkRing k (y_tasks y) (y_shared y) (y_lock y) (y_rotation y) (y_flows y ++ [Sent (k_generation k) (k_value k)]))
  | FlowAnswer i r =>
      match y_flows y !! i with
      | Some (Sent g _) =>
          if rejected r then let '(j, y) := share_task g y in Some (with_flow i (Waiting g j) y)
          else Some (with_flow i Ended y)
      | _ => None
      end
  | FlowWake i =>
      match y_flows y !! i with
      | Some (Waiting g j) =>
          match y_tasks y !! j with
          | Some t =>
              if bool_decide (t_phase t = TDone) then
                Some (with_flow i (if k_generation k =? g then Ended else Resent g (k_generation k) (k_value k)) y)
              else None
          | None => None
          end
      | _ => None
      end
  | FlowEnd i => match y_flows y !! i with Some _ => Some (with_flow i Ended y) | None => None end
  | TaskLock i =>
      match y_tasks y !! i, y_lock y with
      | Some t, None =>
          if negb (bool_decide (t_phase t = TWaiting)) then None
          else if must_exchange now k t then Some (with_lock (Some (ByTask i)) (with_task i (in_phase TExchanging t) y))
          else Some (with_task i (in_phase TDone t) y)
      | _, _ => None
      end
  | TaskEnd i outcome =>
      match y_tasks y !! i with
      | Some t =>
          if bool_decide (t_phase t = TExchanging)
          then Some (with_lock None (with_task i (in_phase TDone t) (with_keys (renew now outcome k) y))) else None
      | None => None
      end
  | RotateLoop =>
      if bool_decide (y_rotation y = RLoop)
      then Some (with_rotation (match rotate_wait now k with Some d => RSleep (shift now d) | None => RWaiting end) y) else None
  | RotateWake =>
      match y_rotation y with RSleep t => if before now t then None else Some (with_rotation RLoop y) | _ => None end
  | RotateLock =>
      if bool_decide (y_rotation y = RWaiting /\ y_lock y = None)
      then Some (with_lock (Some ByRotation) (with_rotation RExchanging y)) else None
  | RotateEnd outcome =>
      if bool_decide (y_rotation y = RExchanging) then
        let k := renew now outcome k in
        Some (match outcome with
              | Ok _ => with_lock None (with_rotation RLoop (with_keys k y))
              | Err x => with_lock None (with_rotation (RSleep (Fin (now + retry_delay now k x))) (with_keys (double_backoff k) y))
              end)
      else None
  | Close =>
      Some (if bool_decide (y_rotation y = RExchanging)
            then with_lock None (with_rotation ROff (with_keys (renew now (Err (OtherError CancelledError)) k) y))
            else with_rotation ROff y)
  end.
(** [start], once its first exchange succeeded. *)
Definition started (now : Z) (jwt : string) (expires_in : instant) : keyring :=
  mkRing (renew now (Ok (jwt, expires_in)) (new_keys "")) [] None None RLoop [].
