(* ===== verification/KeysProps.v ===== *)
(** * harness/keys.py: rejections share one exchange, and a failed rotation is tried again

    [kreach] runs the tasks of one [KeySource] in any order, with a ledger of the exchanges the
    re-exchange tasks began and one of the sends of the requests. *)

From S2P Require Import Prelude PyJson Config Templating Tokens Keys.
From Stdlib Require Import Ascii.
Local Open Scope Z_scope.

(** ** One exchange *)

Lemma exchange_ok pf answer jwt life : _exchange pf answer = Ok (jwt, life) ->
  exists r d, answer = Ok r /\ kr_status r = 200 /\ kr_body r = Some (JObj d) /\ assoc "token" d = Some (JStr jwt)
              /\ truthy jwt = true /\ not_positive life = false.
Proof.
  unfold _exchange. destruct answer as [r|]; [|done]. destruct (Z.eqb_spec (kr_status r) 200) as [Hs|]; [|done]. cbn [negb].
  destruct (kr_body r) as [[]|] eqn:Eb; try done. destruct (assoc "token" _) as [token|] eqn:Et; [|done].
  destruct (assoc "expires_in" _) as [v|]; [|done]. intros (i & _ & H)%bind_ok.
  destruct token as [| | | |jwt'| |]; try done. destruct (truthy jwt') eqn:E1, (not_positive i) eqn:E2; try done.
  injection H as <- <-. by exists r, d.
Qed.

(** ** The tasks *)

(** An exchange begun by a re-exchange task: what the task had seen and when. *)
Record begun := mkBegun { b_seen : Z; b_generation : Z; b_at : Z; b_obtained : instant }.
Definition begins (now : Z) (l : label) (y y' : keyring) : list begun :=
  match l with
  | TaskLock i =>
      match y_tasks y' !! i with
      | Some t => if bool_decide (t_phase t = TExchanging)
                  then [mkBegun (t_seen t) (t_generation t) now (k_obtained_at (y_keys y))] else []
      | None => []
      end
  | _ => []
  end.
(** The sends of a step: the requests that come to carry a credential, each with its
    generation and value. *)
Definition carries (f : flow) : option (Z * string) :=
  match f with Sent g key | Resent _ g key => Some (g, key) | Waiting _ _ | Ended => None end.
#[export] Instance flow_eq_dec : EqDecision flow.
Proof. solve_decision. Defined.
Definition send_of (y y' : keyring) (i : nat) : option (nat * (Z * string)) :=
  f ← y_flows y' !! i;
  if bool_decide (y_flows y !! i = Some f) then None else pair i <$> carries f.
Definition sends (y y' : keyring) : list (nat * (Z * string)) := omap (send_of y y') (seq 0 (length (y_flows y'))).
(** What one request was sent with, the last first. *)
Definition sent_by (i : nat) (sent : list (nat * (Z * string))) : list (Z * string) :=
  omap (fun s => if bool_decide (fst s = i) then Some (snd s) else None) sent.
Section reach.
Context (py_float : json -> result exn instant).
Definition credible (l : label) : Prop :=
  match l with
  | TaskEnd _ (Ok c) | RotateEnd (Ok c) => exists answer, _exchange py_float answer = Ok c
  | _ => True
  end.
Inductive kreach : Z -> keyring -> list begun -> list (nat * (Z * string)) -> Prop :=
  | kreach_start now answer jwt life :
      _exchange py_float answer = Ok (jwt, life) -> kreach now (started now jwt life) [] []
  | kreach_step now now' l y y' ledger sent :
      kreach now y ledger sent -> now <= now' -> credible l -> kstep now' l y = Some y' ->
      kreach now' y' (begins now' l y y' ++ ledger) (sends y y' ++ sent).

(** The lock is held by the task that exchanges; what tasks and requests saw is not newer than
    what is known. *)
Definition lock_ok (y : keyring) : Prop :=
  (forall i t, y_tasks y !! i = Some t -> t_phase t = TExchanging <-> y_lock y = Some (ByTask i))
  /\ (y_rotation y = RExchanging <-> y_lock y = Some ByRotation)
  /\ (forall i, y_lock y = Some (ByTask i) -> is_Some (y_tasks y !! i)).
Definition task_ok (k : keys) (t : task) : Prop :=
  t_seen t <= k_attempts k /\ t_generation t <= k_generation k
  /\ (t_phase t = TExchanging -> t_seen t = k_attempts k /\ t_generation t = k_generation k).
Definition tasks_ok (y : keyring) : Prop := forall i t, y_tasks y !! i = Some t -> task_ok (y_keys y) t.
Definition shared_ok (y : keyring) : Prop :=
  forall i g, y_shared y = Some (i, g) -> exists t, y_tasks y !! i = Some t /\ t_generation t = g.
Definition flow_ok (y : keyring) (f : flow) : Prop :=
  match f with
  | Sent g _ => g <= k_generation (y_keys y)
  | Waiting g j => g <= k_generation (y_keys y) /\ exists t, y_tasks y !! j = Some t /\ t_generation t = g
  | Resent old g _ => old < g <= k_generation (y_keys y)
  | Ended => True
  end.
Definition flows_ok (y : keyring) : Prop := forall i f, y_flows y !! i = Some f -> flow_ok y f.
Definition ledger_ok (y : keyring) (ledger : list begun) : Prop :=
  NoDup (map b_seen ledger)
  /\ forall b, In b ledger -> b_seen b <= k_attempts (y_keys y)
       /\ (b_seen b = k_attempts (y_keys y) -> exists i, y_lock y = Some (ByTask i))
       /\ match b_obtained b with Fin o => o + REJECTION_COOLDOWN_SECONDS <= b_at b | _ => True end.
Record KInv (y : keyring) (ledger : list begun) : Prop :=
  { ki_lock : lock_ok y; ki_tasks : tasks_ok y; ki_shared : shared_ok y; ki_flows : flows_ok y;
    ki_ledger : ledger_ok y ledger; ki_value : truthy (k_value (y_keys y)) = true }.

(** Only the requests change. *)
Lemma flows_step y fl ledger : KInv y ledger ->
  (forall i f, fl !! i = Some f -> flow_ok y f) ->
  KInv (mkRing (y_keys y) (y_tasks y) (y_shared y) (y_lock y) (y_rotation y) fl) ledger.
Proof. intros [] Hf. by constructor. Qed.
Lemma with_flow_inv y i f ledger : KInv y ledger -> flow_ok y f -> KInv (with_flow i f y) ledger.
Proof.
  intros HI Hf. apply flows_step; [done|]. intros j f' Hj.
  apply list_lookup_insert_Some in Hj as [(_ & <- & _)|[_ Hj]]; [done|by eapply ki_flows].
Qed.
(** Only the rotation changes, to or from a phase without the lock. *)
Lemma with_rotation_inv y r ledger : KInv y ledger -> r <> RExchanging -> y_rotation y <> RExchanging ->
  KInv (with_rotation r y) ledger.
Proof. intros [[H1 [H2 H3]]] Hr Hy. constructor; [|done..]. split; [done|]. cbn. naive_solver. Qed.

(** An attempt ends: nothing exchanges any more, and it counts. *)
Lemma attempt_ends y k' tasks' r ledger : KInv y ledger ->
  k_attempts k' = k_attempts (y_keys y) + 1 -> k_generation (y_keys y) <= k_generation k' -> truthy (k_value k') = true ->
  r <> RExchanging ->
  (forall i t, y_tasks y !! i = Some t -> exists t', tasks' !! i = Some t' /\ t_generation t' = t_generation t) ->
  (forall i t', tasks' !! i = Some t' -> t_phase t' <> TExchanging
     /\ exists t, y_tasks y !! i = Some t /\ t_generation t' = t_generation t /\ t_seen t' = t_seen t) ->
  KInv (mkRing k' tasks' (y_shared y) None r (y_flows y)) ledger.
Proof.
  intros [Hl Ht Hs Hf [Hn Hb] Hv] Ha Hg Hv' Hr Hfw Hbw. constructor; cbn; [split; [|split]| | | | |done].
  - intros i t Hi. apply Hbw in Hi as [? _]. by split.
  - by split.
  - done.
  - intros i t' Hi. apply Hbw in Hi as (Hp & t & Hi & Eg & Es). apply Ht in Hi as (? & ? & _).
    split; [|split]; cbn; [lia|lia|done].
  - intros i g Hi. apply Hs in Hi as (t & Hi & <-). apply Hfw in Hi as (t' & ? & ?). by exists t'.
  - intros i f Hi. apply Hf in Hi. destruct f as [g key|g j|o g key|]; cbn in *; [lia| |lia|done].
    destruct Hi as (? & t & Hi & <-). split; [lia|]. apply Hfw in Hi as (t' & ? & ?). by exists t'.
  - split; [done|]. intros b Hin. destruct (Hb b Hin) as (? & _ & ?). cbn. split; [lia|]. split; [lia|done].
Qed.

Lemma no_exchange_tasks y ledger : KInv y ledger -> y_rotation y = RExchanging ->
  forall i t', y_tasks y !! i = Some t' -> t_phase t' <> TExchanging.
Proof. intros [[H1 [H2 _]]] Hr i t Hi Hp. apply H2 in Hr. apply (H1 i t Hi) in Hp. congruence. Qed.
Lemma renew_attempts now outcome k : k_attempts (renew now outcome k) = k_attempts k + 1.
Proof. by destruct outcome as [[]|]. Qed.
Lemma renew_generation now outcome k : k_generation k <= k_generation (renew now outcome k).
Proof. destruct outcome as [[]|]; cbn; lia. Qed.
Lemma renew_value now outcome k : (forall c, outcome = Ok c -> exists answer, _exchange py_float answer = Ok c) ->
  truthy (k_value k) = true -> truthy (k_value (renew now outcome k)) = true.
Proof.
  intros Hc Hv. destruct outcome as [[jwt life]|y]; cbn; [|done].
  destruct (Hc _ eq_refl) as [answer Ha]. by apply exchange_ok in Ha as (r & d & ? & ? & ? & ? & ? & ?).
Qed.

Lemma share_task_inv y g ledger j y' : KInv y ledger -> g <= k_generation (y_keys y) -> share_task g y = (j, y') ->
  KInv y' ledger /\ y_keys y' = y_keys y /\ y_flows y' = y_flows y /\ y_lock y' = y_lock y
  /\ exists t, y_tasks y' !! j = Some t /\ t_generation t = g.
Proof.
  intros HI Hg. unfold share_task. set (fresh := (_, _)).
  assert (Hfresh : forall j y', fresh = (j, y') ->
    KInv y' ledger /\ y_keys y' = y_keys y /\ y_flows y' = y_flows y /\ y_lock y' = y_lock y
    /\ exists t, y_tasks y' !! j = Some t /\ t_generation t = g).
  { intros j' y2 [= <- <-]. cbn. split; [|repeat split; try done].
    2: { exists (mkTask g (k_attempts (y_keys y)) TWaiting). split; [by apply list_lookup_middle|done]. }
    assert (Hold : forall i t, y_tasks y !! i = Some t ->
      (y_tasks y ++ [mkTask g (k_attempts (y_keys y)) TWaiting]) !! i = Some t) by (intros; by apply lookup_app_l_Some).
    destruct HI as [[H1 [H2 H3]] Ht Hs Hf Hb Hv]. constructor; cbn; [split; [|split]| | | | |done]; cbn.
    - intros i t Hi. apply lookup_app_Some in Hi as [Hi|[Hlen Hi]]; [by apply H1|].
      apply list_lookup_singleton_Some in Hi as [Hi <-]. cbn. split; [done|]. intros Hl.
      apply H3 in Hl as [t Hi']. apply lookup_lt_Some in Hi'. lia.
    - done.
    - intros i Hl. apply H3 in Hl as [t Hi]. exists t. by apply Hold.
    - intros i t Hi. apply lookup_app_Some in Hi as [Hi|[Hlen Hi]]; [by apply (Ht i)|].
      apply list_lookup_singleton_Some in Hi as [Hi <-]. split; [|split]; cbn; [lia|done|done].
    - intros i g' [= <- <-]. exists (mkTask g (k_attempts (y_keys y)) TWaiting). split; [by apply list_lookup_middle|done].
    - intros i f Hi. apply Hf in Hi. destruct f as [|g' j'| |]; cbn in *; try done.
      destruct Hi as (? & t & Hi & ?). split; [done|]. exists t. split; [by apply Hold|done].
    - done. }
  destruct (y_shared y) as [[i gs]|] eqn:Es; [|by apply Hfresh].
  destruct (y_tasks y !! i) as [t|] eqn:Ei; [|by apply Hfresh].
  destruct (_ || _) eqn:E; [by apply Hfresh|]. intros [= <- <-].
  apply orb_false_iff in E as [_ ->%negb_false_iff%Z.eqb_eq]. split; [done|]. repeat split.
  destruct (ki_shared _ _ HI i g Es) as (t' & Hi' & Hg'). exists t. split; [done|]. congruence.
Qed.

Lemma keep_generation (l : list task) i t t' j u : l !! i = Some t -> t_generation t' = t_generation t -> l !! j = Some u ->
  exists u', <[i := t']> l !! j = Some u' /\ t_generation u' = t_generation u.
Proof.
  intros Hi Hg Hj. destruct (decide (i = j)) as [<-|]; [|exists u; by rewrite list_lookup_insert_ne].
  exists t'. rewrite list_lookup_insert_eq by (by eapply lookup_lt_Some). split; [done|]. congruence.
Qed.
(** A waiting task gets the lock. *)
Lemma task_lock_inv now y i t ledger : KInv y ledger -> y_tasks y !! i = Some t -> y_lock y = None -> t_phase t = TWaiting ->
  must_exchange now (y_keys y) t = true ->
  KInv (with_lock (Some (ByTask i)) (with_task i (in_phase TExchanging t) y))
       (mkBegun (t_seen t) (t_generation t) now (k_obtained_at (y_keys y)) :: ledger).
Proof.
  intros [[H1 [H2 H3]] Ht Hs Hf [Hn Hb] Hv] Hi Hl Hp Hm. unfold must_exchange in Hm.
  rewrite !andb_true_iff, !Z.eqb_eq in Hm. destruct Hm as [[Hg Ha] Ho].
  constructor; cbn; [split; [|split]| | | |split|done]; cbn.
  - intros j u [(<- & <- & _)|[Hne Hj]]%list_lookup_insert_Some; [by split|].
    split; [intros Hu; apply H1 in Hj; apply Hj in Hu; congruence|intros [= ->]; done].
  - split; [intros Hr; apply H2 in Hr; congruence|done].
  - intros j [= <-]. destruct (keep_generation (y_tasks y) i t (in_phase TExchanging t) i t) as (u & -> & _); by eauto.
  - intros j u [(<- & <- & _)|[Hne Hj]]%list_lookup_insert_Some; [|by apply (Ht j)].
    cbn. by split; [|split]; cbn; [lia|lia|].
  - intros j g Hj. apply Hs in Hj as (u & Hj & <-). by eapply keep_generation.
  - intros j f Hj. apply Hf in Hj. destruct f as [|g j'| |]; cbn in *; try done. destruct Hj as (? & u & Hj & <-). split; [done|].
    by eapply keep_generation.
  - constructor; [|done]. intros (b & Eb & Hin)%list_elem_of_fmap. apply list_elem_of_In in Hin.
    destruct (Hb b Hin) as (_ & Hx & _). destruct Hx as [? Hx]; congruence.
  - intros b [<-|Hin]; cbn.
    + split; [lia|]. split; [intros _; by exists i|]. destruct (k_obtained_at _); [|done..]. lia.
    + destruct (Hb b Hin) as (? & _ & ?). split; [done|]. split; [intros _; by exists i|done].
Qed.
(** A waiting task that need not exchange is done. *)
Lemma task_skip_inv y i t ledger : KInv y ledger -> y_tasks y !! i = Some t -> t_phase t = TWaiting ->
  KInv (with_task i (in_phase TDone t) y) ledger.
Proof.
  intros [[H1 [H2 H3]] Ht Hs Hf Hb Hv] Hi Hp.
  constructor; cbn; [split; [|split]| | | |done|done]; cbn.
  - intros j u [(<- & <- & _)|[Hne Hj]]%list_lookup_insert_Some; [|by apply H1].
    split; [done|]. intros Hl. apply (H1 i t Hi) in Hl. congruence.
  - done.
  - intros j Hl. apply H3 in Hl as [u Hj]. destruct (keep_generation (y_tasks y) i t (in_phase TDone t) j u) as (u' & ? & _); by eauto.
  - intros j u [(<- & <- & _)|[Hne Hj]]%list_lookup_insert_Some; [|by apply (Ht j)].
    destruct (Ht i t Hi) as (? & ? & _). by split; [|split].
  - intros j g Hj. apply Hs in Hj as (u & Hj & <-). by eapply keep_generation.
  - intros j f Hj. apply Hf in Hj. destruct f as [|g j'| |]; cbn in *; try done. destruct Hj as (? & u & Hj & <-).
    split; [done|]. by eapply keep_generation.
Qed.
Lemma rotate_lock_inv y ledger : KInv y ledger -> y_lock y = None ->
  KInv (with_lock (Some ByRotation) (with_rotation RExchanging y)) ledger.
Proof.
  intros [[H1 [H2 H3]] Ht Hs Hf [Hn Hb] Hv] Hl. constructor; cbn; [split; [|split]|done|done|done|split; [done|]|done]; cbn.
  - intros i t Hi. split; [|done]. intros Hp. apply (H1 i t Hi) in Hp. congruence.
  - by split.
  - done.
  - intros b Hin. destruct (Hb b Hin) as (? & Hx & ?). split; [done|]. split; [|done].
    intros Ha. destruct (Hx Ha) as [i ?]. congruence.
Qed.

Lemma rotation_ends y r k' ledger : KInv y ledger -> y_rotation y = RExchanging -> r <> RExchanging ->
  k_attempts k' = k_attempts (y_keys y) + 1 -> k_generation (y_keys y) <= k_generation k' -> truthy (k_value k') = true ->
  KInv (with_lock None (with_rotation r (with_keys k' y))) ledger.
Proof.
  intros HI Hr Hne Ha Hg Hv. apply (attempt_ends y k' (y_tasks y) r ledger); [done..| |].
  - intros i t Hi. by exists t.
  - intros i t Hi. split; [by eapply no_exchange_tasks|]. by exists t.
Qed.
Lemma kstep_inv now l y y' ledger : KInv y ledger -> credible l -> kstep now l y = Some y' ->
  KInv y' (begins now l y y' ++ ledger).
Proof.
  intros HI Hc Hs. destruct l as [|i r|i|i|i|i outcome| | | |outcome|]; cbn [kstep begins app] in *.
  - injection Hs as <-. apply flows_step; [done|]. intros i f Hi. apply lookup_app_Some in Hi as [Hi|[_ Hi]].
    + by eapply ki_flows.
    + apply list_lookup_singleton_Some in Hi as [_ <-]. by cbn.
  - destruct (y_flows y !! i) as [[g key| | |]|] eqn:Ei; try done. destruct (rejected r).
    + destruct (share_task g y) as [j y2] eqn:E. injection Hs as <-.
      assert (Hg : g <= k_generation (y_keys y)) by apply (ki_flows _ _ HI _ _ Ei).
      destruct (share_task_inv _ _ _ _ _ HI Hg E) as (HI2 & Hk & _ & _ & Ht). apply with_flow_inv; [done|].
      cbn. by rewrite Hk.
    + injection Hs as <-. by apply with_flow_inv.
  - destruct (y_flows y !! i) as [[|g j| |]|] eqn:Ei; try done. destruct (y_tasks y !! j); [|done].
    case_bool_decide; [|done]. injection Hs as <-. apply with_flow_inv; [done|].
    destruct (Z.eqb_spec (k_generation (y_keys y)) g); [done|]. pose proof (ki_flows _ _ HI _ _ Ei) as [Hg _]. cbn. lia.
  - destruct (y_flows y !! i); [|done]. injection Hs as <-. by apply with_flow_inv.
  - destruct (y_tasks y !! i) as [t|] eqn:Ei; [|done]. destruct (y_lock y) eqn:El; [done|].
    case_bool_decide as Ep; [|done]. cbn [negb] in Hs.
    pose proof (keep_generation (y_tasks y) i t) as Hat.
    destruct (must_exchange now (y_keys y) t) eqn:Em; injection Hs as <-; cbn [with_lock with_task y_tasks].
    + rewrite list_lookup_insert_eq by (by eapply lookup_lt_Some). cbn. by apply task_lock_inv.
    + rewrite list_lookup_insert_eq by (by eapply lookup_lt_Some). cbn. by apply task_skip_inv.
  - destruct (y_tasks y !! i) as [t|] eqn:Ei; [|done]. case_bool_decide as Ep; [|done]. injection Hs as <-.
    assert (Hlock : y_lock y = Some (ByTask i)) by (by apply (proj1 (ki_lock _ _ HI) i t Ei)).
    destruct (ki_lock _ _ HI) as [H1 [H2 _]].
    apply (attempt_ends y (renew now outcome (y_keys y)) (<[i := in_phase TDone t]> (y_tasks y)) (y_rotation y) ledger);
      [done|apply renew_attempts|apply renew_generation| | | |].
    + apply renew_value; [|by eapply ki_value]. intros c ->. exact Hc.
    + intros Hr. apply H2 in Hr. congruence.
    + intros j u Hj. by eapply keep_generation.
    + intros j u [(<- & <- & _)|[Hne Hj]]%list_lookup_insert_Some.
      * split; [done|]. by exists t.
      * split; [|by exists u]. intros Hp. apply (H1 j u Hj) in Hp. congruence.
  - case_bool_decide as Er; [|done]. injection Hs as <-. apply with_rotation_inv; [done| |congruence]. by destruct (rotate_wait _ _).
  - destruct (y_rotation y) eqn:Er; try done. destruct (before now t); [done|]. injection Hs as <-.
    apply with_rotation_inv; [done|done|congruence].
  - case_bool_decide as Er; [|done]. injection Hs as <-. destruct Er. by apply rotate_lock_inv.
  - case_bool_decide as Er; [|done].
    destruct outcome as [c|x]; injection Hs as <-; (apply rotation_ends; [done|done|done| | |]).
    + apply (renew_attempts now (Ok c)). + apply (renew_generation now (Ok c)).
    + apply (renew_value now (Ok c)); [|by eapply ki_value]. by intros ? [= <-].
    + done. + apply (renew_generation now (Err x)). + by eapply ki_value.
  - injection Hs as <-. case_bool_decide as Er.
    + apply rotation_ends; [done|done|done|done| |by eapply ki_value]. cbn. lia.
    + by apply with_rotation_inv.
Qed.
Lemma kreach_inv now y ledger sent : kreach now y ledger sent -> KInv y ledger.
Proof.
  induction 1 as [now answer jwt life Hx|now now' l y y' ledger sent _ IH _ Hc Hs]; [|by eapply kstep_inv].
  apply exchange_ok in Hx as (r & d & _ & _ & _ & _ & Hv & _).
  constructor; cbn; [by split; [|split]|done|done|done|split; [constructor|done]|done].
Qed.

Lemma share_task_flows g y j y' : share_task g y = (j, y') -> y_flows y' = y_flows y.
Proof. unfold share_task. intros H. by repeat (case_match; simplify_eq). Qed.
Lemma share_task_keys g y j y' : share_task g y = (j, y') -> y_keys y' = y_keys y.
Proof. unfold share_task. intros H. by repeat (case_match; simplify_eq). Qed.
(** The answer that rejects a credential, as ACH gives it. *)
Definition rejects (r : kresponse) : Prop :=
  kr_status r = 401 /\ contains "json" (kr_content_type r) = true /\ error_code r = REJECTED_CODE.
(** What a step may do to a request. *)
Inductive flow_moves (l : label) (i : nat) (k : keys) : option flow -> option flow -> Prop :=
  | moves_not f : flow_moves l i k f f
  | moves_start : flow_moves l i k None (Some (Sent (k_generation k) (k_value k)))
  | moves_wait g key r j : l = FlowAnswer i r -> rejects r -> flow_moves l i k (Some (Sent g key)) (Some (Waiting g j))
  | moves_again g j : k_generation k <> g ->
      flow_moves l i k (Some (Waiting g j)) (Some (Resent g (k_generation k) (k_value k)))
  | moves_end f : flow_moves l i k (Some f) (Some Ended).
Lemma lookup_moves l i k (fl : list flow) n f f' :
  fl !! n = Some f -> (n = i -> flow_moves l i k (Some f) (Some f')) -> flow_moves l i k (fl !! i) (<[n := f']> fl !! i).
Proof.
  intros Hn Hf. destruct (decide (n = i)) as [->|Hne].
  - rewrite list_lookup_insert_eq by (by eapply lookup_lt_Some). rewrite Hn. by apply Hf.
  - rewrite list_lookup_insert_ne by done. constructor.
Qed.
Lemma kstep_moves now l y y' i : kstep now l y = Some y' -> flow_moves l i (y_keys y) (y_flows y !! i) (y_flows y' !! i).
Proof.
  intros Hs. destruct l as [|n r|n|n|n|n outcome| | | |outcome|]; cbn [kstep] in Hs.
  - injection Hs as <-. cbn. destruct (lt_eq_lt_dec i (length (y_flows y))) as [[Hi| ->]|Hi].
    + rewrite lookup_app_l by done. constructor.
    + rewrite lookup_ge_None_2, list_lookup_middle by done. constructor.
    + rewrite !lookup_ge_None_2 by (rewrite ?length_app; cbn; lia). constructor.
  - destruct (y_flows y !! n) as [[g key| | |]|] eqn:En; try done. destruct (rejected r) eqn:Er.
    + destruct (share_task g y) as [j y2] eqn:E. injection Hs as <-. cbn. rewrite (share_task_flows _ _ _ _ E).
      eapply lookup_moves; [done|]. intros ->. econstructor; [done|].
      unfold rejected in Er. rewrite !andb_true_iff, Z.eqb_eq, String.eqb_eq in Er. unfold rejects. tauto.
    + injection Hs as <-. cbn. eapply lookup_moves; [done|]. constructor.
  - destruct (y_flows y !! n) as [[|g j| |]|] eqn:En; try done. destruct (y_tasks y !! j); [|done].
    case_bool_decide; [|done]. injection Hs as <-. cbn. eapply lookup_moves; [done|]. intros _.
    destruct (Z.eqb_spec (k_generation (y_keys y)) g); by constructor.
  - destruct (y_flows y !! n) as [f|] eqn:En; [|done]. injection Hs as <-. cbn. eapply lookup_moves; [done|]. constructor.
  - repeat (case_match; try done); simplify_eq; constructor.
  - repeat (case_match; try done); simplify_eq; constructor.
  - repeat (case_match; try done); simplify_eq; constructor.
  - repeat (case_match; try done); simplify_eq; constructor.
  - repeat (case_match; try done); simplify_eq; constructor.
  - repeat (case_match; try done); simplify_eq; constructor.
  - repeat (case_match; try done); simplify_eq; constructor.
Qed.

(** The sends of a step, for one request. *)
Lemma sent_by_app i s s' : sent_by i (s ++ s') = sent_by i s ++ sent_by i s'.
Proof. apply omap_app. Qed.
Lemma sent_by_sends i y y' : sent_by i (sends y y') = option_list (snd <$> send_of y y' i).
Proof.
  assert (forall n, sent_by i (omap (send_of y y') (seq 0 n)) = if decide (i < n)%nat then option_list (snd <$> send_of y y' i) else []) as Hn.
  { induction n as [|n IH]; [done|]. rewrite seq_S, omap_app, sent_by_app, IH. cbn [omap list_omap plus].
    assert (forall p, send_of y y' n = Some p -> fst p = n) as Hp.
    { unfold send_of. destruct (y_flows y' !! n); [|done]. cbn. case_bool_decide; [done|]. destruct (carries f); [|done].
      by intros q [= <-]. }
    destruct (send_of y y' n) as [p|] eqn:E; cbn.
    - specialize (Hp p eq_refl). destruct (decide (n = i)) as [->|Hne].
      + rewrite bool_decide_true, decide_False, decide_True, E by (done || lia). done.
      + rewrite bool_decide_false by congruence. rewrite app_nil_r. repeat case_decide; lia || done.
    - rewrite app_nil_r. destruct (decide (n = i)) as [->|Hne].
      + rewrite decide_False, decide_True, E by lia. done.
      + repeat case_decide; lia || done. }
  unfold sends. rewrite Hn. case_decide as Hi; [done|]. unfold send_of. by rewrite (lookup_ge_None_2 (y_flows y')) by lia.
Qed.
(** What a request has been sent with, by the state it is in. *)
Definition sent_ok (f : option flow) (sent : list (Z * string)) : Prop :=
  match f with
  | None => sent = []
  | Some (Sent g key) => sent = [(g, key)]
  | Some (Waiting g _) => exists key, sent = [(g, key)]
  | Some (Resent old g key) => old < g /\ exists key', sent = [(g, key); (old, key')]
  | Some Ended => (exists c, sent = [c]) \/ exists old g key key', old < g /\ sent = [(g, key); (old, key')]
  end.
Lemma kreach_sent now y ledger sent : kreach now y ledger sent -> forall i, sent_ok (y_flows y !! i) (sent_by i sent).
Proof.
  induction 1 as [now answer jwt life Hx|now now' l y y' ledger sent Hr IH _ Hc Hs]; intros i; [done|].
  rewrite sent_by_app, sent_by_sends. specialize (IH i). apply kreach_inv in Hr as HI.
  pose proof (fun f => ki_flows _ _ HI i f) as Hf. unfold send_of. pose proof (kstep_moves _ _ _ _ i Hs) as Hm.
  destruct Hm as [f| |g key r j _ _|g j Hne|f]; cbn in IH |- *.
  - destruct f; [|done]. cbn. by rewrite bool_decide_true.
  - by rewrite IH.
  - rewrite IH. cbn. by exists key.
  - destruct IH as [key ->]. cbn. destruct (Hf _ eq_refl) as [Hg _]. split; [lia|]. by exists key.
  - case_bool_decide as E; cbn.
    + injection E as ->. done.
    + destruct f as [g key|g j|old g key|]; [left; by exists (g, key)| | |done].
      * destruct IH as [key IH]. left. by exists (g, key).
      * destruct IH as (Hlt & key' & IH). right. by exists old, g, key, key'.
Qed.

(** The steps that can be taken: the holder of the lock may end, a waiting task may lock. *)
Definition can (now : Z) (l : label) (y : keyring) : Prop := is_Some (kstep now l y).

(** C33. A rejected credential costs one exchange.  However the rotation, the re-exchanges and
    the requests interleave: exchanges exclude each other; no two of the exchanges that
    rejections began had seen the same number of attempts, so all requests rejected between
    two attempts share one; each was begun for the credential still in use, at least ten
    seconds old; a request is sent at most twice in all, the
    second time with a newer credential than the first, the one current then, and only from the
    wait that ACH's rejection of the first began; and no rejected request waits for ever: its task is done, or
    may take the lock, or the exchange that holds the lock may end. *)
Theorem rejections_share_one_exchange now y ledger sent : kreach now y ledger sent ->
  NoDup (map b_seen ledger)
  /\ (forall b, In b ledger -> match b_obtained b with Fin o => o + REJECTION_COOLDOWN_SECONDS <= b_at b | _ => True end)
  /\ (forall i t j u, y_tasks y !! i = Some t -> t_phase t = TExchanging ->
       y_rotation y <> RExchanging /\ (y_tasks y !! j = Some u -> t_phase u = TExchanging -> i = j)
       /\ t_generation t = k_generation (y_keys y) /\ t_seen t = k_attempts (y_keys y))
  /\ (forall i, sent_by i sent = [] \/ (exists c, sent_by i sent = [c])
       \/ exists old g key key', old < g /\ sent_by i sent = [(g, key); (old, key')])
  /\ (forall i old g key, y_flows y !! i = Some (Resent old g key) -> old < g <= k_generation (y_keys y))
  /\ (forall later l y' i old g key, kstep later l y = Some y' -> y_flows y' !! i = Some (Resent old g key) ->
       y_flows y !! i = Some (Resent old g key)
       \/ (exists j, y_flows y !! i = Some (Waiting old j)) /\ g = k_generation (y_keys y) /\ key = k_value (y_keys y))
  /\ (forall later l y' i g j, kstep later l y = Some y' -> y_flows y' !! i = Some (Waiting g j) ->
       y_flows y !! i = Some (Waiting g j)
       \/ exists key r, y_flows y !! i = Some (Sent g key) /\ l = FlowAnswer i r /\ rejects r)
  /\ (forall i g j, y_flows y !! i = Some (Waiting g j) -> exists t, y_tasks y !! j = Some t /\ t_generation t = g
       /\ (can now (FlowWake i) y \/ can now (TaskLock j) y
           \/ (forall outcome, can now (RotateEnd outcome) y) \/ exists h, forall outcome, can now (TaskEnd h outcome) y)).
Proof.
  intros H. pose proof (kreach_sent _ _ _ _ H) as Hsent. apply kreach_inv in H as HI. destruct (ki_lock _ _ HI) as [H1 [H2 H3]].
  destruct (ki_ledger _ _ HI) as [Hn Hb]. split_and!.
  - done.
  - intros b Hin. by destruct (Hb b Hin) as (_ & _ & ?).
  - intros i t j u Hi Hp. pose proof (proj1 (H1 i t Hi) Hp) as El. split; [intros Hr; apply H2 in Hr; congruence|].
    split; [intros Hj Hu; apply (H1 j u Hj) in Hu; congruence|]. by destruct (ki_tasks _ _ HI i t Hi) as (_ & _ & ? & ?).
  - intros i. specialize (Hsent i). destruct (y_flows y !! i) as [[g key|g j|old g key|]|]; cbn in Hsent.
    + right; left. by eexists. + destruct Hsent. right; left. by eexists.
    + destruct Hsent as (? & ? & ?). right; right. by eexists _, _, _, _.
    + by right. + by left.
  - intros i old g key Hi. exact (ki_flows _ _ HI i _ Hi).
  - intros later l y' i old g key Hs Hi. pose proof (kstep_moves _ _ _ _ i Hs) as Hm. rewrite Hi in Hm.
    inversion Hm; subst; [by left|right]. split; [by eexists|done].
  - intros later l y' i g j Hs Hi. pose proof (kstep_moves _ _ _ _ i Hs) as Hm. rewrite Hi in Hm.
    inversion Hm; subst; [by left|right]. by eexists _, _.
  - intros i g j Hi. destruct (ki_flows _ _ HI i _ Hi) as (_ & t & Hj & Hg). exists t. split; [done|]. split; [done|].
    unfold can. destruct (t_phase t) eqn:Ep.
    + destruct (y_lock y) as [[|h]|] eqn:El.
      * right; right; left. intros outcome. cbn [kstep]. rewrite bool_decide_eq_true_2 by (by apply H2).
        by destruct outcome; eexists.
      * right; right; right. exists h. intros outcome. destruct (H3 h eq_refl) as [u Hu]. cbn [kstep]. rewrite Hu.
        rewrite bool_decide_eq_true_2 by (by apply (H1 h u Hu)). by eexists.
      * right; left. cbn [kstep]. rewrite Hj, El, bool_decide_eq_true_2 by done. cbn [negb].
        by destruct (must_exchange _ _ _); eexists.
    + right; right; right. exists j. intros outcome. cbn [kstep]. rewrite Hj, bool_decide_eq_true_2 by done. by eexists.
    + left. cbn [kstep]. rewrite Hi, Hj, bool_decide_eq_true_2 by done. by eexists.
Qed.

(** ** Rotating *)

Lemma number_nonneg acc s : 0 <= acc -> str_forallb is_digit s = true -> 0 <= number acc s.
Proof.
  revert acc. induction s as [|a s IH]; intros acc Ha Hs; cbn in *; [done|].
  apply andb_true_iff in Hs as [Hd Hs]. apply IH; [|done]. unfold is_digit in Hd. lia.
Qed.
Lemma refused_after answer code d : _exchange py_float answer = Err (ExchangeRefused code (Some d)) -> d = 0 \/ 1000000 <= d.
Proof.
  unfold _exchange. destruct answer as [r|]; [|done]. destruct (kr_status r =? 200); cbn [negb].
  - intros H. repeat (case_match; try done). all: unfold lifetime_of in H.
    all: destruct (py_float _) as [i|e]; cbn in H; [by repeat (case_match; try done)|by destruct e].
  - intros [= _ H]. unfold _retry_after in H. destruct (negb _); [done|].
    destruct (isdigit _) eqn:Ed; [|done]. injection H as <-. unfold seconds, isdigit in *.
    apply andb_true_iff in Ed as [_ Ed]. pose proof (number_nonneg 0 _ ltac:(lia) Ed). lia.
Qed.
Lemma backoff_bounds now y ledger sent : kreach now y ledger sent ->
  MIN_BACKOFF_SECONDS <= k_backoff (y_keys y) <= MAX_BACKOFF_SECONDS.
Proof.
  assert (Hrenew : forall now o k, MIN_BACKOFF_SECONDS <= k_backoff k <= MAX_BACKOFF_SECONDS ->
    MIN_BACKOFF_SECONDS <= k_backoff (renew now o k) <= MAX_BACKOFF_SECONDS) by (by intros ? [[]|]).
  induction 1 as [now answer jwt life _|now now' l y y' ledger sent _ IH _ _ Hs]; [done|].
  destruct l; cbn [kstep] in Hs.
  all: repeat (case_match; try done); simplify_eq; cbn [y_keys with_lock with_flow with_task with_rotation with_keys]; auto.
  all: try (cbn; unfold MIN_BACKOFF_SECONDS, MAX_BACKOFF_SECONDS in *; lia).
  all: match goal with H : share_task _ _ = _ |- _ => by rewrite (share_task_keys _ _ _ _ H) end.
Qed.

(** A failed rotation is tried again, neither at once nor too late: the credential in use
    is kept, and the next attempt begins after one to sixty seconds, and before the credential
    expires whenever that is at least a second away. *)
Theorem failed_rotation_retries now y ledger sent answer x y' later :
  kreach now y ledger sent -> now <= later -> _exchange py_float answer = Err x ->
  kstep later (RotateEnd (Err x)) y = Some y' ->
  k_value (y_keys y') = k_value (y_keys y) /\ k_expires_at (y_keys y') = k_expires_at (y_keys y)
  /\ exists d, y_rotation y' = RSleep (Fin (later + d)) /\ MIN_BACKOFF_SECONDS <= d <= MAX_BACKOFF_SECONDS
     /\ (forall t, k_expires_at (y_keys y) = Fin t -> MIN_BACKOFF_SECONDS <= t - later -> later + d <= t).
Proof.
  intros H _ Hx Hs. apply backoff_bounds in H. cbn [kstep] in Hs. case_bool_decide; [|done]. injection Hs as <-. cbn.
  split; [done|]. split; [done|]. exists (retry_delay later (renew later (Err x) (y_keys y)) x). split; [done|].
  assert (Hw : MIN_BACKOFF_SECONDS <= wanted (renew later (Err x) (y_keys y)) x <= MAX_BACKOFF_SECONDS).
  { unfold wanted, MIN_BACKOFF_SECONDS, MAX_BACKOFF_SECONDS in *. cbn.
    destruct x as [code [d|]|y0]; [|lia..]. apply refused_after in Hx. destruct (Z.eqb_spec d 0); lia. }
  unfold retry_delay. change (k_expires_at (renew later (Err x) (y_keys y))) with (k_expires_at (y_keys y)).
  revert Hw. generalize (wanted (renew later (Err x) (y_keys y)) x). intros w Hw.
  unfold MIN_BACKOFF_SECONDS, MAX_BACKOFF_SECONDS in *.
  destruct (k_expires_at (y_keys y)) as [t| | |]; [|by split..]. destruct (0 <? t - later) eqn:E.
  - assert ((t - later) / 2 <= t - later) by (apply Z.div_le_upper_bound; lia).
    split; [lia|]. intros t' [= <-] ?. lia.
  - split; [done|]. intros t' [= <-] ?. lia.
Qed.
End reach.

(** The clamp misses a credential with less than a second left. *)
Lemma retry_misses_expiry x :
  retry_delay 500000 (renew 0 (Ok ("jwt", Fin 1000000)) (new_keys "")) (OtherError x) = 1000000.
Proof. reflexivity. Qed.
(** A lifetime that is not a number is accepted, and the rotation then never sleeps. *)
Lemma nan_lifetime_never_sleeps now later :
  let pf (_ : json) := Ok NaN in
  _exchange pf (Ok {| kr_status := 200; kr_retry_after := ""; kr_content_type := "application/json";
                      kr_body := Some (JObj [("token", JStr "jwt"); ("expires_in", JStr "nan")]) |}) = Ok ("jwt", NaN)
  /\ rotate_wait later (y_keys (started now "jwt" NaN)) = None /\ ready later (y_keys (started now "jwt" NaN)) = false.
Proof. by split_and!. Qed.

(** ** Samples *)

Definition whole_seconds (v : json) : result exn instant :=
  match v with JInt z => Ok (Fin (z * 1000000)) | _ => Err TypeError end.
Definition granting (jwt : string) : result exn kresponse :=
  Ok {| kr_status := 200; kr_retry_after := ""; kr_content_type := "application/json";
        kr_body := Some (JObj [("token", JStr jwt); ("expires_in", JInt 100)]) |}.
Definition rejecting : kresponse :=
  {| kr_status := 401; kr_retry_after := ""; kr_content_type := "application/json";
     kr_body := Some (JObj [("error", JObj [("code", JStr REJECTED_CODE)])]) |}.
Definition throttled : kresponse :=
  {| kr_status := 429; kr_retry_after := " 7 "; kr_content_type := ""; kr_body := None |}.
Definition lasting (jwt : string) : string * instant := (jwt, Fin 100000000).

(** Steps at their times, and the ledgers they leave. *)
Definition ledgers : Type := list begun * list (nat * (Z * string)).
Fixpoint drive (steps : list (Z * label)) (now : Z) (y : keyring) (ledger : ledgers) : option (Z * keyring * ledgers) :=
  match steps with
  | [] => Some (now, y, ledger)
  | (later, l) :: steps =>
      if now <=? later then
        match kstep later l y with Some y' => drive steps later y' (begins later l y y' ++ fst ledger, sends y y' ++ snd ledger) | None => None end
      else None
  end.
Lemma keys_drive_reach steps now y ledger r :
  kreach whole_seconds now y (fst ledger) (snd ledger) -> Forall (fun s => credible whole_seconds (snd s)) steps ->
  drive steps now y ledger = Some r -> kreach whole_seconds (fst (fst r)) (snd (fst r)) (fst (snd r)) (snd (snd r)).
Proof.
  revert now y ledger. induction steps as [|[later l] steps IH]; intros now y ledger H Hc Hd; cbn in Hd; [by injection Hd as <-|].
  destruct (Z.leb_spec now later); [|done]. destruct (kstep later l y) as [y'|] eqn:Es; [|done].
  inversion Hc; subst. eapply (IH _ _ (_, _)); [by eapply kreach_step|done|done].
Qed.

Definition first_key : keyring := started 0 "jwt-1" (Fin 100000000).
Lemma first_key_reach : kreach whole_seconds 0 first_key [] [].
Proof. by apply (kreach_start _ 0 (granting "jwt-1")). Qed.

Definition both_rejected : list (Z * label) :=
  [(20000000, FlowStart); (20000000, FlowStart); (20000001, FlowAnswer 0 rejecting); (20000001, TaskLock 0);
   (20000002, FlowAnswer 1 rejecting); (20000009, TaskEnd 0 (Ok (lasting "jwt-2")))].
Definition shared_run := from_option id (0, first_key, ([], [])) (drive both_rejected 0 first_key ([], [])).
Example both_are_resent :
  from_option (fun r => y_flows (snd (fst r))) [] (drive [(20000010, FlowWake 0); (20000010, FlowWake 1)] (fst (fst shared_run)) (snd (fst shared_run)) (snd shared_run))
  = [Resent 1 2 "jwt-2"; Resent 1 2 "jwt-2"].
Proof. vm_compute. reflexivity. Qed.
Lemma shared_run_reach : kreach whole_seconds (fst (fst shared_run)) (snd (fst shared_run)) (fst (snd shared_run)) (snd (snd shared_run)).
Proof.
  apply (keys_drive_reach both_rejected 0 first_key ([], [])); [exact first_key_reach| |vm_compute; reflexivity].
  repeat constructor. by exists (granting "jwt-2").
Qed.
Lemma rejections_share_one_exchange_witness :
  fst (snd shared_run) = [mkBegun 1 1 20000001 (Fin 0)] /\ NoDup (map b_seen (fst (snd shared_run)))
  /\ can (fst (fst shared_run)) (FlowWake 0) (snd (fst shared_run)).
Proof.
  split; [vm_compute; reflexivity|].
  destruct (rejections_share_one_exchange whole_seconds _ _ _ _ shared_run_reach) as (H & _).
  split; [exact H|]. vm_compute. eexists. reflexivity.
Defined.

Definition rotating : list (Z * label) := [(0, RotateLoop); (80000000, RotateWake); (80000000, RotateLoop); (80000000, RotateLock)].
Definition rotating_run := from_option id (0, first_key, ([], [])) (drive rotating 0 first_key ([], [])).
Lemma rotating_run_reach : kreach whole_seconds (fst (fst rotating_run)) (snd (fst rotating_run)) (fst (snd rotating_run)) (snd (snd rotating_run)).
Proof. apply (keys_drive_reach rotating 0 first_key ([], [])); [exact first_key_reach|repeat constructor|vm_compute; reflexivity]. Qed.
Definition throttling : kexn := ExchangeRefused "http_429" (Some 7000000).
Lemma failed_rotation_retries_witness :
  exists y', kstep 80000001 (RotateEnd (Err throttling)) (snd (fst rotating_run)) = Some y'
  /\ y_rotation y' = RSleep (Fin 87000001) /\ k_value (y_keys y') = "jwt-1".
Proof.
  eexists. split; [vm_compute; reflexivity|]. split; [reflexivity|].
  exact (proj1 (failed_rotation_retries whole_seconds _ _ _ _ (Ok throttled) throttling _ 80000001 rotating_run_reach
    ltac:(vm_compute; discriminate) ltac:(vm_compute; reflexivity) ltac:(vm_compute; reflexivity))).
Defined.
