(* ===== verification/Histories.v ===== *)
(** * Programs judged by their whole history

    [keeps]: every call of every run of a program is one that what happened before allows
    ([ok]), as long as every answer is one the environment may give then ([may]); and the run
    ends with [Q] of its history.  Histories are oldest first.

    [does]: every run of a program from a world ends with [Q], when nothing else acts on the
    world between its calls. *)

From S2P Require Import Prelude Effects Traces.

Section histories.
Context {C : Type} {ans : C -> Type} {E : Type}.
Context (may ok : list (event ans) -> event ans -> Prop).

Fixpoint keeps {A} (p : prog ans E A) (Q : list (event ans) -> result E A -> Prop) (past : list (event ans)) : Prop :=
  match p with
  | Done r => Q past r
  | Call c k => forall a, may past (Ev c a) -> ok past (Ev c a) /\ keeps (k a) Q (past ++ [Ev c a])
  end.

Definition all_of (P : list (event ans) -> event ans -> Prop) (past tr : list (event ans)) : Prop :=
  forall tr1 e tr2, tr = tr1 ++ e :: tr2 -> P (past ++ tr1) e.
Lemma all_of_nil P past : all_of P past [].
Proof. intros tr1 e tr2 Heq. by destruct tr1. Qed.
Lemma all_of_cons P past e tr : all_of P past (e :: tr) <-> P past e /\ all_of P (past ++ [e]) tr.
Proof.
  split.
  - intros H. split; [rewrite <- (app_nil_r past); by apply (H [] e tr)|].
    intros tr1 e' tr2 ->. rewrite <- app_assoc. by apply (H (e :: tr1) e' tr2).
  - intros [H1 H2] [|e' tr1] e2 tr2 Heq; injection Heq as <-; [by rewrite app_nil_r|].
    subst tr. pose proof (H2 tr1 e2 tr2 eq_refl) as H3. by rewrite <- app_assoc in H3.
Qed.

Lemma keeps_runs {A} (p : prog ans E A) Q past tr r :
  keeps p Q past -> runs p tr r -> all_of may past tr -> all_of ok past tr /\ Q (past ++ tr) r.
Proof.
  revert past tr. induction p as [r'|c k IH]; intros past tr Hk Hr Hm; cbn in *.
  - destruct Hr as [-> ->]. split; [apply all_of_nil|by rewrite app_nil_r].
  - destruct Hr as (a & tr' & -> & Hr). apply all_of_cons in Hm as [Ha Hm].
    destruct (Hk a Ha) as [Ho Hn]. destruct (IH a _ tr' Hn Hr Hm) as [H1 H2].
    split; [by apply all_of_cons|]. by rewrite <- app_assoc in H2.
Qed.

Lemma keeps_mono {A} (p : prog ans E A) (Q Q' : list (event ans) -> result E A -> Prop) past :
  keeps p Q past -> (forall h r, Q h r -> Q' h r) -> keeps p Q' past.
Proof.
  intros H HQ. revert past H. induction p as [r|c k IH]; intros past H; cbn in *; [by apply HQ|].
  intros a Ha. destruct (H a Ha) as [Ho Hk]. split; [done|]. by apply IH.
Qed.
Lemma keeps_run {A B} (p : prog ans E A) (f : result E A -> prog ans E B) Q past :
  keeps p (fun h r => keeps (f r) Q h) past -> keeps (prog_run p f) Q past.
Proof.
  revert past. induction p as [r|c k IH]; intros past H; cbn in *; [done|].
  intros a Ha. destruct (H a Ha) as [Ho Hk]. split; [done|]. by apply IH.
Qed.
Lemma keeps_bind {A B} (p : prog ans E A) (f : A -> prog ans E B) Q past :
  keeps p (fun h r => match r with Ok a => keeps (f a) Q h | Err e => Q h (Err e) end) past -> keeps (p ≫= f) Q past.
Proof. intros H. apply keeps_run. eapply keeps_mono; [exact H|]. by intros h []. Qed.
Lemma keeps_fmap {A B} (p : prog ans E A) (f : A -> B) Q past :
  keeps p (fun h r => match r with Ok a => Q h (Ok (f a)) | Err e => Q h (Err e) end) past -> keeps (f <$> p) Q past.
Proof. intros H. apply keeps_run. eapply keeps_mono; [exact H|]. by intros h []. Qed.
Lemma keeps_catch {A} (p : prog ans E A) (hd : E -> prog ans E A) Q past :
  keeps p (fun h r => match r with Ok a => Q h (Ok a) | Err e => keeps (hd e) Q h end) past -> keeps (catch p hd) Q past.
Proof. intros H. apply keeps_run. eapply keeps_mono; [exact H|]. by intros h []. Qed.
Lemma keeps_attempt {A} (p : prog ans E A) Q past :
  keeps p (fun h r => Q h (Ok r)) past -> keeps (attempt p) Q past.
Proof. intros H. by apply keeps_run. Qed.
(** A call that answers with a value or an exception. *)
Lemma keeps_ask {A} (p : prog ans E (result E A)) Q past :
  keeps p (fun h r => match r with Ok r => Q h r | Err e => Q h (Err e) end) past -> keeps (p ≫= lift) Q past.
Proof. intros H. apply keeps_bind. exact H. Qed.
Lemma keeps_call c (Q : list (event ans) -> result E (ans c) -> Prop) past :
  (forall a, may past (Ev c a) -> ok past (Ev c a) /\ Q (past ++ [Ev c a]) (Ok a)) -> keeps (call c) Q past.
Proof. done. Qed.
End histories.

(** One call, from [keeps]. *)
Ltac asks := lazymatch goal with |- keeps _ _ (call ?c) _ _ => refine (keeps_call _ _ c _ _ _) end.

(** ** Programs that have the world to themselves *)

Section sequential.
Context {C : Type} {ans : C -> Type} {E W : Type} (step : W -> forall c : C, ans c -> W -> Prop).

Fixpoint does {A} (p : prog ans E A) (Q : W -> result E A -> Prop) (w : W) : Prop :=
  match p with
  | Done r => Q w r
  | Call c k => forall a w', step w c a w' -> does (k a) Q w'
  end.
(** One run. *)
Inductive ran {A} : prog ans E A -> W -> W -> result E A -> Prop :=
  | ran_done w r : ran (Done r) w w r
  | ran_call c k w a w1 w2 r : step w c a w1 -> ran (k a) w1 w2 r -> ran (Call c k) w w2 r.
Lemma does_ran {A} (p : prog ans E A) Q w w' r : does p Q w -> ran p w w' r -> Q w' r.
Proof. intros Hd Hr. induction Hr as [w r|c k w a w1 w2 r Hs _ IH]; [exact Hd|]. by apply IH, Hd. Qed.

Lemma does_mono {A} (p : prog ans E A) (Q Q' : W -> result E A -> Prop) w :
  does p Q w -> (forall w' r, Q w' r -> Q' w' r) -> does p Q' w.
Proof. intros H HQ. revert w H. induction p as [r|c k IH]; intros w H; cbn in *; [by apply HQ|]. eauto. Qed.
Lemma does_run {A B} (p : prog ans E A) (f : result E A -> prog ans E B) Q w :
  does p (fun w r => does (f r) Q w) w -> does (prog_run p f) Q w.
Proof. revert w. induction p as [r|c k IH]; intros w H; cbn in *; [done|]. eauto. Qed.
Lemma does_bind {A B} (p : prog ans E A) (f : A -> prog ans E B) Q w :
  does p (fun w r => match r with Ok a => does (f a) Q w | Err e => Q w (Err e) end) w -> does (p ≫= f) Q w.
Proof. intros H. apply does_run. eapply does_mono; [exact H|]. by intros w' []. Qed.
Lemma does_attempt {A} (p : prog ans E A) Q w : does p (fun w r => Q w (Ok r)) w -> does (attempt p) Q w.
Proof. intros H. by apply does_run. Qed.
Lemma does_ask {A} (p : prog ans E (result E A)) Q w :
  does p (fun w r => match r with Ok r => Q w r | Err e => Q w (Err e) end) w -> does (p ≫= lift) Q w.
Proof. intros H. apply does_bind. exact H. Qed.
Lemma does_call c (Q : W -> result E (ans c) -> Prop) w :
  (forall a w', step w c a w' -> Q w' (Ok a)) -> does (call c) Q w.
Proof. done. Qed.
End sequential.

(** One call, from [does]. *)
Ltac acts := lazymatch goal with |- does _ (call ?c) _ _ => refine (does_call _ c _ _ _) end.
