(* ===== verification/Queue.v ===== *)
(** * channels/queue.py: the Redis Streams channel

    One consumer of one stream: entries are read in batches, admitted, and acknowledged when
    the admission's Started resolves; entries left pending are read again by sweeps.  Redis, the
    admission and the clocks are the environment: every call may fail, and cancellation may
    arrive at any of them. *)

From S2P Require Import Prelude PyJson Config Channels Routing Effects Traces.
Local Open Scope Z_scope.

Definition _READ_COUNT : Z := 10.
Definition _BLOCK_MS : Z := 5000.

(** What a call raises: [CancelledError], or an [Exception]. *)
Inductive raised := Cancelled | Failed.

(** An entry of the stream: its id and its fields, [None] when it was deleted since. *)
Definition entry : Type := string * option (list (string * string)).
(** A reply of XREADGROUP: the entries per stream. *)
Definition reply : Type := list (string * list entry).
Definition reply_entries (r : reply) : list entry := concat (map snd r).

Inductive queue_call :=
  | XGroupCreate
  | XReadNew
  | XReadPending (cursor : string)
  | XAck (id : string)
  | Admit (r : RoutedEvent)
  | AwaitStarted (ticket : Z)
  | LoopTime
  | Stopping
  | Sleep.
(** Times in milliseconds; the answer of [Admit] names the ticket. *)
Definition queue_ans (c : queue_call) : Type :=
  match c with
  | XReadNew | XReadPending _ => result raised reply
  | Admit _ => result raised Z
  | LoopTime => Z
  | Stopping => bool
  | _ => result raised unit
  end.
Abbreviation qprog := (prog queue_ans raised).

(** [try: p except Exception: h] *)
Definition excepts {A} (p h : qprog A) : qprog A :=
  catch p (fun e => match e with Cancelled => throw Cancelled | Failed => h end).

Record consumer := { _pending_cursor : string; _next_pending_sweep : Z }.
Definition new_consumer : consumer := {| _pending_cursor := "0"; _next_pending_sweep := 0 |}.

(** [not fields] *)
Definition no_fields (e : entry) : bool := match snd e with Some (_ :: _) => false | _ => true end.

Section queue.
Context (container_repr : json -> string) (cfg : ChannelConfig).

Definition entry_event (e : entry) : Event :=
  {| ev_id := fst e; ev_channel := ch_name cfg; ev_type := "queue"; ev_source := "queue";
     ev_payload := map (fun kv => (fst kv, JStr (snd kv))) (from_option id [] (snd e));
     ev_context := []; ev_actor := "" |}.
Definition routed (e : entry) : result exn RoutedEvent := route container_repr (entry_event e) cfg.

(** [admission.admit(route(event, cfg))] and [await shield(ticket.started)]. *)
Definition start_entry (e : entry) : qprog unit :=
  match routed e with
  | Err _ => throw Failed
  | Ok r => ticket ← (call (Admit r) ≫= lift); call (AwaitStarted ticket) ≫= lift
  end.
Definition _handle_message (e : entry) : qprog unit :=
  started ← excepts ((fun _ => true) <$> start_entry e) (mret false);
  if (started : bool) then excepts (call (XAck (fst e)) ≫= lift) (mret tt) else mret tt.
Definition _ack_stale_pending (id : string) : qprog unit := excepts (call (XAck id) ≫= lift) (mret tt).

Fixpoint handle_new (es : list entry) : qprog unit :=
  match es with [] => mret tt | e :: es => _ ← _handle_message e; handle_new es end.
(** Each entry moves the cursor to its id before it is handled. *)
Fixpoint handle_pending (s : consumer) (es : list entry) : qprog consumer :=
  match es with
  | [] => mret s
  | e :: es =>
      _ ← (if no_fields e then _ack_stale_pending (fst e) else _handle_message e);
      handle_pending {| _pending_cursor := fst e; _next_pending_sweep := _next_pending_sweep s |} es
  end.
(** When it raises, it raises before it changed the consumer. *)
Definition _consume_pending_once (s : consumer) : qprog consumer :=
  now ← call LoopTime;
  if now <? _next_pending_sweep s then mret s else
  response ← (call (XReadPending (_pending_cursor s)) ≫= lift);
  match response with
  | [] => now ← call LoopTime; mret {| _pending_cursor := "0"; _next_pending_sweep := now + _BLOCK_MS |}
  | _ => handle_pending s (reply_entries response)
  end.
(** The consumer afterwards, and whether no exception was raised. *)
Definition _consume_once (s : consumer) : qprog (consumer * bool) :=
  swept ← attempt (_consume_pending_once s);
  match swept with
  | Err Cancelled => throw Cancelled
  | Err Failed => mret (s, false)
  | Ok s => excepts (response ← (call XReadNew ≫= lift); _ ← handle_new (reply_entries response); mret (s, true))
                    (mret (s, false))
  end.
Fixpoint _run (fuel : nat) (s : consumer) : qprog consumer :=
  match fuel with
  | O => mret s
  | S fuel =>
      stopping ← call Stopping;
      if (stopping : bool) then mret s else
      '(s, ok) ← _consume_once s;
      if (ok : bool) then _run fuel s else _ ← (call Sleep ≫= lift); _run fuel s
  end.
Definition _ensure_group : qprog unit := excepts (call XGroupCreate ≫= lift) (mret tt).
(** [start], with its task run to its end. *)
Definition start (fuel : nat) : qprog consumer := _ ← _ensure_group; _run fuel new_consumer.
End queue.
