(* ===== verification/QueueProps.v ===== *)
(** * channels/queue.py: what is acknowledged, and what a sweep finds again *)

From stdpp Require Import sorting.
From S2P Require Import Prelude PyJson Config Channels Routing Effects Traces Histories Queue.
Local Open Scope Z_scope.

Abbreviation history := (list (event queue_ans)).

Section queue.
Context (container_repr : json -> string) (cfg : ChannelConfig).

(** ** Acknowledged exactly when started *)

Definition read_before (e : entry) (past : history) : Prop :=
  exists resp, In e (reply_entries resp)
  /\ (In (Ev XReadNew (Ok resp)) past \/ exists cursor, In (Ev (XReadPending cursor) (Ok resp)) past).
(** The last two calls admitted the event of an entry read before, and saw it start. *)
Definition just_started (past : history) (id : string) : Prop :=
  exists past' fields r ticket,
    past = past' ++ [Ev (Admit r) (Ok ticket); Ev (AwaitStarted ticket) (Ok tt)]
    /\ routed container_repr cfg (id, fields) = Ok r /\ read_before (id, fields) past'.
(** A sweep found the entry deleted. *)
Definition found_deleted (past : history) (id : string) : Prop :=
  exists cursor resp fields, In (Ev (XReadPending cursor) (Ok resp)) past
    /\ In (id, fields) (reply_entries resp) /\ no_fields (id, fields) = true.
Definition saw_start (ev : event queue_ans) : bool :=
  match ev with
  | Ev c a => match c return queue_ans c -> bool with AwaitStarted _ => fun a => is_ok a | _ => fun _ => false end a
  end.
Definition unsettled (past : history) : Prop := exists past' ticket, past = past' ++ [Ev (AwaitStarted ticket) (Ok tt)].
Definition ack_ok (past : history) (ev : event queue_ans) : Prop :=
  match ev_call ev with
  | XAck id => just_started past id \/ (~ unsettled past /\ found_deleted past id)
  | _ => ~ unsettled past
  end.

Abbreviation follows := (keeps (fun _ _ => True) ack_ok).
Definition grown (past h : history) : Prop := ~ unsettled h /\ exists tr, h = past ++ tr.
Lemma grown_refl past : ~ unsettled past -> grown past past.
Proof. intros H. split; [done|]. exists []. by rewrite app_nil_r. Qed.
Lemma grown_trans h1 h2 h3 : grown h1 h2 -> grown h2 h3 -> grown h1 h3.
Proof. intros [_ [t1 ->]] [H [t2 ->]]. split; [done|]. exists (t1 ++ t2). by rewrite app_assoc. Qed.
Lemma read_grown e past h : grown past h -> read_before e past -> read_before e h.
Proof.
  intros [_ [tr ->]] (resp & Hin & [H|[c H]]); exists resp; (split; [done|]); [left|right; exists c];
    apply in_or_app; by left.
Qed.
Lemma settled_last past ev : saw_start ev = false -> ~ unsettled (past ++ [ev]).
Proof. intros H (past' & t & E). apply app_inj_2 in E as [_ E]; [|done]. injection E as ->. done. Qed.
Lemma grown_last past ev : saw_start ev = false -> grown past (past ++ [ev]).
Proof. intros H. split; [by apply settled_last|by eexists]. Qed.
Lemma grown_more past h ev : grown past h -> saw_start ev = false -> grown past (h ++ [ev]).
Proof. intros. by eapply grown_trans, grown_last. Qed.

Lemma handle_message_follows e past : ~ unsettled past -> read_before e past ->
  follows (_handle_message container_repr cfg e) (fun h _ => grown past h) past.
Proof.
  intros Hs Hr. unfold _handle_message. apply keeps_bind.
  apply keeps_mono with (fun h r => match r with
    | Ok true => just_started h (fst e) /\ exists tr, h = past ++ tr
    | _ => grown past h end).
  - apply keeps_catch, keeps_fmap. unfold start_entry. destruct (routed _ _ e) as [r|y] eqn:Ee; [|by apply grown_refl].
    apply keeps_bind, keeps_ask. asks. intros a _. split; [done|].
    assert (Hg : grown past (past ++ [Ev (Admit r) a])) by (by apply grown_last).
    destruct a as [t|[|]]; [|done..]. apply keeps_ask. asks. intros b _. split; [apply Hg|].
    destruct b as [[]|[|]]; cbn beta iota.
    + split; [|exists [Ev (Admit r) (Ok t); Ev (AwaitStarted t) (Ok tt)]; by rewrite <- app_assoc].
      exists past, (snd e), r, t. destruct e. split; [by rewrite <- app_assoc|done].
    + by refine (grown_more _ _ _ Hg _).
    + by refine (grown_more _ _ _ Hg _).
  - intros h [[|]|y] H; [|exact H..]. destruct H as [Hj [tr ->]]. apply keeps_catch, keeps_ask. asks.
    intros a _. split; [by left|]. assert (Hg : grown past ((past ++ tr) ++ [Ev (XAck (fst e)) a])).
    { split; [by apply settled_last|]. exists (tr ++ [Ev (XAck (fst e)) a]). by rewrite app_assoc. }
    by destruct a as [u|[|]].
Qed.
Lemma stale_follows id past : ~ unsettled past -> found_deleted past id ->
  follows (_ack_stale_pending id) (fun h _ => grown past h) past.
Proof.
  intros Hs Hd. apply keeps_catch, keeps_ask. asks. intros a _. split; [by right|].
  assert (Hg : grown past (past ++ [Ev (XAck id) a])) by (by apply grown_last). by destruct a as [u|[|]].
Qed.
Lemma handle_new_follows es past : ~ unsettled past -> Forall (fun e => read_before e past) es ->
  follows (handle_new container_repr cfg es) (fun h _ => grown past h) past.
Proof.
  revert past. induction es as [|e es IH]; intros past Hs Hr; cbn [handle_new]; [by apply grown_refl|].
  inversion Hr as [|e' es' He Hes]; subst. apply keeps_bind. eapply keeps_mono; [by apply handle_message_follows|].
  intros h [u|y] Hg; [|done]. eapply keeps_mono.
  - apply IH; [apply Hg|]. eapply Forall_impl; [exact Hes|]. intros. by eapply read_grown.
  - intros h2 r2 H2. by eapply grown_trans.
Qed.
Lemma handle_pending_follows s es past cursor resp : ~ unsettled past ->
  In (Ev (XReadPending cursor) (Ok resp)) past -> (forall e, In e es -> In e (reply_entries resp)) ->
  follows (handle_pending container_repr cfg s es) (fun h _ => grown past h) past.
Proof.
  revert s past. induction es as [|e es IH]; intros s past Hs Hin Hes; cbn [handle_pending]; [by apply grown_refl|].
  assert (He : In e (reply_entries resp)) by (by apply Hes; left).
  apply keeps_bind. apply keeps_mono with (fun h _ => grown past h).
  - destruct (no_fields e) eqn:En.
    + apply stale_follows; [done|]. exists cursor, resp, (snd e). by destruct e.
    + apply handle_message_follows; [done|]. exists resp. split; [done|]. right. by exists cursor.
  - intros h [u|y] Hg; [|done]. eapply keeps_mono.
    + apply IH; [apply Hg| |intros; apply Hes; by right]. destruct Hg as [_ [tr ->]]. apply in_or_app. by left.
    + intros h2 r2 H2. by eapply grown_trans.
Qed.
Lemma sweep_follows s past : ~ unsettled past ->
  follows (_consume_pending_once container_repr cfg s) (fun h _ => grown past h) past.
Proof.
  intros Hs. unfold _consume_pending_once. apply keeps_bind. asks. intros now _. split; [done|].
  assert (Hg : grown past (past ++ [Ev LoopTime now])) by (by apply grown_last). cbn beta iota.
  destruct (now <? _); [exact Hg|]. apply keeps_bind, keeps_ask. asks. intros a _. split; [apply Hg|].
  set (past1 := _ ++ [_]). assert (H1 : grown past past1) by (by apply grown_more).
  destruct a as [resp|y]; [|exact H1]. destruct resp as [|r0 resp].
  - apply keeps_bind. asks. intros n2 _. split; [apply H1|]. by apply grown_more.
  - cbn beta iota. eapply keeps_mono; [eapply (handle_pending_follows _ _ _ (_pending_cursor s) (r0 :: resp))|].
    + apply H1.
    + unfold past1. apply in_or_app. right. by left.
    + done.
    + intros h2 r2 H2. by eapply grown_trans.
Qed.
Lemma consume_once_follows s past : ~ unsettled past ->
  follows (_consume_once container_repr cfg s) (fun h _ => grown past h) past.
Proof.
  intros Hs. unfold _consume_once. apply keeps_bind, keeps_attempt. eapply keeps_mono; [by apply sweep_follows|].
  intros h [s'|[|]] Hg; [|exact Hg..]. cbn beta iota. apply keeps_catch, keeps_bind, keeps_ask. asks. intros a _. split; [apply Hg|].
  set (past1 := _ ++ [_]). assert (H1 : grown past past1) by (by apply grown_more).
  destruct a as [resp|[|]]; [|exact H1..]. apply keeps_bind. eapply keeps_mono; [apply handle_new_follows|].
  - apply H1.
  - apply Forall_forall. intros e He%list_elem_of_In. exists resp. split; [done|]. left. unfold past1. apply in_or_app. right. by left.
  - intros h2 r2 H2. assert (Hx : grown past h2) by (by eapply grown_trans). by destruct r2 as [u|[|]].
Qed.
Lemma run_follows fuel s past : ~ unsettled past -> follows (_run container_repr cfg fuel s) (fun h _ => grown past h) past.
Proof.
  revert s past. induction fuel as [|fuel IH]; intros s past Hs; cbn [_run]; [by apply grown_refl|].
  apply keeps_bind. asks. intros stopping _. split; [done|]. cbn beta iota.
  set (past1 := _ ++ [_]). assert (H1 : grown past past1) by (by apply grown_last).
  destruct stopping; [exact H1|]. apply keeps_bind. eapply keeps_mono; [apply consume_once_follows, H1|].
  assert (Hnext : forall s h, grown past1 h -> follows (_run container_repr cfg fuel s) (fun h _ => grown past h) h).
  { intros s' h Hg. eapply keeps_mono; [apply IH, Hg|]. intros h2 r2 H2. exact (grown_trans _ _ _ (grown_trans _ _ _ H1 Hg) H2). }
  intros h [[s' ok]|y] Hg; [|by eapply grown_trans]. destruct ok; [by apply Hnext|].
  apply keeps_bind, keeps_ask. asks. intros a _. split; [apply Hg|].
  assert (H2 : grown past1 (h ++ [Ev Sleep a])) by (by apply grown_more).
  destruct a as [u|y]; [by apply Hnext|by eapply grown_trans].
Qed.

(** C35. A message is acknowledged exactly when its delivery has started.  In any run of the
    consumer, whatever Redis, the admission and the clocks answer and wherever it is cancelled:
    every XACK is either of an entry that a sweep found deleted, or directly follows the
    successful Started of the ticket the admission gave for the event of that entry, which a
    read had returned before; and a successful Started is always followed at once by the XACK
    of its entry. *)
Theorem acked_exactly_when_started fuel tr r :
  runs (start container_repr cfg fuel) tr r ->
  (forall tr1 id a tr2, tr = tr1 ++ Ev (XAck id) a :: tr2 -> just_started tr1 id \/ found_deleted tr1 id)
  /\ forall tr1 ticket tr2, tr = tr1 ++ Ev (AwaitStarted ticket) (Ok tt) :: tr2 ->
       exists id a tr3, tr2 = Ev (XAck id) a :: tr3 /\ just_started (tr1 ++ [Ev (AwaitStarted ticket) (Ok tt)]) id.
Proof.
  intros Hr. assert (Hnil : ~ unsettled []) by (intros (p & t & Hp); by destruct p).
  assert (Hk : follows (start container_repr cfg fuel) (fun h _ => grown [] h) []).
  { unfold start, _ensure_group. apply keeps_bind, keeps_catch, keeps_ask. asks. intros a _. split; [done|].
    assert (Hg : grown [] ([] ++ [Ev XGroupCreate a])) by (by apply grown_last).
    assert (Hrun : follows (_run container_repr cfg fuel new_consumer) (fun h _ => grown [] h) ([] ++ [Ev XGroupCreate a])).
    { eapply keeps_mono; [apply run_follows, Hg|]. intros. by eapply grown_trans. }
    destruct a as [u|[|]]; [exact Hrun|exact Hg|exact Hrun]. }
  destruct (keeps_runs _ _ _ _ _ _ _ Hk Hr) as [Hall [Hend _]]; [by intros|]. split.
  - intros tr1 id a tr2 ->. destruct (Hall tr1 _ tr2 eq_refl) as [H|[_ H]]; [by left|by right].
  - intros tr1 t tr2 ->. assert (Hu : unsettled (tr1 ++ [Ev (AwaitStarted t) (Ok tt)])) by (by eexists _, _).
    destruct tr2 as [|[c a] tr2]; [by destruct Hend|].
    specialize (Hall (tr1 ++ [Ev (AwaitStarted t) (Ok tt)]) (Ev c a) tr2). rewrite <- app_assoc in Hall.
    specialize (Hall eq_refl). unfold ack_ok in Hall. cbn [ev_call app] in Hall.
    destruct c; try by destruct (Hall Hu). exists id, a, tr2. split; [done|]. by destruct Hall as [H|[H _]].
Qed.
End queue.

(** ** Sweeps *)

(** The entries that pending reads returned, over the whole history. *)
Definition swept_by (ev : event queue_ans) : list string :=
  match ev with
  | Ev c a =>
      match c return queue_ans c -> list string with
      | XReadPending _ => fun a => match a with Ok resp => map fst (reply_entries resp) | Err _ => [] end
      | _ => fun _ => []
      end a
  end.
Definition swept (h : history) : list string := concat (map swept_by h).
Lemma swept_app h h' : swept (h ++ h') = swept h ++ swept h'.
Proof. unfold swept. by rewrite map_app, concat_app. Qed.
Lemma swept_more h ev : swept_by ev = [] -> swept (h ++ [ev]) = swept h.
Proof. intros E. rewrite swept_app. unfold swept at 2. cbn. by rewrite E, !app_nil_r. Qed.

Section sweeps.
Context (container_repr : json -> string) (cfg : ChannelConfig).
(** The order of entry ids. *)
Context (before : string -> string -> Prop) `{!Transitive before}.

(** XREADGROUP with an id, as Redis documents it: the stream, with the pending entries after
    that id in order, also when there are none. *)
Definition documented (_ : history) (ev : event queue_ans) : Prop :=
  match ev with
  | Ev c a =>
      match c return queue_ans c -> Prop with
      | XReadPending cursor => fun a =>
          match a with
          | Ok resp => exists stream es, resp = [(stream, es)] /\ StronglySorted before (cursor :: map fst es)
          | Err _ => True
          end
      | _ => fun _ => True
      end a
  end.
Definition increasing (h : history) : Prop := StronglySorted before (swept h).
(** Nothing was swept beyond the cursor. *)
Definition behind (cursor : string) (h : history) : Prop :=
  increasing h /\ Forall (fun id => id = cursor \/ before id cursor) (swept h).
Abbreviation follows := (keeps documented (fun _ _ => True)).
Lemma behind_more c h ev : swept_by ev = [] -> behind c h -> behind c (h ++ [ev]).
Proof. unfold behind, increasing. intros E. by rewrite (swept_more h ev E). Qed.

(** A program that reads no pending entries, and raises nothing but cancellation. *)
Definition sweepless {A} (p : qprog A) : Prop :=
  forall h, follows p (fun h' r => swept h' = swept h /\ r <> Err Failed) h.
Lemma excepts_sweepless c (Hc : forall a, swept_by (Ev c a) = []) {A} (f : queue_ans c -> result raised A) (x : A) :
  sweepless (excepts (call c ≫= fun a => lift (f a)) (mret x)).
Proof.
  intros h. apply keeps_catch, keeps_bind. asks. intros a _. split; [done|]. cbn beta iota.
  assert (E : swept (h ++ [Ev c a]) = swept h) by (by apply swept_more). unfold lift. cbn [keeps].
  by destruct (f a) as [b|[|]].
Qed.
Lemma handle_message_sweepless e : sweepless (_handle_message container_repr cfg e).
Proof.
  intros h. unfold _handle_message. apply keeps_bind. apply keeps_mono with (fun h' r => swept h' = swept h /\ r <> Err Failed).
  - apply keeps_catch, keeps_fmap. unfold start_entry. destruct (routed _ _ e) as [r|y]; [|done].
    apply keeps_bind, keeps_ask. asks. intros a _. split; [done|].
    assert (E : swept (h ++ [Ev (Admit r) a]) = swept h) by (by apply swept_more).
    destruct a as [t|[|]]; [|done..]. apply keeps_ask. asks. intros b _. split; [done|].
    assert (E2 : swept ((h ++ [Ev (Admit r) (Ok t)]) ++ [Ev (AwaitStarted t) b]) = swept h) by (by rewrite swept_more).
    by destruct b as [u|[|]].
  - intros h' [[|]|y] [E Hne]; [|done|split; [done|congruence]]. eapply keeps_mono; [by apply (excepts_sweepless (XAck (fst e)))|].
    intros h2 r2 [E2 H2]. by rewrite E2.
Qed.
Lemma handle_new_sweepless es : sweepless (handle_new container_repr cfg es).
Proof.
  induction es as [|e es IH]; intros h; cbn [handle_new]; [done|]. apply keeps_bind.
  eapply keeps_mono; [apply handle_message_sweepless|]. intros h' [u|y] [E Hne]; [|split; [done|congruence]].
  eapply keeps_mono; [apply IH|]. intros h2 r2 [E2 H2]. by rewrite E2.
Qed.
Lemma last_cons {A} (x : A) l d : List.last (x :: l) d = List.last l x.
Proof.
  revert x d. induction l as [|y l IH]; intros x d; [done|].
  transitivity (List.last (y :: l) d); [done|]. by rewrite !IH.
Qed.
(** The cursor moves over the entries of the reply. *)
Definition moved (s : consumer) (es : list entry) (h h' : history) (r : result raised consumer) : Prop :=
  swept h' = swept h
  /\ match r with Ok s' => _pending_cursor s' = List.last (map fst es) (_pending_cursor s) | Err y => y = Cancelled end.
Lemma handle_pending_sweeps es s h : follows (handle_pending container_repr cfg s es) (moved s es h) h.
Proof.
  revert s h. induction es as [|e es IH]; intros s h; cbn [handle_pending]; [done|]. apply keeps_bind.
  apply keeps_mono with (fun h' r => swept h' = swept h /\ r <> Err Failed).
  - destruct (no_fields e); [by apply (excepts_sweepless (XAck (fst e)))|apply handle_message_sweepless].
  - intros h' [u|y] [E Hne]; [|split; [done|by destruct y]]. eapply keeps_mono; [apply IH|].
    intros h2 r2 [E2 H2]. split; [by rewrite E2|]. destruct r2 as [s'|y]; [|done]. rewrite H2. cbn [_pending_cursor map].
    by rewrite last_cons.
Qed.
Lemma sorted_behind c ids h h' : behind c h -> StronglySorted before (c :: ids) -> swept h' = swept h ++ ids ->
  behind (List.last ids c) h'.
Proof.
  intros [Hs Hb] Hi E. unfold behind, increasing. rewrite E. inversion Hi as [|c' ids' Hss Hall]; subst.
  assert (Hlt : Forall (fun x => before x (List.last ids c) \/ x = List.last ids c) (c :: ids)).
  { clear -Hi Transitive0. revert c Hi. induction ids as [|i ids IH]; intros c Hi; [by constructor; [right|]|].
    inversion Hi as [|c' ids' Hss Hall]; subst. specialize (IH i Hss).
    replace (List.last (i :: ids) c) with (List.last ids i) by (by rewrite last_cons).
    inversion Hall as [|i' ids' Hci _]; subst. constructor; [|exact IH]. left.
    inversion IH as [|i' ids' [Hl|Hl] _]; subst; [by etransitivity|by rewrite <- Hl]. }
  inversion Hlt as [|c' ids' Hc Hids]; subst. split.
  - apply StronglySorted_app. split; [|split; [exact Hs|exact Hss]]. intros x y Hx Hy.
    rewrite Forall_forall in Hb. rewrite Forall_forall in Hall. specialize (Hall y Hy).
    destruct (Hb x Hx) as [-> | Hxc]; [done|]. by etransitivity.
  - apply Forall_app. split; [|eapply Forall_impl; [exact Hids|]; naive_solver].
    eapply Forall_impl; [exact Hb|]. intros x [-> | Hx]; [naive_solver|].
    destruct Hc as [Hc| <-]; right; [by etransitivity|done].
Qed.
Definition sweep_post (s : consumer) (h : history) (r : result raised consumer) : Prop :=
  match r with
  | Ok s' => behind (_pending_cursor s') h
  | Err Failed => behind (_pending_cursor s) h
  | Err Cancelled => increasing h
  end.
Lemma sweep_sweeps s h : behind (_pending_cursor s) h ->
  follows (_consume_pending_once container_repr cfg s) (sweep_post s) h.
Proof.
  intros Hb. unfold _consume_pending_once. apply keeps_bind. asks. intros now _. split; [done|].
  assert (H1 : behind (_pending_cursor s) (h ++ [Ev LoopTime now])) by (by apply behind_more). cbn beta iota.
  destruct (now <? _); [exact H1|]. apply keeps_bind, keeps_ask. asks. intros a Ha. split; [done|].
  destruct a as [resp|y].
  - cbn in Ha. destruct Ha as (stream & es & -> & Hes). cbn beta iota.
    replace (reply_entries [(stream, es)]) with es by (unfold reply_entries; cbn; by rewrite app_nil_r).
    eapply keeps_mono; [apply handle_pending_sweeps|]. intros h' r' [E Hr].
    assert (Hm : behind (List.last (map fst es) (_pending_cursor s)) h').
    { eapply sorted_behind; [exact H1|exact Hes|]. rewrite E, swept_app. f_equal. unfold swept. cbn.
      unfold reply_entries. cbn. by rewrite !app_nil_r. }
    destruct r' as [s'|y]; cbn; [by rewrite Hr|]. subst y. apply Hm.
  - assert (H2 : behind (_pending_cursor s) ((h ++ [Ev LoopTime now]) ++ [Ev (XReadPending (_pending_cursor s)) (Err y)]))
      by (by apply behind_more). destruct y; [apply H2|exact H2].
Qed.
Definition round_post (h : history) (r : result raised (consumer * bool)) : Prop :=
  match r with Ok (s, _) => behind (_pending_cursor s) h | Err _ => increasing h end.
Lemma consume_once_sweeps s h : behind (_pending_cursor s) h ->
  follows (_consume_once container_repr cfg s) round_post h.
Proof.
  intros Hb. unfold _consume_once. apply keeps_bind, keeps_attempt. eapply keeps_mono; [by apply sweep_sweeps|].
  intros h' [s'|[|]] Hp; [|exact Hp..]. cbn beta iota. cbn in Hp. apply keeps_catch, keeps_bind, keeps_ask. asks.
  intros a _. split; [done|]. assert (H1 : behind (_pending_cursor s') (h' ++ [Ev XReadNew a])) by (by apply behind_more).
  destruct a as [resp|[|]]; [|apply H1|exact H1]. apply keeps_bind. eapply keeps_mono; [apply handle_new_sweepless|].
  intros h2 r2 [E Hne].
  assert (H2 : behind (_pending_cursor s') h2) by (unfold behind, increasing; by rewrite E).
  destruct r2 as [u|[|]]; [exact H2|apply H2|exact H2].
Qed.
Lemma run_sweeps fuel s h : behind (_pending_cursor s) h ->
  follows (_run container_repr cfg fuel s) (fun h' _ => increasing h') h.
Proof.
  revert s h. induction fuel as [|fuel IH]; intros s h Hb; cbn [_run]; [apply Hb|]. apply keeps_bind. asks.
  intros stopping _. split; [done|]. cbn beta iota.
  assert (H1 : behind (_pending_cursor s) (h ++ [Ev Stopping stopping])) by (by apply behind_more).
  destruct stopping; [apply H1|]. apply keeps_bind. eapply keeps_mono; [by apply consume_once_sweeps|].
  intros h' [[s' ok]|y] Hp; [|exact Hp]. destruct ok; [by apply IH|]. apply keeps_bind, keeps_ask. asks.
  intros a _. split; [done|]. assert (H2 : behind (_pending_cursor s') (h' ++ [Ev Sleep a])) by (by apply behind_more).
  destruct a as [u|y]; [by apply IH|apply H2].
Qed.

(** An entry is swept once.  On a Redis that answers as documented, the ids that the sweeps of
    one consumer return are strictly increasing for as long as it runs: the cursor never goes
    back, and an entry whose delivery failed in a sweep is not read again before a restart. *)
Theorem swept_once fuel tr r : runs (start container_repr cfg fuel) tr r -> all_of documented [] tr -> increasing tr.
Proof.
  intros Hr Hd.
  assert (Hk : follows (start container_repr cfg fuel) (fun h _ => increasing h) []).
  { unfold start, _ensure_group. apply keeps_bind, keeps_catch, keeps_ask. asks. intros a _. split; [done|].
    assert (Hb : behind "0" ([] ++ [Ev XGroupCreate a])) by (apply behind_more; [done|]; by split; constructor).
    assert (Hrun : follows (_run container_repr cfg fuel new_consumer) (fun h _ => increasing h) ([] ++ [Ev XGroupCreate a]))
      by (by apply run_sweeps).
    destruct a as [u|[|]]; [exact Hrun|apply Hb|exact Hrun]. }
  exact (proj2 (keeps_runs _ _ _ _ _ _ _ Hk Hr Hd)).
Qed.
End sweeps.
