(* ===== verification/Cron.v ===== *)
(** * channels/cron.py: the cron scheduler

    One task drives every cron channel: it sleeps to the earliest tick, fires the channels that
    are due in order and asks croniter for their next ticks.  croniter, the clock, the admission
    and cancellation are the environment; times are microseconds of UTC. *)

From S2P Require Import Prelude PyJson PyLoads Config Channels Routing Effects Storage Traces Queue.
Local Open Scope Z_scope.

Inductive cron_call :=
  | GetNext (slot : nat)
  | NowUtc
  | SleepFor (us : Z)
  | AdmitTick (r : RoutedEvent)
  | AwaitTick (ticket : Z).
Definition cron_ans (c : cron_call) : Type :=
  match c with GetNext _ | AdmitTick _ => result raised Z | NowUtc => Z | _ => result raised unit end.
Abbreviation cprog := (prog cron_ans raised).

(** A slot: its channel and its next tick.  The slot's number names its croniter. *)
Record slot := { sl_number : nat; sl_channel : ChannelConfig; sl_tick : Z }.

Section cron.
Context `{PyDatetime} (container_repr : json -> string).

(** [CronScheduler.__init__]: a croniter for every channel with a cron block. *)
Definition new_slots (channels : list ChannelConfig) : list (nat * ChannelConfig) :=
  let crons := filter (fun c => present (ch_cron c)) channels in zip (seq 0 (length crons)) crons.

Definition tick_event (channel : ChannelConfig) (tick : Z) : Event :=
  let utc_tick := isoformat_utc tick in
  {| ev_id := ch_name channel +:+ ":" +:+ utc_tick; ev_channel := ch_name channel; ev_type := "cron"; ev_source := "cron";
     ev_payload := [("scheduled_tick", JStr utc_tick)];
     ev_context := [("cron", JObj [("scheduledTick", JStr utc_tick)])]; ev_actor := "" |}.
Definition routed_tick (channel : ChannelConfig) (tick : Z) : result exn RoutedEvent :=
  route container_repr (tick_event channel tick) channel.
Definition start_tick (channel : ChannelConfig) (tick : Z) : cprog unit :=
  match routed_tick channel tick with
  | Err _ => throw Failed
  | Ok r => ticket ← (call (AdmitTick r) ≫= lift); call (AwaitTick ticket) ≫= lift
  end.
(** A tick that fails before Started is dropped. *)
Definition _fire (channel : ChannelConfig) (tick : Z) : cprog unit :=
  catch (start_tick channel tick) (fun e => match e with Cancelled => throw Cancelled | Failed => mret tt end).

Fixpoint first_ticks (crons : list (nat * ChannelConfig)) : cprog (list slot) :=
  match crons with
  | [] => mret []
  | (n, channel) :: crons =>
      tick ← (call (GetNext n) ≫= lift);
      slots ← first_ticks crons;
      mret ({| sl_number := n; sl_channel := channel; sl_tick := tick |} :: slots)
  end.
(** [min(ticks, default=None)] *)
Definition earliest_of (slots : list slot) : option Z :=
  match map sl_tick slots with [] => None | t :: ts => Some (fold_left Z.min ts t) end.
Fixpoint fire_due (earliest : Z) (slots : list slot) : cprog (list slot) :=
  match slots with
  | [] => mret []
  | s :: slots =>
      s ← (if sl_tick s <=? earliest then
             _ ← _fire (sl_channel s) (sl_tick s);
             tick ← (call (GetNext (sl_number s)) ≫= lift);
             mret {| sl_number := sl_number s; sl_channel := sl_channel s; sl_tick := tick |}
           else mret s);
      slots ← fire_due earliest slots;
      mret (s :: slots)
  end.
Definition sleep_until (earliest : Z) : cprog unit :=
  now ← call NowUtc;
  if 0 <? earliest - now then call (SleepFor (earliest - now)) ≫= lift else mret tt.
Fixpoint rounds (fuel : nat) (slots : list slot) : cprog (list slot) :=
  match fuel with
  | O => mret slots
  | S fuel =>
      match earliest_of slots with
      | None => mret slots
      | Some earliest => _ ← sleep_until earliest; slots ← fire_due earliest slots; rounds fuel slots
      end
  end.
Definition _run (fuel : nat) (channels : list ChannelConfig) : cprog (list slot) :=
  slots ← first_ticks (new_slots channels); rounds fuel slots.
End cron.
