(* ===== verification/CronProps.v ===== *)
(** * channels/cron.py: every tick is fired once, in order and not early *)

From stdpp Require Import sorting.
From S2P Require Import Prelude PyJson PyLoads Config Channels Routing Effects Storage StorageDocs Traces Histories Queue QueueProps Cron.
Local Open Scope Z_scope.

Abbreviation ticking := (list (event cron_ans)).

Section cron.
Context `{PyDatetime} (container_repr : json -> string) (channels : list ChannelConfig).
Let crons : list ChannelConfig := filter (fun c => present (ch_cron c)) channels.

(** The ticks croniter gave slot [n], and the events admitted. *)
Definition given_by (n : nat) (ev : event cron_ans) : list Z :=
  match ev with
  | Ev c a =>
      match c return cron_ans c -> list Z with
      | GetNext m => fun a => match a with Ok t => if Nat.eqb m n then [t] else [] | Err _ => [] end
      | _ => fun _ => []
      end a
  end.
Definition given (n : nat) (h : ticking) : list Z := concat (map (given_by n) h).
Definition admitted_by (ev : event cron_ans) : list RoutedEvent := match ev_call ev with AdmitTick r => [r] | _ => [] end.
Definition admitted (h : ticking) : list RoutedEvent := concat (map admitted_by h).
Lemma given_snoc n h ev : given n (h ++ [ev]) = given n h ++ given_by n ev.
Proof. unfold given. rewrite map_app, concat_app. cbn. by rewrite app_nil_r. Qed.
Lemma admitted_snoc h ev : admitted (h ++ [ev]) = admitted h ++ admitted_by ev.
Proof. unfold admitted. rewrite map_app, concat_app. cbn. by rewrite app_nil_r. Qed.

(** Firings: a slot number and a tick, in the order of ticks and then of channels. *)
Definition firing : Type := nat * Z.
Definition sched (x y : firing) : Prop := snd x < snd y \/ (snd x = snd y /\ (fst x < fst y)%nat).
Definition event_of (x : firing) : option RoutedEvent :=
  channel ← crons !! fst x; match routed_tick container_repr channel (snd x) with Ok r => Some r | Err _ => None end.
Definition ticks_of (n : nat) (F : list firing) : list Z := concat (map (fun x => if Nat.eqb (fst x) n then [snd x] else []) F).
Lemma ticks_snoc n F x : ticks_of n (F ++ [x]) = ticks_of n F ++ (if Nat.eqb (fst x) n then [snd x] else []).
Proof. unfold ticks_of. rewrite map_app, concat_app. cbn. by rewrite app_nil_r. Qed.

(** croniter's dates are strictly increasing. *)
Definition croniter (past : ticking) (ev : event cron_ans) : Prop :=
  match ev with
  | Ev c a =>
      match c return cron_ans c -> Prop with
      | GetNext n => fun a => match a with Ok t => Forall (fun t' => t' < t) (given n past) | Err _ => True end
      | _ => fun _ => True
      end a
  end.
(** The clock has shown [t], or a clock before it was read and slept on. *)
Definition due (t : Z) (past : ticking) : Prop :=
  exists now, In (Ev NowUtc now) past /\ (t <= now \/ In (Ev (SleepFor (t - now)) (Ok tt)) past).
Definition punctual (past : ticking) (ev : event cron_ans) : Prop :=
  match ev_call ev with AdmitTick r => exists n t, event_of (n, t) = Some r /\ due t past | _ => True end.
Lemma due_more t h tr : due t h -> due t (h ++ tr).
Proof.
  intros (now & Hn & Hs). exists now. split; [apply in_or_app; by left|].
  destruct Hs as [Hs|Hs]; [by left|right]. apply in_or_app. by left.
Qed.

(** What was fired, and the pending tick of every slot. *)
Record tally (pend F : list firing) (h : ticking) : Prop := {
  tl_admitted : admitted h = omap event_of F;
  tl_pending : forall n t, In (n, t) pend -> given n h = ticks_of n F ++ [t];
  tl_other : forall n, ~ In n (map fst pend) -> given n h = ticks_of n F;
  tl_sorted : StronglySorted sched F;
  tl_ahead : forall x y, In x F -> In y pend -> sched x y }.

Lemma tally_quiet pend F h ev : admitted_by ev = [] -> (forall n, given_by n ev = []) ->
  tally pend F h -> tally pend F (h ++ [ev]).
Proof.
  intros Ea Eg T. destruct T as [T1 T2 T3 T4 T5]. split; try done.
  - by rewrite admitted_snoc, Ea, app_nil_r.
  - intros n t Hin. rewrite given_snoc, Eg, app_nil_r. by apply T2.
  - intros n Hin. rewrite given_snoc, Eg, app_nil_r. by apply T3.
Qed.
Lemma tally_next p1 p2 F h n t : tally (p1 ++ p2) F h -> ~ In n (map fst (p1 ++ p2)) ->
  (forall x, In x F -> sched x (n, t)) -> tally (p1 ++ (n, t) :: p2) F (h ++ [Ev (GetNext n) (Ok t)]).
Proof.
  intros T Hn Ha. destruct T as [T1 T2 T3 T4 T5]. split; try done.
  - rewrite admitted_snoc. cbn. by rewrite app_nil_r.
  - intros m u Hin. rewrite given_snoc. cbn. apply in_app_or in Hin. destruct (Nat.eqb n m) eqn:E.
    + apply Nat.eqb_eq in E as <-. rewrite (T3 n Hn). f_equal.
      destruct Hin as [Hin|[[= ->]|Hin]]; [|done|]; exfalso; apply Hn; rewrite map_app; apply in_or_app; [left|right];
        by apply (in_map fst) in Hin.
    + rewrite app_nil_r. apply T2, in_or_app. destruct Hin as [Hin|[[= -> ->]|Hin]]; [by left| |by right].
      by rewrite Nat.eqb_refl in E.
  - intros m Hm. rewrite map_app in Hm. rewrite given_snoc. cbn. destruct (Nat.eqb n m) eqn:E.
    + apply Nat.eqb_eq in E as <-. exfalso. apply Hm, in_or_app. right. by left.
    + rewrite app_nil_r. apply T3. intros Hin. apply Hm. rewrite map_app in Hin. apply in_app_or in Hin.
      apply in_or_app. destruct Hin; [by left|right; by right].
  - intros x y Hx Hy. apply in_app_or in Hy. destruct Hy as [Hy|[<-|Hy]]; [|by apply Ha|]; apply T5; try done; apply in_or_app; auto.
Qed.
(** Firing a pending tick, whatever it admitted. *)
Lemma tally_fired p1 p2 F h n t ev : tally (p1 ++ (n, t) :: p2) F h -> ~ In n (map fst (p1 ++ p2)) ->
  (forall y, In y (p1 ++ p2) -> sched (n, t) y) -> admitted h ++ ev = omap event_of (F ++ [(n, t)]) ->
  forall h', admitted h' = admitted h ++ ev -> (forall m, given m h' = given m h) ->
  tally (p1 ++ p2) (F ++ [(n, t)]) h'.
Proof.
  intros T Hn Ha He h' Hadm Hg. destruct T as [T1 T2 T3 T4 T5].
  assert (Hin : forall y, In y (p1 ++ p2) -> In y (p1 ++ (n, t) :: p2)).
  { intros y Hy. apply in_app_or in Hy. apply in_or_app. destruct Hy; [by left|right; by right]. }
  assert (Hnt : In (n, t) (p1 ++ (n, t) :: p2)) by (apply in_or_app; right; by left). split.
  - by rewrite Hadm.
  - intros m u Hm. rewrite Hg, ticks_snoc. cbn. rewrite (T2 m u); [|by apply Hin].
    destruct (Nat.eqb n m) eqn:E; [|by rewrite app_nil_r]. apply Nat.eqb_eq in E as <-. exfalso. apply Hn.
    by apply (in_map fst) in Hm.
  - intros m Hm. rewrite Hg, ticks_snoc. cbn. destruct (Nat.eqb n m) eqn:E.
    + apply Nat.eqb_eq in E as <-. by apply T2.
    + rewrite app_nil_r. apply T3. intros Hc. apply Hm. rewrite map_app in *. apply in_app_or in Hc. apply in_or_app.
      destruct Hc as [Hc|[Hc|Hc]]; [by left| |by right]. cbn in Hc. subst m. by rewrite Nat.eqb_refl in E.
  - apply StronglySorted_app. split; [|split; [done|repeat constructor]]. intros x y Hx Hy.
    apply list_elem_of_In in Hx. apply list_elem_of_singleton in Hy as ->. by apply T5.
  - intros x y Hx Hy. apply in_app_or in Hx. destruct Hx as [Hx|[<-|[]]]; [|by apply Ha]. apply T5; [done|by apply Hin].
Qed.

(** ** The scheduler *)

Abbreviation follows := (keeps croniter punctual).
Definition pend_of (slots : list slot) : list firing := map (fun s => (sl_number s, sl_tick s)) slots.
Definition kept_slots (slots : list slot) : Prop := map (fun s => (sl_number s, sl_channel s)) slots = new_slots channels.
Definition tallied (h : ticking) : Prop := exists pend F, tally pend F h.
Lemma pend_app l l' : pend_of (l ++ l') = pend_of l ++ pend_of l'.
Proof. apply map_app. Qed.
Lemma fst_pend slots : map fst (pend_of slots) = map sl_number slots.
Proof. unfold pend_of. by rewrite map_map. Qed.
Lemma slot_numbers slots : kept_slots slots -> map sl_number slots = seq 0 (length crons).
Proof.
  intros E. transitivity (map fst (map (fun s => (sl_number s, sl_channel s)) slots)); [by rewrite map_map|].
  rewrite E. unfold new_slots. apply fst_zip. by rewrite length_seq.
Qed.
Lemma seq_sorted i n : StronglySorted lt (seq i n).
Proof.
  revert i. induction n as [|n IH]; intros i; cbn; constructor; [apply IH|]. apply Forall_forall. intros x Hx.
  apply list_elem_of_lookup in Hx as [j Hj]. apply lookup_seq in Hj. lia.
Qed.
Lemma slot_apart l s l' : kept_slots (l ++ s :: l') ->
  ~ In (sl_number s) (map fst (pend_of l ++ pend_of l')) /\ forall s', In s' l' -> (sl_number s < sl_number s')%nat.
Proof.
  intros Hk%slot_numbers. rewrite map_app in Hk. cbn [map] in Hk.
  assert (Hs : StronglySorted lt (map sl_number l ++ sl_number s :: map sl_number l')) by (rewrite Hk; apply seq_sorted).
  apply StronglySorted_app in Hs as (H1 & _ & H2%StronglySorted_cons). destruct H2 as [H2 _]. rewrite Forall_forall in H2. split.
  - rewrite map_app, !fst_pend. intros [Hin|Hin]%in_app_or; apply list_elem_of_In in Hin.
    + specialize (H1 _ _ Hin (list_elem_of_here _ _)). lia.
    + specialize (H2 _ Hin). lia.
  - intros s' Hin. apply H2. apply list_elem_of_In. by apply in_map.
Qed.
Lemma slot_channel slots s : kept_slots slots -> In s slots -> crons !! sl_number s = Some (sl_channel s).
Proof.
  intros Hk Hin. apply (in_map (fun s => (sl_number s, sl_channel s))) in Hin. rewrite Hk in Hin.
  apply list_elem_of_In, list_elem_of_lookup in Hin as [i Hi]. unfold new_slots in Hi.
  apply lookup_zip_Some in Hi as [Hn Hc]. apply lookup_seq in Hn as [Hn _]. by rewrite Hn.
Qed.
Lemma event_of_slot n channel t : crons !! n = Some channel ->
  event_of (n, t) = match routed_tick container_repr channel t with Ok r => Some r | Err _ => None end.
Proof. intros E. unfold event_of. cbn. by rewrite E. Qed.

Lemma fire_follows p1 p2 F h n t channel : tally (p1 ++ (n, t) :: p2) F h -> crons !! n = Some channel ->
  ~ In n (map fst (p1 ++ p2)) -> (forall y, In y (p1 ++ p2) -> sched (n, t) y) -> due t h ->
  follows (_fire container_repr channel t) (fun h' _ => tally (p1 ++ p2) (F ++ [(n, t)]) h' /\ exists tr, h' = h ++ tr) h.
Proof.
  intros T Hc Hn Ha Hd. apply (event_of_slot n channel t) in Hc. unfold _fire. apply keeps_catch. unfold start_tick.
  destruct (routed_tick container_repr channel t) as [r|y].
  - apply keeps_bind, keeps_ask. asks. intros a _. split; [by exists n, t|].
    assert (T1 : tally (p1 ++ p2) (F ++ [(n, t)]) (h ++ [Ev (AdmitTick r) a])).
    { eapply (tally_fired _ _ _ _ _ _ [r] T Hn Ha).
      - rewrite omap_app. cbn. rewrite Hc. f_equal. apply T.
      - by rewrite admitted_snoc.
      - intros m. rewrite given_snoc. cbn. by rewrite app_nil_r. }
    assert (Hp : forall ev, exists tr, (h ++ [Ev (AdmitTick r) a]) ++ ev = h ++ tr) by (intros; rewrite <- app_assoc; by eexists).
    destruct a as [ticket|[|]]; [|by split; [|eexists]..]. apply keeps_ask. asks. intros b _. split; [done|].
    assert (T2 : tally (p1 ++ p2) (F ++ [(n, t)]) ((h ++ [Ev (AdmitTick r) (Ok ticket)]) ++ [Ev (AwaitTick ticket) b]))
      by (by apply tally_quiet).
    by destruct b as [u|[|]].
  - cbn. split; [|exists []; by rewrite app_nil_r]. eapply (tally_fired _ _ _ _ _ _ [] T Hn Ha); [|by rewrite app_nil_r|done].
    rewrite omap_app. cbn. rewrite Hc, !app_nil_r. apply T.
Qed.

Lemma fire_due_follows earliest todo done F h :
  tally (pend_of done ++ pend_of todo) F h -> kept_slots (done ++ todo) -> due earliest h ->
  Forall (fun s => earliest < sl_tick s) done -> Forall (fun s => earliest <= sl_tick s) todo ->
  follows (fire_due container_repr earliest todo) (fun h' r => match r with
    | Ok todo' => exists F', tally (pend_of done ++ pend_of todo') F' h' /\ kept_slots (done ++ todo')
    | Err _ => tallied h' end) h.
Proof.
  revert done F h. induction todo as [|s todo IH]; intros dn F h T Hk Hd Hdone Htodo; cbn [fire_due]; [by exists F|].
  inversion Htodo as [|s0 todo0 Hs Htodo']; subst. destruct (slot_apart _ _ _ Hk) as [Hn Hlt]. apply keeps_bind.
  (* the rest, from a slot whose tick is after [earliest] *)
  assert (Hrest : forall s' F' h', tally (pend_of dn ++ pend_of (s' :: todo)) F' h' -> sl_number s' = sl_number s ->
    sl_channel s' = sl_channel s -> earliest < sl_tick s' -> (exists tr, h' = h ++ tr) ->
    follows (slots ← fire_due container_repr earliest todo; mret (s' :: slots)) (fun h2 r => match r with
      | Ok todo' => exists F', tally (pend_of dn ++ pend_of todo') F' h2 /\ kept_slots (dn ++ todo')
      | Err _ => tallied h2 end) h').
  { intros s' F' h' T' En Ec Ht [tr ->]. apply keeps_bind. eapply keeps_mono.
    - apply (IH (dn ++ [s']) F').
      + rewrite pend_app, <- app_assoc. exact T'.
      + unfold kept_slots in *. rewrite <- Hk, <- app_assoc, !map_app. cbn. by rewrite En, Ec.
      + by apply due_more.
      + apply Forall_app. by split; [|constructor].
      + done.
    - intros h2 [todo'|y] H2; [|exact H2]. destruct H2 as (F2 & T2 & K2). exists F2.
      rewrite pend_app, <- !app_assoc in *. by split. }
  destruct (sl_tick s <=? earliest) eqn:Et; [|by apply (Hrest s F h T); [..|lia|exists []; rewrite app_nil_r]].
  assert (Es : sl_tick s = earliest) by lia. apply keeps_bind. eapply keeps_mono.
  - apply (fire_follows (pend_of dn) (pend_of todo) F h (sl_number s)); [exact T| |exact Hn| |by rewrite Es].
    + eapply slot_channel; [exact Hk|]. apply in_or_app. right. by left.
    + intros y [Hy|Hy]%in_app_or; apply in_map_iff in Hy as (s' & <- & Hy); apply list_elem_of_In in Hy.
      * rewrite Forall_forall in Hdone. left. cbn. rewrite Es. by apply Hdone.
      * rewrite Forall_forall in Htodo'. specialize (Htodo' s' Hy). apply list_elem_of_In, Hlt in Hy.
        unfold sched. cbn. rewrite Es. lia.
  - intros h1 [u|y] [T1 [tr1 ->]]; [|by eexists _, _]. apply keeps_bind, keeps_ask. asks. intros a Ha. split; [done|].
    destruct a as [t|y]; cbn beta iota.
    + apply (Hrest _ (F ++ [(sl_number s, sl_tick s)])); [|done|done| |by rewrite <- app_assoc; eexists].
      * apply tally_next; [exact T1|exact Hn|]. cbn in Ha. rewrite (tl_other _ _ _ T1 _ Hn), ticks_snoc in Ha. cbn in Ha.
        rewrite Nat.eqb_refl in Ha. apply Forall_app in Ha as [_ Ha]. inversion Ha as [|x l Hlt' _]; subst.
        intros x [Hx|[<-|[]]]%in_app_or; [|by left].
        pose proof (tl_ahead _ _ _ T x (sl_number s, sl_tick s) Hx) as Hsc. unfold sched in *. cbn in *.
        assert (In (sl_number s, sl_tick s) (pend_of dn ++ (sl_number s, sl_tick s) :: pend_of todo)) by (apply in_or_app; right; by left).
        specialize (Hsc ltac:(assumption)). lia.
      * cbn in Ha. rewrite (tl_other _ _ _ T1 _ Hn), ticks_snoc in Ha. cbn in Ha.
        rewrite Nat.eqb_refl in Ha. apply Forall_app in Ha as [_ Ha]. inversion Ha as [|x l Hlt' _]; subst. cbn. lia.
    + exists (pend_of dn ++ pend_of todo), (F ++ [(sl_number s, sl_tick s)]). by apply tally_quiet.
Qed.

Lemma sleep_follows earliest pend F h : tally pend F h ->
  follows (sleep_until earliest) (fun h' r => tally pend F h' /\ (r = Ok tt -> due earliest h')) h.
Proof.
  intros T. unfold sleep_until. apply keeps_bind. asks. intros now _. split; [done|]. cbn beta iota.
  assert (T1 : tally pend F (h ++ [Ev NowUtc now])) by (by apply tally_quiet).
  destruct (0 <? earliest - now) eqn:E.
  - apply keeps_ask. asks. intros a _. split; [done|]. split; [by apply tally_quiet|]. intros [= ->].
    exists now. split; [apply in_or_app; left; apply in_or_app; right; by left|]. right. apply in_or_app. right. by left.
  - cbn. split; [done|]. intros _. exists now. split; [apply in_or_app; right; by left|]. left. lia.
Qed.
Lemma fold_min_le ts t x : fold_left Z.min ts t <= t /\ (In x ts -> fold_left Z.min ts t <= x).
Proof.
  revert t. induction ts as [|u ts IH]; intros t; cbn; [split; [lia|done]|].
  destruct (IH (Z.min t u)) as [H1 H2]. split; [lia|]. intros [<-|Hin]; [lia|by apply H2].
Qed.
Lemma earliest_least slots e : earliest_of slots = Some e -> Forall (fun s => e <= sl_tick s) slots.
Proof.
  unfold earliest_of. intros E. apply Forall_forall. intros s Hs%list_elem_of_In. apply (in_map sl_tick) in Hs.
  destruct (map sl_tick slots) as [|t ts]; [done|]. injection E as <-. destruct (fold_min_le ts t (sl_tick s)) as [H1 H2].
  destruct Hs as [->|Hs]; [done|by apply H2].
Qed.
Lemma rounds_follows fuel slots F h : tally (pend_of slots) F h -> kept_slots slots ->
  follows (rounds container_repr fuel slots) (fun h' _ => tallied h') h.
Proof.
  revert slots F h. induction fuel as [|fuel IH]; intros slots F h T Hk; cbn [rounds]; [by eexists _, _|].
  destruct (earliest_of slots) as [e|] eqn:Ee; [|by eexists _, _]. apply keeps_bind.
  eapply keeps_mono; [by apply sleep_follows|]. intros h1 [u|y] [T1 Hd]; [|by eexists _, _]. destruct u.
  apply keeps_bind. eapply keeps_mono.
  - apply (fire_due_follows e slots [] F h1); [exact T1|exact Hk|by apply Hd|done|by apply earliest_least].
  - intros h2 [slots'|y] H2; [|exact H2]. destruct H2 as (F' & T' & K'). by apply (IH slots' F').
Qed.
Lemma first_ticks_follows l dn h : tally (pend_of dn) [] h ->
  map (fun s => (sl_number s, sl_channel s)) dn ++ l = new_slots channels ->
  follows (first_ticks l) (fun h' r => match r with
    | Ok slots => tally (pend_of (dn ++ slots)) [] h' /\ kept_slots (dn ++ slots)
    | Err _ => tallied h' end) h.
Proof.
  revert dn h. induction l as [|[n ch] l IH]; intros dn h T Hk; cbn [first_ticks].
  - cbn. rewrite app_nil_r in *. by split.
  - apply keeps_bind, keeps_ask. asks. intros a Ha. split; [done|].
    destruct a as [t|y]; [|by eexists _, _; apply tally_quiet].
    set (s := {| sl_number := n; sl_channel := ch; sl_tick := t |}).
    assert (Hn : ~ In n (map fst (pend_of dn ++ []))).
    { rewrite app_nil_r, fst_pend. assert (E : map sl_number dn ++ n :: map fst l = seq 0 (length crons)).
      { transitivity (map fst (new_slots channels)).
        - rewrite <- Hk, map_app, map_map. done.
        - unfold new_slots. apply fst_zip. by rewrite length_seq. }
      pose proof (seq_sorted 0 (length crons)) as Hs. rewrite <- E in Hs. apply StronglySorted_app in Hs as [Hs _].
      intros Hin%list_elem_of_In. specialize (Hs _ _ Hin (list_elem_of_here _ _)). lia. }
    assert (T1 : tally (pend_of (dn ++ [s])) [] (h ++ [Ev (GetNext n) (Ok t)])).
    { rewrite pend_app. apply (tally_next _ []); [by rewrite app_nil_r|exact Hn|done]. }
    apply keeps_bind. eapply keeps_mono; [apply (IH (dn ++ [s])); [exact T1|]|].
    + rewrite map_app, <- app_assoc. exact Hk.
    + intros h2 [slots|y] H2; [|exact H2]. destruct H2 as [H2 K2]. rewrite <- app_assoc in *. by split.
Qed.

(** C36. Every tick is fired once, in order and not early.  In any run of the scheduler, whatever
    the clock and the admission answer and wherever it is cancelled, on a croniter whose dates
    increase: there is one list of firings, in the order of their times and, for equal times, of
    the channels, whose routable events are exactly what was admitted; of the ticks croniter
    gave a channel all were fired, in order and once, but the one still pending; and an event is
    admitted only after the clock showed its tick, or the scheduler slept on up to it. *)
Theorem cron_ticks_in_order fuel tr r :
  runs (_run container_repr fuel channels) tr r -> all_of croniter [] tr ->
  (exists F, StronglySorted sched F /\ admitted tr = omap event_of F
     /\ forall n, given n tr = ticks_of n F \/ exists t, given n tr = ticks_of n F ++ [t])
  /\ forall tr1 e a tr2, tr = tr1 ++ Ev (AdmitTick e) a :: tr2 -> exists n t, event_of (n, t) = Some e /\ due t tr1.
Proof.
  intros Hr Hc. assert (Hk : follows (_run container_repr fuel channels) (fun h _ => tallied h) []).
  { unfold _run. apply keeps_bind. eapply keeps_mono; [apply (first_ticks_follows (new_slots channels) [] [])|].
    - split; try done. constructor.
    - done.
    - intros h [slots|y] Hp; [|exact Hp]. destruct Hp as [T K]. by eapply rounds_follows. }
  destruct (keeps_runs _ _ _ _ _ _ _ Hk Hr Hc) as [Hall (pend & F & T)]. split.
  - exists F. split; [apply T|]. split; [apply T|]. intros n. destruct (in_dec Nat.eq_dec n (map fst pend)) as [Hin|Hin].
    + right. apply in_map_iff in Hin as ([m t] & <- & Hin). exists t. by apply T.
    + left. by apply T.
  - intros tr1 e a tr2 ->. exact (Hall tr1 _ tr2 eq_refl).
Qed.
End cron.

(** ** Samples, of the queue too *)

(** ** A queue: one deleted pending entry, one new entry that starts *)

Definition no_repr : json -> string := fun _ => "?".
Definition jobs : ChannelConfig :=
  Build_ChannelConfig "jobs" CT_queue 1 None (Some {| rt_workspace_key := None; rt_session_key := Some "main" |})
    None None None None None None (Some {| queue_key := "ach:jobs" |}) None.
Definition job : entry := ("2-0", Some [("task", "a")]).
Definition job_event : RoutedEvent :=
  {| re_event := entry_event jobs job; re_workspace_key := "queue:jobs"; re_session_key := "main"; re_rate_keys := [] |}.
Example job_routes : routed no_repr jobs job = Ok job_event.
Proof. vm_compute. reflexivity. Qed.

Definition redis (_ : history) (c : queue_call) : queue_ans c :=
  match c return queue_ans c with
  | XGroupCreate => Err Failed
  | XReadNew => Ok [("ach:jobs", [job])]
  | XReadPending cursor => Ok [("ach:jobs", if String.eqb cursor "0" then [("1-0", None)] else [])]
  | XAck _ => Ok tt
  | Admit _ => Ok 7
  | AwaitStarted _ => Ok tt
  | LoopTime => 1
  | Stopping => false
  | Sleep => Ok tt
  end.
Definition queue_run : history * result raised consumer := play redis (start no_repr jobs 1) [].
Example queue_run_ex : fst queue_run =
  [Ev XGroupCreate (Err Failed); Ev Stopping false; Ev LoopTime 1; Ev (XReadPending "0") (Ok [("ach:jobs", [("1-0", None)])]);
   Ev (XAck "1-0") (Ok tt); Ev XReadNew (Ok [("ach:jobs", [job])]); Ev (Admit job_event) (Ok 7); Ev (AwaitStarted 7) (Ok tt);
   Ev (XAck "2-0") (Ok tt)].
Proof. vm_compute. reflexivity. Qed.

Lemma acked_exactly_when_started_witness :
  just_started no_repr jobs (firstn 8 (fst queue_run)) "2-0" \/ found_deleted (firstn 8 (fst queue_run)) "2-0".
Proof.
  refine (proj1 (acked_exactly_when_started no_repr jobs 1 (fst queue_run) (snd queue_run) (play_runs redis _ []))
            (firstn 8 (fst queue_run)) "2-0" (Ok tt) [] _).
  vm_compute. reflexivity.
Defined.

(** An entry whose delivery fails in the first sweep: four rounds later it is still pending, and
    was tried once. *)
Definition full (past : history) (c : queue_call) : queue_ans c :=
  match c return queue_ans c with
  | XReadNew => Ok []
  | XReadPending cursor => Ok [("ach:jobs", if String.eqb cursor "0" then [job] else [])]
  | Admit _ => Err Failed
  | c => redis past c
  end.
Definition admissions (h : history) : nat := length (List.filter (fun ev => match ev_call ev with Admit _ => true | _ => false end) h).
Definition full_run : history * result raised consumer := play full (start no_repr jobs 5) [].
Example tried_once : swept (fst full_run) = ["2-0"] /\ admissions (fst full_run) = 1%nat
  /\ snd full_run = Ok {| _pending_cursor := "2-0"; _next_pending_sweep := 0 |}.
Proof. vm_compute. done. Qed.

(** ** Two cron channels with a tick in common *)

#[local] Existing Instance plain_datetime.
Definition cron_channel (name : string) : ChannelConfig :=
  Build_ChannelConfig name CT_cron 1 None None None None None None None
    (Some {| cron_schedule := "* * * * *"; cron_timezone := "UTC" |}) None None.
Definition crontab : list ChannelConfig := [cron_channel "a"; jobs; cron_channel "b"].
(** Channel a at 10, 20, 30, ...; channel b at 15, 20, 25, ...  The clock is late for b. *)
Definition world (past : ticking) (c : cron_call) : cron_ans c :=
  match c return cron_ans c with
  | GetNext n =>
      let k := Z.of_nat (length (given n past)) in Ok (match n with O => 10 * (k + 1) | _ => 5 * (k + 3) end)
  | NowUtc => match length past with 2%nat => 4 | _ => 17 end
  | SleepFor _ => Ok tt
  | AdmitTick _ => Ok 1
  | AwaitTick _ => Err Failed
  end.
Definition cron_run : ticking * result raised (list slot) := play world (_run no_repr 3 crontab) [].
Example cron_run_ex : map ev_call (fst cron_run) =
  match routed_tick no_repr (cron_channel "a") 10, routed_tick no_repr (cron_channel "b") 15,
        routed_tick no_repr (cron_channel "a") 20, routed_tick no_repr (cron_channel "b") 20 with
  | Ok a1, Ok b1, Ok a2, Ok b2 =>
      [GetNext 0; GetNext 1; NowUtc; SleepFor 6; AdmitTick a1; AwaitTick 1; GetNext 0;
       NowUtc; AdmitTick b1; AwaitTick 1; GetNext 1;
       NowUtc; SleepFor 3; AdmitTick a2; AwaitTick 1; GetNext 0; AdmitTick b2; AwaitTick 1; GetNext 1]
  | _, _, _, _ => []
  end.
Proof. vm_compute. reflexivity. Qed.

(** Checking a finite history event by event. *)
Fixpoint croniter_ok (past tr : ticking) : Prop :=
  match tr with [] => True | ev :: tr => croniter past ev /\ croniter_ok (past ++ [ev]) tr end.
Lemma croniter_check past tr : croniter_ok past tr -> all_of croniter past tr.
Proof.
  revert past. induction tr as [|ev tr IH]; intros past H; [apply all_of_nil|]. destruct H as [H1 H2].
  apply all_of_cons. split; [done|by apply IH].
Qed.
Lemma cron_run_dates : all_of croniter [] (fst cron_run).
Proof. apply croniter_check. vm_compute. repeat constructor. Qed.

Lemma cron_ticks_in_order_witness :
  exists F, StronglySorted sched F /\ admitted (fst cron_run) = omap (event_of no_repr crontab) F
    /\ forall n, given n (fst cron_run) = ticks_of n F \/ exists t, given n (fst cron_run) = ticks_of n F ++ [t].
Proof.
  exact (proj1 (cron_ticks_in_order no_repr crontab 3 (fst cron_run) (snd cron_run) (play_runs world _ []) cron_run_dates)).
Defined.
