(* ===== verification/Snapshots.v ===== *)
(** * execution/snapshots.py: archives swapped into place

    Extracted archives replace the contents of a Workspace, a handoff path or the three managed
    directories of a HOME by renames, with a rollback written out for a failure half-way.  A
    directory is the map from the names in it to what is there; any file operation may fail.
    The operations on sessions are at the end; the locks of the service and the engine are
    calls. *)

From stdpp Require Import gmap.
From S2P Require Import Prelude PyJson Config Effects.

(** ** The file system *)

(** [Dest]: the directory replaced; [Work]: the temporary directory of the operation; [Staged]
    and [Backup]: two directories in it. *)
Inductive place := Dest | Work | Staged | Backup.
#[export] Instance place_eq_dec : EqDecision place.
Proof. solve_decision. Defined.
#[export] Instance place_countable : Countable place.
Proof.
  refine (inj_countable' (fun p => match p with Dest => 0 | Work => 1 | Staged => 2 | Backup => 3 end)
            (fun n => match n with 0 => Dest | 1 => Work | 2 => Staged | _ => Backup end) _). by intros [].
Defined.
Abbreviation spot := (place * string)%type.

Inductive fexn := OsError | Refused | BadValue | KeyMissing | Mismatch | Cancelled.

Record SnapshotManifest :=
  { sm_snapshot_version : json; sm_engine_family : json; sm_engine_package : json; sm_engine_version : json;
    sm_agent : json; sm_workspace_ref : json; sm_session_ref : json; sm_native_session_id : json;
    sm_workspace_path : json; sm_registry : json; sm_archive_ref : json }.

Inductive snap_call :=
  | Names (d : place)                              (* [tuple(d.iterdir())] *)
  | Present (k : spot)                             (* [k.exists() or k.is_symlink()] *)
  | Rename (k k' : spot)
  | MakeDir (k : spot)
  | CopyTree (k k' : spot)
  | RemovePath (k : spot)                          (* [_remove_path] *)
  | MakeParent                                     (* [mkdir(parents=True, exist_ok=True)] *)
  | MakeTemp (inside : bool)                       (* [mkdtemp]: its name; inside [Dest] or elsewhere *)
  | WriteCapped                                    (* [write_capped(chunks, archive)] *)
  | Extract                                        (* [extract(archive, staged)] *)
  | RemoveTree (root : option string)              (* [_owned(rmtree, root, ignore_errors=True)], a name in [Dest] or elsewhere *)
  | Pack                                           (* [_pack_restorable]: the archive *)
  | Unlink                                         (* [archive.unlink(missing_ok=True)] *)
  | GetFrozen
  | SetFrozen (b : bool)
  | AnyWork                                        (* an invocation is not terminal *)
  | AnyLock                                        (* a session lock is held *)
  | AnySession                                     (* ready, or a session is in the inventory *)
  | Lock (session : string)
  | Unlock (session : string)
  | Locked (session : string)
  | Known (session : string)                       (* [service._sessions.get(ref) is not None] *)
  | Create (session : string)
  | Active (session : string)                      (* [session_info(ref)["active"]] *)
  | Snapshot (session : string) (clean : bool)
  | ReadManifest (staged : bool)                   (* the bytes of [.ach-registry.json], parsed *)
  | HasManifest
  | WorkspaceRef                                   (* [service._workspace_ref] *)
  | Restore (session workspace_ref : string) (m : SnapshotManifest) (in_place : bool).
Definition snap_ans (c : snap_call) : Type :=
  match c with
  | Names _ => result fexn (list string)
  | Present _ | GetFrozen | AnyWork | AnyLock | AnySession | Locked _ | Known _ | HasManifest => bool
  | MakeTemp _ | Pack => result fexn string
  | SetFrozen _ | Lock _ | Unlock _ | Create _ => unit
  | Active _ => result fexn bool
  | ReadManifest _ => result fexn json
  | WorkspaceRef => string
  | _ => result fexn unit
  end.
Abbreviation fprog := (prog snap_ans fexn).

(** [try: p finally: q] *)
Definition finally {A} (p : fprog A) (q : fprog unit) : fprog A := r ← attempt p; _ ← q; lift r.
(** [try: p except BaseException: h; raise] *)
Definition on_error {A} (p : fprog A) (h : fprog unit) : fprog A :=
  r ← attempt p; match r with Ok a => mret a | Err e => _ ← h; throw e end.

(** ** Swaps *)

(** Move the names, one rename each: those moved, and the error that stopped it. *)
Fixpoint move_all (from to : place) (names moved : list string) : fprog (list string * option fexn) :=
  match names with
  | [] => mret (moved, None)
  | n :: names =>
      r ← call (Rename (from, n) (to, n));
      match (r : result fexn unit) with
      | Ok _ => move_all from to names (moved ++ [n])
      | Err e => mret (moved, Some e)
      end
  end.
Fixpoint remove_all (names : list string) : fprog unit :=
  match names with [] => mret tt | n :: names => _ ← (call (RemovePath (Dest, n)) ≫= lift); remove_all names end.
Fixpoint put_back (names : list string) : fprog unit :=
  match names with
  | [] => mret tt
  | n :: names =>
      there ← call (Present (Backup, n));
      _ ← (if (there : bool) then call (Rename (Backup, n) (Dest, n)) ≫= lift else mret tt);
      put_back names
  end.
Definition roll_back (installed moved : list string) (e : fexn) : fprog unit :=
  _ ← remove_all (rev installed); _ ← put_back (rev moved); throw e.
Definition _replace_workspace_contents (transaction : string) : fprog unit :=
  staged ← (call (Names Staged) ≫= lift);
  if in_strs transaction staged then throw BadValue else
  _ ← (call (MakeDir (Work, "previous")) ≫= lift);
  children ← attempt (call (Names Dest) ≫= lift);
  match children with
  | Err e => roll_back [] [] e
  | Ok children =>
      '(moved, failed) ← move_all Dest Backup (List.filter (fun n => negb (String.eqb n transaction)) children) [];
      match failed with
      | Some e => roll_back [] moved e
      | None =>
          children ← attempt (call (Names Staged) ≫= lift);
          match children with
          | Err e => roll_back [] moved e
          | Ok children =>
              '(installed, failed) ← move_all Staged Dest children [];
              match failed with Some e => roll_back installed moved e | None => mret tt end
          end
      end
  end.

(** [_replace_path(staged, target, previous)]: [target] and [previous] are names in one
    directory, [staged] is in the temporary one. *)
Definition _replace_path (staged target previous : string) : fprog unit :=
  _ ← (call MakeParent ≫= lift);
  there ← call (Present (Dest, target));
  _ ← (if (there : bool) then call (Rename (Dest, target) (Dest, previous)) ≫= lift else mret tt);
  _ ← on_error (call (Rename (Work, staged) (Dest, target)) ≫= lift)
        (there ← call (Present (Dest, previous));
         if (there : bool) then call (Rename (Dest, previous) (Dest, target)) ≫= lift else mret tt);
  call (RemovePath (Dest, previous)) ≫= lift.

Definition kinds : list string := ["skills"; "prompts"; "artifacts"].
Definition staged_dir (kind : string) : spot := (Work, kind +:+ ".staged").
Definition previous_dir (kind : string) : spot := (Work, kind +:+ ".previous").
Fixpoint copy_kinds (kinds : list string) : fprog unit :=
  match kinds with
  | [] => mret tt
  | kind :: kinds =>
      there ← call (Present (Staged, kind));
      _ ← (if (there : bool) then call (CopyTree (Staged, kind) (staged_dir kind)) ≫= lift
           else call (MakeDir (staged_dir kind)) ≫= lift);
      copy_kinds kinds
  end.
(** The kinds changed, and the error that stopped the swap. *)
Fixpoint swap_kinds (kinds changed : list string) : fprog (list string * option fexn) :=
  match kinds with
  | [] => mret (changed, None)
  | kind :: kinds =>
      there ← call (Present (Dest, kind));
      away ← (if (there : bool) then attempt (call (Rename (Dest, kind) (previous_dir kind)) ≫= lift) else mret (Ok tt));
      match away with
      | Err e => mret (changed, Some e)
      | Ok _ =>
          let changed := if (there : bool) then changed ++ [kind] else changed in
          r ← attempt (call (Rename (staged_dir kind) (Dest, kind)) ≫= lift);
          match r with
          | Err e => mret (changed, Some e)
          | Ok _ => swap_kinds kinds (if in_strs kind changed then changed else changed ++ [kind])
          end
      end
  end.
Fixpoint restore_kinds (kinds : list string) : fprog unit :=
  match kinds with
  | [] => mret tt
  | kind :: kinds =>
      there ← call (Present (Dest, kind));
      _ ← (if (there : bool) then call (RemovePath (Dest, kind)) ≫= lift else mret tt);
      previous ← call (Present (previous_dir kind));
      _ ← (if (previous : bool) then call (Rename (previous_dir kind) (Dest, kind)) ≫= lift else mret tt);
      restore_kinds kinds
  end.
(** [_install_managed_batch(staged, public)]: [public] is [Dest], and the transaction is next
    to it. *)
Definition swap_batch : fprog unit :=
  _ ← copy_kinds kinds;
  '(changed, failed) ← swap_kinds kinds [];
  match failed with Some e => _ ← restore_kinds (rev changed); throw e | None => mret tt end.
Definition _install_managed_batch : fprog unit :=
  _ ← (call MakeParent ≫= lift);
  _ ← (call (MakeTemp false) ≫= lift);
  finally swap_batch (call (RemoveTree None) ≫= lift).

(** ** The operations on the Workspace *)

Definition export_workspace : fprog string :=
  frozen ← call GetFrozen;
  if (frozen : bool) then throw Refused else
  _ ← call (SetFrozen true);
  finally
    (work ← call AnyWork;
     if (work : bool) then throw Refused else
     held ← call AnyLock;
     if (held : bool) then throw Refused else
     on_error (call Pack ≫= lift) (call Unlink ≫= lift))
    (call (SetFrozen false)).
Definition import_workspace : fprog unit :=
  frozen ← call GetFrozen;
  if (frozen : bool) then throw Refused else
  session ← call AnySession; held ← call AnyLock; work ← call AnyWork;
  if (session : bool) || (held : bool) || (work : bool) then throw Refused else
  _ ← call (SetFrozen true);
  _ ← (call MakeParent ≫= lift);
  root ← (call (MakeTemp true) ≫= lift);
  finally
    (work ← call AnyWork;
     if (work : bool) then throw Refused else
     _ ← (call WriteCapped ≫= lift);
     _ ← (call Extract ≫= lift);
     _replace_workspace_contents root)
    (_ ← (call (RemoveTree (Some root)) ≫= lift); call (SetFrozen false)).
(** [import_handoff], once the destination was checked. *)
Definition import_handoff (target previous : string) : fprog unit :=
  root ← (call (MakeTemp false) ≫= lift);
  finally (_ ← (call WriteCapped ≫= lift); _ ← (call Extract ≫= lift); _replace_path "staged" target previous)
          (call (RemoveTree None) ≫= lift).

(** ** Sessions *)

(** [async with service._sessions.lock(ref): p] *)
Definition with_lock {A} (session : string) (p : fprog A) : fprog A :=
  _ ← call (Lock session); finally p (call (Unlock session)).

(** [SnapshotManifest.from_dict]: [None] for a document it raises on. *)
Definition or_empty (o : option json) : json := match o with Some j => if json_truthy j then j else JObj [] | None => JObj [] end.
Definition or_text (o : option json) (default : string) : json := match o with Some j => j | None => JStr default end.
Definition from_dict (data : json) : option SnapshotManifest :=
  match data with
  | JObj d =>
      match or_empty (assoc "engine" d), assoc "snapshotVersion" d with
      | JObj engine, Some version =>
          Some {| sm_snapshot_version := version; sm_engine_family := or_text (assoc "family" engine) "opencode";
                  sm_engine_package := or_text (assoc "package" engine) ""; sm_engine_version := or_text (assoc "version" engine) "";
                  sm_agent := or_empty (assoc "agent" d); sm_workspace_ref := or_text (assoc "workspaceRef" d) "";
                  sm_session_ref := or_text (assoc "sessionRef" d) ""; sm_native_session_id := or_text (assoc "nativeSessionId" d) "";
                  sm_workspace_path := or_text (assoc "workspacePath" d) ""; sm_registry := or_empty (assoc "registry" d);
                  sm_archive_ref := match assoc "archiveRef" d with Some j => j | None => JNull end |}
      | _, _ => None
      end
  | _ => None
  end.
(** [manifest.agent == identity], for a dict of texts. *)
Definition is_identity (j : json) (identity : list (string * string)) : bool :=
  match j with
  | JObj d => forallb (fun kv => match assoc (fst kv) d with Some (JStr s) => String.eqb s (snd kv) | _ => false end) identity
              && forallb (fun kv => present (assoc (fst kv) identity)) d
  | _ => false
  end.
Definition is_text (j : json) (s : string) : bool := match j with JStr s' => String.eqb s' s | _ => false end.

Inductive resumed := Live | Fresh | Resumed.

Section sessions.
(** [str(service._workspace_dir)] and [service._agent_identity()]. *)
Context (workspace_dir : string) (identity : list (string * string)).

Definition export_session (session : string) : fprog string :=
  with_lock session
    (known ← call (Known session);
     if negb (known : bool) then throw KeyMissing else
     _ ← (call (Snapshot session true) ≫= lift);
     on_error (call Pack ≫= lift) (call Unlink ≫= lift)).
Definition suspend_session (session : string) : fprog unit :=
  with_lock session
    (known ← call (Known session);
     if negb (known : bool) then throw KeyMissing else call (Snapshot session false) ≫= lift).
(** False when the archive was discarded and the session starts fresh. *)
Definition import_session (session : string) : fprog bool :=
  _ ← call (Create session);
  with_lock session
    (_ ← (call (MakeTemp false) ≫= lift);
     finally
       (_ ← (call WriteCapped ≫= lift);
        _ ← (call Extract ≫= lift);
        data ← (call (ReadManifest true) ≫= lift);
        match from_dict data with
        | None => throw BadValue
        | Some m =>
            if negb (is_text (sm_session_ref m) session) then throw BadValue else
            if negb (is_text (sm_workspace_path m) workspace_dir) then mret false else
            ref ← call WorkspaceRef;
            if negb (truthy ref) then throw BadValue else
            _ ← (call (Restore session ref m false) ≫= lift); mret true
        end)
       (call (RemoveTree None) ≫= lift)).
Definition resume_session (session : string) : fprog resumed :=
  _ ← call (Create session);
  active ← (call (Active session) ≫= lift);
  live ← (if (active : bool) then mret true else call (Locked session));
  if (live : bool) then mret Live else
  with_lock session
    (there ← call HasManifest;
     if negb (there : bool) then mret Fresh else
     data ← call (ReadManifest false);
     match (data : result fexn json) with
     | Err Cancelled => throw Cancelled
     | Err _ => mret Fresh
     | Ok data =>
         match from_dict data with
         | None => mret Fresh
         | Some m =>
             if negb (is_text (sm_session_ref m) session) || negb (is_text (sm_workspace_path m) workspace_dir)
             then mret Fresh else
             ref ← call WorkspaceRef;
             if negb (truthy ref) then throw BadValue else
             if negb (is_text (sm_workspace_ref m) ref) || negb (is_identity (sm_agent m) identity) then mret Fresh else
             r ← call (Restore session ref m true);
             match (r : result fexn unit) with
             | Ok _ => mret Resumed
             | Err Mismatch => mret Fresh
             | Err e => throw e
             end
         end
     end).
End sessions.
