(* ===== verification/SnapshotsProps.v ===== *)
(** * execution/snapshots.py: a swap is whole or undone

    [disk] is the file system of Snapshots.v with a number of faults that may still happen: an
    operation fails without one only when it must.  The theorems are about at most one fault,
    so that a rollback itself succeeds. *)

From stdpp Require Import gmap.
From S2P Require Import Prelude PyJson Config ConfigFacts StateRefs Effects Traces Histories Snapshots.

Section disk.
(** What is at a name: a file, or a directory with all below it; an empty directory, and the
    copy of a tree. *)
Context {N : Type} (empty_dir : N) (copied : N -> N).

Record disk := { at_ : gmap spot N; faults : nat; frozen : bool; archive : gmap string N; archive_tree : N }.
Definition with_at (w : disk) (m : gmap spot N) : disk :=
  {| at_ := m; faults := faults w; frozen := frozen w; archive := archive w; archive_tree := archive_tree w |}.
Definition with_frozen (w : disk) (b : bool) : disk :=
  {| at_ := at_ w; faults := faults w; frozen := b; archive := archive w; archive_tree := archive_tree w |}.
Definition with_fault (w : disk) (n : nat) (m : gmap spot N) : disk :=
  {| at_ := m; faults := n; frozen := frozen w; archive := archive w; archive_tree := archive_tree w |}.
(** A fault happened, and left everything but [k] as it was. *)
Definition broken (k : option spot) (w w' : disk) : Prop :=
  exists n m, faults w = S n /\ w' = with_fault w n m /\ forall k', k <> Some k' -> m !! k' = at_ w !! k'.

Definition fs_step (w : disk) (c : snap_call) : snap_ans c -> disk -> Prop :=
  match c return snap_ans c -> disk -> Prop with
  | Names d => fun a w' =>
      (w' = w /\ exists ns, a = Ok ns /\ NoDup ns /\ forall n, n ∈ ns <-> is_Some (at_ w !! (d, n)))
      \/ (broken None w w' /\ exists e, a = Err e)
  | Present k => fun a w' => a = bool_decide (is_Some (at_ w !! k)) /\ w' = w
  | Rename k k' => fun a w' =>
      (exists x, at_ w !! k = Some x /\ a = Ok tt /\ w' = with_at w (<[k' := x]> (delete k (at_ w))))
      \/ ((exists e, a = Err e) /\ (broken None w w' \/ w' = w /\ (at_ w !! k = None \/ is_Some (at_ w !! k'))))
  | MakeDir k => fun a w' =>
      (at_ w !! k = None /\ a = Ok tt /\ w' = with_at w (<[k := empty_dir]> (at_ w)))
      \/ ((exists e, a = Err e) /\ (broken None w w' \/ w' = w /\ is_Some (at_ w !! k)))
  | CopyTree k k' => fun a w' =>
      (exists x, at_ w !! k = Some x /\ a = Ok tt /\ w' = with_at w (<[k' := copied x]> (at_ w)))
      \/ ((exists e, a = Err e) /\ (broken (Some k') w w' \/ w' = w /\ at_ w !! k = None))
  | RemovePath k => fun a w' => (a = Ok tt /\ w' = with_at w (delete k (at_ w))) \/ broken (Some k) w w'
  | MakeParent => fun a w' => (a = Ok tt /\ w' = w) \/ ((exists e, a = Err e) /\ broken None w w')
  | MakeTemp inside => fun a w' =>
      (exists t, a = Ok t /\ at_ w !! (Dest, t) = None
         /\ w' = if (inside : bool) then with_at w (<[(Dest, t) := empty_dir]> (at_ w)) else w)
      \/ ((exists e, a = Err e) /\ broken None w w')
  | Extract => fun a w' =>
      (a = Ok tt /\ exists m, w' = with_at w m /\ (forall n, m !! (Staged, n) = archive w !! n)
         /\ m !! (Work, "staged") = Some (archive_tree w)
         /\ forall k, fst k <> Staged -> k <> (Work, "staged") -> m !! k = at_ w !! k)
      \/ ((exists e, a = Err e) /\ w' = w)
  | RemoveTree root => fun _ w' =>
      exists m, w' = with_at w m /\ forall n, root <> Some n -> m !! (Dest, n) = at_ w !! (Dest, n)
  | GetFrozen => fun a w' => a = frozen w /\ w' = w
  | SetFrozen b => fun _ w' => w' = with_frozen w b
  | _ => fun _ w' => w' = w
  end.

Abbreviation does := (does fs_step).

(** ** Moving names between directories *)

Definition moved_by (f t : place) (ns : list string) (m m' : gmap spot N) : Prop :=
  forall p n, m' !! (p, n) =
    if decide (n ∈ ns) then (if decide (p = t) then m !! (f, n) else if decide (p = f) then None else m !! (p, n))
    else m !! (p, n).
Lemma moved_nil f t m : moved_by f t [] m m.
Proof. intros p n. by rewrite decide_False by set_solver. Qed.
Lemma moved_step f t n ns m m' x : f <> t -> n ∉ ns -> m !! (f, n) = Some x ->
  moved_by f t ns (<[(t, n) := x]> (delete (f, n) m)) m' -> moved_by f t (n :: ns) m m'.
Proof.
  intros Hne Hn Hx Hm p n'. rewrite (Hm p n'). destruct (decide (n' = n)) as [->|Hnn].
  - rewrite (decide_False (P := n ∈ ns)), (decide_True (P := n ∈ n :: ns)) by set_solver.
    destruct (decide (p = t)) as [->|Hp]; [by rewrite lookup_insert_eq|]. rewrite lookup_insert_ne by congruence.
    destruct (decide (p = f)) as [->|Hp']; [by rewrite lookup_delete_eq|]. by rewrite lookup_delete_ne by congruence.
  - assert (Hl : forall q, (<[(t, n) := x]> (delete (f, n) m)) !! (q, n') = m !! (q, n'))
      by (intros q; by rewrite lookup_insert_ne, lookup_delete_ne by congruence).
    rewrite !Hl. destruct (decide (n' ∈ ns)) as [Hi|Hi].
    + by rewrite (decide_True (P := n' ∈ n :: ns)) by set_solver.
    + by rewrite (decide_False (P := n' ∈ n :: ns)) by set_solver.
Qed.

(** Only the map and the faults of the disk differ. *)
Definition same_else (w w' : disk) : Prop :=
  frozen w' = frozen w /\ archive w' = archive w /\ archive_tree w' = archive_tree w.
Lemma same_refl w : same_else w w.
Proof. done. Qed.
Lemma same_trans w1 w2 w3 : same_else w1 w2 -> same_else w2 w3 -> same_else w1 w3.
Proof. intros (?&?&?) (?&?&?). repeat split; congruence. Qed.
Lemma broken_none w w' : broken None w w' -> same_else w w' /\ faults w = S (faults w') /\ at_ w' = at_ w.
Proof. intros (n & m & Hn & -> & Hm). split; [done|]. split; [done|]. apply map_eq. intros k. by apply Hm. Qed.

(** What [move_all] did: a part of the names in order, all of them unless a fault stopped it. *)
Definition moves (f t : place) (names moved : list string) (w w' : disk) (r : list string * option fexn) : Prop :=
  exists dn rest, names = dn ++ rest /\ fst r = moved ++ dn /\ moved_by f t dn (at_ w) (at_ w') /\ same_else w w'
  /\ match snd r with None => rest = [] /\ faults w' = faults w | Some _ => faults w = S (faults w') end.
Lemma does_move_all f t names moved w : f <> t -> NoDup names ->
  (forall n, n ∈ names -> is_Some (at_ w !! (f, n)) /\ at_ w !! (t, n) = None) ->
  does (move_all f t names moved) (fun w' r => match r with Ok r => moves f t names moved w w' r | Err _ => False end) w.
Proof.
  intros Hne. revert moved w. induction names as [|n names IH]; intros moved w Hnd Hin; cbn [move_all].
  - exists [], []. cbn. rewrite app_nil_r. split; [done|]. split; [done|]. split; [apply moved_nil|done].
  - inversion Hnd as [|n' ns Hn Hnd']; subst. destruct (Hin n) as [[x Hx] Ht]; [set_solver|].
    apply does_bind. acts. intros a w' [(x' & Hx' & -> & ->)|([e ->] & Hb)].
    + rewrite Hx in Hx'. injection Hx' as <-. eapply does_mono; [apply (IH (moved ++ [n]))|].
      * done.
      * intros n' Hn'. destruct (Hin n') as [Hs Hnone]; [set_solver|]. assert (n' <> n) by set_solver.
        cbn. rewrite !lookup_insert_ne, !lookup_delete_ne by congruence. done.
      * intros w2 [[mv err]|y] H2; [|done]. destruct H2 as (dn & rest & -> & Hmv & Hby & Hs & Hr). cbn in Hmv, Hr.
        exists (n :: dn), rest. split; [done|]. split; [cbn; by rewrite Hmv, <- app_assoc|]. split; [|split; [exact Hs|exact Hr]].
        eapply moved_step; [done| |exact Hx|exact Hby]. set_solver.
    + destruct Hb as [Hb|[_ [Hb|[y Hb]]]]; [|congruence|congruence]. apply broken_none in Hb as (Hs & Hf & Hat).
      exists [], (n :: names). cbn. rewrite app_nil_r. split; [done|]. split; [done|]. rewrite Hat. split; [apply moved_nil|done].
Qed.

(** ** The rollback, when nothing fails any more *)

Lemma does_remove_all ns w : faults w = 0 -> does (remove_all ns) (fun w' r => r = Ok tt /\ faults w' = 0 /\ same_else w w'
  /\ forall p n, at_ w' !! (p, n) = if decide (p = Dest /\ n ∈ ns) then None else at_ w !! (p, n)) w.
Proof.
  revert w. induction ns as [|n ns IH]; intros w Hf; cbn [remove_all].
  - split; [done|]. split; [done|]. split; [done|]. intros p n. by rewrite decide_False by set_solver.
  - apply does_bind, does_ask. acts. intros a w' [[-> ->]|(k & m & Hk & _)]; [|lia].
    eapply does_mono; [by apply IH|]. intros w2 r (-> & Hf2 & Hs & Hm). split; [done|]. split; [done|]. split; [exact Hs|].
    intros p n'. rewrite Hm. cbn. destruct (decide (p = Dest /\ n' ∈ ns)) as [Hd|Hd]; [by rewrite decide_True by set_solver|].
    destruct (decide (p = Dest /\ n' = n)) as [[-> ->]|Hne].
    + by rewrite lookup_delete_eq, decide_True by set_solver.
    + rewrite lookup_delete_ne by naive_solver. by rewrite decide_False by set_solver.
Qed.
Lemma does_put_back ns w : faults w = 0 -> NoDup ns ->
  (forall n, n ∈ ns -> is_Some (at_ w !! (Backup, n)) /\ at_ w !! (Dest, n) = None) ->
  does (put_back ns) (fun w' r => r = Ok tt /\ same_else w w' /\ moved_by Backup Dest ns (at_ w) (at_ w')) w.
Proof.
  revert w. induction ns as [|n ns IH]; intros w Hf Hnd Hin; cbn [put_back].
  - split; [done|]. split; [done|]. apply moved_nil.
  - inversion Hnd as [|n' ns' Hn Hnd']; subst. destruct (Hin n) as [[x Hx] Ht]; [set_solver|].
    apply does_bind. acts. intros a w' [-> ->]. cbn beta iota. rewrite bool_decide_true by (by exists x).
    apply does_bind, does_ask. acts. intros a w' [(x' & Hx' & -> & ->)|([e ->] & Hb)].
    + rewrite Hx in Hx'. injection Hx' as <-. eapply does_mono; [apply IH|].
      * done.
      * done.
      * intros n' Hn'. destruct (Hin n') as [Hs Hnone]; [set_solver|]. assert (n' <> n) by set_solver.
        cbn. rewrite !lookup_insert_ne, !lookup_delete_ne by congruence. done.
      * intros w2 r (-> & Hs & Hm). split; [done|]. split; [exact Hs|]. by eapply moved_step.
    + destruct Hb as [(k & m & Hk & _)|[_ [Hb|[y Hb]]]]; [lia|congruence|congruence].
Qed.
Lemma elem_of_rev n (l : list string) : n ∈ rev l <-> n ∈ l.
Proof. rewrite !list_elem_of_In. symmetry. apply in_rev. Qed.
Lemma NoDup_rev' (l : list string) : NoDup l -> NoDup (rev l).
Proof. rewrite !NoDup_ListNoDup. apply NoDup_rev. Qed.
Lemma does_roll_back installed moved e w : faults w = 0 -> NoDup moved ->
  (forall n, n ∈ moved -> is_Some (at_ w !! (Backup, n)) /\ (n ∈ installed \/ at_ w !! (Dest, n) = None)) ->
  does (roll_back installed moved e) (fun w' r => r = Err e /\ same_else w w' /\ forall n, at_ w' !! (Dest, n) =
    if decide (n ∈ moved) then at_ w !! (Backup, n) else if decide (n ∈ installed) then None else at_ w !! (Dest, n)) w.
Proof.
  intros Hf Hnd Hin. unfold roll_back. apply does_bind. eapply does_mono; [by apply does_remove_all|].
  intros w1 r (-> & Hf1 & Hs1 & Hm1). apply does_bind. eapply does_mono; [apply does_put_back|].
  - done.
  - by apply NoDup_rev'.
  - intros n Hn. rewrite elem_of_rev in Hn. destruct (Hin n) as [Hb Hd]; [done|].
    rewrite !Hm1. rewrite decide_False by naive_solver. split; [done|]. case_decide as Hc; [done|].
    destruct Hd as [Hd|Hd]; [|done]. exfalso. apply Hc. split; [done|]. by apply elem_of_rev.
  - intros w2 r (-> & Hs2 & Hm2). split; [done|]. split; [by eapply same_trans|]. intros n. rewrite Hm2, !Hm1.
    pose proof (elem_of_rev n moved) as Em. pose proof (elem_of_rev n installed) as Ei.
    repeat case_decide; naive_solver.
Qed.

(** ** The contents of a Workspace *)

Lemma children_spec (t n : string) ns : n ∈ List.filter (fun n => negb (String.eqb n t)) ns <-> n ∈ ns /\ n <> t.
Proof. rewrite !list_elem_of_In, filter_In, negb_true_iff, String.eqb_neq. done. Qed.
Lemma NoDup_children (t : string) ns : NoDup ns -> NoDup (List.filter (fun n => negb (String.eqb n t)) ns).
Proof. rewrite !NoDup_ListNoDup. apply List.NoDup_filter. Qed.

(** [w'] has the contents that were staged; [w'] has what it had. *)
Definition replaced (t : string) (w w' : disk) : Prop := forall n, n <> t -> at_ w' !! (Dest, n) = at_ w !! (Staged, n).
Definition untouched (w w' : disk) : Prop := forall n, at_ w' !! (Dest, n) = at_ w !! (Dest, n).
Definition swapped (t : string) (w w' : disk) (r : result fexn unit) : Prop :=
  same_else w w' /\ match r with Ok _ => replaced t w w' | Err _ => untouched w w' end.

(** What went to [Backup] goes back. *)
Lemma does_undo t w dn w1 e : (forall n, n ∈ dn -> is_Some (at_ w !! (Dest, n))) -> NoDup dn ->
  moved_by Dest Backup dn (at_ w) (at_ w1) -> same_else w w1 -> faults w1 = 0 -> does (roll_back [] dn e) (swapped t w) w1.
Proof.
  intros Hin Hnd Hm Hs Hf. eapply does_mono; [apply does_roll_back; [done|exact Hnd|]|].
  - intros n Hn. rewrite !Hm, !(decide_True (P := n ∈ dn)) by done. split; [by apply Hin|by right].
  - intros w3 r (-> & Hs3 & Hm3). split; [by eapply same_trans|]. intros n. rewrite Hm3, !Hm.
    destruct (decide (n ∈ dn)) as [Hc|Hc]; [done|]. by rewrite decide_False by set_solver.
Qed.
(** After the children of [Dest] went to [Backup]: the staged ones come, or all go back. *)
Lemma does_install t w children staged w1 :
  (forall n, n ∈ staged <-> is_Some (at_ w !! (Staged, n))) -> NoDup staged -> t ∉ staged ->
  (forall n, n ∈ children <-> is_Some (at_ w !! (Dest, n)) /\ n <> t) -> NoDup children ->
  moved_by Dest Backup children (at_ w) (at_ w1) -> same_else w w1 -> faults w1 <= 1 ->
  does ('(installed, failed) ← move_all Staged Dest staged [];
        match failed with Some e => roll_back installed children e | None => mret tt end) (swapped t w) w1.
Proof.
  intros Hst Hnd Ht Hch Hndc Hm Hs Hf.
  assert (Hback : forall n, n ∈ children -> at_ w1 !! (Backup, n) = at_ w !! (Dest, n) /\ at_ w1 !! (Dest, n) = None).
  { intros n Hn. rewrite !Hm. by rewrite !(decide_True (P := n ∈ children)). }
  assert (Hdest : forall n, n ∉ children -> at_ w1 !! (Dest, n) = at_ w !! (Dest, n)).
  { intros n Hn. rewrite Hm. by rewrite decide_False. }
  assert (Hstaged : forall n, at_ w1 !! (Staged, n) = at_ w !! (Staged, n)).
  { intros n. rewrite Hm. by destruct (decide (n ∈ children)). }
  assert (Hnone : forall n, n ∉ children -> n <> t -> at_ w !! (Dest, n) = None).
  { intros n Hn Hnt. destruct (at_ w !! (Dest, n)) eqn:E; [|done]. exfalso. apply Hn, Hch. by rewrite E. }
  apply does_bind. eapply does_mono; [apply does_move_all|].
  - done.
  - done.
  - intros n Hn. rewrite Hstaged. split; [by apply Hst|]. destruct (decide (n ∈ children)) as [Hc|Hc]; [by apply Hback|].
    rewrite Hdest by done. apply Hnone; [done|]. by intros ->.
  - intros w2 [[installed failed]|y] H2; [|done]. destruct H2 as (dn & rest & -> & Hin & Hby & Hs2 & Hr). cbn in Hin, Hr. subst installed.
    assert (Hs' : same_else w w2) by (by eapply same_trans). destruct failed as [e'|].
    + eapply does_mono; [apply does_roll_back; [lia|exact Hndc|]|].
      * intros n Hn. rewrite !Hby. destruct (Hback n Hn) as [Hb Hd]. split.
        -- rewrite Hb. assert (He : is_Some (at_ w !! (Dest, n))) by (by apply Hch). by case_decide.
        -- destruct (decide (n ∈ dn)) as [Hi|Hi]; [by left|by right].
      * intros w3 r (-> & Hs3 & Hm3). split; [by eapply same_trans|]. intros n. rewrite Hm3, !Hby.
         destruct (decide (n ∈ children)) as [Hc|Hc].
        -- destruct (Hback n Hc) as [<- _]. by case_decide.
        -- destruct (decide (n ∈ dn)) as [Hi|Hi]; [|by apply Hdest]. symmetry. apply Hnone; [done|]. intros ->. set_solver.
    + destruct Hr as [-> _]. rewrite app_nil_r in *. split; [exact Hs'|]. intros n Hn. rewrite Hby.
      destruct (decide (n ∈ dn)) as [Hi|Hi]; [apply Hstaged|].
      assert (at_ w !! (Staged, n) = None) as ->.
      { destruct (at_ w !! (Staged, n)) eqn:E; [|done]. exfalso. apply Hi, Hst. by rewrite E. }
      destruct (decide (n ∈ children)) as [Hc|Hc]; [by apply Hback|]. rewrite Hdest by done. by apply Hnone.
Qed.

Lemma swapped_from t w w1 w' r : same_else w w1 -> (forall n, at_ w1 !! (Dest, n) = at_ w !! (Dest, n)) ->
  (forall n, at_ w1 !! (Staged, n) = at_ w !! (Staged, n)) -> swapped t w1 w' r -> swapped t w w' r.
Proof.
  intros Hs Hd Hst [Hs' H]. split; [by eapply same_trans|]. destruct r as [u|e].
  - intros n Hn. by rewrite H, Hst.
  - intros n. by rewrite H, Hd.
Qed.
Lemma does_replace t w : faults w <= 1 -> (forall n, at_ w !! (Backup, n) = None) ->
  does (_replace_workspace_contents t) (swapped t w) w.
Proof.
  intros Hf Hb. unfold _replace_workspace_contents. apply does_bind, does_ask. acts.
  intros a w1 [[-> (staged & -> & Hnd & Hst)]|[Hbr [e ->]]].
  2:{ apply broken_none in Hbr as (Hs & _ & Hat). split; [exact Hs|]. intros n. by rewrite Hat. }
  cbn beta iota. destruct (in_strs t staged) eqn:Et; [by split|].
  assert (Ht : at_ w !! (Staged, t) = None).
  { destruct (at_ w !! (Staged, t)) eqn:E; [|done]. exfalso. assert (Hin : t ∈ staged) by (apply Hst; by rewrite E).
    apply list_elem_of_In, in_strs_iff in Hin. by rewrite Hin in Et. }
  apply does_bind, does_ask. acts. intros a w1 [(_ & -> & ->)|([e ->] & Hbr)].
  2:{ assert (Hs : same_else w w1 /\ at_ w1 = at_ w) by (destruct Hbr as [Hbr|[-> _]]; [apply broken_none in Hbr; tauto|done]).
      destruct Hs as [Hs Hat]. split; [exact Hs|]. intros n. by rewrite Hat. }
  cbn beta iota. set (w1 := with_at w _).
  assert (Hl : forall p n, p <> Work -> at_ w1 !! (p, n) = at_ w !! (p, n)) by (intros p n Hp; apply lookup_insert_ne; congruence).
  apply does_mono with (swapped t w1); [|intros w' r; apply swapped_from; [done|intros; by apply Hl..]].
  assert (Hf1 : faults w1 <= 1) by done. apply does_bind, does_attempt, does_ask. acts.
  intros a w2 [[-> (children & -> & Hndc & Hch)]|[Hbr [e ->]]]; cbn beta iota.
  2:{ apply broken_none in Hbr as (Hs & Hf2 & Hat). apply does_undo; [set_solver|constructor|rewrite Hat; apply moved_nil|exact Hs|lia]. }
  set (own := List.filter _ children).
  assert (Hown : forall n, n ∈ own <-> is_Some (at_ w1 !! (Dest, n)) /\ n <> t) by 
    (intros n; unfold own; rewrite children_spec; split; intros [H1 H2]; (split; [by apply Hch|done])).
  assert (Hndo : NoDup own) by (by apply NoDup_children).
  apply does_bind. eapply does_mono; [apply does_move_all; [done|exact Hndo|]|].
  { intros n [Hn _]%Hown. split; [done|]. by rewrite Hl. }
  intros w2 [[moved failed]|y] H2; [|done]. destruct H2 as (dn & rest & Eown & Hin & Hby & Hs2 & Hr). cbn in Hin, Hr. subst moved.
  destruct failed as [e|].
  { apply does_undo; [|rewrite Eown in Hndo; apply NoDup_app in Hndo; tauto|exact Hby|exact Hs2|lia].
    intros n Hn. apply Hown. rewrite Eown. set_solver. }
  destruct Hr as [-> Hf2]. rewrite app_nil_r in Eown. subst dn.
  assert (Hst2 : forall n, at_ w2 !! (Staged, n) = at_ w1 !! (Staged, n)) by (intros n; rewrite Hby; by case_decide).
  apply does_bind, does_attempt, does_ask. acts. intros a w3 [[-> (staged' & -> & Hnd' & Hst')]|[Hbr [e ->]]]; cbn beta iota.
  - apply does_install; try done; [| |lia].
    + intros n. by rewrite Hst', Hst2.
    + rewrite Hst', Hst2. rewrite Hl by done. rewrite Ht. by intros [].
  - apply broken_none in Hbr as (Hs & Hf3 & Hat). apply does_undo; [|exact Hndo|by rewrite Hat|by eapply same_trans|lia].
    intros n Hn. by apply Hown.
Qed.

(** ** Imports of a Workspace *)

(** The contents an import may leave, [root] being its own temporary entry. *)
Definition imported (root : option string) (w w' : disk) : Prop :=
  forall n, root <> Some n -> at_ w' !! (Dest, n) = archive w !! n.
Definition kept_as_was (root : option string) (w w' : disk) : Prop :=
  forall n, root <> Some n -> at_ w' !! (Dest, n) = at_ w !! (Dest, n).
Definition whole_or_nothing (w w' : disk) (r : result fexn unit) : Prop :=
  exists root, (forall t, root = Some t -> at_ w !! (Dest, t) = None)
    /\ (imported root w w' \/ (r <> Ok tt /\ kept_as_was root w w')) /\ (r = Ok tt -> frozen w' = false).

(** C37. A Workspace import is whole or nothing.  With at most one fault of the file system, at
    any operation, an import leaves the Workspace directory, but for a temporary entry of its
    own whose name was free, either with exactly the entries of the archive or with exactly
    those it had; when it returns these are the archive's, and the Workspace is not frozen. *)
Theorem import_all_or_nothing w : faults w <= 1 -> frozen w = false -> (forall n, at_ w !! (Backup, n) = None) ->
  does import_workspace (whole_or_nothing w) w.
Proof.
  intros Hf Hfr Hb. unfold import_workspace. apply does_bind. acts. intros a w0 [-> ->]. rewrite Hfr. cbn beta iota.
  assert (Hno : forall w' r, r <> Ok tt -> at_ w' = at_ w -> whole_or_nothing w w' r).
  { intros w' r Hr Hat. exists None. split; [done|]. split; [|done]. right. split; [done|]. intros n _. by rewrite Hat. }
  apply does_bind. acts. intros session w0 ->. cbn beta iota. apply does_bind. acts. intros held w0 ->. cbn beta iota.
  apply does_bind. acts. intros work w0 ->. cbn beta iota. destruct (_ || _); [by apply Hno|].
  apply does_bind. acts. intros u w0 ->. cbn beta iota. apply does_bind, does_ask. acts.
  intros a w0 [[-> ->]|([e ->] & Hbr)]; cbn beta iota.
  2:{ apply broken_none in Hbr as (_ & _ & Hat). by apply Hno. }
  apply does_bind, does_ask. acts. intros a w0 [(t & -> & Ht & ->)|([e ->] & Hbr)]; cbn beta iota.
  2:{ apply broken_none in Hbr as (_ & _ & Hat). by apply Hno. }
  set (w1 := with_at _ _). assert (Hd1 : forall n, Some t <> Some n -> at_ w1 !! (Dest, n) = at_ w !! (Dest, n)).
  { intros n Hn. apply lookup_insert_ne. congruence. }
  unfold finally. apply does_bind, does_attempt.
  apply does_mono with (fun w' r => (r = Ok tt /\ imported (Some t) w w') \/ (r <> Ok tt /\ kept_as_was (Some t) w w')).
  - apply does_bind. acts. intros busy w2 ->. cbn beta iota. destruct busy; [by right|].
    apply does_bind, does_ask. acts. intros a w2 ->. destruct a as [u2|e]; [|by right].
    cbn beta iota. apply does_bind, does_ask. acts. intros a w2 [[-> (m & -> & Hst & _ & Hm)]|([e ->] & ->)]; [|by right].
    cbn beta iota. eapply does_mono; [apply does_replace; [exact Hf|]|].
    + intros n. cbn. rewrite Hm by done. cbn. rewrite lookup_insert_ne by congruence. apply Hb.
    + intros w2 [[]|e] [_ H2].
      * left. split; [done|]. intros n Hn. rewrite H2 by congruence. cbn. apply Hst.
      * right. split; [done|]. intros n Hn. rewrite H2. cbn. rewrite Hm by done. by apply Hd1.
  - intros w2 r H2. cbn beta iota. apply does_bind, does_bind, does_ask. acts. intros a w3 (m & -> & Hm).
    assert (H3 : imported (Some t) w (with_at w2 m) \/ (r <> Ok tt /\ kept_as_was (Some t) w (with_at w2 m))).
    { destruct H2 as [[Hr H2]|[Hr H2]]; [left|right; split; [done|]]; intros n Hn; cbn; rewrite Hm by done; by apply H2. }
    assert (Hfree : forall t', Some t = Some t' -> at_ w !! (Dest, t') = None) by (by intros t' [= <-]).
    destruct a as [u2|e]; cbn beta iota.
    + acts. intros u3 w4 ->. cbn. exists (Some t). split; [done|]. split; [|done].
      destruct H3 as [H3|[Hr H3]]; [by left|by right].
    + exists (Some t). split; [done|]. split; [|done]. destruct H3 as [H3|[_ H3]]; [by left|by right].
Qed.

(** ** A frozen Workspace *)

Lemma frozen_refused w : frozen w = true ->
  does import_workspace (fun w' r => w' = w /\ r = Err Refused) w /\ does export_workspace (fun w' r => w' = w /\ r = Err Refused) w.
Proof.
  intros Hf. split; unfold import_workspace, export_workspace; apply does_bind; acts; intros a w' [-> ->]; by rewrite Hf.
Qed.
(** When the temporary directory cannot be made, the import raises with the Workspace frozen,
    and every later import and export is refused and leaves it frozen. *)
Theorem failed_import_freezes w : faults w = 1 -> frozen w = false ->
  exists w', ran fs_step import_workspace w w' (Err OsError) /\ frozen w' = true
  /\ does import_workspace (fun w2 r => w2 = w' /\ r = Err Refused) w'
  /\ does export_workspace (fun w2 r => w2 = w' /\ r = Err Refused) w'.
Proof.
  intros H1 Hf. exists (with_fault (with_frozen w true) 0 (at_ w)). split; [|split; [done|by apply frozen_refused]].
  unfold import_workspace. cbn.
  eapply (ran_call fs_step GetFrozen _ w false w); [by split|]. cbn.
  eapply (ran_call fs_step AnySession _ w false w); [done|]. cbn.
  eapply (ran_call fs_step AnyLock _ w false w); [done|]. cbn.
  eapply (ran_call fs_step AnyWork _ w false w); [done|]. cbn.
  eapply (ran_call fs_step (SetFrozen true) _ w tt); [done|]. cbn.
  eapply (ran_call fs_step MakeParent _ (with_frozen w true) (Ok tt)); [by left|]. cbn.
  eapply (ran_call fs_step (MakeTemp true) _ (with_frozen w true) (Err OsError)); [|apply ran_done].
  right. split; [by eexists|]. by exists 0, (at_ w).
Qed.

(** ** The three managed directories *)

Lemma previous_inj k k' : previous_dir k = previous_dir k' -> k = k'.
Proof. intros [= E]. by apply str_app_inj_r in E. Qed.
Lemma staged_inj k k' : staged_dir k = staged_dir k' -> k = k'.
Proof. intros [= E]. by apply str_app_inj_r in E. Qed.
Lemma staged_previous k k' : k ∈ kinds -> k' ∈ kinds -> staged_dir k <> previous_dir k'.
Proof. unfold kinds. rewrite !elem_of_cons, !elem_of_nil. intros [->|[->|[->|[]]]] [->|[->|[->|[]]]]; done. Qed.

(** What is installed of a kind: the copy of what was staged, or an empty directory. *)
Definition install_of (w : disk) (kind : string) : N :=
  match at_ w !! (Staged, kind) with Some x => copied x | None => empty_dir end.
Definition quiet_but (ks : list string) (w w' : disk) : Prop :=
  forall k, (forall kind, kind ∈ ks -> k <> staged_dir kind) -> at_ w' !! k = at_ w !! k.
Lemma does_copy ks w : NoDup ks -> (forall k, k ∈ ks -> at_ w !! staged_dir k = None) ->
  does (copy_kinds ks) (fun w' r => quiet_but ks w w' /\ (r = Ok tt -> faults w' = faults w
    /\ forall k, k ∈ ks -> at_ w' !! staged_dir k = Some (install_of w k))) w.
Proof.
  revert w. induction ks as [|k ks IH]; intros w Hnd Hnone; cbn [copy_kinds]; [by split; [|split; [|set_solver]]|].
  inversion Hnd as [|k' ks' Hk Hnd']; subst. apply does_bind. acts. intros a w' [-> ->]. cbn beta iota.
  assert (Hstep : forall w1, w1 = with_at w (<[staged_dir k := install_of w k]> (at_ w)) ->
    does (copy_kinds ks) (fun w' r => quiet_but (k :: ks) w w' /\ (r = Ok tt -> faults w' = faults w
      /\ forall k', k' ∈ k :: ks -> at_ w' !! staged_dir k' = Some (install_of w k'))) w1).
  { intros w1 ->. eapply does_mono; [apply IH; [done|]|].
    - intros k' Hk'. cbn. rewrite lookup_insert_ne; [apply Hnone; set_solver|]. intros E%staged_inj. set_solver.
    - intros w2 r [Hq Hok]. split.
      + intros x Hx. rewrite Hq; [|intros; apply Hx; set_solver]. cbn. apply lookup_insert_ne. apply not_eq_sym, Hx. set_solver.
      + intros ->. destruct (Hok eq_refl) as [Hf Hin]. split; [exact Hf|]. intros k' Hk'. destruct (decide (k' = k)) as [->|Hne].
        * rewrite Hq; [cbn; by rewrite lookup_insert_eq|]. intros kind Hkd E%staged_inj. by subst.
        * rewrite Hin by set_solver. unfold install_of. cbn. by rewrite lookup_insert_ne by done. }
  assert (Hfail : forall w1 (r : result fexn unit), r <> Ok tt -> at_ w1 !! staged_dir k = at_ w1 !! staged_dir k ->
    (forall x, x <> staged_dir k -> at_ w1 !! x = at_ w !! x) ->
    quiet_but (k :: ks) w w1 /\ (r = Ok tt -> faults w1 = faults w
      /\ forall k', k' ∈ k :: ks -> at_ w1 !! staged_dir k' = Some (install_of w k'))).
  { intros w1 r Hr _ Hx. split; [|done]. intros x Hx'. apply Hx, Hx'. set_solver. }
  apply does_bind. case_bool_decide as Hs.
  - apply does_ask. acts. intros a w1 [(x & Hx & -> & ->)|([e ->] & Hbr)].
    + apply Hstep. unfold install_of. by rewrite Hx.
    + apply Hfail; [done|done|]. intros y Hy. destruct Hbr as [(n & m & _ & -> & Hm)|[-> _]]; [apply Hm; congruence|done].
  - apply does_ask. acts. intros a w1 [(Hx & -> & ->)|([e ->] & Hbr)].
    + apply Hstep. unfold install_of. destruct (at_ w !! (Staged, k)) eqn:E; [|done]. exfalso. by apply Hs.
    + apply Hfail; [done|done|]. intros y Hy. destruct Hbr as [Hbr|[-> _]]; [|done]. apply broken_none in Hbr as (_ & _ & ->). done.
Qed.

(** The kinds [dn] were moved away, and nothing else of [Dest] changed. *)
Definition away (dn : list string) (w w' : disk) : Prop :=
  (forall k, k ∈ dn -> at_ w' !! previous_dir k = at_ w !! (Dest, k))
  /\ (forall n, n ∉ dn -> at_ w' !! (Dest, n) = at_ w !! (Dest, n)).
Lemma does_restore dn w0 w : faults w = 0 -> NoDup dn -> away dn w0 w ->
  does (restore_kinds dn) (fun w' r => r = Ok tt /\ untouched w0 w') w.
Proof.
  revert w. induction dn as [|k dn IH]; intros w Hf Hnd [Ha Hb]; cbn [restore_kinds].
  - split; [done|]. intros n. apply Hb. set_solver.
  - inversion Hnd as [|k' dn' Hk Hnd']; subst.
    assert (Hnext : forall w2, faults w2 = 0 -> at_ w2 !! (Dest, k) = at_ w0 !! (Dest, k) ->
      (forall x, x <> (Dest, k) -> x <> previous_dir k -> at_ w2 !! x = at_ w !! x) ->
      does (restore_kinds dn) (fun w' r => r = Ok tt /\ untouched w0 w') w2).
    { intros w2 Hf2 Hd Hx. apply IH; [done|done|]. split.
      - intros k' Hk'. rewrite Hx; [apply Ha; set_solver|done|]. intros E%previous_inj. by subst.
      - intros n Hn. destruct (decide (n = k)) as [->|Hne]; [done|]. rewrite Hx by (unfold previous_dir; congruence). apply Hb. set_solver. }
    apply does_bind. acts. intros a w1 [-> ->]. cbn beta iota.
    apply does_bind. apply does_mono with (fun w1 r => r = Ok tt /\ faults w1 = 0 /\ at_ w1 = delete (Dest, k) (at_ w)).
    + case_bool_decide as Hs.
      * apply does_ask. acts. intros a w1 [[-> ->]|(n & m & Hn & _)]; [done|lia].
      * cbn. split; [done|]. split; [done|]. rewrite delete_id; [done|]. destruct (at_ w !! (Dest, k)) eqn:E; [|done].
        exfalso. by apply Hs.
    + intros w1 r (-> & Hf1 & Hat). apply does_bind. acts. intros a w2 [-> ->]. cbn beta iota.
      assert (Hp : at_ w1 !! previous_dir k = at_ w0 !! (Dest, k)) by (rewrite Hat, lookup_delete_ne by done; apply Ha; set_solver).
      assert (Hd : at_ w1 !! (Dest, k) = None) by (by rewrite Hat, lookup_delete_eq).
      assert (Hx : forall x, x <> (Dest, k) -> at_ w1 !! x = at_ w !! x) by (intros x Hne; rewrite Hat; by apply lookup_delete_ne).
      apply does_bind. rewrite Hp. case_bool_decide as Hs.
      * apply does_ask. acts. intros a w2 [(x & Hx' & -> & ->)|([e ->] & Hbr)].
        -- apply Hnext; [done|cbn; by rewrite lookup_insert_eq, <- Hp|]. intros y Hy Hy'. cbn.
           rewrite lookup_insert_ne, lookup_delete_ne by congruence. by apply Hx.
        -- destruct Hbr as [(n & m & Hn & _)|[_ [Hn|[y Hy]]]]; [lia| |congruence]. rewrite <- Hp, Hn in Hs. by destruct Hs.
      * cbn. apply Hnext; [done| |by intros; apply Hx]. rewrite Hd. destruct (at_ w0 !! (Dest, k)) eqn:E; [|done]. exfalso. by apply Hs.
Qed.

(** Where [swap_kinds] stopped: the kinds changed were moved away; without a fault all of them
    were, and hold what was staged. *)
Definition swap_post (ks changed : list string) (w w' : disk) (r : result fexn (list string * option fexn)) : Prop :=
  match r with
  | Ok (changed', failed) => exists dn, changed' = changed ++ dn /\ NoDup dn /\ away dn w w' /\ (forall k, k ∈ dn -> k ∈ ks)
      /\ (forall k, k ∈ kinds -> k ∉ ks -> at_ w' !! previous_dir k = at_ w !! previous_dir k)
      /\ match failed with
         | None => forall k, k ∈ ks -> at_ w' !! (Dest, k) = at_ w !! staged_dir k
         | Some _ => faults w = S (faults w')
         end
  | Err _ => False
  end.
Lemma not_in_strs k l : k ∉ l -> in_strs k l = false.
Proof. intros H. destruct (in_strs k l) eqn:E; [|done]. exfalso. by apply H, list_elem_of_In, in_strs_iff. Qed.
Lemma does_swap ks changed w : NoDup ks -> (forall k, k ∈ ks -> k ∈ kinds /\ k ∉ changed) ->
  (forall k, k ∈ ks -> is_Some (at_ w !! staged_dir k) /\ at_ w !! previous_dir k = None) ->
  does (swap_kinds ks changed) (swap_post ks changed w) w.
Proof.
  revert changed w. induction ks as [|k ks IH]; intros changed w Hnd Hin Hat; cbn [swap_kinds].
  { exists []. rewrite app_nil_r. split; [done|]. split; [constructor|]. split; [split; [set_solver|done]|]. set_solver. }
  inversion Hnd as [|k' ks' Hk Hnd']; subst. destruct (Hin k) as [Hkk Hkc]; [set_solver|].
  destruct (Hat k) as [[x Hx] Hp]; [set_solver|].
  (* the rest, once this kind was swapped *)
  assert (Hrest : forall w2, faults w2 = faults w -> at_ w2 !! (Dest, k) = Some x -> at_ w2 !! previous_dir k = at_ w !! (Dest, k) ->
    (forall y, y <> (Dest, k) -> y <> previous_dir k -> y <> staged_dir k -> at_ w2 !! y = at_ w !! y) ->
    does (swap_kinds ks (changed ++ [k])) (swap_post (k :: ks) changed w) w2).
  { intros w2 Hf Hd Hpr Hy. eapply does_mono; [apply IH; [done| |]|].
    - intros k' Hk'. destruct (Hin k') as [H1 H2]; [set_solver|]. split; [done|]. set_solver.
    - intros k' Hk'. destruct (Hin k') as [H1 H2]; [set_solver|]. assert (k' <> k) by set_solver.
      rewrite !Hy; [apply Hat; set_solver|..]; try done; try (by apply not_eq_sym, staged_previous); try (by apply staged_previous).
      all: intros E; first [apply previous_inj in E | apply staged_inj in E]; done.
    - intros w3 [[ch failed]|y] H3; [|done]. destruct H3 as (dn & -> & Hndn & [Ha Hb] & Hsub & Hkeep & Hr). exists (k :: dn).
      rewrite <- app_assoc. assert (Hkd : k ∉ dn) by (intros Hc; by apply Hk, Hsub). split; [done|]. split; [by constructor|].
      assert (Hdest : forall n, n <> k -> at_ w2 !! (Dest, n) = at_ w !! (Dest, n)) by (intros n Hn; apply Hy; [congruence|done|done]).
      split; [split|].
      + intros k' [->|Hk']%elem_of_cons.
        * by rewrite Hkeep.
        * rewrite Ha by done. apply Hdest. by intros ->.
      + intros n Hn. rewrite Hb by set_solver. apply Hdest. set_solver.
      + split; [set_solver|]. split.
        { intros k' Hk' Hn. rewrite Hkeep by set_solver. apply Hy; [done| |by apply not_eq_sym, staged_previous].
          intros ->%previous_inj. set_solver. }
        destruct failed as [e|]; [congruence|]. intros k' [->|Hk']%elem_of_cons.
        * rewrite Hb by done. by rewrite Hd, Hx.
        * rewrite Hr by done. apply Hy; [done| |]; [by apply staged_previous; [apply Hin; set_solver|]|].
          intros ->%staged_inj. done. }
  (* the stops *)
  assert (Hstop : forall w2 dn e, faults w = S (faults w2) -> (dn = [] /\ at_ w2 = at_ w
      \/ dn = [k] /\ at_ w2 !! previous_dir k = at_ w !! (Dest, k) /\ forall y, y <> (Dest, k) -> y <> previous_dir k -> at_ w2 !! y = at_ w !! y) ->
    swap_post (k :: ks) changed w w2 (Ok (changed ++ dn, Some e))).
  { intros w2 dn e Hf Hw. exists dn. split; [done|]. destruct Hw as [[-> Hw]|(-> & Hpr & Hy)].
    - split; [constructor|]. split; [split; [set_solver|intros; by rewrite Hw]|]. split; [set_solver|].
      split; [intros; by rewrite Hw|done].
    - split; [apply NoDup_singleton|]. split; [split; [by intros k' ->%list_elem_of_singleton|]|].
      + intros n Hn. apply Hy; [|done]. set_solver.
      + split; [set_solver|]. split; [|done]. intros k' Hk' Hn. apply Hy; [done|]. intros ->%previous_inj. set_solver. }
  assert (Hsp : staged_dir k <> previous_dir k) by (by apply staged_previous).
  apply does_bind. acts. intros a w1 [-> ->]. cbn beta iota. apply does_bind. case_bool_decide as Hs.
  - apply does_attempt, does_ask. acts. intros a w1 [(y & Hy & -> & ->)|([e ->] & Hbr)].
    2:{ destruct Hbr as [Hbr|[_ [Hn|[z Hz]]]]; [|rewrite Hn in Hs; by destruct Hs|congruence].
        apply broken_none in Hbr as (_ & Hf & Hat1). pose proof (Hstop w1 [] e Hf (or_introl (conj eq_refl Hat1))) as H2. by rewrite app_nil_r in H2. }
    cbn beta iota zeta. set (w1 := with_at w _).
    assert (Hd1 : at_ w1 !! (Dest, k) = None) by (cbn; by rewrite lookup_insert_ne, lookup_delete_eq by done).
    assert (Hp1 : at_ w1 !! previous_dir k = at_ w !! (Dest, k)) by (cbn; by rewrite lookup_insert_eq).
    assert (Ho1 : forall z, z <> (Dest, k) -> z <> previous_dir k -> at_ w1 !! z = at_ w !! z)
      by (intros z H1 H2; cbn; by rewrite lookup_insert_ne, lookup_delete_ne by congruence).
    apply does_bind, does_attempt, does_ask. acts. intros a w2 [(z & Hz & -> & ->)|([e ->] & Hbr)].
    + cbn beta iota zeta. replace (in_strs k (changed ++ [k])) with true.
      2:{ symmetry. apply in_strs_iff, in_or_app. right. by left. }
      rewrite Ho1, Hx in Hz by done. injection Hz as <-. apply Hrest; [done|cbn; by rewrite lookup_insert_eq| |].
      * cbn [at_ with_at]. rewrite lookup_insert_ne, lookup_delete_ne by done. exact Hp1.
      * intros z H1 H2 H3. cbn [at_ with_at]. rewrite lookup_insert_ne, lookup_delete_ne by congruence. by apply Ho1.
    + destruct Hbr as [Hbr|[_ [Hn|[z Hz]]]]; [|by rewrite Ho1, Hx in Hn|congruence].
      apply broken_none in Hbr as (_ & Hf & Hat1). cbn beta iota. apply Hstop; [exact Hf|right]. by rewrite Hat1.
  - cbn beta iota zeta delta [mret prog_ret does]. apply does_bind, does_attempt, does_ask.
    assert (Hd : at_ w !! (Dest, k) = None) by (destruct (at_ w !! (Dest, k)) eqn:E; [|done]; exfalso; by apply Hs).
    acts. intros a w2 [(z & Hz & -> & ->)|([e ->] & Hbr)].
    + cbn beta iota. rewrite not_in_strs by done. rewrite Hx in Hz. injection Hz as <-.
      apply Hrest; [done|cbn; by rewrite lookup_insert_eq| |].
      * cbn. rewrite lookup_insert_ne, lookup_delete_ne by done. by rewrite Hp.
      * intros z H1 H2 H3. cbn. by rewrite lookup_insert_ne, lookup_delete_ne by congruence.
    + destruct Hbr as [Hbr|[_ [Hn|[z Hz]]]]; [|congruence|congruence].
      apply broken_none in Hbr as (_ & Hf & Hat1). pose proof (Hstop w2 [] e Hf (or_introl (conj eq_refl Hat1))) as H2. by rewrite app_nil_r in H2.
Qed.

(** The managed directories are installed together or not at all.  With at most one fault of
    the file system, at any operation, installing a batch leaves the directory either with the
    staged skills, prompts and artifacts (an empty directory for what was not staged), or with
    the ones it had, and then it raises; and no other entry is touched. *)
Theorem batch_all_or_nothing w : faults w <= 1 ->
  (forall k, k ∈ kinds -> at_ w !! staged_dir k = None /\ at_ w !! previous_dir k = None) ->
  does _install_managed_batch (fun w' r =>
    ((forall k, k ∈ kinds -> at_ w' !! (Dest, k) = Some (install_of w k)) /\ forall n, n ∉ kinds -> at_ w' !! (Dest, n) = at_ w !! (Dest, n))
    \/ (r <> Ok tt /\ untouched w w')) w.
Proof.
  intros Hf Hfree. unfold _install_managed_batch. apply does_bind, does_ask. acts.
  intros a w0 [[-> ->]|([e ->] & Hbr)]; cbn beta iota.
  2:{ apply broken_none in Hbr as (_ & _ & Hat). right. split; [done|]. intros n. by rewrite Hat. }
  apply does_bind, does_ask. acts. intros a w0 [(t & -> & _ & ->)|([e ->] & Hbr)]; cbn beta iota.
  2:{ apply broken_none in Hbr as (_ & _ & Hat). right. split; [done|]. intros n. by rewrite Hat. }
  set (whole := fun w' : disk => (forall k, k ∈ kinds -> at_ w' !! (Dest, k) = Some (install_of w k))
    /\ forall n, n ∉ kinds -> at_ w' !! (Dest, n) = at_ w !! (Dest, n)).
  apply does_bind, does_attempt. apply does_mono with (fun w' (r : result fexn unit) => whole w' \/ (r <> Ok tt /\ untouched w w')).
  - unfold swap_batch. apply does_bind. assert (Hnd : NoDup kinds) by (by apply (bool_decide_unpack _); vm_compute).
    eapply does_mono; [apply does_copy; [exact Hnd|by intros k Hk; apply Hfree]|].
    intros w1 r [Hq Hok]. assert (Hd1 : untouched w w1) by (intros n; by apply Hq).
    destruct r as [[]|e]; [|by right]. destruct (Hok eq_refl) as [Hf1 Hst]. apply does_bind.
    eapply does_mono; [apply does_swap; [exact Hnd|set_solver|]|].
    + intros k Hk. split; [by rewrite Hst|]. rewrite Hq; [by apply Hfree|]. intros kind Hkd. by apply not_eq_sym, staged_previous.
    + intros w2 [[changed failed]|y] H2; [|done]. destruct H2 as (dn & -> & Hndn & Ha & Hsub & _ & Hr). destruct failed as [e|].
      * apply does_bind. eapply does_mono; [apply (does_restore _ w1); [lia|by apply NoDup_rev'|]|].
        -- destruct Ha as [H1 H2]. split; [intros k Hk; apply H1; by apply elem_of_rev|].
           intros n Hn. apply H2. intros Hc. by apply Hn, elem_of_rev.
        -- intros w3 r (-> & Hu). right. split; [done|]. intros n. by rewrite Hu.
      * left. split; [intros k Hk; by rewrite Hr, Hst|]. intros n Hn. destruct Ha as [_ Hb].
        rewrite Hb; [done|]. intros Hi. by apply Hn, Hsub.
  - intros w2 r H2. cbn beta iota. apply does_bind, does_ask. acts. intros a w3 (m & -> & Hm).
    assert (H3 : whole w2 -> whole (with_at w2 m)).
    { intros [H1 H1']. split; intros; cbn; rewrite Hm by done; auto. }
    assert (H4 : untouched w w2 -> untouched w (with_at w2 m)) by (intros Hu n; cbn; by rewrite Hm).
    destruct a as [u|e]; cbn; destruct H2 as [H2|[Hr H2]]; [left; by apply H3|right|left; by apply H3|right]; (split; [done|by apply H4]).
Qed.
End disk.

(** ** Sessions *)

Section sessions.
Context (workspace_dir : string) (identity : list (string * string)).

(** The session's lock was taken and not given back; the snapshot is the session's own, taken
    under this Workspace path, and in place also by this Agent in this Workspace. *)
Definition holding (session : string) (past : list (event snap_ans)) : Prop :=
  exists before after, past = before ++ Ev (Lock session) tt :: after /\ ~ In (Ev (Unlock session) tt) after.
Definition own_snapshot (past : list (event snap_ans)) (ev : event snap_ans) : Prop :=
  match ev_call ev with
  | Restore session ref m in_place =>
      holding session past /\ sm_session_ref m = JStr session /\ sm_workspace_path m = JStr workspace_dir /\ ref <> ""
      /\ (in_place = true -> sm_workspace_ref m = JStr ref /\ is_identity (sm_agent m) identity = true)
  | _ => True
  end.
Abbreviation follows := (keeps (fun _ _ => True) own_snapshot).

Lemma holding_more session past ev : holding session past -> ev_call ev <> Unlock session -> holding session (past ++ [ev]).
Proof.
  intros (b & a & -> & Hn) He. exists b, (a ++ [ev]). split; [by rewrite <- app_assoc|].
  intros [H|[H|[]]]%in_app_or; [by apply Hn|]. by subst ev.
Qed.
Lemma is_text_spec j s : is_text j s = true -> j = JStr s.
Proof. destruct j; try done. cbn. intros H%String.eqb_eq. by subst. Qed.
(** Calls that are neither a restore nor an unlock. *)
Ltac passes a := asks; intros a _; (split; [exact I|]).
Lemma with_lock_follows {A} session (p : fprog A) past :
  (forall past, holding session past -> follows p (fun _ _ => True) past) -> follows (with_lock session p) (fun _ _ => True) past.
Proof.
  intros Hp. unfold with_lock, finally. apply keeps_bind. asks. intros [] _. split; [exact I|]. cbn beta iota.
  apply keeps_bind, keeps_attempt. eapply keeps_mono; [apply Hp; exists past, []; split; [done|by intros []]|]. intros h r _. cbn beta iota.
  apply keeps_bind. passes x1. exact I.
Qed.

(** Only a session's own snapshot is restored, under its lock. *)
Theorem own_snapshots_restored session tr :
  (forall r, runs (import_session workspace_dir session) tr r -> all_of own_snapshot [] tr)
  /\ forall r, runs (resume_session workspace_dir identity session) tr r -> all_of own_snapshot [] tr.
Proof.
  split; intros r Hr; (eapply (keeps_runs (fun _ _ => True) own_snapshot _ (fun _ _ => True)); [|exact Hr|by intros ? ? ? ?]).
  - unfold import_session. apply keeps_bind. passes x2. apply with_lock_follows. intros past Hh. unfold finally.
    apply keeps_bind, keeps_ask. passes a. destruct a as [t|e]; [|exact I]. cbn beta iota.
    assert (H1 : holding session (past ++ [Ev (MakeTemp false) (Ok t)])) by (by apply holding_more).
    apply keeps_bind, keeps_attempt. apply keeps_mono with (fun _ _ => True).
    2:{ intros h r' _. cbn beta iota. apply keeps_bind, keeps_ask. passes a. by destruct a. }
    apply keeps_bind, keeps_ask. passes a. destruct a as [u|e]; [|exact I]. cbn beta iota.
    apply keeps_bind, keeps_ask. passes a. destruct a as [u2|e]; [|exact I]. cbn beta iota.
    apply keeps_bind, keeps_ask. passes a. destruct a as [data|e]; [|exact I]. cbn beta iota.
    destruct (from_dict data) as [m|]; [|exact I]. destruct (is_text (sm_session_ref m) session) eqn:E1; [|exact I]. cbn [negb].
    destruct (is_text (sm_workspace_path m) workspace_dir) eqn:E2; [|exact I]. cbn [negb].
    apply keeps_bind. asks. intros ref _. split; [exact I|]. cbn beta iota. destruct (truthy ref) eqn:E3; [|exact I]. cbn [negb].
    apply keeps_bind, keeps_ask. asks. intros b _. split; [|by destruct b].
    split; [by repeat (apply holding_more; [|done])|]. apply is_text_spec in E1, E2. apply truthy_true in E3. done.
  - unfold resume_session. apply keeps_bind. passes x3. apply keeps_bind, keeps_ask. passes a. destruct a as [active|e]; [|exact I].
    cbn beta iota. apply keeps_bind. apply keeps_mono with (fun _ _ => True); [destruct active; [exact I|passes x4; exact I]|].
    intros h [live|e] _; [|exact I]. destruct live; [exact I|]. apply with_lock_follows. intros past Hh.
    apply keeps_bind. asks. intros there _. split; [exact I|]. cbn beta iota. destruct there; [|exact I]. cbn [negb].
    apply keeps_bind. asks. intros data _. split; [exact I|]. cbn beta iota. destruct data as [data|e]; [|by destruct e].
    destruct (from_dict data) as [m|]; [|exact I].
    destruct (is_text (sm_session_ref m) session) eqn:E1; [|exact I].
    destruct (is_text (sm_workspace_path m) workspace_dir) eqn:E2; [|exact I]. cbn [negb orb].
    apply keeps_bind. asks. intros ref _. split; [exact I|]. cbn beta iota. destruct (truthy ref) eqn:E3; [|exact I]. cbn [negb].
    destruct (is_text (sm_workspace_ref m) ref) eqn:E4; [|exact I].
    destruct (is_identity (sm_agent m) identity) eqn:E5; [|exact I]. cbn [negb orb].
    apply keeps_bind. asks. intros b _. split; [|by destruct b as [u|[]]].
    split; [by repeat (apply holding_more; [|done])|]. apply is_text_spec in E1, E2, E4. apply truthy_true in E3. done.
Qed.
End sessions.

(** ** Samples *)

Abbreviation tree := (disk (N:=string)).
Definition step_ : tree -> forall c : snap_call, snap_ans c -> tree -> Prop := fs_step "" id.

(** An operation, failing or not: its answer and the disk after it. *)
Definition names_of (w : tree) (d : place) : list string :=
  omap (fun kv => if bool_decide (fst (fst kv) = d) then Some (snd (fst kv)) else None) (map_to_list (at_ w)).
Definition spent (w : tree) : tree := with_fault w (Nat.pred (faults w)) (at_ w).
Definition put (w : tree) (m : gmap spot string) : tree := with_at w m.
Definition unpacked (w : tree) : gmap spot string :=
  <[(Work, "staged") := archive_tree w]>
    (list_to_map (map (fun kv => ((Staged, fst kv), snd kv)) (map_to_list (archive w)))
     ∪ filter (fun kv => fst (fst kv) <> Staged) (at_ w)).
Definition exec (fault : bool) (w : tree) (c : snap_call) : snap_ans c * tree :=
  match c return snap_ans c * tree with
  | Names d => if fault then (Err OsError, spent w) else (Ok (names_of w d), w)
  | Present k => (bool_decide (is_Some (at_ w !! k)), w)
  | Rename k k' => if fault then (Err OsError, spent w) else
      match at_ w !! k with Some x => (Ok tt, put w (<[k' := x]> (delete k (at_ w)))) | None => (Err OsError, w) end
  | MakeDir k => if fault then (Err OsError, spent w) else
      match at_ w !! k with Some _ => (Err OsError, w) | None => (Ok tt, put w (<[k := ""]> (at_ w))) end
  | CopyTree k k' => if fault then (Err OsError, spent w) else
      match at_ w !! k with Some x => (Ok tt, put w (<[k' := x]> (at_ w))) | None => (Err OsError, w) end
  | RemovePath k => if fault then (Err OsError, spent w) else (Ok tt, put w (delete k (at_ w)))
  | MakeParent => if fault then (Err OsError, spent w) else (Ok tt, w)
  | MakeTemp inside =>
      if fault then (Err OsError, spent w) else (Ok ".tmp", if (inside : bool) then put w (<[(Dest, ".tmp") := ""]> (at_ w)) else w)
  | WriteCapped => (Ok tt, w)
  | Extract => (Ok tt, put w (unpacked w))
  | RemoveTree root => (Ok tt, put w (filter (fun kv => root <> Some (snd (fst kv)) /\ fst (fst kv) = Dest) (at_ w)))
  | GetFrozen => (frozen w, w)
  | SetFrozen b => (tt, with_frozen w b)
  | AnyWork | AnyLock | AnySession | Locked _ | Known _ | HasManifest => (false, w)
  | Active _ => (Ok false, w)
  | Lock _ | Unlock _ | Create _ => (tt, w)
  | Pack => (Ok "a.tar.gz", w)
  | ReadManifest _ => (Err OsError, w)
  | WorkspaceRef => ("", w)
  | Unlink => (Ok tt, w)
  | Snapshot _ _ => (Ok tt, w)
  | Restore _ _ _ _ => (Ok tt, w)
  end.
(** The run whose [n]-th operation fails. *)
Fixpoint drive (n : nat) {A} (p : fprog A) (w : tree) : tree * result fexn A :=
  match p with
  | Done r => (w, r)
  | Call c k => let (a, w') := exec (Nat.eqb n 0 && Nat.ltb 0 (faults w)) w c in drive (Nat.pred n) (k a) w'
  end.

Definition before : tree :=
  {| at_ := {[ (Dest, "old") := "1"; (Dest, "both") := "2" ]}; faults := 1; frozen := false;
     archive := {[ "both" := "3"; "new" := "4" ]}; archive_tree := "" |}.
Definition listing (w : tree) : list (string * string) :=
  omap (fun kv => if bool_decide (fst (fst kv) = Dest) then Some (snd (fst kv), snd kv) else None) (map_to_list (at_ w)).
Definition same_listing (w : tree) (l : list (string * string)) : bool := bool_decide (list_to_map (M:=gmap string string) (listing w) = list_to_map l).
Definition old_listing : list (string * string) := [("old", "1"); ("both", "2")].
Definition new_listing : list (string * string) := [("both", "3"); ("new", "4")].
(** Whichever operation fails, the Workspace is as it was, or as the archive has it. *)
Example every_fault : forallb (fun n => let (w, r) := drive n import_workspace before in
    if is_ok r then same_listing w new_listing else same_listing w old_listing) (seq 0 30) = true
  /\ is_ok (snd (drive 14 import_workspace before)) = false /\ is_ok (snd (drive 30 import_workspace before)) = true.
Proof. vm_compute. done. Qed.

Lemma before_fits : faults before <= 1 /\ frozen before = false /\ forall n, at_ before !! (Backup, n) = None.
Proof.
  split; [done|]. split; [done|]. intros n. unfold before. cbn [at_]. rewrite lookup_insert_ne by done.
  by rewrite lookup_singleton_ne by done.
Qed.
Lemma import_all_or_nothing_witness : does step_ import_workspace (whole_or_nothing before) before.
Proof.
  exact (import_all_or_nothing "" id before (proj1 before_fits) (proj1 (proj2 before_fits)) (proj2 (proj2 before_fits))).
Defined.

Definition hydrated : tree :=
  {| at_ := {[ (Dest, "skills") := "s1"; (Dest, "prompts") := "p1"; (Staged, "skills") := "s2"; (Staged, "artifacts") := "a2" ]};
     faults := 1; frozen := false; archive := ∅; archive_tree := "" |}.
Example every_batch_fault : forallb (fun n => let (w, r) := drive n _install_managed_batch hydrated in
    if is_ok r then same_listing w [("skills", "s2"); ("prompts", ""); ("artifacts", "a2")]
    else same_listing w [("skills", "s1"); ("prompts", "p1")]) (seq 0 30) = true.
Proof. vm_compute. done. Qed.

Lemma hydrated_fits k : k ∈ kinds -> at_ hydrated !! staged_dir k = None /\ at_ hydrated !! previous_dir k = None.
Proof. unfold kinds. rewrite !elem_of_cons, elem_of_nil. by intros [->|[->|[->|[]]]]. Qed.
Lemma batch_all_or_nothing_witness : does step_ _install_managed_batch (fun w' r =>
    ((forall k, k ∈ kinds -> at_ w' !! (Dest, k) = Some (install_of "" id hydrated k))
     /\ forall n, n ∉ kinds -> at_ w' !! (Dest, n) = at_ hydrated !! (Dest, n))
    \/ (r <> Ok tt /\ untouched hydrated w')) hydrated.
Proof. exact (batch_all_or_nothing "" id hydrated (le_n 1) hydrated_fits). Defined.
