(* ===== verification/Api.v ===== *)
(** * execution/app.py and execution/auth.py: the private API of the mini-harness

    The requests a Workspace pod answers: authentication by engine bearer and instance id,
    bounded bodies, and one route per operation of the execution service, whose exceptions are
    mapped to a status.  [route_of] is what the decorators of these routes match; how FastAPI
    answers what none matches, and the encoding of a JSON response, are FastAPI's; the service
    is called.  [/configure], the archive routes and probes of the process are left
    out. *)

From S2P Require Import Prelude PyJson PyLoads Config Tokens Effects Storage Wire.
From Stdlib Require Import Ascii.
Local Open Scope Z_scope.

Definition MAX_REQUEST_BODY_BYTES : Z := 1024 * 1024.
Definition _INSTANCE_ID_HEADER : string := "x-ach-instance-id".

(** What the service raises, with its text. *)
Inductive service_error :=
  | ConflictingStartE (m : string) | WorkspaceMismatchE (m : string) | ArchiveRejectedE (m : string)
  | SessionHookFailedE (m : string) | UnknownKey (m : string)
  | OtherE (ambiguous : bool) (m : string).

Inductive api_call :=
  | ApiReady
  | ApiHook (phase : string) (restored : bool)
  | ApiStart (r : StartRequest)
  | ApiStatus (invocation_id : string)
  | ApiRuns
  | ApiCancel (invocation_id reason : string)
  | ApiRetire (session_ref : string)
  | ApiSuspend (session_ref : string)
  | ApiPrune (days : Z).
Definition api_ans (c : api_call) : Type :=
  match c with
  | ApiReady => bool
  | ApiHook _ _ => result service_error bool
  | ApiStart _ => result service_error Started
  | ApiStatus _ => result service_error RunStatus
  | ApiRuns => result service_error (list RunStatus)
  | ApiPrune _ => result service_error (list string)
  | _ => result service_error unit
  end.
Abbreviation aprog := (prog api_ans service_error).

Record response := { re_status : Z; re_body : json }.
Definition answer_ (status : Z) (body : list (string * json)) : aprog response := mret {| re_status := status; re_body := JObj body |}.
Definition _invalid (message : string) : aprog response := answer_ 422 [("detail", JStr message)].
Definition typed (status : Z) (type message : string) : aprog response :=
  answer_ status [("type", JStr type); ("message", JStr message)].
Definition _error_response (e : service_error) : aprog response :=
  match e with
  | ConflictingStartE m => typed 409 "ConflictingStart" m
  | WorkspaceMismatchE m => typed 422 "WorkspaceMismatch" m
  | ArchiveRejectedE m => typed 422 "ArchiveRejected" m
  | SessionHookFailedE m => typed 502 "SessionHookFailed" m
  | OtherE true m => typed 503 "Unknown" m
  | OtherE false m => typed 502 "Failed" m
  | UnknownKey m => typed 502 "Failed" m
  end.

(** A request body: the declared length, when the header is an integer, and the chunks. *)
Record body := { bo_declared : option Z; bo_chunks : list string }.
Inductive body_error := BodyTooLarge | NotJson.

Section api.
Context `{PyDatetime} (dump_datetime : Z -> string) (parse_float : string -> pyfloat).

Fixpoint gather (size : Z) (acc : string) (chunks : list string) : result body_error string :=
  match chunks with
  | [] => Ok acc
  | c :: chunks =>
      let size := size + Z.of_nat (String.length c) in
      if MAX_REQUEST_BODY_BYTES <? size then Err BodyTooLarge else gather size (acc +:+ c) chunks
  end.
Definition _request_json (b : body) : result body_error json :=
  match bo_declared b with
  | Some n => if MAX_REQUEST_BODY_BYTES <? n then Err BodyTooLarge else raw ← gather 0 "" (bo_chunks b); opt_or NotJson (json_loads parse_float raw)
  | None => raw ← gather 0 "" (bo_chunks b); opt_or NotJson (json_loads parse_float raw)
  end.
(** The texts of exceptions and of [repr], the release and the age of the process. *)
Context (body_text : body_error -> string) (validation_text : json -> string) (repr : string -> string)
        (release : string) (boot_seconds : json).
Definition body_message (e : body_error) : string := str_or (body_text e) "invalid request body".

(** ** Routes *)

Inductive route :=
  | RHealthz | RReadyz | RHook (phase : string) | RStart | RStatus (invocation_id : string) | RRuns | RCancel
  | RRetire (session_ref : string) | RSuspend (session_ref : string) | RPrune.

(** The route whose decorator matches: the method, the path, and in it one nonempty segment for
    a parameter.  [None]: a route left out here, or none. *)
Definition route_of (method path : string) : option route :=
  let get p := String.eqb method "GET" && String.eqb path p in
  let post p := String.eqb method "POST" && String.eqb path p in
  if get "/healthz" then Some RHealthz
  else if get "/readyz" then Some RReadyz
  else if post "/start" then Some RStart
  else if get "/runs" then Some RRuns
  else if post "/cancel" then Some RCancel
  else if post "/sessions/prune" then Some RPrune
  else match split_on "/" path with
  | [_; _; x] =>
      if truthy x && get ("/status/" +:+ x) then Some (RStatus x) else None
  | [_; _; x; y] =>
      if truthy y && post ("/workspace/hooks/" +:+ y) then Some (RHook y)
      else if truthy x && post ("/sessions/" +:+ x +:+ "/retire") then Some (RRetire x)
      else if truthy x && post ("/sessions/" +:+ x +:+ "/suspend") then Some (RSuspend x) else None
  | _ => None
  end.
Example route_ex :
  route_of "POST" "/sessions/s-1/retire" = Some (RRetire "s-1") /\ route_of "GET" "/status/inv-1" = Some (RStatus "inv-1")
  /\ route_of "POST" "/workspace/hooks/start" = Some (RHook "start") /\ route_of "GET" "/start" = None
  /\ route_of "POST" "/begin" = None /\ route_of "GET" "/status/a/b" = None.
Proof. vm_compute. auto 6. Qed.

Definition readyz : aprog response :=
  ready ← call ApiReady;
  if (ready : bool) then answer_ 200 [("status", JStr "ready")] else answer_ 503 [("status", JStr "not-ready")].
Definition workspace_hook (phase : string) (b : body) : aprog response :=
  if negb (String.eqb phase "start" || String.eqb phase "stop") then answer_ 404 [("detail", JStr ("unknown workspace hook phase " +:+ repr phase))] else
  ready ← call ApiReady;
  if negb (ready : bool) then answer_ 409 [("detail", JStr "execution service is not configured")] else
  let payload := if String.eqb phase "start" then _request_json b else Ok JNull in
  match payload with
  | Err e => _invalid (body_message e)
  | Ok payload =>
      let restored := match payload with JObj d => match assoc "restored" d with Some (JBool true) => true | _ => false end | _ => false end in
      ran ← call (ApiHook phase (String.eqb phase "start" && restored));
      match (ran : result service_error bool) with
      | Ok ran => answer_ 200 [("status", JStr (if ran then "ok" else "skipped"))]
      | Err e => _error_response e
      end
  end.
Definition start (b : body) : aprog response :=
  match _request_json b with
  | Err e => _invalid (body_message e)
  | Ok payload =>
      match StartRequest_validate payload with
      | Err _ => _invalid (validation_text payload)
      | Ok parsed =>
          started ← call (ApiStart parsed);
          match (started : result service_error Started) with
          | Ok s => mret {| re_status := 202; re_body := Started_dump s |}
          | Err e => _error_response e
          end
      end
  end.
(** An exception the route does not map: FastAPI answers 500. *)
Definition status (invocation_id : string) : aprog response :=
  r ← call (ApiStatus invocation_id);
  match (r : result service_error RunStatus) with
  | Ok s => mret {| re_status := 200; re_body := RunStatus_dump dump_datetime s |}
  | Err (UnknownKey _) => answer_ 404 [("detail", JStr "unknown invocation_id")]
  | Err e => throw e
  end.
Definition runs : aprog response :=
  l ← (call ApiRuns ≫= lift); mret {| re_status := 200; re_body := JList (map (RunStatus_dump dump_datetime) l) |}.
Definition cancel (b : body) : aprog response :=
  match _request_json b with
  | Err e => _invalid (body_message e)
  | Ok payload =>
      match CancelRequest_validate payload with
      | Err _ => _invalid (validation_text payload)
      | Ok parsed =>
          r ← call (ApiCancel (cq_invocation_id parsed) (cq_reason parsed));
          match (r : result service_error unit) with
          | Ok _ => answer_ 200 [("status", JStr "cancelled")]
          | Err (UnknownKey _) => answer_ 404 [("detail", JStr "unknown invocation_id")]
          | Err e => throw e
          end
      end
  end.
Definition retire_session (session_ref : string) : aprog response :=
  r ← call (ApiRetire session_ref);
  match (r : result service_error unit) with
  | Ok _ => answer_ 200 [("status", JStr "retired"); ("sessionRef", JStr session_ref)]
  | Err e => _error_response e
  end.
Definition suspend_session (session_ref : string) : aprog response :=
  r ← call (ApiSuspend session_ref);
  match (r : result service_error unit) with
  | Ok _ => answer_ 200 [("status", JStr "suspended"); ("sessionRef", JStr session_ref)]
  | Err (UnknownKey _) => answer_ 404 [("detail", JStr "unknown session_ref")]
  | Err e => _error_response e
  end.
Definition prune_sessions (b : body) : aprog response :=
  match _request_json b with
  | Err e => _invalid (body_message e)
  | Ok payload =>
      match match payload with JObj d => assoc "retentionDays" d | _ => None end with
      | Some (JInt days) =>
          if days <? 1 then _invalid "retentionDays must be a positive integer" else
          r ← call (ApiPrune days);
          match (r : result service_error (list string)) with
          | Ok pruned => answer_ 200 [("status", JStr "ok"); ("pruned", JList (map JStr pruned))]
          | Err e => _error_response e
          end
      | _ => _invalid "retentionDays must be a positive integer"
      end
  end.
Definition create_app (r : route) (b : body) : aprog response :=
  match r with
  | RHealthz => answer_ 200 [("status", JStr "ok"); ("release", JStr release); ("bootSeconds", boot_seconds)]
  | RReadyz => readyz
  | RHook phase => workspace_hook phase b
  | RStart => start b
  | RStatus id => status id
  | RRuns => runs
  | RCancel => cancel b
  | RRetire l => retire_session l
  | RSuspend l => suspend_session l
  | RPrune => prune_sessions b
  end.

(** ** Authentication *)

(** [bytes.decode("latin-1")], into UTF-8. *)
Fixpoint latin1 (s : string) : string :=
  match s with
  | EmptyString => ""
  | String a s =>
      let n := N_of_ascii a in
      if (n <? 128)%N then String a (latin1 s)
      else String (ascii_of_N (192 + n / 64)) (String (ascii_of_N (128 + n mod 64)) (latin1 s))
  end.
(** [dict(headers).get(name, b"")]: the last header of a name counts. *)
Definition header_of (headers : list (string * string)) (name : string) : string :=
  from_option id "" (assoc name (rev headers)).

Context (ed_verify : list N -> list N -> string -> result exn unit).
Record pod_auth := { pa_verify_key : string; pa_workspace_name : string; pa_instance_id : string }.

Definition authorized (a : pod_auth) (headers : list (string * string)) : result exn bool :=
  let header := latin1 (header_of headers "authorization") in
  claim ← match strip_prefix "Bearer " header with
          | Some bearer => verify_engine_bearer ed_verify (pa_verify_key a) bearer
          | None => Ok None
          end;
  Ok (bool_decide (claim = Some (pa_workspace_name a))
      && String.eqb (latin1 (header_of headers _INSTANCE_ID_HEADER)) (pa_instance_id a)).
(** What is sent: every response carries the instance id. *)
Record sent := { se_status : Z; se_headers : list (string * string); se_body : json }.
Definition send_with_instance_id (a : pod_auth) (r : response) : sent :=
  {| se_status := re_status r; se_headers := [(_INSTANCE_ID_HEADER, pa_instance_id a)]; se_body := re_body r |}.
Definition public_route (r : route) : bool := match r with RHealthz | RReadyz => true | _ => false end.
(** [_WorkspaceAuth.__call__]: [None] when it raised. *)
Definition _WorkspaceAuth (a : pod_auth) (r : route) (headers : list (string * string)) (b : body) : aprog response :=
  if public_route r then create_app r b else
  match authorized a headers with
  | Ok true => create_app r b
  | Ok false => answer_ 401 [("detail", JStr "unauthorized")]
  | Err _ => throw (OtherE false "unauthorized")
  end.
End api.
