(* ===== verification/ApiProps.v ===== *)
(** * The delivery client meets the private API

    The requests of [Delivery], routed by their method and path to the pod of [Api] and answered
    there: what the client makes of the answers. *)

From S2P Require Import Prelude Sha256 PyJson PyLoads Config Public StateRefs Tokens Effects Traces Storage StorageDocs Wire Delivery DeliveryProps Api.
From Stdlib Require Import Ascii.
Local Open Scope Z_scope.

Definition ascii_text (s : string) : bool := str_forallb (fun a => (N_of_ascii a <? 128)%N) s.
Lemma latin1_ascii s : ascii_text s = true -> latin1 s = s.
Proof.
  induction s as [|a s IH]; [done|]. cbn [ascii_text str_forallb latin1]. intros [Ha Hs]%andb_true_iff. rewrite Ha. by rewrite IH.
Qed.
Lemma ascii_app s t : ascii_text (s +:+ t) = ascii_text s && ascii_text t.
Proof. unfold ascii_text. induction s as [|a s IH]; [done|]. rewrite str_app_cons. cbn [str_forallb]. by rewrite IH, andb_assoc. Qed.

Section meets.
Context `{DT : PyDatetime} (dump_datetime : Z -> string) (pf : string -> pyfloat).
Context (body_text : body_error -> string) (validation_text : json -> string) (repr : string -> string)
        (release : string) (boot_seconds : json).
Context (ed_public : list N -> list N) (ed_sign : list N -> string -> list N)
        (ed_verify : list N -> list N -> string -> result exn unit).
(** What the [cryptography] package documents. *)
Hypothesis ed_public_bytes : forall seed, Forall byte (ed_public seed).
Hypothesis ed_sign_bytes : forall seed msg, Forall byte (ed_sign seed msg).
Hypothesis ed_verify_sign : forall seed msg,
  length seed = 32%nat -> ed_verify (ed_public seed) (ed_sign seed msg) msg = Ok tt.
(** The JSON text of httpx and of Starlette, which [json.loads] reads back. *)
Context (encode_json : json -> string).
Hypothesis encode_loads : forall j, plain_json j = true -> json_loads pf (encode_json j) = Some j.
Hypothesis dump_parses : forall t, in_range t = true -> fromisoformat (dump_datetime t) = Some (Some t).

(** The pod: its identity, rendered by the Harness with its key, and its service. *)
Context (key : string) (name instance : string) (service : forall c : api_call, api_ans c).
(** What is answered to a request no modelled route matches. *)
Context (elsewhere : http_request -> result derr http_response).
Definition the_pod : pod_auth := {| pa_verify_key := engine_verify_key ed_public key; pa_workspace_name := name; pa_instance_id := instance |}.

(** The request of the client as the server sees it: lower-case names, the declared length. *)
Definition client_body (payload : option json) : body :=
  let raw := from_option encode_json "" payload in {| bo_declared := Some (len raw); bo_chunks := [raw] |}.
Definition received (headers : list (string * string)) (payload : option json) : list (string * string) * body :=
  (map (fun kv => (lower (fst kv), snd kv)) headers, client_body payload).
(** What the service is asked for one request, and the response to it. *)
Definition serve (q : http_request) : list api_call * result derr http_response :=
  let '(headers, b) := received (_headers (engine_bearer ed_sign key) (hq_endpoint q)) (hq_payload q) in
  match route_of (hq_method q) (hq_path q) with
  | None => ([], elsewhere q)
  | Some route =>
      let '(tr, r) := play (fun _ c => service c)
        (_WorkspaceAuth dump_datetime pf body_text validation_text repr release boot_seconds ed_verify the_pod route headers b) [] in
      (map ev_call tr,
       match r with
       | Ok r =>
           let s := send_with_instance_id the_pod r in
           Ok {| hr_status := se_status s; hr_instance := assoc _INSTANCE_ID_HEADER (se_headers s);
                 hr_chunks := [encode_json (se_body s)]; hr_ends := None |}
       | Err _ => Err TransportError
       end)
  end.
(** The world of the client: open, before the deadline, and this pod. *)
Definition pod_world (now : Z) (_ : list (event dans)) (c : dcall) : dans c :=
  match c with
  | CClosed => false
  | CClock => Some now
  | CGateway => true
  | CWaitGateway _ => Ok true
  | CEnsure _ _ _ => Err DeliveryError
  | CPrepare _ _ => Ok None
  | CHttp q => snd (serve q)
  | CReportLost _ | CAlarm => tt
  | CSleep _ => false
  end.

Lemma chars_ascii l : Forall (fun n => (n < 64)%N) l -> ascii_text (chars l) = true.
Proof.
  unfold ascii_text. induction 1 as [|n l Hn _ IH]; [done|]. cbn [chars str_forallb].
  destruct (b64_digit n Hn) as (_ & _ & _ & Ha). unfold ascii_code in Ha. by rewrite Ha, IH.
Qed.
Lemma bearer_ascii claim : ascii_text claim = true -> ascii_text (engine_bearer ed_sign key claim) = true.
Proof.
  intros Hc. unfold engine_bearer. rewrite !ascii_app, Hc, _b64_digits by done. cbn. by apply chars_ascii, b64_digits_bound.
Qed.

Definition client_headers (e : WorkspaceEndpoint) (payload : option json) : list (string * string) :=
  fst (received (_headers (engine_bearer ed_sign key) e) payload).
Lemma pod_authorizes e payload : ascii_text (we_name e) = true -> ascii_text (we_instance_id e) = true -> we_name e <> "" ->
  authorized ed_verify the_pod (client_headers e payload) = Ok (bool_decide (we_name e = name) && String.eqb (we_instance_id e) instance).
Proof.
  intros Hn Hi Hne. unfold authorized. set (headers := client_headers e payload).
  assert (E1 : header_of headers "authorization" = "Bearer " +:+ engine_bearer ed_sign key (we_name e)) by reflexivity.
  assert (E2 : header_of headers _INSTANCE_ID_HEADER = we_instance_id e) by reflexivity.
  rewrite E1, E2.
  rewrite !latin1_ascii by (done || (rewrite ascii_app; cbn; by apply bearer_ascii)).
  change (strip_prefix "Bearer " _) with (Some (engine_bearer ed_sign key (we_name e))). cbn [the_pod pa_verify_key pa_workspace_name pa_instance_id].
  rewrite (proj1 (engine_bearer_roundtrip ed_public ed_sign ed_verify ed_public_bytes ed_sign_bytes ed_verify_sign key "" "" (we_name e)) Hne).
  cbn. f_equal. f_equal. apply bool_decide_ext. naive_solver.
Qed.

(** What the client gets from [_started], and what the service was asked by its requests. *)
Definition client_run (now : Z) (e : WorkspaceEndpoint) (r : StartRequest) (deadline_at : Z) : list (event dans) * result derr Started :=
  play (pod_world now) (_started dump_datetime pf e r deadline_at) [].
Definition outcome (now : Z) (e : WorkspaceEndpoint) (r : StartRequest) (deadline_at : Z) : result derr Started :=
  snd (client_run now e r deadline_at).
Definition asked (now : Z) (e : WorkspaceEndpoint) (r : StartRequest) (deadline_at : Z) : list api_call :=
  flat_map (fun ev : event dans => match ev_call ev with CHttp q => fst (serve q) | _ => [] end)
    (fst (client_run now e r deadline_at)).
Lemma plain_request r : plain_json (StartRequest_dump dump_datetime r) = true.
Proof. unfold StartRequest_dump. by destruct (sr_memory_available r). Qed.
Lemma plain_started s : plain_json (Started_dump s) = true.
Proof. done. Qed.
Lemma body_parsed r : len (encode_json (StartRequest_dump dump_datetime r)) <= MAX_REQUEST_BODY_BYTES ->
  _request_json pf (client_body (Some (StartRequest_dump dump_datetime r))) = Ok (StartRequest_dump dump_datetime r).
Proof.
  intros Hl. unfold _request_json, client_body. cbn [from_option bo_declared bo_chunks gather].
  assert (E : (MAX_REQUEST_BODY_BYTES <? len (encode_json (StartRequest_dump dump_datetime r))) = false) by lia.
  rewrite E. unfold len in E. rewrite Z.add_0_l, E, str_app_nil_l. cbn [mbind result_bind].
  by rewrite encode_loads by apply plain_request.
Qed.

Lemma error_response_status e : exists resp, _error_response e = mret resp /\ re_status resp <> 202.
Proof. destruct e as [m|m|m|m|m|[|] m]; eexists; (split; [reflexivity|done]). Qed.

(** What the route of a Start does with the client's. *)
Definition pod_play (e : WorkspaceEndpoint) (r : StartRequest) : list (event api_ans) * result service_error response :=
  play (fun _ c => service c)
    (_WorkspaceAuth dump_datetime pf body_text validation_text repr release boot_seconds ed_verify the_pod RStart
      (client_headers e (Some (StartRequest_dump dump_datetime r)))
      (client_body (Some (StartRequest_dump dump_datetime r)))) [].
Lemma pod_answers e r : ascii_text (we_name e) = true -> ascii_text (we_instance_id e) = true -> we_name e <> "" ->
  StartRequest_ok r = true -> in_range (sr_deadline_at r) = true ->
  len (encode_json (StartRequest_dump dump_datetime r)) <= MAX_REQUEST_BODY_BYTES ->
  if bool_decide (we_name e = name) && String.eqb (we_instance_id e) instance then
    map ev_call (fst (pod_play e r)) = [ApiStart r]
    /\ match service (ApiStart r) with
       | Ok s => snd (pod_play e r) = Ok {| re_status := 202; re_body := Started_dump s |}
       | Err _ => exists resp, snd (pod_play e r) = Ok resp /\ re_status resp <> 202
       end
  else fst (pod_play e r) = [] /\ exists resp, snd (pod_play e r) = Ok resp /\ re_status resp <> 202.
Proof.
  intros Hn Hi Hne Hr Hd Hl. pose proof (pod_authorizes e (Some (StartRequest_dump dump_datetime r)) Hn Hi Hne) as Ha.
  pose proof (body_parsed r Hl) as Hb.
  assert (Hv : StartRequest_validate (StartRequest_dump dump_datetime r) = Ok r).
  { by apply (proj1 (wire_roundtrip dump_datetime dump_parses r {| sd_invocation_id := ""; sd_session_ref := ""; sd_run_id := ""; sd_config_version := "" |}
      {| rs_invocation_id := ""; rs_channel := ""; rs_workspace_ref := ""; rs_session_ref := ""; rs_run_id := None; rs_config_version := "";
         rs_deadline_at := 0; rs_state := Queued; rs_error := None; rs_result := JNull |} {| cq_invocation_id := ""; cq_reason := "" |} JNull) Hd). }
  unfold pod_play, _WorkspaceAuth. cbn [public_route]. rewrite Ha. destruct (_ && _).
  - cbn [create_app]. unfold start. rewrite Hb, Hv. cbn [mbind prog_bind call prog_run play fst snd map ev_call].
    destruct (service (ApiStart r)) as [s|x]; [done|]. destruct (error_response_status x) as (resp & -> & Hs).
    split; [done|]. by exists resp.
  - split; [done|]. by eexists.
Qed.

(** The request the client sends, and how it is served. *)
Definition start_request (now : Z) (e : WorkspaceEndpoint) (r : StartRequest) (deadline_at : Z) : http_request :=
  {| hq_endpoint := e; hq_method := "POST"; hq_path := "/start"; hq_payload := Some (StartRequest_dump dump_datetime r);
     hq_timeout := deadline_at - now |}.
Lemma start_served now e r deadline_at resp : snd (pod_play e r) = Ok resp ->
  serve (start_request now e r deadline_at) = (map ev_call (fst (pod_play e r)),
    Ok {| hr_status := re_status resp; hr_instance := Some instance; hr_chunks := [encode_json (re_body resp)]; hr_ends := None |}).
Proof.
  intros H. unfold serve, received. cbn [start_request hq_endpoint hq_payload hq_method hq_path].
  change (route_of "POST" "/start") with (Some RStart). cbv iota.
  change (play _ _ _) with (pod_play e r). destruct (pod_play e r) as [tr res]. cbn in H. by rewrite H.
Qed.
(** What the client makes of one response. *)
Lemma client_reads now e r deadline_at resp : now < deadline_at -> snd (pod_play e r) = Ok resp ->
  outcome now e r deadline_at =
    (if String.eqb (we_instance_id e) instance then
      if len (encode_json (re_body resp)) <=? MAX_RESPONSE_BYTES then
        if re_status resp =? 202 then receipt_of pf (encode_json (re_body resp)) r else Err StartRejected
      else Err DeliveryError
    else Err DeliveryError)
  /\ asked now e r deadline_at = map ev_call (fst (pod_play e r)).
Proof.
  intros Hnow Hresp. assert (Ht : (deadline_at - now <=? 0) = false) by lia.
  generalize (start_served now e r deadline_at resp Hresp). generalize (map ev_call (fst (pod_play e r))). intros calls Hserve.
  unfold outcome, asked, client_run, _started, _request.
  cbn -[serve receipt_of read_chunks instance_changed Z.sub Z.leb]. rewrite Ht.
  cbn -[serve receipt_of read_chunks instance_changed Z.sub Z.leb]. fold (start_request now e r deadline_at). rewrite Hserve.
  cbn -[serve receipt_of Z.ltb Z.leb Z.eqb Z.add Delivery.MAX_RESPONSE_BYTES].
  destruct (String.eqb (we_instance_id e) instance) eqn:Ei.
  - apply String.eqb_eq in Ei as ->. rewrite bool_decide_true by done.
    cbn -[serve receipt_of Z.ltb Z.leb Z.eqb Z.add Delivery.MAX_RESPONSE_BYTES]. rewrite Z.add_0_l. unfold len.
    destruct (MAX_RESPONSE_BYTES <? _) eqn:El.
    + rewrite (proj2 (Z.leb_gt _ _)) by lia. cbn -[serve receipt_of]. fold (start_request now e r deadline_at).
      rewrite Hserve; cbn [fst app]; by rewrite app_nil_r.
    + rewrite (proj2 (Z.leb_le _ _)) by lia. cbn -[serve receipt_of Z.eqb].
      destruct (re_status resp =? 202); cbn -[serve receipt_of]; fold (start_request now e r deadline_at);
        change ("" +:+ encode_json (re_body resp)) with (encode_json (re_body resp));
        destruct (receipt_of pf (encode_json (re_body resp)) r); cbn -[serve]; fold (start_request now e r deadline_at);
        rewrite Hserve; cbn [fst app]; by rewrite app_nil_r.
  - rewrite bool_decide_false by (intros [= ->]; by rewrite String.eqb_refl in Ei).
    cbn -[serve receipt_of Z.ltb Z.leb Z.eqb Z.add Delivery.MAX_RESPONSE_BYTES].
    destruct (negb (String.eqb instance (we_instance_id e))); cbn -[serve receipt_of]; fold (start_request now e r deadline_at);
      rewrite Hserve; cbn [fst app]; by rewrite app_nil_r.
Qed.
Lemma receipt_read s r s' : receipt_of pf (encode_json (Started_dump s)) r = Ok s' <-> s' = s /\ started_matches s r = true.
Proof.
  unfold receipt_of, _json. rewrite encode_loads by done. cbn [opt_or mbind result_bind].
  replace (Started_validate (Started_dump s)) with (Ok (E:=exn) s) by (symmetry; apply (proj1 (proj2 (wire_roundtrip dump_datetime dump_parses
    {| sr_invocation_id := ""; sr_channel := ""; rq_workspace_ref := ""; rq_session_ref := ""; sr_workspace_key := ""; sr_session_key := "";
       sr_config_version := ""; sr_prompt := ""; sr_deadline_at := 0; sr_memory_available := None; sr_inform_user := false |} s
    {| rs_invocation_id := ""; rs_channel := ""; rs_workspace_ref := ""; rs_session_ref := ""; rs_run_id := None; rs_config_version := "";
       rs_deadline_at := 0; rs_state := Queued; rs_error := None; rs_result := JNull |} {| cq_invocation_id := ""; cq_reason := "" |} JNull)))).
  destruct (started_matches s r) eqn:E; [|naive_solver]. split; [by intros [= <-]|by intros [-> _]].
Qed.

(** C38. The delivery client and the pod's API agree.  The requests the client makes reach the
    service only through the route their method and path match; whatever is answered to the
    others, for any valid request to a pod, the client's [_started] returns a receipt exactly when the endpoint names this very Workspace
    and instance, the service returned that receipt for the request as it was sent, field by
    field, and the receipt is of this request and fits the response cap; and the service is
    asked for exactly that request, or, when Workspace or instance differ, for nothing. *)
Theorem client_meets_pod now e r deadline_at :
  ascii_text (we_name e) = true -> ascii_text (we_instance_id e) = true -> we_name e <> "" ->
  StartRequest_ok r = true -> in_range (sr_deadline_at r) = true -> now < deadline_at ->
  len (encode_json (StartRequest_dump dump_datetime r)) <= MAX_REQUEST_BODY_BYTES ->
  (forall s, outcome now e r deadline_at = Ok s <->
     we_name e = name /\ we_instance_id e = instance /\ service (ApiStart r) = Ok s
     /\ started_matches s r = true /\ len (encode_json (Started_dump s)) <= MAX_RESPONSE_BYTES)
  /\ asked now e r deadline_at = if bool_decide (we_name e = name) && String.eqb (we_instance_id e) instance then [ApiStart r] else [].
Proof.
  intros Hn Hi Hne Hr Hd Hnow Hl. pose proof (pod_answers e r Hn Hi Hne Hr Hd Hl) as Hp.
  assert (exists resp, snd (pod_play e r) = Ok resp
    /\ map ev_call (fst (pod_play e r)) = (if bool_decide (we_name e = name) && String.eqb (we_instance_id e) instance then [ApiStart r] else [])) as (resp & Hresp & Hask).
  { destruct (_ && _); destruct Hp as [Hp1 Hp2]; [|destruct Hp2 as (resp & Hp2 & _); exists resp; by rewrite Hp1].
    rewrite Hp1. destruct (service (ApiStart r)); [by eexists|]. destruct Hp2 as (resp & ? & _). by exists resp. }
  destruct (client_reads _ _ _ _ _ Hnow Hresp) as [Hout Hasked]. split; [|by rewrite Hasked]. intros s. rewrite Hout.
  destruct (bool_decide (we_name e = name) && String.eqb (we_instance_id e) instance) eqn:Ea.
  - apply andb_true_iff in Ea as [En%bool_decide_eq_true Ei]. destruct Hp as [_ Hp]. rewrite Ei.
    destruct (service (ApiStart r)) as [s0|x].
    + rewrite Hp in Hresp. injection Hresp as <-. cbn [re_status re_body].
      apply String.eqb_eq in Ei. destruct (_ <=? _) eqn:El; [|split; [done|]; intros (_ & _ & [= ->] & _ & Hs); cbn [re_body] in El; lia].
      change (202 =? 202) with true. cbn iota. rewrite receipt_read. split; [intros [-> Hm]|by intros (_ & _ & [= ->] & Hm & _)].
      split_and!; try done. cbn [re_body] in El. lia.
    + destruct Hp as (resp' & Hp & Hs). rewrite Hp in Hresp. injection Hresp as <-.
      split; [|by intros (_ & _ & ? & _)]. destruct (_ <=? _); [|done]. by rewrite (proj2 (Z.eqb_neq _ _)).
  - destruct Hp as (_ & resp' & Hp & Hs). rewrite Hp in Hresp. injection Hresp as <-.
    split; [|intros (E1 & E2 & _); by rewrite E1, E2, bool_decide_true, String.eqb_refl in Ea].
    destruct (String.eqb _ _); [|done]. destruct (_ <=? _); [|done]. by rewrite (proj2 (Z.eqb_neq _ _)).
Qed.
End meets.

(** ** Samples *)

#[local] Existing Instance sample_datetime.

Definition toy_bearer : string -> string -> string := engine_bearer toy_sign.
(** The service of the sample pod starts what it is asked to, under the run "run-1". *)
Definition willing (c : api_call) : api_ans c :=
  match c with
  | ApiReady => true
  | ApiHook _ _ => Ok true
  | ApiStart r => Ok {| sd_invocation_id := sr_invocation_id r; sd_session_ref := rq_session_ref r; sd_run_id := "run-1";
                        sd_config_version := sr_config_version r |}
  | ApiStatus _ => Err (UnknownKey "")
  | ApiRuns => Ok []
  | ApiCancel _ _ => Ok tt
  | ApiRetire _ => Ok tt
  | ApiSuspend _ => Ok tt
  | ApiPrune _ => Ok []
  end.
Definition nowhere (_ : http_request) : result derr http_response := Err TransportError.
Definition sample_outcome (name instance : string) : result derr Started :=
  outcome sample_dump no_floats (fun _ => "") (fun _ => "") id "1.0" JNull sha256_digest toy_sign toy_verify json_dumps
    "k" name instance willing nowhere 0 pod the_request 600000000.
Definition sample_asked (name instance : string) : list api_call :=
  asked sample_dump no_floats (fun _ => "") (fun _ => "") id "1.0" JNull sha256_digest toy_sign toy_verify json_dumps
    "k" name instance willing nowhere 0 pod the_request 600000000.
Example wrong_workspace : sample_outcome "agent-x" "i-1" = Err StartRejected /\ sample_asked "agent-x" "i-1" = [].
Proof. vm_compute. done. Qed.
Example wrong_instance : sample_outcome "agent-w" "i-2" = Err DeliveryError /\ sample_asked "agent-w" "i-2" = [].
Proof. vm_compute. done. Qed.

Lemma client_meets_pod_witness : sample_outcome "agent-w" "i-1" = Ok the_receipt /\ sample_asked "agent-w" "i-1" = [ApiStart the_request].
Proof.
  destruct (client_meets_pod sample_dump no_floats (fun _ => "") (fun _ => "") id "1.0" JNull sha256_digest toy_sign toy_verify
    toy_bytes (fun seed msg => toy_bytes _) toy_verify_sign json_dumps (fun j => json_loads_dumps no_floats j)
    (fromisoformat_isoformat (PyDatetime := plain_datetime)) "k" "agent-w" "i-1" willing nowhere 0 pod the_request 600000000
    eq_refl eq_refl ltac:(discriminate) ltac:(vm_compute; reflexivity) eq_refl ltac:(lia) ltac:(vm_compute; discriminate)) as [Hout Hask].
  split; [|exact Hask]. apply Hout. split; [reflexivity|]. split; [reflexivity|]. split; [reflexivity|].
  split; [vm_compute; reflexivity|vm_compute; discriminate].
Defined.
