(* ===== verification/Hooks.v ===== *)
(** * harness/handoff.py, harness/scripts.py: the scripts the Harness runs

    A handoff hook prepares the files of a Workspace, a webhook script answers an event without
    one.  Both build the environment of a shell from named parts and run it in a session of its
    own, under the deadline of the invocation, with temporary directories that are removed.
    The shell, the clock, the file system and cancellation are the environment; times are
    microseconds. *)

From S2P Require Import Prelude PyJson PyLoads Config Channels Effects Facade.
From Stdlib Require Import Ascii.
Local Open Scope Z_scope.

(** ** Text *)

(** [s.replace(old, new)], [old] not empty. *)
Fixpoint replace_fuel (fuel : nat) (old new s : string) : string :=
  match fuel with
  | O => s
  | S fuel =>
      match find_sub old s with
      | Some (pre, rest) => pre +:+ new +:+ replace_fuel fuel old new rest
      | None => s
      end
  end.
Definition replace_all (old new s : string) : string := replace_fuel (S (String.length s)) old new s.

(** [bytes.decode("utf-8", "replace")]: the bytes of a malformed sequence that could still have
    begun a character become one U+FFFD. *)
Definition replacement : string := String "239"%char (String "191"%char (String "189"%char "")).
Definition in_range (lo hi : N) (a : ascii) : bool := ((lo <=? ascii_code a) && (ascii_code a <=? hi))%N.
(** The ranges of the bytes after a leading byte; [None]: it is not one. *)
Definition followers (a : ascii) : option (list (N * N)) :=
  let cont := (128, 191)%N in
  if in_range 0 127 a then Some []
  else if in_range 194 223 a then Some [cont]
  else if in_range 224 224 a then Some [(160, 191)%N; cont]
  else if in_range 237 237 a then Some [(128, 159)%N; cont]
  else if in_range 225 239 a then Some [cont; cont]
  else if in_range 240 240 a then Some [(144, 191)%N; cont; cont]
  else if in_range 241 243 a then Some [cont; cont; cont]
  else if in_range 244 244 a then Some [(128, 143)%N; cont; cont]
  else None.
(** The bytes that follow, and whether all of them do. *)
Fixpoint take_followers (rs : list (N * N)) (s : string) : string * string * bool :=
  match rs, s with
  | [], _ => ("", s, true)
  | (lo, hi) :: rs, String a s' =>
      if in_range lo hi a then let '(taken, rest, whole) := take_followers rs s' in (String a taken, rest, whole)
      else ("", s, false)
  | _, EmptyString => ("", s, false)
  end.
Fixpoint decode_fuel (fuel : nat) (s : string) : string :=
  match fuel, s with
  | S fuel, String a s' =>
      match followers a with
      | None => replacement +:+ decode_fuel fuel s'
      | Some rs =>
          let '(taken, rest, whole) := take_followers rs s' in
          (if whole then String a taken else replacement) +:+ decode_fuel fuel rest
      end
  | _, _ => ""
  end.
Definition decode_replace (s : string) : string := decode_fuel (String.length s) s.

(** [str.splitlines()], with the ASCII line boundaries. *)
Definition line_end (a : ascii) : bool := in_range 10 13 a || in_range 28 30 a.
Fixpoint splitlines_aux (acc s : string) : list string :=
  match s with
  | EmptyString => if String.eqb acc "" then [] else [acc]
  | String a s' =>
      if line_end a then
        acc :: match a, s' with
               | "013"%char, String "010"%char s'' => splitlines_aux "" s''
               | _, _ => splitlines_aux "" s'
               end
      else splitlines_aux (acc +:+ String a "") s'
  end.
Definition splitlines (s : string) : list string := splitlines_aux "" s.

(** [l[-n:]], on lists and on the bytes of a [bytes]. *)
Definition list_tail {A} (n : nat) (l : list A) : list A := skipn (length l - n) l.
Fixpoint bytes_drop (n : nat) (s : string) : string :=
  match n, s with S n, String _ s => bytes_drop n s | _, _ => s end.
Definition bytes_tail (n : nat) (s : string) : string := bytes_drop (String.length s - n)%nat s.

(** [sorted(l, key=len, reverse=True)] *)
Fixpoint insert_longest (s : string) (l : list string) : list string :=
  match l with
  | [] => [s]
  | t :: l' => if (str_len t <=? str_len s)%nat then s :: l else t :: insert_longest s l'
  end.
Definition longest_first (l : list string) : list string := foldr insert_longest [] l.

(** ** Redaction *)

Definition token_char (a : ascii) : bool := is_alnum a || Ascii.eqb a "_" || Ascii.eqb a "-".
Fixpoint span_tokens (s : string) : string * string :=
  match s with
  | String a s' => if token_char a then let (t, r) := span_tokens s' in (String a t, r) else ("", s)
  | EmptyString => ("", s)
  end.
(** [ek[-_][A-Za-z0-9_\-]+] at the start of [s]: what follows the match. *)
Definition match_ek (s : string) : option string :=
  match s with
  | String "e" (String "k" (String c s)) =>
      if Ascii.eqb c "-" || Ascii.eqb c "_" then
        let (t, rest) := span_tokens s in if truthy t then Some rest else None
      else None
  | _ => None
  end.
(** [sk-[A-Za-z0-9_\-]+] *)
Definition match_sk (s : string) : option string :=
  match strip_prefix "sk-" s with
  | Some s => let (t, rest) := span_tokens s in if truthy t then Some rest else None
  | None => None
  end.
(** [eyJ[A-Za-z0-9_\-]+\.[A-Za-z0-9_\-]+\.[A-Za-z0-9_\-]*] *)
Definition match_jws (s : string) : option string :=
  match strip_prefix "eyJ" s with
  | Some s =>
      let (header, s) := span_tokens s in
      match s with
      | String "." s =>
          let (claims, s) := span_tokens s in
          match s with
          | String "." s => if truthy header && truthy claims then Some (snd (span_tokens s)) else None
          | _ => None
          end
      | _ => None
      end
  | None => None
  end.
(** [pattern.sub(by, text)]; [at_ prev s]: what follows a match at the start of [s], after the
    character [prev].  A match takes every token character there is, so none begins where one
    ends, whatever it ended with. *)
Fixpoint sub_fuel (fuel : nat) (at_ : option ascii -> string -> option string) (by_ : string)
    (prev : option ascii) (s : string) : string :=
  match fuel, s with
  | S fuel, String a s' =>
      match at_ prev s with
      | Some rest => by_ +:+ sub_fuel fuel at_ by_ (Some a) rest
      | None => String a (sub_fuel fuel at_ by_ (Some a) s')
      end
  | _, _ => ""
  end.
Definition sub_all at_ by_ (s : string) : string := sub_fuel (String.length s) at_ by_ None s.

Definition _SECRET (prev : option ascii) (s : string) : option string :=
  let free := match prev with Some a => negb (is_alnum a) | None => true end in
  match (if free then match_ek s else None) with
  | Some r => Some r
  | None => match (if free then match_sk s else None) with Some r => Some r | None => match_jws s end
  end.
Definition _EK_PATTERN (prev : option ascii) (s : string) : option string := match_ek s.

Section text.
(** The process secrets of [observability.runs.register_secrets], in its order. *)
Context (registered : list string).

Definition redact (text : string) : string :=
  foldl (fun text value => replace_all value "[redacted]" text) (sub_all _SECRET "[redacted]" text) registered.

Definition _STDERR_TAIL_LINES : nat := 3.
Definition _STDERR_TAIL_CHARS : nat := 240.
(** handoff.py [_stderr_tail] *)
Definition handoff_stderr_tail (stderr : string) (secrets : list string) : string :=
  let lines := map strip (List.filter (fun line => truthy (strip line)) (splitlines (decode_replace stderr))) in
  let text := join " | " (list_tail _STDERR_TAIL_LINES lines) in
  let text := foldl (fun text secret => replace_all secret "[redacted]" text) text (longest_first secrets) in
  let text := redact text in
  if (str_len text <=? _STDERR_TAIL_CHARS)%nat then text else "..." +:+ str_tail _STDERR_TAIL_CHARS text.
End text.

(** scripts.py [_redact], [_stderr_tail] *)
Definition _redact (text : string) (environ : list (string * string)) (secret_names : list string) : string :=
  foldl (fun text name =>
           match assoc name environ with
           | Some value => if truthy value then replace_all value "[REDACTED]" text else text
           | None => text
           end) (sub_all _EK_PATTERN "[REDACTED]" text) ("GITLAB_TOKEN" :: secret_names).
Definition script_stderr_tail (stderr : string) (environ : list (string * string)) (secret_names : list string) : string :=
  _redact (strip (decode_replace stderr)) environ secret_names.

(** [_read_tail] of a stream that gives these chunks. *)
Definition _TAIL_BYTES : nat := 4096.
Fixpoint read_tail_from (limit : nat) (tail : string) (truncated : bool) (chunks : list string) : string * bool :=
  match chunks with
  | [] => (tail, truncated)
  | chunk :: chunks =>
      let tail := tail +:+ chunk in
      if (limit <? String.length tail)%nat then read_tail_from limit (bytes_tail limit tail) true chunks
      else read_tail_from limit tail truncated chunks
  end.
Definition _read_tail : list string -> string * bool := read_tail_from _TAIL_BYTES "" false.

(** ** The environment of a hook *)

Definition _PRINTABLE (text : string) : bool :=
  truthy text && (String.length text <=? 512)%nat && str_forallb (in_range 32 126) text.
Definition path_head (a : ascii) : bool := is_alnum a || Ascii.eqb a "." || Ascii.eqb a "_".
Definition path_part (p : string) : bool :=
  match p with
  | String a p => path_head a && str_forallb (fun a => path_head a || Ascii.eqb a "-") p
  | EmptyString => false
  end.
Definition _REPO_PATH (text : string) : bool := forallb path_part (split_on "/" text).
Definition _REPO_PATH_KEYS : list string := ["project_path"; "repo"].

Definition _event_value (key : string) (value : json) : option string :=
  match (match value with
         | JBool b => Some (if b then "true" else "false")
         | JInt z => Some (str_of_int z)
         | JFloat f => Some (f_repr f)
         | JStr s => Some s
         | _ => None
         end) with
  | None => None
  | Some text =>
      if negb (_PRINTABLE text) then None
      else if in_strs key _REPO_PATH_KEYS && (negb (_REPO_PATH text) || in_strs ".." (split_on "/" text)) then None
      else Some text
  end.

(** [str.upper], on ASCII: other characters are kept as they are. *)
Definition to_upper (a : ascii) : ascii := if is_lower a then ascii_of_N (ascii_code a - 32) else a.
Definition upper (s : string) : string := str_map to_upper s.

Abbreviation env_dict := (list (string * string)).
(** [put(key, value, name=name)] with the validation key [key]. *)
Definition put (key : string) (value : json) (name : string) (env : env_dict) : env_dict :=
  match _event_value key value with
  | Some text => dict_set ("ACH_EVENT_" +:+ upper name) text env
  | None => env
  end.
Definition gitlab_mapping : list (string * string * string) :=
  [("projectId", "project_id", "PROJECT_ID"); ("projectPath", "project_path", "PROJECT_PATH");
   ("mergeRequestIid", "mr_iid", "MR_IID"); ("issueIid", "issue_iid", "ISSUE_IID"); ("headSha", "head_sha", "HEAD_SHA")].
Definition has (key : string) (d : list (string * json)) : bool := present (assoc key d).
Definition gitlab_env (event : Event) (gitlab : list (string * json)) (env : env_dict) : env_dict :=
  let env := foldl (fun env '(key, validation_key, name) =>
                      match assoc key gitlab with
                      | Some value => put validation_key value name env
                      | None => env
                      end) env gitlab_mapping in
  let env := put "kind" (JStr (ev_type event)) "KIND" env in
  if has "mergeRequestIid" gitlab then put "target_type" (JStr "mr") "TARGET_TYPE" env
  else if has "issueIid" gitlab then put "target_type" (JStr "issue") "TARGET_TYPE" env
  else env.
Definition github_env (github : list (string * json)) (env : env_dict) : env_dict :=
  let env := match assoc "repo" github with Some v => put "repo" v "REPO" env | None => env end in
  match assoc "prNumber" github with Some v => put "pr_number" v "PR_NUMBER" env | None => env end.
Definition _event_env (event : Event) : env_dict :=
  let context := ev_context event in
  let env := foldl (fun env kv => put (fst kv) (snd kv) (fst kv) env) [] context in
  let env := match assoc "gitlab" context with
             | Some (JObj gitlab) => if String.eqb (ev_source event) "gitlab" then gitlab_env event gitlab env else env
             | _ => env
             end in
  match assoc "github" context with
  | Some (JObj github) => if String.eqb (ev_source event) "github" then github_env github env else env
  | _ => env
  end.

(** [{name: environ[name] for name in names if name in environ}] *)
Definition _BASE_ENV : list string := ["PATH"; "SHELL"; "LANG"; "LANGUAGE"; "TZ"; "TMPDIR"].
Definition base_env (environ : env_dict) : env_dict :=
  omap (fun name => (fun v => (name, v)) <$> assoc name environ) _BASE_ENV.
(** The secrets that are set, by the name they get. *)
Definition secrets_of (cfg : ScriptBlock) (environ : env_dict) : env_dict :=
  omap (fun kv => match assoc (secret_env_name (snd kv)) environ with
                  | Some secret => if truthy secret then Some (fst kv, secret) else None
                  | None => None
                  end) (sc_secret_env cfg).
Definition configured_env (cfg : ScriptBlock) (event : Event) (environ : env_dict) : env_dict :=
  dict_update (dict_update (dict_update (base_env environ) (sc_env cfg)) (secrets_of cfg environ)) (_event_env event).

Record hook_ticket := { ht_session_key : string; ht_workspace_key : string; ht_deadline_at : Z }.
Definition handoff_names (t : hook_ticket) (event : Event) (workspace : string) : env_dict :=
  [("ACH_WORKSPACE", workspace); ("ACH_HANDOFF_DIR", workspace); ("ACH_SESSION_KEY", ht_session_key t);
   ("ACH_WORKSPACE_KEY", ht_workspace_key t); ("ACH_EVENT_ID", ev_id event); ("ACH_CHANNEL", ev_channel event);
   ("GIT_TERMINAL_PROMPT", "0")].
Definition script_names (event : Event) (workspace : string) : env_dict :=
  [("ACH_WORKSPACE", workspace); ("ACH_HANDOFF_DIR", workspace); ("ACH_EVENT_ID", ev_id event);
   ("ACH_CHANNEL", ev_channel event); ("GIT_TERMINAL_PROMPT", "0")].
Definition handoff_env (cfg : ScriptBlock) (event : Event) (t : hook_ticket) (workspace home : string) (environ : env_dict) : env_dict :=
  dict_set "HOME" home (dict_update (configured_env cfg event environ) (handoff_names t event workspace)).
Definition script_env (cfg : ScriptBlock) (event : Event) (workspace home : string) (environ : env_dict) : env_dict :=
  dict_set "ACH_SCRIPT" (sc_script cfg)
    (dict_set "HOME" home (dict_update (configured_env cfg event environ) (script_names event workspace))).

(** ** Running a hook *)

Inductive hook_raised :=
  | HTimeout                                       (* TimeoutError *)
  | HCancelled
  | HOSError
  | HUnbound                                       (* UnboundLocalError *)
  | HOther                                         (* any other exception *)
  | HookNotStarted                                 (* "could not be started" *)
  | HookExited (returncode : Z) (tail : string)
  | HookTimedOut (timeout : Z).                    (* WebhookScriptFailed, "timed out after" *)
#[export] Instance hook_raised_eq_dec : EqDecision hook_raised.
Proof. solve_decision. Defined.

(** How the communication with a process ends: it exits, giving its output in these chunks, or
    the time or the task is over first. *)
Record hook_output := { out_returncode : Z; out_stdout : list string; out_stderr : list string }.

Inductive hook_call :=
  | MakeWorkspace (path : string)                  (* [mkdir(parents=True, exist_ok=True)] *)
  | MakeTemp (prefix : string)                     (* [mkdtemp] *)
  | RemoveTemp (path : string)                     (* [TemporaryDirectory.__exit__] *)
  | RemoveWorkspace (path : string)                (* [_remove_workspace]: false when it is cancelled *)
  | NowAt                                          (* [datetime.now(deadline_at.tzinfo)] *)
  | Spawn (argv : list string) (cwd : string) (env : env_dict)
  | Communicate (input : string) (timeout : Z)     (* [communicate] of either module, under a timeout *)
  | KillGroup                                      (* [killpg(SIGKILL)], errors suppressed *)
  | WaitExit                                       (* [proc.wait()]: false when it is cancelled *)
  | TellStarted                                    (* [on_started()] *)
  | CountFailure (reason : string)
  | CountRun (channel status : string).
Definition hook_ans (c : hook_call) : Type :=
  match c with
  | MakeTemp _ => result hook_raised string
  | NowAt => Z
  | RemoveWorkspace _ | WaitExit => bool
  | Communicate _ _ => result hook_raised hook_output
  | KillGroup | CountFailure _ | CountRun _ _ => unit
  | _ => result hook_raised unit
  end.
Abbreviation hprog := (prog hook_ans hook_raised).

Definition seconds (n : Z) : Z := n * 1000000.
Definition _remaining_seconds (deadline_at : Z) : hprog Z := now ← call NowAt; mret (deadline_at - now).
(** [_kill_tree], [_kill_process_group] *)
Definition kill_group : hprog unit :=
  _ ← call KillGroup; exited ← call WaitExit; if (exited : bool) then mret tt else throw HCancelled.
(** [with TemporaryDirectory() as home: p] *)
Definition with_home (home : string) (p : hprog unit) : hprog unit :=
  r ← attempt p; _ ← (call (RemoveTemp home) ≫= lift); lift r.

Section hooks.
Context (registered : list string) (environ : env_dict).

Definition handoff_session (cfg : ScriptBlock) (event : Event) (t : hook_ticket) (workspace home : string) : hprog unit :=
  remaining ← _remaining_seconds (ht_deadline_at t);
  let timeout := Z.min (seconds (sc_timeout_seconds cfg)) remaining in
  if timeout <=? 0 then throw HTimeout else
  spawned ← call (Spawn ["/bin/sh"; "-eu"; "-s"] workspace (handoff_env cfg event t workspace home environ));
  match (spawned : result hook_raised unit) with
  | Err HOSError | Err HTimeout => throw HookNotStarted
  | Err e => throw e
  | Ok _ =>
      out ← call (Communicate (sc_script cfg) timeout);
      match (out : result hook_raised hook_output) with
      | Err HTimeout => _ ← kill_group; throw HTimeout
      | Err HCancelled => _ ← kill_group; throw HCancelled
      | Err e => throw e
      | Ok out =>
          if out_returncode out =? 0 then mret tt
          else throw (HookExited (out_returncode out)
                        (handoff_stderr_tail registered (concat_str (out_stderr out)) (map snd (secrets_of cfg environ))))
      end
  end.
Definition run_handoff (cfg : ScriptBlock) (event : Event) (t : hook_ticket) (workspace : string) : hprog unit :=
  _ ← (call (MakeWorkspace workspace) ≫= lift);
  home ← (call (MakeTemp "ach-handoff-home-") ≫= lift);
  with_home home (handoff_session cfg event t workspace home).

Definition _SCRIPT_TRAMPOLINE : string :=
  "s=" +:+ quote +:+ "$ACH_SCRIPT" +:+ quote +:+ "; unset ACH_SCRIPT; eval " +:+ quote +:+ "$s" +:+ quote.
(** The output of a webhook script: the tails of both streams and whether one was cut. *)
Definition script_output (out : hook_output) : Z * string * string * bool :=
  let '(stdout, cut) := _read_tail (out_stdout out) in
  let '(stderr, cut') := _read_tail (out_stderr out) in
  (out_returncode out, stdout, stderr, cut || cut').
Definition kill_and_raise {A} (e : hook_raised) : hprog A := _ ← kill_group; throw e.
Definition timed_out {A} (timeout : Z) : hprog A :=
  _ ← kill_group; _ ← call (CountFailure "timeout"); throw (HookTimedOut timeout).
(** Once the process is there: [timeout_seconds] is not bound until Started was told. *)
Definition hook_session (payload : string) (timeout deadline_at : Z) : hprog hook_output :=
  told ← call TellStarted;
  match (told : result hook_raised unit) with
  | Err HTimeout => _ ← kill_group; _ ← call (CountFailure "timeout"); throw HUnbound
  | Err e => kill_and_raise e
  | Ok _ =>
      remaining ← _remaining_seconds deadline_at;
      let timeout := Z.min timeout remaining in
      out ← attempt (if timeout <=? 0 then kill_and_raise HTimeout else call (Communicate payload timeout) ≫= lift);
      match out with
      | Err HTimeout => timed_out timeout
      | Err e => kill_and_raise e
      | Ok out => mret out
      end
  end.
Definition _execute_hook (payload : string) (timeout deadline_at : Z) (cwd : string) (env : env_dict) :
    hprog (Z * string * string * bool) :=
  remaining ← _remaining_seconds deadline_at;
  if remaining <=? 0 then throw HTimeout else
  spawned ← call (Spawn ["/bin/sh"; "-eu"; "-c"; _SCRIPT_TRAMPOLINE] cwd env);
  match (spawned : result hook_raised unit) with
  | Err HOSError => throw HookNotStarted
  | Err e => throw e
  | Ok _ =>
      remaining ← _remaining_seconds deadline_at;
      if remaining <=? 0 then kill_and_raise HTimeout else
      script_output <$> hook_session payload timeout deadline_at
  end.

Definition secret_names (cfg : ScriptBlock) : list string := map (fun kv => secret_env_name (snd kv)) (sc_secret_env cfg).
Definition script_session (cfg : ScriptBlock) (event : Event) (deadline_at : Z) (payload workspace home : string) : hprog unit :=
  out ← attempt (_execute_hook payload (seconds (sc_timeout_seconds cfg)) deadline_at workspace
                   (script_env cfg event workspace home environ));
  match out with
  | Err HookNotStarted => _ ← call (CountFailure "spawn"); throw HookNotStarted
  | Err e => throw e
  | Ok (returncode, stdout, stderr, truncated) =>
      if returncode =? 0 then mret tt
      else _ ← call (CountFailure "exit");
           throw (HookExited returncode (script_stderr_tail stderr environ (secret_names cfg)))
  end.
Definition run_webhook_script (cfg : ScriptBlock) (event : Event) (deadline_at : Z) : hprog unit :=
  let payload := dumps true (JObj (ev_payload event)) +:+ newline in
  remaining ← _remaining_seconds deadline_at;
  if remaining <=? 0 then throw HTimeout else
  workspace ← (call (MakeTemp "webhook-script-") ≫= lift);
  let leave (status : string) (r : result hook_raised unit) : hprog unit :=
    _ ← call (CountRun (ev_channel event) status);
    removed ← call (RemoveWorkspace workspace);
    if (removed : bool) then lift r else throw HCancelled in
  home ← attempt (call (MakeTemp "ach-webhook-script-home-") ≫= lift);
  match home with
  | Err e => leave "failed" (Err e)
  | Ok home =>
      r ← attempt (script_session cfg event deadline_at payload workspace home);
      removed ← call (RemoveTemp home);
      leave (if is_ok r then "ok" else "failed") (match (removed : result hook_raised unit) with Ok _ => r | Err e => Err e end)
  end.
End hooks.
