(* ===== verification/HooksProps.v ===== *)
(** * harness/handoff.py, harness/scripts.py: what a hook gets, and what it leaves

    [hook_env_confined]: where every variable of a hook's environment comes from.
    [script_leaves_nothing], [handoff_leaves_nothing]: whatever fails, the process is gone and
    the temporary directories are removed when a runner returns.
    Then the tails of the output: how much is kept, and the secrets that escape redaction. *)

From S2P Require Import Prelude PyJson PyLoads Config ConfigFacts Channels Effects Traces Facade FacadeProps Hooks.
From Stdlib Require Import Ascii.
Local Open Scope Z_scope.

(** ** The processes and the directories *)

(** [Lost]: [communicate] itself raised, neither by the timeout nor by cancellation. *)
Inductive process := NoProcess | Live | Lost | Ended.
#[export] Instance process_eq_dec : EqDecision process.
Proof. solve_decision. Defined.

Record hook_state := { hs_process : process; hs_dirs : list string; hs_told : bool; hs_now : option Z }.
Definition hook_start : hook_state := {| hs_process := NoProcess; hs_dirs := []; hs_told := false; hs_now := None |}.
Definition with_process (p : process) (s : hook_state) : hook_state :=
  {| hs_process := p; hs_dirs := hs_dirs s; hs_told := hs_told s; hs_now := hs_now s |}.
Definition with_dirs (dirs : list string) (s : hook_state) : hook_state :=
  {| hs_process := hs_process s; hs_dirs := dirs; hs_told := hs_told s; hs_now := hs_now s |}.

Section watched.
(** What the environment must be, given the directories made; the deadline and the limit of
    the configuration. *)
Context (expected : list string -> option env_dict) (deadline_at limit : Z).

(** The clock read last is that long before the deadline, at least. *)
Definition in_time (timeout : Z) (s : hook_state) : bool :=
  match hs_now s with Some now => now + timeout <=? deadline_at | None => false end.

(** What the calls of a hook may be: one process, with the expected environment and before the
    deadline; Started once, while it is live; the communication within both limits; a wait only
    after a kill; a directory removed, the last one made first, when nothing runs in it. *)
Definition watch_hook (s : hook_state) (e : event hook_ans) : verdict hook_state :=
  match e with
  | Ev c a =>
      match c return hook_ans c -> verdict hook_state with
      | MakeTemp _ => fun a => Goes (match a with Ok d => with_dirs (d :: hs_dirs s) s | Err _ => s end)
      | RemoveTemp d | RemoveWorkspace d => fun _ =>
          match hs_process s, hs_dirs s with
          | Live, _ | _, [] => Bad
          | _, d' :: dirs => if String.eqb d d' then Goes (with_dirs dirs s) else Bad
          end
      | NowAt => fun now =>
          Goes {| hs_process := hs_process s; hs_dirs := hs_dirs s; hs_told := hs_told s; hs_now := Some now |}
      | Spawn _ _ env => fun a =>
          if bool_decide (hs_process s = NoProcess /\ expected (hs_dirs s) = Some env) && in_time 1 s
          then Goes (match a with Ok _ => with_process Live s | Err _ => s end) else Bad
      | Communicate _ timeout => fun a =>
          if bool_decide (hs_process s = Live) && (0 <? timeout) && (timeout <=? limit) && in_time timeout s
          then Goes (match a with
                     | Ok _ => with_process Ended s
                     | Err HTimeout | Err HCancelled => s
                     | Err _ => with_process Lost s
                     end) else Bad
      | KillGroup => fun _ => if bool_decide (hs_process s = NoProcess) then Bad else Goes (with_process Ended s)
      | WaitExit => fun _ => if bool_decide (hs_process s = Ended) then Goes s else Bad
      | TellStarted => fun _ =>
          if bool_decide (hs_process s = Live) && negb (hs_told s) && in_time 1 s
          then Goes {| hs_process := Live; hs_dirs := hs_dirs s; hs_told := true; hs_now := hs_now s |} else Bad
      | _ => fun _ => Goes s
      end a
  end.

Abbreviation watched := (obeys watch_hook).
(** The same directories, and the process gone if there was one. *)
Definition ended_like (s s' : hook_state) : Prop :=
  hs_process s' = Ended /\ hs_dirs s' = hs_dirs s /\ hs_told s' = hs_told s.

Lemma kill_group_ends s (Q : hook_state -> result hook_raised unit -> Prop) :
  hs_process s <> NoProcess -> (forall r, r = Ok tt \/ r = Err HCancelled -> Q (with_process Ended s) r) ->
  watched kill_group Q s.
Proof.
  intros Hs HQ. unfold kill_group. apply obeys_bind. calls. intros []. cbn [watch_hook]. rewrite bool_decide_eq_false_2 by done.
  apply obeys_bind. calls. intros exited. cbn [watch_hook with_process hs_process]. rewrite bool_decide_eq_true_2 by done.
  destruct exited; apply HQ; auto.
Qed.
Lemma kill_and_raise_ends {A} e s (Q : hook_state -> result hook_raised A -> Prop) :
  hs_process s <> NoProcess -> (forall e', Q (with_process Ended s) (Err e')) -> watched (kill_and_raise e) Q s.
Proof. intros Hs HQ. unfold kill_and_raise. apply obeys_bind, kill_group_ends; [done|]. intros r [->| ->]; apply HQ. Qed.
Lemma timed_out_ends {A} t s (Q : hook_state -> result hook_raised A -> Prop) :
  hs_process s <> NoProcess -> (forall e', Q (with_process Ended s) (Err e')) -> watched (timed_out t) Q s.
Proof.
  intros Hs HQ. unfold timed_out. apply obeys_bind, kill_group_ends; [done|]. intros r [->| ->]; [|apply HQ].
  apply obeys_bind. calls. intros []. apply HQ.
Qed.

(** Reading the clock: the time left is what it says. *)
Definition at_time (now : Z) (s : hook_state) : hook_state :=
  {| hs_process := hs_process s; hs_dirs := hs_dirs s; hs_told := hs_told s; hs_now := Some now |}.
Lemma remaining_read s (Q : hook_state -> result hook_raised Z -> Prop) :
  (forall now, Q (at_time now s) (Ok (deadline_at - now))) -> watched (_remaining_seconds deadline_at) Q s.
Proof. intros HQ. unfold _remaining_seconds. apply obeys_bind. calls. intros now. apply HQ. Qed.
Lemma at_time_in now t s : t <= deadline_at - now -> in_time t (at_time now s) = true.
Proof. intros H. unfold in_time, at_time. cbn. apply Z.leb_le. lia. Qed.

Lemma watch_hook_never s tr : watch watch_hook s tr <> Never.
Proof.
  revert s. induction tr as [|[c a] tr IH]; intros s; [done|]. cbn [watch].
  assert (H : watch_hook s (Ev c a) <> Never) by (destruct c; cbn [watch_hook]; repeat case_match; done).
  destruct (watch_hook s (Ev c a)); [apply IH|done|done].
Qed.

(** ** A webhook script *)

Definition session_done (s s' : hook_state) (r : result hook_raised hook_output) : Prop :=
  hs_process s' = Ended /\ hs_dirs s' = hs_dirs s /\ hs_told s' = true.
Lemma hook_session_ends payload s :
  hs_process s = Live -> hs_told s = false -> in_time 1 s = true ->
  watched (hook_session payload limit deadline_at) (session_done s) s.
Proof.
  intros Hp Ht Hi. unfold hook_session. apply obeys_bind. calls. intros told. cbn [watch_hook].
  rewrite Hi, Ht, bool_decide_eq_true_2 by done. cbn [andb negb]. set (s1 := Build_hook_state _ _ _ _).
  assert (Hend : forall n e, session_done s (with_process Ended (at_time n s1)) (Err e) /\ session_done s (with_process Ended s1) (Err e))
    by (intros; by split; split_and!).
  destruct told as [u|e].
  - apply obeys_bind, remaining_read. intros now. cbv zeta.
    apply obeys_bind, obeys_attempt. destruct (Z.leb_spec (Z.min limit (deadline_at - now)) 0).
    + apply kill_and_raise_ends; [done|]. intros e. cbn.
      destruct e; (apply timed_out_ends || apply kill_and_raise_ends); intros; try apply Hend; done.
    + apply obeys_lift. calls. intros out. cbn [watch_hook].
      rewrite at_time_in, bool_decide_eq_true_2 by (done || lia). cbn [andb].
      assert (Hb : (0 <? Z.min limit (deadline_at - now)) && (Z.min limit (deadline_at - now) <=? limit) = true)
        by (apply andb_true_iff; split; [apply Z.ltb_lt|apply Z.leb_le]; lia).
      rewrite Hb. cbn [andb]. destruct out as [out|e]; [by split_and!|].
      destruct e; (apply timed_out_ends || apply kill_and_raise_ends); intros; try apply Hend; done.
  - destruct e; try (apply kill_and_raise_ends; [done|intros; by apply (Hend 0)]).
    apply obeys_bind, kill_group_ends; [done|]. intros r [->| ->]; [|by apply (Hend 0)].
    apply obeys_bind. calls. intros []. by apply (Hend 0).
Qed.

(** No process is left; if the body returned, one ran to its end after Started was told. *)
Definition hook_gone {A} (s s' : hook_state) (r : result hook_raised A) : Prop :=
  hs_dirs s' = hs_dirs s /\ (hs_process s' = NoProcess /\ hs_told s' = false \/ hs_process s' = Ended)
  /\ (is_ok r = true -> hs_process s' = Ended /\ hs_told s' = true).
Lemma execute_hook_ends payload cwd env s :
  hs_process s = NoProcess -> hs_told s = false -> expected (hs_dirs s) = Some env ->
  watched (_execute_hook payload limit deadline_at cwd env) (hook_gone s) s.
Proof.
  intros Hp Ht He. unfold _execute_hook. apply obeys_bind, remaining_read. intros now.
  destruct (Z.leb_spec (deadline_at - now) 0); [by split_and!; auto|].
  apply obeys_bind. calls. intros spawned. cbn [watch_hook].
  rewrite at_time_in, bool_decide_eq_true_2 by (done || lia). cbn [andb].
  destruct spawned as [u|e]; [|by destruct e; split_and!; auto].
  apply obeys_bind, remaining_read. intros later.
  destruct (Z.leb_spec (deadline_at - later) 0).
  - apply kill_and_raise_ends; [done|]. intros e. by split_and!; auto.
  - apply obeys_run. eapply obeys_mono; [apply hook_session_ends; [done..|]; by apply at_time_in; lia|].
    intros s' [out|e] (H1 & H2 & H3); split_and!; auto.
Qed.
Lemma gone_again {A B} s s' (r : result hook_raised A) (r' : result hook_raised B) :
  hook_gone s s' r -> (is_ok r' = true -> is_ok r = true) -> hook_gone s s' r'.
Proof. intros (Hd & Hl & Ho) H. split; [done|]. split; [done|]. auto. Qed.
Lemma script_session_ends environ cfg event payload workspace home s :
  limit = seconds (sc_timeout_seconds cfg) ->
  hs_process s = NoProcess -> hs_told s = false ->
  expected (hs_dirs s) = Some (script_env cfg event workspace home environ) ->
  watched (script_session environ cfg event deadline_at payload workspace home) (hook_gone s) s.
Proof.
  intros Hlim Hp Ht He. unfold script_session. rewrite <- Hlim. apply obeys_bind, obeys_attempt.
  eapply obeys_mono; [exact (execute_hook_ends _ _ _ _ Hp Ht He)|].
  intros s' r Hg. destruct r as [[[[rc out] err] cut]|e].
  - cbn beta iota. case_match; [by apply (gone_again _ _ _ _ Hg)|].
    apply obeys_bind. calls. intros []. by apply (gone_again _ _ _ _ Hg).
  - destruct e; try by apply (gone_again _ _ _ _ Hg). apply obeys_bind. calls. intros []. by apply (gone_again _ _ _ _ Hg).
Qed.
End watched.

Definition script_expected (cfg : ScriptBlock) (event : Event) (environ : env_dict) (dirs : list string) : option env_dict :=
  match dirs with [home; workspace] => Some (script_env cfg event workspace home environ) | _ => None end.
(** All is removed, no process is left, and a hook that succeeded told Started. *)
Definition left_nothing (s : hook_state) (r : result hook_raised unit) : Prop :=
  hs_dirs s = [] /\ (hs_process s = NoProcess /\ hs_told s = false \/ hs_process s = Ended)
  /\ (r = Ok tt -> hs_process s = Ended /\ hs_told s = true).

(** C40. A webhook script leaves nothing behind, however it ends.  In any run of the runner,
    whatever the clock, the file system, the shell and the callback answer and wherever it is
    cancelled: at most one process is spawned, with the environment of this script and its
    fresh directories and before the deadline; Started is told at most once, while that process
    lives and before the deadline; the communication is bounded by the configured timeout and
    by the deadline; no directory is removed under a live process.  When the runner returns
    every directory it made was removed and the process was killed or has exited; when it
    returns normally, it ran and Started was told. *)
Theorem script_leaves_nothing environ cfg event deadline_at tr r :
  runs (run_webhook_script environ cfg event deadline_at) tr r ->
  match watch (watch_hook (script_expected cfg event environ) deadline_at (seconds (sc_timeout_seconds cfg))) hook_start tr with
  | Goes s => left_nothing s r
  | _ => False
  end.
Proof.
  set (nxt := watch_hook _ _ _). intros Hr.
  assert (Ho : obeys nxt (run_webhook_script environ cfg event deadline_at) left_nothing hook_start).
  { unfold run_webhook_script. cbv zeta. apply obeys_bind, remaining_read. intros now.
    destruct (Z.leb_spec (deadline_at - now) 0); [by split_and!; auto|].
    apply obeys_bind, obeys_lift. calls. intros [workspace|e]; [|by split_and!; auto].
    assert (Hleave : forall status r s, hs_dirs s = [workspace] -> hook_gone (with_dirs [workspace] s) s r ->
      obeys nxt (_ ← call (CountRun (ev_channel event) status); removed ← call (RemoveWorkspace workspace);
                 if (removed : bool) then lift r else throw HCancelled) left_nothing s).
    { intros status r0 s Hs (_ & Hg & Hok). apply obeys_bind. calls. intros []. apply obeys_bind. calls. intros removed.
      unfold nxt. cbn [watch_hook]. rewrite Hs, String.eqb_refl.
      assert (Hn : left_nothing (with_dirs [] s) (if removed : bool then r0 else Err HCancelled)).
      { split; [done|]. split; [exact Hg|]. intros E. apply Hok. by destruct removed; [subst r0|]. }
      destruct Hg as [[Hg _]|Hg]; rewrite Hg; by destruct removed. }
    apply obeys_bind, obeys_attempt, obeys_lift. calls. intros [home|e].
    - cbn beta iota. apply obeys_bind, obeys_attempt. eapply obeys_mono.
      + by apply script_session_ends.
      + intros s r0 (Hd & Hg & Hok). apply obeys_bind. calls. intros removed. unfold nxt at 1. cbn [watch_hook].
        rewrite Hd. cbn [hs_dirs with_dirs]. rewrite String.eqb_refl.
        assert (Hn : hook_gone (with_dirs [workspace] s) (with_dirs [workspace] s)
                       (match removed with Ok _ => r0 | Err e => Err e end)).
        { split; [done|]. split; [exact Hg|]. by destruct removed. }
        destruct Hg as [[Hg _]|Hg]; rewrite Hg; by apply Hleave.
    - apply Hleave; [done|]. by split_and!; auto. }
  pose proof (obeys_runs _ _ _ _ _ _ Ho Hr) as H. destruct (watch nxt hook_start tr) eqn:E; [exact H|done|].
  by apply watch_hook_never in E.
Qed.

(** ** A handoff hook *)

Definition handoff_expected (cfg : ScriptBlock) (event : Event) (t : hook_ticket) (workspace : string) (environ : env_dict)
    (dirs : list string) : option env_dict :=
  match dirs with [home] => Some (handoff_env cfg event t workspace home environ) | _ => None end.
Definition handoff_left (s : hook_state) (r : result hook_raised unit) : Prop :=
  hs_dirs s = [] /\ hs_process s <> Live /\ (r = Ok tt -> hs_process s = Ended).

(** A handoff hook leaves nothing behind: its process has exited or was killed, by its timeout,
    the deadline or cancellation, and its HOME is removed; only when [communicate] itself breaks
    is the process left alone ([Lost]). *)
Theorem handoff_leaves_nothing registered environ cfg event t workspace tr r :
  runs (run_handoff registered environ cfg event t workspace) tr r ->
  match watch (watch_hook (handoff_expected cfg event t workspace environ) (ht_deadline_at t) (seconds (sc_timeout_seconds cfg)))
          hook_start tr with
  | Goes s => handoff_left s r
  | _ => False
  end.
Proof.
  set (nxt := watch_hook _ _ _). intros Hr.
  assert (Ho : obeys nxt (run_handoff registered environ cfg event t workspace) handoff_left hook_start).
  { unfold run_handoff. apply obeys_bind, obeys_lift. calls. intros [u|e]; [|by split_and!].
    cbn beta iota. apply obeys_bind, obeys_lift. calls. intros [home|e]; [|by split_and!].
    unfold with_home. cbn beta iota. apply obeys_bind, obeys_attempt.
    apply obeys_mono with (fun s r => hs_dirs s = [home] /\ hs_process s <> Live /\ (r = Ok tt -> hs_process s = Ended)).
    - unfold handoff_session. apply obeys_bind, remaining_read. intros now.
      set (timeout := Z.min _ _). assert (Ht : timeout <= ht_deadline_at t - now) by lia.
      assert (Hl : timeout <= seconds (sc_timeout_seconds cfg)) by lia. clearbody timeout.
      destruct (Z.leb_spec timeout 0) as [H|H]; [by split_and!|]. cbv zeta.
      apply obeys_bind. calls. intros spawned. unfold nxt at 1. cbn [watch_hook].
      rewrite at_time_in, bool_decide_eq_true_2 by (done || lia). cbn [andb].
      destruct spawned as [u'|[]]; try by split_and!.
      apply obeys_bind. calls. intros out. unfold nxt at 1. cbn [watch_hook].
      change (in_time _ timeout _) with (in_time (ht_deadline_at t) timeout (at_time now hook_start)).
      rewrite at_time_in, bool_decide_eq_true_2 by (done || lia).
      apply Z.ltb_lt in H as ->. apply Z.leb_le in Hl as ->. cbn [andb].
      destruct out as [out|[]]; try by split_and!.
      + destruct (out_returncode out =? 0); by split_and!.
      + apply obeys_bind, kill_group_ends; [done|]. by intros r0 [->| ->]; split_and!.
      + apply obeys_bind, kill_group_ends; [done|]. by intros r0 [->| ->]; split_and!.
    - intros s r0 (Hd & Hp & Hok). apply obeys_bind, obeys_lift. calls. intros removed. unfold nxt. cbn [watch_hook].
      rewrite Hd, String.eqb_refl.
      destruct (hs_process s) eqn:E; [|done|..]; destruct removed; (split; [done|split; [cbn; by rewrite E|]]); intros Hr0;
        try discriminate Hr0; cbn; rewrite E; auto. }
  pose proof (obeys_runs _ _ _ _ _ _ Ho Hr) as H. destruct (watch nxt hook_start tr) eqn:E; [exact H|done|].
  by apply watch_hook_never in E.
Qed.

(** ** The environment *)

Definition path_names : list string := ["ACH_EVENT_PROJECT_PATH"; "ACH_EVENT_REPO"].
(** A relative path of a repository: no component is empty, is [..] or begins with a dash. *)
Definition repo_path (v : string) : Prop :=
  Forall (fun p => p <> "" /\ p <> ".." /\ forall q, p <> "-" +:+ q) (split_on "/" v).
Definition printable (v : string) : Prop :=
  (0 < String.length v <= 512)%nat /\ str_forallb (fun a => (32 <=? ascii_code a)%N && (ascii_code a <=? 126)%N) v = true.
(** A flat key of the context under another spelling than the two that are checked: the name it
    gives is upper-cased, the key that is checked is not. *)
Definition other_spelling (context : list (string * json)) (n v : string) : Prop :=
  exists key value, In (key, value) context /\ n = "ACH_EVENT_" +:+ upper key
    /\ ~ In key ["project_path"; "repo"] /\ _event_value key value = Some v.
Definition event_variable (context : list (string * json)) (n v : string) : Prop :=
  (exists key, n = "ACH_EVENT_" +:+ upper key) /\ printable v
  /\ (In n path_names -> repo_path v \/ other_spelling context n v).

Lemma printable_spec v : _PRINTABLE v = true -> printable v.
Proof.
  unfold _PRINTABLE. intros [[Hv Hl%Nat.leb_le]%andb_true_iff Hc]%andb_true_iff. split; [|exact Hc].
  destruct v; [done|]. cbn in *. lia.
Qed.
Lemma path_part_spec p : path_part p = true -> p <> "" /\ forall q, p <> "-" +:+ q.
Proof. destruct p as [|a p]; [done|]. cbn. intros [Ha _]%andb_true_iff. split; [done|]. by intros q [= -> ->]. Qed.
Lemma repo_path_spec v : _REPO_PATH v = true -> in_strs ".." (split_on "/" v) = false -> repo_path v.
Proof.
  unfold _REPO_PATH, repo_path. intros Hp Hd. apply Forall_forall. intros p Hin%list_elem_of_In.
  pose proof (path_part_spec p (proj1 (forallb_forall _ _) Hp p Hin)) as [Hn Hq]. split; [done|]. split; [|done].
  intros ->. apply in_strs_iff in Hin. congruence.
Qed.
Lemma event_value_spec key value text : _event_value key value = Some text ->
  printable text /\ (in_strs key _REPO_PATH_KEYS = true -> repo_path text).
Proof.
  unfold _event_value. intros H. destruct (match value with JBool _ => _ | _ => _ end) as [t|]; [|done].
  destruct (_PRINTABLE t) eqn:Hp; [|done]. cbn [negb] in H. split_match H. split; [by apply printable_spec|]. intros Hk.
  rewrite Hk in *. apply orb_false_iff in E as [E1%negb_false_iff E2]. by apply repo_path_spec.
Qed.
Ltac named := by (cbv; intuition congruence).
Section event.
Context (context : list (string * json)).
Definition event_variables (env : env_dict) : Prop := forall n v, In (n, v) env -> event_variable context n v.
Lemma put_variables key value name env :
  (In ("ACH_EVENT_" +:+ upper name) path_names -> in_strs key _REPO_PATH_KEYS = true) ->
  event_variables env -> event_variables (put key value name env).
Proof.
  intros Hn He. unfold put. destruct (_event_value key value) as [text|] eqn:Ev; [|done].
  apply event_value_spec in Ev as [Hp Hr]. intros n v [[-> ->]|Hin]%in_set_key; [|by apply He].
  split; [by exists name|]. auto.
Qed.
Lemma put_flat key value env : In (key, value) context ->
  event_variables env -> event_variables (put key value key env).
Proof.
  intros Hin He. unfold put. destruct (_event_value key value) as [text|] eqn:Ev; [|done].
  apply event_value_spec in Ev as H. destruct H as [Hp Hr]. intros n v [[-> ->]|Hi]%in_set_key; [|by apply He].
  split; [by exists key|]. split; [done|]. intros _.
  destruct (in_strs key _REPO_PATH_KEYS) eqn:Ek; [left; by apply Hr|]. right. exists key, value.
  split; [done|]. split; [done|]. split; [|done]. intros H%in_strs_iff. change ["project_path"; "repo"] with _REPO_PATH_KEYS in H. congruence.
Qed.
Lemma flat_variables fields env : (forall kv, In kv fields -> In kv context) -> event_variables env ->
  event_variables (foldl (fun env kv => put (fst kv) (snd kv) (fst kv) env) env fields).
Proof.
  revert env. induction fields as [|[key value] fields IH]; intros env Hf He; [done|].
  cbn [foldl fst snd]. apply IH; [intros kv Hin; apply Hf; by right|]. apply put_flat; [apply Hf; by left|done].
Qed.
Lemma gitlab_variables event gitlab env : event_variables env -> event_variables (gitlab_env event gitlab env).
Proof.
  intros He. unfold gitlab_env. cbn [foldl gitlab_mapping].
  assert (Hput : forall o key name env, (In ("ACH_EVENT_" +:+ upper name) path_names -> in_strs key _REPO_PATH_KEYS = true) ->
    event_variables env -> event_variables (match o with Some value => put key value name env | None => env end)).
  { intros [value|] key name env' Hn Hv; [by apply put_variables|done]. }
  set (env1 := match assoc "headSha" gitlab with Some _ => _ | None => _ end).
  assert (H1 : event_variables env1) by (repeat (apply Hput; [named|]); exact He). clearbody env1.
  set (env2 := put "kind" _ _ _). assert (H2 : event_variables env2) by (apply put_variables; [named|done]). clearbody env2.
  destruct (has "mergeRequestIid" gitlab); [by apply put_variables; [named|]|].
  destruct (has "issueIid" gitlab); [by apply put_variables; [named|]|done].
Qed.
Lemma github_variables github env : event_variables env -> event_variables (github_env github env).
Proof.
  intros He. unfold github_env. set (env1 := match assoc "repo" github with Some _ => _ | None => _ end).
  assert (H1 : event_variables env1) by (unfold env1; destruct (assoc "repo" github); [apply put_variables; [named|]|]; done).
  clearbody env1. destruct (assoc "prNumber" github); [apply put_variables; [named|]|]; done.
Qed.
End event.
Lemma event_env_variables event : event_variables (ev_context event) (_event_env event).
Proof.
  unfold _event_env. cbv zeta. set (env0 := foldl _ _ _).
  assert (H0 : event_variables (ev_context event) env0) by (apply flat_variables; [done|by intros n v []]). clearbody env0.
  set (env1 := match assoc "gitlab" _ with Some _ => _ | None => _ end).
  assert (H1 : event_variables (ev_context event) env1).
  { unfold env1. destruct (assoc "gitlab" (ev_context event)) as [[]|]; try done. case_match; [by apply gitlab_variables|done]. }
  clearbody env1. destruct (assoc "github" (ev_context event)) as [[]|]; try done. case_match; [by apply github_variables|done].
Qed.
(** What every adapter of the channels builds: named groups of fields.  There is no flat key in it. *)
Definition grouped (context : list (string * json)) : Prop := forall key value, In (key, value) context -> exists d, value = JObj d.
Lemma grouped_spelling context n v : grouped context -> ~ other_spelling context n v.
Proof. intros Hg (key & value & Hin & _ & _ & Hv). by destruct (Hg _ _ Hin) as [d ->]. Qed.

(** Where a variable comes from, when the Harness does not set it itself. *)
Inductive hook_source (cfg : ScriptBlock) (event : Event) (environ : env_dict) : string -> string -> Prop :=
  | from_base n v : In n ["PATH"; "SHELL"; "LANG"; "LANGUAGE"; "TZ"; "TMPDIR"] -> assoc n environ = Some v -> hook_source cfg event environ n v
  | from_config n v : In (n, v) (sc_env cfg) -> hook_source cfg event environ n v
  | from_secret n alias v : In (n, alias) (sc_secret_env cfg) ->
      assoc (secret_env_name alias) environ = Some v -> v <> "" -> hook_source cfg event environ n v
  | from_event n v : event_variable (ev_context event) n v -> hook_source cfg event environ n v.

Lemma last_value_in {A} n (l : list (string * A)) v : last_value n l = Some v -> In (n, v) l.
Proof. intros H%assoc_in. by apply in_rev. Qed.
Lemma in_base_env environ n v : In (n, v) (base_env environ) -> In n _BASE_ENV /\ assoc n environ = Some v.
Proof.
  intros H%list_elem_of_In. apply list_elem_of_omap in H as (name & Hin%list_elem_of_In & H).
  apply fmap_Some in H as (v' & Hv & [= -> ->]). done.
Qed.
Lemma in_secrets cfg environ n v : In (n, v) (secrets_of cfg environ) ->
  exists alias, In (n, alias) (sc_secret_env cfg) /\ assoc (secret_env_name alias) environ = Some v /\ v <> "".
Proof.
  intros H%list_elem_of_In. apply list_elem_of_omap in H as ([name alias] & Hin%list_elem_of_In & H).
  cbn [fst snd] in H. destruct (assoc _ environ) as [s|] eqn:E; [|done]. split_match H.
  exists alias. split; [done|]. split; [done|]. by apply truthy_true.
Qed.
Lemma in_configured cfg event environ n v :
  In (n, v) (configured_env cfg event environ) -> hook_source cfg event environ n v.
Proof.
  intros [Hin|[Hin|[Hin|Hin]%in_update]%in_update]%in_update.
  - apply from_event. by apply (event_env_variables event).
  - apply in_secrets in Hin as (alias & H1 & H2 & H3). by eapply from_secret.
  - by apply from_config.
  - apply in_base_env in Hin as [H1 H2]. by apply from_base.
Qed.

Lemma names_checked cfg n : ScriptBlock_check cfg = Ok tt ->
  In n (map fst (sc_env cfg)) \/ In n (map fst (sc_secret_env cfg)) -> starts_with _RESERVED_HANDOFF_ENV_PREFIX n = false.
Proof.
  unfold ScriptBlock_check. intros H Hn. peel H. match goal with E : mapM_res script_env_name_check _ = _ |- _ => rename E into Hc end.
  apply mapM_res_forall in Hc. rewrite Forall_forall in Hc. destruct (Hc n) as [y Hy].
  { apply list_elem_of_In, in_or_app. by destruct Hn; [left|right]. }
  unfold script_env_name_check in Hy. destruct (negb _); [done|]. destruct (in_strs n _RESERVED_HANDOFF_ENV); [done|].
  by destruct (starts_with _ n).
Qed.
Lemma path_from_event cfg event environ n v : ScriptBlock_check cfg = Ok tt ->
  In n path_names -> hook_source cfg event environ n v -> repo_path v \/ other_spelling (ev_context event) n v.
Proof.
  intros Hc Hn Hs.
  assert (Hp : starts_with _RESERVED_HANDOFF_ENV_PREFIX n = true) by (destruct Hn as [<-|[<-|[]]]; reflexivity).
  inversion Hs as [n' v' Hb|n' v' Hin|n' alias v' Hin|n' v' (_ & _ & Hr)]; subst.
  - exfalso. destruct Hn as [<-|[<-|[]]]; revert Hb; named.
  - rewrite (names_checked cfg n Hc) in Hp; [done|]. left. apply in_map_iff. by exists (n, v).
  - rewrite (names_checked cfg n Hc) in Hp; [done|]. right. apply in_map_iff. by exists (n, alias).
  - by apply Hr.
Qed.

(** The environment of a hook, and the variables in it that the Harness sets itself. *)
Inductive hook_env (cfg : ScriptBlock) (event : Event) (environ : env_dict) : env_dict -> env_dict -> Prop :=
  | env_of_handoff t workspace home :
      hook_env cfg event environ (handoff_env cfg event t workspace home environ)
        [("HOME", home); ("ACH_WORKSPACE", workspace); ("ACH_HANDOFF_DIR", workspace); ("ACH_SESSION_KEY", ht_session_key t);
         ("ACH_WORKSPACE_KEY", ht_workspace_key t); ("ACH_EVENT_ID", ev_id event); ("ACH_CHANNEL", ev_channel event);
         ("GIT_TERMINAL_PROMPT", "0")]
  | env_of_script workspace home :
      hook_env cfg event environ (script_env cfg event workspace home environ)
        [("ACH_SCRIPT", sc_script cfg); ("HOME", home); ("ACH_WORKSPACE", workspace); ("ACH_HANDOFF_DIR", workspace);
         ("ACH_EVENT_ID", ev_id event); ("ACH_CHANNEL", ev_channel event); ("GIT_TERMINAL_PROMPT", "0")].

(** C39. Nothing gets into the environment of a hook but what is meant to.  Whatever the event
    and an accepted configuration say, the variables of the Harness have the Harness's values;
    every other variable is one of the six passed on from the process, a literal of the
    configuration, the value of a secret the configuration names under that name, or an
    ACH_EVENT_ variable that holds at most 512 printable ASCII characters, whatever the context
    of the event is.  ACH_EVENT_PROJECT_PATH and ACH_EVENT_REPO are relative repository paths
    without a [..] component or one that begins with a dash, so a script that clones them can
    neither be given an option nor leave its directory, with one exception: a flat key of the
    context that only upper-cased is PROJECT_PATH or REPO gives its value unchecked.  No context
    an adapter builds, of named groups only, has such a key. *)
Theorem hook_env_confined cfg event environ env own :
  ScriptBlock_check cfg = Ok tt -> hook_env cfg event environ env own ->
  (forall n v, In (n, v) own -> assoc n env = Some v)
  /\ (forall n v, assoc n env = Some v -> In (n, v) own \/ hook_source cfg event environ n v)
  /\ (forall n v, In n path_names -> assoc n env = Some v -> repo_path v \/ other_spelling (ev_context event) n v)
  /\ (grouped (ev_context event) -> forall n v, In n path_names -> assoc n env = Some v -> repo_path v).
Proof.
  intros Hc He.
  assert (Hown : forall n v, In (n, v) own -> assoc n env = Some v /\ ~ In n path_names).
  { intros n v Hin. destruct He; cbn in Hin;
      repeat destruct Hin as [[= <- <-]|Hin]; try done; (split; [|named]);
      unfold handoff_env, script_env; rewrite ?assoc_set_key, ?assoc_dict_update; reflexivity. }
  assert (Hsrc : forall n v, assoc n env = Some v -> In (n, v) own \/ hook_source cfg event environ n v).
  { intros n v Ha%assoc_in. destruct He as [t workspace home|workspace home].
    - apply in_set_key in Ha as [[-> ->]|Ha]; [by left; left|]. apply in_update in Ha as [Ha|Ha]; [by left; right|].
      right. by eapply in_configured.
    - apply in_set_key in Ha as [[-> ->]|Ha]; [by left; left|]. apply in_set_key in Ha as [[-> ->]|Ha]; [by left; right; left|].
      apply in_update in Ha as [Ha|Ha]; [by left; right; right|]. right. by eapply in_configured. }
  assert (Hpath : forall n v, In n path_names -> assoc n env = Some v -> repo_path v \/ other_spelling (ev_context event) n v).
  { intros n v Hn Ha. destruct (Hsrc n v Ha) as [Hin|Hs]; [by apply Hown in Hin as [_ []]|by eapply path_from_event]. }
  split; [intros n v Hin; by apply Hown|]. split; [exact Hsrc|]. split; [exact Hpath|].
  intros Hg n v Hn Ha. destruct (Hpath n v Hn Ha) as [?|Ho]; [done|by apply grouped_spelling in Ho].
Qed.

(** ** The output *)

Lemma bytes_drop_length n s : String.length (bytes_drop n s) = (String.length s - n)%nat.
Proof. revert s. induction n as [|n IH]; intros [|a s]; cbn; done || apply IH. Qed.
Lemma bytes_drop_app n s t : (n <= String.length s)%nat -> bytes_drop n (s +:+ t) = bytes_drop n s +:+ t.
Proof. revert s. induction n as [|n IH]; intros [|a s] H; cbn in *; try done; [lia|]. apply IH. lia. Qed.
Lemma bytes_drop_drop n m s : bytes_drop n (bytes_drop m s) = bytes_drop (m + n) s.
Proof. revert s. induction m as [|m IH]; intros [|a s]; cbn; first [done | by destruct n | apply IH]. Qed.
Lemma bytes_tail_all n s : (String.length s <= n)%nat -> bytes_tail n s = s.
Proof. intros H. unfold bytes_tail. by replace (String.length s - n)%nat with 0%nat by lia. Qed.
Lemma bytes_tail_app n s t : bytes_tail n (bytes_tail n s +:+ t) = bytes_tail n (s +:+ t).
Proof.
  unfold bytes_tail. rewrite !str_app_length, bytes_drop_length.
  rewrite <- (bytes_drop_app (String.length s - n) s t) by lia. rewrite bytes_drop_drop. f_equal. lia.
Qed.

Lemma read_tail_from_all limit chunks all :
  read_tail_from limit (bytes_tail limit all) (limit <? String.length all)%nat chunks
  = (bytes_tail limit (all +:+ concat_str chunks), (limit <? String.length (all +:+ concat_str chunks))%nat).
Proof.
  revert all. induction chunks as [|chunk chunks IH]; intros all; cbn [concat_str foldr read_tail_from];
    [by rewrite str_app_nil_r|].
  rewrite <- str_app_assoc, <- IH. rewrite bytes_tail_app.
  assert (Hl : String.length (bytes_tail limit all +:+ chunk) = (Nat.min limit (String.length all) + String.length chunk)%nat).
  { rewrite str_app_length. unfold bytes_tail. rewrite bytes_drop_length. lia. }
  rewrite Hl, str_app_length. destruct (Nat.ltb_spec limit (Nat.min limit (String.length all) + String.length chunk)) as [H|H].
  - f_equal. symmetry. apply Nat.ltb_lt. lia.
  - rewrite <- (bytes_tail_app limit all chunk), (bytes_tail_all limit (_ +:+ chunk)) by (rewrite Hl; lia). f_equal.
    destruct (Nat.ltb_spec limit (String.length all)), (Nat.ltb_spec limit (String.length all + String.length chunk)); lia || done.
Qed.
(** What is kept of a stream, however it is cut into chunks: its last 4096 bytes, and whether
    there were more. *)
Theorem tail_is_last_bytes chunks :
  _read_tail chunks
  = (bytes_tail _TAIL_BYTES (concat_str chunks), (_TAIL_BYTES <? String.length (concat_str chunks))%nat).
Proof. exact (read_tail_from_all _TAIL_BYTES chunks ""). Qed.

(** The output is cut before it is redacted: a secret that the cut goes through is not found
    any more, and its end is in the error that is raised, logged and recorded. *)
Fixpoint times (n : nat) (s : string) : string := match n with O => "" | S n => s +:+ times n s end.
Definition leaking_stderr : string := "push with s3cret-token-value failed " +:+ times 4080 ".".
Example cut_secret_escapes :
  let environ := [("ACH_SECRET_GIT", "s3cret-token-value")] in
  strip_prefix "en-value failed " (script_stderr_tail (fst (_read_tail [leaking_stderr])) environ ["ACH_SECRET_GIT"])
  = Some (times 4080 ".")
  /\ strip_prefix "push with [REDACTED] failed " (script_stderr_tail leaking_stderr environ ["ACH_SECRET_GIT"])
     = Some (times 4080 ".").
Proof. by vm_compute. Qed.
(** The lines of the output are joined before it is redacted: a secret of several lines, such
    as a private key, is not found any more. *)
Example secret_lines_escape :
  let secret := "-----BEGIN KEY-----" +:+ newline +:+ "c2VjcmV0" +:+ newline +:+ "-----END KEY-----" in
  handoff_stderr_tail [] ("bad key" +:+ newline +:+ secret) [secret]
  = "-----BEGIN KEY----- | c2VjcmV0 | -----END KEY-----".
Proof. by vm_compute. Qed.

(** Once Started was told the session never raises TimeoutError: the one it raises for a
    deadline that passed meanwhile is caught by its own handler. *)
Theorem session_never_times_out payload timeout deadline_at tr r :
  runs (hook_session payload timeout deadline_at) tr r -> r <> Err HTimeout.
Proof.
  intros Hr.
  assert (Hk : forall A e (Q : unit -> result hook_raised A -> Prop), (forall e', e' = e \/ e' = HCancelled -> Q tt (Err e')) ->
    obeys (fun _ _ => Goes tt) (kill_and_raise (A:=A) e) Q tt).
  { intros A e Q HQ. unfold kill_and_raise, kill_group. do 2 apply obeys_bind. calls. intros []. apply obeys_bind. calls.
    intros []; apply HQ; auto. }
  assert (Ht : forall t, obeys (fun _ _ => Goes tt) (timed_out (A:=hook_output) t) (fun _ r => r <> Err HTimeout) tt).
  { intros t. unfold timed_out, kill_group. do 2 apply obeys_bind. calls. intros []. apply obeys_bind. calls.
    intros []; [|done]. cbn beta iota. apply obeys_bind. calls. by intros []. }
  assert (Ho : obeys (fun _ _ => Goes tt) (hook_session payload timeout deadline_at) (fun _ r => r <> Err HTimeout) tt).
  { unfold hook_session. apply obeys_bind. calls. intros [u|e].
    - apply obeys_bind. unfold _remaining_seconds. apply obeys_bind. calls. intros now. cbv zeta. cbn beta iota.
      apply obeys_bind, obeys_attempt. destruct (Z.min timeout (deadline_at - now) <=? 0).
      + apply Hk. intros e [->| ->]; [apply Ht|]. apply Hk. by intros e [->| ->].
      + apply obeys_lift. calls. intros [out|e]; [done|]. cbn beta iota.
        destruct e; try apply Ht; apply Hk; by intros e' [->| ->].
    - destruct e; try (apply Hk; by intros e' [->| ->]).
      unfold kill_group. do 2 apply obeys_bind. calls. intros []. apply obeys_bind. calls. intros []; [|done].
      cbn beta iota. apply obeys_bind. calls. by intros []. }
  pose proof (obeys_runs _ _ _ _ _ _ Ho Hr) as H.
  replace (watch (fun (_ : unit) _ => Goes tt) tt tr) with (Goes tt : verdict unit) in H; [exact H|].
  clear. by induction tr.
Qed.

(** ** Samples *)

Definition sample_event : Event :=
  {| ev_id := "evt"; ev_channel := "ch"; ev_type := "merge_request"; ev_source := "gitlab"; ev_payload := [("text", JStr "hi")];
     ev_context := [("gitlab", JObj [("projectId", JStr "42"); ("projectPath", JStr "team/service"); ("mergeRequestIid", JInt 7);
                                     ("headSha", JStr "abc123")])];
     ev_actor := "alice" |}.
Definition sample_environ : env_dict :=
  [("PATH", "/bin"); ("ACH_SECRET_GIT", "selected"); ("ACH_SECRET_GL", "not selected"); ("HOME", "/root")].
Example event_env_ex :
  _event_env sample_event
  = [("ACH_EVENT_PROJECT_ID", "42"); ("ACH_EVENT_PROJECT_PATH", "team/service"); ("ACH_EVENT_MR_IID", "7");
     ("ACH_EVENT_HEAD_SHA", "abc123"); ("ACH_EVENT_KIND", "merge_request"); ("ACH_EVENT_TARGET_TYPE", "mr")].
Proof. by vm_compute. Qed.
Example bad_paths : map (fun p => _event_value "project_path" (JStr p)) ["a/../b"; "-u"; "/etc"; "a//b"; "a/b"] = [None; None; None; None; Some "a/b"].
Proof. by vm_compute. Qed.
(** A flat key is checked as it is spelled and named in upper case: PROJECT_PATH is not checked. *)
Definition flat_event (key value : string) : Event :=
  {| ev_id := "evt"; ev_channel := "ch"; ev_type := "push"; ev_source := "webhook"; ev_payload := [];
     ev_context := [(key, JStr value)]; ev_actor := "" |}.
Example spelling_escapes_check :
  _event_env (flat_event "project_path" "../../etc") = []
  /\ _event_env (flat_event "PROJECT_PATH" "../../etc") = [("ACH_EVENT_PROJECT_PATH", "../../etc")].
Proof. by vm_compute. Qed.
Example redact_ex :
  redact ["registered secret"] "key ek-abc_1, week-end, sk-x; eyJh.eyJi.c and registered secret"
  = "key [redacted], week-end, [redacted]; [redacted] and [redacted]".
Proof. by vm_compute. Qed.

(** ACH_WORKSPACE is not among the reserved names: an accepted configuration may set it, and
    the hook does not get that value. *)
Definition shadowed_script : ScriptBlock :=
  {| sc_script := ":"; sc_env := [("ACH_WORKSPACE", "/mine")]; sc_secret_env := []; sc_timeout_seconds := 5 |}.
Example configured_workspace_ignored :
  ScriptBlock_check shadowed_script = Ok tt
  /\ assoc "ACH_WORKSPACE" (script_env shadowed_script sample_event "/tmp/ws" "/tmp/home" []) = Some "/tmp/ws".
Proof. by vm_compute. Qed.

Lemma hook_env_confined_witness :
  ScriptBlock_check sample_script = Ok tt /\
  let env := script_env sample_script sample_event "/tmp/ws" "/tmp/home" sample_environ in
  assoc "TOKEN" env = Some "selected" /\ assoc "ACH_SECRET_GL" env = None /\ assoc "HOME" env = Some "/tmp/home"
  /\ (forall n v, In n path_names -> assoc n env = Some v -> repo_path v)
  /\ let flat := script_env sample_script (flat_event "REPO" "-u") "/tmp/ws" "/tmp/home" sample_environ in
     assoc "ACH_EVENT_REPO" flat = Some "-u"
     /\ forall v, assoc "ACH_EVENT_REPO" flat = Some v -> repo_path v \/ other_spelling [("REPO", JStr "-u")] "ACH_EVENT_REPO" v.
Proof.
  split; [reflexivity|]. cbv zeta. split; [reflexivity|]. split; [reflexivity|]. split; [reflexivity|]. split; [|split; [reflexivity|]].
  - refine (proj2 (proj2 (proj2 (hook_env_confined sample_script sample_event sample_environ _
             (("ACH_SCRIPT", sc_script sample_script) :: ("HOME", "/tmp/home") :: script_names sample_event "/tmp/ws") _ _))) _).
    + reflexivity.
    + constructor.
    + intros key value [[= <- <-]|[]]. by eexists.
  - intros v. refine (proj1 (proj2 (proj2 (hook_env_confined sample_script (flat_event "REPO" "-u") sample_environ _
             (("ACH_SCRIPT", sc_script sample_script) :: ("HOME", "/tmp/home") :: script_names (flat_event "REPO" "-u") "/tmp/ws") _ _)))
             "ACH_EVENT_REPO" v _); [reflexivity|constructor|right; left; reflexivity].
Defined.

(** The shell exits with this status; or the task is cancelled while it runs. *)
Definition shell (ends : result hook_raised hook_output) (_ : list (event hook_ans)) (c : hook_call) : hook_ans c :=
  match c with
  | MakeTemp prefix => Ok ("/tmp/" +:+ prefix +:+ "1")
  | NowAt => 0
  | Communicate _ _ => ends
  | RemoveWorkspace _ | WaitExit => true
  | KillGroup | CountFailure _ | CountRun _ _ => tt
  | _ => Ok tt
  end.
Definition sample_run (ends : result hook_raised hook_output) :=
  play (shell ends) (run_webhook_script sample_environ sample_script sample_event (seconds 600)) [].
Definition exits (returncode : Z) : result hook_raised hook_output :=
  Ok {| out_returncode := returncode; out_stdout := []; out_stderr := ["no token selected"] |}.
Lemma script_leaves_nothing_witness :
  map (fun ends => snd (sample_run ends)) [exits 0; exits 17; Err HCancelled; Err HTimeout]
  = [Ok tt; Err (HookExited 17 "no token [REDACTED]"); Err HCancelled; Err (HookTimedOut (seconds 120))]
  /\ match watch (watch_hook (script_expected sample_script sample_event sample_environ) (seconds 600) (seconds 120)) hook_start
            (fst (sample_run (Err HCancelled))) with
     | Goes s => left_nothing s (Err HCancelled)
     | _ => False
     end.
Proof.
  split; [vm_compute; reflexivity|].
  apply (script_leaves_nothing sample_environ sample_script sample_event (seconds 600) (fst (sample_run (Err HCancelled)))).
  exact (play_runs (shell (Err HCancelled)) (run_webhook_script sample_environ sample_script sample_event (seconds 600)) []).
Defined.
